(* ===== verification/_CoqProject ===== *)
-Q . S2P
Prelude.v
RustStr.v
F32.v
Artifact.v
Plan.v
Batch.v
PlanOps.v
Schedule.v
PlanWf.v
PlanSafe.v
PlanProps.v
PlanShape.v
Sim.v
ArtifactProps.v
RustPath.v
Command.v
Permission.v
PermissionProps.v
CommandProps.v
Workspace.v
Quota.v
Swarm.v
SwarmInv.v
SwarmCaps.v
SwarmProps.v
Touches.v
Lifecycle.v
LifecycleProps.v
Snapshot.v
Converge.v
ConvergeProps.v
Ownership.v
OwnershipInv.v
OwnershipProps.v
Monitor.v
MonitorProps.v
Guards.v
GuardsProps.v
Utf8.v
Chars.v
Message.v
Json.v
Fields.v
Provider.v
ToolInput.v
Thinking.v
Sse.v
SseProps.v
Files.v
EventLog.v
EventLogProps.v
Index.v
IndexProps.v
History.v
MessageProps.v
Compaction.v
CompactionProps.v
SessionParts.v
Flow.v
Turn.v
TurnWire.v
TurnInv.v
TurnProps.v
Wire.v
Brief.v
BriefProps.v
Progress.v
ProgressProps.v
Reconcile.v
ReconcileProps.v
Granularity.v
PlanReview.v
PlanReviewProps.v
Project.v
ProjectProps.v
Drafting.v
Intake.v
Conversation.v
ConversationProps.v
Envelope.v
