(* ===== verification/Prelude.v ===== *)
(** * LocalPilot: a verification library

    LocalPilot is a coding agent: a session holds a conversation with a language
    model, runs the tools the model asks for under a permission engine, stores
    what happened in a workspace-local event store, and can join with other
    sessions into swarms that work through a task graph.  This library models
    the parts of the workspace's crates (under src/crates/) that decide
    something, as executable definitions, and proves what the rest of the
    program relies on.

    ** Parts, and where they are modelled

    - The task graph (localpilot-taskgraph).  [Artifact] (artifact.rs, over
      [F32] and [RustStr]): reports and the lenient confidence reader.  [Plan]
      (plan.rs, error.rs): the plan as a map from node ids to nodes, the
      reachability walk.  [Batch], [PlanOps] (ops.rs): the nine operations that
      change a plan.  [Schedule] (schedule.rs): readiness, dispatch, the
      cascade.  [Sim] (sim.rs): the simulator, over a worker given as a class.
      [PlanWf] is the invariant, [PlanSafe] its preservation operation by
      operation, [PlanShape] what each operation does to the plan, [PlanProps],
      [ArtifactProps] the theorems; [Sim] holds its own.
    - The sandbox (localpilot-sandbox, localpilot-core/src/admission.rs).
      [RustPath], [Command] (command.rs), [Permission] (permission.rs),
      [Workspace] (path.rs, secret_path.rs, with its theorems); [CommandProps],
      [PermissionProps].
    - The swarm (localpilot-server/src/swarm).  [Swarm] (registry.rs): the
      registry; [SwarmInv], [SwarmCaps], [SwarmProps].  [Touches] (touches.rs
      and localpilot-tools/src/touch.rs, with its theorems).  [Lifecycle]
      (lifecycle.rs, messaging.rs) takes the registry and the task graph
      together: a worker that dies gives its tasks back to the plan of its
      swarm; [LifecycleProps].  [Snapshot] (the store of lifecycle.rs) keeps a
      registry and its plan across restarts, with its theorems.  [Converge]
      (converge.rs): two peers agreeing on one artifact; [ConvergeProps].
    - The event store (localpilot-store).  [Ownership] (ownership.rs, error.rs):
      who may write a session, as a machine of processes, locks and leases;
      [OwnershipInv], [OwnershipProps].  [Files] (atomic.rs): replacement and
      appends on a disk that fails, with its theorems.  [EventLog] (events.rs and
      the log of lib.rs) appends through [Files]; [EventLogProps].  [Index] (the
      rest of lib.rs): names, retention, keyed files, pruning; [IndexProps].
      [History] (history.rs): the prompt history, with its theorems.
    - The conversation (localpilot-core, localpilot-harness).  [Message]
      (message.rs, tool.rs, summary.rs, text.rs, secret.rs); [MessageProps].
      [Compaction] (compaction.rs): what is sent when a conversation is too
      long; [CompactionProps].
    - The turn (localpilot-harness/src/session.rs, unit_continuation.rs,
      dispatch_gate.rs).  [Flow]: code with state
      and early return, with its triples.  [SessionParts]: the session's pure
      helpers, its budget and its texts.  [Turn]: one function per step of
      [run_turn], from the user's message to the exit, over [Guards], [Monitor]
      and [Compaction]; what the session asks of the rest of the runtime (the
      provider, the tools, the permission prompt, memory) is the class [Host].
      [TurnWire] is what the conversation looks like on the wire, [TurnInv] the
      invariant with one triple per step, [TurnProps] the theorems.
    - The model providers (localpilot-llm-core, -openai, -anthropic).
      [Provider] (error.rs, event.rs, core's usage.rs): what a stream yields.
      [Thinking] (event.rs): the filter for reasoning written into the text,
      with its theorems.  [Sse] (the SseDecoder of both lib.rs): from the bytes
      of a body to events, one Module per wire over the shared [Lines];
      [SseProps].  [Wire] (translate_messages of both lib.rs): the conversation
      as JSON, with its theorems, which start from the closed histories that
      [TurnProps] shows a turn sends.
    - The arguments of a call (localpilot-tools).  [ToolInput] (validate.rs,
      repair.rs, contract.rs, schema_intent.rs), with its theorems.
    - The project's documents (localpilot-harness).  [Fields]: the standard
      library's methods on texts and their lines that the readers use.  [Brief]
      (brief.rs, binding.rs, error.rs): the brief and the revision of its
      canonical form; [BriefProps].  [Progress] (progress.rs): the plan of
      numbered steps; [ProgressProps].  [Reconcile] (plan_reconcile.rs): a new
      draft put together with the finished work; [ReconcileProps].
      [PlanReview] (plan_review.rs): what a plan must satisfy;
      [PlanReviewProps].  [Project] (workspace_state.rs, persist_approved_plan of
      plan_draft.rs, project_start.rs, init_git_workspace of resume.rs, feature
      of localpilot-cli/src/harness_cmd.rs): the two documents in one directory
      of a file map, the gate that lets a step run, approval, adoption, a new
      feature and the repository made before a run; [ProjectProps] composes the
      readers, reconciliation, review and [Files].
    - How the documents come about (localpilot-harness, localpilot-cli).
      [Drafting] (planning.rs, plan_draft.rs): a document asked of the model
      until it can be read, a plan sent back with its defects.  [Intake]
      (guidance.rs, intake.rs): the guidance gate, the brief and its revisions,
      the log of intakes, approval of a brief.  Both hold their theorems; the
      provider is the class [ModelProvider].  [Conversation] (fullscreen.rs,
      fullscreen_harness.rs, wait_resume_with_events of harness_cmd.rs): the one
      live conversation about a brief or a plan, the guide through both, the
      consent to run, the wait for the quota of an interrupted run ([Quota]) and
      a new feature; [perform] is one command of a session, over the files, the
      host's state, what was shown and the provider.  [ConversationProps] composes all of them, down to [Files].
    - The size of a unit of work (granularity.rs).  [Granularity]: the profile
      and what tightens it; [Envelope]: the reservation of a call before it
      runs, over a workspace given as a class, with its theorems.
    - Recovery (localpilot-recovery).  [Monitor] (detect.rs): the detector of
      degenerate output, whole and streaming; [Guards] (detect.rs, engine.rs):
      the counters of a turn; [MonitorProps], [GuardsProps].
    - Quota (localpilot-quota and the wait of localpilot-cli/src/harness_cmd.rs):
      [Quota], with its theorems.
    - The language's standard library, as far as it is used: [RustStr] (strings
      as bytes), [Utf8] and [Chars] (strings as characters and their bytes),
      [F32], [RustPath], [Json] (values read and built).  This file has results
      with early return, machine arithmetic, hints and lemmas on lists and maps.

    ** How state and effects are modelled

    A method on [&mut self] is a function from the state to the state and its
    [result]; the early return of the source's [?] keeps the state reached
    ([let!]).  What runs under one lock is one step; where other processes can
    come between (ownership, pruning) the steps are separate definitions.  A
    hash map is a [gmap], a [BTreeMap] a sorted structure or a [gmap] read in
    order, a [Vec] a list.  Integers keep their width where arithmetic may
    overflow: the source's wrapping, saturating and checked operations are
    written out.  Each operation on the disk is told by a record of answers
    which steps the operating system refuses and how much of a write it takes,
    so a theorem over all answers is one over all failures; a trace of disk
    states is every point at which the process may die.  Enumerations and
    records have the source's constructors and fields.  The turn runs in a state
    monad with an early return ([Flow]): a step either goes on with a value or
    leaves the turn with its exit, and the state reached is kept in both cases.

    ** What the theorems show

    - Plans: every reachable plan is coherent, acyclic and free of deadlock;
      finished tasks never change; a refused operation changes nothing; batch
      checking, the cascade and the simulator end and are exact.
    - Permission: no allowlist, profile or swap lifts the floors for untrusted
      workspaces, incognito sessions and denied leases; a resolved path stays in
      its roots; opaque commands are never run silently.
    - Swarms: the registry's indexes agree and its caps hold over every
      history; a pair joins whole or not at all; salvage settles in one pass; a
      snapshot file is a register that only moves forward through crashes; a
      converged pair has both peers' word for the artifact, in bounded rounds.
    - Store: at most one owner and one writer per session; a released handle is
      fenced; a torn write costs its own record only; replacement is all or
      nothing; names and retention are exact; pruning spares survivors.
    - Conversation: compaction keeps calls with their results and the request,
      and meets its budget or has nothing left to drop; redaction leaves no
      secret; the streaming monitor agrees with the whole-text detector.
    - Turns: whatever the provider, the tools and the user answer, a turn leaves
      every call of its conversation answered unless a guard stops it in the
      middle of a batch, sends only conversations whose calls are answered,
      never reaches its [unreachable!], stays within its budget of provider
      calls, and adds messages of the right roles; malformed calls cost no
      budget; the image limit is met; a budget found by calibration is safe.
    - Providers: how a body is cut into chunks cannot be seen; a response counts
      as complete only when the server said so; parallel calls keep apart, and
      calls cut off by the output limit never run; reasoning is kept off the
      reply however its tags are cut; both wires keep every answered call of a
      history with its answer.
    - Arguments: input that fits is used as it is; repair touches reported
      fields only, never a file's content or a command, never of a risky tool.
    - Documents: what a reader accepts is written and read back as it was, edits
      included; the revision tells briefs apart; replanning keeps every finished
      step's number, words and evidence or names the conflict, and doing it twice
      changes nothing; a review reports exactly the defects there are, and a plan
      that passes can be worked in order; an approved plan reaches the disk whole
      or not at all, and is the one found next.
    - Drafting: an attempt ends within nine requests, none of which loses what it
      is about; a draft holds the last plan that could be read; a gate asks
      about what is open; an approved brief is the one found next, and a plan
      made for another brief no longer runs.
    - Conversations: whatever commands come in whatever order, only approval of
      what was last shown writes the two documents, and a new feature, which
      extends them; a plan under review that is approved takes effect whole or
      changes nothing; a run starts on a consent to exactly what would run now,
      or continues an interrupted one after its quota; input never reaches another
      conversation than its own; a failed call loses nothing.
    - Units of work: what is admitted stays in the envelope, together and not
      call by call; nothing spent comes back and a refusal spends nothing.

    ** Fuel, and why it is enough

    A loop of the source that is not structural has fuel, and a theorem that the
    fuel does not run out: the walks over dependencies and over spawn edges keep
    a seen set and get the size of the map; the batch walk gets its positions
    and edges; the simulator's rounds and the pair's rounds are bounded by the
    source's own limits, twice [max_rounds] slots for a pair; a migration takes
    at most nine steps and has ten turns; renaming is tried forty times; the
    halving of a digest gets its length; the wait for a quota gets the naps that
    fit before its deadline; a push of the thinking filter gets two turns more
    than the characters it holds ([filter_push_ends]).  The fuel of a turn is the
    number of times round its loop. A turn need not end by itself (a provider
    that sends nothing but malformed calls is asked for ever), so running out is
    an exit of its own ([OutOfFuel]): the theorems on turns hold for every fuel,
    and a turn that ends, ends alike with more fuel ([run_turn_more_fuel]).

    ** Parameters

    Code outside the repository is a parameter, with the laws relied on as named
    hypotheses or class fields, and a concrete instance in the witnesses: JSON
    reading and printing, SHA-256, the standard hasher, the operating system's
    files and canonical paths, the endpoints of a pair, the clock, the patterns
    of the configured redaction, the lower case of a text, the way a
    workspace normalises a path, the text of an identifier, whether a command can
    be started on the host (Linux), and git, as what it answers and does to the
    files (theorems on a new repository assume, where they say so, that it
    leaves the files in the project's own directory alone).  For a turn, the
    parts of the runtime it calls are one class, [Host], whose operations act on
    a world of their own; of them the theorems ask (the record [contract]) that
    the calls of one answer have different ids, that its text beside calls does
    not pass for a summary, that a tool's result carries the id of its call, and
    a bound on what a delegate calls.  They are about turns that start on a
    history which answers every call it holds ([ready]); a budget or no-progress
    stop can leave one that does not.

    ** Not modelled

    The hosts and their user interfaces (localpilot-cli, terminal-ui, slash,
    render) beyond the wait for a quota and the conversations about documents:
    drawing, key input, the queue of prompts and its other commands.  The HTTP
    of the model providers (requests' other fields, headers, the quota they
    announce, credentials), memory and indexing (localpilot-localmind), protocol
    adapters, processes and Windows containment: I/O and presentation around
    what is modelled.  Of the harness, the loop that works the steps of a plan
    over git, with its rules, elision and step records; of the other crates,
    the mesh mailboxes, the resolution of releases and the promotion of
    self-improvements, which drive files, services and builds.  In the
    conversations a failure to draw, which ends the host, is left out, and what
    is shown is kept only where it is a document or a consent; ordinary turns,
    shell lines, the other slash commands and the run of a plan are changes of
    the files by others.  Derived
    serialisation, [Debug] and most [Display] texts of errors, and locks
    poisoned by a panic are left out throughout. *)

From stdpp Require Import base gmap list sorting strings pretty numbers.

(** ** Results and early returns

    [Result<T, E>] of the source.  [let? x := c in k] is the source's [?] in a
    function that returns a [Result]; [let! x := c or p in k] is the same [?]
    in an operation on a [&mut] argument: the early return hands back the
    state [p] reached so far together with the error. *)

Declare Scope pilot_scope.
Delimit Scope pilot_scope with pilot.

Inductive result (A E : Type) : Type :=
  | Ok (a : A)
  | Err (e : E).
Arguments Ok {A E} a.
Arguments Err {A E} e.

Notation "'let?' x ':=' c 'in' k" :=
  (match c with Ok x => k | Err e => Err e end)
  (at level 10, x pattern, c at level 100, k at level 200) : pilot_scope.
Notation "'let!' x ':=' c 'or' p 'in' k" :=
  (match c with Ok x => k | Err e => (p, Err e) end)
  (at level 10, x pattern, c at level 100, p at level 100, k at level 200)
  : pilot_scope.
#[global] Open Scope pilot_scope.

#[export] Instance result_eq_dec `{EqDecision A, EqDecision E} :
  EqDecision (result A E).
Proof. solve_decision. Defined.

Definition is_ok {A E} (r : result A E) : bool :=
  match r with Ok _ => true | Err _ => false end.

(** [Option::ok_or]. *)
Definition ok_or {A E} (o : option A) (e : E) : result A E :=
  match o with Some a => Ok a | None => Err e end.

Lemma ok_or_Ok {A E} (o : option A) (e : E) a :
  ok_or o e = Ok a ↔ o = Some a.
Proof. destruct o; naive_solver. Qed.

(** ** Machine integers

    Unsigned integers are [N].  A plain [+] wraps at the width, which is what
    the shipped profile does (the workspace's [Cargo.toml] never turns
    overflow checks on for release builds). *)

Definition U32_MAX : N := 4294967295.
Definition U64_MAX : N := 18446744073709551615.
Definition u32_add (a b : N) : N := (a + b) `mod` (U32_MAX + 1).
Definition u64_add (a b : N) : N := (a + b) `mod` (U64_MAX + 1).
(** [saturating_sub]. *)
Definition sat_sub (a b : N) : N := a - b.
(** [saturating_add] and [saturating_mul]. *)
Definition u64_sat_add (a b : N) : N := N.min (a + b) U64_MAX.
Definition u64_sat_mul (a b : N) : N := N.min (a * b) U64_MAX.

Lemma u32_add_small a b : (a + b <= U32_MAX)%N → u32_add a b = (a + b)%N.
Proof. intros. unfold u32_add, U32_MAX in *. apply N.mod_small. lia. Qed.

Lemma u64_add_small a b : (a + b <= U64_MAX)%N → u64_add a b = (a + b)%N.
Proof. intros. unfold u64_add, U64_MAX in *. apply N.mod_small. lia. Qed.

(** ** Sorted vectors: [sort_unstable] followed by [dedup] *)

#[export] Instance N_le_dec : RelDecision N.le := N.le_dec.

Definition sort_ids (l : list N) : list N := merge_sort N.le l.

(** [Vec::dedup]: drops consecutive repetitions. *)
Fixpoint dedup (l : list N) : list N :=
  match l with
  | x :: ((y :: _) as l') => if decide (x = y) then dedup l' else x :: dedup l'
  | _ => l
  end.

Definition sort_dedup (l : list N) : list N := dedup (sort_ids l).

Lemma elem_of_sort_ids x l : x ∈ sort_ids l ↔ x ∈ l.
Proof. unfold sort_ids. by rewrite merge_sort_Permutation. Qed.

Lemma elem_of_dedup x l : x ∈ dedup l ↔ x ∈ l.
Proof.
  induction l as [|y [|z l] IH]; [done..|].
  change (dedup (y :: z :: l)) with
    (if decide (y = z) then dedup (z :: l) else y :: dedup (z :: l)).
  case_decide; [subst|]; rewrite ?elem_of_cons, IH, ?elem_of_cons; tauto.
Qed.

Lemma elem_of_sort_dedup x l : x ∈ sort_dedup l ↔ x ∈ l.
Proof. unfold sort_dedup. by rewrite elem_of_dedup, elem_of_sort_ids. Qed.

Lemma Sorted_sort_ids l : StronglySorted N.le (sort_ids l).
Proof. apply StronglySorted_merge_sort; apply _. Qed.

Lemma StronglySorted_strict (l : list N) :
  StronglySorted N.le l → NoDup l → StronglySorted N.lt l.
Proof.
  induction 1 as [|x l _ IH Hx]; intros Hnd; [constructor|].
  apply list.NoDup_cons in Hnd as [Hnin Hnd]. constructor; [by apply IH|].
  rewrite list.Forall_forall in Hx |- *. intros y Hy. specialize (Hx y Hy).
  assert (x ≠ y) by congruence. lia.
Qed.

Lemma sort_ids_strict l : NoDup l → StronglySorted N.lt (sort_ids l).
Proof.
  intros Hl. apply StronglySorted_strict; [apply Sorted_sort_ids|].
  unfold sort_ids. by rewrite merge_sort_Permutation.
Qed.

Lemma dedup_sorted l : StronglySorted N.le l → StronglySorted N.lt (dedup l).
Proof.
  induction l as [|y [|z l] IH]; intros Hs.
  - constructor.
  - repeat constructor.
  - apply StronglySorted_inv in Hs as [Hs Hall].
    change (dedup (y :: z :: l)) with
      (if decide (y = z) then dedup (z :: l) else y :: dedup (z :: l)).
    case_decide as Hyz; [by apply IH|].
    constructor; [by apply IH|].
    apply list.Forall_forall. intros w Hw. rewrite elem_of_dedup in Hw.
    assert (y <= z)%N by (by apply Forall_inv in Hall).
    apply StronglySorted_inv in Hs as [_ Hz].
    apply elem_of_cons in Hw as [->|Hw]; [lia|].
    rewrite list.Forall_forall in Hz. specialize (Hz _ Hw). lia.
Qed.

Lemma sort_dedup_sorted l : StronglySorted N.lt (sort_dedup l).
Proof. apply dedup_sorted, Sorted_sort_ids. Qed.

Lemma filter_nil_iff {A} (P : A → Prop) `{!∀ x, Decision (P x)} (l : list A) :
  filter P l = [] ↔ ∀ x, x ∈ l → ¬ P x.
Proof.
  split.
  - intros Hf x Hx HP. assert (x ∈ filter P l) as Hin by by apply list_elem_of_filter.
    rewrite Hf in Hin. by apply not_elem_of_nil in Hin.
  - intros Hno. apply elem_of_nil_inv. intros x [HP Hx]%list_elem_of_filter.
    by apply (Hno x).
Qed.

(** ** Stacks held in a vector *)

Lemma elem_of_rev_append {A} (x : A) l k : x ∈ rev_append l k ↔ x ∈ l ∨ x ∈ k.
Proof.
  revert k. induction l as [|y l IH]; intros k; simpl.
  - rewrite elem_of_nil. tauto.
  - rewrite IH, !elem_of_cons. tauto.
Qed.

Lemma length_rev_append {A} (l k : list A) :
  length (rev_append l k) = (length l + length k)%nat.
Proof. by rewrite rev_append_rev, length_app, length_rev. Qed.

(** ** [BTreeMap] traversals

    A [BTreeMap<u32, V>] is a [gmap N V]; its iteration order, which the
    source relies on, is the ascending order of the keys. *)

Section btree.
Context {V : Type}.
Implicit Types m : gmap N V.

Definition btree_keys (m : gmap N V) : list N := sort_ids (elements (dom m)).
Definition btree_values (m : gmap N V) : list V :=
  omap (λ k, m !! k) (btree_keys m).

Lemma elem_of_btree_keys m k : k ∈ btree_keys m ↔ is_Some (m !! k).
Proof.
  unfold btree_keys. by rewrite elem_of_sort_ids, elem_of_elements, elem_of_dom.
Qed.

Lemma elem_of_btree_values m v :
  v ∈ btree_values m ↔ ∃ k, m !! k = Some v.
Proof.
  unfold btree_values. rewrite list_elem_of_omap. split.
  - intros (k & _ & ?). by exists k.
  - intros [k ?]. exists k. rewrite elem_of_btree_keys. eauto.
Qed.

Lemma btree_keys_NoDup m : NoDup (btree_keys m).
Proof.
  unfold btree_keys, sort_ids. rewrite merge_sort_Permutation.
  apply NoDup_elements.
Qed.

Lemma btree_values_perm m : btree_values m ≡ₚ (map_to_list m).*2.
Proof.
  unfold btree_values, btree_keys, sort_ids.
  assert (Hks : merge_sort N.le (elements (dom m)) ≡ₚ (map_to_list m).*1).
  { rewrite merge_sort_Permutation. apply NoDup_Permutation.
    - apply NoDup_elements.
    - apply NoDup_fst_map_to_list.
    - intros k. rewrite elem_of_elements, elem_of_dom, list_elem_of_fmap. split.
      + intros [v Hv]. exists (k, v). split; [done|]. by apply elem_of_map_to_list.
      + intros ([k' v] & -> & Hv). apply elem_of_map_to_list in Hv. by exists v. }
  rewrite Hks. clear Hks.
  assert (Hin : ∀ k v, (k, v) ∈ map_to_list m → m !! k = Some v)
    by (intros k v; apply elem_of_map_to_list).
  revert Hin. induction (map_to_list m) as [|[k v] l IH]; intros Hin; [done|].
  csimpl. rewrite (Hin k v) by by left. constructor. apply IH.
  intros k' v' H. apply Hin. by right.
Qed.

Lemma length_btree_values m : length (btree_values m) = size m.
Proof. by rewrite btree_values_perm, length_fmap, length_map_to_list. Qed.

Lemma btree_values_insert m k v :
  m !! k = None → btree_values (<[k := v]> m) ≡ₚ v :: btree_values m.
Proof. intros Hk. by rewrite !btree_values_perm, map_to_list_insert. Qed.

Lemma btree_values_delete m k v :
  m !! k = Some v → btree_values m ≡ₚ v :: btree_values (delete k m).
Proof.
  intros Hk. rewrite <-(insert_delete_id m k v Hk) at 1.
  apply btree_values_insert. apply lookup_delete_eq.
Qed.

Lemma length_btree_keys m : length (btree_keys m) = size m.
Proof.
  unfold btree_keys, sort_ids. rewrite merge_sort_Permutation.
  by rewrite <-size_dom.
Qed.
End btree.

(** ** Well-founded wait graphs

    [R x y] reads "x waits on y".  A node is grounded when every chain of
    waits that starts at it is finite; a graph is safe to run when every node
    is grounded.  These lemmas are the ones every operation on a task graph
    needs: a grounded graph has no cycle, and rewiring one node keeps the graph
    grounded as soon as none of its new targets can reach it. *)

Section waits.
Context {A : Type}.
Implicit Types R : relation A.

Definition grounded (R : relation A) (x : A) : Prop := Acc (λ y x, R x y) x.

Lemma grounded_intro R x : (∀ y, R x y → grounded R y) → grounded R x.
Proof. intros H. constructor. exact H. Qed.

Lemma grounded_inv R x y : grounded R x → R x y → grounded R y.
Proof. intros [H]. apply H. Qed.

Lemma tc_last R x z : tc R x z → ∃ y, rtc R x y ∧ R y z.
Proof.
  induction 1 as [x z Hxz|x y z Hxy _ (w & Hyw & Hwz)].
  - by exists x; split; [apply rtc_refl|].
  - exists w. split; [by eapply rtc_l|done].
Qed.

Lemma grounded_no_cycle R x : grounded R x → ¬ tc R x x.
Proof.
  intros Hx. induction Hx as [x _ IH]. intros Hc.
  inversion Hc as [? ? Hxx|? y ? Hxy Hyx]; subst.
  - by apply (IH x Hxx), tc_once.
  - apply (IH y Hxy). by eapply tc_r.
Qed.

(** Groundedness only looks at the part of the graph a node can reach. *)
Lemma grounded_transfer R R' (P : A → Prop) x :
  (∀ a b, P a → R' a b → R a b ∧ P b) →
  P x → grounded R x → grounded R' x.
Proof.
  intros Hstep Hx Hg. induction Hg as [x _ IH].
  apply grounded_intro. intros y Hy. destruct (Hstep x y Hx Hy). by apply IH.
Qed.

Lemma grounded_rewire R R' t x :
  (∀ a b, a ≠ t → R' a b → R a b) →
  (∀ b, R' t b → grounded R b ∧ ¬ rtc R b t) →
  (∀ a : A, a = t ∨ a ≠ t) →
  grounded R x → grounded R' x.
Proof.
  intros Hother Ht Hdec Hx.
  assert (Hfree : ∀ u, grounded R u → ¬ rtc R u t → grounded R' u).
  { intros u Hu Hnr. apply (grounded_transfer R R' (λ a, ¬ rtc R a t)); [|done..].
    intros a b Ha Hab.
    assert (a ≠ t) as Hat by (intros ->; by apply Ha).
    pose proof (Hother _ _ Hat Hab) as HR. split; [done|].
    intros Hb. apply Ha. by eapply rtc_l. }
  induction Hx as [x _ IH]. apply grounded_intro. intros y Hy.
  destruct (Hdec x) as [->|Hne].
  - destruct (Ht y Hy). by apply Hfree.
  - apply IH. by apply Hother.
Qed.
End waits.

(** ** Shared automation *)

Create HintDb pilot.
Create Rewrite HintDb pilot.
#[export] Hint Resolve sort_dedup_sorted btree_keys_NoDup : pilot.
#[export] Hint Rewrite @elem_of_sort_dedup @elem_of_btree_keys
  @elem_of_btree_values : pilot.

(** Breaks the first [match] whose scrutinee is not itself a match, in the
    goal or in the hypothesis under consideration. *)
Ltac split_match :=
  match goal with
  | |- context [match ?x with _ => _ end] =>
      lazymatch x with context [match _ with _ => _ end] => fail | _ => idtac end;
      let E := fresh "E" in destruct x eqn:E
  | H : context [match ?x with _ => _ end] |- _ =>
      lazymatch x with context [match _ with _ => _ end] => fail | _ => idtac end;
      let E := fresh "E" in destruct x eqn:E
  end.

(** Case analysis to the leaves of a decision function. *)
Ltac crush_cases := repeat (split_match; simplify_eq/=); try done.
