(* ===== verification/RustStr.v ===== *)
(** * Rust string slices

    A [String] or [&str] is its UTF-8 bytes, as a [string].  This file has the
    [str] methods the modelled crates call: [trim], [to_ascii_lowercase],
    [contains], [starts_with], [ends_with], [split_once], [join] and the
    [Display] of an unsigned integer. *)

From stdpp Require Import base list strings pretty numbers.
From S2P Require Import Prelude.

Abbreviation code := Ascii.N_of_ascii.

(** ** [str::trim]

    [trim] removes every leading and trailing [char] with the Unicode property
    [White_Space].  Those characters take one, two or three UTF-8 bytes. *)

Definition ws1 (a : Ascii.ascii) : bool :=
  bool_decide (9 <= code a <= 13)%N || (code a =? 32)%N.
(** U+0085 and U+00A0. *)
Definition ws2 (a b : Ascii.ascii) : bool :=
  (code a =? 0xC2)%N && ((code b =? 0x85)%N || (code b =? 0xA0)%N).
(** U+1680, U+2000-U+200A, U+2028, U+2029, U+202F, U+205F and U+3000. *)
Definition ws3 (a b c : Ascii.ascii) : bool :=
  ((code a =? 0xE1)%N && (code b =? 0x9A)%N && (code c =? 0x80)%N)
  || ((code a =? 0xE2)%N && (code b =? 0x80)%N
      && (bool_decide (0x80 <= code c <= 0x8A)%N || (code c =? 0xA8)%N
          || (code c =? 0xA9)%N || (code c =? 0xAF)%N))
  || ((code a =? 0xE2)%N && (code b =? 0x81)%N && (code c =? 0x9F)%N)
  || ((code a =? 0xE3)%N && (code b =? 0x80)%N && (code c =? 0x80)%N).

(** Drops the longest prefix made of characters the three tests accept. *)
Fixpoint drop_ws (w2 : Ascii.ascii → Ascii.ascii → bool)
    (w3 : Ascii.ascii → Ascii.ascii → Ascii.ascii → bool) (s : string) : string :=
  match s with
  | EmptyString => s
  | String a s1 =>
      if ws1 a then drop_ws w2 w3 s1 else
      match s1 with
      | EmptyString => s
      | String b s2 =>
          if w2 a b then drop_ws w2 w3 s2 else
          match s2 with
          | EmptyString => s
          | String c s3 => if w3 a b c then drop_ws w2 w3 s3 else s
          end
      end
  end.

Definition trim_start (s : string) : string := drop_ws ws2 ws3 s.
Definition trim_end (s : string) : string :=
  String.rev (drop_ws (λ b a, ws2 a b) (λ c b a, ws3 a b c) (String.rev s)).
Definition trim (s : string) : string := trim_end (trim_start s).

(** [s.trim().is_empty()]. *)
Definition is_blank (s : string) : bool := bool_decide (trim s = "").

(** ** Searching and case *)

Definition lower_ascii (a : Ascii.ascii) : Ascii.ascii :=
  if bool_decide (65 <= code a <= 90)%N then Ascii.ascii_of_N (code a + 32) else a.

Fixpoint to_ascii_lowercase (s : string) : string :=
  match s with
  | EmptyString => EmptyString
  | String a s => String (lower_ascii a) (to_ascii_lowercase s)
  end.

Definition starts_with (pre s : string) : bool := String.prefix pre s.

Fixpoint contains (needle hay : string) : bool :=
  starts_with needle hay ||
  match hay with EmptyString => false | String _ hay => contains needle hay end.

Definition ends_with (suf s : string) : bool :=
  starts_with (String.rev suf) (String.rev s).

Definition strip_prefix (pre s : string) : option string :=
  if starts_with pre s
  then Some (String.substring (String.length pre) (String.length s) s) else None.

(** [str::contains(char)] for an ASCII character. *)
Fixpoint has_char (c : Ascii.ascii) (s : string) : bool :=
  match s with
  | EmptyString => false
  | String a s => bool_decide (a = c) || has_char c s
  end.

(** [str::split_once(char)] for an ASCII character. *)
Fixpoint split_once (c : Ascii.ascii) (s : string) : option (string * string) :=
  match s with
  | EmptyString => None
  | String a s =>
      if bool_decide (a = c) then Some (EmptyString, s)
      else match split_once c s with
           | Some (l, r) => Some (String a l, r)
           | None => None
           end
  end.

Definition join (sep : string) (l : list string) : string := String.concat sep l.

(** ** [Display] of an unsigned integer *)

Definition show_N (n : N) : string := pretty n.

(** ** Lemmas *)

Lemma contains_char_spec c s :
  has_char c s = true ↔ ∃ l r, s = String.append l (String c r).
Proof.
  induction s as [|a s IH]; simpl.
  - split; [done|]. by intros ([|? l] & r & ?).
  - rewrite orb_true_iff, bool_decide_eq_true, IH. split.
    + intros [->|(l & r & ->)]; [by exists "", s|by exists (String a l), r].
    + intros ([|a' l] & r & Heq); injection Heq as -> Heq; [by left|].
      right. by exists l, r.
Qed.

Lemma split_once_spec c s l r :
  split_once c s = Some (l, r) →
  s = String.append l (String c r) ∧ has_char c l = false.
Proof.
  revert l. induction s as [|a s IH]; intros l; simpl; [done|].
  case_bool_decide as Hac; [intros; by simplify_eq/=|].
  destruct (split_once c s) as [[l' r']|]; [|done]. intros ?; simplify_eq/=.
  destruct (IH l' eq_refl) as [-> Hl]. split; [done|].
  by rewrite bool_decide_eq_false_2, Hl.
Qed.
