(* ===== verification/F32.v ===== *)
(** * Binary32 floats

    [f32] is the standard library's executable IEEE-754 model at precision 24
    and maximal exponent 128.  This file has what the modelled crates use of
    it: comparison, division, [clamp], [str::parse::<f32>] and the [{:.2}]
    format. *)

From Stdlib Require Import ZArith SpecFloat Ascii.
From stdpp Require Import base list strings pretty numbers.
From S2P Require Import Prelude RustStr.
#[local] Open Scope string_scope.

Definition f32 : Type := spec_float.

Definition f32_div (a b : f32) : f32 := SFdiv 24 128 a b.
Definition f32_ltb (a b : f32) : bool := SFltb a b.
Definition f32_leb (a b : f32) : bool := SFleb a b.
Definition f32_is_nan (a : f32) : bool :=
  match a with S754_nan => true | _ => false end.

(** [f32::clamp]: two strict comparisons, so a NaN goes through unchanged. *)
Definition f32_clamp (v lo hi : f32) : f32 :=
  if f32_ltb v lo then lo else if f32_ltb hi v then hi else v.

(** The float nearest to [m * 10^e], ties to even: what both a literal of the
    source and [str::parse] give. *)
Definition f32_of_decimal (neg : bool) (m : N) (e : Z) : f32 :=
  match m with
  | 0%N => S754_zero neg
  | Npos p =>
      if (0 <=? e)%Z then
        match (Zpos p * 10 ^ e)%Z with
        | Zpos q => binary_round 24 128 neg q 0
        | _ => S754_zero neg
        end
      else
        match (10 ^ (- e))%Z with
        | Zpos d => SFdiv 24 128 (S754_finite neg p 0) (S754_finite false d 0)
        | _ => S754_nan
        end
  end.

Definition f32_0 : f32 := f32_of_decimal false 0 0.
Definition f32_1 : f32 := f32_of_decimal false 1 0.
Definition f32_10 : f32 := f32_of_decimal false 10 0.
Definition f32_100 : f32 := f32_of_decimal false 100 0.

(** ** Parsing *)

Definition digit_val (a : Ascii.ascii) : option N :=
  if bool_decide (48 <= code a <= 57)%N then Some (code a - 48)%N else None.

(** The longest run of digits: its value appended to [acc], how many digits,
    and the rest. *)
Fixpoint take_digits (acc n : N) (s : string) : N * N * string :=
  match s with
  | String a s' =>
      match digit_val a with
      | Some d => take_digits (acc * 10 + d) (n + 1) s'
      | None => (acc, n, s)
      end
  | EmptyString => (acc, n, s)
  end.

(** An optional sign; [true] for a minus. *)
Definition take_sign (s : string) : bool * string :=
  match s with
  | String "-"%char s' => (true, s')
  | String "+"%char s' => (false, s')
  | _ => (false, s)
  end.

(** The optional exponent, which has to end the text. *)
Definition parse_exponent (s : string) : option Z :=
  match s with
  | EmptyString => Some 0%Z
  | String a s' =>
      if bool_decide (a = "e"%char) || bool_decide (a = "E"%char) then
        let '(neg, s1) := take_sign s' in
        let '(v, n, rest) := take_digits 0 0 s1 in
        if (n =? 0)%N then None
        else match rest with
             | EmptyString => Some (if neg then (- Z.of_N v)%Z else Z.of_N v)
             | _ => None
             end
      else None
  end.

(** [str::parse::<f32>]: [None] for a [ParseFloatError]. *)
Definition parse_f32 (s : string) : option f32 :=
  let '(neg, s0) := take_sign s in
  let low := to_ascii_lowercase s0 in
  if bool_decide (low = "inf") || bool_decide (low = "infinity")
  then Some (S754_infinity neg)
  else if bool_decide (low = "nan") then Some S754_nan
  else
    let '(m0, n0, s1) := take_digits 0 0 s0 in
    let '(m, n, s2) :=
      match s1 with
      | String "."%char s1' => let '(m1, n1, s2) := take_digits m0 0 s1' in (m1, n1, s2)
      | _ => (m0, 0%N, s1)
      end in
    if (n0 + n =? 0)%N then None
    else match parse_exponent s2 with
         | Some e => Some (f32_of_decimal neg m (e - Z.of_N n))
         | None => None
         end.

(** ** The [{:.2}] format: exact decimal expansion, ties to even *)

Definition round_half_even (num den : N) : N :=
  let q := (num / den)%N in
  let r := (num `mod` den)%N in
  match (2 * r ?= den)%N with
  | Lt => q
  | Gt => q + 1
  | Eq => if N.even q then q else q + 1
  end%N.

Definition show_hundredths (h : N) : string :=
  let frac := (h `mod` 100)%N in
  show_N (h / 100) +:+ "." +:+ (if (frac <? 10)%N then "0" else "") +:+ show_N frac.

Definition show_f32_2 (v : f32) : string :=
  let sign (neg : bool) := if neg then "-" else "" in
  match v with
  | S754_zero neg => sign neg +:+ "0.00"
  | S754_infinity neg => sign neg +:+ "inf"
  | S754_nan => "NaN"
  | S754_finite neg m e =>
      sign neg +:+ show_hundredths
        (match e with
         | Zneg k => round_half_even (Npos m * 100) (2 ^ Npos k)
         | _ => (Npos m * 100 * 2 ^ Z.to_N e)%N
         end)
  end.

(** ** Lemmas *)

Lemma SFcompare_flip a b :
  SFcompare b a = CompOpp <$> SFcompare a b.
Proof.
  destruct a as [[]|[]| |[] m e], b as [[]|[]| |[] m' e']; try done; simpl;
    rewrite (Z.compare_antisym e e'); destruct (Z.compare e e'); try done;
    rewrite (ZC4 m' m); by destruct (Pos.compare_cont Eq m m').
Qed.

Lemma SFcompare_total a b :
  f32_is_nan a = false → f32_is_nan b = false → is_Some (SFcompare a b).
Proof.
  destruct a as [[]|[]| |[] m e], b as [[]|[]| |[] m' e']; simpl; try done;
    intros _ _; try (by eexists); destruct (Z.compare e e'); by eexists.
Qed.

(** On numbers the order is total: not below means at least. *)
Lemma f32_ltb_leb a b :
  f32_is_nan a = false → f32_is_nan b = false →
  f32_ltb a b = false → f32_leb b a = true.
Proof.
  intros Ha Hb. unfold f32_ltb, SFltb, f32_leb, SFleb.
  destruct (SFcompare_total a b Ha Hb) as [c Hc].
  rewrite (SFcompare_flip a b), Hc. by destruct c.
Qed.

Lemma f32_leb_refl a : f32_is_nan a = false → f32_leb a a = true.
Proof.
  intros Ha. destruct (f32_ltb a a) eqn:Hlt.
  - unfold f32_ltb, SFltb in Hlt. unfold f32_leb, SFleb.
    destruct (SFcompare a a) as [[]|]; done.
  - by apply f32_ltb_leb.
Qed.

(** A clamped number is a number between the two bounds. *)
Lemma f32_clamp_range v lo hi :
  f32_is_nan v = false → f32_is_nan lo = false → f32_is_nan hi = false →
  f32_leb lo hi = true →
  f32_leb lo (f32_clamp v lo hi) = true ∧ f32_leb (f32_clamp v lo hi) hi = true.
Proof.
  intros Hv Hlo Hhi Hle. unfold f32_clamp.
  destruct (f32_ltb v lo) eqn:Hl; [by auto using f32_leb_refl|].
  destruct (f32_ltb hi v) eqn:Hh; [by auto using f32_leb_refl|].
  auto using f32_ltb_leb.
Qed.
