(* ===== verification/Artifact.v ===== *)
(** * Handoff artifacts (crates/localpilot-taskgraph/src/artifact.rs)

    The typed report a finished task hands on, and the lenient reader of a
    model's confidence.  [Confidence] is the source's newtype over [f32]. *)

From Stdlib Require Import SpecFloat Ascii.
From stdpp Require Import base list strings pretty numbers.
From S2P Require Import Prelude RustStr F32.
#[local] Open Scope string_scope.

(** ** Confidence *)

Record Confidence := mkConfidence { conf_value : f32 }.

Definition Confidence_NONE : Confidence := mkConfidence f32_0.
Definition Confidence_FULL : Confidence := mkConfidence f32_1.

Definition Confidence_new (value : f32) : Confidence :=
  mkConfidence (f32_clamp value f32_0 f32_1).

Definition at_least (c floor : Confidence) : bool :=
  f32_leb (conf_value floor) (conf_value c).

Definition show_confidence (c : Confidence) : string := show_f32_2 (conf_value c).

Inductive ConfidenceError :=
  | Missing
  | Unreadable (raw : string).

Definition lit (m : N) (e : Z) : f32 := f32_of_decimal false m e.

Definition WORD_SCALE : list (string * f32) :=
  [("very low", lit 1 (-1)); ("very high", lit 95 (-2)); ("certain", lit 10 (-1));
   ("none", lit 0 (-1)); ("low", lit 25 (-2)); ("moderate", lit 5 (-1));
   ("medium", lit 5 (-1)); ("high", lit 8 (-1))].

(** [trim_matches] with the test "neither a digit nor one of . / %".  Every
    byte of a non-ASCII character passes the test, so dropping bytes is
    dropping characters. *)
Definition noise (a : Ascii.ascii) : bool :=
  negb (bool_decide (48 <= code a <= 57)%N || (code a =? 46)%N
        || (code a =? 47)%N || (code a =? 37)%N).

Fixpoint drop_noise (s : string) : string :=
  match s with
  | String a s' => if noise a then drop_noise s' else s
  | EmptyString => s
  end.

Definition trim_noise (s : string) : string :=
  String.rev (drop_noise (String.rev (drop_noise s))).

(** [str::strip_suffix('%')]. *)
Definition strip_percent (s : string) : option string :=
  match String.rev s with
  | String a s' => if (code a =? 37)%N then Some (String.rev s') else None
  | EmptyString => None
  end.

Definition read_numeric (token : string) : option Confidence :=
  let token := trim_noise token in
  if bool_decide (token = "") then None
  else match split_once "/" token with
  | Some (num, den) =>
      match parse_f32 (trim num) with
      | None => None
      | Some num =>
          match parse_f32 (trim den) with
          | None => None
          | Some den =>
              if f32_leb den f32_0 then None
              else Some (Confidence_new (f32_div num den))
          end
      end
  | None =>
      match strip_percent token with
      | Some percent =>
          match parse_f32 (trim percent) with
          | None => None
          | Some value => Some (Confidence_new (f32_div value f32_100))
          end
      | None =>
          match parse_f32 token with
          | None => None
          | Some value =>
              Some (Confidence_new
                (if f32_leb value f32_1 then value
                 else if f32_leb value f32_10 then f32_div value f32_10
                 else f32_div value f32_100))
          end
      end
  end.

(** [lower.split(|c| c.is_whitespace() || c == ',' || c == ';')]; [cur] is the
    current piece, reversed. *)
Fixpoint split_tokens (cur : string) (s : string) : list string :=
  match s with
  | EmptyString => [String.rev cur]
  | String a s1 =>
      if ws1 a || (code a =? 44)%N || (code a =? 59)%N
      then String.rev cur :: split_tokens "" s1
      else
      let one := split_tokens (String a cur) s1 in
      match s1 with
      | EmptyString => one
      | String b s2 =>
          if ws2 a b then String.rev cur :: split_tokens "" s2 else
          match s2 with
          | EmptyString => one
          | String c s3 =>
              if ws3 a b c then String.rev cur :: split_tokens "" s3 else one
          end
      end
  end.

Fixpoint first_some {A B} (f : A → option B) (l : list A) : option B :=
  match l with
  | [] => None
  | x :: l => match f x with Some y => Some y | None => first_some f l end
  end.

(** [str::replace(' ', "")]. *)
Fixpoint remove_spaces (s : string) : string :=
  match s with
  | EmptyString => EmptyString
  | String a s => if (code a =? 32)%N then remove_spaces s else String a (remove_spaces s)
  end.

Definition parse_confidence (raw : string) : result Confidence ConfidenceError :=
  let trimmed := trim raw in
  if bool_decide (trimmed = "") then Err Missing
  else
    let lower := to_ascii_lowercase trimmed in
    match first_some (λ '(needle, value),
            if contains needle lower then Some (Confidence_new value) else None)
          WORD_SCALE with
    | Some c => Ok c
    | None =>
        match (if has_char "/" lower then read_numeric (remove_spaces lower) else None) with
        | Some found => Ok found
        | None =>
            match first_some read_numeric (split_tokens "" lower) with
            | Some found => Ok found
            | None => Err (Unreadable trimmed)
            end
        end
    end.

(** The two shapes the [Deserialize] instance accepts. *)
Inductive RawConfidence :=
  | RawNumber (value : f32)
  | RawText (text : string).

Definition deserialize_confidence (r : RawConfidence)
  : result Confidence ConfidenceError :=
  match r with
  | RawNumber value => Ok (Confidence_new value)
  | RawText text => parse_confidence text
  end.

(** ** The artifact *)

Record HandoffArtifact := mkArtifact {
  findings : string;
  evidence : list string;
  edge_cases : list string;
  validation : string;
  open_questions : list string;
  confidence : Confidence;
  what_i_did_not_check : string;
}.

Definition HandoffArtifact_new (fs : string) (c : Confidence) : HandoffArtifact :=
  {| findings := fs; evidence := []; edge_cases := []; validation := "";
     open_questions := []; confidence := c; what_i_did_not_check := "" |}.

Definition with_gap (a : HandoffArtifact) (gap : string) : HandoffArtifact :=
  {| findings := findings a; evidence := evidence a; edge_cases := edge_cases a;
     validation := validation a; open_questions := open_questions a;
     confidence := confidence a; what_i_did_not_check := gap |}.

Definition with_evidence (a : HandoffArtifact) (e : string) : HandoffArtifact :=
  {| findings := findings a; evidence := evidence a ++ [e]; edge_cases := edge_cases a;
     validation := validation a; open_questions := open_questions a;
     confidence := confidence a; what_i_did_not_check := what_i_did_not_check a |}.

Definition with_validation (a : HandoffArtifact) (v : string) : HandoffArtifact :=
  {| findings := findings a; evidence := evidence a; edge_cases := edge_cases a;
     validation := v; open_questions := open_questions a;
     confidence := confidence a; what_i_did_not_check := what_i_did_not_check a |}.

Definition NL : string := String (ascii_of_N 10) "".

Definition push_list (out heading : string) (items : list string) : string :=
  let items := filter (λ i, is_blank i = false) items in
  match items with
  | [] => out
  | _ => foldl (λ out item, out +:+ "- " +:+ trim item +:+ NL)
           (out +:+ heading +:+ ":" +:+ NL) items
  end.

Definition render (a : HandoffArtifact) (label : string) : string :=
  let out := "### " +:+ label +:+ NL +:+ trim (findings a) +:+ NL in
  let out := push_list out "Evidence" (evidence a) in
  let out := push_list out "Edge cases" (edge_cases a) in
  let out := if is_blank (validation a) then out
             else out +:+ "Validation: " +:+ trim (validation a) +:+ NL in
  let out := push_list out "Open questions" (open_questions a) in
  let out := if is_blank (what_i_did_not_check a) then out
             else out +:+ "Not checked: " +:+ trim (what_i_did_not_check a) +:+ NL in
  out +:+ "Confidence: " +:+ show_confidence (confidence a) +:+ NL.
