(* ===== verification/Plan.v ===== *)
(** * The task graph's data (crates/localpilot-taskgraph/src/plan.rs, error.rs)

    Nodes, their states, and the plan that owns them; the reachability check
    over the dependency edges; the crate-internal mutators every operation of
    [PlanOps] and [Schedule] is built from. *)

From stdpp Require Import base gmap list sorting strings pretty numbers.
From S2P Require Import Prelude RustStr Artifact.
#[local] Open Scope string_scope.

Record ActorId := mkActor { as_str : string }.
#[export] Instance ActorId_eq_dec : EqDecision ActorId.
Proof. solve_decision. Defined.

(** [NodeId(u32)]. *)
Abbreviation NodeId := N.

Definition show_node (id : NodeId) : string := "#" +:+ show_N id.

Inductive NodeKind := Task | Gate.
#[export] Instance NodeKind_eq_dec : EqDecision NodeKind.
Proof. solve_decision. Defined.

Inductive TaskStatus :=
  | Pending
  | Assigned (assignee : ActorId)
  | Complete
  | Failed (reason : string)
  | Abandoned (reason : string).
#[export] Instance TaskStatus_eq_dec : EqDecision TaskStatus.
Proof. solve_decision. Defined.

Definition status_is_terminal (s : TaskStatus) : bool :=
  match s with
  | Complete | Failed _ | Abandoned _ => true
  | _ => false
  end.

Definition label (s : TaskStatus) : string :=
  match s with
  | Pending => "pending"
  | Assigned _ => "assigned"
  | Complete => "complete"
  | Failed _ => "failed"
  | Abandoned _ => "abandoned"
  end.

Record TaskNode := mkNode {
  id : NodeId;
  title : string;
  prompt : string;
  kind : NodeKind;
  owner : ActorId;
  status : TaskStatus;
  upstream : list NodeId;
  artifact : option HandoffArtifact;
  reclaims : N;
  model : option string;
}.

Definition is_terminal (n : TaskNode) : bool := status_is_terminal (status n).

Definition assignee (n : TaskNode) : option ActorId :=
  match status n with Assigned a => Some a | _ => None end.

(** Field updates ([target.status = ..] and the like). *)
Definition set_status (s : TaskStatus) (n : TaskNode) : TaskNode :=
  mkNode (id n) (title n) (prompt n) (kind n) (owner n) s (upstream n)
    (artifact n) (reclaims n) (model n).
Definition set_upstream (ups : list NodeId) (n : TaskNode) : TaskNode :=
  mkNode (id n) (title n) (prompt n) (kind n) (owner n) (status n) ups
    (artifact n) (reclaims n) (model n).
Definition set_artifact (a : option HandoffArtifact) (n : TaskNode) : TaskNode :=
  mkNode (id n) (title n) (prompt n) (kind n) (owner n) (status n) (upstream n)
    a (reclaims n) (model n).
Definition set_reclaims (r : N) (n : TaskNode) : TaskNode :=
  mkNode (id n) (title n) (prompt n) (kind n) (owner n) (status n) (upstream n)
    (artifact n) r (model n).

Inductive PlanMode := Light | Deep.
#[export] Instance PlanMode_eq_dec : EqDecision PlanMode.
Proof. solve_decision. Defined.

Definition is_deep (m : PlanMode) : bool :=
  match m with Deep => true | Light => false end.

Record NodeSpec := mkSpec {
  spec_title : string;
  spec_prompt : string;
  spec_kind : NodeKind;
  depends_on_batch : list nat;
  spec_model : option string;
}.

Definition task (t p : string) : NodeSpec := mkSpec t p Task [] None.
Definition gate (t p : string) : NodeSpec := mkSpec t p Gate [] None.
Definition after (s : NodeSpec) (index : nat) : NodeSpec :=
  mkSpec (spec_title s) (spec_prompt s) (spec_kind s)
    (depends_on_batch s ++ [index]) (spec_model s).
Definition on_model (s : NodeSpec) (m : string) : NodeSpec :=
  mkSpec (spec_title s) (spec_prompt s) (spec_kind s) (depends_on_batch s) (Some m).

Record TaskPlan := mkPlan {
  objective : string;
  mode : PlanMode;
  coordinator : ActorId;
  version : N;
  nodes : gmap NodeId TaskNode;
  next_id : N;
  applied_seeds : gmap string (list NodeId);
}.

(** Why a mutation was refused. *)
Inductive PlanError :=
  | UnknownNode (node : NodeId)
  | NotOwner (node : NodeId) (actor owner : ActorId)
  | WrongAssignee (node : NodeId) (actor assignee : ActorId)
  | NotAssigned (node : NodeId)
  | AlreadyTerminal (node : NodeId) (state : string)
  | WouldCycle (dependent dependency : NodeId)
  | BatchIndexOutOfRange (index len : nat)
  | BatchCycle (index : nat)
  | EmptyBatch (what : string)
  | IncompleteArtifact (node : NodeId) (missing : string)
  | RubberStampGate (node : NodeId)
  | NotAGate (node : NodeId)
  | NotReady (node : NodeId) (waiting_on : list NodeId)
  | AlreadyAssigned (node : NodeId) (assignee : ActorId)
  | Blocked (node : NodeId) (blocked_by : list NodeId)
  | ReclaimBudgetExhausted (node : NodeId) (reclaims limit : N).
#[export] Instance PlanError_eq_dec : EqDecision PlanError.
Proof. solve_decision. Defined.

Definition set_nodes (ns : gmap NodeId TaskNode) (p : TaskPlan) : TaskPlan :=
  mkPlan (objective p) (mode p) (coordinator p) (version p) ns (next_id p)
    (applied_seeds p).

(** [TaskPlan::new]. *)
Definition new (obj : string) (m : PlanMode) (coord : ActorId) : TaskPlan :=
  mkPlan obj m coord 0 ∅ 1 ∅.

Definition bump_version (p : TaskPlan) : TaskPlan :=
  mkPlan (objective p) (mode p) (coordinator p) (u64_add (version p) 1) (nodes p)
    (next_id p) (applied_seeds p).

Definition set_coordinator (p : TaskPlan) (c : ActorId) : TaskPlan :=
  if decide (coordinator p = c) then p
  else mkPlan (objective p) (mode p) c (u64_add (version p) 1) (nodes p)
         (next_id p) (applied_seeds p).

Definition node (p : TaskPlan) (i : NodeId) : option TaskNode := nodes p !! i.

(** [nodes()]: every node, in id order. *)
Definition node_list (p : TaskPlan) : list TaskNode := btree_values (nodes p).

Definition len (p : TaskPlan) : nat := size (nodes p).
Definition is_empty (p : TaskPlan) : bool := bool_decide (nodes p = ∅).
Definition is_settled (p : TaskPlan) : bool := forallb is_terminal (node_list p).

Definition dependents (p : TaskPlan) (i : NodeId) : list NodeId :=
  id <$> filter (λ n, i ∈ upstream n) (node_list p).

(** ** The reachability walk

    An explicit stack (its top is the head of the list) and the set of nodes
    already expanded.  [None] means the fuel ran out. *)
Fixpoint dfs (ns : gmap NodeId TaskNode) (from to : NodeId) (fuel : nat)
    (stack : list NodeId) (seen : gset NodeId) : option bool :=
  match fuel with
  | O => None
  | S fuel =>
      match stack with
      | [] => Some false
      | current :: stack =>
          if decide (current = to ∧ current ≠ from) then Some true
          else if decide (current ∈ seen) then dfs ns from to fuel stack seen
          else
            let seen := {[current]} ∪ seen in
            match ns !! current with
            | Some n =>
                if decide (to ∈ upstream n) then Some true
                else dfs ns from to fuel (rev_append (upstream n) stack) seen
            | None => dfs ns from to fuel stack seen
            end
      end
  end.

(** Every edge is pushed at most once. *)
Definition edge_budget (ns : gmap NodeId TaskNode) (seen : gset NodeId) : nat :=
  sum_list_with (λ k, if decide (k ∈ seen) then 0
                      else length (from_option upstream [] (ns !! k)))
    (btree_keys ns).

Definition dfs_fuel (ns : gmap NodeId TaskNode) : nat := 2 + edge_budget ns ∅.

#[global] Arguments dfs_fuel : simpl never.

Definition depends_transitively_on (p : TaskPlan) (from to : NodeId) : bool :=
  default false (dfs (nodes p) from to (dfs_fuel (nodes p)) [from] ∅).

(** ** Crate-internal mutators *)

(** [insert]: mint an id and store a node built from [spec]. *)
Definition insert (p : TaskPlan) (spec : NodeSpec) (own : ActorId)
    (ups : list NodeId) : TaskPlan * NodeId :=
  let i := next_id p in
  let n := mkNode i (spec_title spec) (spec_prompt spec) (spec_kind spec) own
             Pending (sort_dedup ups) None 0 (spec_model spec) in
  (mkPlan (objective p) (mode p) (coordinator p) (version p)
     (<[i := n]> (nodes p)) (u32_add (next_id p) 1) (applied_seeds p), i).

(** [if let Some(target) = plan.node_mut(id) { .. }]. *)
Definition update_node (p : TaskPlan) (i : NodeId) (f : TaskNode → TaskNode)
  : TaskPlan :=
  set_nodes (alter f i (nodes p)) p.

Definition replayed_seed (p : TaskPlan) (key : string) : option (list NodeId) :=
  applied_seeds p !! key.

Definition record_seed (p : TaskPlan) (key : string) (produced : list NodeId)
  : TaskPlan :=
  mkPlan (objective p) (mode p) (coordinator p) (version p) (nodes p) (next_id p)
    (<[key := produced]> (applied_seeds p)).

(** ** Edges and reachability *)

(** [waits ns x y]: node [x] lists [y] among what it waits on. *)
Definition waits (ns : gmap NodeId TaskNode) (x y : NodeId) : Prop :=
  ∃ n, ns !! x = Some n ∧ y ∈ upstream n.

Lemma waits_lookup ns x y n : ns !! x = Some n → waits ns x y ↔ y ∈ upstream n.
Proof. intros H. split; [intros (n' & ? & ?); congruence | by exists n]. Qed.

Lemma sum_list_with_mark {A} (f g : A → nat) (l : list A) k :
  NoDup l → k ∈ l → g k = 0 → (∀ j, j ≠ k → f j = g j) →
  sum_list_with f l = f k + sum_list_with g l.
Proof.
  intros Hnd. revert k. induction Hnd as [|x l Hx Hnd IH]; intros k Hk Hg Hfg.
  { by apply not_elem_of_nil in Hk. }
  simpl. apply elem_of_cons in Hk as [->|Hk].
  - rewrite Hg. f_equal. clear IH Hnd. induction l as [|y l IH]; simpl; [done|].
    rewrite not_elem_of_cons in Hx. destruct Hx as [Hxy Hx].
    rewrite Hfg by done. by rewrite IH.
  - assert (x ≠ k) by (intros ->; done).
    rewrite (IH k), (Hfg x) by done. lia.
Qed.

Lemma edge_budget_mark ns seen k n :
  ns !! k = Some n → k ∉ seen →
  edge_budget ns seen = length (upstream n) + edge_budget ns ({[k]} ∪ seen).
Proof.
  intros Hk Hs. unfold edge_budget.
  set (f := λ j, if decide (j ∈ seen) then 0
                 else length (from_option upstream [] (ns !! j))).
  set (g := λ j, if decide (j ∈ {[k]} ∪ seen) then 0
                 else length (from_option upstream [] (ns !! j))).
  assert (length (upstream n) = f k) as ->.
  { unfold f. by rewrite decide_False, Hk by done. }
  apply sum_list_with_mark.
  - apply btree_keys_NoDup.
  - apply elem_of_btree_keys. eauto.
  - unfold g. by rewrite decide_True by set_solver.
  - intros j Hj. unfold f, g. destruct (decide (j ∈ seen)).
    + by rewrite decide_True by set_solver.
    + by rewrite decide_False by set_solver.
Qed.

Section dfs.
Context (ns : gmap NodeId TaskNode) (from to : NodeId).

Lemma dfs_total fuel stack seen :
  length stack + edge_budget ns seen < fuel →
  is_Some (dfs ns from to fuel stack seen).
Proof.
  revert stack seen. induction fuel as [|fuel IH]; intros stack seen Hf; [lia|].
  simpl. destruct stack as [|c stack]; [eauto|]. simpl in Hf.
  destruct (decide (c = to ∧ c ≠ from)) as [|_]; [eauto|].
  destruct (decide (c ∈ seen)) as [|Hcs]; [apply IH; lia|].
  destruct (ns !! c) as [n|] eqn:Hc.
  - destruct (decide (to ∈ upstream n)) as [|_]; [eauto|]. apply IH.
    rewrite length_rev_append.
    rewrite (edge_budget_mark _ seen c n) in Hf by done. lia.
  - apply IH. enough (edge_budget ns ({[c]} ∪ seen) ≤ edge_budget ns seen)%nat by lia.
    unfold edge_budget. induction (btree_keys ns) as [|k ks IHk]; simpl; [lia|].
    destruct (decide (k ∈ seen)).
    + rewrite decide_True by set_solver. lia.
    + destruct (decide (k ∈ {[c]} ∪ seen)); lia.
Qed.

Lemma dfs_sound fuel stack seen :
  (∀ x, x ∈ stack → rtc (waits ns) from x) →
  dfs ns from to fuel stack seen = Some true → tc (waits ns) from to.
Proof.
  revert stack seen. induction fuel as [|fuel IH]; intros stack seen Hst; [done|].
  simpl. destruct stack as [|c stack]; [done|].
  assert (Hc : rtc (waits ns) from c) by (apply Hst; set_solver).
  destruct (decide (c = to ∧ c ≠ from)) as [[-> Hne]|_].
  { intros _. apply rtc_tc in Hc as [->|?]; [done|done]. }
  destruct (decide (c ∈ seen)) as [|Hcs]; [apply IH; set_solver|].
  destruct (ns !! c) as [n|] eqn:Hn; [|apply IH; set_solver].
  destruct (decide (to ∈ upstream n)) as [Hto|_].
  { intros _. eapply tc_rtc_l; [done|]. apply tc_once. by exists n. }
  apply IH. intros x. rewrite elem_of_rev_append.
  intros [Hx|Hx]; [|set_solver].
  eapply rtc_r; [done|]. by exists n.
Qed.

Lemma dfs_complete fuel stack seen :
  from ∈ seen ∨ from ∈ stack →
  (∀ x y, x ∈ seen → waits ns x y → y ≠ to ∧ (y ∈ seen ∨ y ∈ stack)) →
  dfs ns from to fuel stack seen = Some false → ¬ tc (waits ns) from to.
Proof.
  revert stack seen. induction fuel as [|fuel IH]; intros stack seen Hfrom Hinv; [done|].
  simpl. destruct stack as [|c stack].
  { intros _ (x & Hx & Hto)%tc_last.
    assert (x ∈ seen) as Hxs.
    { assert (∀ a, rtc (waits ns) from a → a ∈ seen) as Hcl; [|by apply Hcl].
      apply rtc_ind_r; set_solver. }
    by destruct (Hinv x to Hxs Hto). }
  destruct (decide (c = to ∧ c ≠ from)) as [|Hct]; [done|].
  destruct (decide (c ∈ seen)) as [|Hcs].
  { apply IH; set_solver. }
  destruct (ns !! c) as [n|] eqn:Hn.
  - destruct (decide (to ∈ upstream n)) as [|Hto]; [done|].
    apply IH; [rewrite elem_of_rev_append; set_solver|].
    intros x y Hx Hxy. rewrite elem_of_rev_append.
    apply elem_of_union in Hx as [->%elem_of_singleton|Hx].
    + rewrite (waits_lookup _ _ _ n) in Hxy by done. set_solver.
    + destruct (Hinv x y Hx Hxy). set_solver.
  - apply IH; [set_solver|]. intros x y Hx Hxy.
    apply elem_of_union in Hx as [->%elem_of_singleton|Hx].
    + destruct Hxy as (n & ? & _). congruence.
    + destruct (Hinv x y Hx Hxy). set_solver.
Qed.
End dfs.

(** The walk answers, and answers reachability along one or more edges. *)
Lemma depends_reach p a b :
  depends_transitively_on p a b = true ↔ tc (waits (nodes p)) a b.
Proof.
  unfold depends_transitively_on, dfs_fuel.
  destruct (dfs_total (nodes p) a b (2 + edge_budget (nodes p) ∅) [a] ∅) as [r Hr];
    [simpl; lia|].
  rewrite Hr. simpl. destruct r; split; [|done..|].
  - intros _. eapply dfs_sound, Hr. intros x Hx. apply list_elem_of_singleton in Hx as ->.
    apply rtc_refl.
  - intros Htc. exfalso. revert Htc. eapply dfs_complete, Hr; set_solver.
Qed.
