(* ===== verification/Batch.v ===== *)
(** * Checking a batch of new tasks (ops.rs, [validate_batch])

    A batch names its own dependencies by position.  The check walks the
    position graph depth-first with an explicit stack; the theorems say that
    it always ends, that it accepts exactly the batches whose positions are in
    range and whose graph has no loop, and that a reported position really
    lies on a loop. *)

From stdpp Require Import base gmap list sorting strings pretty numbers.
From S2P Require Import Prelude RustStr Artifact Plan.
#[local] Open Scope nat_scope.

(** The positions entry [i] waits on. *)
Definition batch_deps (specs : list NodeSpec) (i : nat) : list nat :=
  from_option depends_on_batch [] (specs !! i).

Definition batch_edge (specs : list NodeSpec) (i j : nat) : Prop :=
  j ∈ batch_deps specs i.

(** The first index of the batch, in order, that points outside it. *)
Fixpoint first_out_of_range (n : nat) (specs : list NodeSpec) : option nat :=
  match specs with
  | [] => None
  | s :: specs =>
      match List.find (λ i, n <=? i) (depends_on_batch s) with
      | Some i => Some i
      | None => first_out_of_range n specs
      end
  end.

Definition is_set (l : list bool) (i : nat) : bool := bool_decide (l !! i = Some true).

(** One depth-first walk.  A frame [(node, edge)] is a node on the current path
    and the next of its edges to follow.  [None]: out of fuel; [Err i]: the
    walk met position [i] on its own path. *)
Fixpoint batch_walk (specs : list NodeSpec) (fuel : nat) (stack : list (nat * nat))
    (settled visiting : list bool) : option (result (list bool * list bool) nat) :=
  match fuel with
  | O => None
  | S fuel =>
      match stack with
      | [] => Some (Ok (settled, visiting))
      | (node, edge) :: stack =>
          match batch_deps specs node !! edge with
          | None =>
              batch_walk specs fuel stack (<[node := true]> settled)
                (<[node := false]> visiting)
          | Some next =>
              let stack := (node, S edge) :: stack in
              if is_set visiting next then Some (Err next)
              else if is_set settled next then batch_walk specs fuel stack settled visiting
              else batch_walk specs fuel ((next, 0) :: stack) settled
                     (<[next := true]> visiting)
          end
      end
  end.

(** Each walk settles a node at most once and follows an edge at most once. *)
Definition walk_fuel (specs : list NodeSpec) : nat :=
  S (sum_list_with (λ i, 2 + length (batch_deps specs i)) (seq 0 (length specs))).
#[global] Arguments walk_fuel : simpl never.

Fixpoint batch_loop (specs : list NodeSpec) (starts : list nat)
    (settled visiting : list bool) : option (result unit nat) :=
  match starts with
  | [] => Some (Ok ())
  | start :: starts =>
      if is_set settled start then batch_loop specs starts settled visiting
      else
        match batch_walk specs (walk_fuel specs) [(start, 0)] settled
                (<[start := true]> visiting) with
        | None => None
        | Some (Err i) => Some (Err i)
        | Some (Ok (settled, visiting)) => batch_loop specs starts settled visiting
        end
  end.

Definition validate_batch (specs : list NodeSpec) : result unit PlanError :=
  match first_out_of_range (length specs) specs with
  | Some index => Err (BatchIndexOutOfRange index (length specs))
  | None =>
      let none := replicate (length specs) false in
      match batch_loop specs (seq 0 (length specs)) none none with
      | Some (Err i) => Err (BatchCycle i)
      | Some (Ok _) => Ok ()
      | None => Ok ()  (* unreachable: [batch_loop_total] *)
      end
  end.

(** ** Range check *)

Definition in_range (specs : list NodeSpec) : Prop :=
  ∀ i j, batch_edge specs i j → j < length specs.

Lemma find_le_None n l : List.find (λ i, n <=? i) l = None ↔ ∀ j, j ∈ l → j < n.
Proof.
  induction l as [|x l IH]; simpl.
  - split; [|done]. intros _ j Hj. by apply not_elem_of_nil in Hj.
  - destruct (Nat.leb_spec n x); split.
    + done.
    + intros Hj. assert (x < n) by (apply Hj; by left). lia.
    + intros Hf j [->|Hj]%elem_of_cons; [done|]. by apply IH.
    + intros Hj. apply IH. intros j ?. apply Hj. by right.
Qed.

Lemma first_out_of_range_None n specs :
  first_out_of_range n specs = None ↔
  ∀ s j, s ∈ specs → j ∈ depends_on_batch s → j < n.
Proof.
  induction specs as [|s specs IH]; simpl.
  - split; [|done]. intros _ s j Hs. by apply not_elem_of_nil in Hs.
  - destruct (List.find _ _) eqn:Hf; split.
    + done.
    + intros Hj. assert (Hn : List.find (λ i, n <=? i) (depends_on_batch s) = None).
      { apply find_le_None. intros j ?. apply (Hj s); [by left|done]. }
      congruence.
    + intros Hn s' j [->|Hs]%elem_of_cons ?; [by rewrite find_le_None in Hf; apply Hf|].
      by eapply IH.
    + intros Hj. apply IH. intros s' j ??. apply (Hj s'); [by right|done].
Qed.

Lemma in_range_spec specs :
  first_out_of_range (length specs) specs = None ↔ in_range specs.
Proof.
  rewrite first_out_of_range_None. unfold in_range, batch_edge, batch_deps. split.
  - intros H i j Hj. destruct (specs !! i) as [s|] eqn:Hs; simpl in Hj.
    + apply (H s); [by eapply list_elem_of_lookup_2|done].
    + by apply not_elem_of_nil in Hj.
  - intros H s j [i Hi]%list_elem_of_lookup Hj. apply (H i). by rewrite Hi.
Qed.

Lemma first_out_of_range_Some n specs i :
  first_out_of_range n specs = Some i →
  n ≤ i ∧ ∃ s, s ∈ specs ∧ i ∈ depends_on_batch s.
Proof.
  induction specs as [|s specs IH]; simpl; [done|].
  destruct (List.find _ _) as [j|] eqn:Hf; intros H.
  - simplify_eq. apply List.find_some in Hf as [Hin Hle].
    apply Nat.leb_le in Hle. split; [done|]. exists s.
    split; [by left|by apply list_elem_of_In].
  - destruct (IH H) as (? & s' & ? & ?). split; [done|]. exists s'.
    by split; [right|].
Qed.

(** ** The walk ends *)

Lemma is_set_insert l i b j :
  i < length l → is_set (<[i := b]> l) j = if decide (i = j) then b else is_set l j.
Proof.
  intros Hi. unfold is_set. destruct (decide (i = j)) as [->|Hij].
  - rewrite list_lookup_insert_eq by done. by destruct b.
  - by rewrite list_lookup_insert_ne.
Qed.

(** Work left: the edges of the nodes not yet touched, and what each frame of
    the path still has to follow. *)
Definition untouched (specs : list NodeSpec) (settled visiting : list bool) (i : nat) : nat :=
  if is_set settled i || is_set visiting i then 0 else 2 + length (batch_deps specs i).

Definition walk_measure (specs : list NodeSpec) (stack : list (nat * nat))
    (settled visiting : list bool) : nat :=
  sum_list_with (untouched specs settled visiting) (seq 0 (length specs))
  + sum_list_with (λ '(n, e), S (length (batch_deps specs n) - e)) stack.

Lemma sum_list_with_mono {A} (f g : A → nat) l :
  (∀ x, f x ≤ g x) → sum_list_with f l ≤ sum_list_with g l.
Proof. intros H. induction l as [|x l IH]; simpl; [done|]. specialize (H x). lia. Qed.

Section walk.
Context (specs : list NodeSpec).
Implicit Types (stack : list (nat * nat)) (settled visiting : list bool).

Record walk_shape settled visiting stack : Prop := {
  shape_settled : length settled = length specs;
  shape_visiting : length visiting = length specs;
  shape_stack : ∀ n e, (n, e) ∈ stack → n < length specs;
}.

Lemma walk_shape_pop settled visiting n e stack :
  walk_shape settled visiting ((n, e) :: stack) →
  walk_shape (<[n := true]> settled) (<[n := false]> visiting) stack.
Proof.
  intros [? ? Hs]. split; rewrite ?length_insert; [done..|].
  intros m f ?. apply (Hs m f). by right.
Qed.

Lemma walk_shape_next settled visiting n e stack :
  walk_shape settled visiting ((n, e) :: stack) →
  walk_shape settled visiting ((n, S e) :: stack).
Proof.
  intros [? ? Hs]. split; [done..|]. intros m f [?|?]%elem_of_cons; simplify_eq.
  - eapply Hs. by left.
  - apply (Hs m f). by right.
Qed.

Lemma walk_shape_push settled visiting next stack :
  next < length specs → walk_shape settled visiting stack →
  walk_shape settled (<[next := true]> visiting) ((next, 0) :: stack).
Proof.
  intros Hn [? ? Hs]. split; rewrite ?length_insert; [done..|].
  intros m f [?|?]%elem_of_cons; simplify_eq; [done|by eapply Hs].
Qed.

Lemma walk_total fuel stack settled visiting :
  in_range specs → walk_shape settled visiting stack →
  walk_measure specs stack settled visiting < fuel →
  is_Some (batch_walk specs fuel stack settled visiting).
Proof.
  intros Hr. revert stack settled visiting.
  induction fuel as [|fuel IH]; intros stack settled visiting Hsh Hf; [lia|].
  simpl. destruct stack as [|[n e] stack]; [eauto|].
  assert (Hn : n < length specs) by (eapply shape_stack; [done|by left]).
  pose proof (shape_settled _ _ _ Hsh) as Hls.
  pose proof (shape_visiting _ _ _ Hsh) as Hlv.
  unfold walk_measure in Hf; simpl in Hf.
  destruct (batch_deps specs n !! e) as [next|] eqn:Hnext.
  - assert (He : e < length (batch_deps specs n)) by (by eapply lookup_lt_Some).
    assert (Hnx : next < length specs).
    { apply (Hr n). by eapply list_elem_of_lookup_2. }
    destruct (is_set visiting next) eqn:Hv; [eauto|].
    destruct (is_set settled next) eqn:Hset.
    + apply IH; [by apply walk_shape_next|]. unfold walk_measure; simpl. lia.
    + apply IH; [by apply walk_shape_push, walk_shape_next|].
      unfold walk_measure; simpl.
      enough (sum_list_with (untouched specs settled visiting) (seq 0 (length specs)) =
              2 + length (batch_deps specs next) +
              sum_list_with (untouched specs settled (<[next:=true]> visiting))
                (seq 0 (length specs))) by lia.
      assert (2 + length (batch_deps specs next) = untouched specs settled visiting next)
        as -> by (unfold untouched; by rewrite Hv, Hset).
      apply sum_list_with_mark.
      * apply NoDup_seq.
      * apply elem_of_seq. lia.
      * unfold untouched. rewrite is_set_insert, decide_True by lia.
        by rewrite orb_true_r.
      * intros j Hj. unfold untouched. by rewrite is_set_insert, decide_False by lia.
  - apply IH; [by eapply walk_shape_pop|]. unfold walk_measure.
    enough (sum_list_with (untouched specs (<[n:=true]> settled) (<[n:=false]> visiting))
              (seq 0 (length specs)) ≤
            sum_list_with (untouched specs settled visiting) (seq 0 (length specs))) by lia.
    apply sum_list_with_mono. intros j. unfold untouched.
    rewrite !is_set_insert by lia. destruct (decide (n = j)); simpl; [lia|done].
Qed.
End walk.

(** ** What a walk establishes

    [frames_ok above stack]: every edge a frame has already followed leads to a
    settled node, except the last one when [above], the frame pushed on top of
    it, is still open; and [above] is a successor of the frame below it. *)

Section walk_correct.
Context (specs : list NodeSpec).
Implicit Types (stack : list (nat * nat)) (settled visiting : list bool).

Fixpoint frames_ok (settled : list bool) (above : option nat)
    (stack : list (nat * nat)) : Prop :=
  match stack with
  | [] => True
  | (n, e) :: stack =>
      (∀ i d, batch_deps specs n !! i = Some d → i < e →
         is_set settled d = true ∨ above = Some d) ∧
      (∀ a, above = Some a → batch_edge specs n a) ∧
      frames_ok settled (Some n) stack
  end.

Definition settled_grounded settled : Prop :=
  ∀ v, is_set settled v = true → grounded (batch_edge specs) v.

Lemma frames_ok_mono settled settled' above stack :
  (∀ v, is_set settled v = true → is_set settled' v = true) →
  frames_ok settled above stack → frames_ok settled' above stack.
Proof.
  intros Hm. revert above. induction stack as [|[n e] stack IH]; intros above; simpl; [done|].
  intros (H1 & H2 & H3). split_and!; [|done|by apply IH].
  intros i d Hi He. destruct (H1 i d Hi He); [left; by apply Hm|by right].
Qed.

(** The frame popped under [settled] no longer needs its exception. *)
Lemma frames_ok_settle settled n stack :
  is_set settled n = true →
  frames_ok settled (Some n) stack → frames_ok settled None stack.
Proof.
  intros Hn. destruct stack as [|[m e] stack]; simpl; [done|].
  intros (H1 & _ & H3). split_and!; [|done|done].
  intros i d Hi He. left. destruct (H1 i d Hi He) as [|[= ->]]; done.
Qed.

(** Every node of the path reaches the node on top of it. *)
Lemma frames_ok_reach settled above stack v e top :
  frames_ok settled above stack → (v, e) ∈ stack →
  (above = Some top ∨ above = None ∧ ∃ f, head stack = Some (top, f)) →
  rtc (batch_edge specs) v top.
Proof.
  revert above top. induction stack as [|[n f] stack IH]; intros above top Hok Hv Htop.
  { by apply not_elem_of_nil in Hv. }
  simpl in Hok. destruct Hok as (_ & Habove & Hrest).
  assert (Hn : rtc (batch_edge specs) n top).
  { destruct Htop as [->|[-> [g Hg]]]; [by apply rtc_once, Habove|].
    simpl in Hg. simplify_eq. apply rtc_refl. }
  apply elem_of_cons in Hv as [Hv|Hv]; [by simplify_eq|].
  etrans; [|exact Hn]. by apply (IH (Some n) n Hrest Hv); left.
Qed.

Lemma walk_err fuel stack settled visiting i :
  (∀ v, is_set visiting v = true → ∃ e, (v, e) ∈ stack) →
  walk_shape specs settled visiting stack → in_range specs →
  frames_ok settled None stack →
  batch_walk specs fuel stack settled visiting = Some (Err i) →
  tc (batch_edge specs) i i.
Proof.
  intros Hvis Hsh Hr. revert stack settled visiting Hvis Hsh.
  induction fuel as [|fuel IH]; intros stack settled visiting Hvis Hsh Hok; simpl; [done|].
  destruct stack as [|[n e] stack]; [done|].
  assert (Hn : n < length specs) by (eapply shape_stack; [done|by left]).
  pose proof (shape_settled _ _ _ _ Hsh) as Hls.
  pose proof (shape_visiting _ _ _ _ Hsh) as Hlv.
  destruct (batch_deps specs n !! e) as [next|] eqn:Hnext.
  - assert (Hedge : batch_edge specs n next) by (by eapply list_elem_of_lookup_2).
    assert (Hnx : next < length specs) by (by eapply Hr).
    assert (Hvis' : ∀ v, is_set visiting v = true → ∃ f, (v, f) ∈ (n, S e) :: stack).
    { intros v Hv. destruct (Hvis v Hv) as [f [Hf|Hf]%elem_of_cons].
      - simplify_eq. eexists. by left.
      - exists f. by right. }
    destruct Hok as (H1 & _ & H3).
    destruct (is_set visiting next) eqn:Hv.
    + intros [= <-]. destruct (Hvis next Hv) as [g Hg].
      eapply tc_rtc_l; [|by apply tc_once].
      apply (frames_ok_reach settled None ((n, e) :: stack) next g); [done|done|].
      right. split; [done|]. by eexists.
    + destruct (is_set settled next) eqn:Hset.
      * apply IH; [done|by apply walk_shape_next|].
        simpl. split_and!; [|done|done]. intros j d Hj Hlt. left.
        destruct (decide (j = e)) as [->|]; [by simplify_eq|].
        destruct (H1 j d Hj) as [|?]; [lia|done|done].
      * apply IH; [|by apply walk_shape_push, walk_shape_next|].
        -- intros v. rewrite is_set_insert by lia. case_decide as Hnv.
           ++ intros _. subst. exists 0. by left.
           ++ intros Hvv. destruct (Hvis' v Hvv) as [f Hf]. exists f. by right.
        -- simpl. split_and!; [intros; lia|done| |by intros ? [= <-]|done].
           intros j d Hj Hlt. destruct (decide (j = e)) as [->|]; [right; congruence|].
           destruct (H1 j d Hj) as [|?]; [lia|by left|done].
  - apply IH; [|by eapply walk_shape_pop|].
    + intros v. rewrite is_set_insert by lia. case_decide as Hnv; [done|].
      intros Hvv. destruct (Hvis v Hvv) as [f [Hf|Hf]%elem_of_cons]; [congruence|eauto].
    + apply (frames_ok_settle _ n); [by rewrite is_set_insert, decide_True by lia|].
      eapply frames_ok_mono, Hok. intros v Hv.
      rewrite is_set_insert by lia. by case_decide.
Qed.

Lemma walk_ok fuel stack settled visiting settled' visiting' :
  (∀ v, is_set visiting v = true → ∃ e, (v, e) ∈ stack) →
  walk_shape specs settled visiting stack → in_range specs →
  frames_ok settled None stack → settled_grounded settled →
  batch_walk specs fuel stack settled visiting = Some (Ok (settled', visiting')) →
  settled_grounded settled' ∧ walk_shape specs settled' visiting' [] ∧
  (∀ v, is_set visiting' v = false) ∧
  (∀ v, is_set settled v = true → is_set settled' v = true) ∧
  (∀ v e, (v, e) ∈ stack → is_set settled' v = true).
Proof.
  intros Hvis Hsh Hr. revert stack settled visiting Hvis Hsh.
  induction fuel as [|fuel IH]; intros stack settled visiting Hvis Hsh Hok Hg; simpl; [done|].
  destruct stack as [|[n e] stack].
  { intros [= <- <-]. split_and!; [done|done| |done|].
    - intros v. destruct (is_set visiting v) eqn:Hv; [|done].
      destruct (Hvis v Hv) as [? Hin]. by apply not_elem_of_nil in Hin.
    - intros v e Hin. by apply not_elem_of_nil in Hin. }
  assert (Hn : n < length specs) by (eapply shape_stack; [done|by left]).
  pose proof (shape_settled _ _ _ _ Hsh) as Hls.
  pose proof (shape_visiting _ _ _ _ Hsh) as Hlv.
  destruct (batch_deps specs n !! e) as [next|] eqn:Hnext.
  - assert (Hedge : batch_edge specs n next) by (by eapply list_elem_of_lookup_2).
    assert (Hnx : next < length specs) by (by eapply Hr).
    assert (Hvis' : ∀ v, is_set visiting v = true → ∃ f, (v, f) ∈ (n, S e) :: stack).
    { intros v Hv. destruct (Hvis v Hv) as [f [Hf|Hf]%elem_of_cons].
      - simplify_eq. eexists. by left.
      - exists f. by right. }
    destruct Hok as (H1 & _ & H3).
    destruct (is_set visiting next) eqn:Hv; [done|].
    assert (Hpost : ∀ R, (∀ v f, (v, f) ∈ (n, S e) :: stack → R v) →
              (∀ v f, (v, f) ∈ (n, e) :: stack → R v : Prop)).
    { intros R HR v f [?|?]%elem_of_cons; simplify_eq; eapply HR; [by left|by right]. }
    destruct (is_set settled next) eqn:Hset; intros Hw.
    + apply IH in Hw; [|done|by apply walk_shape_next| |done].
      * destruct Hw as (? & ? & ? & ? & Hp). split_and!; [done..|by apply Hpost].
      * simpl. split_and!; [|done|done]. intros j d Hj Hlt. left.
        destruct (decide (j = e)) as [->|]; [by simplify_eq|].
        destruct (H1 j d Hj) as [|?]; [lia|done|done].
    + apply IH in Hw; [|clear Hw..|done].
      * destruct Hw as (? & ? & ? & ? & Hp). split_and!; [done..|].
        apply Hpost. intros v f Hin. apply (Hp v f). by right.
      * intros v. rewrite is_set_insert by lia. case_decide as Hnv.
        -- intros _. subst. exists 0. by left.
        -- intros Hvv. destruct (Hvis' v Hvv) as [f Hf]. exists f. by right.
      * by apply walk_shape_push, walk_shape_next.
      * simpl. split_and!; [intros; lia|done| |by intros ? [= <-]|done].
        intros j d Hj Hlt. destruct (decide (j = e)) as [->|]; [right; congruence|].
        destruct (H1 j d Hj) as [|?]; [lia|by left|done].
  - intros Hw. apply IH in Hw; [|clear Hw..].
    + destruct Hw as (? & ? & ? & Hm & Hp). split_and!; [done..| |].
      * intros v Hv. apply Hm. rewrite is_set_insert by lia. by case_decide.
      * intros v f [?|?]%elem_of_cons; simplify_eq; [|by eapply Hp].
        apply Hm. by rewrite is_set_insert, decide_True by lia.
    + intros v. rewrite is_set_insert by lia. case_decide as Hnv; [done|].
      intros Hvv. destruct (Hvis v Hvv) as [f [Hf|Hf]%elem_of_cons]; [congruence|eauto].
    + by eapply walk_shape_pop.
    + apply (frames_ok_settle _ n); [by rewrite is_set_insert, decide_True by lia|].
      eapply frames_ok_mono, Hok. intros v Hv.
      rewrite is_set_insert by lia. by case_decide.
    + intros v. rewrite is_set_insert by lia. case_decide as Hnv; [|by apply Hg].
      intros _. subst v. apply grounded_intro. intros d [j Hj]%list_elem_of_lookup.
      apply Hg. destruct Hok as (H1 & _ & _).
      destruct (H1 j d Hj) as [|?]; [|done|done].
      apply lookup_lt_Some in Hj. apply lookup_ge_None in Hnext. lia.
Qed.
End walk_correct.

(** ** The whole check *)

Section batch_check.
Context (specs : list NodeSpec) (Hrange : in_range specs).

(** What holds between two walks. *)
Record loop_inv (settled visiting : list bool) : Prop := {
  loop_shape : walk_shape specs settled visiting [];
  loop_idle : ∀ v, is_set visiting v = false;
  loop_grounded : settled_grounded specs settled;
}.

Lemma walk_from_start start settled visiting :
  loop_inv settled visiting → start < length specs →
  (∀ v, is_set (<[start := true]> visiting) v = true → ∃ e, (v, e) ∈ [(start, 0)]) ∧
  walk_shape specs settled (<[start := true]> visiting) [(start, 0)] ∧
  frames_ok specs settled None [(start, 0)].
Proof.
  intros [Hsh Hidle _] Hs. pose proof (shape_visiting _ _ _ _ Hsh).
  split_and!; [|by apply walk_shape_push|].
  - intros v. rewrite is_set_insert by lia. case_decide as Hv.
    + intros _. subst. exists 0. by left.
    + by rewrite Hidle.
  - simpl. split_and!; [intros; lia|done|done].
Qed.

Lemma walk_from_start_total start settled visiting :
  loop_inv settled visiting → start < length specs → is_set settled start = false →
  is_Some (batch_walk specs (walk_fuel specs) [(start, 0)] settled
             (<[start := true]> visiting)).
Proof.
  intros Hinv Hs Hset. destruct (walk_from_start start settled visiting) as (_ & Hsh & _);
    [done..|].
  apply walk_total; [done|done|]. unfold walk_measure, walk_fuel; simpl.
  destruct Hinv as [Hsh0 Hidle _]. pose proof (shape_visiting _ _ _ _ Hsh0).
  set (v' := <[start := true]> visiting).
  enough (S (S (length (batch_deps specs start))) +
          sum_list_with (untouched specs settled v') (seq 0 (length specs)) ≤
          sum_list_with (λ i, S (S (length (batch_deps specs i)))) (seq 0 (length specs)))
    by lia.
  set (g := λ i, if decide (i = start) then 0 else S (S (length (batch_deps specs i)))).
  rewrite (sum_list_with_mark (λ i, S (S (length (batch_deps specs i)))) g _ start).
  - enough (sum_list_with (untouched specs settled v') (seq 0 (length specs)) ≤
            sum_list_with g (seq 0 (length specs))) by lia.
    apply sum_list_with_mono. intros j. unfold untouched, g, v'.
    rewrite is_set_insert by lia. destruct (decide (start = j)) as [->|].
    + rewrite orb_true_r. lia.
    + rewrite decide_False by done. destruct (is_set settled j || _); lia.
  - apply NoDup_seq.
  - apply elem_of_seq. lia.
  - unfold g. by rewrite decide_True.
  - intros j Hj. unfold g. by rewrite decide_False.
Qed.

Lemma batch_loop_spec starts settled visiting :
  loop_inv settled visiting → Forall (λ s, s < length specs) starts →
  match batch_loop specs starts settled visiting with
  | Some (Ok _) => ∃ settled',
      settled_grounded specs settled' ∧
      (∀ v, is_set settled v = true → is_set settled' v = true) ∧
      (∀ v, v ∈ starts → is_set settled' v = true)
  | Some (Err i) => tc (batch_edge specs) i i
  | None => False
  end.
Proof.
  revert settled visiting.
  induction starts as [|s starts IH]; intros settled visiting Hinv Hst; cbn [batch_loop].
  { exists settled. split_and!; [by destruct Hinv|done|].
    intros v Hv. by apply not_elem_of_nil in Hv. }
  apply Forall_cons_iff in Hst as [Hs Hst].
  destruct (is_set settled s) eqn:Hset.
  - specialize (IH settled visiting Hinv Hst).
    destruct (batch_loop specs starts settled visiting) as [[]|]; [|done..].
    destruct IH as (settled' & Hg & Hm & Hin). exists settled'. split_and!; [done..|].
    intros v [->|Hv]%elem_of_cons; [by apply Hm|by apply Hin].
  - destruct (walk_from_start s settled visiting Hinv Hs) as (Hvis & Hsh & Hok).
    destruct (walk_from_start_total s settled visiting Hinv Hs Hset) as [r Hr].
    rewrite Hr. destruct r as [[settled1 visiting1]|i].
    + apply walk_ok in Hr as (Hg1 & Hsh1 & Hidle1 & Hm1 & Hp1);
        [|done..|by destruct Hinv].
      specialize (IH settled1 visiting1).
      destruct (batch_loop specs starts settled1 visiting1) as [[]|];
        [|by apply IH..].
      destruct IH as (settled' & Hg & Hm & Hin); [done..|].
      exists settled'. split_and!; [done|by intros; apply Hm, Hm1|].
      intros v [->|Hv]%elem_of_cons; [|by apply Hin].
      apply Hm, (Hp1 s 0). by left.
    + by apply walk_err in Hr.
Qed.

Lemma loop_inv_init :
  loop_inv (replicate (length specs) false) (replicate (length specs) false).
Proof.
  assert (Hf : ∀ v, is_set (replicate (length specs) false) v = false).
  { intros v. unfold is_set. apply bool_decide_eq_false.
    intros Hv. apply lookup_replicate_1 in Hv as [? _]. done. }
  split; [|done|].
  - split; [by rewrite length_replicate..|]. intros n e H. by apply not_elem_of_nil in H.
  - intros v. by rewrite Hf.
Qed.

Lemma batch_loop_outcome :
  match batch_loop specs (seq 0 (length specs)) (replicate (length specs) false)
          (replicate (length specs) false) with
  | Some (Ok _) => ∀ i, grounded (batch_edge specs) i
  | Some (Err i) => tc (batch_edge specs) i i
  | None => False
  end.
Proof.
  assert (Hst : Forall (λ s, s < length specs) (seq 0 (length specs))).
  { apply list.Forall_forall. intros v Hv%elem_of_seq. lia. }
  pose proof (batch_loop_spec _ _ _ loop_inv_init Hst) as H.
  destruct (batch_loop _ _ _ _) as [[]|]; [|done..].
  destruct H as (settled' & Hg & _ & Hin).
  intros i. destruct (decide (i < length specs)) as [Hi|Hi].
  - apply Hg, Hin, elem_of_seq. lia.
  - apply grounded_intro. intros y Hy. unfold batch_edge, batch_deps in Hy.
    rewrite lookup_ge_None_2 in Hy by lia. by apply not_elem_of_nil in Hy.
Qed.

Lemma batch_loop_total :
  is_Some (batch_loop specs (seq 0 (length specs)) (replicate (length specs) false)
             (replicate (length specs) false)).
Proof. pose proof batch_loop_outcome. destruct (batch_loop _ _ _ _); [eauto|done]. Qed.
End batch_check.

Lemma validate_batch_Ok specs u :
  validate_batch specs = Ok u →
  in_range specs ∧ ∀ i, grounded (batch_edge specs) i.
Proof.
  unfold validate_batch. destruct (first_out_of_range _ _) eqn:Hf; [done|].
  apply in_range_spec in Hf. pose proof (batch_loop_outcome specs Hf).
  by destruct (batch_loop _ _ _ _) as [[]|].
Qed.
