(* ===== verification/PlanOps.v ===== *)
(** * Every way a plan may change (crates/localpilot-taskgraph/src/ops.rs)

    An operation takes the plan and returns the plan it leaves behind together
    with its [Result]: a refusal after a partial mutation would be visible. *)

From stdpp Require Import base gmap list sorting strings pretty numbers.
From S2P Require Import Prelude RustStr Artifact Plan Batch.
#[local] Open Scope string_scope.

Record Seeded := mkSeeded {
  seeded_nodes : list NodeId;
  seeded_gate : option NodeId;
  replayed : bool;
}.

Record Expanded := mkExpanded {
  children : list NodeId;
  expanded_gate : option NodeId;
}.

Inductive Salvage :=
  | Requeued (reclaims : N)
  | Exhausted (reclaims limit : N).

(** ** Shared checks *)

Definition require_mutable (p : TaskPlan) (i : NodeId) (actor : ActorId)
  : result TaskNode PlanError :=
  let? target := ok_or (node p i) (UnknownNode i) in
  if is_terminal target then Err (AlreadyTerminal i (label (status target)))
  else if bool_decide (owner target = actor)
          || bool_decide (assignee target = Some actor)
  then Ok target
  else Err (NotOwner i actor (owner target)).

Definition ensure_no_cycle (p : TaskPlan) (dependent dependency : NodeId)
  : result unit PlanError :=
  if bool_decide (dependency = dependent)
     || depends_transitively_on p dependency dependent
  then Err (WouldCycle dependent dependency)
  else Ok ().

Fixpoint ensure_no_cycles (p : TaskPlan) (dependent : NodeId) (deps : list NodeId)
  : result unit PlanError :=
  match deps with
  | [] => Ok ()
  | up :: deps =>
      let? _ := ensure_no_cycle p dependent up in ensure_no_cycles p dependent deps
  end.

(** The first pass of [insert_batch]: every spec, with the inherited edges. *)
Fixpoint insert_specs (p : TaskPlan) (own : ActorId) (specs : list NodeSpec)
    (inherited : list NodeId) : TaskPlan * list NodeId :=
  match specs with
  | [] => (p, [])
  | spec :: specs =>
      let '(p, i) := insert p spec own inherited in
      let '(p, created) := insert_specs p own specs inherited in
      (p, i :: created)
  end.

(** The second pass: the edges inside the batch, resolved to real ids. *)
Definition batch_extra (created : list NodeId) (spec : NodeSpec) (i : NodeId)
  : list NodeId :=
  filter (λ dep, dep ≠ i) (omap (λ index, created !! index) (depends_on_batch spec)).

Definition link_entry (created : list NodeId) (p : TaskPlan)
    (entry : NodeSpec * NodeId) : TaskPlan :=
  let extra := batch_extra created (fst entry) (snd entry) in
  match extra with
  | [] => p
  | _ => update_node p (snd entry)
           (λ n, set_upstream (sort_dedup (upstream n ++ extra)) n)
  end.

Definition insert_batch (p : TaskPlan) (own : ActorId) (specs : list NodeSpec)
    (inherited : list NodeId) : TaskPlan * list NodeId :=
  let '(p, created) := insert_specs p own specs inherited in
  (foldl (link_entry created) p (zip specs created), created).

Definition append_gate (p : TaskPlan) (own : ActorId) (t pr : string)
    (over : list NodeId) : TaskPlan * NodeId :=
  insert p (gate t pr) own over.

(** The gate every seed and every expansion gets in deep mode. *)
Definition deep_gate (p : TaskPlan) (own : ActorId) (t pr : string)
    (over : list NodeId) : TaskPlan * option NodeId :=
  if is_deep (mode p) then
    let '(p, g) := append_gate p own t pr over in (p, Some g)
  else (p, None).

Definition validate_artifact (i : NodeId) (k : NodeKind) (deep : bool)
    (a : HandoffArtifact) : result unit PlanError :=
  if is_blank (findings a) then
    Err (IncompleteArtifact i "it records no findings at all")
  else if deep && is_blank (what_i_did_not_check a) then
    Err (IncompleteArtifact i
      "it does not say what was left unchecked, which this plan requires")
  else if bool_decide (k = Gate) then
    let reviewed := negb (is_blank (validation a)) in
    let cited := existsb (λ e, negb (is_blank e)) (evidence a) in
    if negb reviewed || negb cited then Err (RubberStampGate i) else Ok ()
  else Ok ().

(** ** The operations *)

Definition plan_review_prompt : string :=
  "Review every finished task this gate waits on. Say how you checked them and cite what you looked at. If anything is unfinished, wrong, or unverified, raise it and inject follow-up work instead of passing.".

Definition sub_plan_review_prompt : string :=
  "Review the tasks this gate waits on before their results are combined. Say how you checked them and cite what you looked at. Raise gaps and inject follow-up work rather than passing them along.".

Definition is_gate_node (p : TaskPlan) (i : NodeId) : bool :=
  match node p i with Some n => bool_decide (kind n = Gate) | None => false end.

Definition seed (p : TaskPlan) (actor : ActorId) (key : string)
    (specs : list NodeSpec) : TaskPlan * result Seeded PlanError :=
  match replayed_seed p key with
  | Some existing =>
      let gates := filter (λ i, is_gate_node p i = true) existing in
      let ids := filter (λ i, is_gate_node p i = false) existing in
      (p, Ok (mkSeeded ids (head gates) true))
  | None =>
      if bool_decide (specs = []) then (p, Err (EmptyBatch "seeding a plan"))
      else
        let! _ := validate_batch specs or p in
        let '(p, created) := insert_batch p actor specs [] in
        let '(p, g) := deep_gate p actor "Plan review" plan_review_prompt created in
        let produced := (created ++ option_list g)%list in
        let p := record_seed p key produced in
        (bump_version p, Ok (mkSeeded created g false))
  end.

Definition expand_node (p : TaskPlan) (i : NodeId) (actor : ActorId)
    (specs : list NodeSpec) : TaskPlan * result Expanded PlanError :=
  let! target := require_mutable p i actor or p in
  if bool_decide (specs = []) then (p, Err (EmptyBatch "expanding a task"))
  else
    let! _ := validate_batch specs or p in
    let inherited := upstream target in
    let '(p, created) := insert_batch p actor specs inherited in
    let '(p, g) := deep_gate p actor "Sub-plan review" sub_plan_review_prompt created in
    let waits_on := match g with Some g => [g] | None => created end in
    let! _ := ensure_no_cycles p i waits_on or p in
    let p := update_node p i
               (λ n, set_status Pending (set_upstream (sort_dedup waits_on) n)) in
    (bump_version p, Ok (mkExpanded created g)).

Definition complete_node (p : TaskPlan) (i : NodeId) (actor : ActorId)
    (a : HandoffArtifact) : TaskPlan * result unit PlanError :=
  let! target := ok_or (node p i) (UnknownNode i) or p in
  if is_terminal target then (p, Err (AlreadyTerminal i (label (status target))))
  else
    match assignee target with
    | None => (p, Err (NotAssigned i))
    | Some holder =>
        if decide (holder = actor) then
          let! _ := validate_artifact i (kind target) (is_deep (mode p)) a or p in
          let p := update_node p i
                     (λ n, set_artifact (Some a) (set_status Complete n)) in
          (bump_version p, Ok ())
        else (p, Err (WrongAssignee i actor holder))
    end.

Definition inject_from_gate (p : TaskPlan) (i : NodeId) (actor : ActorId)
    (specs : list NodeSpec) : TaskPlan * result (list NodeId) PlanError :=
  let! target := require_mutable p i actor or p in
  if bool_decide (kind target ≠ Gate) then (p, Err (NotAGate i))
  else if bool_decide (specs = []) then
    (p, Err (EmptyBatch "a gate raising findings"))
  else
    let! _ := validate_batch specs or p in
    let inherited := upstream target in
    let '(p, injected) := insert_batch p actor specs inherited in
    let! _ := ensure_no_cycles p i injected or p in
    let p := update_node p i
               (λ n, set_status Pending
                       (set_upstream (sort_dedup (upstream n ++ injected)) n)) in
    (bump_version p, Ok injected).

Definition fail_node (p : TaskPlan) (i : NodeId) (actor : ActorId) (reason : string)
  : TaskPlan * result unit PlanError :=
  let! _ := require_mutable p i actor or p in
  (bump_version (update_node p i (set_status (Failed reason))), Ok ()).

Definition abandon_node (p : TaskPlan) (i : NodeId) (actor : ActorId) (reason : string)
  : TaskPlan * result unit PlanError :=
  let! target := ok_or (node p i) (UnknownNode i) or p in
  if is_terminal target then (p, Err (AlreadyTerminal i (label (status target))))
  else if decide (owner target = actor) then
    (bump_version (update_node p i (set_status (Abandoned reason))), Ok ())
  else (p, Err (NotOwner i actor (owner target))).

Definition salvage_outcome (reclaims limit : N) : Salvage :=
  if (limit <=? reclaims)%N then Exhausted reclaims limit
  else Requeued (u32_add reclaims 1).

Definition salvage_effect (o : Salvage) (n : TaskNode) : TaskNode :=
  match o with
  | Requeued r => set_status Pending (set_reclaims r n)
  | Exhausted r l =>
      set_status (Failed ("reclaimed " +:+ show_N r +:+ " times (limit " +:+ show_N l
        +:+ ") after its workers stopped reporting; the task is failing, not unlucky")) n
  end.

Definition salvage_assignment (p : TaskPlan) (i : NodeId) (limit : N)
  : TaskPlan * result Salvage PlanError :=
  let! target := ok_or (node p i) (UnknownNode i) or p in
  if is_terminal target then (p, Err (AlreadyTerminal i (label (status target))))
  else
    let outcome := salvage_outcome (reclaims target) limit in
    (bump_version (update_node p i (salvage_effect outcome)), Ok outcome).

Fixpoint salvage_all (p : TaskPlan) (ids : list NodeId) (limit : N)
  : TaskPlan * list (NodeId * Salvage) :=
  match ids with
  | [] => (p, [])
  | i :: ids =>
      let '(p, r) := salvage_assignment p i limit in
      let '(p, rest) := salvage_all p ids limit in
      (p, match r with Ok o => (i, o) :: rest | Err _ => rest end)
  end.

Definition salvage_actor (p : TaskPlan) (actor : ActorId) (limit : N)
  : TaskPlan * list (NodeId * Salvage) :=
  let stranded := id <$> filter (λ n, is_terminal n = false ∧ assignee n = Some actor)
                           (node_list p) in
  salvage_all p stranded limit.
