(* ===== verification/Schedule.v ===== *)
(** * What can run, and handing it out (crates/localpilot-taskgraph/src/schedule.rs)

    Readiness is computed from the edges; [dispatch] hands a ready task to an
    actor together with the text it works from; [cascade_blocked] abandons
    everything that can never start. *)

From Stdlib Require Import Ascii.
From stdpp Require Import base gmap list sorting strings pretty numbers.
From S2P Require Import Prelude RustStr Artifact Plan Batch PlanOps.
#[local] Open Scope string_scope.

Inductive Readiness :=
  | Ready
  | WaitingOn (on : list NodeId)
  | RBlocked (by_ : list NodeId)
  | NotPending.

(** How one dependency holds its dependent up. *)
Definition dep_waiting (p : TaskPlan) (up : NodeId) : bool :=
  match node p up with
  | Some n => negb (is_terminal n)
  | None => false
  end.
Definition dep_blocked (p : TaskPlan) (up : NodeId) : bool :=
  match node p up with
  | Some n => is_terminal n && negb (bool_decide (status n = Complete))
  | None => true
  end.

Definition readiness_of (p : TaskPlan) (target : TaskNode) : Readiness :=
  if bool_decide (status target ≠ Pending) then NotPending
  else
    let waiting := filter (λ up, dep_waiting p up = true) (upstream target) in
    let blocked := filter (λ up, dep_blocked p up = true) (upstream target) in
    match blocked with
    | _ :: _ => RBlocked blocked
    | [] => match waiting with _ :: _ => WaitingOn waiting | [] => Ready end
    end.

Definition readiness (p : TaskPlan) (i : NodeId) : result Readiness PlanError :=
  let? target := ok_or (node p i) (UnknownNode i) in Ok (readiness_of p target).

Definition is_ready (p : TaskPlan) (i : NodeId) : bool :=
  match readiness p i with Ok Ready => true | _ => false end.
Definition is_blocked (p : TaskPlan) (i : NodeId) : bool :=
  match readiness p i with Ok (RBlocked _) => true | _ => false end.

Definition ready_nodes (p : TaskPlan) : list NodeId :=
  id <$> filter (λ n, is_ready p (id n) = true) (node_list p).
Definition blocked_nodes (p : TaskPlan) : list NodeId :=
  id <$> filter (λ n, is_blocked p (id n) = true) (node_list p).

(** ** Settling what can never start *)

Definition blocked_reason (blockers : list NodeId) : string :=
  "cannot start: " +:+ join ", " (show_node <$> blockers) +:+ " did not complete".

(** One wave: the ids found blocked when it started, each looked at again. *)
Fixpoint abandon_wave (p : TaskPlan) (wave abandoned : list NodeId)
  : TaskPlan * list NodeId :=
  match wave with
  | [] => (p, abandoned)
  | i :: wave =>
      match readiness p i with
      | Ok (RBlocked blockers) =>
          abandon_wave (update_node p i (set_status (Abandoned (blocked_reason blockers))))
            wave (abandoned ++ [i])%list
      | _ => abandon_wave p wave abandoned
      end
  end.

(** [None]: out of fuel. *)
Fixpoint cascade_loop (fuel : nat) (p : TaskPlan) (abandoned : list NodeId)
  : option (TaskPlan * list NodeId) :=
  match fuel with
  | O => None
  | S fuel =>
      match blocked_nodes p with
      | [] => Some (p, abandoned)
      | wave =>
          let '(p, abandoned) := abandon_wave p wave abandoned in
          cascade_loop fuel (bump_version p) abandoned
      end
  end.

(** Each wave ends at least one node, so the nodes bound the waves. *)
Definition cascade_fuel (p : TaskPlan) : nat := S (length (node_list p)).
#[global] Arguments cascade_fuel : simpl never.

Definition cascade_blocked (p : TaskPlan) : TaskPlan * list NodeId :=
  default (p, []) (cascade_loop (cascade_fuel p) p []).

(** ** Handing a task out *)

Record Assignment := mkAssignment {
  as_node : NodeId;
  as_title : string;
  as_kind : NodeKind;
  as_assignee : ActorId;
  as_plan_version : N;
  as_input : string;
}.

Definition upstream_handoffs (p : TaskPlan) (target : TaskNode)
  : list (NodeId * HandoffArtifact) :=
  omap (λ i, match node p i with
             | Some n => (λ a, (i, a)) <$> artifact n
             | None => None
             end) (upstream target).

Definition handoff_label (p : TaskPlan) (i : NodeId) : string :=
  match node p i with
  | Some n => show_node (id n) +:+ " " +:+ title n
  | None => show_node i
  end.

Definition handoff_header : string :=
  NL +:+ "## What earlier tasks established" +:+ NL
  +:+ "Read this instead of redoing it. If something here is wrong, say so rather than working around it."
  +:+ NL +:+ NL.

Definition assemble_input (p : TaskPlan) (i : NodeId) : result string PlanError :=
  let? target := ok_or (node p i) (UnknownNode i) in
  let out := "Objective: " +:+ objective p +:+ NL +:+ NL
             +:+ "Your task (" +:+ show_node (id target) +:+ "): " +:+ title target
             +:+ NL +:+ NL +:+ trim (prompt target) +:+ NL in
  match upstream_handoffs p target with
  | [] => Ok out
  | ups =>
      Ok (foldl (λ out '(i, a), out +:+ render a (handoff_label p i) +:+ NL)
            (out +:+ handoff_header) ups)
  end.

Definition dispatch (p : TaskPlan) (i : NodeId) (who : ActorId)
  : TaskPlan * result Assignment PlanError :=
  let! r := readiness p i or p in
  match r with
  | WaitingOn waiting_on => (p, Err (NotReady i waiting_on))
  | RBlocked blocked_by => (p, Err (Blocked i blocked_by))
  | NotPending =>
      let! target := ok_or (node p i) (UnknownNode i) or p in
      match assignee target with
      | Some holder => (p, Err (AlreadyAssigned i holder))
      | None => (p, Err (AlreadyTerminal i (label (status target))))
      end
  | Ready =>
      let! input := assemble_input p i or p in
      let! tk := ok_or ((λ n, (title n, kind n)) <$> node p i) (UnknownNode i) or p in
      let p := bump_version (update_node p i (set_status (Assigned who))) in
      (p, Ok (mkAssignment i (fst tk) (snd tk) who (version p) input))
  end.

(** ** Progress *)

Record PlanProgress := mkProgress {
  total : nat;
  n_complete : nat;
  n_failed : nat;
  n_abandoned : nat;
  n_assigned : nat;
  n_ready : nat;
  n_waiting : nat;
}.

Definition count_node (p : TaskPlan) (out : PlanProgress) (n : TaskNode) : PlanProgress :=
  let 'mkProgress t c f ab a r w := out in
  match status n with
  | Complete => mkProgress t (S c) f ab a r w
  | Failed _ => mkProgress t c (S f) ab a r w
  | Abandoned _ => mkProgress t c f (S ab) a r w
  | Assigned _ => mkProgress t c f ab (S a) r w
  | Pending =>
      if is_ready p (id n) then mkProgress t c f ab a (S r) w
      else mkProgress t c f ab a r (S w)
  end.

Definition progress (p : TaskPlan) : PlanProgress :=
  foldl (count_node p) (mkProgress (len p) 0 0 0 0 0 0) (node_list p).
