(* ===== verification/PlanWf.v ===== *)
(** * The plan invariant

    [wf p] says the plan is coherent: every node is filed under its own id,
    its dependencies exist, are sorted, and can never wait on it in turn; work
    that is in flight or finished has all its dependencies finished; a finished
    task carries an acceptable handoff and no other task carries one.  Every
    operation of [PlanOps] and [Schedule] preserves it, and hands a plan it
    refuses to change back untouched. *)

From stdpp Require Import base gmap list sorting strings pretty numbers.
From S2P Require Import Prelude RustStr Artifact Plan Batch PlanOps Schedule.
#[local] Open Scope nat_scope.

(** A status only a dispatched node reaches. *)
Definition started (s : TaskStatus) : Prop :=
  match s with Assigned _ | Complete => True | _ => False end.

Definition completed (ns : gmap NodeId TaskNode) (i : NodeId) : Prop :=
  ∃ n, ns !! i = Some n ∧ status n = Complete.

Record node_wf (m : PlanMode) (ns : gmap NodeId TaskNode) (next : N)
    (i : NodeId) (n : TaskNode) : Prop := {
  nw_id : id n = i;
  nw_range : (1 <= i < next)%N;
  nw_sorted : StronglySorted N.lt (upstream n);
  nw_closed : ∀ u, u ∈ upstream n → is_Some (ns !! u);
  nw_deps : started (status n) → ∀ u, u ∈ upstream n → completed ns u;
  nw_handoff :
    match status n with
    | Complete => ∃ a, artifact n = Some a ∧
                       validate_artifact i (kind n) (is_deep m) a = Ok ()
    | _ => artifact n = None
    end;
}.

Record wf (p : TaskPlan) : Prop := {
  wf_next : (1 <= next_id p <= U32_MAX)%N;
  wf_nodes : ∀ i n, nodes p !! i = Some n →
    node_wf (mode p) (nodes p) (next_id p) i n;
  wf_grounded : ∀ i, grounded (waits (nodes p)) i;
  wf_seeds : ∀ key ids i, applied_seeds p !! key = Some ids → i ∈ ids →
    is_Some (nodes p !! i);
}.

(** ** Consequences *)

Lemma wf_acyclic p i : wf p → ¬ tc (waits (nodes p)) i i.
Proof. intros Hwf. apply grounded_no_cycle, wf_grounded, Hwf. Qed.

Lemma wf_fresh p i : wf p → (next_id p <= i)%N → nodes p !! i = None.
Proof.
  intros Hwf Hi. destruct (nodes p !! i) as [n|] eqn:Hn; [|done].
  apply (wf_nodes p Hwf) in Hn. destruct (nw_range _ _ _ _ _ Hn). lia.
Qed.

Lemma wf_node_list_id p n : wf p → n ∈ node_list p → nodes p !! id n = Some n.
Proof.
  intros Hwf Hn. apply elem_of_btree_values in Hn as [i Hi].
  pose proof (wf_nodes p Hwf i n Hi) as Hnw. by rewrite (nw_id _ _ _ _ _ Hnw).
Qed.

Lemma wf_new obj m c : wf (new obj m c).
Proof.
  split; simpl.
  - unfold U32_MAX. lia.
  - intros i n Hn. by rewrite lookup_empty in Hn.
  - intros i. apply grounded_intro. intros y (n & Hn & _). by rewrite lookup_empty in Hn.
  - intros key ids i Hk. by rewrite lookup_empty in Hk.
Qed.

(** ** Updating one node *)

Lemma update_node_lookup p i f j :
  nodes (update_node p i f) !! j =
  if decide (i = j) then f <$> nodes p !! j else nodes p !! j.
Proof. simpl. rewrite lookup_alter. case_decide; by subst. Qed.

Lemma completed_mono (ns ns' : gmap NodeId TaskNode) u :
  (∀ i n, ns !! i = Some n → is_terminal n = true → ns' !! i = Some n) →
  completed ns u → completed ns' u.
Proof.
  intros H (n & Hn & Hc). exists n. split; [|done]. apply H; [done|].
  unfold is_terminal. by rewrite Hc.
Qed.

(** A change of status, of handoff or of reclaim count: the edges stay. *)
Record status_change (p : TaskPlan) (i : NodeId) (n n' : TaskNode) : Prop := {
  sc_id : id n' = id n;
  sc_kind : kind n' = kind n;
  sc_title : title n' = title n;
  sc_upstream : upstream n' = upstream n;
  sc_deps : started (status n') → ∀ u, u ∈ upstream n → completed (nodes p) u;
  sc_handoff :
    match status n' with
    | Complete => ∃ a, artifact n' = Some a ∧
                       validate_artifact i (kind n) (is_deep (mode p)) a = Ok ()
    | _ => artifact n' = None
    end;
}.

Lemma update_open_terminal p i f n j m :
  nodes p !! i = Some n → is_terminal n = false →
  nodes p !! j = Some m → is_terminal m = true →
  nodes (update_node p i f) !! j = Some m.
Proof.
  intros Hn Ht Hm Hmt. rewrite update_node_lookup. case_decide; [congruence|done].
Qed.

Lemma wf_status_change p i f n :
  wf p → nodes p !! i = Some n → is_terminal n = false →
  status_change p i n (f n) → wf (update_node p i f).
Proof.
  intros Hwf Hn Ht Hsc.
  assert (Hdom : ∀ u, is_Some (nodes p !! u) → is_Some (nodes (update_node p i f) !! u)).
  { intros u Hu. rewrite update_node_lookup. case_decide; [by apply fmap_is_Some|done]. }
  assert (Hwaits : ∀ a b, waits (nodes (update_node p i f)) a b → waits (nodes p) a b).
  { intros a b (m & Hm & Hb). rewrite update_node_lookup in Hm. case_decide.
    - subst a. rewrite Hn in Hm. simplify_eq/=. exists n.
      by rewrite <-(sc_upstream _ _ _ _ Hsc).
    - by exists m. }
  assert (Hcomp : ∀ u, completed (nodes p) u → completed (nodes (update_node p i f)) u).
  { intros u. apply completed_mono. intros. by eapply update_open_terminal. }
  split; [by apply Hwf| | |].
  - intros j m Hm. rewrite update_node_lookup in Hm.
    destruct (decide (i = j)) as [->|Hij].
    + rewrite Hn in Hm. injection Hm as <-.
      destruct (wf_nodes p Hwf j n Hn), Hsc. split; simpl.
      * congruence.
      * done.
      * congruence.
      * rewrite sc_upstream0. auto.
      * rewrite sc_upstream0. auto.
      * by rewrite sc_kind0.
    + destruct (wf_nodes p Hwf j m Hm). split; simpl; auto.
  - intros j. eapply (grounded_transfer (waits (nodes p)) _ (λ _, True)); [|done|by apply wf_grounded].
    intros a b _ ?. split; [by apply Hwaits|done].
  - intros key ids j Hk Hj. apply Hdom. by eapply wf_seeds.
Qed.

Lemma wf_bump p : wf p → wf (bump_version p).
Proof. by intros [? ? ? ?]. Qed.

(** Rewiring a node that goes back to pending. *)
Lemma wf_rewire p i f n :
  wf p → nodes p !! i = Some n → is_terminal n = false →
  id (f n) = id n → status (f n) = Pending → artifact (f n) = artifact n →
  StronglySorted N.lt (upstream (f n)) →
  (∀ u, u ∈ upstream (f n) → is_Some (nodes p !! u) ∧ ¬ rtc (waits (nodes p)) u i) →
  wf (update_node p i f).
Proof.
  intros Hwf Hn Ht Hid Hst Hart Hsort Hups.
  assert (Hdom : ∀ u, is_Some (nodes p !! u) → is_Some (nodes (update_node p i f) !! u)).
  { intros u Hu. rewrite update_node_lookup. case_decide; [by apply fmap_is_Some|done]. }
  assert (Hcomp : ∀ u, completed (nodes p) u → completed (nodes (update_node p i f)) u).
  { intros u. apply completed_mono. intros. by eapply update_open_terminal. }
  split; [by apply Hwf| | |].
  - intros j m Hm. rewrite update_node_lookup in Hm.
    destruct (decide (i = j)) as [->|Hij].
    + rewrite Hn in Hm. injection Hm as <-.
      destruct (wf_nodes p Hwf j n Hn). split; simpl.
      * congruence.
      * done.
      * done.
      * intros u Hu. apply Hdom. by apply Hups.
      * by rewrite Hst.
      * rewrite Hst, Hart. unfold is_terminal in Ht. by destruct (status n).
    + destruct (wf_nodes p Hwf j m Hm). split; simpl; auto.
  - intros j. apply (grounded_rewire (waits (nodes p)) _ i).
    + intros a b Ha (m & Hm & Hb). rewrite update_node_lookup in Hm.
      rewrite decide_False in Hm by done. by exists m.
    + intros b (m & Hm & Hb). rewrite update_node_lookup, decide_True, Hn in Hm by done.
      injection Hm as <-. split; [by apply wf_grounded|by apply Hups].
    + intros a. destruct (decide (a = i)); auto.
    + by apply wf_grounded.
  - intros key ids j Hk Hj. apply Hdom. by eapply wf_seeds.
Qed.

(** ** Adding nodes *)

(** Everything of a plan but its nodes and the next id. *)
Definition frame (p : TaskPlan) :=
  (objective p, mode p, coordinator p, version p, applied_seeds p).

Definition room (p : TaskPlan) (k : nat) : Prop :=
  (next_id p + N.of_nat k <= U32_MAX)%N.

Definition nth_id (base : N) (k : nat) : N := (base + N.of_nat k)%N.

(** A node no operation has touched since it was inserted. *)
Record fresh_node (ns : gmap NodeId TaskNode) (next : N) (i : NodeId) (n : TaskNode)
  : Prop := {
  fn_id : id n = i;
  fn_range : (1 <= i < next)%N;
  fn_sorted : StronglySorted N.lt (upstream n);
  fn_closed : ∀ u, u ∈ upstream n → is_Some (ns !! u);
  fn_status : status n = Pending;
  fn_artifact : artifact n = None;
}.

Lemma grounded_absent (ns : gmap NodeId TaskNode) i :
  ns !! i = None → grounded (waits ns) i.
Proof. intros Hi. apply grounded_intro. intros y (n & Hn & _). congruence. Qed.

Lemma wf_extend p p' :
  wf p → mode p' = mode p → applied_seeds p' = applied_seeds p →
  (next_id p <= next_id p' <= U32_MAX)%N →
  (∀ i, (i < next_id p)%N → nodes p' !! i = nodes p !! i) →
  (∀ i n, (next_id p <= i)%N → nodes p' !! i = Some n →
     fresh_node (nodes p') (next_id p') i n ∧ grounded (waits (nodes p')) i) →
  wf p'.
Proof.
  intros Hwf Hmode Hseeds Hnext Hold Hnew.
  assert (Hlt : ∀ i n, nodes p !! i = Some n → (i < next_id p)%N).
  { intros i n Hi. by destruct (nw_range _ _ _ _ _ (wf_nodes p Hwf i n Hi)). }
  assert (Hdom : ∀ u, is_Some (nodes p !! u) → is_Some (nodes p' !! u)).
  { intros u [n Hu]. rewrite Hold by by eapply Hlt. by exists n. }
  split.
  - pose proof (wf_next p Hwf). lia.
  - intros i n Hi. destruct (N.lt_ge_cases i (next_id p)) as [Hlti|Hge].
    + rewrite Hold in Hi by done. destruct (wf_nodes p Hwf i n Hi). rewrite Hmode.
      split; [done|lia|done|auto| |done].
      intros Hs u Hu. destruct (nw_deps0 Hs u Hu) as (m & Hm & Hc). exists m.
      rewrite Hold by by eapply Hlt. done.
    + destruct (Hnew i n Hge Hi) as [[] _]. split; [done|done|done|done| |].
      * by rewrite fn_status0.
      * by rewrite fn_status0.
  - intros i. destruct (nodes p' !! i) as [n|] eqn:Hi; [|by apply grounded_absent].
    destruct (N.lt_ge_cases i (next_id p)) as [Hlti|Hge]; [|by apply (Hnew i n)].
    rewrite Hold in Hi by done.
    apply (grounded_transfer (waits (nodes p)) _ (λ a, is_Some (nodes p !! a)));
      [|by exists n|by apply wf_grounded].
    intros a b [m Hm] (m' & Hm' & Hb). rewrite Hold, Hm in Hm' by by eapply Hlt.
    simplify_eq. split; [by exists m'|]. by eapply nw_closed; [apply (wf_nodes p Hwf a)|].
  - intros key ids i Hk Hi. rewrite Hseeds in Hk. apply Hdom. by eapply wf_seeds.
Qed.

(** *** One node *)

Definition spec_node (i : NodeId) (s : NodeSpec) (own : ActorId) (ups : list NodeId)
  : TaskNode :=
  mkNode i (spec_title s) (spec_prompt s) (spec_kind s) own Pending (sort_dedup ups)
    None 0 (spec_model s).

Lemma insert_next p s own ups :
  room p 1 → next_id (fst (insert p s own ups)) = nth_id (next_id p) 1.
Proof. intros Hr. unfold room in Hr. simpl. rewrite u32_add_small by lia. done. Qed.

Lemma wf_insert p s own ups :
  wf p → room p 1 → (∀ u, u ∈ ups → is_Some (nodes p !! u)) →
  wf (fst (insert p s own ups)).
Proof.
  intros Hwf Hr Hups. pose proof (wf_next p Hwf) as Hn1.
  pose proof (wf_fresh p (next_id p) Hwf ltac:(lia)) as Hfresh.
  pose proof (insert_next p s own ups Hr) as Hnext. unfold nth_id in Hnext.
  apply (wf_extend p); [done|done|done| | |].
  - unfold room in Hr. rewrite Hnext. lia.
  - intros i Hi. simpl. by rewrite lookup_insert_ne by lia.
  - intros i n Hi Hn. simpl in Hn.
    destruct (decide (i = next_id p)) as [->|Hne]; cycle 1.
    { rewrite lookup_insert_ne, (wf_fresh p) in Hn by (done || lia). done. }
    rewrite lookup_insert_eq in Hn. injection Hn as <-.
    assert (Hold : ∀ u, u ∈ sort_dedup ups → is_Some (nodes p !! u)).
    { intros u. rewrite elem_of_sort_dedup. apply Hups. }
    split.
    + split; [done|rewrite Hnext; lia|by apply sort_dedup_sorted| |done|done].
      intros u Hu. apply lookup_insert_is_Some'. right. by apply Hold.
    + apply grounded_intro. intros y (n & Hn & Hy). simpl in Hn.
      rewrite lookup_insert_eq in Hn. injection Hn as <-. simpl in Hy.
      apply (grounded_transfer (waits (nodes p)) _ (λ a, is_Some (nodes p !! a)));
        [|by apply Hold|by apply wf_grounded].
      intros a b [m Hm] (m' & Hm' & Hb). simpl in Hm'.
      rewrite lookup_insert_ne in Hm' by (intros <-; congruence). split; [by exists m'|].
      rewrite Hm in Hm'. simplify_eq. by eapply nw_closed; [apply (wf_nodes p Hwf a)|].
Qed.

(** *** A batch *)

Lemma insert_specs_spec p own specs inh :
  room p (length specs) →
  let r := insert_specs p own specs inh in
  frame (fst r) = frame p ∧
  next_id (fst r) = nth_id (next_id p) (length specs) ∧
  snd r = nth_id (next_id p) <$> seq 0 (length specs) ∧
  (∀ i, (i < next_id p)%N → nodes (fst r) !! i = nodes p !! i) ∧
  (∀ k s, specs !! k = Some s → nodes (fst r) !! nth_id (next_id p) k =
     Some (spec_node (nth_id (next_id p) k) s own inh)) ∧
  (∀ i, (nth_id (next_id p) (length specs) <= i)%N → nodes (fst r) !! i = nodes p !! i).
Proof.
  revert p. induction specs as [|s specs IH]; intros p Hr; cbn [insert_specs].
  { unfold nth_id; simpl. split_and!; [done|lia|done|done|done|done]. }
  unfold room in Hr. cbn [length] in Hr.
  pose proof (insert_next p s own inh ltac:(unfold room; lia)) as Hnext.
  destruct (insert p s own inh) as [p1 i1] eqn:Hins. cbn [fst] in Hnext.
  assert (Hn1 : nodes p1 = <[next_id p := spec_node (next_id p) s own inh]> (nodes p)
                ∧ i1 = next_id p ∧ frame p1 = frame p).
  { unfold insert in Hins. by injection Hins as <- <-. }
  destruct Hn1 as (Hn1 & -> & Hframe).
  specialize (IH p1 ltac:(unfold room; rewrite Hnext; unfold nth_id; lia)).
  destruct (insert_specs p1 own specs inh) as [p2 created]. cbn [fst snd] in *.
  destruct IH as (Hf & Hx & Hc & Hlow & Hmid & Hhigh).
  rewrite Hnext in Hx, Hc, Hlow, Hmid, Hhigh.
  assert (Hsh : ∀ k, nth_id (nth_id (next_id p) 1) k = nth_id (next_id p) (S k))
    by (intros; unfold nth_id; lia).
  rewrite Hsh in Hx, Hhigh.
  split_and!; [congruence|done| | | |].
  - cbn [length seq fmap list_fmap]. f_equal; [unfold nth_id; lia|].
    rewrite Hc, <-seq_shift, <-list_fmap_compose.
    apply list_fmap_ext. intros k x _. apply Hsh.
  - intros i Hi. rewrite Hlow by (unfold nth_id; lia).
    by rewrite Hn1, lookup_insert_ne by lia.
  - intros [|k] s' Hk; simpl in Hk.
    + injection Hk as ->. rewrite Hlow by (unfold nth_id; lia).
      replace (nth_id (next_id p) 0) with (next_id p) by (unfold nth_id; lia).
      by rewrite Hn1, lookup_insert_eq.
    + rewrite <-Hsh. by apply Hmid.
  - intros i Hi. rewrite Hhigh by done.
    rewrite Hn1, lookup_insert_ne by (cbn [length] in Hi; unfold nth_id in Hi; lia). done.
Qed.

(** What the second pass does to the node of one entry. *)
Definition link_node (created : list NodeId) (spec : NodeSpec) (i : NodeId)
    (n : TaskNode) : TaskNode :=
  match batch_extra created spec i with
  | [] => n
  | extra => set_upstream (sort_dedup (upstream n ++ extra)) n
  end.

Lemma link_entry_frame created p e :
  frame (link_entry created p e) = frame p ∧
  next_id (link_entry created p e) = next_id p.
Proof. unfold link_entry. by destruct (batch_extra _ _ _). Qed.

Lemma link_entry_lookup created p spec i j :
  nodes (link_entry created p (spec, i)) !! j =
  if decide (i = j) then link_node created spec i <$> nodes p !! j else nodes p !! j.
Proof.
  unfold link_entry, link_node. cbn [fst snd].
  destruct (batch_extra created spec i) as [|x extra].
  - case_decide; [|done]. by destruct (nodes p !! j).
  - rewrite update_node_lookup. case_decide; done.
Qed.

Lemma link_spec created entries p :
  NoDup (snd <$> entries) →
  let p' := foldl (link_entry created) p entries in
  frame p' = frame p ∧ next_id p' = next_id p ∧
  (∀ i, i ∉ snd <$> entries → nodes p' !! i = nodes p !! i) ∧
  (∀ spec i, (spec, i) ∈ entries →
     nodes p' !! i = link_node created spec i <$> nodes p !! i).
Proof.
  revert p. induction entries as [|[s i] entries IH]; intros p Hnd; simpl in *.
  { split_and!; [done|done|done|]. intros spec i Hin. by apply not_elem_of_nil in Hin. }
  apply list.NoDup_cons in Hnd as [Hi Hnd].
  destruct (IH (link_entry created p (s, i)) Hnd) as (Hf & Hx & Hout & Hin).
  destruct (link_entry_frame created p (s, i)) as [Hf1 Hx1].
  split_and!; [congruence|congruence| |].
  - intros j Hj. apply not_elem_of_cons in Hj as [Hji Hj].
    rewrite Hout by done. by rewrite link_entry_lookup, decide_False.
  - intros spec j [Heq|Hj]%elem_of_cons.
    + simplify_eq. rewrite Hout by done. by rewrite link_entry_lookup, decide_True.
    + rewrite (Hin spec) by done. rewrite link_entry_lookup, decide_False; [done|].
      intros ->. apply Hi. apply list_elem_of_fmap. by exists (spec, j).
Qed.

Lemma link_node_upstream created spec i n u :
  u ∈ upstream (link_node created spec i n) ↔
  u ∈ upstream n ∨ u ∈ batch_extra created spec i.
Proof.
  unfold link_node. destruct (batch_extra created spec i) as [|x extra].
  - rewrite elem_of_nil. tauto.
  - cbn [upstream set_upstream]. by rewrite elem_of_sort_dedup, elem_of_app.
Qed.

Lemma link_node_sorted created spec i n :
  StronglySorted N.lt (upstream n) →
  StronglySorted N.lt (upstream (link_node created spec i n)).
Proof.
  intros. unfold link_node. destruct (batch_extra created spec i); [done|].
  apply sort_dedup_sorted.
Qed.

Lemma link_node_rest created spec i n :
  id (link_node created spec i n) = id n ∧
  status (link_node created spec i n) = status n ∧
  artifact (link_node created spec i n) = artifact n.
Proof. unfold link_node. by destruct (batch_extra created spec i). Qed.

(** What a validated batch adds: entry [k] becomes the node [nth_id base k],
    waiting on the inherited nodes and on the entries it named. *)
Record batch_added (p : TaskPlan) (own : ActorId) (specs : list NodeSpec)
    (inh : list NodeId) (p' : TaskPlan) : Prop := {
  ba_frame : frame p' = frame p;
  ba_next : next_id p' = nth_id (next_id p) (length specs);
  ba_old : ∀ i, (i < next_id p)%N → nodes p' !! i = nodes p !! i;
  ba_new : ∀ k s, specs !! k = Some s →
    ∃ n, nodes p' !! nth_id (next_id p) k = Some n ∧
      id n = nth_id (next_id p) k ∧ title n = spec_title s ∧ kind n = spec_kind s ∧
      owner n = own ∧ status n = Pending ∧ artifact n = None ∧
      StronglySorted N.lt (upstream n) ∧
      ∀ u, u ∈ upstream n ↔
        u ∈ inh ∨ ∃ j, j ∈ batch_deps specs k ∧ u = nth_id (next_id p) j;
  ba_only : ∀ i, (nth_id (next_id p) (length specs) <= i)%N → nodes p' !! i = None;
}.

Lemma elem_of_batch_extra base len specs k s u :
  in_range specs → length specs = len → specs !! k = Some s → ¬ batch_edge specs k k →
  u ∈ batch_extra (nth_id base <$> seq 0 len) s (nth_id base k) ↔
  ∃ j, j ∈ batch_deps specs k ∧ u = nth_id base j.
Proof.
  intros Hr Hlen Hk Hself. unfold batch_extra, batch_deps. rewrite Hk. simpl.
  rewrite list_elem_of_filter, list_elem_of_omap. split.
  - intros (_ & j & Hj & Hu). exists j. split; [done|].
    apply list_lookup_fmap_Some in Hu as (x & -> & Hx).
    apply lookup_seq in Hx as [-> _]. done.
  - intros (j & Hj & ->). assert (j < len).
    { rewrite <-Hlen. apply (Hr k). unfold batch_edge, batch_deps. by rewrite Hk. }
    split.
    + intros Heq. apply Hself. unfold batch_edge, batch_deps. rewrite Hk. simpl.
      replace k with j; [done|]. unfold nth_id in Heq. lia.
    + exists j. split; [done|]. rewrite list_lookup_fmap, lookup_seq_lt by lia. done.
Qed.

Lemma nth_id_NoDup base len : NoDup (nth_id base <$> seq 0 len).
Proof.
  apply NoDup_fmap_2; [|apply NoDup_seq].
  intros a b. unfold nth_id. lia.
Qed.

Lemma insert_batch_added p own specs inh :
  wf p → room p (length specs) → in_range specs →
  (∀ i, grounded (batch_edge specs) i) →
  batch_added p own specs inh (fst (insert_batch p own specs inh)) ∧
  snd (insert_batch p own specs inh) = nth_id (next_id p) <$> seq 0 (length specs).
Proof.
  intros Hwf Hroom Hr Hg. unfold insert_batch.
  pose proof (insert_specs_spec p own specs inh Hroom) as Hins.
  destruct (insert_specs p own specs inh) as [p1 created]. cbn [fst snd] in *.
  destruct Hins as (Hf & Hx & Hc & Hlow & Hmid & Hhigh). subst created.
  set (created := nth_id (next_id p) <$> seq 0 (length specs)).
  assert (Hlen : length created = length specs)
    by (unfold created; by rewrite length_fmap, length_seq).
  assert (Hzip : snd <$> zip specs created = created) by (apply snd_zip; lia).
  destruct (link_spec created (zip specs created) p1) as (Hf2 & Hx2 & Hout & Hin).
  { rewrite Hzip. apply nth_id_NoDup. }
  rewrite Hzip in Hout.
  assert (Hcr : ∀ i, i ∈ created → (next_id p <= i < nth_id (next_id p) (length specs))%N).
  { intros i (k & -> & Hk%elem_of_seq)%list_elem_of_fmap. unfold nth_id. lia. }
  split; [|done]. split.
  - congruence.
  - congruence.
  - intros i Hi. rewrite Hout; [by apply Hlow|]. intros Hi'. apply Hcr in Hi'. lia.
  - intros k s Hk.
    assert (Hks : created !! k = Some (nth_id (next_id p) k)).
    { unfold created. apply lookup_lt_Some in Hk.
      by rewrite list_lookup_fmap, lookup_seq_lt by lia. }
    assert (Hz : (s, nth_id (next_id p) k) ∈ zip specs created).
    { apply list_elem_of_lookup. exists k. apply lookup_zip_with_Some. eauto. }
    rewrite (Hin s) by done. rewrite (Hmid k s) by done. cbn [fmap option_fmap option_map].
    set (n0 := spec_node (nth_id (next_id p) k) s own inh).
    destruct (link_node_rest created s (nth_id (next_id p) k) n0) as (Hid & Hst & Hart).
    eexists. split; [done|]. split_and!; [done| | | |done|done| |].
    + unfold link_node. by destruct (batch_extra _ _ _).
    + unfold link_node. by destruct (batch_extra _ _ _).
    + unfold link_node. by destruct (batch_extra _ _ _).
    + apply link_node_sorted, sort_dedup_sorted.
    + intros u. rewrite link_node_upstream. unfold created.
      rewrite (elem_of_batch_extra _ _ specs k) by
        (done || by intros Hs; apply (grounded_no_cycle _ _ (Hg k)), tc_once).
      cbn [n0 spec_node upstream]. by rewrite elem_of_sort_dedup.
  - intros i Hi. rewrite Hout by (intros Hi'; apply Hcr in Hi'; lia).
    rewrite Hhigh by done. apply wf_fresh; [done|]. unfold nth_id in Hi. lia.
Qed.

Lemma grounded_old p p' i :
  wf p → (∀ i, (i < next_id p)%N → nodes p' !! i = nodes p !! i) →
  is_Some (nodes p !! i) → grounded (waits (nodes p')) i.
Proof.
  intros Hwf Hold Hi.
  apply (grounded_transfer (waits (nodes p)) _ (λ a, is_Some (nodes p !! a)));
    [|done|by apply wf_grounded].
  intros a b [m Hm] (m' & Hm' & Hb).
  pose proof (wf_nodes p Hwf a m Hm) as Ha.
  rewrite Hold, Hm in Hm' by apply (nw_range _ _ _ _ _ Ha).
  simplify_eq. split; [by exists m'|]. by apply (nw_closed _ _ _ _ _ Ha).
Qed.

Lemma frame_fields p p' :
  frame p' = frame p →
  objective p' = objective p ∧ mode p' = mode p ∧ coordinator p' = coordinator p ∧
  version p' = version p ∧ applied_seeds p' = applied_seeds p.
Proof. unfold frame. naive_solver. Qed.

Lemma batch_node_inv p own specs inh p' i n :
  batch_added p own specs inh p' → (next_id p <= i)%N → nodes p' !! i = Some n →
  ∃ k s, specs !! k = Some s ∧ i = nth_id (next_id p) k.
Proof.
  intros Hb Hi Hn.
  destruct (N.lt_ge_cases i (nth_id (next_id p) (length specs))) as [Hlt|Hge].
  - set (k := N.to_nat (i - next_id p)).
    assert (k < length specs) by (unfold k, nth_id in *; lia).
    destruct (lookup_lt_is_Some_2 specs k) as [s Hs]; [done|].
    exists k, s. split; [done|]. unfold k, nth_id. lia.
  - rewrite (ba_only _ _ _ _ _ Hb) in Hn; done.
Qed.

Lemma wf_batch_added p own specs inh p' :
  wf p → room p (length specs) → in_range specs →
  (∀ i, grounded (batch_edge specs) i) →
  (∀ u, u ∈ inh → is_Some (nodes p !! u)) →
  batch_added p own specs inh p' → wf p'.
Proof.
  intros Hwf Hroom Hr Hg Hinh Hb.
  destruct (frame_fields _ _ (ba_frame _ _ _ _ _ Hb)) as (_ & Hmode & _ & _ & Hseeds).
  pose proof (ba_old _ _ _ _ _ Hb) as Hold.
  pose proof (ba_next _ _ _ _ _ Hb) as Hnext.
  assert (Hlive : ∀ u, u ∈ inh → is_Some (nodes p' !! u)).
  { intros u Hu. destruct (Hinh u Hu) as [m Hm]. rewrite Hold; [by exists m|].
    apply (nw_range _ _ _ _ _ (wf_nodes p Hwf u m Hm)). }
  assert (Hnew : ∀ k, grounded (batch_edge specs) k → k < length specs →
                 grounded (waits (nodes p')) (nth_id (next_id p) k)).
  { intros k Hk. induction Hk as [k _ IH]. intros Hlt.
    destruct (lookup_lt_is_Some_2 specs k Hlt) as [s Hs].
    destruct (ba_new _ _ _ _ _ Hb k s Hs) as (n & Hn & _ & _ & _ & _ & _ & _ & _ & Hup).
    apply grounded_intro. intros y Hy. rewrite (waits_lookup _ _ _ n) in Hy by done.
    apply Hup in Hy as [Hy|(j & Hj & ->)].
    - by apply (grounded_old p); [| |apply Hinh].
    - apply IH; [done|]. by apply (Hr k). }
  apply (wf_extend p); [done|done|done| |done|].
  - rewrite Hnext. unfold room in Hroom. unfold nth_id. lia.
  - intros i n Hi Hn.
    destruct (batch_node_inv _ _ _ _ _ i n Hb Hi Hn) as (k & s & Hs & ->).
    assert (Hlt : k < length specs) by (by eapply lookup_lt_Some).
    split; [|by apply Hnew].
    destruct (ba_new _ _ _ _ _ Hb k s Hs)
      as (n' & Hn' & Hid & _ & _ & _ & Hst & Hart & Hsort & Hup).
    rewrite Hn in Hn'. simplify_eq. pose proof (wf_next p Hwf).
    split; [done|rewrite Hnext; unfold nth_id; lia|done| |done|done].
    intros u [Hu|(j & Hj & ->)]%Hup; [by apply Hlive|].
    assert (j < length specs) by (by apply (Hr k)).
    destruct (lookup_lt_is_Some_2 specs j) as [sj Hsj]; [done|].
    destruct (ba_new _ _ _ _ _ Hb j sj Hsj) as (m & Hm & _). by exists m.
Qed.

(** From a new node one only reaches new nodes and what the inherited
    dependencies already reached. *)
Lemma extension_reach p p' (inh : list NodeId) w t :
  wf p → (∀ i, (i < next_id p)%N → nodes p' !! i = nodes p !! i) →
  (∀ i n u, (next_id p <= i)%N → nodes p' !! i = Some n → u ∈ upstream n →
     u ∈ inh ∨ (next_id p <= u)%N) →
  (∀ u, u ∈ inh → is_Some (nodes p !! u)) →
  (next_id p <= w)%N → is_Some (nodes p !! t) →
  rtc (waits (nodes p')) w t → ∃ u, u ∈ inh ∧ rtc (waits (nodes p)) u t.
Proof.
  intros Hwf Hold Hnew Hinh Hw [nt Ht] Hreach.
  set (Q a := (next_id p <= a)%N ∨
              (is_Some (nodes p !! a) ∧ ∃ u, u ∈ inh ∧ rtc (waits (nodes p)) u a)).
  assert (HQ : Q t).
  { eapply (rtc_ind_r Q w); [by left| |exact Hreach].
    intros a b _ (n & Hn & Hab) [Ha|[[m Hm] (u & Hu & Hua)]].
    - destruct (Hnew a n b Ha Hn Hab) as [Hu|]; [|by left].
      right. split; [by apply Hinh|]. exists b. split; [done|apply rtc_refl].
    - right. pose proof (wf_nodes p Hwf a m Hm) as Hwa.
      rewrite Hold, Hm in Hn by apply (nw_range _ _ _ _ _ Hwa).
      simplify_eq. split; [by apply (nw_closed _ _ _ _ _ Hwa)|].
      exists u. split; [done|]. eapply rtc_r; [done|]. by exists n. }
  destruct HQ as [Hge|[_ ?]]; [|done]. by rewrite (wf_fresh p) in Ht.
Qed.

(** ** The shared shape of seed, expansion and injection *)

Record grown (p : TaskPlan) (specs : list NodeSpec) (inh : list NodeId)
    (p' : TaskPlan) (created : list NodeId) (g : option NodeId) : Prop := {
  gr_wf : wf p';
  gr_frame : frame p' = frame p;
  gr_old : ∀ i, (i < next_id p)%N → nodes p' !! i = nodes p !! i;
  gr_ids : created = nth_id (next_id p) <$> seq 0 (length specs);
  gr_fresh : ∀ w, w ∈ created ++ option_list g →
    (next_id p <= w)%N ∧ is_Some (nodes p' !! w);
  gr_edges : ∀ i n u, (next_id p <= i)%N → nodes p' !! i = Some n →
    u ∈ upstream n → u ∈ inh ∨ (next_id p <= u)%N;
  gr_pending : ∀ i n, (next_id p <= i)%N → nodes p' !! i = Some n → status n = Pending;
}.

Lemma grown_batch p own specs inh :
  wf p → room p (length specs) → in_range specs →
  (∀ i, grounded (batch_edge specs) i) → (∀ u, u ∈ inh → is_Some (nodes p !! u)) →
  grown p specs inh (fst (insert_batch p own specs inh))
    (snd (insert_batch p own specs inh)) None.
Proof.
  intros Hwf Hroom Hr Hg Hinh.
  destruct (insert_batch_added p own specs inh Hwf Hroom Hr Hg) as [Hb ->].
  set (p' := fst (insert_batch p own specs inh)) in *.
  split; [by eapply wf_batch_added|by apply Hb|by apply Hb|done| | |].
  - intros w. rewrite app_nil_r. intros (k & -> & Hk%elem_of_seq)%list_elem_of_fmap.
    split; [unfold nth_id; lia|].
    destruct (lookup_lt_is_Some_2 specs k ltac:(lia)) as [s Hs].
    destruct (ba_new _ _ _ _ _ Hb k s Hs) as (n & Hn & _). by exists n.
  - intros i n u Hi Hn Hu.
    destruct (batch_node_inv _ _ _ _ _ i n Hb Hi Hn) as (k & s & Hs & ->).
    destruct (ba_new _ _ _ _ _ Hb k s Hs) as (n' & Hn' & _ & _ & _ & _ & _ & _ & _ & Hup).
    rewrite Hn in Hn'. simplify_eq. apply Hup in Hu as [Hu|(j & _ & ->)]; [by left|].
    right. unfold nth_id. lia.
  - intros i n Hi Hn.
    destruct (batch_node_inv _ _ _ _ _ i n Hb Hi Hn) as (k & s & Hs & ->).
    destruct (ba_new _ _ _ _ _ Hb k s Hs) as (n' & Hn' & _ & _ & _ & _ & Hst & _).
    congruence.
Qed.

Lemma grown_deep p own specs inh t pr p1 created :
  wf p → room p (S (length specs)) → grown p specs inh p1 created None →
  next_id p1 = nth_id (next_id p) (length specs) →
  grown p specs inh (fst (deep_gate p1 own t pr created)) created
    (snd (deep_gate p1 own t pr created)).
Proof.
  intros Hwf Hroom Hgr Hnext. unfold deep_gate.
  destruct (is_deep (mode p1)); [|done].
  unfold append_gate. set (gs := gate t pr).
  destruct (insert p1 gs own created) as [p2 g] eqn:Hins. cbn [fst snd].
  destruct Hgr as [Hwf1 Hf Hold Hids Hfresh Hedges Hpend]. rewrite app_nil_r in Hfresh.
  pose proof (wf_insert p1 gs own created Hwf1) as Hwf2. rewrite Hins in Hwf2.
  assert (Hp2 : frame p2 = frame p1 ∧ g = next_id p1 ∧
                nodes p2 = <[next_id p1 := spec_node (next_id p1) gs own created]> (nodes p1)).
  { unfold insert in Hins. by injection Hins as <- <-. }
  destruct Hp2 as (Hf2 & -> & Hn2).
  assert (Hlow : ∀ i, (i < next_id p1)%N → nodes p2 !! i = nodes p1 !! i).
  { intros i Hi. by rewrite Hn2, lookup_insert_ne by lia. }
  assert (Hmono : ∀ i, is_Some (nodes p1 !! i) → is_Some (nodes p2 !! i)).
  { intros i Hi. rewrite Hn2. apply lookup_insert_is_Some'. by right. }
  split; [| congruence| |done| | |].
  - apply Hwf2; [unfold room in *; rewrite Hnext; unfold nth_id; lia|].
    intros u Hu. by apply Hfresh.
  - intros i Hi. rewrite Hlow by (rewrite Hnext; unfold nth_id; lia). by apply Hold.
  - intros w [Hw| ->%list_elem_of_singleton]%elem_of_app.
    + destruct (Hfresh w Hw) as [? ?]. auto.
    + split; [rewrite Hnext; unfold nth_id; lia|].
      rewrite Hn2, lookup_insert_eq. by eexists.
  - intros i n u Hi Hn Hu. rewrite Hn2 in Hn.
    destruct (decide (i = next_id p1)) as [->|Hne].
    + rewrite lookup_insert_eq in Hn. injection Hn as <-.
      cbn [spec_node upstream] in Hu. rewrite elem_of_sort_dedup in Hu.
      right. by apply Hfresh.
    + rewrite lookup_insert_ne in Hn by done. by eapply Hedges.
  - intros i n Hi Hn. rewrite Hn2 in Hn.
    destruct (decide (i = next_id p1)) as [->|Hne].
    + rewrite lookup_insert_eq in Hn. by injection Hn as <-.
    + rewrite lookup_insert_ne in Hn by done. by eapply Hpend.
Qed.
