(* ===== verification/PlanSafe.v ===== *)
(** * Every operation keeps the plan coherent

    One lemma per operation of [PlanOps] and [Schedule]: the invariant is
    preserved, finished tasks are frozen, the version moves by one on success,
    and a refusal returns the plan as it was. *)

From stdpp Require Import base gmap list sorting strings pretty numbers.
From S2P Require Import Prelude RustStr Artifact Plan Batch PlanOps Schedule PlanWf.
#[local] Open Scope nat_scope.

(** What no operation may undo. *)
Record frozen (p p' : TaskPlan) : Prop := {
  fz_terminal : ∀ i n, nodes p !! i = Some n → is_terminal n = true →
    nodes p' !! i = Some n;
  fz_keeps : ∀ i n, nodes p !! i = Some n →
    ∃ n', nodes p' !! i = Some n' ∧ kind n' = kind n ∧ title n' = title n;
  fz_seeds : ∀ key ids, applied_seeds p !! key = Some ids →
    applied_seeds p' !! key = Some ids;
  fz_mode : mode p' = mode p;
  fz_objective : objective p' = objective p;
}.

#[export] Instance frozen_preorder : PreOrder frozen.
Proof.
  split.
  - intros p. split; naive_solver.
  - intros p1 p2 p3 [T1 K1 S1 ? ?] [T2 K2 S2 ? ?]. split; [auto| |auto|congruence|congruence].
    intros i n Hn. destruct (K1 i n Hn) as (n' & Hn' & ? & ?).
    destruct (K2 i n' Hn') as (n'' & Hn'' & ? & ?). exists n''. split_and!; [done|congruence..].
Qed.

(** The contract of an operation that bumps the version. *)
Record op_sound {A} (p : TaskPlan) (r : TaskPlan * result A PlanError) : Prop := {
  os_wf : wf (fst r);
  os_frozen : frozen p (fst r);
  os_effect : match snd r with
              | Ok _ => version (fst r) = u64_add (version p) 1
              | Err _ => fst r = p
              end;
}.

Lemma op_refused {A} p (e : PlanError) : wf p → op_sound (A:=A) p (p, Err e).
Proof. intros Hwf. by split. Qed.

Lemma frozen_bump p : frozen p (bump_version p).
Proof. split; simpl; eauto. Qed.

Lemma frozen_update p i f n :
  nodes p !! i = Some n → is_terminal n = false →
  kind (f n) = kind n → title (f n) = title n → frozen p (update_node p i f).
Proof.
  intros Hn Ht Hk Htt. split; [| |done..].
  - intros j m Hm Hmt. by eapply update_open_terminal.
  - intros j m Hm. rewrite update_node_lookup. case_decide as Hij; [|by eauto].
    subst. rewrite Hm. exists (f m). split_and!; [done|congruence..].
Qed.

(** An operation that changes one open node without touching its edges. *)
Lemma status_op_sound {A} p i f n (a : A) :
  wf p → nodes p !! i = Some n → is_terminal n = false →
  status_change p i n (f n) →
  op_sound p (bump_version (update_node p i f), Ok a).
Proof.
  intros Hwf Hn Ht Hsc. split; [| |done].
  - by eapply wf_bump, wf_status_change.
  - etrans; [|apply frozen_bump].
    eapply frozen_update; [done..| |]; apply Hsc.
Qed.

Lemma require_mutable_Ok p i actor n :
  require_mutable p i actor = Ok n →
  nodes p !! i = Some n ∧ is_terminal n = false ∧
  (owner n = actor ∨ assignee n = Some actor).
Proof.
  unfold require_mutable, node. destruct (nodes p !! i) as [m|]; [|done]. simpl.
  destruct (is_terminal m) eqn:Ht; [done|].
  destruct (_ || _) eqn:Hp; [|done]. intros [= ->]. split_and!; [done..|].
  by rewrite orb_true_iff, !bool_decide_eq_true in Hp.
Qed.

(** A plain new status that nobody reads a handoff from. *)
Lemma quiet_change p i n s :
  wf p → nodes p !! i = Some n → is_terminal n = false →
  ¬ started s → status_change p i n (set_status s n).
Proof.
  intros Hwf Hn Ht Hs. split; [done..|].
  pose proof (nw_handoff _ _ _ _ _ (wf_nodes p Hwf i n Hn)) as Ha.
  unfold is_terminal in Ht. simpl. by destruct (status n), s.
Qed.

Lemma fail_node_sound p i actor reason :
  wf p → op_sound p (fail_node p i actor reason).
Proof.
  intros Hwf. unfold fail_node.
  destruct (require_mutable p i actor) as [n|e] eqn:Hm; [|by apply op_refused].
  apply require_mutable_Ok in Hm as (Hn & Ht & _).
  eapply status_op_sound; [done..|]. apply quiet_change; [done..|by intros []].
Qed.

Lemma abandon_node_sound p i actor reason :
  wf p → op_sound p (abandon_node p i actor reason).
Proof.
  intros Hwf. unfold abandon_node, node.
  destruct (nodes p !! i) as [n|] eqn:Hn; [|by apply op_refused]. simpl.
  destruct (is_terminal n) eqn:Ht; [by apply op_refused|].
  case_decide; [|by apply op_refused].
  eapply status_op_sound; [done..|]. apply quiet_change; [done..|by intros []].
Qed.

Lemma salvage_effect_change p i n o :
  wf p → nodes p !! i = Some n → is_terminal n = false →
  status_change p i n (salvage_effect o n).
Proof.
  intros Hwf Hn Ht.
  pose proof (nw_handoff _ _ _ _ _ (wf_nodes p Hwf i n Hn)) as Ha.
  unfold is_terminal in Ht. destruct o; split; simpl; try done;
    by destruct (status n).
Qed.

Lemma salvage_assignment_sound p i limit :
  wf p → op_sound p (salvage_assignment p i limit).
Proof.
  intros Hwf. unfold salvage_assignment, node.
  destruct (nodes p !! i) as [n|] eqn:Hn; [|by apply op_refused]. simpl.
  destruct (is_terminal n) eqn:Ht; [by apply op_refused|].
  eapply status_op_sound; [done..|]. by apply salvage_effect_change.
Qed.

Lemma complete_node_sound p i actor a :
  wf p → op_sound p (complete_node p i actor a).
Proof.
  intros Hwf. unfold complete_node, node.
  destruct (nodes p !! i) as [n|] eqn:Hn; [|by apply op_refused]. simpl.
  destruct (is_terminal n) eqn:Ht; [by apply op_refused|].
  destruct (assignee n) as [h|] eqn:Hh; [|by apply op_refused].
  case_decide; [|by apply op_refused].
  destruct (validate_artifact _ _ _ _) as [[]|] eqn:Hv; [|by apply op_refused].
  eapply status_op_sound; [done..|].
  pose proof (nw_deps _ _ _ _ _ (wf_nodes p Hwf i n Hn)) as Hd.
  unfold assignee in Hh. destruct (status n) eqn:Hs; simplify_eq.
  split; [done|done|done|done|intros _; by apply Hd|by exists a].
Qed.

(** Readiness is exactly "every dependency finished". *)
Lemma readiness_Ready p i :
  readiness p i = Ok Ready ↔
  ∃ n, nodes p !! i = Some n ∧ status n = Pending ∧
       ∀ u, u ∈ upstream n → completed (nodes p) u.
Proof.
  unfold readiness, readiness_of, node.
  destruct (nodes p !! i) as [n|] eqn:Hn; simpl; [|split; [done|by intros (? & ? & _)]].
  case_bool_decide as Hs.
  { split; [done|]. intros (? & ? & ? & _). naive_solver. }
  assert (Hdep : ∀ u, completed (nodes p) u ↔
    dep_waiting p u = false ∧ dep_blocked p u = false).
  { intros u. unfold completed, dep_waiting, dep_blocked, node, is_terminal.
    destruct (nodes p !! u) as [m|]; [|split; [by intros (? & ? & _)|by intros []]].
    split.
    - intros (m' & [= <-] & ->). done.
    - intros [H1 H2]. exists m. split; [done|]. by destruct (status m). }
  assert (Hall : (∀ u, u ∈ upstream n → completed (nodes p) u) ↔
    filter (λ up, dep_waiting p up = true) (upstream n) = [] ∧
    filter (λ up, dep_blocked p up = true) (upstream n) = []).
  { rewrite !filter_nil_iff. setoid_rewrite Hdep. setoid_rewrite not_true_iff_false.
    split; [intros H; split; intros u Hu; by apply H|intros [H1 H2] u Hu; auto]. }
  destruct (filter (λ up, dep_blocked p up = true) (upstream n)) as [|b bs].
  - destruct (filter (λ up, dep_waiting p up = true) (upstream n)) as [|w ws];
      (split; [naive_solver|]); intros (? & ? & ? & H); simplify_eq; [done|].
    apply Hall in H as [? _]. done.
  - split; [done|]. intros (? & ? & ? & H). simplify_eq. apply Hall in H as [_ ?]. done.
Qed.

Lemma dispatch_sound p i who : wf p → op_sound p (dispatch p i who).
Proof.
  intros Hwf. unfold dispatch.
  destruct (readiness p i) as [r|e] eqn:Hr; [|by apply op_refused].
  destruct r.
  - apply readiness_Ready in Hr as (n & Hn & Hs & Hd).
    destruct (assemble_input p i); [|by apply op_refused].
    unfold node. rewrite Hn. cbn [ok_or fmap option_fmap option_map].
    assert (Ht : is_terminal n = false) by (unfold is_terminal; by rewrite Hs).
    pose proof (nw_handoff _ _ _ _ _ (wf_nodes p Hwf i n Hn)) as Ha.
    eapply status_op_sound; [done..|].
    split; [done|done|done|done|by intros _; apply Hd|]. simpl. by rewrite Hs in Ha.
  - by apply op_refused.
  - by apply op_refused.
  - destruct (ok_or (node p i) (UnknownNode i)); [|by apply op_refused].
    destruct (assignee _); by apply op_refused.
Qed.

(** ** Operations that grow the graph *)

Lemma ensure_no_cycles_Ok p t deps :
  ensure_no_cycles p t deps = Ok () ↔ ∀ u, u ∈ deps → ¬ rtc (waits (nodes p)) u t.
Proof.
  induction deps as [|u deps IH]; simpl.
  { split; [|done]. intros _ u Hu. by apply not_elem_of_nil in Hu. }
  unfold ensure_no_cycle. destruct (_ || _) eqn:Hc.
  - split; [done|]. intros H. exfalso. apply (H u); [by left|]. apply rtc_tc.
    rewrite orb_true_iff, bool_decide_eq_true, depends_reach in Hc. done.
  - rewrite IH. apply orb_false_iff in Hc as [Hne Hnr].
    rewrite bool_decide_eq_false in Hne.
    assert (Hu : ¬ rtc (waits (nodes p)) u t).
    { intros [->|Htc%depends_reach]%rtc_tc; [done|congruence]. }
    split; [intros H v [->|Hv]%elem_of_cons; auto|].
    intros H v Hv. apply H. by right.
Qed.

Lemma require_mutable_inh p i actor n :
  wf p → require_mutable p i actor = Ok n →
  ∀ u, u ∈ upstream n → is_Some (nodes p !! u).
Proof.
  intros Hwf (Hn & _)%require_mutable_Ok. apply (nw_closed _ _ _ _ _ (wf_nodes p Hwf i n Hn)).
Qed.

(** The new nodes of an expansion or an injection never reach the node that
    is about to wait on them: the cycle check after the insertion passes. *)
Lemma grown_no_cycle p specs p' created g i n ws :
  wf p → nodes p !! i = Some n → grown p specs (upstream n) p' created g →
  (∀ w, w ∈ ws → w ∈ created ++ option_list g) →
  ensure_no_cycles p' i ws = Ok ().
Proof.
  intros Hwf Hn Hgr Hws. apply ensure_no_cycles_Ok. intros w Hw Hreach.
  destruct (gr_fresh _ _ _ _ _ _ Hgr w (Hws w Hw)) as [Hlt _].
  destruct (extension_reach p p' (upstream n) w i) as (u & Hu & Hui).
  - done.
  - apply Hgr.
  - apply Hgr.
  - apply (nw_closed _ _ _ _ _ (wf_nodes p Hwf i n Hn)).
  - done.
  - by exists n.
  - done.
  - apply (wf_acyclic p i Hwf). eapply tc_rtc_r; [|exact Hui]. apply tc_once. by exists n.
Qed.

Lemma grown_frozen p specs inh p' created g :
  wf p → grown p specs inh p' created g → frozen p p'.
Proof.
  intros Hwf Hgr. destruct (frame_fields _ _ (gr_frame _ _ _ _ _ _ Hgr)) as (? & ? & _ & _ & Hs).
  assert (Hold : ∀ i n, nodes p !! i = Some n → nodes p' !! i = Some n).
  { intros i n Hn. rewrite (gr_old _ _ _ _ _ _ Hgr); [done|].
    apply (nw_range _ _ _ _ _ (wf_nodes p Hwf i n Hn)). }
  split; [auto|eauto|by rewrite Hs|done|done].
Qed.

Lemma rewire_sound {A} p specs p' created g i n f (a : A) :
  wf p → nodes p !! i = Some n → is_terminal n = false →
  grown p specs (upstream n) p' created g →
  id (f n) = id n → status (f n) = Pending → artifact (f n) = artifact n →
  kind (f n) = kind n → title (f n) = title n →
  StronglySorted N.lt (upstream (f n)) →
  (∀ u, u ∈ upstream (f n) → u ∈ upstream n ∨ u ∈ created ++ option_list g) →
  op_sound p (bump_version (update_node p' i f), Ok a).
Proof.
  intros Hwf Hn Ht Hgr Hid Hst Hart Hk Htt Hsort Hups.
  assert (Hn' : nodes p' !! i = Some n).
  { rewrite (gr_old _ _ _ _ _ _ Hgr); [done|].
    apply (nw_range _ _ _ _ _ (wf_nodes p Hwf i n Hn)). }
  pose proof (gr_wf _ _ _ _ _ _ Hgr) as Hwf'. split; cbn [fst snd].
  - apply wf_bump. apply (wf_rewire p' i f n); [done..|]. intros u Hu.
    destruct (Hups u Hu) as [Hold|Hnew].
    + split; [by apply (nw_closed _ _ _ _ _ (wf_nodes p' Hwf' i n Hn'))|].
      intros Hr. apply (wf_acyclic p' i Hwf'). eapply tc_rtc_r; [|exact Hr].
      apply tc_once. by exists n.
    + split; [by apply (gr_fresh _ _ _ _ _ _ Hgr)|].
      assert (Hck : ensure_no_cycles p' i [u] = Ok ()).
      { apply (grown_no_cycle p specs p' created g i n); [done..|]. intros w ->%list_elem_of_singleton. done. }
      rewrite ensure_no_cycles_Ok in Hck. apply Hck. by left.
  - etrans; [by eapply grown_frozen|].
    etrans; [by eapply frozen_update|apply frozen_bump].
  - destruct (frame_fields _ _ (gr_frame _ _ _ _ _ _ Hgr)) as (_ & _ & _ & Hv & _).
    simpl. by rewrite Hv.
Qed.

Lemma insert_batch_next p own specs inh :
  wf p → room p (length specs) → in_range specs →
  (∀ i, grounded (batch_edge specs) i) →
  next_id (fst (insert_batch p own specs inh)) = nth_id (next_id p) (length specs).
Proof.
  intros Hwf Hr Hin Hg.
  by destruct (insert_batch_added p own specs inh Hwf Hr Hin Hg) as [[_ ? _ _ _] _].
Qed.

(** Inserting the batch and, in deep mode, its review gate. *)
Lemma grown_gated p own specs inh t pr p1 created p2 g :
  wf p → room p (S (length specs)) → validate_batch specs = Ok () →
  (∀ u, u ∈ inh → is_Some (nodes p !! u)) →
  insert_batch p own specs inh = (p1, created) →
  deep_gate p1 own t pr created = (p2, g) →
  grown p specs inh p2 created g.
Proof.
  intros Hwf Hroom [Hr Hg]%validate_batch_Ok Hinh Hib Hdg.
  assert (Hroom1 : room p (length specs)) by (unfold room in *; lia).
  pose proof (grown_batch p own specs inh Hwf Hroom1 Hr Hg Hinh) as Hgr.
  pose proof (insert_batch_next p own specs inh Hwf Hroom1 Hr Hg) as Hnext.
  rewrite Hib in Hgr, Hnext. cbn [fst snd] in Hgr, Hnext.
  pose proof (grown_deep p own specs inh t pr p1 created Hwf Hroom Hgr Hnext) as Hgd.
  by rewrite Hdg in Hgd.
Qed.

Lemma expand_node_sound p i actor specs :
  wf p → room p (S (length specs)) → op_sound p (expand_node p i actor specs).
Proof.
  intros Hwf Hroom. unfold expand_node.
  destruct (require_mutable p i actor) as [n|e] eqn:Hm; [|by apply op_refused].
  case_bool_decide; [by apply op_refused|].
  destruct (validate_batch specs) as [[]|e] eqn:Hv; [|by apply op_refused].
  destruct (insert_batch p actor specs (upstream n)) as [p1 created] eqn:Hib.
  destruct (deep_gate p1 actor _ _ created) as [p2 g] eqn:Hdg.
  pose proof (require_mutable_inh p i actor n Hwf Hm) as Hinh.
  apply require_mutable_Ok in Hm as (Hn & Ht & _).
  assert (Hgr : grown p specs (upstream n) p2 created g) by (by eapply grown_gated).
  set (ws := match g with Some g => [g] | None => created end).
  assert (Hws : ∀ w, w ∈ ws → w ∈ created ++ option_list g).
  { intros w. unfold ws. rewrite elem_of_app. destruct g; [by right|by left]. }
  rewrite (grown_no_cycle p specs p2 created g i n ws) by done.
  eapply (rewire_sound p specs p2 created g i n); [done..| |].
  - apply sort_dedup_sorted.
  - intros u. cbn [upstream set_upstream set_status]. rewrite elem_of_sort_dedup.
    intros Hu. right. by apply Hws.
Qed.

Lemma inject_from_gate_sound p i actor specs :
  wf p → room p (length specs) → op_sound p (inject_from_gate p i actor specs).
Proof.
  intros Hwf Hroom. unfold inject_from_gate.
  destruct (require_mutable p i actor) as [n|e] eqn:Hm; [|by apply op_refused].
  case_bool_decide; [by apply op_refused|].
  case_bool_decide; [by apply op_refused|].
  destruct (validate_batch specs) as [[]|e] eqn:Hv; [|by apply op_refused].
  pose proof (require_mutable_inh p i actor n Hwf Hm) as Hinh.
  apply require_mutable_Ok in Hm as (Hn & Ht & _).
  apply validate_batch_Ok in Hv as [Hr Hg].
  pose proof (grown_batch p actor specs (upstream n) Hwf Hroom Hr Hg Hinh) as Hgr.
  destruct (insert_batch p actor specs (upstream n)) as [p1 created]. cbn [fst snd] in Hgr.
  rewrite (grown_no_cycle p specs p1 created None i n created);
    [|done|done|done|by intros; rewrite app_nil_r].
  eapply (rewire_sound p specs p1 created None i n); [done..| |].
  - apply sort_dedup_sorted.
  - intros u. cbn [upstream set_upstream set_status].
    by rewrite app_nil_r, elem_of_sort_dedup, elem_of_app.
Qed.

Lemma wf_record_seed p key ids :
  wf p → (∀ i, i ∈ ids → is_Some (nodes p !! i)) → wf (record_seed p key ids).
Proof.
  intros [Hn Hnodes Hg Hs] Hids. split; [done|done|done|].
  intros k l i. simpl. destruct (decide (key = k)) as [->|Hne].
  - rewrite lookup_insert_eq. intros [= <-]. apply Hids.
  - rewrite lookup_insert_ne by done. apply Hs.
Qed.

Lemma seed_sound p actor key specs :
  wf p → room p (S (length specs)) →
  let r := seed p actor key specs in
  wf (fst r) ∧ frozen p (fst r) ∧
  match snd r with
  | Ok s => if replayed s then fst r = p else version (fst r) = u64_add (version p) 1
  | Err _ => fst r = p
  end.
Proof.
  intros Hwf Hroom. unfold seed.
  destruct (replayed_seed p key) as [ids|] eqn:Hkey; [done|].
  case_bool_decide; [done|].
  destruct (validate_batch specs) as [[]|e] eqn:Hv; [|done].
  destruct (insert_batch p actor specs []) as [p1 created] eqn:Hib.
  destruct (deep_gate p1 actor _ _ created) as [p2 g] eqn:Hdg. cbn [fst snd replayed].
  assert (Hgr : grown p specs [] p2 created g).
  { eapply grown_gated; [done..| |done|done]. intros u Hu. by apply not_elem_of_nil in Hu. }
  destruct (frame_fields _ _ (gr_frame _ _ _ _ _ _ Hgr)) as (_ & _ & _ & Hver & _).
  split_and!.
  - apply wf_bump, wf_record_seed; [by apply Hgr|]. intros i Hi.
    by apply (gr_fresh _ _ _ _ _ _ Hgr).
  - etrans; [by eapply grown_frozen|]. etrans; [|apply frozen_bump].
    split; [done|eauto| |done|done]. intros k ids' Hk. simpl.
    destruct (frame_fields _ _ (gr_frame _ _ _ _ _ _ Hgr)) as (_ & _ & _ & _ & Hs).
    rewrite lookup_insert_ne; [done|]. intros ->. rewrite Hs in Hk.
    unfold replayed_seed in Hkey. congruence.
  - simpl. by rewrite Hver.
Qed.

(** ** Sweeps *)

Lemma salvage_all_sound p ids limit :
  wf p → wf (fst (salvage_all p ids limit)) ∧ frozen p (fst (salvage_all p ids limit)).
Proof.
  revert p. induction ids as [|i ids IH]; intros p Hwf; [done|]. simpl.
  destruct (salvage_assignment_sound p i limit Hwf) as [Hwf1 Hfz1 _].
  destruct (salvage_assignment p i limit) as [p1 r]. cbn [fst] in *.
  destruct (IH p1 Hwf1) as [Hwf2 Hfz2]. destruct (salvage_all p1 ids limit) as [p2 rest].
  split; [done|]. by etrans.
Qed.

Lemma set_coordinator_sound p c :
  wf p → wf (set_coordinator p c) ∧ frozen p (set_coordinator p c).
Proof.
  intros [? ? ? ?]. unfold set_coordinator. case_decide; [done|].
  split; [done|]. split; simpl; eauto.
Qed.

(** The nodes that can still change. *)
Definition open_count (p : TaskPlan) : nat :=
  length (filter (λ n, is_terminal n = false) (node_list p)).

Lemma readiness_blocked_inv p i bs :
  readiness p i = Ok (RBlocked bs) → ∃ n, nodes p !! i = Some n ∧ status n = Pending.
Proof.
  unfold readiness, readiness_of, node. destruct (nodes p !! i) as [n|]; [|done]. simpl.
  case_bool_decide as Hs; [done|]. intros _. by exists n.
Qed.

Lemma abandon_wave_sound p wave abandoned :
  wf p →
  wf (fst (abandon_wave p wave abandoned)) ∧
  frozen p (fst (abandon_wave p wave abandoned)) ∧
  dom (nodes (fst (abandon_wave p wave abandoned))) = dom (nodes p).
Proof.
  revert p abandoned. induction wave as [|i wave IH]; intros p abandoned Hwf; [done|].
  simpl. destruct (readiness p i) as [[]|] eqn:Hr; try by apply IH.
  apply readiness_blocked_inv in Hr as (n & Hn & Hs).
  assert (Ht : is_terminal n = false) by (unfold is_terminal; by rewrite Hs).
  set (f := set_status (Abandoned (blocked_reason by_))).
  assert (Hwf1 : wf (update_node p i f)).
  { eapply wf_status_change; [done..|]. apply quiet_change; [done..|by intros []]. }
  destruct (IH (update_node p i f) (abandoned ++ [i])%list Hwf1) as (? & ? & Hd).
  split_and!; [done| |].
  - etrans; [by eapply (frozen_update p i f n)|done].
  - rewrite Hd. simpl. apply dom_alter_L.
Qed.

Section open_nodes.
Context (m m' : gmap NodeId TaskNode).
Context (Hopen : ∀ k n', m' !! k = Some n' → is_terminal n' = false →
           ∃ n, m !! k = Some n ∧ is_terminal n = false).

Let opens (x : gmap NodeId TaskNode) (ks : list NodeId) : nat :=
  length (filter (λ n, is_terminal n = false) (omap (λ k, x !! k) ks)).

Let open1 (o : option TaskNode) : nat :=
  match o with Some n => if is_terminal n then 0 else 1 | None => 0 end.

Lemma opens_cons x k ks : opens x (k :: ks) = open1 (x !! k) + opens x ks.
Proof using.
  unfold opens, open1. simpl. destruct (x !! k) as [n|]; [|done].
  rewrite filter_cons. destruct (is_terminal n) eqn:Ht.
  - by rewrite decide_False.
  - by rewrite decide_True.
Qed.

Lemma open1_le k : open1 (m' !! k) ≤ open1 (m !! k).
Proof using Hopen.
  destruct (m' !! k) as [n'|] eqn:Hk; simpl; [|lia].
  destruct (is_terminal n') eqn:Ht; [lia|].
  destruct (Hopen k n' Hk Ht) as (n & -> & Hn). simpl. by rewrite Hn.
Qed.

Lemma opens_le ks : opens m' ks ≤ opens m ks.
Proof using Hopen.
  induction ks as [|k ks IH]; [done|]. rewrite !opens_cons.
  pose proof (open1_le k). lia.
Qed.

Lemma opens_lt ks i n :
  i ∈ ks → m !! i = Some n → is_terminal n = false →
  (∀ n', m' !! i = Some n' → is_terminal n' = true) → opens m' ks < opens m ks.
Proof using Hopen.
  intros Hi Hn Ht Ht'. induction ks as [|k ks IH]; [by apply not_elem_of_nil in Hi|].
  rewrite !opens_cons. apply elem_of_cons in Hi as [<-|Hi].
  - pose proof (opens_le ks). rewrite Hn. simpl. rewrite Ht.
    destruct (m' !! i) as [n'|]; simpl; [rewrite (Ht' n' eq_refl)|]; lia.
  - pose proof (open1_le k). specialize (IH Hi). lia.
Qed.
End open_nodes.

Lemma frozen_opens p p' :
  frozen p p' → dom (nodes p') = dom (nodes p) →
  ∀ k n', nodes p' !! k = Some n' → is_terminal n' = false →
  ∃ n, nodes p !! k = Some n ∧ is_terminal n = false.
Proof.
  intros Hfz Hd k n' Hk Ht.
  assert (is_Some (nodes p !! k)) as [n Hn].
  { apply elem_of_dom. rewrite <-Hd. apply elem_of_dom. by exists n'. }
  exists n. split; [done|]. destruct (is_terminal n) eqn:Hnt; [|done].
  pose proof (fz_terminal _ _ Hfz k n Hn Hnt). congruence.
Qed.

Lemma node_list_keys p p' :
  dom (nodes p') = dom (nodes p) →
  node_list p' = omap (λ k, nodes p' !! k) (btree_keys (nodes p)).
Proof. intros Hd. unfold node_list, btree_values, btree_keys. by rewrite Hd. Qed.

Lemma blocked_nodes_spec p i :
  wf p → i ∈ blocked_nodes p ↔ ∃ bs, readiness p i = Ok (RBlocked bs).
Proof.
  intros Hwf. unfold blocked_nodes. rewrite list_elem_of_fmap. split.
  - intros (n & -> & [Hb Hn]%list_elem_of_filter). unfold is_blocked in Hb.
    destruct (readiness p (id n)) as [[]|]; try done. eauto.
  - intros [bs Hr]. destruct (readiness_blocked_inv _ _ _ Hr) as (n & Hn & _).
    assert (Hid : id n = i) by apply (nw_id _ _ _ _ _ (wf_nodes p Hwf i n Hn)).
    exists n. split; [done|]. apply list_elem_of_filter. split.
    + unfold is_blocked. by rewrite Hid, Hr.
    + apply elem_of_btree_values. by exists i.
Qed.

Lemma ready_nodes_spec p i :
  wf p → i ∈ ready_nodes p ↔ readiness p i = Ok Ready.
Proof.
  intros Hwf. unfold ready_nodes. rewrite list_elem_of_fmap. split.
  - intros (n & -> & [Hb Hn]%list_elem_of_filter). unfold is_ready in Hb.
    by destruct (readiness p (id n)) as [[]|].
  - intros Hr. pose proof Hr as (n & Hn & _)%readiness_Ready.
    assert (Hid : id n = i) by apply (nw_id _ _ _ _ _ (wf_nodes p Hwf i n Hn)).
    exists n. split; [done|]. apply list_elem_of_filter. split.
    + unfold is_ready. by rewrite Hid, Hr.
    + apply elem_of_btree_values. by exists i.
Qed.

Lemma wave_progress p i wave abandoned :
  wf p → blocked_nodes p = i :: wave →
  open_count (fst (abandon_wave p (i :: wave) abandoned)) < open_count p.
Proof.
  intros Hwf Hb. assert (Hi : i ∈ blocked_nodes p) by (rewrite Hb; by left).
  apply blocked_nodes_spec in Hi as [bs Hr]; [|done].
  destruct (abandon_wave_sound p (i :: wave) abandoned Hwf) as (_ & Hfz & Hd).
  pose proof (readiness_blocked_inv _ _ _ Hr) as (n & Hn & Hs).
  assert (Ht : is_terminal n = false) by (unfold is_terminal; by rewrite Hs).
  unfold open_count. rewrite (node_list_keys p _ Hd). unfold node_list, btree_values.
  apply (opens_lt _ _ (frozen_opens _ _ Hfz Hd) _ i n);
    [apply elem_of_btree_keys; by exists n|done|done|].
  intros n' Hn'. simpl in Hn'. rewrite Hr in Hn'.
  set (f := set_status (Abandoned (blocked_reason bs))) in *.
  assert (Hwf1 : wf (update_node p i f)).
  { eapply wf_status_change; [done..|]. apply quiet_change; [done..|by intros []]. }
  destruct (abandon_wave_sound (update_node p i f) wave (abandoned ++ [i])%list Hwf1)
    as (_ & Hfz1 & _).
  assert (Hfi : nodes (update_node p i f) !! i = Some (f n)).
  { by rewrite update_node_lookup, decide_True, Hn. }
  rewrite (fz_terminal _ _ Hfz1 i (f n) Hfi) in Hn' by done. by simplify_eq.
Qed.

Lemma open_count_bump p : open_count (bump_version p) = open_count p.
Proof. done. Qed.

Lemma cascade_loop_sound fuel p abandoned :
  wf p → open_count p < fuel →
  ∃ p' l, cascade_loop fuel p abandoned = Some (p', l) ∧
    wf p' ∧ frozen p p' ∧ dom (nodes p') = dom (nodes p) ∧ blocked_nodes p' = [].
Proof.
  revert p abandoned. induction fuel as [|fuel IH]; intros p abandoned Hwf Hf; [lia|].
  cbn [cascade_loop]. destruct (blocked_nodes p) as [|i wave] eqn:Hb.
  { exists p, abandoned. split_and!; [done..|by rewrite Hb]. }
  pose proof (wave_progress p i wave abandoned Hwf Hb) as Hlt.
  destruct (abandon_wave_sound p (i :: wave) abandoned Hwf) as (Hwf1 & Hfz1 & Hd1).
  destruct (abandon_wave p (i :: wave) abandoned) as [p1 l1]. cbn [fst] in *.
  destruct (IH (bump_version p1) l1) as (p' & l & Hc & Hwf' & Hfz' & Hd' & Hb').
  - by apply wf_bump.
  - rewrite open_count_bump. lia.
  - exists p', l. split_and!; [done|done| |by rewrite Hd'|done].
    etrans; [exact Hfz1|]. etrans; [apply frozen_bump|done].
Qed.

Lemma cascade_blocked_sound p :
  wf p →
  let p' := fst (cascade_blocked p) in
  wf p' ∧ frozen p p' ∧ dom (nodes p') = dom (nodes p) ∧ blocked_nodes p' = [].
Proof.
  intros Hwf. unfold cascade_blocked, cascade_fuel.
  destruct (cascade_loop_sound (S (length (node_list p))) p [] Hwf)
    as (p' & l & Hc & ?); [|by rewrite Hc].
  unfold open_count. pose proof (length_filter (λ n, is_terminal n = false) (node_list p)).
  lia.
Qed.

(** A sweep leaves a node alone or turns a pending one into an abandoned one
    that it reports. *)
Definition swept (p p' : TaskPlan) (reported : list NodeId) : Prop :=
  ∀ i, nodes p' !! i = nodes p !! i ∨
    ∃ n reason, nodes p !! i = Some n ∧ status n = Pending ∧
      nodes p' !! i = Some (set_status (Abandoned reason) n) ∧ i ∈ reported.

Lemma swept_trans p1 p2 p3 l2 l3 :
  swept p1 p2 l2 → swept p2 p3 l3 → (∀ i, i ∈ l2 → i ∈ l3) → swept p1 p3 l3.
Proof.
  intros H1 H2 Hl i. destruct (H1 i) as [E1|(n & r & Hn & Hs & E1 & Hi)];
    destruct (H2 i) as [E2|(n2 & r2 & Hn2 & Hs2 & E2 & Hi2)].
  - left. congruence.
  - right. exists n2, r2. rewrite <-E1. done.
  - right. exists n, r. rewrite E2. auto.
  - rewrite E1 in Hn2. by simplify_eq.
Qed.

Lemma abandon_wave_swept p wave abandoned :
  swept p (fst (abandon_wave p wave abandoned)) (snd (abandon_wave p wave abandoned)) ∧
  (∀ i, i ∈ abandoned → i ∈ snd (abandon_wave p wave abandoned)).
Proof.
  revert p abandoned. induction wave as [|i wave IH]; intros p abandoned; simpl.
  { split; [by left|done]. }
  destruct (readiness p i) as [[]|] eqn:Hr; try by apply IH.
  pose proof (readiness_blocked_inv _ _ _ Hr) as (n & Hn & Hs).
  set (f := set_status (Abandoned (blocked_reason by_))).
  destruct (IH (update_node p i f) (abandoned ++ [i])%list) as [Hsw Hin].
  split; [|intros j Hj; apply Hin, elem_of_app; by left].
  eapply swept_trans; [|exact Hsw|exact Hin].
  intros j. rewrite update_node_lookup. case_decide as Hij; [|by left]. subst j.
  right. exists n, (blocked_reason by_). rewrite Hn. split_and!; [done..|].
  apply elem_of_app. right. by left.
Qed.

Lemma cascade_loop_swept fuel p abandoned p' l :
  cascade_loop fuel p abandoned = Some (p', l) →
  swept p p' l ∧ (∀ i, i ∈ abandoned → i ∈ l).
Proof.
  revert p abandoned. induction fuel as [|fuel IH]; intros p abandoned; [done|].
  cbn [cascade_loop]. destruct (blocked_nodes p) as [|i wave].
  { intros [= <- <-]. split; [by left|done]. }
  destruct (abandon_wave_swept p (i :: wave) abandoned) as [Hsw Hin].
  destruct (abandon_wave p (i :: wave) abandoned) as [p1 l1]. cbn [fst snd] in *.
  intros Hc. destruct (IH _ _ Hc) as [Hsw2 Hin2].
  split; [|auto]. by eapply swept_trans; [exact Hsw|exact Hsw2|].
Qed.

(** ** The shape of an expansion *)

Lemma expand_node_Ok_inv p i actor specs p' e :
  wf p → room p (S (length specs)) → expand_node p i actor specs = (p', Ok e) →
  ∃ n p1, node p i = Some n ∧ is_terminal n = false ∧
    batch_added p actor specs (upstream n) p1 ∧
    children e = nth_id (next_id p) <$> seq 0 (length specs) ∧
    let '(p2, g) := deep_gate p1 actor "Sub-plan review" sub_plan_review_prompt (children e) in
    expanded_gate e = g ∧
    p' = bump_version (update_node p2 i (λ n, set_status Pending (set_upstream
           (sort_dedup (match g with Some g => [g] | None => children e end)) n))).
Proof.
  intros Hwf Hroom. unfold expand_node.
  destruct (require_mutable p i actor) as [n|] eqn:Hm; [|done].
  case_bool_decide; [done|].
  destruct (validate_batch specs) as [[]|] eqn:Hv; [|done].
  apply validate_batch_Ok in Hv as [Hr Hg].
  destruct (insert_batch_added p actor specs (upstream n) Hwf) as [Hb Hids];
    [unfold room in *; lia|done|done|].
  destruct (insert_batch p actor specs (upstream n)) as [p1 created]. cbn [fst snd] in *.
  destruct (deep_gate p1 actor _ _ created) as [p2 g] eqn:Hdg.
  destruct (ensure_no_cycles _ _ _); [|done]. intros [= <- <-].
  apply require_mutable_Ok in Hm as (Hn & Ht & _).
  exists n, p1. cbn [children expanded_gate]. rewrite Hdg. by split_and!.
Qed.
