(* ===== verification/PlanProps.v ===== *)
(** * Properties of the task graph

    The step relation of the whole plan API and the theorems a driver of the
    plan relies on. *)

From stdpp Require Import base gmap list sorting strings pretty numbers.
From S2P Require Import Prelude RustStr Artifact Plan Batch PlanOps Schedule PlanWf PlanSafe.
#[local] Open Scope string_scope.

(** ** Every way a plan moves *)

Inductive plan_step : TaskPlan → TaskPlan → Prop :=
  | step_seed p actor key specs :
      room p (S (length specs)) → plan_step p (fst (seed p actor key specs))
  | step_expand p i actor specs :
      room p (S (length specs)) → plan_step p (fst (expand_node p i actor specs))
  | step_inject p i actor specs :
      room p (length specs) → plan_step p (fst (inject_from_gate p i actor specs))
  | step_complete p i actor a : plan_step p (fst (complete_node p i actor a))
  | step_fail p i actor reason : plan_step p (fst (fail_node p i actor reason))
  | step_abandon p i actor reason : plan_step p (fst (abandon_node p i actor reason))
  | step_salvage p i limit : plan_step p (fst (salvage_assignment p i limit))
  | step_salvage_actor p actor limit : plan_step p (fst (salvage_actor p actor limit))
  | step_dispatch p i who : plan_step p (fst (dispatch p i who))
  | step_cascade p : plan_step p (fst (cascade_blocked p))
  | step_coordinator p c : plan_step p (set_coordinator p c).

Lemma plan_step_sound p p' : plan_step p p' → wf p → wf p' ∧ frozen p p'.
Proof.
  intros [] Hwf.
  - by destruct (seed_sound p0 actor key specs Hwf) as (? & ? & _).
  - by destruct (expand_node_sound p0 i actor specs Hwf).
  - by destruct (inject_from_gate_sound p0 i actor specs Hwf).
  - by destruct (complete_node_sound p0 i actor a Hwf).
  - by destruct (fail_node_sound p0 i actor reason Hwf).
  - by destruct (abandon_node_sound p0 i actor reason Hwf).
  - by destruct (salvage_assignment_sound p0 i limit Hwf).
  - by apply salvage_all_sound.
  - by destruct (dispatch_sound p0 i who Hwf).
  - by destruct (cascade_blocked_sound p0 Hwf) as (? & ? & _).
  - by apply set_coordinator_sound.
Qed.

Lemma plan_steps_sound p p' : rtc plan_step p p' → wf p → wf p' ∧ frozen p p'.
Proof.
  induction 1 as [p|p q p' Hs _ IH]; intros Hwf; [done|].
  destruct (plan_step_sound p q Hs Hwf) as [Hq Hf]. destruct (IH Hq) as [? ?].
  split; [done|by etrans].
Qed.

(** *** A concrete run, for the witnesses *)

Definition lead : ActorId := mkActor "lead".
Definition worker : ActorId := mkActor "worker".
Definition three : list NodeSpec :=
  [task "a" "do a"; task "b" "do b"; after (task "c" "do c") 0].
Definition done_report : HandoffArtifact :=
  with_gap (HandoffArtifact_new "done" Confidence_FULL) "the other platform".

Definition demo0 : TaskPlan := new "ship it" Light lead.
Definition demo1 : TaskPlan := fst (seed demo0 lead "k1" three).
Definition demo2 : TaskPlan := fst (dispatch demo1 1%N worker).
Definition demo3 : TaskPlan := fst (complete_node demo2 1%N worker done_report).

Lemma demo_run : rtc plan_step demo0 demo3.
Proof.
  eapply rtc_l; [apply (step_seed demo0 lead "k1" three); by vm_compute|].
  eapply rtc_l; [apply (step_dispatch demo1 1%N worker)|].
  eapply rtc_l; [apply (step_complete demo2 1%N worker done_report)|].
  apply rtc_refl.
Qed.

Lemma demo1_wf : wf demo1.
Proof.
  destruct (seed_sound demo0 lead "k1" three) as (Hwf & _); [apply wf_new|by vm_compute|].
  exact Hwf.
Qed.

Lemma demo3_wf : wf demo3.
Proof. eapply plan_steps_sound, wf_new. exact demo_run. Qed.

(** A plan that is over: one task complete, one failed. *)
Definition pair_specs : list NodeSpec := [task "a" "do a"; task "b" "do b"].
Definition over1 : TaskPlan := fst (seed demo0 lead "k1" pair_specs).
Definition over2 : TaskPlan := fst (dispatch over1 1%N worker).
Definition over3 : TaskPlan := fst (complete_node over2 1%N worker done_report).
Definition demo_over : TaskPlan := fst (fail_node over3 2%N lead "the build never passed").

Lemma demo_over_run : rtc plan_step demo0 demo_over.
Proof.
  eapply rtc_l; [apply (step_seed demo0 lead "k1" pair_specs); by vm_compute|].
  eapply rtc_l; [apply (step_dispatch over1 1%N worker)|].
  eapply rtc_l; [apply (step_complete over2 1%N worker done_report)|].
  eapply rtc_l; [apply (step_fail over3 2%N lead "the build never passed")|].
  apply rtc_refl.
Qed.

Lemma demo_over_wf : wf demo_over.
Proof. eapply plan_steps_sound, wf_new. exact demo_over_run. Qed.

(** ** The properties *)

(** C1. Whatever sequence of operations built it, a plan has no dependency
    cycle, names only tasks that exist, and never holds a task in flight or
    finished while one of its dependencies is not complete. *)
Theorem reachable_plan_coherent obj m c p :
  rtc plan_step (new obj m c) p →
  (∀ i, ¬ tc (waits (nodes p)) i i) ∧
  (∀ i u, waits (nodes p) i u → is_Some (node p u)) ∧
  (∀ i n u, node p i = Some n → started (status n) → u ∈ upstream n →
     ∃ nu, node p u = Some nu ∧ status nu = Complete).
Proof.
  intros Hr. destruct (plan_steps_sound _ _ Hr (wf_new obj m c)) as [Hwf _].
  split_and!.
  - intros i. by apply wf_acyclic.
  - intros i u (n & Hn & Hu). by apply (nw_closed _ _ _ _ _ (wf_nodes p Hwf i n Hn)).
  - intros i n u Hn Hs Hu. by apply (nw_deps _ _ _ _ _ (wf_nodes p Hwf i n Hn) Hs).
Qed.

Lemma reachable_plan_coherent_witness :
  rtc plan_step (new "ship it" Light lead) demo3 ∧ ¬ tc (waits (nodes demo3)) 3%N 3%N.
Proof.
  split; [exact demo_run|]. apply (reachable_plan_coherent "ship it" Light lead demo3 demo_run).
Defined.

(** C2. No deadlock: when nothing is in flight, ready or blocked, every task of
    the plan has reached a terminal state. *)
Theorem no_deadlock p :
  wf p → Forall (λ n, assignee n = None) (node_list p) →
  ready_nodes p = [] → blocked_nodes p = [] → is_settled p = true.
Proof.
  intros Hwf Hidle Hready Hblocked. rewrite list.Forall_forall in Hidle.
  assert (Hall : ∀ i, grounded (waits (nodes p)) i →
            ∀ n, nodes p !! i = Some n → is_terminal n = true).
  { intros i Hi. induction Hi as [i _ IH]. intros n Hn.
    destruct (is_terminal n) eqn:Ht; [done|exfalso].
    assert (Hs : status n = Pending).
    { assert (Hna : assignee n = None) by (apply Hidle, elem_of_btree_values; by exists i).
      unfold assignee, is_terminal in *. by destruct (status n). }
    assert (Hups : ∀ u, u ∈ upstream n → completed (nodes p) u).
    { intros u Hu. destruct (nw_closed _ _ _ _ _ (wf_nodes p Hwf i n Hn) u Hu) as [m Hm].
      assert (Hmt : is_terminal m = true) by (apply (IH u); [by exists n|done]).
      destruct (decide (status m = Complete)) as [|Hnc]; [by exists m|exfalso].
      assert (Hi : i ∈ blocked_nodes p); [|rewrite Hblocked in Hi; by apply not_elem_of_nil in Hi].
      apply blocked_nodes_spec; [done|]. unfold readiness, readiness_of, node.
      rewrite Hn. simpl. rewrite bool_decide_eq_false_2 by auto.
      assert (Hub : u ∈ filter (λ up, dep_blocked p up = true) (upstream n)).
      { apply list_elem_of_filter. split; [|done]. unfold dep_blocked, node.
        rewrite Hm, Hmt. simpl. by rewrite bool_decide_eq_false_2. }
      destruct (filter _ _) as [|b bs]; [by apply not_elem_of_nil in Hub|by eexists]. }
    assert (Hi : i ∈ ready_nodes p).
    { apply ready_nodes_spec; [done|]. apply readiness_Ready. by exists n. }
    rewrite Hready in Hi. by apply not_elem_of_nil in Hi. }
  apply List.forallb_forall. intros n Hn%list_elem_of_In.
  apply elem_of_btree_values in Hn as [i Hi].
  apply (Hall i); [by apply wf_grounded|done].
Qed.

Lemma no_deadlock_witness : len demo_over = 2 ∧ is_settled demo_over = true.
Proof.
  split; [by vm_compute|].
  apply (no_deadlock demo_over);
    [exact demo_over_wf|vm_compute; by repeat constructor|by vm_compute|by vm_compute].
Defined.

(** C30. The batch check accepts exactly the batches whose positions are in
    range and whose dependency positions form no loop; a refusal names a
    position that is out of range, or one that lies on a loop. *)
Theorem validate_batch_exact specs :
  match validate_batch specs with
  | Ok _ => in_range specs ∧ ∀ i, ¬ tc (batch_edge specs) i i
  | Err (BatchIndexOutOfRange i n) =>
      n = length specs ∧ (n <= i)%nat ∧ ∃ s, s ∈ specs ∧ i ∈ depends_on_batch s
  | Err (BatchCycle i) => in_range specs ∧ tc (batch_edge specs) i i
  | Err _ => False
  end.
Proof.
  destruct (validate_batch specs) as [u|e] eqn:Hv.
  - apply validate_batch_Ok in Hv as [Hr Hg]. split; [done|].
    intros i. by apply grounded_no_cycle.
  - unfold validate_batch in Hv.
    destruct (first_out_of_range _ _) as [i|] eqn:Hf.
    + injection Hv as <-. by apply first_out_of_range_Some in Hf as [? ?].
    + apply in_range_spec in Hf. pose proof (batch_loop_outcome specs Hf) as Hout.
      destruct (batch_loop _ _ _ _) as [[|i]|]; [done| |done].
      by injection Hv as <-.
Qed.

(** The cycle check accepts an edge exactly when the graph with that edge
    added still has no cycle. *)
Theorem ensure_no_cycle_exact p dependent dependency :
  wf p →
  ensure_no_cycle p dependent dependency = Ok () ↔
  ∀ i, ¬ tc (λ x y, waits (nodes p) x y ∨ (x = dependent ∧ y = dependency)) i i.
Proof.
  intros Hwf. set (R' := λ x y, _).
  assert (Hck : ensure_no_cycle p dependent dependency = Ok () ↔
                ¬ rtc (waits (nodes p)) dependency dependent).
  { pose proof (ensure_no_cycles_Ok p dependent [dependency]) as Hc.
    cbn [ensure_no_cycles] in Hc. setoid_rewrite list_elem_of_singleton in Hc.
    destruct (ensure_no_cycle _ _ _) as [[]|]; naive_solver. }
  rewrite Hck. split.
  - intros Hnr i. apply grounded_no_cycle.
    apply (grounded_rewire (waits (nodes p)) R' dependent).
    + intros a b Ha [?|[? _]]; done.
    + intros b [Hb|[_ ->]]; (split; [by apply wf_grounded|]); [|done].
      intros Hr. apply (wf_acyclic p dependent Hwf).
      eapply tc_rtc_r; [by apply tc_once|done].
    + intros a. destruct (decide (a = dependent)); auto.
    + by apply wf_grounded.
  - intros Hac Hr. apply (Hac dependent). eapply tc_rtc_r.
    + apply tc_once. right. done.
    + eapply rtc_subrel; [|exact Hr]. intros x y ?. by left.
Qed.

Lemma ensure_no_cycle_exact_witness :
  wf demo1 ∧ ¬ tc (λ x y, waits (nodes demo1) x y ∨ (x = 2%N ∧ y = 1%N)) 2%N 2%N.
Proof.
  split; [exact demo1_wf|]. apply (ensure_no_cycle_exact demo1 2%N 1%N demo1_wf).
  by vm_compute.
Defined.

(** A refused seed, expansion or injection leaves the plan exactly as it
    was, although the batch is inserted before the last check runs. *)
Theorem refused_growth_is_no_change p actor specs key i :
  wf p → room p (S (length specs)) →
  (∀ e, snd (seed p actor key specs) = Err e → fst (seed p actor key specs) = p) ∧
  (∀ e, snd (expand_node p i actor specs) = Err e →
     fst (expand_node p i actor specs) = p) ∧
  (∀ e, snd (inject_from_gate p i actor specs) = Err e →
     fst (inject_from_gate p i actor specs) = p).
Proof.
  intros Hwf Hroom. split_and!; intros e He.
  - destruct (seed_sound p actor key specs Hwf Hroom) as (_ & _ & H). by rewrite He in H.
  - pose proof (os_effect _ _ (expand_node_sound p i actor specs Hwf Hroom)) as H.
    by rewrite He in H.
  - assert (Hroom' : room p (length specs)) by (unfold room in *; lia).
    pose proof (os_effect _ _ (inject_from_gate_sound p i actor specs Hwf Hroom')) as H.
    by rewrite He in H.
Qed.

Lemma refused_growth_is_no_change_witness :
  snd (expand_node demo1 1%N worker three) = Err (NotOwner 1%N worker lead) ∧
  fst (expand_node demo1 1%N worker three) = demo1.
Proof.
  split; [by vm_compute|].
  apply (refused_growth_is_no_change demo1 worker three "k2" 1%N demo1_wf) with
    (e := NotOwner 1%N worker lead); by vm_compute.
Defined.

(** C31. A finished task never changes again, and no task ever disappears,
    changes its kind or its title, whatever operations follow. *)
Theorem finished_tasks_are_frozen p p' i n :
  wf p → rtc plan_step p p' → node p i = Some n →
  (is_terminal n = true → node p' i = Some n) ∧
  ∃ n', node p' i = Some n' ∧ kind n' = kind n ∧ title n' = title n.
Proof.
  intros Hwf Hr Hn. destruct (plan_steps_sound p p' Hr Hwf) as [_ Hf].
  split; [by apply (fz_terminal _ _ Hf)|by apply (fz_keeps _ _ Hf)].
Qed.

Lemma finished_tasks_are_frozen_witness :
  node over3 1%N = node demo_over 1%N.
Proof.
  assert (Hwf : wf over3).
  { apply (plan_steps_sound demo0); [|apply wf_new].
    eapply rtc_l; [apply (step_seed demo0 lead "k1" pair_specs); by vm_compute|].
    eapply rtc_l; [apply (step_dispatch over1 1%N worker)|].
    eapply rtc_l; [apply (step_complete over2 1%N worker done_report)|]. apply rtc_refl. }
  assert (Hr : rtc plan_step over3 demo_over).
  { eapply rtc_l; [apply (step_fail over3 2%N lead "the build never passed")|].
    apply rtc_refl. }
  destruct (node over3 1%N) as [n|] eqn:Hn; [|by vm_compute in Hn].
  symmetry. apply (finished_tasks_are_frozen over3 demo_over 1%N n Hwf Hr Hn).
  vm_compute in Hn. by injection Hn as <-.
Defined.

(** [cascade_blocked] ends within its fuel; afterwards no task is blocked,
    every task it touched was pending and is now abandoned and reported, and
    every other task is as it was. *)
Theorem cascade_blocked_settles p :
  wf p →
  is_Some (cascade_loop (cascade_fuel p) p []) ∧
  blocked_nodes (fst (cascade_blocked p)) = [] ∧
  swept p (fst (cascade_blocked p)) (snd (cascade_blocked p)).
Proof.
  intros Hwf. destruct (cascade_blocked_sound p Hwf) as (_ & _ & _ & Hb).
  destruct (cascade_loop_sound (cascade_fuel p) p [] Hwf) as (p' & l & Hc & _).
  { unfold cascade_fuel, open_count.
    pose proof (length_filter (λ n, is_terminal n = false) (node_list p)). lia. }
  split_and!; [by eexists|done|]. unfold cascade_blocked. rewrite Hc. simpl.
  by apply (cascade_loop_swept (cascade_fuel p) p [] p' l).
Qed.

(** [a] fails; [c], which waits on it, is blocked. *)
Definition stuck : TaskPlan := fst (fail_node demo1 1%N lead "boom").

Lemma stuck_wf : wf stuck.
Proof. apply (fail_node_sound demo1 1%N lead "boom" demo1_wf). Qed.

Lemma cascade_blocked_settles_witness :
  blocked_nodes stuck = [3%N] ∧ blocked_nodes (fst (cascade_blocked stuck)) = [].
Proof. split; [by vm_compute|]. apply (cascade_blocked_settles stuck stuck_wf). Defined.
