(* ===== verification/PlanShape.v ===== *)
(** * What each operation does to the plan

    The functional behaviour of the operations that grow the plan, hand work
    out and take it back: the exact nodes an expansion leaves, the replay of a
    seed, the text a dispatched task is given, and what salvage frees. *)

From stdpp Require Import base gmap list sorting strings pretty numbers.
From S2P Require Import Prelude RustStr Artifact Plan Batch PlanOps Schedule PlanWf PlanSafe PlanProps.
#[local] Open Scope string_scope.

(** ** The review gate *)

Lemma deep_gate_cases p own t pr over p2 g :
  deep_gate p own t pr over = (p2, g) →
  (mode p = Light ∧ g = None ∧ p2 = p) ∨
  (mode p = Deep ∧ g = Some (next_id p) ∧
   nodes p2 = <[next_id p := spec_node (next_id p) (gate t pr) own over]> (nodes p)).
Proof.
  unfold deep_gate, append_gate, insert. destruct (mode p); simpl; intros [= <- <-]; auto.
Qed.

(** A deep gate only adds the node at the next id. *)
Lemma deep_gate_old p own t pr over p2 g i :
  deep_gate p own t pr over = (p2, g) → (i < next_id p)%N →
  nodes p2 !! i = nodes p !! i.
Proof.
  intros [(_ & _ & ->)|(_ & _ & ->)]%deep_gate_cases Hi; [done|].
  by rewrite lookup_insert_ne by lia.
Qed.

(** What the node with specification [s] at place [k] of a batch looks like. *)
Definition batch_child (base : N) (own : ActorId) (specs : list NodeSpec)
    (inh : list NodeId) (k : nat) (s : NodeSpec) (n : TaskNode) : Prop :=
  id n = nth_id base k ∧ title n = spec_title s ∧ kind n = spec_kind s ∧
  owner n = own ∧ status n = Pending ∧
  ∀ u, u ∈ upstream n ↔ u ∈ inh ∨ ∃ j, j ∈ depends_on_batch s ∧ u = nth_id base j.

Lemma batch_added_child p own specs inh p1 k s :
  batch_added p own specs inh p1 → specs !! k = Some s →
  ∃ n, nodes p1 !! nth_id (next_id p) k = Some n ∧
       batch_child (next_id p) own specs inh k s n.
Proof.
  intros Hb Hk. destruct (ba_new _ _ _ _ _ Hb k s Hk)
    as (n & Hn & ? & ? & ? & ? & ? & _ & _ & Hup).
  exists n. split; [done|]. repeat (split; [done|]). intros u. rewrite Hup.
  unfold batch_deps. by rewrite Hk.
Qed.

(** A successful expansion: the children are the batch, in order, each
    inheriting the task's dependencies on top of the siblings it named; in deep
    mode a review gate waits on exactly the children; the expanded task is
    pending again and waits on the gate, or on the children when there is
    none; every other task is as it was. *)
Theorem expansion_shape p i actor specs p' e :
  wf p → room p (S (length specs)) → expand_node p i actor specs = (p', Ok e) →
  ∃ n ups,
    node p i = Some n ∧
    children e = nth_id (next_id p) <$> seq 0 (length specs) ∧
    (∀ k s, specs !! k = Some s → ∃ c, node p' (nth_id (next_id p) k) = Some c ∧
       batch_child (next_id p) actor specs (upstream n) k s c) ∧
    match expanded_gate e with
    | Some g => mode p = Deep ∧ ups = [g] ∧ ∃ gn, node p' g = Some gn ∧
        kind gn = Gate ∧ status gn = Pending ∧ ∀ u, u ∈ upstream gn ↔ u ∈ children e
    | None => mode p = Light ∧ ∀ u, u ∈ ups ↔ u ∈ children e
    end ∧
    node p' i = Some (set_status Pending (set_upstream ups n)) ∧
    ∀ j, j ≠ i → is_Some (node p j) → node p' j = node p j.
Proof.
  intros Hwf Hroom He.
  destruct (expand_node_Ok_inv p i actor specs p' e Hwf Hroom He)
    as (n & p1 & Hn & _ & Hb & Hkids & Hrest).
  destruct (deep_gate p1 actor _ _ _) as [p2 g] eqn:Hdg. destruct Hrest as [Hg Hp'].
  pose proof (ba_next _ _ _ _ _ Hb) as Hnext.
  destruct (frame_fields _ _ (ba_frame _ _ _ _ _ Hb)) as (_ & Hmode & _).
  assert (Hlt : ∀ j m, node p j = Some m → (j < next_id p)%N).
  { intros j m Hj. by destruct (nw_range _ _ _ _ _ (wf_nodes p Hwf j m Hj)). }
  assert (Hsame : ∀ j, j ≠ i → node p' j = nodes p2 !! j).
  { intros j Hj. unfold node. rewrite Hp'.
    change (nodes (bump_version ?q)) with (nodes q).
    by rewrite update_node_lookup, decide_False. }
  assert (Hold : ∀ j, is_Some (node p j) → nodes p2 !! j = node p j).
  { intros j [m Hj]. pose proof (Hlt j m Hj).
    rewrite (deep_gate_old _ _ _ _ _ _ _ _ Hdg) by (rewrite Hnext; unfold nth_id; lia).
    by apply (ba_old _ _ _ _ _ Hb). }
  pose proof (Hlt i n Hn) as Hi.
  exists n, (sort_dedup (match g with Some g => [g] | None => children e end)).
  split_and!; [done|done| | | |].
  - intros k s Hk. destruct (batch_added_child _ _ _ _ _ k s Hb Hk) as (c & Hc & Hch).
    pose proof (lookup_lt_Some _ _ _ Hk) as Hkl.
    exists c. split; [|done]. rewrite Hsame by (unfold nth_id; lia).
    by rewrite (deep_gate_old _ _ _ _ _ _ _ _ Hdg) by (rewrite Hnext; unfold nth_id; lia).
  - rewrite Hg. destruct (deep_gate_cases _ _ _ _ _ _ _ Hdg)
      as [(Hm & -> & _)|(Hm & -> & Hn2)]; rewrite Hmode in Hm.
    + split; [done|]. intros u. apply elem_of_sort_dedup.
    + split_and!; [done|done|]. eexists.
      rewrite Hsame by (rewrite Hnext; unfold nth_id; lia).
      rewrite Hn2, lookup_insert_eq. split_and!; [done|done|done|].
      intros u. apply elem_of_sort_dedup.
  - unfold node. rewrite Hp'. change (nodes (bump_version ?q)) with (nodes q).
    rewrite update_node_lookup, decide_True, Hold, Hn by (done || by exists n). done.
  - intros j Hj Hs. by rewrite Hsame, Hold.
Qed.

(** A deep plan and the expansion of its first task. *)
Definition deep0 : TaskPlan := new "ship it" Deep lead.
Definition deep1 : TaskPlan := fst (seed deep0 lead "k1" three).
Definition deep2 : TaskPlan := fst (expand_node deep1 3%N lead pair_specs).

Lemma deep1_wf : wf deep1.
Proof.
  destruct (seed_sound deep0 lead "k1" three) as (Hwf & _); [apply wf_new|by vm_compute|].
  exact Hwf.
Qed.

Lemma expansion_shape_witness :
  wf deep1 ∧ ∃ n ups, node deep1 3%N = Some n ∧
    node deep2 3%N = Some (set_status Pending (set_upstream ups n)).
Proof.
  split; [exact deep1_wf|].
  assert (He : expand_node deep1 3%N lead pair_specs =
               (deep2, Ok (mkExpanded [5%N; 6%N] (Some 7%N)))) by by vm_compute.
  assert (Hroom : room deep1 (S (length pair_specs))) by by vm_compute.
  destruct (expansion_shape deep1 3%N lead pair_specs deep2 _ deep1_wf Hroom He)
    as (n & ups & Hn & _ & _ & _ & Hi & _).
  by exists n, ups.
Defined.

(** ** Replaying a seed *)

Lemma seed_fresh_inv p actor key specs p1 r :
  wf p → room p (S (length specs)) → seed p actor key specs = (p1, Ok r) →
  replayed r = false →
  seeded_nodes r = nth_id (next_id p) <$> seq 0 (length specs) ∧
  applied_seeds p1 !! key = Some (seeded_nodes r ++ option_list (seeded_gate r))%list ∧
  (∀ k s, specs !! k = Some s → ∃ n,
     nodes p1 !! nth_id (next_id p) k = Some n ∧ kind n = spec_kind s) ∧
  (∀ g, seeded_gate r = Some g → ∃ n, nodes p1 !! g = Some n ∧ kind n = Gate).
Proof.
  intros Hwf Hroom. unfold seed.
  destruct (replayed_seed p key) as [ids|]; [by intros [= <- <-]|].
  case_bool_decide; [done|].
  destruct (validate_batch specs) as [[]|] eqn:Hv; [|done].
  apply validate_batch_Ok in Hv as [Hr Hg].
  destruct (insert_batch_added p actor specs [] Hwf) as [Hb Hids];
    [unfold room in *; lia|done|done|].
  destruct (insert_batch p actor specs []) as [q created]. cbn [fst snd] in *.
  destruct (deep_gate q actor _ _ created) as [q2 g] eqn:Hdg.
  intros [= <- <-] _. cbn [seeded_nodes seeded_gate].
  pose proof (ba_next _ _ _ _ _ Hb) as Hnext.
  split_and!; [done|by simpl; rewrite lookup_insert_eq| |].
  - intros k s Hk. destruct (batch_added_child _ _ _ _ _ k s Hb Hk) as (c & Hc & Hch).
    pose proof (lookup_lt_Some _ _ _ Hk). exists c. split; [|by apply Hch]. simpl.
    by rewrite (deep_gate_old _ _ _ _ _ _ _ _ Hdg) by (rewrite Hnext; unfold nth_id; lia).
  - intros g' ->. destruct (deep_gate_cases _ _ _ _ _ _ _ Hdg)
      as [(_ & ? & _)|(_ & [= ->] & Hn2)]; [done|].
    simpl. rewrite Hn2, lookup_insert_eq. by eexists.
Qed.

Lemma is_gate_node_kind p i n :
  nodes p !! i = Some n → is_gate_node p i = bool_decide (kind n = Gate).
Proof. intros Hn. unfold is_gate_node, node. by rewrite Hn. Qed.

(** What a later seed with the same key answers, whatever it is called with. *)
Lemma seed_replay_result p key ids actor specs :
  applied_seeds p !! key = Some ids →
  seed p actor key specs =
  (p, Ok (mkSeeded (filter (λ i, is_gate_node p i = false) ids)
            (head (filter (λ i, is_gate_node p i = true) ids)) true)).
Proof. intros Hk. unfold seed, replayed_seed. by rewrite Hk. Qed.

Lemma filter_all {A} (P : A → Prop) `{!∀ x, Decision (P x)} (l : list A) :
  (∀ x, x ∈ l → P x) → filter P l = l.
Proof.
  induction l as [|x l IH]; intros Hall; [done|].
  rewrite filter_cons_True by (apply Hall; by left). f_equal. apply IH.
  intros y Hy. apply Hall. by right.
Qed.

(** Seeding is idempotent: after a seed of ordinary tasks, a second seed
    under the same key, however much later and whatever batch it carries,
    leaves the plan alone and reports the same tasks and the same gate. *)
Theorem seed_replay_idempotent p actor key specs p1 r p2 actor' specs' :
  wf p → room p (S (length specs)) →
  seed p actor key specs = (p1, Ok r) → replayed r = false →
  (∀ s, s ∈ specs → spec_kind s = Task) → rtc plan_step p1 p2 →
  seed p2 actor' key specs' = (p2, Ok (mkSeeded (seeded_nodes r) (seeded_gate r) true)).
Proof.
  intros Hwf Hroom Hs Hfresh Htasks Hsteps.
  destruct (seed_sound p actor key specs Hwf Hroom) as (Hwf1 & _). rewrite Hs in Hwf1.
  destruct (plan_steps_sound p1 p2 Hsteps Hwf1) as [_ Hfz].
  destruct (seed_fresh_inv p actor key specs p1 r Hwf Hroom Hs Hfresh)
    as (Hids & Happ & Hkinds & Hgate).
  assert (Hlater : ∀ i n, nodes p1 !! i = Some n →
            is_gate_node p2 i = bool_decide (kind n = Gate)).
  { intros i n Hn. destruct (fz_keeps _ _ Hfz i n Hn) as (n' & Hn' & Hk & _).
    by rewrite (is_gate_node_kind p2 i n' Hn'), Hk. }
  assert (Hplain : ∀ i, i ∈ seeded_nodes r → is_gate_node p2 i = false).
  { rewrite Hids. intros i (k & -> & Hk%elem_of_seq)%list_elem_of_fmap.
    destruct (lookup_lt_is_Some_2 specs k ltac:(lia)) as [s Hsk].
    destruct (Hkinds k s Hsk) as (n & Hn & Hkn).
    rewrite (Hlater _ n Hn), Hkn, Htasks; [done|by eapply list_elem_of_lookup_2]. }
  rewrite (seed_replay_result p2 key _ actor' specs' (fz_seeds _ _ Hfz _ _ Happ)).
  rewrite !list.filter_app, (filter_all _ (seeded_nodes r) Hplain).
  assert (Hnone : filter (λ i, is_gate_node p2 i = true) (seeded_nodes r) = []).
  { apply filter_nil_iff. intros i Hi. by rewrite Hplain. }
  rewrite Hnone. destruct (seeded_gate r) as [g|]; simpl; [|by rewrite app_nil_r].
  destruct (Hgate g eq_refl) as (n & Hn & Hkn).
  assert (Hg : is_gate_node p2 g = true) by by rewrite (Hlater g n Hn), Hkn.
  rewrite !filter_cons, decide_False, decide_True by congruence.
  simpl. by rewrite app_nil_r.
Qed.

Lemma seed_replay_idempotent_witness :
  snd (seed demo3 worker "k1" pair_specs) = Ok (mkSeeded [1%N; 2%N; 3%N] None true).
Proof.
  assert (Hs : seed demo0 lead "k1" three =
               (demo1, Ok (mkSeeded [1%N; 2%N; 3%N] None false))) by by vm_compute.
  assert (Hroom : room demo0 (S (length three))) by by vm_compute.
  assert (Hsteps : rtc plan_step demo1 demo3).
  { eapply rtc_l; [apply (step_dispatch demo1 1%N worker)|].
    eapply rtc_l; [apply (step_complete demo2 1%N worker done_report)|]. apply rtc_refl. }
  rewrite (seed_replay_idempotent demo0 lead "k1" three demo1 _ demo3 worker pair_specs
    (wf_new _ _ _) Hroom Hs eq_refl); [done| |exact Hsteps].
  intros s Hin. unfold three in Hin.
  by repeat (apply elem_of_cons in Hin as [->|Hin]); [..|by apply not_elem_of_nil in Hin].
Defined.

(** A batch that names a gate of its own is not replayed faithfully: the
    second answer drops that gate from the seeded tasks. *)
Theorem seed_replay_loses_gates p actor key specs p1 r actor' specs' s :
  wf p → room p (S (length specs)) →
  seed p actor key specs = (p1, Ok r) → replayed r = false →
  s ∈ specs → spec_kind s = Gate →
  ∃ r', seed p1 actor' key specs' = (p1, Ok r') ∧ seeded_nodes r' ≠ seeded_nodes r.
Proof.
  intros Hwf Hroom Hs Hfresh [k Hk]%list_elem_of_lookup Hgs.
  destruct (seed_fresh_inv p actor key specs p1 r Hwf Hroom Hs Hfresh)
    as (Hids & Happ & Hkinds & _).
  destruct (Hkinds k s Hk) as (n & Hn & Hkn).
  eexists. split; [exact (seed_replay_result p1 key _ actor' specs' Happ)|].
  cbn [seeded_nodes]. intros Heq.
  assert (Hin : nth_id (next_id p) k ∈ seeded_nodes r).
  { rewrite Hids. apply list_elem_of_fmap. exists k. split; [done|].
    apply elem_of_seq. apply lookup_lt_Some in Hk. lia. }
  rewrite <-Heq in Hin. apply list_elem_of_filter in Hin as [Hng _].
  by rewrite (is_gate_node_kind p1 _ n Hn), Hkn, Hgs in Hng.
Qed.

Definition gated_specs : list NodeSpec := [task "a" "do a"; after (gate "g" "review") 0].
Definition gated1 : TaskPlan := fst (seed demo0 lead "k1" gated_specs).

Lemma seed_replay_loses_gates_witness :
  ∃ r', seed gated1 lead "k1" gated_specs = (gated1, Ok r') ∧ seeded_nodes r' ≠ [1%N; 2%N].
Proof.
  assert (Hs : seed demo0 lead "k1" gated_specs =
               (gated1, Ok (mkSeeded [1%N; 2%N] None false))) by by vm_compute.
  assert (Hroom : room demo0 (S (length gated_specs))) by by vm_compute.
  apply (seed_replay_loses_gates demo0 lead "k1" gated_specs gated1 _ lead gated_specs
    (after (gate "g" "review") 0) (wf_new _ _ _) Hroom Hs eq_refl); [|done].
  unfold gated_specs. right. left.
Defined.

(** ** Handing a task out *)

Lemma readiness_cases p i n :
  node p i = Some n →
  match readiness p i with
  | Ok Ready => status n = Pending ∧ ∀ u, u ∈ upstream n → completed (nodes p) u
  | Ok (WaitingOn ws) => status n = Pending ∧ ws ≠ [] ∧
      ∀ u, u ∈ ws → u ∈ upstream n ∧ ∃ m, node p u = Some m ∧ is_terminal m = false
  | Ok (RBlocked bs) => status n = Pending ∧ bs ≠ [] ∧
      ∀ u, u ∈ bs → u ∈ upstream n ∧
        ∀ m, node p u = Some m → is_terminal m = true ∧ status m ≠ Complete
  | Ok NotPending => status n ≠ Pending
  | Err _ => False
  end.
Proof.
  intros Hn. destruct (readiness p i) as [[]|] eqn:Hr.
  - apply readiness_Ready in Hr as (m & Hm & ? & ?). unfold node in Hn. by simplify_eq.
  - unfold readiness, readiness_of in Hr. rewrite Hn in Hr. simpl in Hr.
    case_bool_decide as Hs; [done|]. split; [done|].
    destruct (filter (λ up, dep_blocked p up = true) _); [|done].
    destruct (filter (λ up, dep_waiting p up = true) _) as [|w ws] eqn:Hf; [done|].
    injection Hr as <-. split; [done|]. intros u. rewrite <-Hf.
    intros [Hw Hu]%list_elem_of_filter. split; [done|]. unfold dep_waiting in Hw.
    destruct (node p u) as [m|]; [|done]. exists m. split; [done|].
    by apply negb_true_iff.
  - unfold readiness, readiness_of in Hr. rewrite Hn in Hr. simpl in Hr.
    case_bool_decide as Hs; [done|]. split; [done|].
    destruct (filter (λ up, dep_blocked p up = true) _) as [|b bs] eqn:Hf.
    { by destruct (filter (λ up, dep_waiting p up = true) _). }
    injection Hr as <-. split; [done|]. intros u. rewrite <-Hf.
    intros [Hb Hu]%list_elem_of_filter. split; [done|]. unfold dep_blocked in Hb.
    intros m Hm. rewrite Hm in Hb. apply andb_true_iff in Hb as [? Hb].
    split; [done|]. by apply negb_true_iff, bool_decide_eq_false in Hb.
  - unfold readiness, readiness_of in Hr. rewrite Hn in Hr. simpl in Hr.
    case_bool_decide as Hs; [done|].
    destruct (filter (λ up, dep_blocked p up = true) (upstream n)); [|done].
    by destruct (filter (λ up, dep_waiting p up = true) (upstream n)).
  - unfold readiness in Hr. by rewrite Hn in Hr.
Qed.

(** A dispatch hands a task out exactly when it is pending and all its
    dependencies are complete, and then only marks it assigned; each refusal
    says truthfully which dependencies hold it up, who has it or that it is
    over. *)
Theorem dispatch_outcome p i who n :
  node p i = Some n →
  match snd (dispatch p i who) with
  | Ok a =>
      status n = Pending ∧ (∀ u, u ∈ upstream n → completed (nodes p) u) ∧
      fst (dispatch p i who) =
        bump_version (update_node p i (set_status (Assigned who))) ∧
      as_node a = i ∧ as_title a = title n ∧ as_kind a = kind n ∧ as_assignee a = who
  | Err (NotReady j ws) => j = i ∧ status n = Pending ∧ ws ≠ [] ∧
      ∀ u, u ∈ ws → u ∈ upstream n ∧ ∃ m, node p u = Some m ∧ is_terminal m = false
  | Err (Blocked j bs) => j = i ∧ status n = Pending ∧ bs ≠ [] ∧
      ∀ u, u ∈ bs → u ∈ upstream n ∧
        ∀ m, node p u = Some m → is_terminal m = true ∧ status m ≠ Complete
  | Err (AlreadyAssigned j holder) => j = i ∧ status n = Assigned holder
  | Err (AlreadyTerminal j l) => j = i ∧ is_terminal n = true ∧ l = label (status n)
  | Err _ => False
  end.
Proof.
  intros Hn. pose proof (readiness_cases p i n Hn) as Hc. unfold dispatch.
  destruct (readiness p i) as [[]|]; [| | | |done].
  - unfold assemble_input. rewrite Hn. simpl. destruct Hc as [Hs Hu].
    by destruct (upstream_handoffs p n).
  - by split.
  - by split.
  - rewrite Hn. simpl. unfold assignee, is_terminal in *. by destruct (status n).
Qed.

Lemma dispatch_outcome_witness :
  ∃ n, node demo1 3%N = Some n ∧ status n = Pending ∧
    ∀ u, u ∈ [1%N] → u ∈ upstream n ∧ ∃ m, node demo1 u = Some m ∧ is_terminal m = false.
Proof.
  destruct (node demo1 3%N) as [n|] eqn:Hn; [|by vm_compute in Hn].
  exists n. split; [done|]. pose proof (dispatch_outcome demo1 3%N worker n Hn) as H.
  assert (Hd : snd (dispatch demo1 3%N worker) = Err (NotReady 3%N [1%N])) by by vm_compute.
  rewrite Hd in H. by destruct H as (_ & ? & _ & ?).
Defined.

(** *** The text a task works from *)

Definition infix_of (s t : string) : Prop := ∃ l r, t = l +:+ s +:+ r.

Lemma string_app_assoc (a b c : string) : (a +:+ b) +:+ c = a +:+ b +:+ c.
Proof. induction a as [|x a IH]; [done|]. exact (f_equal (String x) IH). Qed.

Lemma string_app_nil (a : string) : a +:+ "" = a.
Proof. induction a as [|x a IH]; [done|]. exact (f_equal (String x) IH). Qed.

(** Appending keeps what is already there. *)
Lemma infix_of_app s t u : infix_of s t → infix_of s (t +:+ u).
Proof. intros (l & r & ->). exists l, (r +:+ u). by rewrite !string_app_assoc. Qed.

Lemma infix_of_last s t u : infix_of s (t +:+ s +:+ u).
Proof. by exists t, u. Qed.

Section foldl_append.
Context {A : Type} (piece : A → string) (sep : string) (add : string → A → string).
Context (Hadd : ∀ out x, add out x = out +:+ piece x +:+ sep).

Lemma foldl_append_keeps s xs out : infix_of s out → infix_of s (foldl add out xs).
Proof using Hadd.
  revert out. induction xs as [|x xs IH]; intros out Hs; [done|].
  simpl. apply IH. rewrite Hadd. by apply infix_of_app.
Qed.

Lemma foldl_append_in xs out x : x ∈ xs → infix_of (piece x) (foldl add out xs).
Proof using Hadd.
  revert out. induction xs as [|y xs IH]; intros out Hx; [by apply not_elem_of_nil in Hx|].
  simpl. apply elem_of_cons in Hx as [->|Hx]; [|by apply IH].
  apply foldl_append_keeps. rewrite Hadd. apply infix_of_last.
Qed.
End foldl_append.

(** The text a dispatched task is given contains, for every dependency,
    the whole report that dependency finished with: no handoff is lost. *)
Theorem dispatch_input_complete p i who p' a n u :
  wf p → dispatch p i who = (p', Ok a) → node p i = Some n → u ∈ upstream n →
  ∃ nu h, node p u = Some nu ∧ status nu = Complete ∧ artifact nu = Some h ∧
    infix_of (render h (show_node u +:+ " " +:+ title nu)) (as_input a).
Proof.
  intros Hwf Hd Hn Hu. pose proof (dispatch_outcome p i who n Hn) as Hout.
  rewrite Hd in Hout. destruct Hout as (_ & Hdeps & _).
  destruct (Hdeps u Hu) as (nu & Hnu & Hs).
  pose proof (wf_nodes p Hwf u nu Hnu) as Hwu.
  pose proof (nw_handoff _ _ _ _ _ Hwu) as Hh. rewrite Hs in Hh. destruct Hh as (h & Hh & _).
  exists nu, h. split_and!; [done..|].
  assert (Hin : (u, h) ∈ upstream_handoffs p n).
  { unfold upstream_handoffs. apply list_elem_of_omap. exists u. split; [done|].
    unfold node. by rewrite Hnu, Hh. }
  assert (Hasm : assemble_input p i = Ok (as_input a)).
  { unfold dispatch in Hd. destruct (readiness p i) as [[]|]; try done.
    - destruct (assemble_input p i); [|done]. rewrite Hn in Hd. simpl in Hd.
      by injection Hd as _ <-.
    - rewrite Hn in Hd. simpl in Hd. by destruct (assignee n). }
  unfold assemble_input in Hasm. rewrite Hn in Hasm. cbn [ok_or] in Hasm.
  destruct (upstream_handoffs p n) as [|x xs]; [by apply not_elem_of_nil in Hin|].
  injection Hasm as <-.
  assert (Hl : handoff_label p u = show_node u +:+ " " +:+ title nu).
  { unfold handoff_label, node. rewrite Hnu. by rewrite (nw_id _ _ _ _ _ Hwu). }
  rewrite <-Hl.
  pose (piece := λ e : NodeId * HandoffArtifact, render (snd e) (handoff_label p (fst e))).
  refine (foldl_append_in piece NL _ _ (x :: xs) _ (u, h) Hin). by intros ? [].
Qed.

Lemma dispatch_input_complete_witness :
  ∃ nu h, node demo3 1%N = Some nu ∧ artifact nu = Some h ∧
    infix_of (render h "#1 a")
      (match snd (dispatch demo3 3%N worker) with Ok a => as_input a | Err _ => "" end).
Proof.
  destruct (dispatch demo3 3%N worker) as [p' [a|e]] eqn:Hd; [|by vm_compute in Hd].
  destruct (node demo3 3%N) as [n|] eqn:Hn; [|by vm_compute in Hn].
  assert (Hu : 1%N ∈ upstream n) by (vm_compute in Hn; injection Hn as <-; left).
  destruct (dispatch_input_complete demo3 3%N worker p' a n 1%N demo3_wf Hd Hn Hu)
    as (nu & h & Hnu & _ & Hh & Hin).
  exists nu, h. split_and!; [done..|].
  assert (Htl : title nu = "a") by (vm_compute in Hnu; by injection Hnu as <-).
  rewrite Htl in Hin. exact Hin.
Defined.

(** ** Taking work back *)

Lemma salvage_open p i limit n :
  nodes p !! i = Some n → is_terminal n = false →
  salvage_assignment p i limit =
  (bump_version (update_node p i (salvage_effect (salvage_outcome (reclaims n) limit))),
   Ok (salvage_outcome (reclaims n) limit)).
Proof. intros Hn Ht. unfold salvage_assignment, node. rewrite Hn. simpl. by rewrite Ht. Qed.

(** Salvaging a list of distinct open tasks touches those and nothing else. *)
Lemma salvage_all_spec p ids limit :
  NoDup ids →
  (∀ i, i ∈ ids → ∃ n, nodes p !! i = Some n ∧ is_terminal n = false) →
  let r := salvage_all p ids limit in
  (∀ i, i ∉ ids → nodes (fst r) !! i = nodes p !! i) ∧
  (∀ i n, i ∈ ids → nodes p !! i = Some n →
     (i, salvage_outcome (reclaims n) limit) ∈ snd r ∧
     nodes (fst r) !! i = Some (salvage_effect (salvage_outcome (reclaims n) limit) n)) ∧
  (fst <$> snd r) = ids.
Proof.
  revert p. induction ids as [|i ids IH]; intros p Hnd Hopen; cbn [salvage_all].
  { split_and!; [done| |done]. intros i n Hi. by apply not_elem_of_nil in Hi. }
  apply list.NoDup_cons in Hnd as [Hi Hnd].
  destruct (Hopen i ltac:(by left)) as (n & Hn & Ht).
  rewrite (salvage_open p i limit n Hn Ht).
  set (o := salvage_outcome (reclaims n) limit).
  set (p1 := bump_version (update_node p i (salvage_effect o))).
  assert (Hp1 : ∀ j, nodes p1 !! j =
            if decide (i = j) then salvage_effect o <$> nodes p !! j else nodes p !! j).
  { intros j. apply update_node_lookup. }
  assert (Hother : ∀ j, j ∈ ids → nodes p1 !! j = nodes p !! j).
  { intros j Hj. rewrite Hp1, decide_False; [done|by intros ->]. }
  destruct (IH p1 Hnd) as (Hout & Hin & Hids).
  { intros j Hj. rewrite Hother by done. apply Hopen. by right. }
  destruct (salvage_all p1 ids limit) as [p2 rest]. cbn [fst snd] in *.
  split_and!.
  - intros j [Hji Hj]%not_elem_of_cons. rewrite Hout by done.
    by rewrite Hp1, decide_False.
  - intros j m [->|Hj]%elem_of_cons Hm.
    + rewrite Hm in Hn. injection Hn as <-. split; [left|].
      by rewrite Hout, Hp1, decide_True, Hm.
    + destruct (Hin j m Hj) as [Hr Hl]; [by rewrite Hother|]. split; [by right|done].
  - cbn [fmap list_fmap]. by rewrite <-Hids.
Qed.

Lemma elem_of_stranded p actor i :
  wf p →
  i ∈ (id <$> filter (λ n, is_terminal n = false ∧ assignee n = Some actor) (node_list p)) ↔
  ∃ n, node p i = Some n ∧ assignee n = Some actor.
Proof.
  intros Hwf. rewrite list_elem_of_fmap. split.
  - intros (n & -> & [[_ Ha] Hn]%list_elem_of_filter). exists n. split; [|done].
    by apply wf_node_list_id.
  - intros (n & Hn & Ha). pose proof (wf_nodes p Hwf i n Hn) as Hw.
    exists n. split; [by rewrite (nw_id _ _ _ _ _ Hw)|].
    apply list_elem_of_filter. split; [|apply elem_of_btree_values; by exists i].
    split; [|done]. unfold assignee, is_terminal in *. by destruct (status n).
Qed.

Lemma stranded_NoDup p actor :
  wf p →
  NoDup (id <$> filter (λ n, is_terminal n = false ∧ assignee n = Some actor) (node_list p)).
Proof.
  intros Hwf. unfold node_list, btree_values.
  assert (Hks : ∀ k n, k ∈ btree_keys (nodes p) → nodes p !! k = Some n → id n = k).
  { intros k n _ Hn. apply (nw_id _ _ _ _ _ (wf_nodes p Hwf k n Hn)). }
  pose proof (btree_keys_NoDup (nodes p)) as Hnd.
  induction Hnd as [|k ks Hk Hnd IH]; simpl; [constructor|].
  assert (IH' := IH ltac:(intros; apply Hks; [by right|done])). clear IH.
  destruct (nodes p !! k) as [n|] eqn:Hn; [|done].
  rewrite filter_cons. case_decide as Hf; [|done].
  simpl. apply list.NoDup_cons. split; [|done].
  rewrite (Hks k n) by (by left || done).
  intros (m & -> & [_ Hm]%list_elem_of_filter)%list_elem_of_fmap.
  apply list_elem_of_omap in Hm as (k' & Hk' & Hm).
  rewrite (Hks k' m) in Hk by (by right || done). done.
Qed.

(** Sweeping a departed worker: every task it held is either queued again
    with one more reclaim, or failed because its budget is spent, and is
    reported as such; nothing stays assigned to the worker and no other task
    changes. *)
Lemma salvage_actor_frees p actor limit :
  wf p → (limit <= U32_MAX)%N →
  let '(p', outcomes) := salvage_actor p actor limit in
  (∀ i n, node p i = Some n → assignee n = Some actor →
     if (reclaims n <? limit)%N
     then (i, Requeued (reclaims n + 1)) ∈ outcomes ∧
          node p' i = Some (set_status Pending (set_reclaims (reclaims n + 1) n))
     else (i, Exhausted (reclaims n) limit) ∈ outcomes ∧
          ∃ why, node p' i = Some (set_status (Failed why) n)) ∧
  (∀ i n, node p i = Some n → assignee n ≠ Some actor → node p' i = Some n) ∧
  (∀ i n, node p' i = Some n → assignee n ≠ Some actor) ∧
  (∀ i, i ∈ outcomes.*1 ↔ ∃ n, node p i = Some n ∧ assignee n = Some actor).
Proof.
  intros Hwf Hlim. unfold salvage_actor. set (ids := id <$> _).
  assert (Hids : ∀ i, i ∈ ids ↔ ∃ n, node p i = Some n ∧ assignee n = Some actor)
    by (intros i; by apply elem_of_stranded).
  assert (Hopen : ∀ i, i ∈ ids → ∃ n, nodes p !! i = Some n ∧ is_terminal n = false).
  { intros i (n & Hn & Ha)%Hids. exists n. split; [done|].
    unfold assignee, is_terminal in *. by destruct (status n). }
  destruct (salvage_all_spec p ids limit (stranded_NoDup p actor Hwf) Hopen)
    as (Hout & Hin & Hrep).
  destruct (salvage_all p ids limit) as [p' outcomes]. cbn [fst snd] in *.
  split_and!.
  - intros i n Hn Ha. destruct (Hin i n) as [Hr Hl]; [apply Hids; by exists n|done|].
    unfold node. rewrite Hl. revert Hr. unfold salvage_outcome.
    destruct (N.leb_spec limit (reclaims n)), (N.ltb_spec (reclaims n) limit);
      try lia; simpl; [by eauto|]. by rewrite u32_add_small by lia.
  - intros i n Hn Ha. unfold node. rewrite Hout; [done|]. intros (m & Hm & ?)%Hids.
    congruence.
  - intros i n Hn Ha. destruct (decide (i ∈ ids)) as [Hi|Hi].
    + pose proof Hi as (m & Hm & Hma)%Hids.
      destruct (Hin i m Hi Hm) as [_ Hl]. unfold node in Hn. rewrite Hl in Hn.
      injection Hn as <-. unfold salvage_outcome in Ha.
      by destruct (limit <=? reclaims m)%N.
    + unfold node in Hn. rewrite Hout in Hn by done. apply Hi, Hids. by exists n.
  - intros i. by rewrite Hrep, Hids.
Qed.

