(* ===== verification/Sim.v ===== *)
(** * The deterministic simulator (crates/localpilot-taskgraph/src/sim.rs)

    Runs a whole plan against a stub worker.  The worker is the source's
    [SimExecutor] trait: a function of the assignment and the plan that threads
    its own state, since the trait's method takes [&mut self]. *)

From stdpp Require Import base gmap list sorting strings pretty numbers.
From S2P Require Import Prelude RustStr Artifact Plan Batch PlanOps Schedule PlanWf PlanSafe.
From S2P Require Import PlanProps PlanShape.
#[local] Open Scope string_scope.

Inductive SimAction :=
  | SimComplete (a : HandoffArtifact)
  | SimExpand (specs : list NodeSpec)
  | SimInject (specs : list NodeSpec)
  | SimFail (reason : string)
  | SimVanish.

Class SimExecutor (W : Type) := execute : Assignment → TaskPlan → W → SimAction * W.

Record SimConfig := mkSimConfig {
  concurrency : nat;
  max_rounds : nat;
  reclaim_limit : N;
}.
Definition SimConfig_default : SimConfig := mkSimConfig 4 256 2.

Inductive SimEvent :=
  | EvDispatched (round : nat) (i : NodeId) (who : ActorId)
  | EvCompleted (i : NodeId)
  | EvExpanded (i : NodeId) (kids : list NodeId)
  | EvInjected (i : NodeId) (added : list NodeId)
  | EvFailed (i : NodeId)
  | EvSalvaged (i : NodeId) (outcome : Salvage)
  | EvAbandoned (i : NodeId)
  | EvRefused (i : NodeId) (error : PlanError).

Record SimReport := mkReport {
  events : list SimEvent;
  rounds : nat;
  settled : bool;
  exhausted : bool;
  report_progress : PlanProgress;
}.

Definition dispatch_order (r : SimReport) : list NodeId :=
  omap (λ e, match e with EvDispatched _ i _ => Some i | _ => None end) (events r).
Definition refusals (r : SimReport) : list PlanError :=
  omap (λ e, match e with EvRefused _ e => Some e | _ => None end) (events r).

(** [apply]: what one worker's action does to the plan, and the event. *)
Definition apply_action (p : TaskPlan) (a : Assignment) (action : SimAction)
    (limit : N) : TaskPlan * SimEvent :=
  let i := as_node a in
  let actor := as_assignee a in
  match action with
  | SimComplete artifact =>
      let '(p, r) := complete_node p i actor artifact in
      (p, match r with Ok _ => EvCompleted i | Err e => EvRefused i e end)
  | SimExpand specs =>
      let '(p, r) := expand_node p i actor specs in
      (p, match r with Ok x => EvExpanded i (children x) | Err e => EvRefused i e end)
  | SimInject specs =>
      let '(p, r) := inject_from_gate p i actor specs in
      (p, match r with Ok added => EvInjected i added | Err e => EvRefused i e end)
  | SimFail reason =>
      let '(p, r) := fail_node p i actor reason in
      (p, match r with Ok _ => EvFailed i | Err e => EvRefused i e end)
  | SimVanish =>
      let '(p, r) := salvage_assignment p i limit in
      (p, match r with Ok o => EvSalvaged i o | Err e => EvRefused i e end)
  end.

Definition worker_id (slot : nat) : ActorId :=
  mkActor ("worker-" +:+ show_N (N.of_nat slot)).

(** Dispatching the round's frontier, slot by slot. *)
Fixpoint dispatch_frontier (p : TaskPlan) (round slot : nat) (frontier : list NodeId)
  : TaskPlan * list Assignment * list SimEvent :=
  match frontier with
  | [] => (p, [], [])
  | i :: frontier =>
      let who := worker_id slot in
      let '(p, r) := dispatch p i who in
      let '(p, rest, evs) := dispatch_frontier p round (S slot) frontier in
      match r with
      | Ok a => (p, a :: rest, EvDispatched round i who :: evs)
      | Err e => (p, rest, EvRefused i e :: evs)
      end
  end.

Section executor.
Context {W : Type} `{SimExecutor W}.

Fixpoint run_assignments (p : TaskPlan) (s : W) (limit : N) (todo : list Assignment)
  : TaskPlan * W * list SimEvent :=
  match todo with
  | [] => (p, s, [])
  | a :: todo =>
      let '(action, s) := execute a p s in
      let '(p, ev) := apply_action p a action limit in
      let '(p, s, evs) := run_assignments p s limit todo in
      (p, s, ev :: evs)
  end.

(** The [while round < max_rounds] loop; [budget] is what remains of it. *)
Fixpoint sim_loop (c : SimConfig) (budget : nat) (p : TaskPlan) (s : W) (round : nat)
    (evs : list SimEvent) : TaskPlan * W * nat * list SimEvent :=
  match budget with
  | O => (p, s, round, evs)
  | S budget =>
      let '(p, dropped) := cascade_blocked p in
      let evs := (evs ++ (EvAbandoned <$> dropped))%list in
      match take (Nat.max (concurrency c) 1) (ready_nodes p) with
      | [] => (p, s, round, evs)
      | frontier =>
          let round := S round in
          let '(p, todo, evs1) := dispatch_frontier p round 0 frontier in
          let '(p, s, evs2) := run_assignments p s (reclaim_limit c) todo in
          sim_loop c budget p s round (evs ++ evs1 ++ evs2)%list
      end
  end.

Definition simulate (p : TaskPlan) (s : W) (c : SimConfig) : TaskPlan * W * SimReport :=
  let '(p, s, round, evs) := sim_loop c (max_rounds c) p s 0 [] in
  let '(p, dropped) := cascade_blocked p in
  (p, s, mkReport (evs ++ (EvAbandoned <$> dropped))%list round (is_settled p)
           (max_rounds c <=? round)%nat (progress p)).
End executor.

(** ** The simulator settles the plan it runs

    The round loop keeps the plan coherent, and when it neither ran out of
    rounds nor met a refusal, every task of the plan has ended. *)

#[local] Open Scope nat_scope.

Definition in_flight (p : TaskPlan) (j : NodeId) : Prop :=
  ∃ n, nodes p !! j = Some n ∧ assignee n ≠ None.

(** An operation that ends the flight of [i] and starts no other. *)
Definition lands (p p' : TaskPlan) (i : NodeId) : Prop :=
  ∀ j, in_flight p' j → in_flight p j ∧ j ≠ i.

Lemma lands_update p i f n :
  nodes p !! i = Some n → assignee (f n) = None →
  lands p (bump_version (update_node p i f)) i.
Proof.
  intros Hn Ha j (m & Hm & Hma).
  change (nodes (bump_version ?q)) with (nodes q) in Hm.
  rewrite update_node_lookup in Hm. case_decide as Hij.
  - subst j. rewrite Hn in Hm. by simplify_eq/=.
  - split; [by exists m|done].
Qed.

Lemma lands_grown p specs p2 created g i n f :
  wf p → nodes p !! i = Some n → grown p specs (upstream n) p2 created g →
  status (f n) = Pending → lands p (bump_version (update_node p2 i f)) i.
Proof.
  intros Hwf Hn Hgr Hf j Hj.
  pose proof (nw_range _ _ _ _ _ (wf_nodes p Hwf i n Hn)) as [_ Hlt].
  assert (Hn2 : nodes p2 !! i = Some n) by by rewrite (gr_old _ _ _ _ _ _ Hgr).
  apply (lands_update p2 i f n Hn2) in Hj as [(m & Hm & Ha) Hij]; cycle 1.
  { unfold assignee. by rewrite Hf. }
  split; [|done]. destruct (N.lt_ge_cases j (next_id p)) as [Hlow|Hge].
  - exists m. by rewrite <-(gr_old _ _ _ _ _ _ Hgr).
  - pose proof (gr_pending _ _ _ _ _ _ Hgr j m Hge Hm) as Hs.
    unfold assignee in Ha. by rewrite Hs in Ha.
Qed.

Lemma deep_gate_next p own t pr over p2 g :
  deep_gate p own t pr over = (p2, g) → room p 1 →
  (next_id p2 <= next_id p + 1)%N.
Proof.
  unfold deep_gate, append_gate. intros Hd Hr.
  pose proof (insert_next p (gate t pr) own over Hr) as Hx. unfold nth_id in Hx.
  destruct (is_deep (mode p)); [|by injection Hd as <- _; lia].
  destruct (insert p (gate t pr) own over) as [q h]. injection Hd as <- _.
  simpl in Hx. lia.
Qed.

(** Both growing operations, seen by a driver. *)
Definition grows (p p' : TaskPlan) (i : NodeId) (specs : list NodeSpec) : Prop :=
  lands p p' i ∧ (next_id p' <= next_id p + N.of_nat (S (length specs)))%N.

Lemma expand_grows p i actor specs p' e :
  wf p → room p (S (length specs)) → expand_node p i actor specs = (p', Ok e) →
  grows p p' i specs.
Proof.
  intros Hwf Hroom. unfold expand_node.
  destruct (require_mutable p i actor) as [n|] eqn:Hm; [|done].
  case_bool_decide; [done|].
  destruct (validate_batch specs) as [[]|] eqn:Hv; [|done].
  destruct (insert_batch p actor specs (upstream n)) as [p1 created] eqn:Hib.
  destruct (deep_gate p1 actor _ _ created) as [p2 g] eqn:Hdg.
  destruct (ensure_no_cycles _ _ _); [|done]. intros [= <- <-].
  assert (Hgr : grown p specs (upstream n) p2 created g).
  { eapply grown_gated; [done..| |exact Hib|exact Hdg]. by eapply require_mutable_inh. }
  apply require_mutable_Ok in Hm as (Hn & _). split; [by eapply lands_grown|].
  pose proof Hv as [Hr Hg]%validate_batch_Ok.
  pose proof (insert_batch_next p actor specs (upstream n) Hwf
    ltac:(unfold room in *; lia) Hr Hg) as Hx.
  rewrite Hib in Hx. unfold nth_id in Hx. cbn [fst] in Hx.
  pose proof (deep_gate_next _ _ _ _ _ _ _ Hdg ltac:(unfold room in *; lia)).
  simpl. lia.
Qed.

Lemma inject_grows p i actor specs p' l :
  wf p → room p (S (length specs)) → inject_from_gate p i actor specs = (p', Ok l) →
  grows p p' i specs.
Proof.
  intros Hwf Hroom. unfold inject_from_gate.
  destruct (require_mutable p i actor) as [n|] eqn:Hm; [|done].
  case_bool_decide; [done|]. case_bool_decide; [done|].
  destruct (validate_batch specs) as [[]|] eqn:Hv; [|done].
  apply validate_batch_Ok in Hv as [Hr Hg].
  assert (Hroom' : room p (length specs)) by (unfold room in *; lia).
  pose proof (require_mutable_inh p i actor n Hwf Hm) as Hinh.
  pose proof (grown_batch p actor specs (upstream n) Hwf Hroom' Hr Hg Hinh) as Hgr.
  pose proof (insert_batch_next p actor specs (upstream n) Hwf Hroom' Hr Hg) as Hx.
  destruct (insert_batch p actor specs (upstream n)) as [p1 created]. cbn [fst snd] in *.
  destruct (ensure_no_cycles _ _ _); [|done]. intros [= <- <-].
  apply require_mutable_Ok in Hm as (Hn & _). split; [by eapply lands_grown|].
  unfold nth_id in Hx. simpl. lia.
Qed.

(** Operations that end a flight by a plain change of status. *)
Definition ends (p p' : TaskPlan) (i : NodeId) : Prop :=
  lands p p' i ∧ next_id p' = next_id p.

Lemma ends_update p i f n :
  nodes p !! i = Some n → assignee (f n) = None →
  ends p (bump_version (update_node p i f)) i.
Proof. intros Hn Ha. split; [by eapply lands_update|done]. Qed.

Lemma complete_ends p i actor a p' u :
  complete_node p i actor a = (p', Ok u) → ends p p' i.
Proof.
  unfold complete_node, node. destruct (nodes p !! i) as [n|] eqn:Hn; [|done]. simpl.
  destruct (is_terminal n); [done|]. destruct (assignee n); [|done].
  case_decide; [|done]. destruct (validate_artifact _ _ _ _); [|done].
  intros [= <- _]. by eapply ends_update.
Qed.

Lemma fail_ends p i actor reason p' u :
  fail_node p i actor reason = (p', Ok u) → ends p p' i.
Proof.
  unfold fail_node. destruct (require_mutable p i actor) as [n|] eqn:Hm; [|done].
  intros [= <- _]. apply require_mutable_Ok in Hm as (Hn & _). by eapply ends_update.
Qed.

Lemma salvage_ends p i limit p' o :
  salvage_assignment p i limit = (p', Ok o) → ends p p' i.
Proof.
  unfold salvage_assignment, node. destruct (nodes p !! i) as [n|] eqn:Hn; [|done]. simpl.
  destruct (is_terminal n); [done|]. intros [= <- _].
  eapply ends_update; [done|]. by destruct (salvage_outcome _ _).
Qed.

Definition action_size (action : SimAction) : nat :=
  match action with SimExpand specs | SimInject specs => length specs | _ => 0 end.

(** What a driver's step guarantees: coherence, no finished task undone, and at
    most [k] new ids. *)
Record advanced (p p' : TaskPlan) (k : nat) : Prop := {
  ad_wf : wf p';
  ad_frozen : frozen p p';
  ad_next : (next_id p' <= next_id p + N.of_nat k)%N;
}.

Lemma advanced_refl p : wf p → advanced p p 0.
Proof. intros. split; [done|done|lia]. Qed.

Lemma advanced_trans p q r k l :
  advanced p q k → advanced q r l → advanced p r (k + l).
Proof. intros [] []. split; [done|by etrans|lia]. Qed.

Lemma advanced_op {A} p (r : TaskPlan * result A PlanError) k :
  op_sound p r → (next_id (fst r) <= next_id p + N.of_nat k)%N → advanced p (fst r) k.
Proof. intros [] ?. by split. Qed.

Lemma refused_next {A} p p' (e : PlanError) k :
  op_sound (A:=A) p (p', Err e) → p' = p ∧ (next_id p' <= next_id p + N.of_nat k)%N.
Proof. intros [_ _ Heff]. simpl in Heff. subst p'. split; [done|lia]. Qed.

Definition is_refusal (e : SimEvent) : bool :=
  match e with EvRefused _ _ => true | _ => false end.

Lemma apply_action_sound p a action limit B p' ev :
  wf p → room p (S B) → action_size action ≤ B →
  apply_action p a action limit = (p', ev) →
  advanced p p' (S B) ∧ (is_refusal ev = false → lands p p' (as_node a)) ∧
  (is_refusal ev = true → p' = p).
Proof.
  intros Hwf Hroom Hsize.
  assert (Hfin : ∀ A (r : TaskPlan * result A PlanError) (f : A → SimEvent),
    op_sound p r → (∀ x, is_refusal (f x) = false) →
    (∀ q x, r = (q, Ok x) → lands p q (as_node a) ∧
       (next_id q <= next_id p + N.of_nat (S B))%N) →
    (let '(q, r) := r in
     (q, match r with Ok x => f x | Err e => EvRefused (as_node a) e end)) = (p', ev) →
    advanced p p' (S B) ∧ (is_refusal ev = false → lands p p' (as_node a)) ∧
    (is_refusal ev = true → p' = p)).
  { intros A [q [x|e]] f Hop Hf Hok [= <- <-].
    - destruct (Hok q x eq_refl) as [Hl Hx].
      split_and!; [by apply (advanced_op p (q, Ok x))|done|by rewrite Hf].
    - destruct (refused_next p q e (S B) Hop) as [-> Hx].
      split_and!; [by apply (advanced_op p (p, Err e : result A _))|done|done]. }
  assert (Hends : ∀ q, ends p q (as_node a) → lands p q (as_node a) ∧
            (next_id q <= next_id p + N.of_nat (S B))%N).
  { intros q [? ->]. split; [done|lia]. }
  destruct action as [h|specs|specs|reason|]; simpl in Hsize |- *.
  - apply (Hfin _ (complete_node p _ _ h) (λ _, EvCompleted _)); [|done|].
    + by apply complete_node_sound.
    + intros. eapply Hends, complete_ends; eassumption.
  - apply (Hfin _ (expand_node p _ _ specs) (λ x, EvExpanded _ (children x))); [|done|].
    + apply expand_node_sound; [done|unfold room in *; lia].
    + intros q x Hq.
      assert (Hr : room p (S (length specs))) by (unfold room in *; lia).
      destruct (expand_grows _ _ _ _ _ _ Hwf Hr Hq).
      split; [done|lia].
  - apply (Hfin _ (inject_from_gate p _ _ specs) (EvInjected _)); [|done|].
    + apply inject_from_gate_sound; [done|unfold room in *; lia].
    + intros q x Hq.
      assert (Hr : room p (S (length specs))) by (unfold room in *; lia).
      destruct (inject_grows _ _ _ _ _ _ Hwf Hr Hq).
      split; [done|lia].
  - apply (Hfin _ (fail_node p _ _ reason) (λ _, EvFailed _)); [|done|].
    + by apply fail_node_sound.
    + intros. eapply Hends, fail_ends; eassumption.
  - apply (Hfin _ (salvage_assignment p _ limit) (EvSalvaged _)); [|done|].
    + by apply salvage_assignment_sound.
    + intros. eapply Hends, salvage_ends; eassumption.
Qed.

(** ** One round *)

Lemma dispatch_flight p i who p' r :
  dispatch p i who = (p', r) → wf p →
  advanced p p' 0 ∧ (∀ e, r = Err e → p' = p) ∧
  (∀ a j, r = Ok a → in_flight p' j → as_node a = i ∧ (in_flight p j ∨ j = i)).
Proof.
  intros Hd Hwf. pose proof (dispatch_sound p i who Hwf) as Hop. rewrite Hd in Hop.
  destruct r as [a|e]; cycle 1.
  { destruct (refused_next p p' e 0 Hop) as [-> _].
    split_and!; [by apply advanced_refl|done|done]. }
  destruct (node p i) as [n|] eqn:Hn; cycle 1.
  { unfold dispatch, readiness in Hd. by rewrite Hn in Hd. }
  pose proof (dispatch_outcome p i who n Hn) as Hout. rewrite Hd in Hout.
  destruct Hout as (_ & _ & Hp' & Hi & _). simpl in Hp'. subst p'.
  split_and!; [|done|].
  - by apply (advanced_op p (_, Ok a) 0 Hop); simpl; lia.
  - intros ? j [= <-] (m & Hm & Ha). split; [done|].
    change (nodes (bump_version ?q)) with (nodes q) in Hm.
    rewrite update_node_lookup in Hm. case_decide; [by right|]. left. by exists m.
Qed.

Lemma dispatch_frontier_spec p round slot frontier :
  wf p →
  let '(p', todo, evs) := dispatch_frontier p round slot frontier in
  advanced p p' 0 ∧ length todo ≤ length frontier ∧
  (existsb is_refusal evs = false →
   ∀ j, in_flight p' j → in_flight p j ∨ ∃ a, a ∈ todo ∧ as_node a = j).
Proof.
  revert p slot. induction frontier as [|i frontier IH]; intros p slot Hwf;
    cbn [dispatch_frontier].
  { split_and!; [by apply advanced_refl|done|by left]. }
  destruct (dispatch p i (worker_id slot)) as [p1 r] eqn:Hd.
  destruct (dispatch_flight _ _ _ _ _ Hd Hwf) as (Hadv & Herr & Hok).
  specialize (IH p1 (S slot) (ad_wf _ _ _ Hadv)).
  destruct (dispatch_frontier p1 round (S slot) frontier) as [[p2 rest] evs].
  destruct IH as (Hadv2 & Hlen & Hfl).
  pose proof (advanced_trans _ _ _ _ _ Hadv Hadv2) as Hadv'.
  destruct r as [a|e]; (split_and!; [done|simpl; lia|]); simpl; [|done].
  intros Hnr j Hj. destruct (Hfl Hnr j Hj) as [Hj1|(b & Hb & <-)].
  - destruct (Hok a j eq_refl Hj1) as [Ha [?| ->]]; [by left|].
    right. exists a. split; [by left|done].
  - right. exists b. split; [by right|done].
Qed.

Lemma abandon_wave_next p wave abandoned :
  next_id (fst (abandon_wave p wave abandoned)) = next_id p.
Proof.
  revert p abandoned. induction wave as [|i wave IH]; intros p abandoned; simpl; [done|].
  destruct (readiness p i) as [[]|]; rewrite IH; done.
Qed.

Lemma cascade_loop_next fuel p abandoned p' l :
  cascade_loop fuel p abandoned = Some (p', l) → next_id p' = next_id p.
Proof.
  revert p abandoned. induction fuel as [|fuel IH]; intros p abandoned; [done|].
  cbn [cascade_loop]. destruct (blocked_nodes p) as [|i wave].
  { by intros [= <- _]. }
  pose proof (abandon_wave_next p (i :: wave) abandoned) as Hw.
  destruct (abandon_wave p (i :: wave) abandoned) as [p1 l1].
  intros ->%IH. exact Hw.
Qed.

Lemma cascade_next p : next_id (fst (cascade_blocked p)) = next_id p.
Proof.
  unfold cascade_blocked. destruct (cascade_loop _ p []) as [[p' l]|] eqn:Hc; [|done].
  by apply cascade_loop_next in Hc.
Qed.

Section driver.
Context {W : Type} `{SimExecutor W} (B : nat).
Context (Hbound : ∀ a p (s : W), action_size (fst (execute a p s)) ≤ B).

Lemma room_advanced p p' k l : advanced p p' k → room p (k + l) → room p' l.
Proof using. intros [_ _ Hn] Hr. unfold room in *. lia. Qed.

Lemma run_assignments_spec p s limit todo :
  wf p → room p (length todo * S B) →
  let '(p', _, evs) := run_assignments p s limit todo in
  advanced p p' (length todo * S B) ∧
  (existsb is_refusal evs = false →
   (∀ j, in_flight p j → ∃ a, a ∈ todo ∧ as_node a = j) → ∀ j, ¬ in_flight p' j).
Proof using Hbound.
  revert p s. induction todo as [|a todo IH]; intros p s Hwf Hroom; cbn [run_assignments].
  { split; [by apply advanced_refl|]. intros _ Hfl j Hj.
    destruct (Hfl j Hj) as (a & Ha & _). by apply not_elem_of_nil in Ha. }
  destruct (execute a p s) as [action s1] eqn:Hx.
  destruct (apply_action p a action limit) as [p1 ev] eqn:Ha.
  destruct (apply_action_sound p a action limit B p1 ev Hwf) as (Hadv & Hl & _);
    [cbn [length] in Hroom; unfold room in *; lia| |done|].
  { specialize (Hbound a p s). by rewrite Hx in Hbound. }
  specialize (IH p1 s1 (ad_wf _ _ _ Hadv)).
  destruct (run_assignments p1 s1 limit todo) as [[p2 s2] evs].
  destruct IH as [Hadv2 Hfl2]; [eapply room_advanced; [exact Hadv|done]|].
  split; [exact (advanced_trans _ _ _ _ _ Hadv Hadv2)|].
  simpl. intros [Hev Hevs]%orb_false_iff Hfl. apply (Hfl2 Hevs).
  intros j Hj. destruct (Hl Hev j Hj) as [Hj1 Hne].
  destruct (Hfl j Hj1) as (b & [->|Hb]%elem_of_cons & <-); [done|by exists b].
Qed.

(** Everything the loop still has to offer has been used up. *)
Definition quiescent (p : TaskPlan) : Prop :=
  (∀ j, ¬ in_flight p j) ∧ ready_nodes p = [] ∧ blocked_nodes p = [].

Lemma cascade_lands p :
  wf p → let '(p', _) := cascade_blocked p in
  advanced p p' 0 ∧ blocked_nodes p' = [] ∧ ∀ j, in_flight p' j → in_flight p j.
Proof using.
  intros Hwf. destruct (cascade_blocked_sound p Hwf) as (Hwf' & Hfz & Hdom & Hb).
  pose proof (cascade_blocked_settles p Hwf) as (_ & _ & Hsw).
  pose proof (cascade_next p) as Hnx.
  destruct (cascade_blocked p) as [p' l]. cbn [fst snd] in *.
  split_and!; [split; [done|done|lia]|done|].
  intros j (m & Hm & Ha). destruct (Hsw j) as [Heq|(n & reason & _ & _ & Hj & _)].
  - exists m. by rewrite <-Heq.
  - rewrite Hj in Hm. by simplify_eq/=.
Qed.

Definition width (c : SimConfig) : nat := Nat.max (concurrency c) 1.

(** One round of the loop, from the frontier on. *)
Lemma round_spec c p (s : W) round frontier :
  wf p → length frontier ≤ width c → room p (width c * S B) →
  let '(p1, todo, evs1) := dispatch_frontier p round 0 frontier in
  let '(p2, _, evs2) := run_assignments p1 s (reclaim_limit c) todo in
  advanced p p2 (width c * S B) ∧
  (existsb is_refusal (evs1 ++ evs2) = false →
   (∀ j, ¬ in_flight p j) → ∀ j, ¬ in_flight p2 j).
Proof using Hbound.
  intros Hwf Hlen Hroom. pose proof (dispatch_frontier_spec p round 0 frontier Hwf) as Hd.
  destruct (dispatch_frontier p round 0 frontier) as [[p1 todo] evs1].
  destruct Hd as (Hadv & Htodo & Hfl).
  assert (Hmul : length todo * S B ≤ width c * S B) by (apply Nat.mul_le_mono_r; lia).
  pose proof (run_assignments_spec p1 s (reclaim_limit c) todo (ad_wf _ _ _ Hadv)) as Hr.
  destruct (run_assignments p1 s (reclaim_limit c) todo) as [[p2 s2] evs2].
  destruct Hr as [Hadv2 Hfl2].
  { destruct Hadv as [_ _ Hn]. unfold room in *. lia. }
  split.
  - destruct (advanced_trans _ _ _ _ _ Hadv Hadv2) as [? ? Hn]. split; [done|done|lia].
  - rewrite existsb_app. intros [He1 He2]%orb_false_iff Hidle.
    apply (Hfl2 He2). intros j Hj. destruct (Hfl He1 j Hj) as [Hj0|]; [|done].
    by destruct (Hidle j).
Qed.

Lemma sim_loop_spec c budget p (s : W) round evs :
  wf p → room p (budget * (width c * S B)) →
  let '(p', _, round', evs') := sim_loop c budget p s round evs in
  advanced p p' (budget * (width c * S B)) ∧ round' ≤ round + budget ∧
  (existsb is_refusal evs = true → existsb is_refusal evs' = true) ∧
  (existsb is_refusal evs' = false → (∀ j, ¬ in_flight p j) →
   round' < round + budget → quiescent p').
Proof using Hbound.
  revert p s round evs. induction budget as [|budget IH]; intros p s round evs Hwf Hroom;
    cbn [sim_loop].
  { split_and!; [by apply advanced_refl|lia|done|intros; lia]. }
  pose proof (cascade_lands p Hwf) as Hc.
  destruct (cascade_blocked p) as [p0 dropped]. destruct Hc as (Hadv0 & Hb0 & Hfl0).
  assert (Hquiet : existsb is_refusal (EvAbandoned <$> dropped) = false)
    by (by induction dropped).
  fold (width c).
  destruct (take (width c) (ready_nodes p0)) as [|i frontier] eqn:Hf.
  { split_and!; [|lia| |].
    - destruct Hadv0. split; [done|done|lia].
    - rewrite existsb_app. intros ->. done.
    - intros _ Hidle _. split_and!; [|by destruct (ready_nodes p0), (width c) eqn:?;
        unfold width in *; simplify_eq/=; try lia|done].
      intros j Hj. by apply (Hidle j), Hfl0. }
  assert (Hlen : length (i :: frontier) ≤ width c) by (rewrite <-Hf, length_take; lia).
  assert (Hroom0 : room p0 (width c * S B + budget * (width c * S B))).
  { destruct Hadv0 as [_ _ Hn]. unfold room in *. lia. }
  pose proof (round_spec c p0 s (S round) (i :: frontier) (ad_wf _ _ _ Hadv0) Hlen) as Hr.
  destruct (dispatch_frontier p0 (S round) 0 (i :: frontier)) as [[p1 todo] evs1].
  destruct (run_assignments p1 s (reclaim_limit c) todo) as [[p2 s2] evs2].
  destruct Hr as [Hadv2 Hfl2]; [unfold room in *; lia|].
  specialize (IH p2 s2 (S round) ((evs ++ (EvAbandoned <$> dropped)) ++ evs1 ++ evs2)%list
    (ad_wf _ _ _ Hadv2)).
  destruct (sim_loop c budget p2 s2 (S round) _) as [[[p' s'] round'] evs'].
  destruct IH as (Hadv' & Hle & Hmono & Hq); [by eapply room_advanced|].
  split_and!.
  - destruct (advanced_trans _ _ _ _ _ Hadv0 (advanced_trans _ _ _ _ _ Hadv2 Hadv'))
      as [? ? Hn]. split; [done|done|lia].
  - lia.
  - intros He. apply Hmono. rewrite !existsb_app, He. done.
  - intros He Hidle Hlt. apply Hq; [done| |lia].
    apply Hfl2; [|intros j Hj; by apply (Hidle j), Hfl0].
    destruct (existsb is_refusal (evs1 ++ evs2)) eqn:Hev; [|done].
    rewrite Hmono in He; [done|]. by rewrite existsb_app, Hev, orb_true_r.
Qed.
End driver.

Lemma cascade_still p : wf p → blocked_nodes p = [] → cascade_blocked p = (p, []).
Proof.
  intros _ Hb. unfold cascade_blocked, cascade_fuel. cbn [cascade_loop]. by rewrite Hb.
Qed.

Lemma refusals_nil r : refusals r = [] → existsb is_refusal (events r) = false.
Proof.
  unfold refusals. induction (events r) as [|e evs IH]; [done|].
  destruct e; simpl; try done; exact IH.
Qed.

Lemma idle_flight p :
  wf p → Forall (λ n, assignee n = None) (node_list p) ↔ ∀ j, ¬ in_flight p j.
Proof.
  intros Hwf. rewrite list.Forall_forall. split.
  - intros Hall j (n & Hn & Ha). apply Ha, Hall, elem_of_btree_values. by exists j.
  - intros Hno n [j Hj]%elem_of_btree_values.
    destruct (assignee n) eqn:Ha; [|done]. destruct (Hno j). exists n.
    split; [done|by rewrite Ha].
Qed.

(** A simulated run never corrupts the plan, never undoes a finished task
    and stays within its rounds; if it neither used up the rounds nor met a
    refusal, every task of the plan has ended. *)
Theorem simulate_settles `{SimExecutor W} B p (s : W) c :
  (∀ a q t, action_size (fst (execute a q t)) ≤ B) →
  wf p → room p (max_rounds c * (width c * S B)) →
  Forall (λ n, assignee n = None) (node_list p) →
  let '(p', _, report) := simulate p s c in
  wf p' ∧ frozen p p' ∧ rounds report ≤ max_rounds c ∧
  (exhausted report = false → refusals report = [] → settled report = true) ∧
  settled report = is_settled p'.
Proof.
  intros Hbound Hwf Hroom Hidle. rewrite idle_flight in Hidle by done. unfold simulate.
  pose proof (sim_loop_spec B Hbound c (max_rounds c) p s 0 [] Hwf Hroom) as Hl.
  destruct (sim_loop c (max_rounds c) p s 0 []) as [[[p1 s1] round] evs].
  destruct Hl as (Hadv & Hle & _ & Hq).
  pose proof (cascade_lands p1 (ad_wf _ _ _ Hadv)) as Hc.
  destruct (cascade_blocked p1) as [p' dropped] eqn:Hcb. destruct Hc as (Hadv' & _ & _).
  cbn [rounds exhausted settled]. split_and!; [by apply Hadv'| |done| |done].
  - etrans; [by apply Hadv|by apply Hadv'].
  - intros Hex Href. apply refusals_nil in Href. cbn [events] in Href.
    rewrite existsb_app in Href. apply orb_false_iff in Href as [Hevs _].
    apply Nat.leb_gt in Hex.
    destruct (Hq Hevs Hidle ltac:(lia)) as (Hidle1 & Hready & Hblocked).
    rewrite (cascade_still p1 (ad_wf _ _ _ Hadv) Hblocked) in Hcb. injection Hcb as <- _.
    apply no_deadlock; [by apply Hadv|by apply idle_flight; [apply Hadv|]|done|done].
Qed.

(** A worker that reports every task it is given. *)
#[local] Instance honest : SimExecutor unit := λ _ _ t, (SimComplete done_report, t).

Lemma simulate_settles_witness :
  settled (snd (simulate demo1 () SimConfig_default)) = true ∧
  refusals (snd (simulate demo1 () SimConfig_default)) = [].
Proof.
  assert (Hroom : room demo1 (max_rounds SimConfig_default * (width SimConfig_default * 1)))
    by by vm_compute.
  assert (Hidle : Forall (λ n, assignee n = None) (node_list demo1))
    by (vm_compute; by repeat constructor).
  assert (Hrep : exhausted (snd (simulate demo1 () SimConfig_default)) = false ∧
                 refusals (snd (simulate demo1 () SimConfig_default)) = []).
  { split; by vm_compute. }
  pose proof (simulate_settles 0 demo1 () SimConfig_default
    (λ _ _ _, le_n 0) demo1_wf Hroom Hidle) as Hsim.
  destruct (simulate demo1 () SimConfig_default) as [[p' t] report]. cbn [snd] in *.
  destruct Hrep as [Hex Href]. split; [|done]. by apply Hsim.
Defined.
