(* ===== verification/ArtifactProps.v ===== *)
(** * Reading a confidence, accepting a report

    What the lenient reader of [Artifact] does on the forms it documents and
    on the ones it does not, and exactly which reports end a task. *)

From Stdlib Require Import SpecFloat.
From stdpp Require Import base gmap list strings pretty numbers.
From S2P Require Import Prelude RustStr F32 Artifact Plan Batch PlanOps PlanWf PlanProps.
#[local] Open Scope string_scope.

(** ** Confidence *)

Definition in_unit (c : Confidence) : Prop :=
  f32_leb f32_0 (conf_value c) = true ∧ f32_leb (conf_value c) f32_1 = true.

Lemma Confidence_new_range v :
  if f32_is_nan v then f32_is_nan (conf_value (Confidence_new v)) = true
  else in_unit (Confidence_new v).
Proof.
  destruct (f32_is_nan v) eqn:Hv.
  - by destruct v.
  - unfold in_unit. apply f32_clamp_range; [done|by vm_compute..].
Qed.

(** Every value the reader makes goes through [Confidence_new]. *)
Definition clamped (c : Confidence) : Prop := ∃ v, c = Confidence_new v.

Lemma first_some_inv {A B} (f : A → option B) l y :
  first_some f l = Some y → ∃ x, x ∈ l ∧ f x = Some y.
Proof.
  induction l as [|x l IH]; simpl; [done|].
  destruct (f x) eqn:Hf.
  - intros [= <-]. exists x. split; [left|done].
  - intros (z & Hz & ?)%IH. exists z. split; [by right|done].
Qed.

Lemma read_numeric_clamped token c : read_numeric token = Some c → clamped c.
Proof. unfold read_numeric. intros Hr. crush_cases; by eexists. Qed.

Lemma parse_confidence_clamped raw c : parse_confidence raw = Ok c → clamped c.
Proof.
  unfold parse_confidence. case_bool_decide; [done|]. cbv zeta.
  destruct (first_some _ WORD_SCALE) eqn:Hw.
  { intros [= <-]. apply first_some_inv in Hw as ([needle v] & _ & Hw).
    destruct (contains _ _); [|done]. injection Hw as <-. by exists v. }
  destruct (if has_char _ _ then _ else _) eqn:Hf.
  { intros [= <-]. destruct (has_char _ _); [|done]. by eapply read_numeric_clamped. }
  destruct (first_some read_numeric _) eqn:Ht; [|done].
  intros [= <-]. apply first_some_inv in Ht as (tok & _ & Ht).
  by eapply read_numeric_clamped.
Qed.

(** Whatever text or number a report carries, the confidence it is read as
    lies between 0 and 1, or is not a number, in which case it meets no floor
    at all. *)
Theorem confidence_in_range r c :
  deserialize_confidence r = Ok c →
  in_unit c ∨ ∀ floor, at_least c floor = false.
Proof.
  intros Hr. assert (Hc : clamped c).
  { destruct r; simpl in Hr; [by injection Hr as <-; eexists|].
    by eapply parse_confidence_clamped. }
  destruct Hc as [v ->]. pose proof (Confidence_new_range v) as Hv.
  destruct (f32_is_nan v); [|by left]. right. intros floor.
  unfold at_least, f32_leb, SFleb.
  destruct (conf_value (Confidence_new v)); try done.
  by destruct (conf_value floor) as [[]|[]| |[]].
Qed.

Lemma confidence_in_range_witness :
  in_unit (Confidence_new (lit 7 (-1))) ∨
  ∀ floor, at_least (Confidence_new (lit 7 (-1))) floor = false.
Proof.
  assert (Hr : deserialize_confidence (RawText "about 7/10") =
               Ok (Confidence_new (lit 7 (-1)))) by by vm_compute.
  exact (confidence_in_range _ _ Hr).
Defined.

(** The decimal [k / d] as the reader computes it. *)
Definition ratio (k d : nat) : Confidence :=
  Confidence_new (f32_div (lit (N.of_nat k) 0) (lit (N.of_nat d) 0)).

Definition show_nat (k : nat) : string := show_N (N.of_nat k).

#[export] Instance spec_float_eq_dec : EqDecision spec_float.
Proof. solve_decision. Defined.

Definition reads_as (text : string) (c : Confidence) : bool :=
  match parse_confidence text with
  | Ok c' => bool_decide (conf_value c' = conf_value c)
  | Err _ => false
  end.

Definition documented_forms (k : nat) : bool :=
  reads_as (show_nat k +:+ "%") (ratio k 100) &&
  forallb (λ d, reads_as (show_nat k +:+ "/" +:+ show_nat d) (ratio k d) &&
                reads_as ("about " +:+ show_nat k +:+ " / " +:+ show_nat d +:+ ".") (ratio k d))
    (seq 1 10).

Lemma reads_as_eq text c : reads_as text c = true → parse_confidence text = Ok c.
Proof.
  unfold reads_as. destruct (parse_confidence text) as [c'|]; [|done].
  intros H%bool_decide_eq_true. destruct c, c'. simpl in H. by subst.
Qed.

Lemma documented_forms_all : forallb documented_forms (seq 0 101) = true.
Proof. by vm_compute. Qed.

(** The documented forms read as documented: up to 100, [k%] is k/100,
    and [k/d], also spaced out inside a sentence, is k/d for d from 1 to 10;
    every word of the scale reads as its own value. *)
Theorem parse_confidence_forms k :
  (k <= 100)%nat →
  parse_confidence (show_nat k +:+ "%") = Ok (ratio k 100) ∧
  (∀ d, (1 <= d <= 10)%nat →
     parse_confidence (show_nat k +:+ "/" +:+ show_nat d) = Ok (ratio k d) ∧
     parse_confidence ("about " +:+ show_nat k +:+ " / " +:+ show_nat d +:+ ".") =
       Ok (ratio k d)) ∧
  (∀ word value, (word, value) ∈ WORD_SCALE →
     parse_confidence word = Ok (Confidence_new value)).
Proof.
  intros Hk. pose proof documented_forms_all as Hall.
  rewrite List.forallb_forall in Hall.
  assert (Hkin : In k (seq 0 101)) by (apply in_seq; lia).
  specialize (Hall k Hkin). unfold documented_forms in Hall.
  apply andb_true_iff in Hall as [Hp Hd]. split_and!.
  - by apply reads_as_eq.
  - intros d Hdr. rewrite List.forallb_forall in Hd.
    assert (Hdin : In d (seq 1 10)) by (apply in_seq; lia).
    specialize (Hd d Hdin).
    apply andb_true_iff in Hd as [? ?]. split; by apply reads_as_eq.
  - intros word value Hin. apply reads_as_eq. unfold WORD_SCALE in Hin.
    repeat (apply elem_of_cons in Hin as [[= -> ->]|Hin]; [by vm_compute|]).
    by apply not_elem_of_nil in Hin.
Qed.

Lemma parse_confidence_forms_witness :
  parse_confidence "7/10" = Ok (ratio 7 10) ∧ parse_confidence "70%" = Ok (ratio 70 100).
Proof.
  split.
  - destruct (parse_confidence_forms 7 ltac:(lia)) as (_ & Hd & _). apply (Hd 10%nat). lia.
  - destruct (parse_confidence_forms 70 ltac:(lia)) as (Hp & _). exact Hp.
Defined.

(** Where the reader departs from what it documents: a fraction of two
    overflowing numbers is accepted as a confidence that is not a number and
    meets no floor; a word of the scale is found inside other words, so
    "uncertain" reads as full confidence; and a word anywhere beats an earlier
    number. *)
Theorem parse_confidence_departures :
  (parse_confidence "1e999/1e999" = Ok (mkConfidence S754_nan) ∧
   ∀ floor, at_least (mkConfidence S754_nan) floor = false) ∧
  parse_confidence "uncertain" = Ok Confidence_FULL ∧
  parse_confidence "7/10, slow" = Ok (Confidence_new (lit 25 (-2))) ∧
  parse_confidence "7/10, slow" ≠ parse_confidence "7/10".
Proof.
  split; [|split_and!; by vm_compute].
  split; [by vm_compute|]. intros floor. unfold at_least, f32_leb, SFleb. simpl.
  by destruct (conf_value floor) as [[]|[]| |[]].
Qed.

(** ** Accepting a report *)

(** What the plan asks of a finished task's report. *)
Definition acceptable (k : NodeKind) (m : PlanMode) (a : HandoffArtifact) : Prop :=
  is_blank (findings a) = false ∧
  (m = Deep → is_blank (what_i_did_not_check a) = false) ∧
  (k = Gate → is_blank (validation a) = false ∧
     ∃ e, e ∈ evidence a ∧ is_blank e = false).

Lemma validate_artifact_Ok i k m a :
  validate_artifact i k (is_deep m) a = Ok () ↔ acceptable k m a.
Proof.
  unfold validate_artifact, acceptable.
  destruct (is_blank (findings a)); [naive_solver|].
  assert (Hcited : existsb (λ e, negb (is_blank e)) (evidence a) = true ↔
                   ∃ e, e ∈ evidence a ∧ is_blank e = false).
  { rewrite existsb_exists. setoid_rewrite list_elem_of_In.
    by setoid_rewrite negb_true_iff. }
  rewrite <-Hcited.
  destruct m, k, (is_blank (what_i_did_not_check a)), (is_blank (validation a)),
    (existsb _ (evidence a)); simpl; naive_solver.
Qed.

(** A task is completed exactly by the worker it is assigned to, with a
    report that says what it found, in a deep plan what it left unchecked, and
    for a gate how it reviewed and what it cites; completion stores that very
    report and changes nothing else. *)
Theorem complete_node_exact p i actor a n :
  node p i = Some n →
  (is_ok (snd (complete_node p i actor a)) = true ↔
   status n = Assigned actor ∧ acceptable (kind n) (mode p) a) ∧
  (is_ok (snd (complete_node p i actor a)) = true →
   fst (complete_node p i actor a) =
   bump_version (update_node p i (λ n, set_artifact (Some a) (set_status Complete n)))).
Proof.
  intros Hn. unfold complete_node. rewrite Hn. simpl. unfold is_terminal, assignee.
  rewrite <-(validate_artifact_Ok i).
  destruct (status n); simpl; try (split; [split; [done|by intros [? _]]|done]).
  case_decide as Ha; [subst|split; [split; [done|by intros [[= ->] _]]|done]].
  destruct (validate_artifact _ _ _ a) as [[]|]; simpl; naive_solver.
Qed.

Lemma complete_node_exact_witness :
  ∃ n, node demo2 1%N = Some n ∧ status n = Assigned worker ∧
       acceptable (kind n) Light done_report.
Proof.
  destruct (node demo2 1%N) as [n|] eqn:Hn; [|by vm_compute in Hn].
  exists n. split; [done|].
  destruct (complete_node_exact demo2 1%N worker done_report n Hn) as [Hiff _].
  apply Hiff. by vm_compute.
Defined.
