(* ===== verification/RustPath.v ===== *)
(** * Unix paths as [std::path] sees them

    A [Path] is its bytes, a [string]; [components] is the normalised list the
    standard library compares, joins and splits by.  A [PathBuf] that is built
    from components is that list. *)

From Stdlib Require Import Ascii.
From stdpp Require Import base list strings.
From S2P Require Import Prelude RustStr.
#[local] Open Scope string_scope.

Inductive Component :=
  | RootDir
  | CurDir
  | ParentDir
  | Normal (name : string).
#[export] Instance Component_eq_dec : EqDecision Component.
Proof. solve_decision. Defined.

Abbreviation Path := (list Component).

(** The text between the separators; [cur] is the current piece, reversed. *)
Fixpoint split_slash (cur : string) (s : string) : list string :=
  match s with
  | EmptyString => [String.rev cur]
  | String a s =>
      if bool_decide (a = "/"%char) then String.rev cur :: split_slash "" s
      else split_slash (String a cur) s
  end.

(** Repeated separators and [.] vanish; [..] is kept. *)
Definition piece_component (piece : string) : option Component :=
  if bool_decide (piece = "") then None
  else if bool_decide (piece = ".") then None
  else if bool_decide (piece = "..") then Some ParentDir
  else Some (Normal piece).

Definition is_absolute (s : string) : bool := starts_with "/" s.

(** [Path::components]: a leading separator is the root; a leading [.] of a
    relative path is the one [.] that stays. *)
Definition components (s : string) : Path :=
  let pieces := split_slash "" s in
  let body := omap piece_component pieces in
  if is_absolute s then RootDir :: body
  else match pieces with
       | "." :: _ => CurDir :: body
       | _ => body
       end.

(** [Path::file_name]. *)
Definition file_name (p : Path) : option string :=
  match last p with Some (Normal name) => Some name | _ => None end.

(** [Path::parent]. *)
Definition parent (p : Path) : option Path :=
  match last p with
  | None | Some RootDir => None
  | Some _ => Some (removelast p)
  end.

(** [Path::starts_with] compares whole components. *)
Definition path_starts_with (p base : Path) : bool := bool_decide (base `prefix_of` p).

(** [Path::join] with a relative path. *)
Definition join_path (base rel : Path) : Path :=
  (base ++ match rel with CurDir :: rel => rel | _ => rel end)%list.

(** The name up to its last dot, and what follows; a name that starts with its
    only dot has no extension. *)
Fixpoint rsplit_dot (s : string) : option (string * string) :=
  match s with
  | EmptyString => None
  | String a s' =>
      match rsplit_dot s' with
      | Some (before, after) => Some (String a before, after)
      | None => if bool_decide (a = "."%char) then Some ("", s') else None
      end
  end.

Definition stem_of (name : string) : string :=
  match rsplit_dot name with
  | Some (before, _) => if bool_decide (before = "") then name else before
  | None => name
  end.

Definition extension_of (name : string) : option string :=
  match rsplit_dot name with
  | Some (before, after) => if bool_decide (before = "") then None else Some after
  | None => None
  end.

(** [Path::file_stem]. *)
Definition file_stem (p : Path) : option string := stem_of <$> file_name p.
(** [Path::extension]. *)
Definition extension (p : Path) : option string := file_name p ≫= extension_of.

(** A component that names an entry of its directory. *)
Definition is_normal (c : Component) : Prop :=
  match c with Normal _ => True | _ => False end.
#[export] Instance is_normal_dec c : Decision (is_normal c).
Proof. destruct c; apply _. Defined.

Lemma file_name_snoc p name : file_name (p ++ [Normal name])%list = Some name.
Proof. unfold file_name. by rewrite last_snoc. Qed.

Lemma path_starts_with_spec p base :
  path_starts_with p base = true ↔ ∃ rest, p = (base ++ rest)%list.
Proof. unfold path_starts_with. by rewrite bool_decide_eq_true. Qed.
