(* ===== verification/Command.v ===== *)
(** * Command risk classification (crates/localpilot-sandbox/src/command.rs)

    The per-platform classifiers are pure functions of a program and its
    arguments.  [program_stem] reads the program as a Unix path, which is how
    both classifiers behave when built for a Unix target. *)

From Stdlib Require Import Ascii.
From stdpp Require Import base list strings.
From S2P Require Import Prelude RustStr RustPath.
#[local] Open Scope string_scope.

Inductive CommandClass :=
  | ReadOnly
  | ProjectWrite
  | ExternalWrite
  | Network
  | Destructive
  | Privileged
  | Unknown.
#[export] Instance CommandClass_eq_dec : EqDecision CommandClass.
Proof. solve_decision. Defined.

Definition one_of (s : string) (l : list string) : bool := bool_decide (s ∈ l).

Definition program_stem (program : string) : string :=
  to_ascii_lowercase (default program (file_stem (components program))).

Definition args_lower (args : list string) : list string := to_ascii_lowercase <$> args.

Definition any_arg (args needles : list string) : bool :=
  existsb (λ a, one_of a needles) args.

Definition wrappers : list string :=
  ["bash"; "sh"; "zsh"; "dash"; "ksh"; "fish"; "env"; "nohup"; "xargs"; "nice";
   "ionice"; "stdbuf"; "timeout"; "time"; "wsl"].
Definition interpreters : list string :=
  ["python"; "python3"; "node"; "deno"; "bun"; "perl"; "ruby"; "php"].

Definition is_opaque_wrapper (stem : string) (args : list string) : bool :=
  if one_of stem wrappers then true
  else one_of stem interpreters && any_arg args ["-c"; "-e"; "--eval"; "-eval"].

Definition is_network_program (stem : string) : bool :=
  one_of stem ["curl"; "wget"; "ssh"; "scp"; "sftp"; "rsync"; "nc"; "ncat"; "netcat";
               "telnet"; "ping"; "ftp"; "http"; "https"].

Definition package_managers : list string :=
  ["apt"; "apt-get"; "yum"; "dnf"; "pacman"; "brew"; "pip"; "pip3"; "npm"; "pnpm";
   "yarn"; "bun"; "deno"; "gem"; "go"].

Definition is_network_package_op (stem : string) (args : list string) : bool :=
  let installs := ["install"; "add"; "update"; "upgrade"; "publish"; "fetch"; "remove"] in
  if one_of stem package_managers then any_arg args installs
  else if bool_decide (stem = "cargo") then any_arg args ["install"; "add"; "publish"; "update"]
  else false.

Definition read_only_programs : list string :=
  ["ls"; "cat"; "echo"; "pwd"; "head"; "tail"; "wc"; "grep"; "egrep"; "fgrep"; "rg";
   "stat"; "file"; "which"; "type"; "basename"; "dirname"; "true"; "date"; "printenv";
   "sort"; "uniq"; "cut"; "tr"; "less"; "more"; "tree"; "du"; "df"; "uname"; "whoami";
   "id"; "hostname"; "awk"; "cmp"; "diff"; "realpath"; "readlink"].
Definition is_read_only_program (stem : string) : bool := one_of stem read_only_programs.

Definition is_project_write_program (stem : string) : bool :=
  one_of stem ["touch"; "mkdir"; "mv"; "cp"; "ln"; "tee"; "install"; "make"; "cargo";
               "npm"; "pnpm"; "yarn"; "bun"; "deno"; "cmake"; "ninja"; "rustc"; "go"].

Definition discards_working_tree (rest : list string) : bool :=
  if existsb (λ a, bool_decide (a = "--") || bool_decide (a = ".") || starts_with "./" a) rest
  then true
  else (1 <? length (filter (λ a, starts_with "-" a = false) rest))%nat.

(** The first argument that is not a flag, and what follows it. *)
Fixpoint subcommand (args : list string) : string * list string :=
  match args with
  | [] => ("", [])
  | a :: args => if starts_with "-" a then subcommand args else (a, args)
  end.

Definition classify_git (args : list string) : CommandClass :=
  let '(sub, rest) := subcommand args in
  if one_of sub ["clone"; "pull"; "push"; "fetch"; "remote"; "submodule"] then Network
  else if one_of sub ["status"; "log"; "diff"; "show"; "branch"; "rev-parse"; "describe";
                      "blame"; "tag"; "ls-files"] then ReadOnly
  else if bool_decide (sub = "reset") && any_arg rest ["--hard"; "--merge"] then Destructive
  else if bool_decide (sub = "clean") &&
          existsb (λ a, bool_decide (a = "--force")
                        || (starts_with "-" a && has_char "f"%char a)) rest
       then Destructive
  else if bool_decide (sub = "restore") then Destructive
  else if bool_decide (sub = "checkout") && discards_working_tree rest then Destructive
  else if one_of sub ["add"; "commit"; "checkout"; "switch"; "stash"; "merge"; "rebase";
                      "reset"; "cherry-pick"; "apply"; "mv"; "rm"] then ProjectWrite
  else Unknown.

Definition sed_in_place (args : list string) : bool := any_arg args ["-i"; "--in-place"].

Definition classify_posix (program : string) (args : list string) : CommandClass :=
  let stem := program_stem program in
  let args := args_lower args in
  if one_of stem ["sudo"; "doas"; "su"; "pkexec"] then Privileged
  else if is_opaque_wrapper stem args then Unknown
  else if bool_decide (stem = "rm") &&
          any_arg args ["-r"; "-rf"; "-fr"; "-f"; "--recursive"; "--force"] then Destructive
  else if one_of stem ["rm"; "rmdir"; "shred"; "dd"; "mkfs"; "fdisk"; "parted"; "wipefs";
                       "truncate"] then Destructive
  else if is_network_program stem || is_network_package_op stem args then Network
  else if bool_decide (stem = "git") then classify_git args
  else if is_read_only_program stem || (bool_decide (stem = "sed") && negb (sed_in_place args))
       then ReadOnly
  else if is_project_write_program stem || (bool_decide (stem = "sed") && sed_in_place args)
       then ProjectWrite
  else Unknown.

(** PowerShell accepts any abbreviation of a switch. *)
Definition is_switch_prefix (arg full : string) : bool :=
  (2 <=? String.length arg)%nat && starts_with "-" arg && starts_with arg full.

Definition carries_inline_command (stem : string) (args : list string) : bool :=
  if bool_decide (stem = "cmd") then any_arg args ["/c"; "/k"]
  else if one_of stem ["powershell"; "pwsh"] then
    existsb (λ a, bool_decide (a = "-c") || is_switch_prefix a "-command"
                  || is_switch_prefix a "-encodedcommand" || is_switch_prefix a "-file") args
  else false.

Definition redirection_floor (class : CommandClass) (args : list string) : CommandClass :=
  if bool_decide (class = ReadOnly) && existsb (λ a, has_char ">"%char a) args
  then ProjectWrite else class.

Definition has_any (joined : string) (needles : list string) : bool :=
  existsb (λ n, contains n joined) needles.

Definition classify_powershell (args : list string) : CommandClass :=
  let joined := join " " args in
  if contains "remove-item" joined && has_any joined ["-recurse"; "-force"] then Destructive
  else if has_any joined ["remove-item"; "clear-content"; "format-volume"] then Destructive
  else if has_any joined ["hklm:"; "set-itemproperty"; "new-itemproperty"] then Privileged
  else if has_any joined ["invoke-webrequest"; "invoke-restmethod"; "start-bitstransfer"]
       then Network
  else if has_any joined ["set-content"; "add-content"; "out-file"; "new-item"]
       then ProjectWrite
  else if has_any joined ["get-"; "select-"; "write-output"; "write-host"] then ReadOnly
  else Unknown.

Definition classify_cmd (args : list string) : CommandClass :=
  let joined := join " " args in
  if has_any joined ["del "; "erase "; "rd "; "rmdir"; "format "] then Destructive
  else if has_any joined ["reg add"; "reg delete"] then Privileged
  else if has_any joined ["copy "; "move "; "md "; "mkdir"] then ProjectWrite
  else if has_any joined ["type "; "dir"; "echo"] then ReadOnly
  else Unknown.

Definition classify_windows (program : string) (args : list string) : CommandClass :=
  let stem := program_stem program in
  let args := args_lower args in
  if bool_decide (stem = "runas") then Privileged
  else if one_of stem ["reg"; "regedit"] then Privileged
  else if one_of stem ["powershell"; "pwsh"; "cmd"] then
    if carries_inline_command stem args then Unknown
    else
      let class := if bool_decide (stem = "cmd") then classify_cmd args
                   else classify_powershell args in
      redirection_floor class args
  else if is_opaque_wrapper stem args then Unknown
  else if one_of stem ["del"; "erase"; "rd"; "rmdir"; "format"; "diskpart"] then Destructive
  else if one_of stem ["copy"; "move"; "md"; "mkdir"; "xcopy"; "robocopy"] then ProjectWrite
  else if one_of stem ["type"; "dir"; "where"; "findstr"; "more"] then ReadOnly
  else if is_network_program stem || is_network_package_op stem args then Network
  else if bool_decide (stem = "git") then classify_git args
  else if is_read_only_program stem then ReadOnly
  else if is_project_write_program stem then ProjectWrite
  else Unknown.

(** [classify] on a Unix target. *)
Definition classify (program : string) (args : list string) : CommandClass :=
  classify_posix program args.
