(* ===== verification/Permission.v ===== *)
(** * The permission engine (crates/localpilot-sandbox/src/permission.rs)

    Every tool effect is decided here.  An engine may be governed by a lease,
    a live source of write authority that the host supplies: [L] is the type of
    leases and [current] what each of them answers now.  The shared handle is
    gated by the session's admission state
    (crates/localpilot-core/src/admission.rs). *)

From stdpp Require Import base list strings.
From S2P Require Import Prelude RustStr Command.
#[local] Open Scope string_scope.

Inductive Decision := Allow | Ask | Deny.
#[export] Instance Decision_eq_dec : EqDecision Decision.
Proof. solve_decision. Defined.

Inductive Profile := PDefault | PReadOnly | Relaxed | Bypass | Unrestricted.
#[export] Instance Profile_eq_dec : EqDecision Profile.
Proof. solve_decision. Defined.

Inductive Interactivity := Interactive | NonInteractive.
#[export] Instance Interactivity_eq_dec : EqDecision Interactivity.
Proof. solve_decision. Defined.

Inductive Effect :=
  | ReadPath (inside_workspace secret_like : bool)
  | WritePath (inside_workspace overwrite secret_like : bool)
  | ScratchPath (write overwrite secret_like : bool)
  | UnscopedCommand
  | RunCommand (class : CommandClass)
  | ENetwork.

Definition is_outside_workspace (e : Effect) : bool :=
  match e with
  | ReadPath false _ | WritePath false _ _ => true
  | _ => false
  end.

Definition may_create_files (e : Effect) : bool :=
  match e with
  | WritePath _ false _ | ScratchPath true false _ | UnscopedCommand => true
  | WritePath _ true _ | ReadPath _ _ | ScratchPath _ _ _ | ENetwork => false
  | RunCommand class =>
      match class with
      | ProjectWrite | ExternalWrite | Destructive | Privileged | Unknown | Network => true
      | ReadOnly => false
      end
  end.

Definition risk_label (e : Effect) : string :=
  match e with
  | ReadPath _ true => "read a secret-like path"
  | ReadPath false _ => "read outside the workspace"
  | ReadPath _ _ => "read a file"
  | WritePath _ _ true => "write a secret-like path"
  | WritePath false _ _ => "write outside the workspace"
  | WritePath _ true _ => "overwrite a file"
  | WritePath _ _ _ => "write a file"
  | ScratchPath true _ true => "write a secret-like scratch path"
  | ScratchPath _ _ true => "read a secret-like scratch path"
  | ScratchPath true _ _ => "write a scratch file"
  | ScratchPath _ _ _ => "read a scratch file"
  | UnscopedCommand => "run code with uninspectable file targets"
  | RunCommand _ => "run a command"
  | ENetwork => "make a network request"
  end.

Record PermissionRequest := mkRequest {
  tool : string;
  effect : Effect;
  interactivity : Interactivity;
  trusted : bool;
  detail : string;
}.

Record ExactCommand := mkExact { xprogram : string; xargs : list string }.
Record AllowedCommand := mkAllowed { aprogram : string; args_prefix : list string }.

(** [AllowedCommand::matches]. *)
Definition matches (entry : AllowedCommand) (command : ExactCommand) : bool :=
  bool_decide (xprogram command = aprogram entry) &&
  bool_decide (args_prefix entry `prefix_of` xargs command).

Inductive LeaseState := Owner | Denied (reason : string).

(** ** Decisions without session state *)

Definition ask_or_deny (i : Interactivity) : Decision :=
  match i with Interactive => Ask | NonInteractive => Deny end.

Definition incognito_floor (d : Decision) (i : Interactivity) : Decision :=
  match d with Allow => ask_or_deny i | other => other end.

Definition untrusted_floor (d : Decision) (trusted : bool) (i : Interactivity) : Decision :=
  if trusted then d else match d with Allow => ask_or_deny i | other => other end.

Definition command_decision (class : CommandClass) (i : Interactivity) : Decision :=
  match class with
  | ReadOnly => Allow
  | ProjectWrite | ExternalWrite | Network | Destructive | Privileged | Unknown =>
      ask_or_deny i
  end.

Definition base_decision (r : PermissionRequest) : Decision :=
  match effect r with
  | ScratchPath _ _ false => Allow
  | ScratchPath _ _ true | UnscopedCommand => ask_or_deny (interactivity r)
  | ReadPath true false => Allow
  | ReadPath true true | ReadPath false _ | ENetwork => ask_or_deny (interactivity r)
  | WritePath true _ secret_like =>
      if negb secret_like && trusted r then Allow else ask_or_deny (interactivity r)
  | WritePath false _ _ => ask_or_deny (interactivity r)
  | RunCommand class => command_decision class (interactivity r)
  end.

Definition read_only_decision (r : PermissionRequest) : Decision :=
  match effect r with
  | WritePath _ _ _ | ScratchPath true _ _ | UnscopedCommand => Deny
  | RunCommand ReadOnly => Allow
  | RunCommand _ => Deny
  | ReadPath _ _ | ScratchPath _ _ _ | ENetwork => base_decision r
  end.

Definition allowlist_may_relax (e : Effect) : bool :=
  match e with
  | RunCommand class =>
      match class with ReadOnly | ProjectWrite | Network => true | _ => false end
  | ReadPath inside secret => inside && negb secret
  | WritePath inside _ secret => inside && negb secret
  | ENetwork => true
  | ScratchPath _ _ secret => negb secret
  | UnscopedCommand => false
  end.

(** ** The engine *)

Section engine.
Context {L : Type}.

Record PermissionEngine := mkEngine {
  profile : Profile;
  allowlist : list string;
  allowed_commands : list AllowedCommand;
  incognito : bool;
  lease : option L;
  lease_denial : option string;
}.

Definition new (p : Profile) (al : list string) : PermissionEngine :=
  mkEngine p al [] false None None.

Definition with_lease (e : PermissionEngine) (l : L) : PermissionEngine :=
  mkEngine (profile e) (allowlist e) (allowed_commands e) (incognito e) (Some l)
    (lease_denial e).
Definition with_allowed_commands (e : PermissionEngine) (cs : list AllowedCommand)
  : PermissionEngine :=
  mkEngine (profile e) (allowlist e) cs (incognito e) (lease e) (lease_denial e).
Definition with_incognito (e : PermissionEngine) (b : bool) : PermissionEngine :=
  mkEngine (profile e) (allowlist e) (allowed_commands e) b (lease e) (lease_denial e).
Definition with_profile (e : PermissionEngine) (p : Profile) (al : list string)
  : PermissionEngine :=
  mkEngine p al (allowed_commands e) (incognito e) (lease e) (lease_denial e).

(** The profile's own answer. *)
Definition profile_decision (e : PermissionEngine) (r : PermissionRequest) : Decision :=
  match profile e with
  | Unrestricted => Allow
  | Bypass =>
      if is_outside_workspace (effect r)
         || match effect r with
            | UnscopedCommand | ScratchPath _ _ true => true
            | _ => false
            end
      then ask_or_deny (interactivity r) else Allow
  | Relaxed =>
      let decision :=
        if allowlist_may_relax (effect r) && existsb (λ t, bool_decide (t = tool r)) (allowlist e)
        then Allow else base_decision r in
      untrusted_floor decision (trusted r) (interactivity r)
  | PDefault => untrusted_floor (base_decision r) (trusted r) (interactivity r)
  | PReadOnly => untrusted_floor (read_only_decision r) (trusted r) (interactivity r)
  end.

Definition on_list (e : PermissionEngine) (c : ExactCommand) : bool :=
  existsb (λ entry, matches entry c) (allowed_commands e).

(** The rest of [allows_command], once the lease is out of the way. *)
Definition allows_resolved (e : PermissionEngine) (c : ExactCommand) : bool :=
  match profile e with
  | Bypass | Unrestricted => false
  | _ => on_list e c
  end.

Definition vetted (e : PermissionEngine) (r : PermissionRequest)
    (command : option ExactCommand) : bool :=
  match command with
  | Some c =>
      match effect r with
      | RunCommand _ => allows_resolved e c
      | UnscopedCommand => on_list e c
      | _ => false
      end
  | None => false
  end.

(** The rest of [decide_command], once the lease is out of the way. *)
Definition decide_resolved (e : PermissionEngine) (r : PermissionRequest)
    (command : option ExactCommand) : Decision :=
  let decision :=
    if vetted e r command then untrusted_floor Allow (trusted r) (interactivity r)
    else profile_decision e r in
  if incognito e && may_create_files (effect r)
  then incognito_floor decision (interactivity r)
  else decision.

Section live.
Context (current : L → LeaseState).

Definition resolved (e : PermissionEngine) : PermissionEngine :=
  match lease e with
  | None => e
  | Some l =>
      match current l with
      | Denied reason =>
          mkEngine PReadOnly (allowlist e) (allowed_commands e) (incognito e) None
            (Some reason)
      | Owner =>
          mkEngine (profile e) (allowlist e) (allowed_commands e) (incognito e) None
            (lease_denial e)
      end
  end.

(** A resolved engine has no lease, so the recursion of the source is one
    level deep. *)
Definition allows_command (e : PermissionEngine) (c : ExactCommand) : bool :=
  match lease e with
  | Some _ => allows_resolved (resolved e) c
  | None => allows_resolved e c
  end.

Definition decide_command (e : PermissionEngine) (r : PermissionRequest)
    (command : option ExactCommand) : Decision :=
  match lease e with
  | Some _ => decide_resolved (resolved e) r command
  | None => decide_resolved e r command
  end.

Definition decide (e : PermissionEngine) (r : PermissionRequest) : Decision :=
  decide_command e r None.
End live.
End engine.
#[global] Arguments PermissionEngine L : clear implicits.

(** ** Admission, and the swappable handle *)

Inductive Admission :=
  | Owned
  | Preparing (transfer : string)
  | Released (transfer : string)
  | Lost
  | Closed.
#[export] Instance Admission_eq_dec : EqDecision Admission.
Proof. solve_decision. Defined.

Definition is_owned (a : Admission) : bool := bool_decide (a = Owned).

(** [AdmissionGate::mutate], over the cell the mutation changes. *)
Definition mutate {A T} (gate : Admission) (f : A → A * T) (cell : A) : A * option T :=
  if is_owned gate then let '(cell, t) := f cell in (cell, Some t) else (cell, None).

(** What a handle's clones share: the engine, and the gate when it has one. *)
Record Handle (L : Type) := mkHandle {
  engine : PermissionEngine L;
  gate : option Admission;
}.
Arguments mkHandle {L} _ _.
Arguments engine {L} _.
Arguments gate {L} _.

Definition handle_new {L} (e : PermissionEngine L) : Handle L := mkHandle e None.
Definition gated {L} (h : Handle L) (g : Admission) : Handle L := mkHandle (engine h) (Some g).
Definition snapshot {L} (h : Handle L) : PermissionEngine L := engine h.

(** [PermissionEngineHandle::set]. *)
Definition handle_set {L} (h : Handle L) (e : PermissionEngine L) : Handle L * bool :=
  match gate h with
  | Some g => if is_owned g then (mkHandle e (gate h), true) else (h, false)
  | None => (mkHandle e (gate h), true)
  end.

(** [AdmissionGate::set], reached through any handle on the gate. *)
Definition gate_set {L} (h : Handle L) (a : Admission) : Handle L :=
  mkHandle (engine h) ((λ _, a) <$> gate h).

(** ** The scripted approver *)

Record ScriptedApprover := mkApprover { responses : list bool; exhausted_response : bool }.
Definition approver_new (rs : list bool) : ScriptedApprover := mkApprover rs false.
Definition approver_always : ScriptedApprover := mkApprover [] true.
Definition approve (a : ScriptedApprover) (_ : PermissionRequest) : ScriptedApprover * bool :=
  match responses a with
  | b :: rest => (mkApprover rest (exhausted_response a), b)
  | [] => (a, exhausted_response a)
  end.
