(* ===== verification/PermissionProps.v ===== *)
(** * What the permission engine guarantees

    The floors no profile, allowlist or swap can lift, the order of the
    profiles, and the handle that swaps engines. *)

From stdpp Require Import base list sets strings.
From S2P Require Import Prelude RustStr RustPath Command Permission.
#[local] Open Scope string_scope.
#[local] Open Scope nat_scope.

(** ** Shared case analysis *)

Lemma decide_command_resolved {L} (current : L → LeaseState) e r c :
  decide_command current e r c = decide_resolved (resolved current e) r c.
Proof. unfold decide_command, resolved. by destruct (lease e). Qed.

Lemma resolved_session {L} (current : L → LeaseState) e :
  incognito (resolved current e) = incognito e ∧
  allowed_commands (resolved current e) = allowed_commands e ∧
  allowlist (resolved current e) = allowlist e ∧
  (profile (resolved current e) = profile e ∨ profile (resolved current e) = PReadOnly).
Proof.
  unfold resolved. destruct (lease e) as [l|]; [destruct (current l)|]; simpl; auto.
Qed.

(** A decision is a finite case analysis once the request is split. *)
Ltac decide_cases :=
  unfold decide_resolved, vetted, profile_decision, read_only_decision, base_decision,
    allows_resolved, untrusted_floor, incognito_floor, command_decision, ask_or_deny in *;
  simpl in *;
  repeat (case_match; simplify_eq/=; try done).

(** Session properties survive any number of live profile swaps. *)
Definition swaps {L} (e : PermissionEngine L) (l : list (Profile * list string))
  : PermissionEngine L :=
  foldl (λ e '(p, al), with_profile e p al) e l.

Lemma swaps_session {L} (e : PermissionEngine L) l :
  incognito (swaps e l) = incognito e ∧ lease (swaps e l) = lease e ∧
  allowed_commands (swaps e l) = allowed_commands e ∧
  lease_denial (swaps e l) = lease_denial e.
Proof. revert e. induction l as [|[p al] l IH]; intros e; [done|]. exact (IH (with_profile e p al)). Qed.

(** ** Floors *)

Lemma untrusted_floor_not_allow d i : untrusted_floor d false i ≠ Allow.
Proof. by destruct d, i. Qed.

Lemma incognito_floor_not_allow d i : incognito_floor d i ≠ Allow.
Proof. by destruct d, i. Qed.

Lemma incognito_floor_allow_inv d i : incognito_floor d i = Allow → d = Allow.
Proof. by destruct d, i. Qed.

(** What an allowed effect was allowed by. *)
Lemma decide_resolved_allow {L} (e : PermissionEngine L) r c :
  decide_resolved e r c = Allow →
  (vetted e r c = true ∧ trusted r = true) ∨ profile_decision e r = Allow.
Proof.
  unfold decide_resolved. cbv zeta.
  destruct (vetted e r c); [left; split; [done|]|right].
  - destruct (trusted r); [done|]. destruct (incognito e && _); [|by destruct (interactivity r)].
    by destruct (interactivity r).
  - destruct (incognito e && _); [by eapply incognito_floor_allow_inv|done].
Qed.

(** C35. In an untrusted workspace nothing runs silently under the default,
    read-only and relaxed profiles: not for an allowlisted tool, nor for a
    command of the user's exact list. *)
Theorem untrusted_never_silent {L} (current : L → LeaseState) e r c :
  trusted r = false → profile e ≠ Bypass → profile e ≠ Unrestricted →
  decide_command current e r c ≠ Allow.
Proof.
  intros Ht Hb Hu. rewrite decide_command_resolved.
  destruct (resolved_session current e) as (_ & _ & _ & Hp).
  intros [[_ Ht']|Hd]%decide_resolved_allow; [congruence|].
  unfold profile_decision in Hd. rewrite Ht in Hd.
  destruct (profile (resolved current e)); try by apply untrusted_floor_not_allow in Hd.
  all: by destruct Hp; congruence.
Qed.

Definition no_lease : unit → LeaseState := λ _, Owner.

Definition sample (e : Effect) (i : Interactivity) (t : bool) : PermissionRequest :=
  mkRequest "run_shell" e i t "".

Lemma untrusted_never_silent_witness :
  decide_command no_lease (new Relaxed ["run_shell"])
    (sample (RunCommand ReadOnly) Interactive false) None = Ask ∧
  decide_command no_lease (new Relaxed ["run_shell"])
    (sample (RunCommand ReadOnly) Interactive false) None ≠ Allow.
Proof. split; [by vm_compute|]. by apply untrusted_never_silent. Defined.

(** An incognito session never silently leaves a new file behind, under
    any profile and after any sequence of live profile swaps, whatever the
    exact command list grants. *)
Theorem incognito_never_silent {L} (current : L → LeaseState) e l r c :
  incognito e = true → may_create_files (effect r) = true →
  decide_command current (swaps e l) r c ≠ Allow.
Proof.
  intros Hi Hm. rewrite decide_command_resolved.
  destruct (resolved_session current (swaps e l)) as (Hinc & _).
  destruct (swaps_session e l) as (Hs & _).
  unfold decide_resolved. rewrite Hinc, Hs, Hi, Hm. apply incognito_floor_not_allow.
Qed.

Lemma incognito_never_silent_witness :
  decide_command no_lease (swaps (with_incognito (new PDefault []) true) [(Unrestricted, [])])
    (sample (WritePath false false false) Interactive true) None ≠ Allow.
Proof. by apply incognito_never_silent. Defined.

(** A run that cannot prompt is never told to ask; a run that can is only
    ever denied by the read-only profile, its own or a denied lease's. *)
Theorem interactivity_respected {L} (current : L → LeaseState) e r c :
  (interactivity r = NonInteractive → decide_command current e r c ≠ Ask) ∧
  (interactivity r = Interactive → decide_command current e r c = Deny →
   profile (resolved current e) = PReadOnly).
Proof.
  rewrite decide_command_resolved. generalize (resolved current e). clear e. intros e.
  destruct e as [p al cs inc le ld], r as [tl ef i t d]. simpl.
  split; intros ->; destruct p; try done; decide_cases.
Qed.

Lemma interactivity_respected_witness :
  decide_command no_lease (new PDefault [])
    (sample (RunCommand Destructive) NonInteractive true) None ≠ Ask.
Proof. by apply interactivity_respected. Defined.

(** ** Read-only authority *)

Definition writes_path (e : Effect) : bool :=
  match e with WritePath _ _ _ | ScratchPath true _ _ => true | _ => false end.

Definition runs_above_read_only (e : Effect) : bool :=
  match e with
  | UnscopedCommand => true
  | RunCommand class => negb (bool_decide (class = ReadOnly))
  | _ => false
  end.

Lemma swaps_denied {L} (current : L → LeaseState) e l lz why :
  lease e = Some lz → current lz = Denied why →
  profile (resolved current (swaps e l)) = PReadOnly.
Proof.
  intros Hl Hc. destruct (swaps_session e l) as (_ & Hls & _).
  unfold resolved. by rewrite Hls, Hl, Hc.
Qed.

(** While its lease is denied a session writes no file and runs no command
    above read-only, whatever profile it is swapped to and without anyone being
    asked; only the user's exact command list can lift the command gate, and
    never the one on files. *)
Theorem denied_lease_never_writes {L} (current : L → LeaseState) e l r c lz why :
  lease e = Some lz → current lz = Denied why →
  (writes_path (effect r) = true → decide_command current (swaps e l) r c = Deny) ∧
  (runs_above_read_only (effect r) = true →
   (∀ x, c = Some x → on_list e x = false) →
   decide_command current (swaps e l) r c = Deny).
Proof.
  intros Hl Hc. rewrite decide_command_resolved.
  pose proof (swaps_denied current e l lz why Hl Hc) as Hp.
  assert (Hcmds : ∀ x, on_list (resolved current (swaps e l)) x = on_list e x).
  { intros x. unfold on_list. destruct (resolved_session current (swaps e l)) as (_ & -> & _).
    by destruct (swaps_session e l) as (_ & _ & -> & _). }
  set (e' := resolved current (swaps e l)) in *. clearbody e'.
  assert (Hres : vetted e' r c = false → profile_decision e' r = Deny →
                 decide_resolved e' r c = Deny).
  { intros Hv Hd. unfold decide_resolved. rewrite Hv, Hd. by destruct (incognito e' && _). }
  split.
  - intros Hw. apply Hres; unfold vetted, profile_decision, read_only_decision; rewrite ?Hp;
      destruct (effect r) as [| |[]| | |]; try done; first [by destruct c | by destruct (trusted r)].
  - intros Hr Hlist. apply Hres; unfold vetted, profile_decision, read_only_decision, allows_resolved;
      rewrite ?Hp; destruct (effect r) as [| | | |[]|]; try done;
      first [by destruct (trusted r) | by destruct c as [x|]; [rewrite Hcmds; apply (Hlist x)|]].
Qed.

Definition bypassing : PermissionEngine unit := with_lease (new Bypass []) ().

Lemma denied_lease_never_writes_witness :
  decide_command (λ _, Denied "handed over") (swaps bypassing [(Unrestricted, [])])
    (sample (WritePath true true false) Interactive true) None = Deny.
Proof.
  destruct (denied_lease_never_writes (λ _, Denied "handed over") bypassing
    [(Unrestricted, [])] (sample (WritePath true true false) Interactive true) None ()
    "handed over" eq_refl eq_refl) as [Hw _].
  exact (Hw eq_refl).
Defined.

(** ** Bypass and relaxed *)

(** Under bypass an effect runs silently exactly when it stays in scope:
    never outside the workspace, never on a secret-like scratch path, and never
    through uninspectable code unless that exact command is on the user's list
    and the workspace is trusted. *)
Theorem bypass_scope {L} (current : L → LeaseState) e r c :
  profile e = Bypass → lease e = None → incognito e = false →
  decide_command current e r c = Allow ↔
  match effect r with
  | ReadPath inside _ | WritePath inside _ _ => inside = true
  | ScratchPath _ _ secret => secret = false
  | UnscopedCommand => trusted r = true ∧ ∃ x, c = Some x ∧ on_list e x = true
  | RunCommand _ | ENetwork => True
  end.
Proof.
  intros Hp Hl Hi. unfold decide_command. rewrite Hl.
  unfold decide_resolved, vetted, allows_resolved, profile_decision, untrusted_floor.
  rewrite Hp, Hi. cbn [andb].
  destruct (effect r) as [[] ?|[] ? ?|? ? []| | |], (interactivity r); simpl;
    destruct c as [x|]; try (destruct (on_list e x) eqn:Hx); destruct (trusted r); simpl;
    (split; [intros Hd; first [discriminate Hd | by eauto]
            |intros Hc; first [done | destruct Hc as (? & y & [= <-] & ?); congruence
                                    | by destruct Hc as (? & y & ? & ?)]]).
Qed.

Lemma bypass_scope_witness :
  decide_command no_lease (new Bypass []) (sample (ReadPath false false) Interactive true) None
  ≠ Allow.
Proof.
  intros H. apply (bypass_scope no_lease (new Bypass []) _ None) in H; [done|done|done|done].
Defined.

(** The relaxed allowlist is no standing grant: for a command that is not
    read-only, project-write or network, for a path outside the workspace or
    secret-like, and for uninspectable code, the relaxed profile decides
    exactly as the default one whatever the allowlist holds. *)
Theorem allowlist_is_floored {L} (current : L → LeaseState) e al r c :
  match effect r with
  | RunCommand class => class ∈ [ExternalWrite; Destructive; Privileged; Unknown]
  | ReadPath inside secret | WritePath inside _ secret => inside = false ∨ secret = true
  | ScratchPath _ _ secret => secret = true
  | UnscopedCommand => True
  | ENetwork => False
  end →
  decide_command current (with_profile e Relaxed al) r c =
  decide_command current (with_profile e PDefault []) r c.
Proof.
  intros Hrisky.
  assert (Hno : allowlist_may_relax (effect r) = false).
  { destruct (effect r) as [[] []|[] ? []|? ? []| |[]|]; simpl in *; naive_solver set_solver. }
  rewrite !decide_command_resolved. unfold resolved. destruct (lease e) as [lz|] eqn:Hl;
    simpl; rewrite Hl; [destruct (current lz)|].
  all: unfold decide_resolved, vetted, allows_resolved, on_list, profile_decision; simpl;
    by rewrite ?Hno.
Qed.

Lemma allowlist_is_floored_witness :
  decide_command no_lease (with_profile (new Relaxed []) Relaxed ["run_shell"])
    (sample (RunCommand Destructive) NonInteractive true) None =
  decide_command no_lease (with_profile (new Relaxed []) PDefault [])
    (sample (RunCommand Destructive) NonInteractive true) None.
Proof. apply allowlist_is_floored. simpl. right. left. Defined.

(** ** The order of the profiles *)

Definition strength (d : Decision) : nat := match d with Deny => 0 | Ask => 1 | Allow => 2 end.

Definition openness (p : Profile) : nat :=
  match p with PReadOnly => 0 | PDefault => 1 | Relaxed => 2 | Bypass => 3 | Unrestricted => 4 end.

Lemma incognito_floor_mono d d' i :
  (i = NonInteractive → d ≠ Ask) →
  strength d ≤ strength d' → strength (incognito_floor d i) ≤ strength (incognito_floor d' i).
Proof. destruct d, d', i; simpl; intros Hd; try lia; by destruct (Hd eq_refl). Qed.

Lemma strength_allow d : strength d ≤ 2.
Proof. destruct d; simpl; lia. Qed.

Lemma profile_decision_headless {L} (e : PermissionEngine L) r :
  interactivity r = NonInteractive → profile_decision e r ≠ Ask.
Proof. destruct e as [p al cs inc le ld], r as [tl ef i t d]. simpl. intros ->. decide_cases. Qed.

Lemma profile_decision_mono {L} (e : PermissionEngine L) al p q r :
  openness p ≤ openness q →
  strength (profile_decision (with_profile e p al) r) ≤
  strength (profile_decision (with_profile e q al) r).
Proof.
  destruct r as [tl ef i t d]. intros Hpq.
  destruct p, q; simpl in Hpq; try lia; unfold profile_decision; simpl;
    try apply strength_allow;
    unfold read_only_decision, base_decision, command_decision, untrusted_floor; simpl;
    try destruct (existsb _ al);
    destruct ef as [[] []|[] [] []|[] [] []| |[]|], t, i; simpl in *; lia.
Qed.

(** The profiles are ordered: a wider profile never answers more strictly
    than a narrower one, up to the unrestricted one, for which this holds when
    no exact command is named. *)
Theorem profiles_ordered {L} (current : L → LeaseState) e al p q r c :
  openness p ≤ openness q → (q = Unrestricted → c = None) →
  strength (decide_command current (with_profile e p al) r c) ≤
  strength (decide_command current (with_profile e q al) r c).
Proof.
  intros Hpq Hq. rewrite !decide_command_resolved.
  assert (Hcase : resolved current (with_profile e p al) = resolved current (with_profile e q al)
          ∨ ∃ e', resolved current (with_profile e p al) = with_profile e' p al ∧
                  resolved current (with_profile e q al) = with_profile e' q al).
  { unfold resolved. simpl. destruct (lease e) as [lz|] eqn:Hl.
    - destruct (current lz); [right|by left].
      by exists (mkEngine p al (allowed_commands e) (incognito e) None (lease_denial e)).
    - right. exists e. unfold with_profile. by rewrite Hl. }
  destruct Hcase as [->|(e' & -> & ->)]; [lia|]. clear current e. rename e' into e.
  assert (Hbase : strength (if vetted (with_profile e p al) r c
                            then untrusted_floor Allow (trusted r) (interactivity r)
                            else profile_decision (with_profile e p al) r) ≤
                  strength (if vetted (with_profile e q al) r c
                            then untrusted_floor Allow (trusted r) (interactivity r)
                            else profile_decision (with_profile e q al) r)).
  { pose proof (profile_decision_mono e al p q r Hpq) as Hmono.
    destruct c as [x|]; [|exact Hmono].
    assert (Hqn : q ≠ Unrestricted) by (intros ->; specialize (Hq eq_refl); done).
    unfold vetted, allows_resolved, on_list, profile_decision in *. simpl in *.
    destruct r as [tl ef i t d]. simpl in *.
    destruct ef as [| | | |class|]; try exact Hmono.
    - destruct (existsb _ (allowed_commands e)); [lia|exact Hmono].
    - destruct p, q; simpl in Hpq; try lia; try done;
        destruct (existsb (λ entry, matches entry x) (allowed_commands e)); try lia;
        try exact Hmono; apply strength_allow. }
  unfold decide_resolved. cbv zeta. simpl.
  destruct (incognito e && may_create_files (effect r)); [|exact Hbase].
  apply incognito_floor_mono; [|exact Hbase]. intros Hi.
  destruct (vetted _ r c); [by rewrite Hi; destruct (trusted r)|].
  by apply profile_decision_headless.
Qed.

Lemma profiles_ordered_witness :
  strength (decide_command no_lease (with_profile (new PDefault []) PReadOnly [])
    (sample (RunCommand ProjectWrite) Interactive true) None) ≤
  strength (decide_command no_lease (with_profile (new PDefault []) Bypass [])
    (sample (RunCommand ProjectWrite) Interactive true) None).
Proof. apply profiles_ordered; [simpl; lia|done]. Defined.

(** The unrestricted profile does prompt, and even refuses: uninspectable
    code that it runs silently becomes an ask, or a denial in a headless run,
    once the user puts that very command on the exact list of an untrusted
    workspace. *)
Theorem unrestricted_listed_command_asks {L} (current : L → LeaseState) e r x :
  profile e = Unrestricted → lease e = None → incognito e = false →
  effect r = UnscopedCommand → trusted r = false → on_list e x = true →
  decide_command current e r (Some x) = ask_or_deny (interactivity r) ∧
  decide_command current (with_allowed_commands e []) r (Some x) = Allow.
Proof.
  intros Hp Hl Hi He Ht Hx. unfold decide_command. simpl. rewrite Hl.
  unfold decide_resolved, vetted, profile_decision. simpl. rewrite Hp, Hi, He, Ht, Hx.
  done.
Qed.

Definition listed_python : PermissionEngine unit :=
  with_allowed_commands (new Unrestricted []) [mkAllowed "python" ["/opt/check.py"]].

Lemma unrestricted_listed_command_asks_witness :
  decide_command no_lease listed_python (sample UnscopedCommand NonInteractive false)
    (Some (mkExact "python" ["/opt/check.py"])) = Deny.
Proof. by apply (unrestricted_listed_command_asks no_lease listed_python). Defined.

(** ** Swapping the engine under a turn *)

(** A run of swaps through any clones of a handle, and the answers. *)
Fixpoint set_all {L} (h : Handle L) (es : list (PermissionEngine L)) : Handle L * list bool :=
  match es with
  | [] => (h, [])
  | e :: es =>
      let '(h, ok) := handle_set h e in
      let '(h, oks) := set_all h es in (h, ok :: oks)
  end.

(** While the session is frozen, handed over or lost no swap goes through:
    every one is refused and later tool calls keep seeing the same engine; on
    an owned or ungated session the last swap is what they see. *)
Theorem frozen_session_keeps_its_engine {L} (h : Handle L) es e :
  (∀ g, gate h = Some g → g ≠ Owned →
     snapshot (fst (set_all h (es ++ [e])%list)) = snapshot h ∧
     snd (set_all h (es ++ [e])%list) = replicate (S (length es)) false) ∧
  ((∀ g, gate h = Some g → g = Owned) →
     snapshot (fst (set_all h (es ++ [e])%list)) = e ∧
     snd (set_all h (es ++ [e])%list) = replicate (S (length es)) true).
Proof.
  split.
  - intros g Hg Hne. assert (Hset : ∀ x, handle_set h x = (h, false)).
    { intros x. unfold handle_set, is_owned. rewrite Hg. by rewrite bool_decide_eq_false_2. }
    induction es as [|x es IH]; simpl; rewrite Hset; [done|].
    destruct (set_all h (es ++ [e])%list) as [h' oks]. simpl in *. by destruct IH as [-> ->].
  - revert h. induction es as [|x es IH]; intros h Hown.
    all: assert (Hset : ∀ y, handle_set h y = (mkHandle y (gate h), true))
      by (intros y; unfold handle_set, is_owned; destruct (gate h) as [g|];
          [by rewrite (Hown g eq_refl)|done]).
    { simpl. by rewrite Hset. }
    simpl. rewrite Hset. destruct (IH (mkHandle x (gate h)) Hown) as [Hs Ho].
    destruct (set_all _ (es ++ [e])%list) as [h' oks]. simpl in *. by rewrite Hs, Ho.
Qed.

Lemma frozen_session_keeps_its_engine_witness :
  snapshot (fst (set_all (gated (handle_new (new PDefault [])) (Preparing "t1"))
    [new (L:=unit) Bypass []])) = new PDefault [].
Proof.
  apply (proj1 (frozen_session_keeps_its_engine
    (gated (handle_new (new PDefault [])) (Preparing "t1")) [] (new (L:=unit) Bypass []))
    (Preparing "t1") eq_refl).
  done.
Defined.
