(* ===== verification/CommandProps.v ===== *)
(** * What a classification can be trusted for

    Properties of the classifiers of [Command], on their own and together with
    the permission engine that acts on their verdict. *)

From Stdlib Require Import Ascii.
From stdpp Require Import base list strings.
From S2P Require Import Prelude RustStr RustPath Command Permission PermissionProps.
#[local] Open Scope string_scope.

(** ** Opaque commands *)

Lemma one_of_spec s l : one_of s l = true ↔ s ∈ l.
Proof. unfold one_of. apply bool_decide_eq_true. Qed.

(** Membership in a concrete list of names, case by case. *)
Ltac each_name H :=
  repeat (apply elem_of_cons in H as [->|H]); [..|by apply not_elem_of_nil in H].

Lemma opaque_posix program args :
  is_opaque_wrapper (program_stem program) (args_lower args) = true →
  classify_posix program args = Unknown.
Proof.
  unfold classify_posix. intros Ho. rewrite Ho.
  destruct (one_of (program_stem program) ["sudo"; _; _; _]) eqn:Hp; [|done].
  apply one_of_spec in Hp. exfalso. revert Ho. each_name Hp; by vm_compute.
Qed.

Lemma opaque_windows program args :
  is_opaque_wrapper (program_stem program) (args_lower args) = true →
  classify_windows program args = Unknown.
Proof.
  unfold classify_windows. intros Ho. rewrite Ho.
  assert (Hno : ∀ s, is_opaque_wrapper s (args_lower args) = false →
            program_stem program ≠ s) by (intros s Hs Heq; congruence).
  rewrite !bool_decide_eq_false_2 by (by apply Hno).
  destruct (one_of _ ["reg"; "regedit"]) eqn:H1.
  { apply one_of_spec in H1. exfalso. revert Ho. each_name H1; by vm_compute. }
  destruct (one_of _ ["powershell"; "pwsh"; "cmd"]) eqn:H2; [|done].
  apply one_of_spec in H2. exfalso. revert Ho. each_name H2; by vm_compute.
Qed.

(** A shell, a command prefix such as [env] or [timeout], or an
    interpreter given inline code is unclassifiable on every platform,
    whatever it runs; so no profile below bypass runs it silently, not even
    for an allowlisted tool. *)
Theorem opaque_commands_gated {L} (current : L → LeaseState) e tl i t d program args :
  is_opaque_wrapper (program_stem program) (args_lower args) = true →
  profile e ≠ Bypass → profile e ≠ Unrestricted →
  ∀ class, class ∈ [classify_posix program args; classify_windows program args] →
  class = Unknown ∧
  decide current e (mkRequest tl (RunCommand class) i t d) ≠ Allow.
Proof.
  intros Ho Hb Hu class Hc. assert (Hcl : class = Unknown).
  { apply elem_of_cons in Hc as [->|Hc]; [by apply opaque_posix|].
    apply list_elem_of_singleton in Hc as ->. by apply opaque_windows. }
  split; [done|]. subst class. unfold decide. rewrite decide_command_resolved.
  destruct (resolved_session current e) as (_ & _ & _ & Hp).
  intros [[Hv _]|Hd]%decide_resolved_allow; [done|].
  unfold profile_decision in Hd. simpl in Hd.
  destruct (profile (resolved current e)); simpl in Hd; try (by destruct t, i);
    by destruct Hp; congruence.
Qed.

Lemma opaque_commands_gated_witness :
  classify_posix "/bin/Bash" ["-c"; "ls"] = Unknown ∧
  decide no_lease (new Relaxed ["run_shell"])
    (mkRequest "run_shell" (RunCommand (classify_posix "/bin/Bash" ["-c"; "ls"]))
       Interactive true "") ≠ Allow.
Proof.
  apply (opaque_commands_gated no_lease (new Relaxed ["run_shell"]) "run_shell" Interactive
    true "" "/bin/Bash" ["-c"; "ls"]); [by vm_compute|done|done|left].
Defined.

(** ** Spelling *)

Lemma lower_ascii_idem a : lower_ascii (lower_ascii a) = lower_ascii a.
Proof. by destruct a as [[] [] [] [] [] [] [] []]; vm_compute. Qed.

Lemma lower_ascii_fix a c :
  c ∈ ["/"%char; "."%char] → lower_ascii a = c ↔ a = c.
Proof.
  intros [->|[->|Hc]%elem_of_cons]%elem_of_cons; [| |by apply not_elem_of_nil in Hc];
    (split; [by destruct a as [[] [] [] [] [] [] [] []]; vm_compute|by intros ->]).
Qed.

Lemma lower_idem s : to_ascii_lowercase (to_ascii_lowercase s) = to_ascii_lowercase s.
Proof. induction s as [|a s IH]; simpl; [done|]. by rewrite lower_ascii_idem, IH. Qed.

Lemma lower_app s t :
  to_ascii_lowercase (s +:+ t) = to_ascii_lowercase s +:+ to_ascii_lowercase t.
Proof. induction s as [|a s IH]; simpl; [done|]. exact (f_equal (String _) IH). Qed.

Lemma lower_rev_app s t :
  String.rev_app (to_ascii_lowercase s) (to_ascii_lowercase t) =
  to_ascii_lowercase (String.rev_app s t).
Proof. revert t. induction s as [|a s IH]; intros t; [done|]. exact (IH (String a t)). Qed.

Lemma lower_rev s : String.rev (to_ascii_lowercase s) = to_ascii_lowercase (String.rev s).
Proof. exact (lower_rev_app s ""). Qed.

Lemma split_slash_lower cur s :
  split_slash (to_ascii_lowercase cur) (to_ascii_lowercase s) =
  to_ascii_lowercase <$> split_slash cur s.
Proof.
  revert cur. induction s as [|a s IH]; intros cur; simpl.
  { by rewrite lower_rev. }
  assert (Hsl : lower_ascii a = "/"%char ↔ a = "/"%char) by (apply lower_ascii_fix; left).
  destruct (base.decide (a = "/"%char)) as [Ha|Ha].
  - rewrite !bool_decide_eq_true_2 by (done || by apply Hsl). simpl.
    rewrite lower_rev. f_equal. exact (IH "").
  - rewrite !bool_decide_eq_false_2 by (done || by rewrite Hsl).
    exact (IH (String a cur)).
Qed.

Definition lower_component (c : Component) : Component :=
  match c with Normal name => Normal (to_ascii_lowercase name) | c => c end.

(** A text of dots is its own lower case, and nothing else's. *)
Fixpoint all_dots (s : string) : Prop :=
  match s with EmptyString => True | String a s => a = "."%char ∧ all_dots s end.

Lemma lower_all_dots s t : all_dots t → to_ascii_lowercase s = t ↔ s = t.
Proof.
  revert t. induction s as [|a s IH]; intros [|b t]; [done..|].
  intros [-> Ht]. cbn [to_ascii_lowercase]. split.
  - intros Heq. assert (lower_ascii a = "."%char ∧ to_ascii_lowercase s = t) as [Ha Hs]
      by (by injection Heq).
    apply (proj1 (IH t Ht)) in Hs. subst t. f_equal.
    apply (lower_ascii_fix a "."%char); [right; left|done].
  - intros Heq. assert (a = "."%char ∧ s = t) as [-> ->] by (by injection Heq).
    f_equal. by apply (IH t Ht).
Qed.

Lemma lower_eq_dots s t :
  t ∈ [""; "."; ".."] → to_ascii_lowercase s = t ↔ s = t.
Proof. intros Ht. apply lower_all_dots. by each_name Ht. Qed.

Lemma bool_decide_lower s t :
  t ∈ [""; "."; ".."] →
  bool_decide (to_ascii_lowercase s = t) = bool_decide (s = t).
Proof. intros Ht. apply bool_decide_ext. by apply lower_eq_dots. Qed.

Lemma piece_component_lower s :
  piece_component (to_ascii_lowercase s) = lower_component <$> piece_component s.
Proof.
  unfold piece_component. rewrite !bool_decide_lower by (repeat (left || right)).
  by repeat case_bool_decide.
Qed.

Lemma omap_lower (l : list string) :
  omap piece_component (to_ascii_lowercase <$> l) = lower_component <$> omap piece_component l.
Proof.
  induction l as [|s l IH]; [done|]. simpl. rewrite piece_component_lower.
  destruct (piece_component s) as [c|]; [exact (f_equal (cons (lower_component c)) IH)|exact IH].
Qed.

Lemma is_absolute_String a s : is_absolute (String a s) = bool_decide (a = "/"%char).
Proof.
  unfold is_absolute, starts_with. cbn [String.prefix].
  destruct (ascii_dec "/" a) as [Hc|Hc].
  - rewrite bool_decide_eq_true_2 by done. by destruct s.
  - by rewrite bool_decide_eq_false_2 by congruence.
Qed.

Lemma is_absolute_lower s : is_absolute (to_ascii_lowercase s) = is_absolute s.
Proof.
  destruct s as [|a s]; [done|]. cbn [to_ascii_lowercase]. rewrite !is_absolute_String.
  apply bool_decide_ext, lower_ascii_fix. left.
Qed.

Lemma components_lower s :
  components (to_ascii_lowercase s) = lower_component <$> components s.
Proof.
  unfold components. rewrite is_absolute_lower.
  pose proof (split_slash_lower "" s) as Hsp. cbn [to_ascii_lowercase] in Hsp.
  rewrite Hsp, omap_lower.
  destruct (is_absolute s); [done|]. destruct (split_slash "" s) as [|x l]; [done|].
  cbn [fmap list_fmap].
  pose proof (lower_eq_dots x "." ltac:(right; left)) as Hx.
  destruct (base.decide (x = ".")) as [->|Hne]; [done|].
  assert (to_ascii_lowercase x ≠ ".") by (by rewrite Hx).
  repeat case_match; simplify_eq/=; done.
Qed.

Lemma file_name_lower (p : Path) : file_name (lower_component <$> p) = to_ascii_lowercase <$> file_name p.
Proof.
  unfold file_name. rewrite fmap_last. by destruct (last p) as [[]|].
Qed.

Lemma rsplit_dot_lower s :
  rsplit_dot (to_ascii_lowercase s) =
  prod_map to_ascii_lowercase to_ascii_lowercase <$> rsplit_dot s.
Proof.
  induction s as [|a s IH]; [done|]. simpl. rewrite IH.
  destruct (rsplit_dot s) as [[x y]|]; [done|]. simpl.
  assert (Hd : lower_ascii a = "."%char ↔ a = "."%char)
    by (apply lower_ascii_fix; right; left).
  destruct (base.decide (a = "."%char)) as [Ha|Ha].
  - by rewrite !bool_decide_eq_true_2 by (done || by apply Hd).
  - by rewrite !bool_decide_eq_false_2 by (done || by rewrite Hd).
Qed.

Lemma stem_of_lower s : stem_of (to_ascii_lowercase s) = to_ascii_lowercase (stem_of s).
Proof.
  unfold stem_of. rewrite rsplit_dot_lower. destruct (rsplit_dot s) as [[x y]|]; [|done].
  simpl. rewrite bool_decide_lower by left. by case_bool_decide.
Qed.

Lemma program_stem_lower program :
  program_stem (to_ascii_lowercase program) = program_stem program.
Proof.
  unfold program_stem, file_stem. rewrite components_lower, file_name_lower.
  destruct (file_name (components program)); simpl; rewrite ?stem_of_lower; apply lower_idem.
Qed.

(** Spelling is no way around a class: writing the program or its
    arguments in other letter case never changes either verdict. *)
Theorem classification_ignores_case program program' args args' :
  to_ascii_lowercase program = to_ascii_lowercase program' →
  args_lower args = args_lower args' →
  classify_posix program args = classify_posix program' args' ∧
  classify_windows program args = classify_windows program' args'.
Proof.
  intros Hp Ha. assert (Hs : program_stem program = program_stem program').
  { by rewrite <-(program_stem_lower program), Hp, program_stem_lower. }
  unfold classify_posix, classify_windows. by rewrite Hs, Ha.
Qed.

Lemma classification_ignores_case_witness :
  classify_posix "/usr/bin/RM" ["-RF"; "Src"] = classify_posix "/usr/bin/rm" ["-rf"; "src"].
Proof.
  by apply (classification_ignores_case "/usr/bin/RM" "/usr/bin/rm" ["-RF"; "Src"] ["-rf"; "src"]).
Defined.

(** ** Git, and where the verdict falls short *)

Lemma subcommand_skips flags sub rest :
  Forall (λ a, starts_with "-" a = true) flags → starts_with "-" sub = false →
  subcommand (flags ++ sub :: rest)%list = (sub, rest).
Proof.
  intros Hf Hs. induction Hf as [|a flags Ha _ IH]; simpl; [by rewrite Hs|]. by rewrite Ha.
Qed.

Lemma any_arg_spec args needles a :
  a ∈ args → a ∈ needles → any_arg args needles = true.
Proof.
  intros Ha Hn. unfold any_arg. apply existsb_exists. exists a.
  split; [by apply list_elem_of_In|by apply one_of_spec].
Qed.

(** Invocations that throw uncommitted work away. *)
Definition discards_work (sub : string) (rest : list string) : Prop :=
  (sub = "reset" ∧ ∃ a, a ∈ rest ∧ a ∈ ["--hard"; "--merge"]) ∨
  (sub = "clean" ∧ ∃ a, a ∈ rest ∧ (a = "--force" ∨
     starts_with "-" a = true ∧ has_char "f"%char a = true)) ∨
  sub = "restore" ∨
  (sub = "checkout" ∧ ∃ a, a ∈ rest ∧ (a = "--" ∨ a = "." ∨ starts_with "./" a = true)).

Lemma discards_work_git sub rest :
  discards_work sub rest → ∀ flags, Forall (λ a, starts_with "-" a = true) flags →
  classify_git (flags ++ sub :: rest)%list = Destructive.
Proof.
  intros Hd flags Hf.
  destruct Hd as [[-> (a & Ha & Hn)]|[[-> (a & Ha & Hn)]|[->|[-> (a & Ha & Hn)]]]];
    unfold classify_git; rewrite subcommand_skips by done; simpl.
  - by rewrite (any_arg_spec rest _ a Ha Hn).
  - replace (existsb _ rest) with true; [done|]. symmetry. apply existsb_exists.
    exists a. split; [by apply list_elem_of_In|].
    destruct Hn as [->|[-> ->]]; [done|by rewrite orb_true_r].
  - done.
  - assert (Hdw : discards_working_tree rest = true); [|by rewrite Hdw].
    unfold discards_working_tree. replace (existsb _ rest) with true; [done|].
    symmetry. apply existsb_exists. exists a. split; [by apply list_elem_of_In|].
    destruct Hn as [->|[->| ->]]; [done|done|by rewrite !orb_true_r].
Qed.

Lemma git_reaches_classify_git program args :
  program_stem program = "git" →
  classify_posix program args = classify_git (args_lower args) ∧
  classify_windows program args = classify_git (args_lower args).
Proof. unfold classify_posix, classify_windows. by intros ->. Qed.

(** The git invocations that discard uncommitted work are destructive on
    every platform, whatever options precede the subcommand and wherever the
    deciding argument stands. *)
Theorem git_discards_gated program args flags sub rest :
  program_stem program = "git" → args_lower args = (flags ++ sub :: rest)%list →
  Forall (λ a, starts_with "-" a = true) flags → discards_work sub rest →
  classify_posix program args = Destructive ∧ classify_windows program args = Destructive.
Proof.
  intros Hg Ha Hf Hd. destruct (git_reaches_classify_git program args Hg) as [-> ->].
  rewrite Ha. by rewrite (discards_work_git sub rest Hd flags Hf).
Qed.

Lemma git_discards_gated_witness :
  classify_posix "git" ["--no-pager"; "checkout"; "main"; "--"; "src"] = Destructive.
Proof.
  apply (git_discards_gated "git" ["--no-pager"; "checkout"; "main"; "--"; "src"]
    ["--no-pager"] "checkout" ["main"; "--"; "src"]); [by vm_compute|done|by repeat constructor|].
  do 3 right. split; [done|]. exists "--". split; [right; left|by left].
Defined.

(** Three invocations escape the class their comments promise: [sed] with
    an attached backup suffix edits files in place but is read-only, and so
    runs silently under the default profile; a forced checkout discards
    uncommitted work but is an ordinary project write; and [deno eval] runs
    inline code but is a project write. *)
Theorem classification_gaps suf :
  suf ≠ "" →
  (classify_posix "sed" ["-i" +:+ suf; "s/a/b/"; "src/main.rs"] = ReadOnly ∧
   decide no_lease (new PDefault []) (sample (RunCommand
     (classify_posix "sed" ["-i" +:+ suf; "s/a/b/"; "src/main.rs"])) NonInteractive true)
   = Allow) ∧
  classify_posix "git" ["checkout"; "-f"; "main"] = ProjectWrite ∧
  classify_posix "deno" ["eval"; "Deno.removeSync('.')"] = ProjectWrite.
Proof.
  intros Hsuf. split; [|by split; vm_compute].
  assert (Hs : classify_posix "sed" ["-i" +:+ suf; "s/a/b/"; "src/main.rs"] = ReadOnly);
    [|by rewrite Hs].
  destruct suf as [|a suf]; [done|].
  assert (Hin : sed_in_place (args_lower ["-i" +:+ String a suf; "s/a/b/"; "src/main.rs"]) = false).
  { unfold sed_in_place, any_arg, args_lower. cbn [fmap list_fmap existsb].
    replace (one_of (to_ascii_lowercase _) ["-i"; "--in-place"]) with false; [by vm_compute|].
    symmetry. unfold one_of. apply bool_decide_eq_false. intros Hel.
    cbn [to_ascii_lowercase String.app] in Hel.
    apply elem_of_cons in Hel as [Hel|Hel%list_elem_of_singleton]; discriminate Hel. }
  unfold classify_posix. rewrite Hin.
  assert (Hst : program_stem "sed" = "sed") by by vm_compute. rewrite Hst.
  by vm_compute.
Qed.

Lemma classification_gaps_witness :
  classify_posix "sed" ["-i.bak"; "s/a/b/"; "src/main.rs"] = ReadOnly.
Proof. by apply (classification_gaps ".bak"). Defined.
