(* ===== verification/Workspace.v ===== *)
(** * The workspace boundary (crates/localpilot-sandbox/src/path.rs, secret_path.rs)

    Containment of candidate paths, the extra read roots, the session's scratch
    directory, and the test for secret-like names, on Unix.  The file system is
    the parameter [FileSystem]: what it answers is the operating system's. *)

From Stdlib Require Import Ascii.
From stdpp Require Import base list sets strings relations.
From S2P Require Import Prelude RustStr RustPath Command CommandProps.
#[local] Open Scope string_scope.

Inductive IoError (E : Type) :=
  | InvalidInput (message : string)
  | OsError (e : E).
Arguments InvalidInput {E} message.
Arguments OsError {E} e.

Inductive SandboxError (E : Type) :=
  | OutsideWorkspace (path : string)
  | Io (path : string) (source : IoError E).
Arguments OutsideWorkspace {E} path.
Arguments Io {E} path source.

(** What the source asks of [std::fs], [std::env] and [tempfile]. *)
Class FileSystem (E : Type) := {
  exists_ : Path → bool;
  fs_canonicalize : Path → result Path (IoError E);
  temp_dir : Path;
  (** Creates a fresh directory in the parent, its name starting with the
      prefix. *)
  tempdir_in : Path → string → result Path (IoError E);
}.

Inductive ScratchRoot :=
  | OsTemp
  | Disabled
  | ParentDirectory (p : string).

Record Workspace := mkWorkspace {
  root : Path;
  read_roots : list Path;
  scratch_policy : ScratchRoot;
  scratch : option Path;
}.

(** [Path::display]. *)
Definition show_component (c : Component) : string :=
  match c with RootDir => "" | CurDir => "." | ParentDir => ".." | Normal name => name end.
Definition show_path (p : Path) : string :=
  match p with
  | [RootDir] => "/"
  | _ => join "/" (show_component <$> p)
  end.

(** ** Lexical normalisation *)

Definition push_component (out : Path) (c : Component) : Path :=
  match c with
  | CurDir => out
  | ParentDir =>
      match last out with
      | Some (Normal _) => removelast out
      | _ => out ++ [ParentDir]
      end%list
  | other => (out ++ [other])%list
  end.

Definition lexically_normalize (p : Path) : Path := foldl push_component [] p.

(** The label of a session: what of its name is safe in a directory name. *)
Definition label_char (a : ascii) : bool :=
  bool_decide (48 <= code a <= 57)%N || bool_decide (65 <= code a <= 90)%N
  || bool_decide (97 <= code a <= 122)%N || (code a =? 45)%N.

Fixpoint filter_chars (keep : ascii → bool) (s : string) : string :=
  match s with
  | EmptyString => EmptyString
  | String a s => if keep a then String a (filter_chars keep s) else filter_chars keep s
  end.

Fixpoint take_chars (n : nat) (s : string) : string :=
  match n, s with
  | S n, String a s => String a (take_chars n s)
  | _, _ => EmptyString
  end.

Definition scratch_label (session : string) : string :=
  take_chars 80 (filter_chars label_char session).
Definition scratch_prefix (session : string) : string :=
  "localpilot-" +:+ scratch_label session +:+ "-".

Section workspace.
Context {E : Type} `{FileSystem E}.

Definition io_at {A} (path : string) (r : result A (IoError E)) : result A (SandboxError E) :=
  match r with Ok a => Ok a | Err source => Err (Io path source) end.

(** [ancestor] is held reversed; [tail] is what was stripped from it, in
    order. *)
Fixpoint strip_missing (path ancestor_rev : Path) (tail : list string)
  : result Path (IoError E) :=
  if exists_ (rev ancestor_rev) then
    let? resolved := fs_canonicalize (rev ancestor_rev) in
    Ok (resolved ++ (Normal <$> tail))%list
  else
    match ancestor_rev with
    | Normal name :: parent_rev => strip_missing path parent_rev (name :: tail)
    | _ => Ok path
    end.

Definition canonicalize_existing_prefix (path : Path) : result Path (IoError E) :=
  strip_missing path (rev path) [].

Definition new_workspace (r : Path) : result Workspace (SandboxError E) :=
  let? r := io_at (show_path r) (fs_canonicalize r) in
  Ok (mkWorkspace r [] OsTemp None).

Definition clear_scratch (w : Workspace) : Workspace :=
  mkWorkspace (root w) (read_roots w) (scratch_policy w) None.

Definition set_scratch_root (w : Workspace) (policy : ScratchRoot) : Workspace :=
  let w := clear_scratch w in
  mkWorkspace (root w) (read_roots w) policy (scratch w).

Definition start_scratch (w : Workspace) (session : string)
  : Workspace * result unit (IoError E) :=
  let w := clear_scratch w in
  match scratch_policy w with
  | Disabled => (w, Ok ())
  | policy =>
      let! parent :=
        match policy with
        | ParentDirectory p =>
            if is_absolute p then Ok (components p)
            else Err (InvalidInput "scratch parent must be an absolute existing directory")
        | _ => Ok temp_dir
        end or w in
      let! parent := fs_canonicalize parent or w in
      let! owner := tempdir_in parent (scratch_prefix session) or w in
      let! canonical := fs_canonicalize owner or w in
      (mkWorkspace (root w) (read_roots w) (scratch_policy w) (Some canonical), Ok ())
  end.

Definition scratch_dir (w : Workspace) : option Path := scratch w.

Definition add_read_root (w : Workspace) (r : Path)
  : Workspace * result unit (SandboxError E) :=
  let! r' := io_at (show_path r) (fs_canonicalize r) or w in
  (mkWorkspace (root w) (read_roots w ++ [r'])%list (scratch_policy w) (scratch w), Ok ()).

(** A candidate is its text; the kernel's spelling of a child is the root's. *)
Definition joined (w : Workspace) (candidate : string) : Path :=
  if is_absolute candidate then components candidate
  else join_path (root w) (components candidate).

Definition normalize (w : Workspace) (candidate : string)
  : result Path (SandboxError E) :=
  let lexical := lexically_normalize (joined w candidate) in
  io_at (show_path lexical) (canonicalize_existing_prefix lexical).

Definition resolve (w : Workspace) (candidate : string) : result Path (SandboxError E) :=
  let? real := normalize w candidate in
  if path_starts_with real (root w) then Ok real else Err (OutsideWorkspace candidate).

Definition contains_path (w : Workspace) (candidate : string) : bool :=
  match normalize w candidate with
  | Ok real => path_starts_with real (root w)
  | Err _ => false
  end.

Definition read_scoped (w : Workspace) (candidate : string) : bool :=
  match normalize w candidate with
  | Ok real =>
      path_starts_with real (root w) || existsb (path_starts_with real) (read_roots w)
  | Err _ => false
  end.

Definition scratch_contains (w : Workspace) (candidate : string) : bool :=
  match scratch_dir w with
  | Some r => match normalize w candidate with
              | Ok c => path_starts_with c r
              | Err _ => false
              end
  | None => false
  end.

(** [dunce::simplified] changes nothing on Unix. *)
Definition process_dir (w : Workspace) : Path := root w.
Definition scratch_process_dir (w : Workspace) : option Path := scratch_dir w.
End workspace.

(** ** Secret-like names *)

Definition secret_names : list string :=
  ["id_rsa"; "id_ed25519"; "id_ecdsa"; "id_dsa"; ".npmrc"; ".pypirc"; ".netrc";
   "credentials"; ".git-credentials"; ".htpasswd"; "secrets.yaml"; "secrets.yml";
   "secrets.json"; "kubeconfig"].
Definition secret_extensions : list string := ["pem"; "key"; "p12"; "pfx"; "keystore"; "jks"].
Definition secret_dirs : list string :=
  [".aws/"; ".ssh/"; ".gnupg/"; ".kube/"; ".docker/config.json"].

(** [str::replace] of a backslash by a slash. *)
Fixpoint slashes (s : string) : string :=
  match s with
  | EmptyString => EmptyString
  | String a s => String (if (code a =? 92)%N then "/"%char else a) (slashes s)
  end.

Definition is_secret_like (path : string) : bool :=
  let name := to_ascii_lowercase (default "" (file_name (components path))) in
  if bool_decide (name = ".env")
     || (starts_with ".env" name && negb (contains "example" name)
         && negb (contains "sample" name)) then true
  else if one_of name secret_names then true
  else if match extension (components name) with
          | Some ext => one_of ext secret_extensions
          | None => false
          end then true
  else
    let lossy := to_ascii_lowercase (slashes path) in
    existsb (λ d, contains d lossy) secret_dirs.

(** ** Nothing escapes the workspace

    Containment against a file system that obeys the few laws below, what the
    grants of a workspace can and cannot widen, and the secret-name test. *)

#[local] Open Scope string_scope.
#[local] Open Scope list_scope.
#[local] Open Scope nat_scope.

(** ** The shape of paths *)

Definition inner (c : Component) : Prop :=
  match c with ParentDir | Normal _ => True | _ => False end.

Lemma pieces_inner pieces : Forall inner (omap piece_component pieces).
Proof.
  induction pieces as [|s pieces IH]; [constructor|]. simpl.
  destruct (piece_component s) as [c|] eqn:Hc; [|exact IH].
  constructor; [|exact IH]. unfold piece_component in Hc.
  repeat case_bool_decide; by simplify_eq.
Qed.

Lemma components_absolute s :
  is_absolute s = true → ∃ body, components s = RootDir :: body ∧ Forall inner body.
Proof. intros Ha. unfold components. rewrite Ha. eexists. split; [done|apply pieces_inner]. Qed.

Lemma components_relative s :
  is_absolute s = false →
  ∃ body, Forall inner body ∧ ∀ base, join_path base (components s) = base ++ body.
Proof.
  intros Ha. unfold components. rewrite Ha.
  set (body := omap piece_component (split_slash "" s)).
  pose proof (pieces_inner (split_slash "" s)) as Hb. fold body in Hb.
  exists body. split; [done|]. intros base. unfold join_path.
  assert (Hplain : match body with CurDir :: rel => rel | _ => body end = body).
  { destruct body as [|[]]; try done. by apply Forall_inv in Hb. }
  assert (Hor : match split_slash "" s with "." :: _ => CurDir :: body | _ => body end
                = CurDir :: body ∨
                match split_slash "" s with "." :: _ => CurDir :: body | _ => body end
                = body) by (clear; clearbody body; repeat case_match; auto).
  by destruct Hor as [-> | ->]; [|rewrite Hplain].
Qed.

(** An absolute path after lexical normalisation. *)
Definition climbing (k : nat) (names : list string) : Path :=
  RootDir :: replicate k ParentDir ++ (Normal <$> names).

Lemma climbing_snoc k names name :
  climbing k names ++ [Normal name] = climbing k (names ++ [name]).
Proof. unfold climbing. by rewrite fmap_app, app_comm_cons, <-app_assoc. Qed.

Lemma push_climbing k names c :
  inner c → ∃ k' names', push_component (climbing k names) c = climbing k' names'.
Proof.
  destruct c as [| | |name]; try done; intros _; cbn [push_component].
  - induction names as [|n names _] using rev_ind.
    + unfold climbing. rewrite fmap_nil, app_nil_r.
      assert (Hl : ∀ n, last (RootDir :: replicate k ParentDir) ≠ Some (Normal n)).
      { intros n Hl. apply last_Some_elem_of in Hl. apply elem_of_cons in Hl as [|Hl]; [done|].
        by apply elem_of_replicate in Hl as [? _]. }
      exists (S k), []. unfold climbing. rewrite fmap_nil, app_nil_r.
      assert (Hrep : (RootDir :: replicate k ParentDir) ++ [ParentDir] =
                     RootDir :: replicate (S k) ParentDir).
      { rewrite replicate_S_end. done. }
      destruct (last (RootDir :: replicate k ParentDir)) as [[]|] eqn:Hlast; try done.
      by destruct (Hl name).
    + rewrite <-climbing_snoc, last_snoc. exists k, names.
      by rewrite removelast_last.
  - exists k, (names ++ [name]). apply climbing_snoc.
Qed.

Lemma foldl_climbing body k names :
  Forall inner body → ∃ k' names', foldl push_component (climbing k names) body = climbing k' names'.
Proof.
  intros Hb. revert k names. induction Hb as [|c body Hc _ IH]; intros k names; simpl; [by eauto|].
  destruct (push_climbing k names c Hc) as (k' & names' & ->). apply IH.
Qed.

Lemma lexically_climbing body :
  Forall inner body → ∃ k names, lexically_normalize (RootDir :: body) = climbing k names.
Proof.
  intros Hb. unfold lexically_normalize. simpl. by apply (foldl_climbing body 0 []).
Qed.

(** ** File systems *)

Definition absolute_names (p : Path) (names : list string) : Prop :=
  p = RootDir :: (Normal <$> names).

(** What the operating system guarantees while nobody changes the tree: a
    canonical path is absolute and free of [.] and [..]; it names the same
    directory as the path it came from, so both have the same children; an
    existing entry's directory exists; the root exists and is its own parent. *)
Class FileSystemLaws (E : Type) `{FileSystem E} := {
  canonical_shape p c : fs_canonicalize p = Ok c → ∃ names, absolute_names c names;
  canonical_children p c x :
    fs_canonicalize p = Ok c → exists_ (c ++ [Normal x]) = exists_ (p ++ [Normal x]);
  exists_parent p x : exists_ (p ++ [Normal x]) = true → exists_ p = true;
  exists_root k : exists_ (RootDir :: replicate k ParentDir) = true;
}.

Section containment.
Context {E : Type} `{FileSystemLaws E}.

(** The walk stops at the deepest existing ancestor. *)
Lemma strip_missing_spec path k names tail real :
  strip_missing path (rev (climbing k names)) tail = Ok real →
  ∃ found missing c,
    names = found ++ missing ∧
    exists_ (climbing k found) = true ∧
    fs_canonicalize (climbing k found) = Ok c ∧
    real = c ++ (Normal <$> missing ++ tail) ∧
    ∀ x rest, missing = x :: rest → exists_ (climbing k found ++ [Normal x]) = false.
Proof using All.
  revert tail. induction names as [|x names IH] using rev_ind; intros tail Hs.
  - destruct (rev (climbing k [])) as [|r rs] eqn:Hr.
    { apply (f_equal (@length _)) in Hr. rewrite length_rev in Hr. done. }
    cbn [strip_missing] in Hs. rewrite <-Hr, rev_involutive in Hs.
    assert (Hx : exists_ (climbing k []) = true).
    { unfold climbing. rewrite fmap_nil, app_nil_r. apply exists_root. }
    rewrite Hx in Hs. destruct (fs_canonicalize (climbing k [])) as [c|] eqn:Hc; [|done].
    injection Hs as <-. by exists [], [], c.
  - rewrite <-climbing_snoc, rev_app_distr in Hs. cbn [rev app strip_missing] in Hs.
    rewrite rev_involutive in Hs.
    destruct (exists_ (climbing k names ++ [Normal x])) eqn:Hx.
    + destruct (fs_canonicalize (climbing k names ++ [Normal x])) as [c|] eqn:Hc; [|done].
      injection Hs as <-. exists (names ++ [x]), [], c. rewrite <-climbing_snoc, app_nil_r.
      by split_and!.
    + destruct (IH (x :: tail) Hs) as (found & missing & c & -> & He & Hc & -> & Hm).
      exists found, (missing ++ [x]), c. split_and!.
      * by rewrite app_assoc.
      * done.
      * done.
      * by rewrite <-app_assoc.
      * intros y rest. destruct missing as [|z missing]; simpl; intros [= <- <-].
        -- by rewrite app_nil_r in Hx.
        -- by apply (Hm z missing).
Qed.

Lemma exists_prefix p names :
  exists_ (p ++ (Normal <$> names)) = true → exists_ p = true.
Proof using All.
  induction names as [|x names IH] using rev_ind; [by rewrite app_nil_r|].
  rewrite fmap_app, app_assoc. intros Hx%exists_parent. by apply IH.
Qed.

(** A workspace whose root is a canonical, existing directory, as
    [new_workspace] makes it. *)
Definition rooted (w : Workspace) : Prop :=
  (∃ names, absolute_names (root w) names) ∧ exists_ (root w) = true.

Lemma joined_climbing w candidate :
  rooted w → ∃ k names, lexically_normalize (joined w candidate) = climbing k names.
Proof using All.
  intros [(rn & Hroot) _]. unfold joined. destruct (is_absolute candidate) eqn:Ha.
  - destruct (components_absolute candidate Ha) as (body & -> & Hb).
    by apply lexically_climbing.
  - destruct (components_relative candidate Ha) as (body & Hb & ->). rewrite Hroot.
    apply lexically_climbing, Forall_app. split; [|done].
    apply list.Forall_forall. intros c (n & -> & _)%list_elem_of_fmap. done.
Qed.

Lemma missing_below k found missing x rest :
  exists_ (climbing k found ++ [Normal x]) = false → missing = x :: rest → ∀ more after,
  missing = more ++ after → more ≠ [] → exists_ (climbing k (found ++ more)) = false.
Proof using All.
  intros Hx -> [|y more] after Hm Hne; [done|]. injection Hm as <- _.
  destruct (exists_ (climbing k (found ++ x :: more))) eqn:He; [|done]. exfalso.
  assert (Hs : exists_ ((climbing k found ++ [Normal x]) ++ (Normal <$> more)) = true).
  { rewrite <-He. f_equal. unfold climbing. rewrite fmap_app, fmap_cons. cbn. by rewrite <-!app_assoc. }
  apply exists_prefix in Hs. congruence.
Qed.

(** C37. No path escapes: a candidate that resolves, however it climbs with
    [..] or through symbolic links, names a place whose deepest existing
    ancestor (it exists, and none of the longer ones does, links followed)
    really lies in the workspace, wherever a link leads, followed by plain names
    that do not exist yet. *)
Theorem resolve_contained w candidate real :
  rooted w → resolve w candidate = Ok real →
  ∃ k found missing inside,
    lexically_normalize (joined w candidate) = climbing k (found ++ missing) ∧
    exists_ (climbing k found) = true ∧
    (∀ more after, missing = more ++ after → more ≠ [] → exists_ (climbing k (found ++ more)) = false) ∧
    fs_canonicalize (climbing k found) = Ok (root w ++ (Normal <$> inside)) ∧
    real = root w ++ (Normal <$> inside ++ missing).
Proof using All.
  intros Hw Hr. destruct (joined_climbing w candidate Hw) as (k & names & Hlex).
  unfold resolve, normalize in Hr. rewrite Hlex in Hr.
  unfold canonicalize_existing_prefix in Hr.
  destruct (strip_missing _ _ []) as [p|] eqn:Hs; [|done]. simpl in Hr.
  destruct (path_starts_with p (root w)) eqn:Hp; [|done]. injection Hr as <-.
  apply strip_missing_spec in Hs as (found & missing & c & -> & He & Hc & -> & Hm).
  rewrite app_nil_r in Hp |- *. apply path_starts_with_spec in Hp as (rest & Hp).
  destruct Hw as [(rn & Hroot) Hexists].
  destruct (canonical_shape _ _ Hc) as (cn & Hcn). unfold absolute_names in *.
  rewrite Hroot, Hcn in Hp. simpl in Hp. injection Hp as Hp.
  assert (Hpre : (∃ inside, cn = rn ++ inside) ∨
                 ∃ x more, rn = cn ++ x :: more ∧ ∃ ms, missing = x :: ms).
  { clear - Hp. revert rn Hp. induction cn as [|a cn IH]; intros [|b rn] Hp; simpl in Hp.
    - left. by exists [].
    - destruct missing as [|m ms]; [done|]. injection Hp as -> _. right. by exists b, rn; eauto.
    - left. by exists (a :: cn).
    - injection Hp as -> Hp. destruct (IH rn Hp) as [(i & ->)|(x & more & -> & Hms)].
      + left. by exists i.
      + right. by exists x, more. }
  destruct Hpre as [(inside & ->)|(x & more & -> & ms & ->)].
  - exists k, found, missing, inside. split_and!; [done|done| | |].
    + intros more after Hmore Hne. destruct missing as [|x ms]; [by destruct more|].
      by eapply (missing_below k found (x :: ms) x ms); [by eapply Hm|done|exact Hmore|].
    + rewrite Hc, Hcn, Hroot. by rewrite fmap_app.
    + rewrite Hcn, Hroot. simpl. by rewrite !fmap_app, app_assoc.
  - exfalso. specialize (Hm x ms eq_refl). rewrite <-(canonical_children _ _ x Hc), Hcn in Hm.
    assert (Hx : exists_ ((RootDir :: (Normal <$> cn)) ++ [Normal x] ++ (Normal <$> more)) = true)
      by (rewrite <-Hexists, Hroot, fmap_app; done).
    rewrite app_assoc in Hx. apply exists_prefix in Hx. congruence.
Qed.
End containment.

(** *** A small file system with a symbolic link

    [/ws], [/ws/src] and [/etc] exist, and [/ws/link] points to [/etc]. *)
Module Demo.
Definition dirs : list (list string) := [[]; ["ws"]; ["ws"; "src"]; ["etc"]].

Definition enter (at_ : list string) (c : Component) : option (list string) :=
  match c with
  | RootDir => Some []
  | CurDir => Some at_
  | ParentDir => Some (removelast at_)
  | Normal x =>
      if bool_decide (at_ ++ [x] ∈ dirs) then Some (at_ ++ [x])
      else if bool_decide (at_ = ["ws"] ∧ x = "link") then Some ["etc"] else None
  end.

Definition walk (p : Path) : option (list string) :=
  match p with
  | RootDir :: _ => foldl (λ at_ c, a ← at_; enter a c) (Some []) p
  | _ => None
  end.

Definition canonical (names : list string) : Path := RootDir :: (Normal <$> names).

#[export] Instance demo_fs : FileSystem unit := {
  exists_ p := match walk p with Some _ => true | None => false end;
  fs_canonicalize p := match walk p with
                       | Some names => Ok (canonical names) | None => Err (OsError ()) end;
  temp_dir := canonical ["etc"];
  tempdir_in p prefix := Ok (p ++ [Normal prefix]);
}.

Lemma walk_snoc p c : walk p ≠ None → walk (p ++ [c]) = a ← walk p; enter a c.
Proof. destruct p as [|[] p]; try done. intros _. unfold walk. simpl. by rewrite foldl_snoc. Qed.

Lemma walk_none p c : walk p = None → c ≠ RootDir → walk (p ++ [c]) = None.
Proof.
  destruct p as [|[] p]; try done; [by destruct c|]. unfold walk. intros Hw _.
  rewrite <-app_comm_cons, app_comm_cons, foldl_snoc, Hw. done.
Qed.

Lemma enter_dirs a c b : a ∈ dirs → enter a c = Some b → b ∈ dirs.
Proof.
  intros Ha. destruct c as [| | |x]; simpl; intros He; simplify_eq; try done.
  - left.
  - unfold dirs in Ha. by each_name Ha; repeat (left || right).
  - repeat case_bool_decide; simplify_eq; [done|]. do 3 right. left.
Qed.

Lemma walk_dirs p names : walk p = Some names → names ∈ dirs.
Proof.
  revert names. induction p as [|c p IH] using rev_ind; intros names Hw; [done|].
  destruct (walk p) as [a|] eqn:Ha.
  - rewrite walk_snoc, Ha in Hw by congruence. simpl in Hw.
    eapply enter_dirs; [|exact Hw]. by apply IH.
  - destruct (base.decide (c = RootDir)) as [->|Hc].
    + destruct p as [|[] p]; try done; [by injection Hw as <-; left|].
      exfalso. unfold walk in Hw, Ha.
      rewrite <-app_comm_cons, app_comm_cons, foldl_snoc, Ha in Hw. done.
    + by rewrite walk_none in Hw.
Qed.

Lemma walk_canonical names : names ∈ dirs → walk (canonical names) = Some names.
Proof. intros Hn. unfold dirs in Hn. by each_name Hn. Qed.

#[export] Instance demo_laws : FileSystemLaws unit.
Proof.
  split.
  - intros p c Hc. simpl in Hc. destruct (walk p) as [names|]; [|done].
    injection Hc as <-. by exists names.
  - intros p c x Hc. simpl in Hc |- *. destruct (walk p) as [names|] eqn:Hw; [|done].
    injection Hc as <-. pose proof (walk_dirs p names Hw) as Hd.
    rewrite !walk_snoc by (rewrite ?Hw, ?walk_canonical by done; done).
    by rewrite Hw, walk_canonical.
  - intros p x. simpl. destruct (walk p) eqn:Hw; [done|]. by rewrite walk_none.
  - intros k. simpl. assert (Hf : foldl (λ at_ c, a ← at_; enter a c) (Some [])
      (replicate k ParentDir) = Some []) by (by induction k).
    by rewrite Hf.
Qed.

Definition ws : Workspace := mkWorkspace (canonical ["ws"]) [] OsTemp None.
End Demo.
Import Demo.

Lemma resolve_contained_witness :
  resolve Demo.ws "../etc/passwd" = Err (OutsideWorkspace "../etc/passwd") ∧
  resolve Demo.ws "link/passwd" = Err (OutsideWorkspace "link/passwd") ∧
  ∃ k found missing inside,
    lexically_normalize (joined Demo.ws "link/../src/new.rs") = climbing k (found ++ missing) ∧
    exists_ (climbing k found) = true ∧
    (missing ≠ [] → exists_ (climbing k (found ++ missing)) = false) ∧
    fs_canonicalize (climbing k found) = Ok (root Demo.ws ++ (Normal <$> inside)).
Proof.
  split_and!; [by vm_compute|by vm_compute|].
  assert (Hr : resolve Demo.ws "link/../src/new.rs" =
               Ok [RootDir; Normal "ws"; Normal "src"; Normal "new.rs"]) by by vm_compute.
  assert (Hw : rooted Demo.ws) by (split; [by exists ["ws"]|by vm_compute]).
  destruct (resolve_contained Demo.ws _ _ Hw Hr) as (k & found & missing & inside & ? & ? & Hm & ? & _).
  exists k, found, missing, inside. split_and!; try done. apply (Hm missing []). by rewrite app_nil_r.
Defined.

(** ** Grants *)

(** Any sequence of grants and scratch changes, whatever they answer. *)
Inductive grant_step {E} `{FileSystem E} : Workspace → Workspace → Prop :=
  | grant_root w r : grant_step w (fst (add_read_root w r))
  | grant_policy w policy : grant_step w (set_scratch_root w policy)
  | grant_start w session : grant_step w (fst (start_scratch w session))
  | grant_clear w : grant_step w (clear_scratch w).

Lemma grant_step_kept {E} `{FileSystem E} w w' :
  grant_step w w' → root w' = root w ∧ ∀ r, r ∈ read_roots w → r ∈ read_roots w'.
Proof.
  intros [u r|u policy|u session|u]; [| |unfold start_scratch|done].
  - unfold add_read_root. destruct (io_at _ _); [|done]. simpl. split; [done|].
    intros x Hx. apply elem_of_app. by left.
  - done.
  - by repeat case_match; simplify_eq/=.
Qed.

(** Grants widen reading only: whatever read roots are added and however
    the scratch directory is set up, a workspace resolves exactly the paths it
    resolved before; what it contains is what it resolves; and its read scope
    covers that and never shrinks. *)
Theorem grants_widen_reads_only {E} `{FileSystem E} w w' candidate :
  rtc grant_step w w' →
  resolve w' candidate = resolve w candidate ∧
  (contains_path w' candidate = is_ok (resolve w' candidate)) ∧
  (contains_path w candidate = true → read_scoped w' candidate = true) ∧
  (read_scoped w candidate = true → read_scoped w' candidate = true).
Proof.
  intros Hsteps.
  assert (Hkept : root w' = root w ∧ ∀ r, r ∈ read_roots w → r ∈ read_roots w').
  { induction Hsteps as [|a b c Hab _ [IHr IHg]]; [done|].
    destruct (grant_step_kept a b Hab) as [Hr Hg]. split; [congruence|auto]. }
  destruct Hkept as [Hroot Hgrants].
  assert (Hnorm : normalize w' candidate = normalize w candidate)
    by (unfold normalize, joined; by rewrite Hroot).
  unfold resolve, contains_path, read_scoped. rewrite Hnorm, Hroot.
  destruct (normalize w candidate) as [real|]; [|done].
  split_and!; [done|by destruct (path_starts_with real (root w))|by intros ->|].
  rewrite !orb_true_iff. intros [?|Hr]; [by left|right].
  apply existsb_exists in Hr as (r & Hr & Hp). apply existsb_exists. exists r.
  split; [|done]. apply list_elem_of_In, Hgrants. by apply list_elem_of_In.
Qed.

Lemma grants_widen_reads_only_witness :
  read_scoped (fst (add_read_root Demo.ws (Demo.canonical ["etc"]))) "/etc/hosts" = true ∧
  resolve (fst (add_read_root Demo.ws (Demo.canonical ["etc"]))) "/etc/hosts" =
  resolve Demo.ws "/etc/hosts".
Proof.
  split; [by vm_compute|]. apply grants_widen_reads_only, rtc_once. constructor.
Defined.

(** ** The scratch directory *)

Definition safe_label (s : string) : Prop :=
  ∀ l a r, s = (l +:+ String a r)%string → label_char a = true.

Lemma filter_chars_safe s : safe_label (filter_chars label_char s).
Proof.
  induction s as [|b s IH]; intros l a r; simpl.
  - by destruct l.
  - destruct (label_char b) eqn:Hb; [|apply IH].
    destruct l as [|b' l]; intros Heq; injection Heq; [by intros _ <-|].
    intros Heq' _. by apply (IH l a r).
Qed.

Lemma take_chars_spec n s :
  (String.length (take_chars n s) ≤ n)%nat ∧ ∃ r, s = (take_chars n s +:+ r)%string.
Proof.
  revert n. induction s as [|a s IH]; intros [|n]; simpl; try (split; [lia|by eexists]).
  destruct (IH n) as [Hl (r & Hr)]. split; [lia|]. exists r. exact (f_equal (String a) Hr).
Qed.

Lemma string_app_assoc' (a b c : string) : ((a +:+ b) +:+ c = a +:+ b +:+ c)%string.
Proof. induction a as [|x a IH]; [done|]. exact (f_equal (String x) IH). Qed.

(** Session scratch: starting it either fails or is disabled, leaving no
    grant from before, or grants the canonical form of the one directory it
    created under the canonical parent, whose name carries at most 80 letters,
    digits and dashes of the session's; a relative parent is always refused. *)
Theorem start_scratch_outcome {E} `{FileSystem E} w session :
  let label := scratch_label session in
  safe_label label ∧ (String.length label ≤ 80)%nat ∧
  match start_scratch w session with
  | (w', Err _) => scratch w' = None
  | (w', Ok _) =>
      (scratch_policy w = Disabled ∧ scratch w' = None) ∨
      ∃ parent base owner granted, fs_canonicalize parent = Ok base ∧
        tempdir_in base ("localpilot-" +:+ label +:+ "-")%string = Ok owner ∧
        fs_canonicalize owner = Ok granted ∧ scratch w' = Some granted ∧
        match scratch_policy w with
        | ParentDirectory p => is_absolute p = true ∧ parent = components p
        | _ => parent = temp_dir
        end
  end.
Proof.
  cbv zeta. unfold scratch_label.
  destruct (take_chars_spec 80 (filter_chars label_char session)) as [Hlen (rest & Hrest)].
  split_and!; [|done|].
  - intros l a r Heq. apply (filter_chars_safe session l a (r +:+ rest)%string).
    rewrite Hrest, Heq. by rewrite string_app_assoc'.
  - unfold start_scratch, scratch_prefix, scratch_label.
    generalize (take_chars 80 (filter_chars label_char session)). intros label.
    cbn [clear_scratch scratch_policy].
    assert (Hcreate : ∀ parent : Path,
      match (let! base := fs_canonicalize parent or clear_scratch w in
             let! owner := tempdir_in base ("localpilot-" +:+ label +:+ "-")%string
               or clear_scratch w in
             let! canonical := fs_canonicalize owner or clear_scratch w in
             (mkWorkspace (root w) (read_roots w) (scratch_policy w) (Some canonical), Ok ()))
      with
      | (w', Err _) => scratch w' = None
      | (w', Ok _) => ∃ base owner granted, fs_canonicalize parent = Ok base ∧
          tempdir_in base ("localpilot-" +:+ label +:+ "-")%string = Ok owner ∧
          fs_canonicalize owner = Ok granted ∧ scratch w' = Some granted
      end).
    { intros parent. destruct (fs_canonicalize parent) as [base|] eqn:Hb; [|done].
      destruct (tempdir_in base _) as [owner|] eqn:Ho; [|done].
      destruct (fs_canonicalize owner) as [granted|] eqn:Hg; [|done]. by exists base, owner, granted. }
    destruct (scratch_policy w) as [| |p] eqn:Hpol; [|by left|].
    + specialize (Hcreate temp_dir). cbn [clear_scratch root read_roots] in *.
      destruct (let! base := _ or _ in _) as [w' [u|e]]; [|exact Hcreate].
      destruct Hcreate as (base & owner & granted & ? & ? & ? & ?).
      right. by exists temp_dir, base, owner, granted.
    + destruct (is_absolute p) eqn:Ha; [|done].
      specialize (Hcreate (components p)). cbn [clear_scratch root read_roots] in *.
      destruct (let! base := _ or _ in _) as [w' [u|e]]; [|exact Hcreate].
      destruct Hcreate as (base & owner & granted & ? & ? & ? & ?).
      right. by exists (components p), base, owner, granted.
Qed.

(** ** Secret-like names *)

Lemma slashes_lower s : slashes (to_ascii_lowercase s) = to_ascii_lowercase (slashes s).
Proof.
  induction s as [|a s IH]; [done|]. simpl. f_equal; [|exact IH].
  by destruct a as [[] [] [] [] [] [] [] []]; vm_compute.
Qed.

Lemma name_starts_with_app s t : starts_with s (s +:+ t)%string = true.
Proof.
  unfold starts_with. induction s as [|a s IH]; simpl; [by destruct t|].
  destruct (ascii_dec a a); [exact IH|done].
Qed.

Lemma contains_mid needle l r : contains needle (l +:+ needle +:+ r)%string = true.
Proof.
  induction l as [|a l IH].
  - change ("" +:+ needle +:+ r)%string with (needle +:+ r)%string.
    pose proof (name_starts_with_app needle r) as Hs.
    destruct (needle +:+ r)%string; cbn [contains]; by rewrite Hs.
  - change ((String a l +:+ needle +:+ r))%string with (String a (l +:+ needle +:+ r))%string.
    cbn [contains]. by rewrite IH, orb_true_r.
Qed.

Lemma slashes_app s t : slashes (s +:+ t) = (slashes s +:+ slashes t)%string.
Proof. induction s as [|a s IH]; [done|]. exact (f_equal (String _) IH). Qed.

(** The secret test cannot be dodged by spelling: letter case never
    changes its answer, and any path through a credential directory is
    secret-like wherever it leads, with forward or backward slashes. *)
Theorem secret_test_robust path pre post d :
  is_secret_like (to_ascii_lowercase path) = is_secret_like path ∧
  (d ∈ secret_dirs → is_secret_like (pre +:+ d +:+ post) = true) ∧
  (∀ d', slashes d' = d → d ∈ secret_dirs → is_secret_like (pre +:+ d' +:+ post) = true).
Proof.
  assert (Hdir : ∀ d', slashes d' = d → d ∈ secret_dirs →
            is_secret_like (pre +:+ d' +:+ post) = true).
  { intros d' Hd' Hd. unfold is_secret_like. repeat (case_match; [done|]).
    apply existsb_exists. exists d. split; [by apply list_elem_of_In|].
    rewrite !slashes_app, Hd', !lower_app.
    replace (to_ascii_lowercase d) with d; [apply contains_mid|].
    unfold secret_dirs in Hd. by each_name Hd. }
  split_and!; [| |exact Hdir].
  - unfold is_secret_like. rewrite components_lower, file_name_lower, slashes_lower, lower_idem.
    destruct (file_name (components path)); simpl; by rewrite ?lower_idem.
  - intros Hd. apply Hdir; [|done]. unfold secret_dirs in Hd. by each_name Hd.
Qed.

Lemma secret_test_robust_witness :
  is_secret_like "C:\Users\me\.aws\config" = true.
Proof.
  apply (proj2 (proj2 (secret_test_robust "" "C:\Users\me\" "config" ".aws/")) ".aws\");
    [done|left].
Defined.
