(* ===== verification/Quota.v ===== *)
(** * Quota windows and the wait for them

    The estimate of a provider's quota window, the record of a paused run and
    the gates it resumes through (crates/localpilot-quota/src/lib.rs), and the
    polling of the command-line host (crates/localpilot-cli/src/harness_cmd.rs).

    A [Duration] is a number of nanoseconds.  The clock is an argument: [now]
    is its seconds, [nanos] its sub-second part. *)

From stdpp Require Import base numbers strings list.
From S2P Require Import Prelude RustStr.
#[local] Open Scope N_scope.

Abbreviation Duration := N.

Definition from_secs (s : N) : Duration := s * 1000000000.
Definition as_secs (d : Duration) : N := d / 1000000000.

(** crates/localpilot-llm-core/src/error.rs. *)
Record QuotaInfo := mkQuotaInfo {
  retry_after : option Duration;
  reset_at : option N;
  limit_kind : option string;
  retryable : bool;
  raw_provider_code : option string;
}.

Record QuotaWindow := mkWindow {
  wait : Duration;
  w_reset_at : option N;
  w_retryable : bool;
  reason : string;
}.

Definition MIN_BACKOFF : Duration := from_secs 15.
Definition MAX_BACKOFF : Duration := from_secs (15 * 60).

(** [f64::from(nanos) / 65536.0 % 1.0], which is exact, as so many 65536ths:
    the nanoseconds take fewer than 30 bits. *)
Definition jitter_fraction (nanos : N) : N := nanos `mod` 65536.

(** [half.mul_f64(k / 65536)]: every value [half] takes is a whole number of
    half-seconds, so the product is exact in an [f64] and only the conversion
    back to nanoseconds rounds, to the nearest, ties to even. *)
Definition round_div_even (a b : N) : N :=
  let q := a / b in
  let r := a `mod` b in
  if 2 * r <? b then q
  else if b <? 2 * r then q + 1
  else if N.even q then q else q + 1.

Definition mul_fraction (d : Duration) (k : N) : Duration := round_div_even (d * k) 65536.

(** What the delay varies around. *)
Definition backoff_base (attempt : N) : Duration :=
  let shift := N.min (sat_sub attempt 1) 16 in
  N.min (MIN_BACKOFF * N.shiftl 1 shift) MAX_BACKOFF.

Definition backoff_with_jitter (attempt nanos : N) : Duration :=
  let half := backoff_base attempt / 2 in
  half + mul_fraction half (jitter_fraction nanos).

Definition or_else {A} (a b : option A) : option A :=
  match a with Some x => Some x | None => b end.

Definition estimate_window (info : QuotaInfo) (attempt now nanos : N) : QuotaWindow :=
  let wait :=
    match retry_after info with
    | Some d => d
    | None => match reset_at info with
              | Some t => from_secs (sat_sub t now)
              | None => backoff_with_jitter attempt nanos
              end
    end in
  mkWindow wait (reset_at info) (retryable info)
    (default "provider quota or rate limit"%string
       (or_else (raw_provider_code info) (limit_kind info))).

(** The provider's name as its characters. *)
Record PausedRun := mkPaused {
  paused_at_unix : N;
  p_reason : string;
  resume_eligible_unix : option N;
  step_number : N;
  provider_id : list N;
  attempt : N;
}.

(** [PausedRun::new]: the addition is a plain [u64] one. *)
Definition paused_new (step : N) (provider : list N) (w : QuotaWindow) (now : N) : PausedRun :=
  mkPaused now (reason w) (Some (u64_add now (as_secs (wait w)))) step provider 1.

Definition with_attempt (p : PausedRun) (a : N) : PausedRun :=
  mkPaused (paused_at_unix p) (p_reason p) (resume_eligible_unix p) (step_number p)
    (provider_id p) (N.max a 1).

Inductive ResumeMode := Off | Ask | Run | Global.

(** crates/localpilot-config/src/schema.rs; the modes are the same four. *)
Record QuotaConfig := mkQuotaConfig {
  auto_resume : ResumeMode;
  max_wait_minutes : N;
  resume_requires_clean_workspace : bool;
  resume_requires_no_pending_approval : bool;
  resume_only_at_step_boundary : bool;
}.
Definition QuotaConfig_default : QuotaConfig := mkQuotaConfig Off 360 true true true.

Record ResumePolicy := mkPolicy {
  mode : ResumeMode;
  max_wait : Duration;
  requires_clean_workspace : bool;
  requires_no_pending_approval : bool;
  only_at_step_boundary : bool;
}.

Definition policy_from (c : QuotaConfig) : ResumePolicy :=
  mkPolicy (auto_resume c) (from_secs (max_wait_minutes c * 60))
    (resume_requires_clean_workspace c) (resume_requires_no_pending_approval c)
    (resume_only_at_step_boundary c).

Record ResumeContext := mkContext {
  window_elapsed : bool;
  at_step_boundary : bool;
  workspace_clean : bool;
  pending_destructive_approval : bool;
  user_cancelled : bool;
  provider_identity_changed : bool;
  waited : Duration;
}.

Inductive ResumeDecision :=
  | Resume
  | Wait
  | AskUser
  | BlockedBy (why : string).

Definition decide_resume (policy : ResumePolicy) (ctx : ResumeContext) : ResumeDecision :=
  if user_cancelled ctx then BlockedBy "the run was cancelled by the user"
  else if provider_identity_changed ctx then
    BlockedBy "the provider configuration changed during the wait"
  else if max_wait policy <? waited ctx then BlockedBy "the maximum wait time was exceeded"
  else if negb (window_elapsed ctx) then Wait
  else if only_at_step_boundary policy && negb (at_step_boundary ctx) then
    BlockedBy "not at a harness step boundary"
  else if requires_no_pending_approval policy && pending_destructive_approval ctx then
    BlockedBy "a destructive action is pending approval"
  else if requires_clean_workspace policy && negb (workspace_clean ctx) then
    BlockedBy "the workspace has unrelated uncommitted changes"
  else
    match mode policy with
    | Off => BlockedBy "auto-resume is off"
    | Ask => AskUser
    | Run | Global => Resume
    end.

(** ** The host's polling *)

(** What the host sees at one poll: the clock, whether the tree is clean,
    whether the run was cancelled, and the provider it was given, if any. *)
Record Poll := mkPoll {
  now : N;
  clean : bool;
  cancelled : bool;
  override_provider : option (list N);
}.

Definition poll_context (p : PausedRun) (s : Poll) : ResumeContext :=
  mkContext
    (match resume_eligible_unix p with Some t => t <=? now s | None => true end)
    true (clean s) false (cancelled s)
    (match override_provider s with
     | Some q => negb (bool_decide (q = provider_id p))
     | None => false
     end)
    (from_secs (sat_sub (now s) (paused_at_unix p))).

Definition WAIT_POLL_CAP_SECS : N := 30.

Definition wait_nap (p : PausedRun) (policy : ResumePolicy) (now poll_cap : N)
  : option Duration :=
  match resume_eligible_unix p with
  | None => None
  | Some eligible =>
      if eligible <=? now then None
      else
        let waited := sat_sub now (paused_at_unix p) in
        let until_max := sat_sub (as_secs (max_wait policy)) waited in
        if until_max =? 0 then None
        else Some (from_secs (N.max (N.min (N.min (eligible - now) poll_cap) until_max) 1))
  end.

Definition nap_of (p : PausedRun) (policy : ResumePolicy) (now : N) : Duration :=
  default (from_secs 1) (wait_nap p policy now WAIT_POLL_CAP_SECS).

Inductive WaitOutcome :=
  | Cancelled
  | Decided (d : ResumeDecision).

(** The loop over what the host would see at each poll; it stops at the first
    answer that is not [Wait].  [None]: it is still waiting after the last. *)
Fixpoint wait_loop (p : PausedRun) (policy : ResumePolicy) (polls : list Poll)
  : option WaitOutcome :=
  match polls with
  | [] => None
  | s :: polls =>
      if cancelled s then Some Cancelled
      else
        match decide_resume policy (poll_context p s) with
        | Wait => wait_loop p policy polls
        | decision => Some (Decided decision)
        end
  end.

(** ** The wait for a quota window is bounded and gated *)

(** Every gate between a paused run and its next step. *)
Definition gates_open (policy : ResumePolicy) (ctx : ResumeContext) : Prop :=
  user_cancelled ctx = false ∧ provider_identity_changed ctx = false ∧
  waited ctx <= max_wait policy ∧ window_elapsed ctx = true ∧
  (only_at_step_boundary policy = true → at_step_boundary ctx = true) ∧
  (requires_no_pending_approval policy = true → pending_destructive_approval ctx = false) ∧
  (requires_clean_workspace policy = true → workspace_clean ctx = true).

Lemma decide_resume_gates policy ctx : decide_resume policy ctx = Resume → gates_open policy ctx.
Proof.
  unfold decide_resume, gates_open. rewrite <-N.ltb_ge.
  destruct (user_cancelled ctx), (provider_identity_changed ctx),
    (max_wait policy <? waited ctx), (window_elapsed ctx); simpl; try done.
  destruct (only_at_step_boundary policy), (at_step_boundary ctx); simpl; try done.
  all: destruct (requires_no_pending_approval policy), (pending_destructive_approval ctx);
    simpl; try done.
  all: by destruct (requires_clean_workspace policy), (workspace_clean ctx).
Qed.

Lemma decide_resume_waits policy ctx :
  decide_resume policy ctx = Wait → waited ctx <= max_wait policy.
Proof.
  unfold decide_resume. intros Hd. apply N.ltb_ge.
  by destruct (user_cancelled ctx), (provider_identity_changed ctx),
    (max_wait policy <? waited ctx).
Qed.

(** A leaf of the gates' case analysis. *)
Ltac leaf := split_and!; (split; [intros; first [discriminate | intuition congruence]
                                 | intuition congruence]).

(** A paused run resumes by itself exactly when every gate is open and the
    mode is run or global; with every gate open the ask mode asks and the off
    mode blocks; and it keeps waiting only while the window is closed, the run
    neither cancelled nor moved to another provider, and the maximum wait not
    exceeded. *)
Theorem decide_resume_exact policy ctx :
  (decide_resume policy ctx = Resume ↔
   gates_open policy ctx ∧ (mode policy = Run ∨ mode policy = Global)) ∧
  (decide_resume policy ctx = AskUser ↔ gates_open policy ctx ∧ mode policy = Ask) ∧
  (decide_resume policy ctx = Wait ↔
   user_cancelled ctx = false ∧ provider_identity_changed ctx = false ∧
   waited ctx <= max_wait policy ∧ window_elapsed ctx = false).
Proof.
  unfold decide_resume, gates_open. rewrite <-N.ltb_ge.
  destruct (user_cancelled ctx); [by leaf|].
  destruct (provider_identity_changed ctx); [by leaf|].
  destruct (max_wait policy <? waited ctx); [by leaf|].
  destruct (window_elapsed ctx); simpl; [|by leaf].
  destruct (only_at_step_boundary policy), (at_step_boundary ctx); simpl; try by leaf.
  all: destruct (requires_no_pending_approval policy), (pending_destructive_approval ctx);
    simpl; try by leaf.
  all: destruct (requires_clean_workspace policy), (workspace_clean ctx); simpl; try by leaf.
  all: destruct (mode policy); by leaf.
Qed.

(** ** The backoff *)

Lemma round_div_even_lt a b k :
  0 < b → 0 < k → 2 * a < (2 * k - 1) * b → round_div_even a b < k.
Proof.
  intros Hb Hk Hle. unfold round_div_even. cbv zeta.
  pose proof (N.div_mod a b ltac:(lia)) as Hdm.
  pose proof (N.mod_lt a b ltac:(lia)) as Hr.
  generalize dependent (a `mod` b). generalize (a / b). intros q r Ha Hr.
  assert (Hq : q < k) by nia.
  destruct (N.ltb_spec (2 * r) b); [done|].
  assert (Hq1 : q + 1 < k) by nia.
  destruct (N.ltb_spec b (2 * r)); [done|]. by destruct (N.even q).
Qed.

(** The base delays: doubling from 15 seconds, capped at 15 minutes. *)
Lemma backoff_base_cases attempt :
  backoff_base attempt ∈ from_secs <$> [15; 30; 60; 120; 240; 480; 900].
Proof.
  unfold backoff_base, sat_sub.
  assert (Hs : ∃ k, N.min (attempt - 1) 16 = N.of_nat k ∧ (k <= 16)%nat).
  { exists (N.to_nat (N.min (attempt - 1) 16)). lia. }
  destruct Hs as (k & -> & Hk).
  do 17 (destruct k as [|k]; [vm_compute; repeat (left || right)|]). lia.
Qed.

Lemma backoff_around_base attempt nanos :
  backoff_base attempt / 2 <= backoff_with_jitter attempt nanos < backoff_base attempt.
Proof.
  unfold backoff_with_jitter, mul_fraction, jitter_fraction.
  assert (Hk : nanos `mod` 65536 < 65536) by (apply N.mod_lt; lia).
  pose proof (backoff_base_cases attempt) as Hb.
  set (k := nanos `mod` 65536) in *. clearbody k. set (b := backoff_base attempt) in *. clearbody b.
  assert (Heven : b = 2 * (b / 2) ∧ 65536 <= b / 2).
  { repeat (apply elem_of_cons in Hb as [->|Hb]; [by vm_compute|]). by apply not_elem_of_nil in Hb. }
  split; [lia|]. destruct Heven as [He Hlow].
  assert (round_div_even (b / 2 * k) 65536 < b / 2); [|lia].
  apply round_div_even_lt; [lia|lia|]. nia.
Qed.

Lemma backoff_base_double a b :
  1 <= a → a < b → b <= 6 → backoff_base a <= backoff_base b / 2.
Proof.
  intros Ha Hab Hb.
  assert (Hcases : (a, b) ∈ [(1, 2); (1, 3); (1, 4); (1, 5); (1, 6); (2, 3); (2, 4); (2, 5);
    (2, 6); (3, 4); (3, 5); (3, 6); (4, 5); (4, 6); (5, 6)]).
  { assert (a ∈ [1; 2; 3; 4; 5] ∧ b ∈ [2; 3; 4; 5; 6]) as [Hina Hinb].
    { split; rewrite !elem_of_cons; lia. }
    repeat (apply elem_of_cons in Hina as [->|Hina]); [..|by apply not_elem_of_nil in Hina];
      repeat (apply elem_of_cons in Hinb as [->|Hinb]); try lia;
      try (by apply not_elem_of_nil in Hinb); repeat (left || right). }
  repeat (apply elem_of_cons in Hcases as [[= -> ->]|Hcases]; [by vm_compute|]).
  by apply not_elem_of_nil in Hcases.
Qed.

(** The fallback backoff stays between half its base delay and the base
    delay, so between 7.5 seconds and 15 minutes, whatever the clock; up to the
    sixth pause a later one never waits less than an earlier one; but from the
    seventh on the windows stop growing, and the seventh may be shorter than
    the sixth. *)
Theorem backoff_bounds attempt nanos :
  MIN_BACKOFF / 2 <= backoff_with_jitter attempt nanos < MAX_BACKOFF ∧
  backoff_base attempt / 2 <= backoff_with_jitter attempt nanos < backoff_base attempt ∧
  (∀ later nanos', 1 <= attempt → attempt < later → later <= 6 →
     backoff_with_jitter attempt nanos < backoff_with_jitter later nanos') ∧
  backoff_with_jitter 7 0 < backoff_with_jitter 6 65535.
Proof.
  pose proof (backoff_around_base attempt nanos) as Hj.
  assert (Hb : MIN_BACKOFF <= backoff_base attempt <= MAX_BACKOFF).
  { pose proof (backoff_base_cases attempt) as Hb. revert Hb. generalize (backoff_base attempt).
    intros b Hb. repeat (apply elem_of_cons in Hb as [->|Hb]; [by vm_compute|]).
    by apply not_elem_of_nil in Hb. }
  split_and!; try lia; [| |by vm_compute].
  - pose proof (N.Div0.div_le_mono _ _ 2 (proj1 Hb)). lia.
  - intros later nanos' Ha Hlt Hle. pose proof (backoff_around_base later nanos').
    pose proof (backoff_base_double attempt later Ha Hlt Hle). lia.
Qed.

Lemma backoff_bounds_witness :
  backoff_with_jitter 2 999999999 < backoff_with_jitter 3 0.
Proof. by apply (backoff_bounds 2 999999999). Defined.

(** ** The pause record *)

(** A stated delay wins over a stated reset time, which wins over the
    backoff; a pause is eligible exactly that much later as long as the sum
    fits 64 bits, and when it does not the sum wraps: the window is already
    over at the next look at the clock. *)
Theorem pause_window info a step provider t nanos :
  let w := estimate_window info a t nanos in
  let p := paused_new step provider w t in
  (wait w = match retry_after info, reset_at info with
            | Some d, _ => d
            | None, Some r => from_secs (r - t)
            | None, None => backoff_with_jitter a nanos
            end) ∧
  (t + as_secs (wait w) <= U64_MAX →
   resume_eligible_unix p = Some (t + as_secs (wait w))) ∧
  (t <= U64_MAX → as_secs (wait w) <= U64_MAX → U64_MAX < t + as_secs (wait w) →
   ∀ s, t <= now s → window_elapsed (poll_context p s) = true).
Proof.
  cbv zeta. set (w := estimate_window info a t nanos). split_and!.
  - unfold w, estimate_window. simpl. by destruct (retry_after info), (reset_at info).
  - intros Hfit. simpl. by rewrite u64_add_small.
  - clearbody w. intros Ht Hw Hover s Hs. unfold poll_context. simpl. apply N.leb_le.
    unfold u64_add, U64_MAX in *. generalize dependent (as_secs (wait w)). intros d ? ?.
    rewrite <-(N.mod_unique (t + d) _ 1 (t + d - 18446744073709551616)) by lia. lia.
Qed.

(** A provider that answers [retry-after] with the largest 64-bit number. *)
Definition forever : QuotaInfo :=
  mkQuotaInfo (Some (from_secs U64_MAX)) None None true None.

Lemma pause_window_witness :
  window_elapsed (poll_context (paused_new 1 [112] (estimate_window forever 1 1700000000 0) 1700000000)
    (mkPoll 1700000000 true false None)) = true.
Proof.
  destruct (pause_window forever 1 1 [112] 1700000000 0) as (_ & _ & Hwrap).
  apply Hwrap; by vm_compute.
Defined.

(** ** The polling loop *)

(** The clock of a run of polls: each sleep takes at least as long as asked. *)
Fixpoint clock_runs (p : PausedRun) (policy : ResumePolicy) (polls : list Poll) : Prop :=
  match polls with
  | s :: ((s' :: _) as rest) =>
      now s + as_secs (nap_of p policy (now s)) <= now s' ∧ clock_runs p policy rest
  | _ => True
  end.

Lemma nap_at_least_a_second p policy t : 1 <= as_secs (nap_of p policy t) <= 30.
Proof.
  unfold nap_of, wait_nap, as_secs, from_secs, WAIT_POLL_CAP_SECS.
  assert (H1 : ∀ x, x * 1000000000 / 1000000000 = x) by (intros; by rewrite N.div_mul).
  destruct (resume_eligible_unix p) as [e|]; simpl; [|rewrite H1; lia].
  destruct (e <=? t); simpl; [rewrite H1; lia|].
  destruct (_ =? 0); simpl; rewrite H1; lia.
Qed.

Lemma wait_loop_None p policy polls :
  wait_loop p policy polls = None → ∀ s, s ∈ polls →
  decide_resume policy (poll_context p s) = Wait.
Proof.
  induction polls as [|s polls IH]; intros Hl x Hx; [by apply not_elem_of_nil in Hx|].
  simpl in Hl. destruct (cancelled s); [done|].
  destruct (decide_resume policy (poll_context p s)) eqn:Hd; try done.
  apply elem_of_cons in Hx as [->|Hx]; [done|by apply IH].
Qed.

Lemma clock_runs_last p policy s polls x :
  clock_runs p policy (s :: polls) → last (s :: polls) = Some x →
  now s + N.of_nat (length polls) <= now x.
Proof.
  revert s. induction polls as [|s' polls IH]; intros s Hc Hl.
  - simpl in *. simplify_eq. lia.
  - destruct Hc as [Hs Hc]. rewrite last_cons_cons in Hl. specialize (IH s' Hc Hl).
    pose proof (nap_at_least_a_second p policy (now s)). simpl. lia.
Qed.

Lemma wait_loop_resumes p policy polls : wait_loop p policy polls = Some (Decided Resume) →
  ∃ x, x ∈ polls ∧ decide_resume policy (poll_context p x) = Resume ∧
    (∀ t, resume_eligible_unix p = Some t → t <= now x) ∧ cancelled x = false ∧
    (∀ q, override_provider x = Some q → q = provider_id p) ∧
    (requires_clean_workspace policy = true → clean x = true).
Proof.
  induction polls as [|x l IH]; [done|]. simpl. destruct (cancelled x) eqn:Hcan; [done|].
  destruct (decide_resume policy (poll_context p x)) eqn:Hd; try done; intros Hl.
  - clear IH. exists x. split; [left|]. split; [done|].
    apply decide_resume_gates in Hd as (_ & Hprov & _ & Hwin & _ & _ & Hclean).
    unfold poll_context in *. simpl in *. split_and!; [|done| |done].
    + intros t Ht. rewrite Ht in Hwin. by apply N.leb_le.
    + intros q Hq. rewrite Hq in Hprov. by apply negb_false_iff, bool_decide_eq_true in Hprov.
  - destruct (IH Hl) as (y & Hy & ?). exists y. split; [by right|done].
Qed.

(** The wait ends: each sleep lasts between 1 and 30 seconds, and however
    the sleeps overrun, at most two polls more than the seconds of the maximum
    wait settle the run; if it then resumes, the poll that did so saw the
    window over, the run not cancelled, the provider the same and the
    workspace as clean as the policy asks. *)
Theorem wait_loop_settles p policy s polls :
  paused_at_unix p <= now s → clock_runs p policy (s :: polls) →
  (N.to_nat (as_secs (max_wait policy)) < length polls)%nat →
  ∃ outcome, wait_loop p policy (s :: polls) = Some outcome ∧
    (outcome = Decided Resume → ∃ x, x ∈ s :: polls ∧
       (∀ t, resume_eligible_unix p = Some t → t <= now x) ∧ cancelled x = false ∧
       (∀ q, override_provider x = Some q → q = provider_id p) ∧
       (requires_clean_workspace policy = true → clean x = true)).
Proof.
  intros Hp Hc Hlen. destruct (wait_loop p policy (s :: polls)) as [o|] eqn:Hl.
  - exists o. split; [done|]. intros ->. destruct (wait_loop_resumes _ _ _ Hl) as (x & Hx & _ & Hrest). by exists x.
  - exfalso. destruct (last (s :: polls)) as [x|] eqn:Hx; [|by apply last_None in Hx].
    pose proof (wait_loop_None p policy _ Hl x (last_Some_elem_of _ _ Hx)) as Hd.
    apply decide_resume_waits in Hd. unfold poll_context in Hd. simpl in Hd.
    pose proof (clock_runs_last p policy s polls x Hc Hx) as Hn.
    unfold from_secs, as_secs, sat_sub in *.
    pose proof (N.div_mod (max_wait policy) 1000000000 ltac:(lia)) as Hdm.
    pose proof (N.mod_lt (max_wait policy) 1000000000 ltac:(lia)).
    revert Hlen Hdm. generalize (max_wait policy / 1000000000). intros q Hlen Hdm. nia.
Qed.

(** A two-second window under a policy that resumes by itself. *)
Definition short_pause : PausedRun := mkPaused 100 "rate_limit" (Some 102) 3 [111; 112; 101; 110; 97; 105] 1.
Definition short_policy : ResumePolicy := mkPolicy Run (from_secs 2) true true true.
Definition at_second (t : N) : Poll := mkPoll t true false None.
Definition ticks : list Poll := [at_second 102; at_second 103; at_second 104].

Lemma wait_loop_settles_witness :
  ∃ outcome, wait_loop short_pause short_policy (at_second 100 :: ticks) = Some outcome ∧
    outcome = Decided Resume.
Proof.
  destruct (wait_loop_settles short_pause short_policy (at_second 100) ticks)
    as (outcome & Ho & _).
  - by vm_compute.
  - vm_compute. repeat split; discriminate.
  - vm_compute. lia.
  - exists outcome. split; [done|]. vm_compute in Ho. by injection Ho as <-.
Defined.
