(* ===== verification/Swarm.v ===== *)
(** * Swarm membership (crates/localpilot-server/src/swarm/registry.rs)

    Who belongs to which swarm, who spawned whom, and how many there may be:
    the registry's data and every operation on it.  Each operation of the
    source runs under one write lock, so it is one function from a registry to
    the next registry and the answer it gives; a query runs under the read lock
    and is a function of the registry alone.

    A [SessionId] is the 128-bit number of its UUID, which is also the order
    [as_uuid] sorts by.  [usize] has 64 bits.  An [Instant] is a number of
    nanoseconds on the monotonic clock; [duration_since] saturates at zero.
    A hash map is a [gmap]; where the source walks one, the walk is in
    ascending key order, and the answers either are sorted afterwards or do
    not depend on the order ([resolve_name] takes the only match there is). *)

From stdpp Require Import base gmap list sorting strings numbers.
From S2P Require Import Prelude RustStr Artifact Plan.
#[local] Open Scope N_scope.

Abbreviation SessionId := N.
Abbreviation SwarmId := string.
Abbreviation Instant := N.

(** ** Data *)

Record SwarmLimits := mkLimits { max_members : N; max_active : N }.
Definition SwarmLimits_default : SwarmLimits := mkLimits 32 4.

Inductive MemberRole := Coordinator | Worker | Peer.
#[export] Instance MemberRole_eq_dec : EqDecision MemberRole.
Proof. solve_decision. Defined.

Inductive MemberStatus := Active | Finished | Departed.
#[export] Instance MemberStatus_eq_dec : EqDecision MemberStatus.
Proof. solve_decision. Defined.

Definition is_active (s : MemberStatus) : bool :=
  match s with Active => true | _ => false end.

Record SwarmMember := mkMember {
  m_session : SessionId;
  m_name : string;
  m_role : MemberRole;
  m_status : MemberStatus;
  m_report_back_to : option SessionId;
  m_completion : option string;
}.
#[export] Instance SwarmMember_eq_dec : EqDecision SwarmMember.
Proof. solve_decision. Defined.

(** [SwarmMember::worker]. *)
Definition worker (session : SessionId) (name : string) (parent : SessionId) : SwarmMember :=
  mkMember session name Worker Active (Some parent) None.

Definition active (m : SwarmMember) : bool := is_active (m_status m).
Definition reports_to (parent : SessionId) (m : SwarmMember) : bool :=
  bool_decide (m_report_back_to m = Some parent).

(** Field updates through [get_mut]. *)
Definition set_m_role (r : MemberRole) (m : SwarmMember) : SwarmMember :=
  mkMember (m_session m) (m_name m) r (m_status m) (m_report_back_to m) (m_completion m).
Definition set_m_status (s : MemberStatus) (m : SwarmMember) : SwarmMember :=
  mkMember (m_session m) (m_name m) (m_role m) s (m_report_back_to m) (m_completion m).
Definition set_m_parent (p : option SessionId) (m : SwarmMember) : SwarmMember :=
  mkMember (m_session m) (m_name m) (m_role m) (m_status m) p (m_completion m).
Definition set_m_completion (c : option string) (m : SwarmMember) : SwarmMember :=
  mkMember (m_session m) (m_name m) (m_role m) (m_status m) (m_report_back_to m) c.

(** A slot held while a worker is being built. *)
Record Reservation := mkReservation { res_id : N; res_swarm : SwarmId }.

Inductive Admission :=
  | Reserved (slot : Reservation)
  | InFlight
  | Existing (session : SessionId).

Inductive SwarmError :=
  | MemberCapReached (cap : N)
  | ConcurrencyReached (cap : N)
  | UnknownSwarm (swarm : SwarmId)
  | UnknownMember (session : SessionId)
  | UnknownName (name : string)
  | AmbiguousName (name : string) (count : nat)
  | StaleReservation
  | MixedTopology
  | AlreadyInSwarm (session : SessionId) (swarm : SwarmId)
  | DuplicatePairSessions
  | EmptyPairName
  | DuplicatePairNames
  | PairMismatch.

Inductive SwarmTopology := Hierarchical | Pair.
#[export] Instance SwarmTopology_eq_dec : EqDecision SwarmTopology.
Proof. solve_decision. Defined.

Record Swarm := mkSwarm {
  topology : option SwarmTopology;
  members_of : gmap SessionId SwarmMember;
  reservations : gmap N (option string);
  settled_keys : gmap string SessionId;
  admitted : N;
  seat : option SessionId;  (* the field [coordinator] *)
  plan_of : option TaskPlan;
  heartbeats : gmap SessionId Instant;
}.

Definition Swarm_default : Swarm := mkSwarm None ∅ ∅ ∅ 0 None None ∅.

Record Registry := mkRegistry {
  swarms : gmap SwarmId Swarm;
  by_session : gmap SessionId SwarmId;
  limits : SwarmLimits;
  next_reservation : N;
}.

(** [SwarmRegistry::with_limits]. *)
Definition with_limits (lim : SwarmLimits) : Registry := mkRegistry ∅ ∅ lim 0.

(** Field updates of an entry and of the registry. *)
Definition set_topology (t : SwarmTopology) (e : Swarm) : Swarm :=
  mkSwarm (Some t) (members_of e) (reservations e) (settled_keys e) (admitted e)
    (seat e) (plan_of e) (heartbeats e).
Definition set_members (ms : gmap SessionId SwarmMember) (e : Swarm) : Swarm :=
  mkSwarm (topology e) ms (reservations e) (settled_keys e) (admitted e)
    (seat e) (plan_of e) (heartbeats e).
Definition set_reservations (rs : gmap N (option string)) (e : Swarm) : Swarm :=
  mkSwarm (topology e) (members_of e) rs (settled_keys e) (admitted e)
    (seat e) (plan_of e) (heartbeats e).
Definition set_settled (ks : gmap string SessionId) (e : Swarm) : Swarm :=
  mkSwarm (topology e) (members_of e) (reservations e) ks (admitted e)
    (seat e) (plan_of e) (heartbeats e).
Definition set_admitted (n : N) (e : Swarm) : Swarm :=
  mkSwarm (topology e) (members_of e) (reservations e) (settled_keys e) n
    (seat e) (plan_of e) (heartbeats e).
Definition set_seat (c : option SessionId) (e : Swarm) : Swarm :=
  mkSwarm (topology e) (members_of e) (reservations e) (settled_keys e) (admitted e)
    c (plan_of e) (heartbeats e).
Definition set_plan_of (p : option TaskPlan) (e : Swarm) : Swarm :=
  mkSwarm (topology e) (members_of e) (reservations e) (settled_keys e) (admitted e)
    (seat e) p (heartbeats e).
Definition set_heartbeats (hb : gmap SessionId Instant) (e : Swarm) : Swarm :=
  mkSwarm (topology e) (members_of e) (reservations e) (settled_keys e) (admitted e)
    (seat e) (plan_of e) hb.
Definition add_member (s : SessionId) (m : SwarmMember) (e : Swarm) : Swarm :=
  set_members (<[s := m]> (members_of e)) e.

Definition put (g : Registry) (w : SwarmId) (e : Swarm) : Registry :=
  mkRegistry (<[w := e]> (swarms g)) (by_session g) (limits g) (next_reservation g).
Definition set_by_session (bs : gmap SessionId SwarmId) (g : Registry) : Registry :=
  mkRegistry (swarms g) bs (limits g) (next_reservation g).
Definition index_session (s : SessionId) (w : SwarmId) (g : Registry) : Registry :=
  set_by_session (<[s := w]> (by_session g)) g.
Definition bump_reservation (g : Registry) : Registry :=
  mkRegistry (swarms g) (by_session g) (limits g) (u64_add (next_reservation g) 1).

(** [self.swarms.entry(swarm).or_default()], which leaves the entry behind. *)
Definition entry_or_default (g : Registry) (w : SwarmId) : Swarm :=
  default Swarm_default (swarms g !! w).

(** ** Reading an entry *)

Definition member_values (e : Swarm) : list SwarmMember := btree_values (members_of e).

Definition in_use (e : Swarm) : N :=
  u64_add (N.of_nat (length (filter active (member_values e))))
          (N.of_nat (size (reservations e))).

Definition is_unassigned (e : Swarm) : bool :=
  bool_decide (topology e = None) && bool_decide (members_of e = ∅)
  && bool_decide (reservations e = ∅) && bool_decide (settled_keys e = ∅)
  && (admitted e =? 0) && bool_decide (seat e = None)
  && match plan_of e with None => true | Some _ => false end
  && bool_decide (heartbeats e = ∅).

Definition has_topology (e : Swarm) (t : SwarmTopology) : bool :=
  bool_decide (topology e = Some t).

(** [usize::checked_add] and [Option::is_none_or]. *)
Definition checked_add (a b : N) : option N :=
  if a + b <=? U64_MAX then Some (a + b) else None.
Definition is_none_or {A} (o : option A) (f : A → bool) : bool :=
  match o with None => true | Some a => f a end.

Definition check_caps (e : Swarm) (lim : SwarmLimits) (addition : N)
    : result unit SwarmError :=
  let lifetime := checked_add (admitted e) (N.of_nat (size (reservations e))) in
  if is_none_or (lifetime ≫= λ used, checked_add used addition)
       (λ needed, max_members lim <? needed)
  then Err (MemberCapReached (max_members lim))
  else if is_none_or (checked_add (in_use e) addition)
            (λ needed, max_active lim <? needed)
  then Err (ConcurrencyReached (max_active lim))
  else Ok tt.

Definition pair_member_matches (e : Swarm) (session : SessionId) (name : string) : bool :=
  match members_of e !! session with
  | Some member =>
      bool_decide (m_name member = name) && bool_decide (m_role member = Peer)
      && bool_decide (m_status member = Active)
      && bool_decide (m_report_back_to member = None)
      && bool_decide (m_completion member = None)
  | None => false
  end.

Definition eq_ignore_ascii_case (a b : string) : bool :=
  bool_decide (to_ascii_lowercase a = to_ascii_lowercase b).

(** The swarm other than [w] that already holds [s]. *)
Definition elsewhere (g : Registry) (w : SwarmId) (s : SessionId) : option SwarmId :=
  match by_session g !! s with
  | Some existing => if decide (existing = w) then None else Some existing
  | None => None
  end.

(** ** Admission *)

Definition join_as_root (g : Registry) (swarm : SwarmId) (session : SessionId)
    (name : string) : Registry * result MemberRole SwarmError :=
  match elsewhere g swarm session with
  | Some existing => (g, Err (AlreadyInSwarm session existing))
  | None =>
    let entry := entry_or_default g swarm in
    let g1 := put g swarm entry in
    if has_topology entry Pair then (g1, Err MixedTopology)
    else match members_of entry !! session with
    | Some existing => (g1, Ok (m_role existing))
    | None =>
      let! _ := check_caps entry (limits g) 1 or g1 in
      let entry := set_topology Hierarchical entry in
      let '(entry, role) :=
        match seat entry with
        | None => (set_seat (Some session) entry, Coordinator)
        | Some _ => (entry, Worker)
        end in
      let entry := set_admitted (u64_add (admitted entry) 1) entry in
      let entry := add_member session (mkMember session name role Active None None) entry in
      (index_session session swarm (put g1 swarm entry), Ok role)
    end
  end.

(** The refusals of [join_as_pair] that look at its two arguments only. *)
Definition pair_arguments (first second : SessionId * string) : result unit SwarmError :=
  if decide (first.1 = second.1) then Err DuplicatePairSessions
  else if bool_decide (first.2 = "") || bool_decide (second.2 = "") then Err EmptyPairName
  else if eq_ignore_ascii_case first.2 second.2 then Err DuplicatePairNames
  else Ok tt.

(** The loop over the two sessions: whether either is mapped to [swarm]. *)
Fixpoint mapped_to_target (g : Registry) (swarm : SwarmId) (sessions : list SessionId)
    : result bool SwarmError :=
  match sessions with
  | [] => Ok false
  | session :: rest =>
      match by_session g !! session with
      | Some existing =>
          if decide (existing = swarm) then
            let? _ := mapped_to_target g swarm rest in Ok true
          else Err (AlreadyInSwarm session existing)
      | None => mapped_to_target g swarm rest
      end
  end.

(** The entry already holds exactly this pair. *)
Definition exact_pair (g : Registry) (swarm : SwarmId) (e : Swarm)
    (first second : SessionId * string) : bool :=
  bool_decide (size (members_of e) = 2%nat) && (admitted e =? 2)
  && bool_decide (reservations e = ∅) && bool_decide (settled_keys e = ∅)
  && bool_decide (seat e = None)
  && match plan_of e with None => true | Some _ => false end
  && pair_member_matches e first.1 first.2
  && pair_member_matches e second.1 second.2
  && bool_decide (by_session g !! first.1 = Some swarm)
  && bool_decide (by_session g !! second.1 = Some swarm).

Definition peer (p : SessionId * string) : SwarmMember :=
  mkMember p.1 p.2 Peer Active None None.

Definition admit_pair (g : Registry) (swarm : SwarmId) (first second : SessionId * string)
    : Registry :=
  let entry := entry_or_default g swarm in
  let entry := set_admitted 2 (set_topology Pair entry) in
  let entry := add_member first.1 (peer first) entry in
  let entry := add_member second.1 (peer second) entry in
  index_session second.1 swarm (index_session first.1 swarm (put g swarm entry)).

Definition join_as_pair (g : Registry) (swarm : SwarmId) (first second : SessionId * string)
    : Registry * result unit SwarmError :=
  let first := (first.1, trim first.2) in
  let second := (second.1, trim second.2) in
  let! _ := pair_arguments first second or g in
  let! mapped := mapped_to_target g swarm [first.1; second.1] or g in
  let admission :=
    let! _ := check_caps (entry_or_default g swarm) (limits g) 2 or g in
    (admit_pair g swarm first second, Ok tt) in
  match swarms g !! swarm with
  | Some entry =>
      match topology entry with
      | Some Hierarchical => (g, Err MixedTopology)
      | Some Pair =>
          if exact_pair g swarm entry first second then (g, Ok tt) else (g, Err PairMismatch)
      | None =>
          if mapped || negb (is_unassigned entry) then (g, Err PairMismatch) else admission
      end
  | None => if mapped then (g, Err PairMismatch) else admission
  end.

Definition key_in_flight (e : Swarm) (key : string) : bool :=
  existsb (λ held, bool_decide (held = Some key)) (btree_values (reservations e)).

Definition reserve (g : Registry) (swarm : SwarmId) (idempotency_key : option string)
    : Registry * result Admission SwarmError :=
  let slot := next_reservation g in
  let entry := entry_or_default g swarm in
  let g1 := put g swarm entry in
  let take :=
    let! _ := check_caps entry (limits g) 1 or g1 in
    let entry := set_topology Hierarchical entry in
    let entry := set_reservations (<[slot := idempotency_key]> (reservations entry)) entry in
    (bump_reservation (put g1 swarm entry), Ok (Reserved (mkReservation slot swarm))) in
  if has_topology entry Pair then (g1, Err MixedTopology)
  else match idempotency_key with
  | Some key =>
      match settled_keys entry !! key with
      | Some session => (g1, Ok (Existing session))
      | None => if key_in_flight entry key then (g1, Ok InFlight) else take
      end
  | None => take
  end.

Definition confirm (g : Registry) (r : Reservation) (member : SwarmMember)
    : Registry * result unit SwarmError :=
  let swarm := res_swarm r in
  if decide (m_role member = Peer) then (g, Err MixedTopology)
  else match by_session g !! m_session member with
  | Some existing => (g, Err (AlreadyInSwarm (m_session member) existing))
  | None =>
    let! entry := ok_or (swarms g !! swarm) StaleReservation or g in
    if negb (has_topology entry Hierarchical) then (g, Err MixedTopology)
    else
      let! key := ok_or (reservations entry !! res_id r) StaleReservation or g in
      let entry := set_reservations (delete (res_id r) (reservations entry)) entry in
      let entry :=
        match key with
        | Some key => set_settled (<[key := m_session member]> (settled_keys entry)) entry
        | None => entry
        end in
      let entry := set_admitted (u64_add (admitted entry) 1) entry in
      let entry := add_member (m_session member) member entry in
      (index_session (m_session member) swarm (put g swarm entry), Ok tt)
  end.

Definition release (g : Registry) (r : Reservation) : Registry * bool :=
  match swarms g !! res_swarm r with
  | Some entry =>
      (put g (res_swarm r) (set_reservations (delete (res_id r) (reservations entry)) entry),
       bool_decide (is_Some (reservations entry !! res_id r)))
  | None => (g, false)
  end.

(** ** Queries *)

Definition swarm_of (g : Registry) (session : SessionId) : option SwarmId :=
  by_session g !! session.

Definition member (g : Registry) (swarm : SwarmId) (session : SessionId)
    : option SwarmMember :=
  swarms g !! swarm ≫= λ entry, members_of entry !! session.

Definition session_le (a b : SwarmMember) : Prop := m_session a <= m_session b.
#[export] Instance session_le_dec : RelDecision session_le :=
  λ a b, N_le_dec (m_session a) (m_session b).

Definition members (g : Registry) (swarm : SwarmId) : list SwarmMember :=
  match swarms g !! swarm with
  | Some entry => merge_sort session_le (member_values entry)
  | None => []
  end.

Definition coordinator (g : Registry) (swarm : SwarmId) : option SessionId :=
  swarms g !! swarm ≫= seat.

Definition is_coordinator (g : Registry) (swarm : SwarmId) (session : SessionId) : bool :=
  bool_decide (coordinator g swarm = Some session).

Definition plan (g : Registry) (swarm : SwarmId) : option TaskPlan :=
  swarms g !! swarm ≫= plan_of.

(** The sessions of the members [f] keeps, in id order. *)
Definition sessions_where (e : Swarm) (f : SwarmMember → bool) : list SessionId :=
  sort_ids (m_session <$> filter f (member_values e)).

Definition query_sessions (g : Registry) (swarm : SwarmId) (f : Swarm → SwarmMember → bool)
    : list SessionId :=
  match swarms g !! swarm with
  | Some entry => sessions_where entry (f entry)
  | None => []
  end.

Definition is_stale (within : N) (now : Instant) (e : Swarm) (m : SwarmMember) : bool :=
  active m &&
  match heartbeats e !! m_session m with
  | Some last => within <? sat_sub now last
  | None => false
  end.

Definition stale_members (g : Registry) (swarm : SwarmId) (within : N) (now : Instant)
    : list SessionId := query_sessions g swarm (is_stale within now).

Definition terminal_members (g : Registry) (swarm : SwarmId) : list SessionId :=
  query_sessions g swarm (λ _ m, negb (active m)).

Definition children (g : Registry) (swarm : SwarmId) (session : SessionId)
    : list SessionId := query_sessions g swarm (λ _, reports_to session).

Definition resolve_name (g : Registry) (swarm : SwarmId) (name : string)
    : result SessionId SwarmError :=
  match swarms g !! swarm with
  | None => Err (UnknownName name)
  | Some entry =>
      match m_session <$> filter (λ m, eq_ignore_ascii_case (m_name m) name)
                            (member_values entry) with
      | [] => Err (UnknownName name)
      | [session] => Ok session
      | matches => Err (AmbiguousName name (length matches))
      end
  end.

(** ** The spawn tree *)

Definition parent_of (e : Swarm) (session : SessionId) : option SessionId :=
  members_of e !! session ≫= m_report_back_to.

(** The [while let] of [ancestors]: [out] grows at its end; [fuel] bounds the
    iterations, and [None] is running out of it. *)
Fixpoint ancestors_loop (fuel : nat) (e : Swarm) (seen : gset SessionId)
    (out : list SessionId) (current : option SessionId) : option (list SessionId) :=
  match current with
  | None => Some out
  | Some id =>
      match fuel with
      | O => None
      | S fuel =>
          if decide (id ∈ seen) then Some out
          else ancestors_loop fuel e ({[id]} ∪ seen) (out ++ [id]) (parent_of e id)
      end
  end.

(** Every id walked over but the last is a member's: one more step than there
    are members, and one for noticing a repetition, is enough. *)
Definition ancestors_fuel (e : Swarm) : nat := S (S (size (members_of e))).

Definition ancestors (g : Registry) (swarm : SwarmId) (session : SessionId)
    : option (list SessionId) :=
  match swarms g !! swarm with
  | None => Some []
  | Some entry => ancestors_loop (ancestors_fuel entry) entry ∅ [] (parent_of entry session)
  end.

(** The loop of [subtree].  The stack's last element is the head of the list
    here, so [stack.extend(..)] is a [rev_append]. *)
Fixpoint subtree_loop (fuel : nat) (e : Swarm) (seen : gset SessionId)
    (out stack : list SessionId) : option (list SessionId) :=
  match stack with
  | [] => Some out
  | id :: stack =>
      match fuel with
      | O => None
      | S fuel =>
          if decide (id ∈ seen) then subtree_loop fuel e seen out stack
          else
            let out := if decide (is_Some (members_of e !! id)) then out ++ [id] else out in
            let reporting := m_session <$> filter (reports_to id) (member_values e) in
            subtree_loop fuel e ({[id]} ∪ seen) out (rev_append reporting stack)
      end
  end.

(** Each member is pushed by the one member it reports to, once. *)
Definition subtree_fuel (e : Swarm) : nat := S (size (members_of e)).

Definition subtree (g : Registry) (swarm : SwarmId) (root : SessionId)
    : option (list SessionId) :=
  match swarms g !! swarm with
  | None => Some []
  | Some entry => sort_ids <$> subtree_loop (subtree_fuel entry) entry ∅ [] [root]
  end.

(** ** Changes *)

Definition heartbeat_at (g : Registry) (swarm : SwarmId) (session : SessionId)
    (at_ : Instant) : Registry :=
  match swarms g !! swarm with
  | Some entry => put g swarm (set_heartbeats (<[session := at_]> (heartbeats entry)) entry)
  | None => g
  end.

Definition is_active_member (e : Swarm) (session : SessionId) : bool :=
  match members_of e !! session with Some m => active m | None => false end.

(** [Iterator::min_by_key] on ids. *)
Definition min_id (l : list SessionId) : option SessionId :=
  match l with
  | [] => None
  | x :: l => Some (fold_left N.min l x)
  end.

Definition seat_held (e : Swarm) : bool :=
  match seat e with Some holder => is_active_member e holder | None => false end.

Definition seat_member (e : Swarm) (successor : SessionId) : Swarm :=
  let e := set_seat (Some successor) e in
  set_members (alter (set_m_role Coordinator) successor (members_of e)) e.

Definition elect_coordinator (g : Registry) (swarm : SwarmId)
    : Registry * option SessionId :=
  match swarms g !! swarm with
  | None => (g, None)
  | Some entry =>
      if has_topology entry Pair then (g, None)
      else if seat_held entry then (g, None)
      else match min_id (m_session <$> filter active (member_values entry)) with
      | None => (g, None)
      | Some successor => (put g swarm (seat_member entry successor), Some successor)
      end
  end.

(** [Option::filter]. *)
Definition keep {A} (f : A → bool) (o : option A) : option A :=
  match o with Some a => if f a then Some a else None | None => None end.

Definition new_parent (e : Swarm) (departed : SessionId) : option SessionId :=
  let grandparent :=
    keep (λ id, match members_of e !! id with
                | Some m => active m && negb (m_session m =? departed)
                | None => false
                end)
      (parent_of e departed) in
  match grandparent with
  | Some id => Some id
  | None =>
      keep (λ id, negb (id =? departed) && bool_decide (is_Some (members_of e !! id)))
        (seat e)
  end.

Definition adopt (parent : option SessionId) (e : Swarm) (id : SessionId) : Swarm :=
  set_members
    (alter (set_m_parent (keep (λ p, negb (p =? id)) parent)) id (members_of e)) e.

Definition reparent_children (g : Registry) (swarm : SwarmId) (departed : SessionId)
    : Registry * list SessionId :=
  match swarms g !! swarm with
  | None => (g, [])
  | Some entry =>
      let parent := new_parent entry departed in
      let moved := m_session <$> filter (reports_to departed) (member_values entry) in
      (put g swarm (fold_left (adopt parent) moved entry), sort_ids moved)
  end.

Definition set_member_status (g : Registry) (swarm : SwarmId) (session : SessionId)
    (status : MemberStatus) : Registry * result unit SwarmError :=
  let! entry := ok_or (swarms g !! swarm) (UnknownSwarm swarm) or g in
  let! m := ok_or (members_of entry !! session) (UnknownMember session) or g in
  (put g swarm (add_member session (set_m_status status m) entry), Ok tt).

Definition record_completion (g : Registry) (swarm : SwarmId) (session : SessionId)
    (report : string) : Registry * result (option SessionId) SwarmError :=
  let! entry := ok_or (swarms g !! swarm) (UnknownSwarm swarm) or g in
  let! m := ok_or (members_of entry !! session) (UnknownMember session) or g in
  let m := set_m_status Finished (set_m_completion (Some report) m) in
  (put g swarm (add_member session m entry), Ok (m_report_back_to m)).

Definition set_plan (g : Registry) (swarm : SwarmId) (p : TaskPlan)
    : Registry * result unit SwarmError :=
  let entry := entry_or_default g swarm in
  let g1 := put g swarm entry in
  if has_topology entry Pair then (g1, Err MixedTopology)
  else (put g1 swarm (set_plan_of (Some p) (set_topology Hierarchical entry)), Ok tt).

(** [mutate] gets the plan by [&mut] and answers a [T]. *)
Definition with_plan {T} (g : Registry) (swarm : SwarmId) (mutate : TaskPlan → TaskPlan * T)
    : Registry * result T SwarmError :=
  let! entry := ok_or (swarms g !! swarm) (UnknownSwarm swarm) or g in
  if has_topology entry Pair then (g, Err MixedTopology)
  else
    let! p := ok_or (plan_of entry) (UnknownSwarm swarm) or g in
    let '(p, answer) := mutate p in
    (put g swarm (set_plan_of (Some p) entry), Ok answer).

Definition remove (g : Registry) (swarm : SwarmId) (session : SessionId)
    : Registry * option SwarmMember :=
  match swarms g !! swarm with
  | None => (g, None)
  | Some entry =>
      match members_of entry !! session with
      | None => (g, None)
      | Some removed =>
          let entry := set_members (delete session (members_of entry)) entry in
          let g := set_by_session (delete session (by_session g)) (put g swarm entry) in
          let entry :=
            if bool_decide (seat entry = Some session) then set_seat None entry else entry in
          (put g swarm entry, Some removed)
      end
  end.

(** The loop of [restore] that refuses members held elsewhere. *)
Fixpoint restore_guard (g : Registry) (swarm : SwarmId) (ms : list SwarmMember)
    : result unit SwarmError :=
  match ms with
  | [] => Ok tt
  | m :: rest =>
      match elsewhere g swarm (m_session m) with
      | Some existing => Err (AlreadyInSwarm (m_session m) existing)
      | None => restore_guard g swarm rest
      end
  end.

Definition unindex (swarm : SwarmId) (bs : gmap SessionId SwarmId) (session : SessionId)
    : gmap SessionId SwarmId :=
  if bool_decide (bs !! session = Some swarm) then delete session bs else bs.

Definition restore (g : Registry) (swarm : SwarmId) (ms : list SwarmMember)
    (coord : option SessionId) (p : option TaskPlan) : Registry * result unit SwarmError :=
  if match swarms g !! swarm with Some e => has_topology e Pair | None => false end
     || existsb (λ m, bool_decide (m_role m = Peer)) ms
  then (g, Err MixedTopology)
  else
    let! _ := restore_guard g swarm ms or g in
    let count := N.of_nat (length ms) in
    let map := fold_left (λ map m, <[m_session m := m]> map) ms ∅ in
    let previous :=
      match swarms g !! swarm with Some e => btree_keys (members_of e) | None => [] end in
    let bs := fold_left (unindex swarm) previous (by_session g) in
    let bs := fold_left (λ bs s, <[s := swarm]> bs) (btree_keys map) bs in
    let entry := set_topology Hierarchical (entry_or_default g swarm) in
    let entry := set_plan_of p (set_seat coord (set_members map entry)) in
    let entry := set_admitted (N.max (admitted entry) count) entry in
    (put (set_by_session bs g) swarm entry, Ok tt).
