(* ===== verification/SwarmInv.v ===== *)
(** * The registry's coherence

    What every reachable registry satisfies - the session index and the
    entries agree, the two collaboration shapes never mix, an idempotency key
    has one owner - and the lemmas every operation of [Swarm] preserves it
    through.  Operations are put in a list ([op], [run_ops]) so that histories
    can be reasoned about. *)

From stdpp Require Import base gmap list sorting strings numbers.
From S2P Require Import Prelude RustStr Artifact Plan Swarm.
#[local] Open Scope N_scope.

(** ** Operations as data *)

Inductive op :=
  | JoinRoot (w : SwarmId) (s : SessionId) (name : string)
  | JoinPair (w : SwarmId) (first second : SessionId * string)
  | Reserve (w : SwarmId) (key : option string)
  | Confirm (r : Reservation) (m : SwarmMember)
  | Release (r : Reservation)
  | Heartbeat (w : SwarmId) (s : SessionId) (at_ : Instant)
  | Elect (w : SwarmId)
  | Reparent (w : SwarmId) (s : SessionId)
  | SetStatus (w : SwarmId) (s : SessionId) (st : MemberStatus)
  | RecordCompletion (w : SwarmId) (s : SessionId) (report : string)
  | SetPlan (w : SwarmId) (p : TaskPlan)
  | WithPlan (w : SwarmId) (mutate : TaskPlan → TaskPlan)
  | Remove (w : SwarmId) (s : SessionId)
  | RestoreOp (w : SwarmId) (ms : list SwarmMember) (c : option SessionId)
      (p : option TaskPlan).

Definition run_op (g : Registry) (o : op) : Registry :=
  match o with
  | JoinRoot w s name => fst (join_as_root g w s name)
  | JoinPair w a b => fst (join_as_pair g w a b)
  | Reserve w key => fst (reserve g w key)
  | Confirm r m => fst (confirm g r m)
  | Release r => fst (release g r)
  | Heartbeat w s t => heartbeat_at g w s t
  | Elect w => fst (elect_coordinator g w)
  | Reparent w s => fst (reparent_children g w s)
  | SetStatus w s st => fst (set_member_status g w s st)
  | RecordCompletion w s report => fst (record_completion g w s report)
  | SetPlan w p => fst (set_plan g w p)
  | WithPlan w f => fst (with_plan g w (λ p, (f p, tt)))
  | Remove w s => fst (remove g w s)
  | RestoreOp w ms c p => fst (restore g w ms c p)
  end.

Definition run_ops (g : Registry) (ops : list op) : Registry := fold_left run_op ops g.

(** ** The invariant *)

Definition all_members (P : SwarmMember → Prop) (e : Swarm) : Prop :=
  ∀ s m, members_of e !! s = Some m → P m.

Definition shape_ok (e : Swarm) : Prop :=
  match topology e with
  | None =>
      members_of e = ∅ ∧ reservations e = ∅ ∧ settled_keys e = ∅ ∧ admitted e = 0 ∧
      seat e = None ∧ plan_of e = None
  | Some Pair =>
      (size (members_of e) <= 2)%nat ∧ reservations e = ∅ ∧ settled_keys e = ∅ ∧
      admitted e = 2 ∧ seat e = None ∧ plan_of e = None ∧
      all_members (λ m, m_role m = Peer ∧ m_report_back_to m = None) e
  | Some Hierarchical => all_members (λ m, m_role m ≠ Peer) e
  end.

Definition keys_ok (e : Swarm) : Prop :=
  (∀ i j key, reservations e !! i = Some (Some key) →
     reservations e !! j = Some (Some key) → i = j) ∧
  (∀ i key, reservations e !! i = Some (Some key) → settled_keys e !! key = None).

Definition filed_ok (e : Swarm) : Prop :=
  ∀ s m, members_of e !! s = Some m → m_session m = s.

Record entry_ok (e : Swarm) : Prop := mkEntryOk {
  eo_filed : filed_ok e;
  eo_shape : shape_ok e;
  eo_keys : keys_ok e;
}.

Definition holds (g : Registry) (w : SwarmId) (s : SessionId) : Prop :=
  is_Some (members_of (entry_or_default g w) !! s).

Record reg_ok (g : Registry) : Prop := mkRegOk {
  ro_entries : ∀ w, entry_ok (entry_or_default g w);
  ro_index : ∀ s w, by_session g !! s = Some w ↔ holds g w s;
}.

(** ** Lemmas on entries *)

Lemma entry_or_default_put g w e w' :
  entry_or_default (put g w e) w' = if decide (w = w') then e else entry_or_default g w'.
Proof.
  unfold entry_or_default, put; cbn. case_decide as Hw; [subst|].
  - by rewrite lookup_insert_eq.
  - by rewrite lookup_insert_ne.
Qed.

Lemma entry_or_default_Some g w e : swarms g !! w = Some e → entry_or_default g w = e.
Proof. unfold entry_or_default. by intros ->. Qed.

Lemma entry_or_default_by_session bs g w :
  entry_or_default (set_by_session bs g) w = entry_or_default g w.
Proof. done. Qed.

Lemma entry_or_default_bump g w : entry_or_default (bump_reservation g) w = entry_or_default g w.
Proof. done. Qed.

Lemma Swarm_default_ok : entry_ok Swarm_default.
Proof. split; [done..|split; done]. Qed.

Lemma holds_unique g w w' s : reg_ok g → holds g w s → holds g w' s → w = w'.
Proof. intros [_ Hi] H1 H2. apply Hi in H1. apply Hi in H2. congruence. Qed.

(** An operation that rewrites one entry and keeps who is in it. *)
Lemma reg_ok_put g w e :
  reg_ok g → entry_ok e →
  (∀ s, is_Some (members_of e !! s) ↔ holds g w s) →
  reg_ok (put g w e).
Proof.
  intros [He Hi] Hok Hdom. split.
  - intros w'. rewrite entry_or_default_put. by case_decide.
  - intros s w'. unfold holds. rewrite entry_or_default_put. cbn [put by_session].
    rewrite Hi. case_decide as Hw; [subst|done]. symmetry. apply Hdom.
Qed.

Lemma reg_ok_bump g : reg_ok g → reg_ok (bump_reservation g).
Proof. by intros [He Hi]; split. Qed.

(** An operation that admits one session. *)
Lemma reg_ok_put_index g w e s :
  reg_ok g → entry_ok e →
  (∀ w', by_session g !! s = Some w' → w' = w) →
  (∀ s', is_Some (members_of e !! s') ↔ s' = s ∨ holds g w s') →
  reg_ok (index_session s w (put g w e)).
Proof.
  intros [He Hi] Hok Hs Hdom. split.
  - intros w'. unfold index_session. rewrite entry_or_default_by_session, entry_or_default_put.
    by case_decide.
  - intros s' w'. unfold index_session, holds.
    rewrite entry_or_default_by_session, entry_or_default_put.
    cbn [put set_by_session by_session].
    destruct (decide (s = s')) as [<-|Hne].
    + rewrite lookup_insert_eq. case_decide as Hw; [subst|].
      * rewrite Hdom. naive_solver.
      * split; [congruence|]. intros H. change (holds g w' s) in H.
        apply Hi in H. apply Hs in H. congruence.
    + rewrite lookup_insert_ne by done. rewrite Hi. case_decide as Hw; [subst|done].
      rewrite Hdom. naive_solver.
Qed.

(** The entry an operation creates on its way to a refusal. *)
Lemma reg_ok_touch g w : reg_ok g → reg_ok (put g w (entry_or_default g w)).
Proof. intros Hg. apply reg_ok_put; [done|apply Hg|done]. Qed.

Lemma put_put g w e e' : put (put g w e) w e' = put g w e'.
Proof. unfold put; cbn. by rewrite insert_insert_eq. Qed.

Lemma has_topology_true e t : has_topology e t = true ↔ topology e = Some t.
Proof. unfold has_topology. apply bool_decide_eq_true. Qed.
Lemma has_topology_false e t : has_topology e t = false ↔ topology e ≠ Some t.
Proof. unfold has_topology. apply bool_decide_eq_false. Qed.

(** Leaving the pair shape out, an entry has the members of a hierarchy. *)
Lemma not_pair_members e :
  entry_ok e → topology e ≠ Some Pair → all_members (λ m, m_role m ≠ Peer) e.
Proof.
  intros [_ Hs _] Ht s m Hm. unfold shape_ok in Hs.
  destruct (topology e) as [[]|]; [by eapply Hs|done|].
  destruct Hs as (Hms & _). rewrite Hms in Hm. done.
Qed.

Lemma elsewhere_None g w s :
  elsewhere g w s = None → ∀ w', by_session g !! s = Some w' → w' = w.
Proof. unfold elsewhere. intros H w' Hw'. rewrite Hw' in H. by case_decide. Qed.

Lemma filed_insert (ms : gmap SessionId SwarmMember) s m :
  (∀ s m, ms !! s = Some m → m_session m = s) → m_session m = s →
  ∀ s' m', <[s := m]> ms !! s' = Some m' → m_session m' = s'.
Proof. intros H Hm s' m'. rewrite lookup_insert. case_decide; naive_solver. Qed.

Lemma all_insert (P : SwarmMember → Prop) (ms : gmap SessionId SwarmMember) s m :
  (∀ s m, ms !! s = Some m → P m) → P m →
  ∀ s' m', <[s := m]> ms !! s' = Some m' → P m'.
Proof. intros H Hm s' m'. rewrite lookup_insert. case_decide; naive_solver. Qed.

Lemma is_Some_insert {A} (ms : gmap SessionId A) s m s' :
  is_Some (<[s := m]> ms !! s') ↔ s' = s ∨ is_Some (ms !! s').
Proof.
  rewrite lookup_insert. case_decide; [|naive_solver].
  split; [naive_solver|]. intros _. by eexists.
Qed.

(** ** Admission *)

Lemma join_as_root_ok g w s name : reg_ok g → reg_ok (fst (join_as_root g w s name)).
Proof.
  intros Hg. unfold join_as_root. destruct (elsewhere g w s) eqn:Hel; [done|].
  pose proof (elsewhere_None _ _ _ Hel) as Hs.
  pose proof (reg_ok_touch g w Hg) as Ht.
  set (e := entry_or_default g w) in *. cbn zeta.
  destruct (has_topology e Pair) eqn:Hp; [done|].
  destruct (members_of e !! s) eqn:Hm; [done|].
  destruct (check_caps e (limits g) 1); [|done].
  rewrite has_topology_false in Hp.
  assert (He : entry_ok e) by apply Hg.
  cbn [seat set_topology].
  destruct (seat e) eqn:Hseat; cbn [fst]; rewrite put_put;
    (apply reg_ok_put_index;
     [done|split|done|intros s'; cbn; apply is_Some_insert]);
    try (by intros s' m'; cbn; apply filed_insert; [apply He|done]);
    try (by apply He);
    (intros s' m'; cbn; apply (all_insert (λ m, m_role m ≠ Peer)); [|done];
      by apply not_pair_members).
Qed.

Lemma mapped_to_target_Ok g w l b :
  mapped_to_target g w l = Ok b →
  ∀ s, s ∈ l → match by_session g !! s with Some w' => w' = w ∧ b = true | None => True end.
Proof.
  revert b. induction l as [|x l IH]; simpl; intros b Hb s Hs; [by apply not_elem_of_nil in Hs|].
  apply elem_of_cons in Hs as [->|Hs].
  - destruct (by_session g !! x); [|done]. case_decide; [|done].
    destruct (mapped_to_target g w l); [|done]. by injection Hb as <-.
  - destruct (by_session g !! x); [case_decide; [|done]|by apply IH].
    destruct (mapped_to_target g w l) as [b'|]; [|done]. injection Hb as <-.
    specialize (IH b' eq_refl s Hs). destruct (by_session g !! s); naive_solver.
Qed.

Lemma unassigned_shape e : entry_ok e → topology e = None →
  members_of e = ∅ ∧ reservations e = ∅ ∧ settled_keys e = ∅ ∧ seat e = None ∧ plan_of e = None.
Proof. intros [_ Hs _] Ht. unfold shape_ok in Hs. rewrite Ht in Hs. naive_solver. Qed.

(** The entry after the pair is in, written out. *)
Definition paired (e : Swarm) (first second : SessionId * string) : Swarm :=
  add_member second.1 (peer second)
    (add_member first.1 (peer first) (set_admitted 2 (set_topology Pair e))).

Lemma paired_ok e a b :
  entry_ok e → topology e = None → entry_ok (paired e a b).
Proof.
  intros He Ht. pose proof (unassigned_shape e He Ht) as (Hm & Hr & Hk & Hc & Hp).
  unfold paired. split; cbn.
  - intros s m. cbn. rewrite Hm. do 2 (apply filed_insert; [|done]); done.
  - rewrite Hm. split_and!; try done.
    + rewrite !map_size_insert, map_size_empty. repeat case_match; unfold Datatypes.id in *; lia.
    + intros s m. cbn. rewrite Hm.
      do 2 (apply (all_insert (λ m, m_role m = Peer ∧ m_report_back_to m = None));
        [|done]); done.
  - unfold keys_ok; cbn. rewrite Hr. split; done.
Qed.

Lemma admit_pair_ok g w a b :
  reg_ok g → topology (entry_or_default g w) = None →
  by_session g !! a.1 = None → by_session g !! b.1 = None →
  reg_ok (admit_pair g w a b).
Proof.
  intros Hg Ht Ha Hb. set (e := entry_or_default g w).
  pose proof (unassigned_shape e (ro_entries g Hg w) Ht) as (Hm & _).
  assert (Hcase : admit_pair g w a b =
    index_session b.1 w (put (index_session a.1 w (put g w (paired e a a))) w (paired e a b))).
  { unfold admit_pair, index_session, set_by_session, put; cbn.
    by rewrite insert_insert_eq. }
  rewrite Hcase.
  assert (Hg1 : reg_ok (index_session a.1 w (put g w (paired e a a)))).
  { apply reg_ok_put_index; [done|by apply paired_ok; [apply Hg|]|congruence|].
    intros s. unfold holds. fold e. cbn. rewrite !is_Some_insert. tauto. }
  apply reg_ok_put_index; [done|by apply paired_ok; [apply Hg|]| |].
  - intros w'. unfold index_session; cbn. rewrite lookup_insert. case_decide; [naive_solver|].
    congruence.
  - intros s. unfold holds, index_session.
    rewrite entry_or_default_by_session, entry_or_default_put, decide_True by done.
    cbn. rewrite !is_Some_insert. tauto.
Qed.

(** What [join_as_pair] did, whichever way it answered. *)
Definition trimmed (p : SessionId * string) : SessionId * string := (p.1, trim p.2).

Definition fresh_pair (g : Registry) (w : SwarmId) (a b : SessionId * string) : Prop :=
  topology (entry_or_default g w) = None ∧
  by_session g !! a.1 = None ∧ by_session g !! b.1 = None.

Lemma join_as_pair_cases g w a b :
  match join_as_pair g w a b with
  | (g', Err _) => g' = g
  | (g', Ok _) =>
      pair_arguments (trimmed a) (trimmed b) = Ok tt ∧
      (g' = g ∧ (∃ e, swarms g !! w = Some e ∧ topology e = Some Pair ∧
                   exact_pair g w e (trimmed a) (trimmed b) = true) ∨
       g' = admit_pair g w (trimmed a) (trimmed b) ∧ fresh_pair g w a b ∧
       check_caps (entry_or_default g w) (limits g) 2 = Ok tt)
  end.
Proof.
  unfold join_as_pair, fresh_pair. fold (trimmed a) (trimmed b). cbn zeta.
  destruct (pair_arguments (trimmed a) (trimmed b)) as [[]|] eqn:Hargs; [|done].
  destruct (mapped_to_target g w _) as [mapped|] eqn:Hmap; [|done].
  assert (Hfree : mapped = false → by_session g !! a.1 = None ∧ by_session g !! b.1 = None).
  { intros ->. split; [pose proof (mapped_to_target_Ok _ _ _ _ Hmap a.1)|
      pose proof (mapped_to_target_Ok _ _ _ _ Hmap b.1)]; case_match; try done;
      (destruct H as [_ ?]; [set_solver|done]). }
  destruct (swarms g !! w) as [e|] eqn:He.
  - rewrite (entry_or_default_Some _ _ _ He). destruct (topology e) as [[]|] eqn:Ht; [done| |].
    + destruct (exact_pair g w e _ _) eqn:Hex; [|done]. split; [done|]. left.
      split; [done|]. by exists e.
    + destruct (mapped || _) eqn:Hbad; [done|]. apply orb_false_iff in Hbad as [-> _].
      destruct (check_caps e (limits g) 2) as [[]|]; [|done]. destruct Hfree; eauto 7.
  - destruct mapped; [done|]. destruct Hfree as [? ?]; [done|].
    destruct (check_caps _ (limits g) 2) as [[]|]; [|done]. split; [done|]. right.
    split_and!; try done. unfold entry_or_default. by rewrite He.
Qed.

Lemma join_as_pair_ok g w a b : reg_ok g → reg_ok (fst (join_as_pair g w a b)).
Proof.
  intros Hg. pose proof (join_as_pair_cases g w a b) as Hc.
  destruct (join_as_pair g w a b) as [g' [r|]]; cbn [fst] in *; [|by subst].
  destruct Hc as [_ [[-> _]|(-> & (Ht & Ha & Hb) & _)]]; [done|]. by apply admit_pair_ok.
Qed.

(** ** Reservations *)

Lemma key_in_flight_false e key :
  key_in_flight e key = false ↔ ∀ i, reservations e !! i ≠ Some (Some key).
Proof.
  unfold key_in_flight. rewrite <-not_true_iff_false, existsb_exists. split.
  - intros Hno i Hi. apply Hno. exists (Some key). split; [|by apply bool_decide_eq_true].
    apply list_elem_of_In, elem_of_btree_values. by exists i.
  - intros Hno (held & Hin & Heq). apply bool_decide_eq_true in Heq as ->.
    apply list_elem_of_In, elem_of_btree_values in Hin as [i Hi]. by apply (Hno i).
Qed.

Lemma reserve_entry_ok e slot key :
  entry_ok e → topology e ≠ Some Pair →
  (∀ k, key = Some k → settled_keys e !! k = None ∧ key_in_flight e k = false) →
  entry_ok (set_reservations (<[slot := key]> (reservations e)) (set_topology Hierarchical e)).
Proof.
  intros He Hp Hk. split; [by apply He|intros s m; by apply (not_pair_members e He Hp)|].
  destruct (eo_keys e He) as [Huniq Hset].
  assert (Hnew : ∀ k i, key = Some k → reservations e !! i ≠ Some (Some k)).
  { intros k i Hkey. destruct (Hk k Hkey) as [_ Hf]. rewrite key_in_flight_false in Hf. apply Hf. }
  split; cbn.
  - intros i j k. rewrite !lookup_insert. repeat case_decide; subst; intros Hi Hj; try done.
    + injection Hi as ->. by destruct (Hnew k j eq_refl).
    + injection Hj as ->. by destruct (Hnew k i eq_refl).
    + by eapply Huniq.
  - intros i k. rewrite lookup_insert. case_decide; intros Hi.
    + injection Hi as ->. by apply Hk.
    + by eapply Hset.
Qed.

(** The two ways [reserve] ends: an answer that only created the entry, or a
    slot taken. *)
Lemma reserve_cases g w key :
  let e := entry_or_default g w in
  match reserve g w key with
  | (g', Ok (Reserved r)) =>
      topology e ≠ Some Pair ∧ check_caps e (limits g) 1 = Ok tt ∧
      (∀ k, key = Some k → settled_keys e !! k = None ∧ key_in_flight e k = false) ∧
      r = mkReservation (next_reservation g) w ∧
      g' = bump_reservation (put g w
             (set_reservations (<[next_reservation g := key]> (reservations e))
                (set_topology Hierarchical e)))
  | (g', Ok InFlight) => g' = put g w e ∧ ∃ k, key = Some k ∧ key_in_flight e k = true
  | (g', Ok (Existing s)) => g' = put g w e ∧ ∃ k, key = Some k ∧ settled_keys e !! k = Some s
  | (g', Err _) => g' = put g w e
  end.
Proof.
  cbn zeta. unfold reserve. set (e := entry_or_default g w). cbn zeta.
  destruct (has_topology e Pair) eqn:Hp; [done|]. rewrite has_topology_false in Hp.
  destruct key as [k|]; [destruct (settled_keys e !! k) as [s|] eqn:Hs; [by eauto|];
    destruct (key_in_flight e k) eqn:Hf; [by eauto|]|];
    (destruct (check_caps e (limits g) 1) as [[]|]; [|done]; rewrite put_put;
     split_and!; try done; intros k' Hk'; by simplify_eq).
Qed.

Lemma reserve_ok g w key : reg_ok g → reg_ok (fst (reserve g w key)).
Proof.
  intros Hg. pose proof (reserve_cases g w key) as Hc. cbn zeta in Hc.
  pose proof (reg_ok_touch g w Hg) as Ht.
  destruct (reserve g w key) as [g' [[r| |s]|]]; cbn [fst];
    [|by destruct Hc as [-> _]|by destruct Hc as [-> _]|by subst].
  destruct Hc as (Hp & _ & Hk & -> & ->).
  apply reg_ok_bump, reg_ok_put; [done|by apply reserve_entry_ok; [apply Hg|..]|done].
Qed.

(** A slot given up or turned into a member leaves the other keys alone. *)
Lemma keys_ok_delete e i :
  keys_ok e → keys_ok (set_reservations (delete i (reservations e)) e).
Proof.
  intros [Huniq Hset]. split; cbn.
  - intros a b k Ha Hb. rewrite lookup_delete_Some in Ha, Hb. destruct Ha, Hb. by eapply Huniq.
  - intros a k Ha. rewrite lookup_delete_Some in Ha. destruct Ha. by eapply Hset.
Qed.

Lemma keys_ok_settle e i key s :
  keys_ok e → reservations e !! i = Some (Some key) →
  keys_ok (set_settled (<[key := s]> (settled_keys e))
             (set_reservations (delete i (reservations e)) e)).
Proof.
  intros [Huniq Hset] Hi. split; cbn.
  - intros a b k Ha Hb. rewrite lookup_delete_Some in Ha, Hb. destruct Ha, Hb. by eapply Huniq.
  - intros a k Ha. rewrite lookup_delete_Some in Ha. destruct Ha as [Hne Ha].
    rewrite lookup_insert_ne; [by eapply Hset|]. intros <-. by apply Hne, (Huniq _ _ key).
Qed.

(** The entry [confirm] writes. *)
Definition confirmed (e : Swarm) (slot : N) (key : option string) (m : SwarmMember) : Swarm :=
  let e' := set_reservations (delete slot (reservations e)) e in
  let e' := match key with
            | Some key => set_settled (<[key := m_session m]> (settled_keys e')) e'
            | None => e'
            end in
  add_member (m_session m) m (set_admitted (u64_add (admitted e') 1) e').

Lemma confirm_cases g r m :
  match confirm g r m with
  | (g', Err _) => g' = g
  | (g', Ok _) =>
      ∃ e key, swarms g !! res_swarm r = Some e ∧ topology e = Some Hierarchical ∧
        reservations e !! res_id r = Some key ∧ m_role m ≠ Peer ∧
        by_session g !! m_session m = None ∧
        g' = index_session (m_session m) (res_swarm r)
               (put g (res_swarm r) (confirmed e (res_id r) key m))
  end.
Proof.
  unfold confirm, confirmed. case_decide as Hr; [done|].
  destruct (by_session g !! m_session m) eqn:Hs; [done|].
  destruct (swarms g !! res_swarm r) as [e|] eqn:He; [cbn|done].
  destruct (has_topology e Hierarchical) eqn:Ht; [cbn|done]. rewrite has_topology_true in Ht.
  destruct (reservations e !! res_id r) as [key|] eqn:Hk; [cbn|done].
  exists e, key. split_and!; done.
Qed.

Lemma confirmed_ok e slot key m :
  entry_ok e → topology e = Some Hierarchical → reservations e !! slot = Some key →
  m_role m ≠ Peer → entry_ok (confirmed e slot key m).
Proof.
  intros [Hf Hs Hk] Ht Hkey Hrole. unfold shape_ok in Hs. rewrite Ht in Hs.
  assert (Hms : members_of (confirmed e slot key m) = <[m_session m := m]> (members_of e) ∧
    topology (confirmed e slot key m) = Some Hierarchical)
    by (by destruct key).
  destruct Hms as [Hms Htop]. split.
  - unfold filed_ok. rewrite Hms. by apply filed_insert.
  - unfold shape_ok, all_members. rewrite Htop, Hms.
    by apply (all_insert (λ m, m_role m ≠ Peer)).
  - destruct key as [key|]; [exact (keys_ok_settle e slot key _ Hk Hkey)|exact (keys_ok_delete e slot Hk)].
Qed.

Lemma confirm_ok g r m : reg_ok g → reg_ok (fst (confirm g r m)).
Proof.
  intros Hg. pose proof (confirm_cases g r m) as Hc.
  destruct (confirm g r m) as [g' [[]|]]; cbn [fst]; [|by subst].
  destruct Hc as (e & key & He & Ht & Hk & Hrole & Hs & ->).
  pose proof (entry_or_default_Some _ _ _ He) as Hd.
  apply reg_ok_put_index; [done| |intros w'; by rewrite Hs|].
  - apply confirmed_ok; try done. rewrite <-Hd. apply Hg.
  - intros s. unfold holds. rewrite Hd. destruct key; cbn; apply is_Some_insert.
Qed.

(** Changes to the entry that is there. *)
Lemma reg_ok_update g w e e' :
  reg_ok g → swarms g !! w = Some e → (entry_ok e → entry_ok e') →
  (∀ s, is_Some (members_of e' !! s) ↔ is_Some (members_of e !! s)) →
  reg_ok (put g w e').
Proof.
  intros Hg He Hok Hdom. pose proof (entry_or_default_Some _ _ _ He) as Hd.
  apply reg_ok_put; [done|..].
  - apply Hok. rewrite <-Hd. apply Hg.
  - intros s. unfold holds. by rewrite Hd.
Qed.

Lemma release_ok g r : reg_ok g → reg_ok (fst (release g r)).
Proof.
  intros Hg. unfold release. destruct (swarms g !! res_swarm r) as [e|] eqn:He; [|done].
  eapply reg_ok_update; [done..| |done].
  intros [Hf Hs Hk]. split; [done| |exact (keys_ok_delete e (res_id r) Hk)].
  unfold shape_ok in *. cbn. destruct (topology e) as [[]|]; [done|..].
  - destruct Hs as (? & -> & ?). rewrite delete_empty. naive_solver.
  - destruct Hs as (? & -> & ?). rewrite delete_empty. naive_solver.
Qed.

Lemma heartbeat_at_ok g w s t : reg_ok g → reg_ok (heartbeat_at g w s t).
Proof.
  intros Hg. unfold heartbeat_at. destruct (swarms g !! w) as [e|] eqn:He; [|done].
  eapply reg_ok_update; [done..| |done]. by intros [].
Qed.

(** Changes to one member that keep its session and its side of the topology. *)
Definition same_side (m m' : SwarmMember) : Prop :=
  m_session m' = m_session m ∧
  (m_role m ≠ Peer → m_role m' ≠ Peer) ∧
  (m_role m = Peer → m_report_back_to m = None →
     m_role m' = Peer ∧ m_report_back_to m' = None).

Lemma entry_ok_member e s m m' :
  entry_ok e → members_of e !! s = Some m → same_side m m' →
  entry_ok (add_member s m' e).
Proof.
  intros [Hf Hs Hk] Hm (Hses & Hr & Hp). split; [|clear Hk|done].
  - intros s' m''. cbn. apply filed_insert; [done|]. rewrite Hses. by apply Hf.
  - unfold shape_ok in *; cbn. destruct (topology e) as [[]|].
    + intros s' m''. apply (all_insert (λ m, m_role m ≠ Peer)); [done|]. apply Hr. by eapply Hs.
    + destruct Hs as (? & ? & ? & ? & ? & ? & Hall). split_and!; try done.
      * by rewrite map_size_insert_Some by by eexists.
      * intros s' m''. apply (all_insert (λ m, m_role m = Peer ∧ m_report_back_to m = None)); [done|].
        destruct (Hall s m Hm). by apply Hp.
    + destruct Hs as (Hms & _). rewrite Hms in Hm. done.
Qed.

Lemma is_Some_update (ms : gmap SessionId SwarmMember) s m m' s' :
  ms !! s = Some m → is_Some (<[s := m']> ms !! s') ↔ is_Some (ms !! s').
Proof. intros Hm. rewrite is_Some_insert. split; [|tauto]. intros [->|?]; [by exists m|done]. Qed.

Lemma member_update_ok g w e s m m' :
  reg_ok g → swarms g !! w = Some e → members_of e !! s = Some m → same_side m m' →
  reg_ok (put g w (add_member s m' e)).
Proof.
  intros Hg He Hm Hside. eapply reg_ok_update; [done..| |].
  - intros Hok. by eapply entry_ok_member.
  - intros s'. by apply (is_Some_update _ _ m).
Qed.

Lemma set_member_status_ok g w s st : reg_ok g → reg_ok (fst (set_member_status g w s st)).
Proof.
  intros Hg. unfold set_member_status. destruct (swarms g !! w) as [e|] eqn:He; [cbn|done].
  destruct (members_of e !! s) as [m|] eqn:Hm; [cbn|done]. by eapply member_update_ok.
Qed.

Lemma record_completion_ok g w s txt : reg_ok g → reg_ok (fst (record_completion g w s txt)).
Proof.
  intros Hg. unfold record_completion. destruct (swarms g !! w) as [e|] eqn:He; [cbn|done].
  destruct (members_of e !! s) as [m|] eqn:Hm; [cbn|done]. by eapply member_update_ok.
Qed.

(** ** Elections and adoptions *)

Lemma alter_Some {A} (f : A → A) (ms : gmap SessionId A) s m :
  ms !! s = Some m → alter f s ms = <[s := f m]> ms.
Proof.
  intros Hm. apply map_eq. intros i. destruct (decide (s = i)) as [<-|Hne].
  - by rewrite lookup_alter_eq, lookup_insert_eq, Hm.
  - by rewrite lookup_alter_ne, lookup_insert_ne.
Qed.

Lemma alter_None {A} (f : A → A) (ms : gmap SessionId A) s :
  ms !! s = None → alter f s ms = ms.
Proof.
  intros Hm. apply map_eq. intros i. destruct (decide (s = i)) as [<-|Hne].
  - by rewrite lookup_alter_eq, Hm.
  - by rewrite lookup_alter_ne.
Qed.

Lemma is_Some_alter {A} (f : A → A) (ms : gmap SessionId A) s s' :
  is_Some (alter f s ms !! s') ↔ is_Some (ms !! s').
Proof. rewrite lookup_alter. case_decide; subst; by rewrite ?fmap_is_Some. Qed.

Lemma entry_ok_alter e f s :
  entry_ok e → topology e ≠ Some Pair →
  (∀ m, m_role m ≠ Peer → same_side m (f m)) →
  entry_ok (set_members (alter f s (members_of e)) e).
Proof.
  intros He Ht Hside. destruct (members_of e !! s) as [m|] eqn:Hm.
  - rewrite (alter_Some f _ s m Hm). apply (entry_ok_member e s m); [done..|].
    apply Hside. by apply (not_pair_members e He Ht s).
  - rewrite alter_None by done. by destruct e.
Qed.

Lemma adopt_ok parent e s :
  entry_ok e → topology e ≠ Some Pair → entry_ok (adopt parent e s).
Proof. intros He Ht. apply entry_ok_alter; [done..|]. intros m Hm. by split. Qed.

Lemma adopt_topology parent e s : topology (adopt parent e s) = topology e.
Proof. done. Qed.

Lemma adopts_ok parent l e :
  entry_ok e → topology e ≠ Some Pair → entry_ok (fold_left (adopt parent) l e).
Proof.
  revert e. induction l as [|s l IH]; intros e He Ht; [done|]. simpl.
  apply IH; [by apply adopt_ok|done].
Qed.

Lemma adopts_members parent l e s :
  is_Some (members_of (fold_left (adopt parent) l e) !! s) ↔ is_Some (members_of e !! s).
Proof.
  revert e. induction l as [|x l IH]; intros e; [done|]. simpl. rewrite IH. apply is_Some_alter.
Qed.

(** Nobody in a pair reports to anybody. *)
Lemma pair_has_no_children e departed :
  entry_ok e → topology e = Some Pair →
  filter (reports_to departed) (member_values e) = [].
Proof.
  intros [_ Hs _] Ht. unfold shape_ok in Hs. rewrite Ht in Hs.
  destruct Hs as (_ & _ & _ & _ & _ & _ & Hall).
  apply filter_nil_iff. intros m Hm Hr. unfold member_values in Hm.
  rewrite elem_of_btree_values in Hm. destruct Hm as [s Hm].
  destruct (Hall s m Hm) as [_ Hnone]. unfold reports_to in Hr. rewrite Hnone in Hr.
  by apply bool_decide_unpack in Hr.
Qed.

Lemma reparent_children_ok g w s : reg_ok g → reg_ok (fst (reparent_children g w s)).
Proof.
  intros Hg. unfold reparent_children. destruct (swarms g !! w) as [e|] eqn:He; [cbn|done].
  pose proof (entry_or_default_Some _ _ _ He) as Hd.
  assert (Hok : entry_ok e) by (rewrite <-Hd; apply Hg).
  eapply reg_ok_update; [done..| |intros s'; apply adopts_members].
  intros _. destruct (decide (topology e = Some Pair)) as [Hp|Hp].
  - by rewrite pair_has_no_children.
  - by apply adopts_ok.
Qed.

Lemma min_id_elem l s : min_id l = Some s → s ∈ l ∧ ∀ x, x ∈ l → s <= x.
Proof.
  destruct l as [|y l]; simpl; [done|]. intros [= <-].
  assert (H : ∀ a, fold_left N.min l a ∈ a :: l ∧ ∀ x, x ∈ a :: l → fold_left N.min l a <= x).
  { induction l as [|z l IH]; intros a; simpl.
    - split; [by apply list_elem_of_here|]. intros x Hx.
      apply list_elem_of_singleton in Hx as ->. lia.
    - destruct (IH (N.min a z)) as [Hin Hle]. split.
      + apply elem_of_cons in Hin as [->|Hin]; [|set_solver].
        destruct (N.min_spec a z) as [[_ ->]|[_ ->]]; set_solver.
      + intros x Hx.
        assert (Hm : fold_left N.min l (N.min a z) <= N.min a z)
          by (apply Hle, list_elem_of_here).
        apply elem_of_cons in Hx as [->|Hx]; [lia|].
        apply elem_of_cons in Hx as [->|Hx]; [lia|].
        apply Hle. by apply list_elem_of_further. }
  apply H.
Qed.

Lemma min_id_None l : min_id l = None ↔ l = [].
Proof. by destruct l. Qed.

Lemma seat_member_ok e s :
  entry_ok e → topology e = Some Hierarchical → entry_ok (seat_member e s).
Proof.
  intros He Ht. unfold seat_member.
  assert (He' : entry_ok (set_seat (Some s) e)).
  { destruct He as [Hf Hs Hk]. split; [done| |done]. unfold shape_ok in *; cbn.
    rewrite Ht in *. done. }
  apply (entry_ok_alter (set_seat (Some s) e)); [done|by cbn; rewrite Ht|].
  intros m Hm. by split.
Qed.

Lemma elect_coordinator_ok g w : reg_ok g → reg_ok (fst (elect_coordinator g w)).
Proof.
  intros Hg. unfold elect_coordinator. destruct (swarms g !! w) as [e|] eqn:He; [cbn|done].
  destruct (has_topology e Pair) eqn:Hp; [done|]. rewrite has_topology_false in Hp.
  destruct (seat_held e); [done|]. destruct (min_id _) as [s|] eqn:Hmin; [cbn|done].
  eapply reg_ok_update; [done..| |intros s'; apply is_Some_alter].
  intros Hok. apply seat_member_ok; [done|]. destruct Hok as [_ Hs _]. unfold shape_ok in Hs.
  destruct (topology e) as [[]|]; [done..|]. destruct Hs as [Hms _].
  unfold member_values in Hmin. rewrite Hms in Hmin. vm_compute in Hmin. done.
Qed.

(** ** Plans *)

Lemma set_plan_of_ok e p :
  entry_ok e → topology e ≠ Some Pair →
  entry_ok (set_plan_of p (set_topology Hierarchical e)).
Proof.
  intros He Hp. split; [apply He| |apply He].
  intros s m. by apply (not_pair_members e He Hp).
Qed.

Lemma set_plan_ok g w p : reg_ok g → reg_ok (fst (set_plan g w p)).
Proof.
  intros Hg. unfold set_plan. cbn zeta. destruct (has_topology _ Pair) eqn:Hp.
  - by apply reg_ok_touch.
  - cbn [fst]. rewrite put_put. rewrite has_topology_false in Hp.
    apply reg_ok_put; [done| |done]. apply set_plan_of_ok; [apply Hg|done].
Qed.

Lemma with_plan_ok {T} g w (f : TaskPlan → TaskPlan * T) :
  reg_ok g → reg_ok (fst (with_plan g w f)).
Proof.
  intros Hg. unfold with_plan. destruct (swarms g !! w) as [e|] eqn:He; [cbn|done].
  destruct (has_topology e Pair) eqn:Hp; [done|]. rewrite has_topology_false in Hp.
  destruct (plan_of e) as [p|] eqn:Hplan; [cbn|done]. destruct (f p) as [p' t].
  eapply reg_ok_update; [done..| |done]. intros [Hf Hs Hk]. split; [done| |done].
  unfold shape_ok in *; cbn. destruct (topology e) as [[]|]; [done..|].
  destruct Hs as (_ & _ & _ & _ & _ & Hnone). congruence.
Qed.

(** ** Leaving and restoring *)

Lemma entry_ok_delete e s c :
  entry_ok e → (c = None ∨ c = seat e) →
  entry_ok (set_seat c (set_members (delete s (members_of e)) e)).
Proof.
  intros [Hf Hs Hk] Hc.
  assert (Hsub : ∀ P : SwarmMember → Prop, all_members P e →
    ∀ s' m, delete s (members_of e) !! s' = Some m → P m).
  { intros P HP s' m. rewrite lookup_delete_Some. intros [_ Hm]. by apply (HP s'). }
  split; [|clear Hk|done].
  - intros s' m. cbn. rewrite lookup_delete_Some. intros [_ ?]. by apply Hf.
  - unfold shape_ok in *; cbn. destruct (topology e) as [[]|].
    + exact (Hsub _ Hs).
    + destruct Hs as (Hn & ? & ? & ? & Hseat & ? & Hall).
      split_and!; [|done..|by destruct Hc; congruence|done|exact (Hsub _ Hall)].
      rewrite map_size_delete. destruct (members_of e !! s); unfold Datatypes.id; lia.
    + destruct Hs as (-> & ? & ? & ? & Hseat & ?). rewrite delete_empty.
      split_and!; [done..|by destruct Hc; congruence|done].
Qed.

Lemma remove_ok g w s : reg_ok g → reg_ok (fst (remove g w s)).
Proof.
  intros Hg. unfold remove. destruct (swarms g !! w) as [e|] eqn:He; [|done].
  pose proof (entry_or_default_Some _ _ _ He) as Hd.
  destruct (members_of e !! s) as [m|] eqn:Hm; [cbn [fst]|done].
  set (e' := if bool_decide _ then _ else _).
  assert (Hshape : ∃ c, (c = None ∨ c = seat e) ∧
    e' = set_seat c (set_members (delete s (members_of e)) e)).
  { unfold e'. case_bool_decide; [by exists None; auto|]. exists (seat e). by auto. }
  destruct Hshape as (c & Hc & ->).
  destruct Hg as [Hok Hi]. split.
  - intros w'. rewrite entry_or_default_put. case_decide; [|rewrite entry_or_default_by_session,
      entry_or_default_put, decide_False by done; apply Hok].
    apply entry_ok_delete; [|done]. rewrite <-Hd. apply Hok.
  - intros s' w'. unfold holds. rewrite entry_or_default_put. cbn [put set_by_session by_session].
    assert (Hhere : holds g w s) by (unfold holds; rewrite Hd, Hm; by eexists).
    case_decide as Hw; [subst w'|].
    + cbn. destruct (decide (s = s')) as [<-|Hne].
      * rewrite !lookup_delete_eq. split; [done|by intros []].
      * rewrite !lookup_delete_ne, Hi by done. unfold holds. by rewrite Hd.
    + rewrite entry_or_default_by_session, entry_or_default_put, decide_False by done.
      destruct (decide (s = s')) as [<-|Hne].
      * rewrite lookup_delete_eq. split; [done|]. intros Hthere. exfalso.
        apply Hw. by eapply holds_unique; [|exact Hhere|exact Hthere].
      * rewrite lookup_delete_ne by done. apply Hi.
Qed.

Lemma restore_guard_Ok g w ms :
  restore_guard g w ms = Ok tt → ∀ m, m ∈ ms → elsewhere g w (m_session m) = None.
Proof.
  induction ms as [|m ms IH]; simpl; intros H m' Hin; [by apply not_elem_of_nil in Hin|].
  destruct (elsewhere g w (m_session m)) eqn:He; [done|].
  apply elem_of_cons in Hin as [->|Hin]; [done|by apply IH].
Qed.

(** The map [restore] collects: the last record of each session. *)
Definition collect (ms : list SwarmMember) : gmap SessionId SwarmMember :=
  fold_left (λ map m, <[m_session m := m]> map) ms ∅.

Lemma collect_lookup ms s m :
  collect ms !! s = Some m → m ∈ ms ∧ m_session m = s.
Proof.
  unfold collect.
  assert (H : ∀ acc : gmap SessionId SwarmMember,
    fold_left (λ map m, <[m_session m := m]> map) ms acc !! s = Some m →
    acc !! s = Some m ∨ m ∈ ms ∧ m_session m = s).
  { induction ms as [|x ms IH]; simpl; intros acc Hl; [by left|].
    destruct (IH _ Hl) as [Hin|[Hin Hs]]; [|right; set_solver].
    rewrite lookup_insert in Hin. case_decide; [|by left]. injection Hin as <-.
    right. set_solver. }
  intros Hl. destruct (H ∅ Hl) as [Hno|?]; [|done]. done.
Qed.

Lemma unindex_fold w l bs s :
  fold_left (unindex w) l bs !! s =
    if decide (s ∈ l ∧ bs !! s = Some w) then None else bs !! s.
Proof.
  revert bs. induction l as [|x l IH]; intros bs; cbn [fold_left].
  - case_decide as H; [by destruct H as [H%not_elem_of_nil _]|done].
  - rewrite IH. unfold unindex. destruct (decide (x = s)) as [->|Hne].
    + case_bool_decide as Hx.
      * rewrite lookup_delete_eq, (decide_True (P := s ∈ s :: l ∧ _)) by (split; [by left|done]).
        by case_decide.
      * rewrite !decide_False by tauto. done.
    + assert (Hl : s ∈ x :: l ↔ s ∈ l)
        by (rewrite elem_of_cons; split; [intros [?|?]; congruence|tauto]).
      case_bool_decide; rewrite ?lookup_delete_ne by done; apply decide_ext; by rewrite Hl.
Qed.

Lemma index_fold w l (bs : gmap SessionId SwarmId) s :
  fold_left (λ bs s, <[s := w]> bs) l bs !! s =
    if decide (s ∈ l) then Some w else bs !! s.
Proof.
  revert bs. induction l as [|x l IH]; intros bs; cbn [fold_left].
  - case_decide as H; [by apply not_elem_of_nil in H|done].
  - rewrite IH, lookup_insert. destruct (decide (x = s)) as [->|Hne].
    + rewrite (decide_True (P := s ∈ s :: l)) by by left. by case_decide.
    + apply decide_ext. rewrite elem_of_cons. split; [tauto|intros [?|?]; congruence].
Qed.

Lemma restored_entry_ok e ms c p n :
  entry_ok e → (∀ m, m ∈ ms → m_role m ≠ Peer) →
  entry_ok (set_admitted n (set_plan_of p (set_seat c (set_members (collect ms)
    (set_topology Hierarchical e))))).
Proof.
  intros [_ _ Hk] Hrole. split; [| |done].
  - intros s m Hm. by apply collect_lookup in Hm as [_ ?].
  - intros s m Hm. apply collect_lookup in Hm as [? _]. by apply Hrole.
Qed.

Lemma restore_ok g w ms c p : reg_ok g → reg_ok (fst (restore g w ms c p)).
Proof.
  intros Hg. unfold restore. destruct (_ || existsb _ ms) eqn:Hbad; [done|].
  apply orb_false_iff in Hbad as [_ Hrole].
  destruct (restore_guard g w ms) as [[]|] eqn:Hguard; [cbn zeta|done].
  fold (collect ms). cbn [fst].
  set (previous := match swarms g !! w with Some e => btree_keys (members_of e) | None => [] end).
  assert (Hprev : ∀ s, s ∈ previous ↔ holds g w s).
  { intros s. unfold previous, holds, entry_or_default.
    destruct (swarms g !! w); [apply elem_of_btree_keys|]. cbn.
    split; [by intros ?%not_elem_of_nil|by intros []]. }
  destruct Hg as [Hok Hi]. split.
  - intros w'. rewrite entry_or_default_put. case_decide; [|apply Hok].
    apply restored_entry_ok; [apply Hok|]. intros m Hm Hp.
    rewrite <-not_true_iff_false, existsb_exists in Hrole. apply Hrole. exists m.
    split; [by apply list_elem_of_In|by apply bool_decide_eq_true].
  - intros s w'. unfold holds. rewrite entry_or_default_put.
    cbn [put set_by_session by_session]. rewrite index_fold, unindex_fold.
    assert (Hkeys : s ∈ btree_keys (collect ms) ↔ is_Some (collect ms !! s))
      by apply elem_of_btree_keys.
    assert (Hfree : is_Some (collect ms !! s) → ∀ w', by_session g !! s = Some w' → w' = w).
    { intros [m [Hm <-]%collect_lookup]. by eapply elsewhere_None, restore_guard_Ok. }
    case_decide as Hin.
    + rewrite Hkeys in Hin. case_decide as Hw; [subst w'; naive_solver|].
      change (Some w = Some w' ↔ holds g w' s). split; [congruence|].
      intros H. apply Hi in H. apply Hfree in H; [|done]. congruence.
    + rewrite Hkeys in Hin. case_decide as Hold; rewrite Hprev in Hold.
      * case_decide as Hw; [subst w'; cbn; naive_solver|].
        change (None = Some w' ↔ holds g w' s). split; [done|]. intros H. apply Hi in H.
        destruct Hold as [_ Hold]. congruence.
      * case_decide as Hw; [subst w'; cbn|apply Hi].
        split; [|done]. intros Hs. exfalso. apply Hold. split; [by apply Hi|done].
Qed.

(** ** Histories *)

Lemma run_op_ok g o : reg_ok g → reg_ok (run_op g o).
Proof.
  intros Hg. destruct o; cbn [run_op];
    eauto using join_as_root_ok, join_as_pair_ok, reserve_ok, confirm_ok, release_ok,
      heartbeat_at_ok, elect_coordinator_ok, reparent_children_ok, set_member_status_ok,
      record_completion_ok, set_plan_ok, with_plan_ok, remove_ok, restore_ok.
Qed.

Lemma run_ops_ok g ops : reg_ok g → reg_ok (run_ops g ops).
Proof.
  unfold run_ops. revert g. induction ops as [|o ops IH]; intros g Hg; [done|].
  simpl. by apply IH, run_op_ok.
Qed.

Lemma with_limits_ok lim : reg_ok (with_limits lim).
Proof.
  split; [intros w; apply Swarm_default_ok|]. intros s w. split; [done|by intros []].
Qed.
