(* ===== verification/SwarmCaps.v ===== *)
(** * How many members a swarm may have

    The two bounds of [SwarmLimits], over every history of admissions: the
    lifetime count with the slots held never passes [max_members], and the
    running members with the slots held never pass [max_active].  [restore]
    and a status set back to [Active] are left out: the source counts neither
    (a restored swarm is taken as it was, and no caller revives a member). *)

From stdpp Require Import base gmap list sorting strings numbers.
From S2P Require Import Prelude RustStr Artifact Plan Swarm SwarmInv.
#[local] Open Scope N_scope.

(** ** Counting *)

Definition running (e : Swarm) : N := N.of_nat (length (filter active (member_values e))).
Definition held (e : Swarm) : N := N.of_nat (size (reservations e)).

Record capped_entry (lim : SwarmLimits) (e : Swarm) : Prop := mkCapped {
  cap_life : admitted e + held e <= max_members lim;
  cap_active : running e + held e <= max_active lim;
}.

Definition capped (g : Registry) : Prop :=
  ∀ w, capped_entry (limits g) (entry_or_default g w).

Definition counted_op (o : op) : Prop :=
  match o with
  | RestoreOp _ _ _ _ => False
  | SetStatus _ _ st => st ≠ Active
  | _ => True
  end.

Definition count_active (ms : gmap SessionId SwarmMember) : nat :=
  length (filter active (btree_values ms)).

Lemma filter_active_perm (l k : list SwarmMember) :
  l ≡ₚ k → length (filter active l) = length (filter active k).
Proof. by intros ->. Qed.

Lemma count_active_new ms s m :
  ms !! s = None →
  count_active (<[s := m]> ms) = (count_active ms + if active m then 1 else 0)%nat.
Proof.
  intros Hs. unfold count_active. rewrite (filter_active_perm _ _ (btree_values_insert ms s m Hs)).
  rewrite filter_cons. case_decide as Ha; destruct (active m); try done; simpl; lia.
Qed.

Lemma count_active_delete ms s m :
  ms !! s = Some m →
  count_active ms = (count_active (delete s ms) + if active m then 1 else 0)%nat.
Proof.
  intros Hs. unfold count_active. rewrite (filter_active_perm _ _ (btree_values_delete ms s m Hs)).
  rewrite filter_cons. case_decide as Ha; destruct (active m); try done; simpl; lia.
Qed.

Lemma count_active_insert ms s m :
  (count_active (<[s := m]> ms) <= S (count_active ms))%nat.
Proof.
  rewrite <-insert_delete_eq, count_active_new by apply lookup_delete_eq.
  destruct (ms !! s) as [m'|] eqn:Hs.
  - rewrite (count_active_delete ms s m' Hs). destruct (active m); lia.
  - rewrite delete_id by done. destruct (active m); lia.
Qed.

(** Rewriting a member does not add a running one unless it starts running. *)
Lemma count_active_update ms s m m' :
  ms !! s = Some m → (active m' = true → active m = true) →
  (count_active (<[s := m']> ms) <= count_active ms)%nat.
Proof.
  intros Hs Ha. rewrite <-insert_delete_eq, count_active_new by apply lookup_delete_eq.
  rewrite (count_active_delete ms s m Hs).
  destruct (active m'); [rewrite Ha by done; lia|destruct (active m); lia].
Qed.

Lemma count_active_alter ms s f :
  (∀ m, active (f m) = active m) → (count_active (alter f s ms) <= count_active ms)%nat.
Proof.
  intros Hf. destruct (ms !! s) as [m|] eqn:Hs.
  - rewrite (alter_Some f ms s m Hs). apply (count_active_update ms s m); [done|].
    by rewrite Hf.
  - by rewrite alter_None.
Qed.

Lemma running_count e : running e = N.of_nat (count_active (members_of e)).
Proof. done. Qed.

(** ** What the check grants *)

Lemma checked_add_Some a b c : checked_add a b = Some c ↔ c = a + b ∧ a + b <= U64_MAX.
Proof.
  unfold checked_add. destruct (N.leb_spec (a + b) U64_MAX); split.
  - intros [= <-]. done.
  - by intros [-> _].
  - done.
  - intros [_ ?]. lia.
Qed.

Lemma is_none_or_false {A} (o : option A) f :
  is_none_or o f = false ↔ ∃ a, o = Some a ∧ f a = false.
Proof. destruct o; simpl; naive_solver. Qed.

Lemma check_caps_Ok e lim k :
  running e + held e <= U64_MAX →
  check_caps e lim k = Ok tt ↔
  admitted e + held e + k <= max_members lim ∧ admitted e + held e + k <= U64_MAX ∧
  running e + held e + k <= max_active lim ∧ running e + held e + k <= U64_MAX.
Proof.
  intros Hraw. unfold check_caps, in_use. fold (held e) (running e).
  rewrite u64_add_small by done. cbn zeta.
  split.
  - destruct (is_none_or (_ ≫= _) _) eqn:H1; [done|].
    destruct (is_none_or (checked_add _ k) _) eqn:H2; [done|]. intros _.
    apply is_none_or_false in H1 as (n1 & Hn1 & Hle1). apply is_none_or_false in H2 as (n2 & Hn2 & Hle2).
    apply bind_Some in Hn1 as (u & Hu & Hn1).
    rewrite checked_add_Some in Hu, Hn1, Hn2.
    apply N.ltb_ge in Hle1, Hle2. destruct Hu, Hn1, Hn2; subst. lia.
  - intros (H1 & H2 & H3 & H4).
    assert (Hu : checked_add (admitted e) (held e) = Some (admitted e + held e))
      by (apply checked_add_Some; lia).
    rewrite Hu. cbn.
    assert (Hv : checked_add (admitted e + held e) k = Some (admitted e + held e + k))
      by (apply checked_add_Some; lia).
    rewrite Hv. cbn. rewrite (proj2 (N.ltb_ge _ _)) by lia.
    assert (Hw : checked_add (running e + held e) k = Some (running e + held e + k))
      by (apply checked_add_Some; lia).
    rewrite Hw. cbn. by rewrite (proj2 (N.ltb_ge _ _)) by lia.
Qed.

(** ** Every counted operation keeps the bounds *)

Section caps.
Context (lim : SwarmLimits).
Context (Hmembers : max_members lim <= U64_MAX) (Hactive : max_active lim <= U64_MAX).

Definition bounded (g : Registry) : Prop := limits g = lim ∧ capped g ∧ reg_ok g.

Lemma capped_room e : capped_entry lim e → running e + held e <= U64_MAX.
Proof. intros [_ H]. lia. Qed.

Lemma capped_put g w e : limits g = lim → capped g → capped_entry lim e → capped (put g w e).
Proof.
  intros Hl Hg He w'. rewrite entry_or_default_put. cbn [put limits]. rewrite Hl.
  case_decide; [done|]. rewrite <-Hl. apply Hg.
Qed.

Lemma capped_index g s w : capped g → capped (index_session s w g).
Proof. done. Qed.

Lemma capped_admit e e' k :
  capped_entry lim e → check_caps e lim k = Ok tt →
  admitted e' + held e' <= admitted e + held e + k →
  running e' + held e' <= running e + held e + k →
  capped_entry lim e'.
Proof.
  intros He Hc H1 H2. apply check_caps_Ok in Hc; [|by apply capped_room]. split; lia.
Qed.

(** A change that counts no more than before. *)
Lemma capped_less e e' :
  capped_entry lim e → admitted e' = admitted e → (size (reservations e') <= size (reservations e))%nat →
  (count_active (members_of e') <= count_active (members_of e))%nat →
  capped_entry lim e'.
Proof.
  intros [H1 H2] Ha Hr Hc. unfold held in *. rewrite running_count in *. split.
  - rewrite Ha. unfold held. lia.
  - rewrite running_count. unfold held. lia.
Qed.

Lemma size_insert_le {A} (m : gmap N A) i x : (size (<[i := x]> m) <= S (size m))%nat.
Proof. rewrite map_size_insert. destruct (m !! i); simpl; lia. Qed.

Lemma size_delete_le {A} (m : gmap N A) i : (size (delete i m) <= size m)%nat.
Proof. rewrite map_size_delete. destruct (m !! i); simpl; lia. Qed.

Lemma admitted_next e k :
  capped_entry lim e → check_caps e lim k = Ok tt → 1 <= k → u64_add (admitted e) 1 = admitted e + 1.
Proof.
  intros He Hc Hk. apply check_caps_Ok in Hc; [|by apply capped_room].
  apply u64_add_small. lia.
Qed.

Lemma join_as_root_capped g w s name : bounded g → capped (fst (join_as_root g w s name)).
Proof.
  intros (Hl & Hg & Hok). unfold join_as_root. destruct (elsewhere g w s); [done|].
  set (e := entry_or_default g w). cbn zeta. rewrite Hl.
  assert (He : capped_entry lim e) by (rewrite <-Hl; apply Hg).
  assert (Hput : capped (put g w e)) by by apply capped_put.
  destruct (has_topology e Pair); [done|]. destruct (members_of e !! s) eqn:Hm; [done|].
  destruct (check_caps e lim 1) as [[]|] eqn:Hc; [|done].
  pose proof (admitted_next e 1 He Hc ltac:(lia)) as Hnext.
  pose proof (count_active_insert (members_of e) s (mkMember s name Coordinator Active None None)) as H1.
  pose proof (count_active_insert (members_of e) s (mkMember s name Worker Active None None)) as H2.
  cbn [seat set_topology]. destruct (seat e); cbn [fst];
    apply capped_index, capped_put; try done; apply (capped_admit e _ 1 He Hc);
    rewrite ?running_count; unfold held; cbn; rewrite ?Hnext; lia.
Qed.

Lemma admit_pair_capped g w a b :
  bounded g → fresh_pair g w a b → check_caps (entry_or_default g w) lim 2 = Ok tt →
  capped (admit_pair g w a b).
Proof.
  intros (Hl & Hg & Hok) (Ht & _) Hc. unfold admit_pair.
  set (e := entry_or_default g w) in *. cbn zeta.
  assert (He : capped_entry lim e) by (rewrite <-Hl; apply Hg).
  pose proof (unassigned_shape e (ro_entries g Hok w) Ht) as (Hm & Hr & _).
  apply capped_index, capped_index, capped_put; try done.
  apply (capped_admit e _ 2 He Hc); rewrite ?running_count; unfold held; cbn; [lia|].
  pose proof (count_active_insert (<[a.1 := peer a]> (members_of e)) b.1 (peer b)).
  pose proof (count_active_insert (members_of e) a.1 (peer a)). lia.
Qed.

Lemma join_as_pair_capped g w a b : bounded g → capped (fst (join_as_pair g w a b)).
Proof.
  intros Hb. pose proof (join_as_pair_cases g w a b) as Hc.
  destruct (join_as_pair g w a b) as [g' [[]|]]; cbn [fst]; [|subst; apply Hb].
  destruct Hc as [_ [[-> _]|(-> & Hf & Hcaps)]]; [apply Hb|].
  apply admit_pair_capped; [done..|]. destruct Hb as [<- _]. done.
Qed.

Lemma reserve_capped g w key : bounded g → capped (fst (reserve g w key)).
Proof.
  intros (Hl & Hg & Hok). pose proof (reserve_cases g w key) as Hc. cbn zeta in Hc.
  set (e := entry_or_default g w) in *.
  assert (He : capped_entry lim e) by (rewrite <-Hl; apply Hg).
  assert (Hput : capped (put g w e)) by by apply capped_put.
  destruct (reserve g w key) as [g' [[r| |s]|]]; cbn [fst];
    [|by destruct Hc as [-> _]|by destruct Hc as [-> _]|by subst].
  destruct Hc as (_ & Hcaps & _ & _ & ->). rewrite Hl in Hcaps.
  apply (capped_put g w); try done.
  pose proof (size_insert_le (reservations e) (next_reservation g) key).
  apply (capped_admit e _ 1 He Hcaps); rewrite ?running_count; unfold held; cbn; lia.
Qed.

Lemma confirm_capped g r m : bounded g → capped (fst (confirm g r m)).
Proof.
  intros (Hl & Hg & Hok). pose proof (confirm_cases g r m) as Hc.
  destruct (confirm g r m) as [g' [[]|]]; cbn [fst]; [|by subst].
  destruct Hc as (e & key & He & _ & Hk & _ & _ & ->).
  apply capped_index, capped_put; [done..|].
  assert (Hce : capped_entry lim e)
    by (rewrite <-Hl, <-(entry_or_default_Some _ _ _ He); apply Hg).
  destruct Hce as [H1 H2]. rewrite running_count in H2. unfold held in *.
  assert (Hsize : (size (reservations e) = S (size (delete (res_id r) (reservations e))))%nat).
  { rewrite map_size_delete_Some by by eexists.
    assert (size (reservations e) ≠ 0%nat); [|lia].
    intros Hz%map_size_empty_inv. rewrite Hz in Hk. done. }
  pose proof (count_active_insert (members_of e) (m_session m) m).
  assert (u64_add (admitted e) 1 = admitted e + 1) as Hn by (apply u64_add_small; lia).
  split; rewrite ?running_count; unfold held; destruct key; cbn; rewrite ?Hn; lia.
Qed.

Lemma capped_entry_at g w e :
  bounded g → swarms g !! w = Some e → capped_entry lim e.
Proof. intros (<- & Hg & _) He. rewrite <-(entry_or_default_Some _ _ _ He). apply Hg. Qed.

Lemma capped_update g w e e' :
  bounded g → swarms g !! w = Some e → admitted e' = admitted e →
  (size (reservations e') <= size (reservations e))%nat →
  (count_active (members_of e') <= count_active (members_of e))%nat →
  capped (put g w e').
Proof.
  intros Hb He Ha Hr Hm. apply capped_put; [apply Hb..|].
  apply (capped_less e); try done. by eapply capped_entry_at.
Qed.

Lemma adopts_count parent l e :
  (count_active (members_of (fold_left (adopt parent) l e)) <= count_active (members_of e))%nat ∧
  reservations (fold_left (adopt parent) l e) = reservations e ∧
  admitted (fold_left (adopt parent) l e) = admitted e.
Proof.
  revert e. induction l as [|s l IH]; intros e; [done|]. cbn [fold_left].
  destruct (IH (adopt parent e s)) as (H1 & H2 & H3). split_and!; [|done..].
  etrans; [exact H1|]. by apply count_active_alter.
Qed.

Lemma set_member_status_capped g w s st :
  st ≠ Active → bounded g → capped (fst (set_member_status g w s st)).
Proof.
  intros Hst Hb. unfold set_member_status. destruct (swarms g !! w) as [e|] eqn:He; [cbn|apply Hb].
  destruct (members_of e !! s) as [m|] eqn:Hm; [cbn|apply Hb].
  apply (capped_update g w e); try done. cbn. apply (count_active_update _ _ m); [done|].
  by destruct st.
Qed.

Lemma record_completion_capped g w s txt :
  bounded g → capped (fst (record_completion g w s txt)).
Proof.
  intros Hb. unfold record_completion. destruct (swarms g !! w) as [e|] eqn:He; [cbn|apply Hb].
  destruct (members_of e !! s) as [m|] eqn:Hm; [cbn|apply Hb].
  apply (capped_update g w e); try done. cbn. by apply (count_active_update _ _ m).
Qed.

Lemma elect_coordinator_capped g w : bounded g → capped (fst (elect_coordinator g w)).
Proof.
  intros Hb. unfold elect_coordinator. destruct (swarms g !! w) as [e|] eqn:He; [cbn|apply Hb].
  destruct (has_topology e Pair); [apply Hb|]. destruct (seat_held e); [apply Hb|].
  destruct (min_id _); [cbn|apply Hb].
  apply (capped_update g w e); try done. cbn. by apply count_active_alter.
Qed.

Lemma reparent_children_capped g w s : bounded g → capped (fst (reparent_children g w s)).
Proof.
  intros Hb. unfold reparent_children. destruct (swarms g !! w) as [e|] eqn:He; [cbn|apply Hb].
  destruct (adopts_count (new_parent e s)
    (m_session <$> filter (reports_to s) (member_values e)) e) as (H1 & H2 & H3).
  apply (capped_update g w e); try done. by rewrite H2.
Qed.

Lemma remove_capped g w s : bounded g → capped (fst (remove g w s)).
Proof.
  intros Hb. unfold remove. destruct (swarms g !! w) as [e|] eqn:He; [|apply Hb].
  destruct (members_of e !! s) as [m|] eqn:Hm; [cbn [fst]|apply Hb].
  set (e' := if bool_decide _ then _ else _).
  assert (He' : capped_entry lim e').
  { apply (capped_less e); [by eapply capped_entry_at|by unfold e'; case_bool_decide..|].
    replace (members_of e') with (delete s (members_of e)) by (by unfold e'; case_bool_decide).
    rewrite (count_active_delete (members_of e) s m Hm). lia. }
  intros w'. rewrite entry_or_default_put. cbn [put set_by_session limits].
  rewrite (proj1 Hb). case_decide; [done|].
  rewrite entry_or_default_by_session, entry_or_default_put, decide_False by done.
  rewrite <-(proj1 Hb). apply Hb.
Qed.

Lemma set_plan_capped g w p : bounded g → capped (fst (set_plan g w p)).
Proof.
  intros (Hl & Hg & Hok). unfold set_plan. cbn zeta.
  assert (He : capped_entry lim (entry_or_default g w)) by (rewrite <-Hl; apply Hg).
  assert (Hput : capped (put g w (entry_or_default g w))) by by apply capped_put.
  destruct (has_topology _ Pair); [done|]. cbn [fst]. rewrite put_put.
  apply capped_put; [done..|]. apply (capped_less _ _ He); done.
Qed.

Lemma quiet_ops_capped g o :
  match o with Heartbeat _ _ _ | WithPlan _ _ | Release _ => True | _ => False end →
  bounded g → capped (run_op g o).
Proof.
  destruct o; try done; intros _ Hb; cbn [run_op].
  - unfold release. destruct (swarms g !! res_swarm r) as [e|] eqn:He; [cbn|apply Hb].
    apply (capped_update g _ e); try done. cbn. apply size_delete_le.
  - unfold heartbeat_at. destruct (swarms g !! w) as [e|] eqn:He; [|apply Hb].
    by apply (capped_update g w e).
  - unfold with_plan. destruct (swarms g !! w) as [e|] eqn:He; [cbn|apply Hb].
    destruct (has_topology e Pair); [apply Hb|]. destruct (plan_of e); [cbn|apply Hb].
    by apply (capped_update g w e).
Qed.

Lemma run_op_capped g o : counted_op o → bounded g → capped (run_op g o).
Proof.
  intros Hop Hb. destruct o; try done; try (by apply quiet_ops_capped); cbn [run_op];
    eauto using join_as_root_capped, join_as_pair_capped, reserve_capped, confirm_capped,
      set_member_status_capped, record_completion_capped, elect_coordinator_capped,
      reparent_children_capped, remove_capped, set_plan_capped.
Qed.
End caps.

Lemma run_op_limits g o : limits (run_op g o) = limits g.
Proof.
  destruct o; cbn [run_op];
    unfold join_as_root, join_as_pair, reserve, confirm, release, heartbeat_at,
      elect_coordinator, reparent_children, set_member_status, record_completion, set_plan,
      with_plan, remove, restore, ok_or; cbn zeta; by repeat case_match.
Qed.
