(* ===== verification/SwarmProps.v ===== *)
(** * What the swarm registry promises

    Coherence and capacity over every history, the atomic pair, the idempotency
    keys, the spawn tree's walks, elections and adoptions. *)

From stdpp Require Import base gmap list sorting strings numbers relations.
From S2P Require Import Prelude RustStr Artifact Plan Swarm SwarmInv SwarmCaps.
#[local] Open Scope N_scope.

(** ** Histories *)

Lemma member_holds g w s : is_Some (member g w s) ↔ holds g w s.
Proof.
  unfold member, holds, entry_or_default. destruct (swarms g !! w); simpl; [done|].
  rewrite lookup_empty. done.
Qed.

(** C3. Whatever sequence of operations a registry has been through, the session
    index and the entries agree, so a session is in at most one swarm and is
    filed under its own id; and the two collaboration shapes never mix: a pair
    has no coordinator, plan, reservation or report edge, and only peers; a
    hierarchy has no peer. *)
Theorem registry_coherent lim ops :
  let g := run_ops (with_limits lim) ops in
  (∀ s w, swarm_of g s = Some w ↔ is_Some (member g w s)) ∧
  (∀ w s m, member g w s = Some m → m_session m = s) ∧
  (∀ w e, swarms g !! w = Some e → topology e = Some Pair →
     (size (members_of e) <= 2)%nat ∧ seat e = None ∧ plan_of e = None ∧
     reservations e = ∅ ∧
     ∀ s m, members_of e !! s = Some m → m_role m = Peer ∧ m_report_back_to m = None) ∧
  (∀ w e s m, swarms g !! w = Some e → topology e ≠ Some Pair →
     members_of e !! s = Some m → m_role m ≠ Peer).
Proof.
  cbn zeta. pose proof (run_ops_ok _ ops (with_limits_ok lim)) as [Hok Hi].
  set (g := run_ops (with_limits lim) ops) in *. split_and!.
  - intros s w. rewrite member_holds. apply Hi.
  - intros w s m Hm. apply (eo_filed _ (Hok w)). unfold member, entry_or_default in *.
    by destruct (swarms g !! w).
  - intros w e He Ht. rewrite <-(entry_or_default_Some _ _ _ He) in *.
    pose proof (eo_shape _ (Hok w)) as Hs. unfold shape_ok in Hs. rewrite Ht in Hs.
    destruct Hs as (? & ? & ? & ? & ? & ? & Hall). split_and!; done.
  - intros w e s m He Ht Hm. rewrite <-(entry_or_default_Some _ _ _ He) in *.
    by apply (not_pair_members _ (Hok w) Ht s).
Qed.

Lemma empty_capped lim : capped_entry lim Swarm_default.
Proof.
  assert (H : running Swarm_default = 0 ∧ held Swarm_default = 0) by by vm_compute.
  destruct H as [H1 H2]. split; rewrite ?H1, H2; cbn [admitted Swarm_default]; lia.
Qed.

Lemma run_ops_bounded lim ops g :
  max_members lim <= U64_MAX → max_active lim <= U64_MAX → Forall counted_op ops →
  bounded lim g → bounded lim (run_ops g ops).
Proof.
  intros Hm Ha Hops. revert g. unfold run_ops.
  induction Hops as [|o ops Ho _ IH]; intros g Hg; [done|]. cbn [fold_left].
  apply IH. split_and!; [|by eapply run_op_capped|by apply run_op_ok, Hg].
  rewrite run_op_limits. apply Hg.
Qed.

(** The caps hold at every moment of every history of admissions: members ever
    admitted with the slots held stay within the lifetime cap, and running
    members with the slots held within the concurrency budget. *)
Theorem caps_hold lim ops w e :
  max_members lim <= U64_MAX → max_active lim <= U64_MAX → Forall counted_op ops →
  swarms (run_ops (with_limits lim) ops) !! w = Some e →
  admitted e + N.of_nat (size (reservations e)) <= max_members lim ∧
  in_use e <= max_active lim ∧
  in_use e = N.of_nat (length (filter active (member_values e)) + size (reservations e)).
Proof.
  intros Hm Ha Hops He.
  assert (Hb : bounded lim (run_ops (with_limits lim) ops)).
  { apply run_ops_bounded; try done. split_and!; [done| |apply with_limits_ok].
    intros w'. unfold entry_or_default. cbn [with_limits swarms limits].
    rewrite lookup_empty. cbn [default]. apply empty_capped. }
  assert (Hc : capped_entry lim e) by (eapply capped_entry_at; eauto).
  destruct Hc as [H1 H2]. unfold running, held in *.
  unfold in_use. rewrite u64_add_small by lia. split_and!; lia.
Qed.

(** A small hierarchy, used by the examples: [7] leads, [8] and [9] work for it. *)
Definition lim_demo : SwarmLimits := SwarmLimits_default.
Definition demo_ops : list op :=
  [JoinRoot "s" 7 "lead"; Reserve "s" (Some "k"); Confirm (mkReservation 0 "s") (worker 8 "a" 7);
   Reserve "s" None; Confirm (mkReservation 1 "s") (worker 9 "b" 7)].
Definition demo : Registry := run_ops (with_limits lim_demo) demo_ops.

Lemma caps_hold_witness :
  ∃ e, swarms demo !! "s" = Some e ∧ admitted e = 3 ∧ in_use e <= 4.
Proof.
  destruct (swarms demo !! "s") as [e|] eqn:He; [|by vm_compute in He].
  exists e. split; [done|]. split; [by vm_compute in He; injection He as <-|].
  assert (Hops : Forall counted_op demo_ops) by (repeat constructor).
  pose proof (caps_hold lim_demo demo_ops "s" e ltac:(by vm_compute) ltac:(by vm_compute)
    Hops He) as (_ & H & _). exact H.
Defined.

(** ** The pair *)

Lemma eq_ignore_ascii_case_comm a b : eq_ignore_ascii_case a b = eq_ignore_ascii_case b a.
Proof. unfold eq_ignore_ascii_case. apply bool_decide_ext. split; by intros ->. Qed.

Lemma pair_arguments_comm a b : pair_arguments a b = Ok tt → pair_arguments b a = Ok tt.
Proof.
  unfold pair_arguments. intros H. case_decide as H1; [done|].
  rewrite decide_False by congruence.
  rewrite orb_comm, eq_ignore_ascii_case_comm.
  destruct (bool_decide (a.2 = "") || _); [done|]. by destruct (eq_ignore_ascii_case a.2 b.2).
Qed.

Lemma exact_pair_comm g w e a b : exact_pair g w e a b = exact_pair g w e b a.
Proof.
  unfold exact_pair. apply eq_true_iff_eq. rewrite !andb_true_iff. tauto.
Qed.

Lemma pair_member_matches_true e s n :
  filed_ok e → pair_member_matches e s n = true →
  members_of e !! s = Some (mkMember s n Peer Active None None).
Proof.
  intros Hf. unfold pair_member_matches. destruct (members_of e !! s) as [m|] eqn:Hm; [|done].
  rewrite !andb_true_iff, !bool_decide_eq_true. intros [[[[<- Hr] Hs] Hp] Hc].
  rewrite <-(Hf s m Hm). destruct m; cbn in *. by subst.
Qed.

(** A pair that is in is found again, whichever half comes first. *)
Lemma join_as_pair_again g w e a b :
  swarms g !! w = Some e → topology e = Some Pair →
  pair_arguments (trimmed a) (trimmed b) = Ok tt →
  exact_pair g w e (trimmed a) (trimmed b) = true →
  join_as_pair g w a b = (g, Ok tt).
Proof.
  intros He Ht Hargs Hex. unfold join_as_pair. fold (trimmed a) (trimmed b). cbn zeta.
  rewrite Hargs. pose proof Hex as Hex'. unfold exact_pair in Hex'.
  rewrite !andb_true_iff, !bool_decide_eq_true in Hex'. destruct Hex' as [[_ Ha] Hb].
  cbn [mapped_to_target]. rewrite Ha, Hb, !decide_True by done. cbn.
  by rewrite He, Ht, Hex.
Qed.

Lemma admitted_pair_exact g w a b :
  reg_ok g → fresh_pair g w a b → pair_arguments a b = Ok tt →
  ∃ e, swarms (admit_pair g w a b) !! w = Some e ∧ topology e = Some Pair ∧
    exact_pair (admit_pair g w a b) w e a b = true ∧
    members_of e = <[b.1 := peer b]> {[a.1 := peer a]}.
Proof.
  intros Hg (Ht & _) Hargs.
  pose proof (unassigned_shape _ (ro_entries g Hg w) Ht) as (Hm & Hr & Hk & Hc & Hp).
  assert (Hne : a.1 ≠ b.1) by (unfold pair_arguments in Hargs; by case_decide).
  exists (paired (entry_or_default g w) a b).
  split; [unfold admit_pair; cbn; by rewrite lookup_insert_eq|]. split; [done|].
  assert (Hms : members_of (paired (entry_or_default g w) a b) =
    <[b.1 := peer b]> {[a.1 := peer a]}) by (unfold paired; cbn; by rewrite Hm).
  split; [|done]. unfold exact_pair, pair_member_matches. rewrite Hms. cbn.
  rewrite Hr, Hk, Hc, Hp.
  rewrite map_size_insert_None, map_size_singleton by by rewrite lookup_singleton_ne.
  rewrite lookup_insert_eq, lookup_insert_ne, lookup_singleton_eq by done. cbn.
  rewrite !lookup_insert_eq. rewrite (lookup_insert_ne _ b.1 a.1), lookup_insert_eq by done.
  rewrite !bool_decide_true by done. done.
Qed.

(** A pair is admitted whole or not at all: every refusal leaves the registry as
    it was; on success the entry holds exactly the two active peers, under
    their trimmed names and with no report edge, both sessions are indexed,
    and asking again - in either order - succeeds and changes nothing. *)
Theorem join_as_pair_atomic g w a b :
  reg_ok g →
  match join_as_pair g w a b with
  | (g', Err _) => g' = g
  | (g', Ok _) =>
      swarm_of g' a.1 = Some w ∧ swarm_of g' b.1 = Some w ∧
      (∃ e, swarms g' !! w = Some e ∧ size (members_of e) = 2%nat ∧ a.1 ≠ b.1 ∧
         members_of e !! a.1 = Some (mkMember a.1 (trim a.2) Peer Active None None) ∧
         members_of e !! b.1 = Some (mkMember b.1 (trim b.2) Peer Active None None)) ∧
      join_as_pair g' w a b = (g', Ok tt) ∧ join_as_pair g' w b a = (g', Ok tt)
  end.
Proof.
  intros Hg. pose proof (join_as_pair_cases g w a b) as Hc.
  destruct (join_as_pair g w a b) as [g' [[]|]]; [|done].
  destruct Hc as [Hargs Hc].
  assert (Hin : ∃ e, swarms g' !! w = Some e ∧ topology e = Some Pair ∧
    exact_pair g' w e (trimmed a) (trimmed b) = true ∧ filed_ok e).
  { destruct Hc as [[-> (e & He & Ht & Hex)]|(-> & Hf & _)].
    - exists e. split_and!; try done. rewrite <-(entry_or_default_Some _ _ _ He). apply Hg.
    - destruct (admitted_pair_exact g w (trimmed a) (trimmed b) Hg Hf Hargs)
        as (e & He & Ht & Hex & Hms).
      exists e. split_and!; try done. intros s m. rewrite Hms.
      rewrite lookup_insert_Some, lookup_singleton_Some. naive_solver. }
  clear Hc. destruct Hin as (e & He & Ht & Hex & Hfiled).
  assert (Hagain := join_as_pair_again g' w e a b He Ht Hargs Hex).
  assert (Hswap := join_as_pair_again g' w e b a He Ht (pair_arguments_comm _ _ Hargs)
    ltac:(by rewrite exact_pair_comm)).
  unfold exact_pair in Hex. rewrite !andb_true_iff, !bool_decide_eq_true in Hex.
  destruct Hex as [[[[[[[[[Hsize _] _] _] _] _] Hma] Hmb] Ha] Hb].
  split_and!; try done. exists e. split_and!; try done.
  - unfold pair_arguments in Hargs. by case_decide.
  - by apply (pair_member_matches_true e a.1 (trim a.2)).
  - by apply (pair_member_matches_true e b.1 (trim b.2)).
Qed.

Lemma join_as_pair_atomic_witness :
  let '(g', r) := join_as_pair (with_limits lim_demo) "p" (1, " ada ") (2, "bob") in
  r = Ok tt ∧ join_as_pair g' "p" (2, "bob") (1, " ada ") = (g', Ok tt).
Proof.
  pose proof (join_as_pair_atomic (with_limits lim_demo) "p" (1, " ada ") (2, "bob")
    (with_limits_ok lim_demo)) as H.
  assert (Hr : snd (join_as_pair (with_limits lim_demo) "p" (1, " ada ") (2, "bob")) = Ok tt)
    by by vm_compute.
  destruct (join_as_pair _ _ _ _) as [g' [[]|]]; [|done].
  destruct H as (_ & _ & _ & _ & H). split; [done|exact H].
Defined.

(** ** Idempotency keys *)

Definition claimed (e : Swarm) (key : string) (slot : N) : Prop :=
  is_Some (settled_keys e !! key) ∨ reservations e !! slot = Some (Some key).

(** Every entry keeps its slots and its settled keys. *)
Definition same_slots (g g' : Registry) : Prop :=
  ∀ w, reservations (entry_or_default g' w) = reservations (entry_or_default g w) ∧
       settled_keys (entry_or_default g' w) = settled_keys (entry_or_default g w).

Lemma same_slots_put g w e :
  reservations e = reservations (entry_or_default g w) →
  settled_keys e = settled_keys (entry_or_default g w) → same_slots g (put g w e).
Proof. intros Hr Hk w'. rewrite entry_or_default_put. case_decide; by subst. Qed.

Lemma same_slots_put_at g w e e' :
  swarms g !! w = Some e → reservations e' = reservations e →
  settled_keys e' = settled_keys e → same_slots g (put g w e').
Proof.
  intros He. rewrite <-(entry_or_default_Some _ _ _ He). apply same_slots_put.
Qed.

Lemma adopts_slots parent l e :
  reservations (fold_left (adopt parent) l e) = reservations e ∧
  settled_keys (fold_left (adopt parent) l e) = settled_keys e.
Proof. revert e. induction l as [|s l IH]; intros e; [done|]. apply (IH (adopt parent e s)). Qed.

Definition slot_op (o : op) : bool :=
  match o with Reserve _ _ | Confirm _ _ | Release _ => true | _ => false end.

Lemma other_ops_same_slots g o : slot_op o = false → same_slots g (run_op g o).
Proof.
  intros Ho. destruct o; try done; cbn [run_op].
  - unfold join_as_root. destruct (elsewhere g w s); [done|]. cbn zeta.
    destruct (has_topology _ Pair); [by apply same_slots_put|].
    destruct (members_of _ !! s); [by apply same_slots_put|].
    destruct (check_caps _ _ 1); [|by apply same_slots_put].
    cbn [seat set_topology]. destruct (seat _); cbn [fst]; rewrite put_put;
      by apply (same_slots_put g w).
  - pose proof (join_as_pair_cases g w first second) as Hc.
    destruct (join_as_pair g w first second) as [g' [[]|]]; cbn [fst]; [|by subst].
    destruct Hc as [_ [[-> _]|[-> _]]]; [done|]. by apply (same_slots_put g w).
  - unfold heartbeat_at. destruct (swarms g !! w) eqn:He; [|done].
    by eapply same_slots_put_at.
  - unfold elect_coordinator. destruct (swarms g !! w) eqn:He; [cbn|done].
    destruct (has_topology _ Pair); [done|]. destruct (seat_held _); [done|].
    destruct (min_id _); [|done]. by eapply same_slots_put_at.
  - unfold reparent_children. destruct (swarms g !! w) eqn:He; [cbn|done].
    eapply same_slots_put_at; [done|apply adopts_slots..].
  - unfold set_member_status. destruct (swarms g !! w) eqn:He; [cbn|done].
    destruct (members_of _ !! s); [cbn|done]. by eapply same_slots_put_at.
  - unfold record_completion. destruct (swarms g !! w) eqn:He; [cbn|done].
    destruct (members_of _ !! s); [cbn|done]. by eapply same_slots_put_at.
  - unfold set_plan. cbn zeta. destruct (has_topology _ Pair); [by apply same_slots_put|].
    cbn [fst]. rewrite put_put. by apply same_slots_put.
  - unfold with_plan. destruct (swarms g !! w) eqn:He; [cbn|done].
    destruct (has_topology _ Pair); [done|]. destruct (plan_of _); [cbn|done].
    by eapply same_slots_put_at.
  - unfold remove. destruct (swarms g !! w) as [e|] eqn:He; [|done].
    destruct (members_of e !! s); [cbn [fst]|done]. intros w'.
    rewrite entry_or_default_put. case_decide; [subst w'|].
    + rewrite (entry_or_default_Some _ _ _ He). by case_bool_decide.
    + by rewrite entry_or_default_by_session, entry_or_default_put, decide_False.
  - unfold restore. destruct (_ || existsb _ ms); [done|].
    destruct (restore_guard g w ms); [cbn zeta; cbn [fst]|done].
    by apply (same_slots_put g w).
Qed.

Lemma run_op_next g o :
  next_reservation (run_op g o) = next_reservation g ∨
  next_reservation (run_op g o) = u64_add (next_reservation g) 1.
Proof.
  destruct (slot_op o) eqn:Ho.
  - destruct o; try done; cbn [run_op].
    + pose proof (reserve_cases g w key) as Hc. cbn zeta in Hc.
      destruct (reserve g w key) as [g' [[r| |s]|]]; cbn [fst]; try naive_solver.
    + pose proof (confirm_cases g r m) as Hc.
      destruct (confirm g r m) as [g' [[]|]]; cbn [fst]; [|left; by subst].
      destruct Hc as (e & key & _ & _ & _ & _ & _ & ->). by left.
    + left. unfold release. by destruct (swarms g !! res_swarm r).
  - left. destruct o; try done; cbn [run_op];
      unfold join_as_root, join_as_pair, heartbeat_at,
        elect_coordinator, reparent_children, set_member_status, record_completion, set_plan,
        with_plan, remove, restore, ok_or; cbn zeta; by repeat case_match.
Qed.

(** A claim survives everything but the release of its own slot. *)
Lemma claimed_step g o w key slot :
  slot < next_reservation g → o ≠ Release (mkReservation slot w) →
  claimed (entry_or_default g w) key slot → claimed (entry_or_default (run_op g o) w) key slot.
Proof.
  intros Hlt Hne Hc. destruct (slot_op o) eqn:Ho; [|by unfold claimed in *;
    destruct (other_ops_same_slots g o Ho w) as [-> ->]].
  destruct o as [| |w' key'|r m|r| | | | | | | | |]; try done; cbn [run_op].
  - pose proof (reserve_cases g w' key') as Hr. cbn zeta in Hr.
    destruct (reserve g w' key') as [g' [[r| |s]|]]; cbn [fst].
    + destruct Hr as (_ & _ & _ & _ & ->). rewrite entry_or_default_bump, entry_or_default_put.
      case_decide; [subst w'|done]. destruct Hc as [Hc|Hc]; [by left|right; cbn].
      rewrite lookup_insert_ne by lia. done.
    + destruct Hr as [-> _]. rewrite entry_or_default_put. by case_decide; subst.
    + destruct Hr as [-> _]. rewrite entry_or_default_put. by case_decide; subst.
    + subst. rewrite entry_or_default_put. by case_decide; subst.
  - pose proof (confirm_cases g r m) as Hr.
    destruct (confirm g r m) as [g' [[]|]]; cbn [fst]; [|by subst].
    destruct Hr as (e & key' & He & _ & Hk & _ & _ & ->).
    unfold index_session. rewrite entry_or_default_by_session, entry_or_default_put.
    case_decide as Hw; [|done]. rewrite Hw in He.
    rewrite (entry_or_default_Some _ _ _ He) in Hc.
    destruct Hc as [Hc|Hc].
    + left. destruct key'; cbn; [|done]. apply lookup_insert_is_Some. destruct (decide (s = key)); auto.
    + destruct (decide (res_id r = slot)) as [<-|Hslot].
      * left. assert (key' = Some key) as -> by congruence. cbn. rewrite lookup_insert_eq. by eexists.
      * right. destruct key'; cbn; by rewrite lookup_delete_ne.
  - unfold release. destruct (swarms g !! res_swarm r) as [e|] eqn:He; [cbn [fst]|done].
    rewrite entry_or_default_put. case_decide as Hw; [|done]. rewrite Hw in He.
    rewrite (entry_or_default_Some _ _ _ He) in Hc. destruct Hc as [Hc|Hc]; [by left|right; cbn].
    rewrite lookup_delete_ne; [done|]. intros <-. apply Hne. by destruct r; cbn in *; subst.
Qed.

Lemma claimed_run g ops w key slot :
  slot < next_reservation g → next_reservation g + N.of_nat (length ops) <= U64_MAX →
  Release (mkReservation slot w) ∉ ops →
  claimed (entry_or_default g w) key slot →
  claimed (entry_or_default (run_ops g ops) w) key slot.
Proof.
  unfold run_ops. revert g. induction ops as [|o ops IH]; intros g Hlt Hroom Hno Hc; [done|].
  cbn [fold_left]. apply not_elem_of_cons in Hno as [Hne Hno].
  rewrite length_cons in Hroom.
  destruct (run_op_next g o) as [Hn|Hn]; rewrite ?u64_add_small in Hn by lia;
    (apply IH; [lia|lia|done|by apply claimed_step]).
Qed.

(** A spawn request retried under its idempotency key never takes a second slot:
    once [reserve] has granted one, the same key is answered "in flight" or
    "existing" after any further operations whatever, unless that very slot is
    released; and answering changes no slot. *)
Theorem key_admitted_once g ops w key slot g1 :
  reg_ok g → reserve g w (Some key) = (g1, Ok (Reserved slot)) →
  next_reservation g1 + N.of_nat (length ops) <= U64_MAX →
  Release slot ∉ ops → next_reservation g < U64_MAX →
  let g2 := run_ops g1 ops in
  let '(g3, answer) := reserve g2 w (Some key) in
  (answer = Ok InFlight ∨ ∃ s, answer = Ok (Existing s)) ∧
  same_slots g2 g3.
Proof.
  intros Hg Hres Hroom Hno Hsmall. cbn zeta.
  pose proof (reserve_cases g w (Some key)) as Hc. cbn zeta in Hc. rewrite Hres in Hc.
  destruct Hc as (_ & _ & _ & -> & Hg1).
  assert (Hok : reg_ok g1) by (pose proof (reserve_ok g w (Some key) Hg) as H; by rewrite Hres in H).
  assert (Hnext : next_reservation g1 = next_reservation g + 1).
  { rewrite Hg1. cbn. apply u64_add_small. lia. }
  assert (Hclaim : claimed (entry_or_default (run_ops g1 ops) w) key (next_reservation g)).
  { apply claimed_run; [lia|done..|]. rewrite Hg1, entry_or_default_bump, entry_or_default_put.
    rewrite decide_True by done. right. cbn. apply lookup_insert_eq. }
  pose proof (run_ops_ok g1 ops Hok) as Hok2. set (g2 := run_ops g1 ops) in *.
  pose proof (reserve_cases g2 w (Some key)) as Hc2. cbn zeta in Hc2.
  destruct (reserve g2 w (Some key)) as [g3 [[r| |s]|]] eqn:Hans.
  - destruct Hc2 as (_ & _ & Hk & _). destruct (Hk key eq_refl) as [Hset Hf].
    rewrite key_in_flight_false in Hf. destruct Hclaim as [[? Hs]|Hs]; [congruence|by destruct (Hf _ Hs)].
  - destruct Hc2 as [-> _]. split; [by left|]. by apply same_slots_put.
  - destruct Hc2 as [-> _]. split; [right; by eexists|]. by apply same_slots_put.
  - exfalso. clear Hc2. unfold reserve in Hans.
    set (en := entry_or_default g2 w) in *. cbn zeta in Hans.
    assert (Hp : has_topology en Pair = false).
    { apply has_topology_false. intros Hp. pose proof (eo_shape en (ro_entries g2 Hok2 w)) as Hs.
      unfold shape_ok in Hs. rewrite Hp in Hs. destruct Hs as (_ & Hr & Hk & _).
      destruct Hclaim as [[? Hs]|Hs]; [rewrite Hk in Hs|rewrite Hr in Hs]; done. }
    rewrite Hp in Hans. destruct Hclaim as [[s Hs]|Hs]; [by rewrite Hs in Hans|].
    destruct (eo_keys en (ro_entries g2 Hok2 w)) as [_ Hset].
    rewrite (Hset _ _ Hs) in Hans.
    destruct (key_in_flight en key) eqn:Hf; [done|].
    rewrite key_in_flight_false in Hf. by apply (Hf (next_reservation g)).
Qed.

Lemma key_admitted_once_witness :
  let g1 := fst (reserve (with_limits lim_demo) "s" (Some "k")) in
  let g2 := run_ops g1 [Confirm (mkReservation 0 "s") (worker 8 "a" 7); Remove "s" 8] in
  let answer := snd (reserve g2 "s" (Some "k")) in
  answer = Ok InFlight ∨ ∃ s, answer = Ok (Existing s).
Proof.
  cbn zeta. destruct (reserve (with_limits lim_demo) "s" (Some "k")) as [g1 r] eqn:Hr.
  assert (Hr1 : r = Ok (Reserved (mkReservation 0 "s")) ∧ next_reservation g1 = 1)
    by (vm_compute in Hr; by injection Hr as <- <-).
  destruct Hr1 as [-> Hn]. cbn [fst].
  assert (Hroom : next_reservation g1 + N.of_nat 2 <= U64_MAX) by (rewrite Hn; by vm_compute).
  assert (Hno : Release (mkReservation 0 "s") ∉
    [Confirm (mkReservation 0 "s") (worker 8 "a" 7); Remove "s" 8]).
  { rewrite !not_elem_of_cons. split_and!; [done..|by apply not_elem_of_nil]. }
  pose proof (key_admitted_once (with_limits lim_demo)
    [Confirm (mkReservation 0 "s") (worker 8 "a" 7); Remove "s" 8] "s" "k"
    (mkReservation 0 "s") g1 (with_limits_ok _) Hr Hroom Hno ltac:(by vm_compute)) as H.
  cbn zeta in H. clear Hr. destruct (reserve _ _ _) as [g3 answer]. exact (proj1 H).
Defined.

(** ** Walking the spawn tree *)

(** [a] reports back to [b]. *)
Definition reports (e : Swarm) (a b : SessionId) : Prop := parent_of e a = Some b.

(** Walking up from [s] visits [l] and is next at [c]. *)
Fixpoint climbs (e : Swarm) (s : SessionId) (l : list SessionId) (c : option SessionId) : Prop :=
  match l with
  | [] => parent_of e s = c
  | x :: l => parent_of e s = Some x ∧ climbs e x l c
  end.

Lemma climbs_snoc e s l x : climbs e s l (Some x) → climbs e s (l ++ [x]) (parent_of e x).
Proof.
  revert s. induction l as [|y l IH]; intros s; simpl; [done|].
  intros [Hy Hl]. split; [done|]. by apply IH.
Qed.

Lemma climbs_tc e s l c x : climbs e s l c → x ∈ l → tc (reports e) s x.
Proof.
  revert s. induction l as [|y l IH]; intros s; simpl; [by intros _ ?%not_elem_of_nil|].
  intros [Hy Hl] [->|Hx]%elem_of_cons; [by apply tc_once|].
  eapply tc_l; [exact Hy|]. by apply IH.
Qed.

Lemma climbs_next e s l c x y :
  climbs e s l c → x = s ∨ x ∈ l → parent_of e x = Some y → y ∈ l ∨ c = Some y.
Proof.
  revert s. induction l as [|z l IH]; intros s; simpl.
  - intros <- [->|?%not_elem_of_nil]; [|done]. by right.
  - intros [Hz Hl] Hx Hy. destruct Hx as [->|Hx].
    + left. assert (z = y) as -> by congruence. by left.
    + destruct (IH z Hl) as [H|H]; [|done|left; by right|by right].
      by apply elem_of_cons in Hx.
Qed.

Lemma climbs_members e s l c x :
  climbs e s l (Some c) → x ∈ l → is_Some (members_of e !! x).
Proof.
  revert s. induction l as [|z l IH]; intros s; simpl; [by intros _ ?%not_elem_of_nil|].
  intros [_ Hl] [->|Hx]%elem_of_cons; [|by eapply IH].
  assert (Hp : is_Some (parent_of e z)) by (destruct l; simpl in Hl; [|destruct Hl]; by eexists).
  unfold parent_of in Hp. destruct (members_of e !! z); [by eexists|by destruct Hp].
Qed.

Lemma climbs_length e s l c :
  climbs e s l (Some c) → NoDup l → (length l <= size (members_of e))%nat.
Proof.
  intros Hc Hl. rewrite <-size_dom.
  rewrite <-(size_list_to_set (C := gset SessionId) l Hl). apply subseteq_size.
  intros x Hx. rewrite elem_of_list_to_set in Hx. apply elem_of_dom. by eapply climbs_members.
Qed.

Lemma ancestors_loop_spec e s fuel seen out current :
  climbs e s out current → NoDup out → (∀ x, x ∈ seen ↔ x ∈ out) →
  (S (S (size (members_of e))) <= fuel + length out)%nat →
  ∃ l c, ancestors_loop fuel e seen out current = Some l ∧ NoDup l ∧ climbs e s l c ∧
    match c with Some y => y ∈ l | None => True end.
Proof.
  revert seen out current. induction fuel as [|fuel IH]; intros seen out current Hc Hnd Hseen Hf.
  - destruct current as [y|]; [|by exists out, None]. pose proof (climbs_length _ _ _ _ Hc Hnd). lia.
  - cbn [ancestors_loop]. destruct current as [y|]; [|by exists out, None].
    case_decide as Hy.
    + exists out, (Some y). split_and!; try done. by apply Hseen.
    + apply IH; [by apply climbs_snoc|..].
      * apply NoDup_app. split_and!; [done| |by apply NoDup_singleton].
        intros x Hx ->%list_elem_of_singleton. by apply Hy, Hseen.
      * intros x. rewrite elem_of_union, elem_of_singleton, elem_of_app, list_elem_of_singleton.
        rewrite Hseen. tauto.
      * rewrite length_app. simpl. lia.
Qed.

(** Walking up the report edges always ends, even on a cycle, and answers
    exactly the sessions above the given one, each once, nearest first. *)
Theorem ancestors_exact g w s :
  let e := entry_or_default g w in
  ∃ l, ancestors g w s = Some l ∧ NoDup l ∧
    (∀ x, x ∈ l ↔ tc (reports e) s x) ∧
    (l !! 0%nat = parent_of e s) ∧
    (∀ i x y, l !! i = Some x → l !! S i = Some y → reports e x y).
Proof.
  cbn zeta. set (e := entry_or_default g w).
  assert (H : ∃ l c, ancestors g w s = Some l ∧ NoDup l ∧ climbs e s l c ∧
    match c with Some y => y ∈ l | None => True end).
  { unfold ancestors, e, entry_or_default. destruct (swarms g !! w) as [e'|]; cbn [default].
    - apply ancestors_loop_spec; [done|by apply NoDup_nil| |unfold ancestors_fuel; simpl; lia].
      intros x. rewrite elem_of_empty, elem_of_nil. done.
    - exists [], None. split_and!; [done|by apply NoDup_nil| |done]. done. }
  destruct H as (l & c & Hl & Hnd & Hc & Hend). exists l. split_and!; try done.
  - intros x. split; [by apply (climbs_tc _ _ _ c)|].
    intros Hx. assert (Hstep : ∀ a b, a = s ∨ a ∈ l → reports e a b → b ∈ l).
    { intros a b Ha Hab. destruct (climbs_next _ _ _ _ _ _ Hc Ha Hab) as [?|Hcb]; [done|].
      by rewrite Hcb in Hend. }
    assert (Hgen : ∀ a b, tc (reports e) a b → a = s ∨ a ∈ l → b ∈ l).
    { induction 1; eauto. }
    by apply (Hgen s x); [|left].
  - destruct l as [|y l]; simpl in Hc; [|by destruct Hc as [-> _]].
    destruct c as [y|]; [by apply not_elem_of_nil in Hend|by rewrite Hc].
  - clear -Hc. revert s Hc. induction l as [|z l IH]; intros s Hc i x y; [done|].
    simpl in Hc. destruct Hc as [Hz Hl]. destruct i as [|i]; simpl; [|by eapply IH].
    intros [= <-] Hy. destruct l as [|z' l]; [done|]. simpl in Hy. injection Hy as <-.
    by destruct Hl.
Qed.

(** Members whose parent the walk has still to expand. *)
Definition unexpanded (seen : gset SessionId) (m : SwarmMember) : Prop :=
  match m_report_back_to m with Some p => p ∉ seen | None => False end.
#[export] Instance unexpanded_dec seen m : Decision (unexpanded seen m).
Proof. unfold unexpanded. destruct (m_report_back_to m); apply _. Defined.

Lemma reports_to_true p m : reports_to p m = true ↔ m_report_back_to m = Some p.
Proof. unfold reports_to. apply bool_decide_eq_true. Qed.

Lemma expand_counts seen x (l : list SwarmMember) :
  x ∉ seen →
  (length (filter (unexpanded seen) l) =
   length (filter (reports_to x) l) + length (filter (unexpanded ({[x]} ∪ seen)) l))%nat.
Proof.
  intros Hx. induction l as [|m l IH]; [done|]. rewrite !filter_cons.
  assert (H1 : reports_to x m → unexpanded seen m ∧ ¬ unexpanded ({[x]} ∪ seen) m).
  { intros H%Is_true_true%reports_to_true. unfold unexpanded. rewrite H. set_solver. }
  assert (H2 : ¬ reports_to x m → unexpanded seen m ↔ unexpanded ({[x]} ∪ seen) m).
  { intros H. unfold unexpanded. destruct (m_report_back_to m) as [p|] eqn:Hp; [|done].
    assert (p ≠ x) by (intros ->; by apply H, Is_true_true, reports_to_true). set_solver. }
  destruct (decide (reports_to x m)) as [Hr|Hr].
  - destruct (H1 Hr). rewrite (decide_True (P := unexpanded seen m)) by done.
    rewrite (decide_False (P := unexpanded ({[x]} ∪ seen) m)) by done. simpl. lia.
  - rewrite (decide_ext (unexpanded seen m) (unexpanded ({[x]} ∪ seen) m)) by by apply H2.
    case_decide; simpl; lia.
Qed.

Lemma elem_of_children e p x :
  filed_ok e → x ∈ m_session <$> filter (reports_to p) (member_values e) ↔ reports e x p.
Proof.
  intros Hf. rewrite list_elem_of_fmap. unfold reports, parent_of, member_values.
  setoid_rewrite list_elem_of_filter. setoid_rewrite elem_of_btree_values. split.
  - intros (m & -> & Hm & s & Hs). rewrite (Hf s m Hs), Hs. cbn.
    by apply reports_to_true, Is_true_true.
  - intros H. destruct (members_of e !! x) as [m|] eqn:Hm; [|done]. cbn in H.
    exists m. split; [by rewrite (Hf x m Hm)|]. split; [|by exists x].
    by apply Is_true_true, reports_to_true.
Qed.

(** The loop's invariant: what was seen and what is stacked is beneath the
    root, the expanded part is closed, and the fuel covers every edge left. *)
Record walking (e : Swarm) (root : SessionId) (fuel : nat) (seen : gset SessionId)
    (out stack : list SessionId) : Prop := mkWalking {
  wk_out : ∀ x, x ∈ out ↔ x ∈ seen ∧ is_Some (members_of e !! x);
  wk_nodup : NoDup out;
  wk_below : ∀ x, x ∈ seen ∨ x ∈ stack → rtc (reports e) x root;
  wk_root : root ∈ seen ∨ root ∈ stack;
  wk_closed : ∀ x y, y ∈ seen → reports e x y → x ∈ seen ∨ x ∈ stack;
  wk_fuel : (length stack + length (filter (unexpanded seen) (member_values e)) <= fuel)%nat;
}.

Lemma walking_skip e root fuel seen out id stack :
  walking e root (S fuel) seen out (id :: stack) → id ∈ seen →
  walking e root fuel seen out stack.
Proof.
  intros [H1 H2 H3 H4 H5 H6] Hid. split; try done.
  - intros x Hx. apply H3. set_solver.
  - set_solver.
  - intros x y Hy Hxy. specialize (H5 x y Hy Hxy). set_solver.
  - simpl in H6. lia.
Qed.

Lemma walking_expand e root fuel seen out id stack :
  filed_ok e → walking e root (S fuel) seen out (id :: stack) → id ∉ seen →
  walking e root fuel ({[id]} ∪ seen)
    (if decide (is_Some (members_of e !! id)) then out ++ [id] else out)
    (rev_append (m_session <$> filter (reports_to id) (member_values e)) stack).
Proof.
  intros Hf [H1 H2 H3 H4 H5 H6] Hid.
  assert (Hstack : ∀ x, x ∈ rev_append (m_session <$> filter (reports_to id) (member_values e)) stack
    ↔ reports e x id ∨ x ∈ stack).
  { intros x. rewrite elem_of_rev_append, elem_of_children by done. done. }
  assert (Hroot : rtc (reports e) id root) by (apply H3; right; by left).
  split.
  - intros x. rewrite elem_of_union, elem_of_singleton. case_decide as Hm.
    + rewrite elem_of_app, list_elem_of_singleton, H1. split; [|tauto].
      intros [[? ?]| ->]; [tauto|]. split; [by left|done].
    + rewrite H1. split; [tauto|]. intros [[->|?] ?]; [done|tauto].
  - case_decide; [|done]. apply NoDup_app. split_and!; [done| |by apply NoDup_singleton].
    intros x Hx ->%list_elem_of_singleton. apply H1 in Hx as [? _]. done.
  - intros x [Hx|Hx].
    + apply elem_of_union in Hx as [->%elem_of_singleton|Hx]; [done|apply H3; by left].
    + apply Hstack in Hx as [Hx|Hx]; [by eapply rtc_l|]. apply H3. right. by right.
  - destruct H4 as [?|[->|?]%elem_of_cons]; [set_solver|set_solver|right; apply Hstack; by right].
  - intros x y [->%elem_of_singleton|Hy]%elem_of_union Hxy; [right; apply Hstack; by left|].
    destruct (H5 x y Hy Hxy) as [?|[->|?]%elem_of_cons]; [set_solver|set_solver|].
    right. apply Hstack. by right.
  - rewrite length_rev_append, length_fmap. simpl in H6.
    rewrite (expand_counts seen id) in H6 by done. lia.
Qed.

Lemma subtree_loop_spec e root fuel seen out stack :
  filed_ok e → walking e root fuel seen out stack →
  ∃ l seen' fuel', subtree_loop fuel e seen out stack = Some l ∧ walking e root fuel' seen' l [].
Proof.
  intros Hf. revert seen out stack. induction fuel as [|fuel IH]; intros seen out stack Hw.
  - destruct stack as [|x stack]; [|pose proof (wk_fuel _ _ _ _ _ _ Hw); simpl in *; lia].
    by exists out, seen, 0%nat.
  - destruct stack as [|x stack]; cbn [subtree_loop]; [by exists out, seen, (S fuel)|].
    case_decide as Hx; [by apply IH; eapply walking_skip|].
    apply IH. by apply walking_expand.
Qed.

(** The subtree walk always ends, even on a cycle, and answers exactly the
    members beneath its root (the root among them), each once and in id order. *)
Lemma subtree_exact g w root :
  reg_ok g →
  let e := entry_or_default g w in
  ∃ l, subtree g w root = Some l ∧ StronglySorted N.lt l ∧
    ∀ x, x ∈ l ↔ is_Some (members_of e !! x) ∧ rtc (reports e) x root.
Proof.
  intros Hg. cbn zeta. set (e := entry_or_default g w).
  assert (Hf : filed_ok e) by apply Hg.
  assert (H : ∃ l seen fuel, subtree g w root = Some (sort_ids l) ∧ walking e root fuel seen l []).
  { assert (Hstart : walking e root (subtree_fuel e) ∅ [] [root]).
    { split.
      - intros x. rewrite elem_of_nil, elem_of_empty. tauto.
      - by apply NoDup_nil.
      - intros x [?%not_elem_of_empty| ->%list_elem_of_singleton]; [done|apply rtc_refl].
      - right. by left.
      - by intros x y ?%not_elem_of_empty.
      - unfold subtree_fuel. pose proof (length_filter (unexpanded ∅) (member_values e)) as H.
        unfold member_values in *. rewrite length_btree_values in H.
        simpl. lia. }
    destruct (subtree_loop_spec e root _ _ _ _ Hf Hstart) as (l & seen & fuel & Hl & Hw).
    unfold subtree, e, entry_or_default in *. destruct (swarms g !! w) as [e0|]; cbn in Hl |- *.
    - exists l, seen, fuel. by rewrite Hl.
    - assert (l = []) as ->; [|by exists [], seen, fuel].
      apply elem_of_nil_inv. intros x Hx%(wk_out _ _ _ _ _ _ Hw). destruct Hx as [_ Hx].
      cbn in Hx. rewrite lookup_empty in Hx. by destruct Hx. }
  destruct H as (l & seen & fuel & Hl & [H1 H2 H3 H4 H5 _]).
  exists (sort_ids l). split_and!; [done|by apply sort_ids_strict|].
  intros x. rewrite elem_of_sort_ids, H1. split.
  - intros [Hx Hm]. split; [done|]. apply H3. by left.
  - intros [Hm Hx]. split; [|done].
    assert (Hin : ∀ y, rtc (reports e) y root → y ∈ seen); [|by apply Hin].
    assert (Hroot : root ∈ seen) by (destruct H4 as [?|?%not_elem_of_nil]; done).
    apply (rtc_ind_l (λ y, y ∈ seen) root Hroot). intros y z Hyz _ Hz.
    by destruct (H5 y z Hz Hyz) as [?|?%not_elem_of_nil].
Qed.

(** ** Repairing the tree *)

Definition has_active (e : Swarm) (s : SessionId) : Prop :=
  ∃ m, members_of e !! s = Some m ∧ active m = true.

Lemma elem_of_active e s :
  filed_ok e → s ∈ m_session <$> filter active (member_values e) ↔ has_active e s.
Proof.
  intros Hf. rewrite list_elem_of_fmap. unfold member_values, has_active.
  setoid_rewrite list_elem_of_filter. setoid_rewrite elem_of_btree_values. split.
  - intros (m & -> & Hm & k & Hk). exists m. rewrite (Hf k m Hk).
    split; [done|by apply Is_true_true].
  - intros (m & Hs & Hm). exists m. split; [by rewrite (Hf s m Hs)|].
    split; [by apply Is_true_true|by exists s].
Qed.

Lemma seat_held_true e : seat_held e = true ↔ ∃ s, seat e = Some s ∧ has_active e s.
Proof.
  unfold seat_held, is_active_member, has_active. split.
  - destruct (seat e) as [c|]; [|done]. destruct (members_of e !! c) as [m|] eqn:Hm; [|done].
    intros Ha. exists c. split; [done|]. by exists m.
  - intros (c & -> & m & -> & Ha). done.
Qed.

(** An election happens exactly when the swarm is not a pair, its seat is not
    held by a running member and someone is running; it seats the running
    member with the lowest id, whoever asks; otherwise nothing changes. *)
Theorem elect_coordinator_exact g w e :
  reg_ok g → swarms g !! w = Some e →
  match elect_coordinator g w with
  | (g', Some s) =>
      topology e ≠ Some Pair ∧ (∀ c, seat e = Some c → ¬ has_active e c) ∧
      has_active e s ∧ (∀ x, has_active e x → s <= x) ∧
      coordinator g' w = Some s ∧
      (∃ m, member g w s = Some m ∧ member g' w s = Some (set_m_role Coordinator m)) ∧
      (∀ x, x ≠ s → member g' w x = member g w x) ∧
      (∀ w', w' ≠ w → swarms g' !! w' = swarms g !! w')
  | (g', None) =>
      g' = g ∧
      (topology e = Some Pair ∨ (∃ c, seat e = Some c ∧ has_active e c) ∨
       ∀ x, ¬ has_active e x)
  end.
Proof.
  intros Hg He.
  assert (Hf : filed_ok e) by (rewrite <-(entry_or_default_Some _ _ _ He); apply Hg).
  unfold elect_coordinator. rewrite He. destruct (has_topology e Pair) eqn:Hp.
  { split; [done|]. left. by apply has_topology_true. }
  rewrite has_topology_false in Hp. destruct (seat_held e) eqn:Hseat.
  { split; [done|]. right. left. by apply seat_held_true. }
  destruct (min_id _) as [s|] eqn:Hmin.
  - apply min_id_elem in Hmin as [Hin Hle]. rewrite elem_of_active in Hin by done.
    split_and!; try done.
    + intros c Hc Ha. apply not_true_iff_false in Hseat. apply Hseat, seat_held_true. by exists c.
    + intros x Hx. apply Hle. by rewrite elem_of_active.
    + unfold coordinator, put; cbn. by rewrite lookup_insert_eq.
    + destruct Hin as (m & Hm & _). exists m. unfold member, put; cbn.
      rewrite He, lookup_insert_eq. cbn. split; [done|]. by rewrite lookup_alter_eq, Hm.
    + intros x Hx. unfold member, put; cbn. rewrite He, lookup_insert_eq. cbn.
      by rewrite lookup_alter_ne.
    + intros w' Hw. unfold put; cbn. by rewrite lookup_insert_ne.
  - split; [done|]. right. right. rewrite min_id_None in Hmin. intros x Hx.
    apply (elem_of_active e x Hf) in Hx. rewrite Hmin in Hx. by apply not_elem_of_nil in Hx.
Qed.

Lemma elect_coordinator_exact_witness :
  let g := fst (set_member_status demo "s" 7 Departed) in
  snd (elect_coordinator g "s") = Some 8 ∧
  coordinator (fst (elect_coordinator g "s")) "s" = Some 8.
Proof.
  cbn zeta. set (g := fst (set_member_status demo "s" 7 Departed)).
  assert (Hok : reg_ok g) by (apply set_member_status_ok, run_ops_ok, with_limits_ok).
  destruct (swarms g !! "s") as [e|] eqn:He; [|by vm_compute in He].
  pose proof (elect_coordinator_exact g "s" e Hok He) as H.
  assert (Hs : snd (elect_coordinator g "s") = Some 8) by by vm_compute.
  destruct (elect_coordinator g "s") as [g' [s|]]; [|done]. injection Hs as ->.
  destruct H as (_ & _ & _ & _ & H & _). split; [done|exact H].
Defined.

Lemma adopts_lookup parent l e x :
  NoDup l →
  members_of (fold_left (adopt parent) l e) !! x =
    if decide (x ∈ l)
    then set_m_parent (keep (λ p, negb (p =? x)) parent) <$> members_of e !! x
    else members_of e !! x.
Proof.
  revert e. induction l as [|s l IH]; intros e Hnd; cbn [fold_left].
  - case_decide as H; [by apply not_elem_of_nil in H|done].
  - apply list.NoDup_cons in Hnd as [Hs Hnd]. rewrite IH by done. cbn.
    destruct (decide (s = x)) as [->|Hne].
    + rewrite decide_False by done. rewrite decide_True by by left. by rewrite lookup_alter_eq.
    + rewrite lookup_alter_ne by done. apply decide_ext. rewrite elem_of_cons.
      split; [tauto|intros [?|?]; congruence].
Qed.

Lemma values_NoDup e : filed_ok e → NoDup (member_values e).
Proof.
  intros Hf. unfold member_values. rewrite btree_values_perm.
  apply NoDup_fmap_2_strong; [|apply NoDup_map_to_list].
  intros [k m] [k' m'] Hk Hk' [= ->]. apply elem_of_map_to_list in Hk, Hk'.
  by rewrite <-(Hf k m' Hk), <-(Hf k' m' Hk').
Qed.

Lemma sessions_NoDup e (P : SwarmMember → Prop) `{!∀ m, Decision (P m)} :
  filed_ok e → NoDup (m_session <$> filter P (member_values e)).
Proof.
  intros Hf. apply NoDup_fmap_2_strong; [|by apply NoDup_filter, values_NoDup].
  intros m m' [_ Hm]%list_elem_of_filter [_ Hm']%list_elem_of_filter Hs.
  unfold member_values in *. rewrite elem_of_btree_values in Hm, Hm'.
  destruct Hm as [k Hk], Hm' as [k' Hk'].
  pose proof (Hf k m Hk). pose proof (Hf k' m' Hk'). congruence.
Qed.

Lemma keep_Some {A} (f : A → bool) o a : keep f o = Some a ↔ o = Some a ∧ f a = true.
Proof.
  split.
  - destruct o as [b|]; simpl; [|done]. destruct (f b) eqn:Hb; [|done]. by intros [= <-].
  - intros [-> Ha]. simpl. by rewrite Ha.
Qed.

Lemma keep_None {A} (f : A → bool) o : keep f o = None ↔ ∀ a, o = Some a → f a = false.
Proof.
  split.
  - intros Hk a ->. simpl in Hk. by destruct (f a).
  - intros Hall. destruct o as [a|]; simpl; [|done]. by rewrite (Hall a eq_refl).
Qed.

(** The parent chosen for the children of [departed]: its own parent if that
    one is running, or else whoever holds the seat, if they are a member. *)
Lemma new_parent_spec e departed :
  filed_ok e →
  match new_parent e departed with
  | Some p =>
      p ≠ departed ∧ is_Some (members_of e !! p) ∧
      (reports e departed p ∧ has_active e p ∨ seat e = Some p)
  | None => ∀ c, seat e = Some c → c ≠ departed → members_of e !! c = None
  end.
Proof.
  intros Hf. unfold new_parent. destruct (keep _ (parent_of e departed)) as [p|] eqn:Hg.
  - apply keep_Some in Hg as [Hp Hg]. destruct (members_of e !! p) as [m|] eqn:Hm; [|done].
    apply andb_true_iff in Hg as [Ha Hne]. apply negb_true_iff, N.eqb_neq in Hne.
    rewrite (Hf p m Hm) in Hne. split_and!; [done|by eexists|].
    left. split; [done|by exists m].
  - destruct (keep _ (seat e)) as [p|] eqn:Hk.
    + apply keep_Some in Hk as [Hp Hk]. apply andb_true_iff in Hk as [Hne Hin].
      apply negb_true_iff, N.eqb_neq in Hne. apply bool_decide_eq_true in Hin.
      split_and!; try done. by right.
    + rewrite keep_None in Hk. intros c Hc Hne. specialize (Hk c Hc).
      apply andb_false_iff in Hk as [Hk|Hk].
      * apply negb_false_iff, N.eqb_eq in Hk. done.
      * apply bool_decide_eq_false in Hk. by apply eq_None_not_Some.
Qed.

(** The entry once the children of [departed] are adopted. *)
Definition child_list (e : Swarm) (departed : SessionId) : list SessionId :=
  m_session <$> filter (reports_to departed) (member_values e).

Definition adopted (e : Swarm) (departed : SessionId) : Swarm :=
  fold_left (adopt (new_parent e departed)) (child_list e departed) e.

Lemma adopts_rest parent l e :
  seat (fold_left (adopt parent) l e) = seat e ∧
  plan_of (fold_left (adopt parent) l e) = plan_of e ∧
  topology (fold_left (adopt parent) l e) = topology e.
Proof. revert e. induction l as [|s l IH]; intros e; [done|]. apply (IH (adopt parent e s)). Qed.

Lemma adopted_lookup e departed x :
  filed_ok e →
  members_of (adopted e departed) !! x =
    if decide (parent_of e x = Some departed)
    then set_m_parent (if decide (new_parent e departed = Some x) then None
                       else new_parent e departed) <$> members_of e !! x
    else members_of e !! x.
Proof.
  intros Hf. unfold adopted. rewrite adopts_lookup by by apply sessions_NoDup.
  set (p := new_parent e departed).
  assert (Hkeep : keep (λ p, negb (p =? x)) p = if decide (p = Some x) then None else p).
  { destruct p as [q|]; cbn [keep]; [|by destruct (decide _)].
    destruct (N.eqb_spec q x) as [->|Hne]; cbn [negb]; [by rewrite decide_True|].
    rewrite decide_False; [done|congruence]. }
  rewrite Hkeep. apply decide_ext. by apply elem_of_children.
Qed.

(** Nobody reports to the departed member any more, and no new edge leads
    outside the swarm. *)
Lemma adopted_reports e departed x q :
  filed_ok e → reports (adopted e departed) x q →
  q ≠ departed ∧ (reports e x departed → is_Some (members_of e !! q)).
Proof.
  intros Hf. pose proof (new_parent_spec e departed Hf) as Hp.
  unfold reports. unfold parent_of at 1. rewrite adopted_lookup by done.
  destruct (decide (parent_of e x = Some departed)) as [Hx|Hx].
  - destruct (members_of e !! x); [cbn|done].
    destruct (decide (new_parent e departed = Some x)); [done|]. intros Hq. rewrite Hq in Hp.
    by destruct Hp as (? & ? & _).
  - intros Hq. split; [|done]. intros ->. by apply Hx.
Qed.

(** Reparenting moves exactly the members that reported to the departed one:
    each now reports to the chosen member (its grandparent while running,
    otherwise the seat's holder), or to nobody if that would be itself or
    there is none; nobody reports to the departed one any more, and no new
    edge leads outside the swarm; every other member is untouched. *)
Theorem reparent_children_exact g w e departed :
  reg_ok g → swarms g !! w = Some e →
  let '(g', moved) := reparent_children g w departed in
  let p := new_parent e departed in
  StronglySorted N.lt moved ∧
  (∀ x, x ∈ moved ↔ reports e x departed) ∧
  (∀ x m, members_of e !! x = Some m →
     member g' w x =
       Some (if decide (x ∈ moved)
             then set_m_parent (if decide (p = Some x) then None else p) m else m)) ∧
  (∀ x, ¬ reports (entry_or_default g' w) x departed) ∧
  (∀ x q, x ∈ moved → reports (entry_or_default g' w) x q → is_Some (members_of e !! q)) ∧
  (∀ w', w' ≠ w → swarms g' !! w' = swarms g !! w').
Proof.
  intros Hg He.
  assert (Hf : filed_ok e) by (rewrite <-(entry_or_default_Some _ _ _ He); apply Hg).
  unfold reparent_children. rewrite He. cbn zeta. fold (child_list e departed).
  fold (adopted e departed).
  assert (Hkids : ∀ x, x ∈ sort_ids (child_list e departed) ↔ reports e x departed)
    by (intros x; rewrite elem_of_sort_ids; by apply elem_of_children).
  assert (Hself : entry_or_default (put g w (adopted e departed)) w = adopted e departed)
    by (rewrite entry_or_default_put; by rewrite decide_True).
  rewrite Hself. split_and!.
  - by apply sort_ids_strict, sessions_NoDup.
  - done.
  - intros x m Hm. unfold member, put; cbn [swarms]. rewrite lookup_insert_eq. cbn.
    rewrite adopted_lookup, Hm by done.
    destruct (decide (parent_of e x = Some departed)) as [Hx|Hx].
    + by rewrite (decide_True (P := x ∈ _)) by by apply Hkids.
    + rewrite (decide_False (P := x ∈ _)); [done|]. by rewrite Hkids.
  - intros x [Hq _]%adopted_reports; done.
  - intros x q Hx%Hkids [_ Hq]%adopted_reports; [|done]. by apply Hq.
  - intros w' Hw. unfold put; cbn. by rewrite lookup_insert_ne.
Qed.

Lemma reparent_children_exact_witness :
  let '(g', moved) := reparent_children demo "s" 7 in
  moved = [8; 9] ∧ ¬ reports (entry_or_default g' "s") 8 7.
Proof.
  assert (Hok : reg_ok demo) by apply run_ops_ok, with_limits_ok.
  assert (He : ∃ e, swarms demo !! "s" = Some e) by (eexists; by vm_compute).
  destruct He as [e He].
  pose proof (reparent_children_exact demo "s" e 7 Hok He) as H.
  assert (Hm : snd (reparent_children demo "s" 7) = [8; 9]) by by vm_compute.
  destruct (reparent_children demo "s" 7) as [g' moved]. cbn in Hm. subst moved.
  cbn zeta in H. destruct H as (_ & _ & _ & H & _). split; [done|apply H].
Defined.

(** Two departures can close a loop of report edges: [5] leads and spawned [6],
    which spawned [7], which spawned [1].  When [5] goes, [6] becomes a root and
    [1], the lowest id, takes the seat; when [6] goes, its child [7] is handed
    to the seat - to its own child. *)
Definition loop_ops : list op :=
  [JoinRoot "s" 5 "lead"; Reserve "s" None; Confirm (mkReservation 0 "s") (worker 6 "a" 5);
   Reserve "s" None; Confirm (mkReservation 1 "s") (worker 7 "b" 6);
   Reserve "s" None; Confirm (mkReservation 2 "s") (worker 1 "c" 7);
   SetStatus "s" 5 Departed; Reparent "s" 5; Elect "s";
   SetStatus "s" 6 Departed; Reparent "s" 6].

Lemma reparent_can_close_a_loop :
  let e := entry_or_default (run_ops (with_limits SwarmLimits_default) loop_ops) "s" in
  reports e 7 1 ∧ reports e 1 7.
Proof. by vm_compute. Qed.
