(* ===== verification/Touches.v ===== *)
(** * File touches (crates/localpilot-tools/src/touch.rs,
    crates/localpilot-server/src/swarm/touches.rs)

    What a tool reports it did to a file, the range of lines that differ
    between two versions of one, and the index that tells the sessions of a
    swarm about each other's changes. *)

From Stdlib Require Import Ascii.
From stdpp Require Import base gmap list sorting strings numbers.
From S2P Require Import Prelude RustStr Artifact Plan Swarm.
#[local] Open Scope N_scope.

(** ** Touches *)

Inductive TouchOp := Read | Modified | Wrote | Deleted.
#[export] Instance TouchOp_eq_dec : EqDecision TouchOp.
Proof. solve_decision. Defined.

Definition is_mutation (o : TouchOp) : bool := match o with Read => false | _ => true end.

Definition word (o : TouchOp) : string :=
  match o with
  | Read => "read"
  | Modified => "changed"
  | Wrote => "rewrote"
  | Deleted => "deleted"
  end.

(** Lines are [u32]. *)
Record LineRange := mkRange { start : N; end_ : N }.
#[export] Instance LineRange_eq_dec : EqDecision LineRange.
Proof. solve_decision. Defined.

Definition LineRange_new (s e : N) : LineRange := mkRange (N.min s e) (N.max s e).
Definition LineRange_line (at_ : N) : LineRange := mkRange at_ at_.
Definition overlaps (a b : LineRange) : bool := (start a <=? end_ b) && (start b <=? end_ a).

Definition show_range (r : LineRange) : string :=
  if start r =? end_ r then "line " +:+ show_N (start r)
  else "lines " +:+ show_N (start r) +:+ "-" +:+ show_N (end_ r).

Record FileTouch := mkTouch { t_path : string; t_op : TouchOp; t_lines : option LineRange }.
#[export] Instance FileTouch_eq_dec : EqDecision FileTouch.
Proof. solve_decision. Defined.

Definition whole (path : string) (o : TouchOp) : FileTouch := mkTouch path o None.
Definition ranged (path : string) (o : TouchOp) (l : LineRange) : FileTouch :=
  mkTouch path o (Some l).

(** [str::split(['/', '\\'])]. *)
Fixpoint split_separators (cur s : string) : list string :=
  match s with
  | "" => [cur]
  | String c s =>
      if bool_decide (c = "/"%char) || bool_decide (c = "\"%char)
      then cur :: split_separators "" s
      else split_separators (cur +:+ String c "") s
  end.

(** [Vec::pop]. *)
Definition pop {A} (l : list A) : list A := take (length l - 1) l.

Definition normal_step (parts : list string) (part : string) : list string :=
  if bool_decide (part = "") || bool_decide (part = ".") then parts
  else if bool_decide (part = "..") then pop parts
  else parts ++ [part].

Definition normal_parts (path : string) : list string :=
  fold_left normal_step (split_separators "" path) [].

(** ** Accesses and collisions *)

Record Access := mkAccess { a_session : SessionId; a_touch : FileTouch; a_at : Instant }.

Record Collision := mkCollision {
  peer_of : SessionId;
  their_touch : FileTouch;
  c_overlapping : bool;
}.

(** Keyed by normalised path. *)
Abbreviation Index := (gmap string (list Access)).

(** ** The platform

    [fold_case] is what the build does with the joined path: lower-casing on
    Windows and macOS, nothing elsewhere. *)
Section platform.
Context (fold_case : string → string).

Definition normalise (path : string) : string := fold_case (join "/" (normal_parts path)).

Definition same_file (a b : string) : bool := bool_decide (normalise a = normalise b).

Definition overlapping (a b : FileTouch) : bool :=
  match t_lines a, t_lines b with
  | Some x, Some y => overlaps x y
  | _, _ => true
  end.

Definition collides_with (a b : FileTouch) : bool :=
  if negb (same_file (t_path a) (t_path b)) then false
  else match t_lines a, t_lines b with
  | Some mine, Some theirs => overlaps mine theirs
  | _, _ => true
  end.

(** ** The index *)

Definition live (ttl : N) (now : Instant) (a : Access) : bool := sat_sub now (a_at a) <? ttl.

(** The loop over the accesses, latest first. *)
Fixpoint collide_loop (session : SessionId) (touch : FileTouch) (accesses : list Access)
    (seen : list Collision) : list Collision :=
  match accesses with
  | [] => seen
  | access :: rest =>
      if a_session access =? session then collide_loop session touch rest seen
      else if negb (collides_with (a_touch access) touch) then
        collide_loop session touch rest seen
      else if existsb (λ c, peer_of c =? a_session access) seen then
        collide_loop session touch rest seen
      else
        collide_loop session touch rest
          (seen ++ [mkCollision (a_session access) (a_touch access)
                      (overlapping (a_touch access) touch)])
  end.

Definition record (ttl : N) (ix : Index) (session : SessionId) (touch : FileTouch)
    (now : Instant) : Index * list Collision :=
  let key := normalise (t_path touch) in
  let accesses := filter (live ttl now) (default [] (ix !! key)) in
  let collisions :=
    if is_mutation (t_op touch) then collide_loop session touch (rev accesses) []
    else [] in
  (<[key := accesses ++ [mkAccess session touch now]]> ix, collisions).

Definition forget (ix : Index) (session : SessionId) : Index :=
  filter (λ kv, kv.2 ≠ [])
    ((λ accesses, filter (λ a, a_session a ≠ session) accesses) <$> ix).

Definition string_le (a b : string) : Prop := String.leb a b = true.
#[export] Instance string_le_dec : RelDecision string_le.
Proof. intros a b. apply bool_eq_dec. Defined.

Definition paths_touched_by (ttl : N) (ix : Index) (session : SessionId) (now : Instant)
    : list string :=
  merge_sort string_le
    (map_to_list (filter
       (λ kv, existsb (λ a, (a_session a =? session) && live ttl now a) kv.2) ix)).*1.

Definition len (ttl : N) (ix : Index) (now : Instant) : nat :=
  length (filter (live ttl now) (mjoin (map_to_list ix).*2)).

Definition is_empty (ttl : N) (ix : Index) (now : Instant) : bool :=
  bool_decide (len ttl ix now = 0%nat).

(** ** Telling people *)

Definition alert (who : string) (touch : FileTouch) (theirs : TouchOp) (over : bool) : string :=
  let where_ := match t_lines touch with
                | Some lines => show_range lines
                | None => "the whole file"
                end in
  let scope := if over then "overlapping the part you were working on"
               else "elsewhere in a file you have open" in
  if is_mutation theirs then
    who +:+ " just " +:+ word (t_op touch) +:+ " " +:+ t_path touch +:+ " (" +:+ where_ +:+
    "), " +:+ scope +:+ ". Nothing was locked or rolled back — you both wrote. Re-read the file before your next edit to it, and message " +:+ who +:+
    " if you are both changing the same thing."
  else
    who +:+ " just " +:+ word (t_op touch) +:+ " " +:+ t_path touch +:+ " (" +:+ where_ +:+
    "), " +:+ scope +:+ ". What you read from that file may be out of date; re-read it before relying on it.".

(** [hosted] are the sessions with a live host, [name_of] what a session is
    called; the messages are those injected, in order, with their recipient. *)
Fixpoint announce_loop (hosted : gset SessionId) (name_of : SessionId → string)
    (session : SessionId) (touch : FileTouch) (collisions : list Collision)
    : list (SessionId * string) * list SessionId :=
  match collisions with
  | [] => ([], [])
  | c :: rest =>
      let '(sent, notified) := announce_loop hosted name_of session touch rest in
      if decide (peer_of c ∈ hosted) then
        let to_peer :=
          (peer_of c, alert (name_of session) touch (t_op (their_touch c)) (c_overlapping c)) in
        let back :=
          if is_mutation (t_op (their_touch c)) && bool_decide (session ∈ hosted) then
            [(session, alert (name_of (peer_of c)) (their_touch c) (t_op touch) (c_overlapping c))]
          else [] in
        (to_peer :: back ++ sent, peer_of c :: notified)
      else (sent, notified)
  end.

Definition announce (ttl : N) (ix : Index) (hosted : gset SessionId)
    (name_of : SessionId → string) (session : SessionId) (touch : FileTouch) (now : Instant)
    : Index * (list (SessionId * string) * list SessionId) :=
  let '(ix, collisions) := record ttl ix session touch now in
  (ix, announce_loop hosted name_of session touch collisions).
End platform.

(** ** The span of lines that differ *)

Definition LF : ascii := "010"%char.
Definition CR : ascii := "013"%char.

(** [str::lines]: split after each line feed; a line loses its line feed and a
    carriage return before it; what follows the last line feed is a line unless
    it is empty. *)
Definition strip_cr (rev_line : list ascii) : string :=
  String.string_of_list_ascii (rev (match rev_line with
                             | c :: l => if bool_decide (c = CR) then l else rev_line
                             | [] => []
                             end)).

Fixpoint lines_from (rev_line : list ascii) (s : string) : list string :=
  match s with
  | "" =>
      match rev_line with
      | [] => []
      | _ => [String.string_of_list_ascii (rev rev_line)]
      end
  | String c s =>
      if bool_decide (c = LF) then strip_cr rev_line :: lines_from [] s
      else lines_from (c :: rev_line) s
  end.

Definition lines (s : string) : list string := lines_from [] s.

(** The first loop: [while first < old.len() && first < new.len() && ..]. *)
Fixpoint first_loop (fuel : nat) (old new : list string) (first : nat) : nat :=
  match fuel with
  | O => first
  | S fuel =>
      match old !! first, new !! first with
      | Some a, Some b => if decide (a = b) then first_loop fuel old new (S first) else first
      | _, _ => first
      end
  end.

(** The second loop, from the end, never past the common prefix. *)
Fixpoint tail_loop (fuel : nat) (old new : list string) (first tail : nat) : nat :=
  match fuel with
  | O => tail
  | S fuel =>
      if decide ((tail < length old - first)%nat ∧ (tail < length new - first)%nat) then
        if decide (old !! (length old - 1 - tail)%nat = new !! (length new - 1 - tail)%nat)
        then tail_loop fuel old new first (S tail)
        else tail
      else tail
  end.

(** [u32::try_from(n).unwrap_or(u32::MAX)]. *)
Definition to_u32 (n : nat) : N := N.min (N.of_nat n) U32_MAX.

Definition changed_range (before after : string) : option LineRange :=
  if decide (before = after) then None
  else
    let old := lines before in
    let new := lines after in
    let first := first_loop (length old) old new 0 in
    let tail := tail_loop (length old) old new first 0 in
    let s := (first + 1)%nat in
    let e := Nat.max (length new - tail) first in
    Some (LineRange_new (to_u32 s) (to_u32 (Nat.max e s))).

(** ** What the touch index promises

    Which changes are announced to whom, that two spellings of a path are one
    file, and that the reported range encloses every line that differs. *)

From stdpp Require Import list.
#[local] Open Scope N_scope.

(** ** The differing span *)

Lemma first_loop_spec fuel old new first :
  (length old <= fuel + first)%nat → take first old = take first new →
  (first <= length old)%nat → (first <= length new)%nat →
  let n := first_loop fuel old new first in
  take n old = take n new ∧ (n <= length old)%nat ∧ (n <= length new)%nat ∧
  (old !! n = None ∨ new !! n = None ∨ old !! n ≠ new !! n).
Proof.
  revert first. induction fuel as [|fuel IH]; intros first Hf Ht Ho Hn; cbn.
  - split_and!; try done. left. apply lookup_ge_None. lia.
  - destruct (old !! first) as [a|] eqn:Ha; [|by split_and!; auto].
    destruct (new !! first) as [b|] eqn:Hb; [|by split_and!; auto].
    case_decide as Hab; [subst b|].
    + apply IH; [lia| |by apply lookup_lt_Some in Ha|by apply lookup_lt_Some in Hb].
      by rewrite (take_S_r old first a), (take_S_r new first a), Ht.
    + split_and!; try done. right. right. congruence.
Qed.

Lemma drop_S_cons {A} (l : list A) n x : l !! n = Some x → drop n l = x :: drop (S n) l.
Proof. intros H. by apply drop_S. Qed.

Lemma tail_loop_spec fuel old new first tail :
  (tail <= length old - first)%nat → (tail <= length new - first)%nat →
  drop (length old - tail) old = drop (length new - tail) new →
  let n := tail_loop fuel old new first tail in
  drop (length old - n) old = drop (length new - n) new ∧
  (n <= length old - first)%nat ∧ (n <= length new - first)%nat.
Proof.
  revert tail. induction fuel as [|fuel IH]; intros tail Ho Hn Hd; cbn [tail_loop]; [done|].
  case_decide as Hlt; [|done]. destruct Hlt as [Hlo Hln]. case_decide as Heq; [|done].
  apply IH; [lia..|].
  destruct (lookup_lt_is_Some_2 old (length old - 1 - tail)) as [a Ha]; [lia|].
  destruct (lookup_lt_is_Some_2 new (length new - 1 - tail)) as [b Hb]; [lia|].
  replace (length old - S tail)%nat with (length old - 1 - tail)%nat by lia.
  replace (length new - S tail)%nat with (length new - 1 - tail)%nat by lia.
  rewrite (drop_S_cons _ _ _ Ha), (drop_S_cons _ _ _ Hb).
  replace (S (length old - 1 - tail))%nat with (length old - tail)%nat by lia.
  replace (S (length new - 1 - tail))%nat with (length new - tail)%nat by lia.
  f_equal; [|done]. congruence.
Qed.

(** The reported range encloses every line that differs: there is no range
    exactly when the contents are equal; otherwise the lines before it are the
    same in both versions, the lines of the new version after it are the last
    lines of the old one, and what is left of either version in between lies
    within it. *)
Theorem changed_range_encloses before after :
  N.of_nat (length (lines before)) < U32_MAX → N.of_nat (length (lines after)) < U32_MAX →
  match changed_range before after with
  | None => before = after
  | Some r =>
      before ≠ after ∧ 1 <= start r ∧ start r <= end_ r ∧
      ∃ common old_mid new_mid rest,
        lines before = common ++ old_mid ++ rest ∧
        lines after = common ++ new_mid ++ rest ∧
        start r = N.of_nat (length common) + 1 ∧
        end_ r = N.max (start r) (N.of_nat (length (common ++ new_mid))) ∧
        (∀ a b, head old_mid = Some a → head new_mid = Some b → a ≠ b)
  end.
Proof.
  intros Hold Hnew. unfold changed_range. case_decide as Heq; [done|]. cbn zeta.
  set (old := lines before) in *. set (new := lines after) in *.
  destruct (first_loop_spec (length old) old new 0) as (Ht & Hfo & Hfn & Hdiff);
    [lia|by rewrite !take_0|lia|lia|].
  set (first := first_loop (length old) old new 0) in *.
  destruct (tail_loop_spec (length old) old new first 0) as (Hd & Hto & Htn);
    [lia|lia|by rewrite !Nat.sub_0_r, !drop_all|].
  set (tail := tail_loop (length old) old new first 0) in *.
  clearbody first tail old new.
  set (e := Nat.max (length new - tail) first).
  assert (Hu : to_u32 (first + 1) = N.of_nat first + 1 ∧
    to_u32 (Nat.max e (first + 1)) = N.max (N.of_nat first + 1) (N.of_nat e))
    by (unfold to_u32, e; lia).
  destruct Hu as [-> ->].
  set (s := N.of_nat first + 1). unfold LineRange_new; cbn [start end_].
  rewrite N.min_l, N.max_r by lia.
  split_and!; [done|unfold s; lia|lia|].
  exists (take first new), (take (length old - tail - first) (drop first old)),
    (take (length new - tail - first) (drop first new)), (drop (length new - tail) new).
  assert (Hsplit : ∀ l : list string, (first <= length l)%nat → (tail <= length l - first)%nat →
    l = take first l ++ take (length l - tail - first) (drop first l) ++ drop (length l - tail) l).
  { intros l Hfl Hl. rewrite <-(take_drop first l) at 1. f_equal.
    rewrite <-(take_drop (length l - tail - first) (drop first l)) at 1. f_equal.
    rewrite drop_drop. f_equal. lia. }
  split_and!.
  - rewrite <-Ht, <-Hd. by apply Hsplit.
  - by apply Hsplit.
  - rewrite length_take. unfold s. lia.
  - rewrite length_app, !length_take, length_drop. unfold s, e. lia.
  - intros a b Ha Hb ->.
    assert (Hhead : ∀ (l : list string) n, head (take n (drop first l)) = Some b → l !! first = Some b).
    { intros l n. destruct n; [done|]. rewrite <-(Nat.add_0_r first) at 2.
      rewrite <-lookup_drop. by destruct (drop first l). }
    apply Hhead in Ha, Hb. rewrite Ha, Hb in Hdiff. destruct Hdiff as [?|[?|?]]; done.
Qed.

Definition text (l : list string) : string := String.concat (String LF "") l.

Lemma changed_range_encloses_witness :
  changed_range (text ["a"; "b"; "c"; "d"]) (text ["a"; "x"; "y"; "c"; "d"]) =
    Some (mkRange 2 3) ∧
  ∃ common old_mid new_mid rest,
    ["a"; "b"; "c"; "d"] = common ++ old_mid ++ rest ∧
    ["a"; "x"; "y"; "c"; "d"] = common ++ new_mid ++ rest ∧ length common = 1%nat.
Proof.
  assert (Hr : changed_range (text ["a"; "b"; "c"; "d"]) (text ["a"; "x"; "y"; "c"; "d"]) =
    Some (mkRange 2 3)) by by vm_compute.
  pose proof (changed_range_encloses (text ["a"; "b"; "c"; "d"]) (text ["a"; "x"; "y"; "c"; "d"])
    ltac:(by vm_compute) ltac:(by vm_compute)) as H.
  rewrite Hr in H. destruct H as (_ & _ & _ & common & om & nm & rest & Ho & Hn & Hs & _).
  split; [done|]. exists common, om, nm, rest. split_and!; [exact Ho|exact Hn|].
  cbn in Hs. lia.
Defined.

(** ** The index *)

Section index.
Context (fold_case : string → string).

(** The accesses of [p] that [touch] concerns. *)
Definition concerned (ttl : N) (now : Instant) (touch : FileTouch) (p : SessionId)
    (a : Access) : Prop :=
  a_session a = p ∧ live ttl now a = true ∧ collides_with fold_case (a_touch a) touch = true.
#[export] Instance concerned_dec ttl now touch p a : Decision (concerned ttl now touch p a).
Proof. apply _. Defined.

Lemma filter_rev {A} (P : A → Prop) `{!∀ x, Decision (P x)} (l : list A) :
  filter P (rev l) = rev (filter P l).
Proof.
  induction l as [|x l IH]; [done|]. cbn [rev]. rewrite list.filter_app, IH, !filter_cons.
  case_decide; [done|]. by rewrite filter_nil, app_nil_r.
Qed.

Lemma head_rev {A} (l : list A) : head (rev l) = last l.
Proof.
  induction l as [|x l IH]; [done|]. cbn [rev]. destruct l as [|y l]; [done|].
  change (last (x :: y :: l)) with (last (y :: l)). rewrite <-IH.
  destruct (rev (y :: l)) eqn:H; [|done]. apply (f_equal length) in H.
  rewrite length_rev in H. done.
Qed.

Definition bucket (ix : Index) (touch : FileTouch) : list Access :=
  default [] (ix !! normalise fold_case (t_path touch)).

Lemma collides_overlapping a b : collides_with fold_case a b = true → overlapping a b = true.
Proof.
  unfold collides_with, overlapping. destruct (negb _); [done|].
  by destruct (t_lines a), (t_lines b).
Qed.

Definition hit (touch : FileTouch) (p : SessionId) (a : Access) : Prop :=
  a_session a = p ∧ collides_with fold_case (a_touch a) touch = true.
#[export] Instance hit_dec touch p a : Decision (hit touch p a).
Proof. apply _. Defined.

Lemma existsb_peers p (seen : list Collision) :
  existsb (λ c, peer_of c =? p) seen = true ↔ p ∈ peer_of <$> seen.
Proof.
  rewrite existsb_exists, list_elem_of_fmap. split.
  - intros (c & Hc & Hp). apply N.eqb_eq in Hp. exists c. split; [done|by apply list_elem_of_In].
  - intros (c & -> & Hc). exists c. split; [by apply list_elem_of_In|by apply N.eqb_eq].
Qed.

(** The loop adds, for each peer not seen yet, the first access it meets. *)
Lemma collide_loop_spec session touch l seen :
  NoDup (peer_of <$> seen) →
  let out := collide_loop fold_case session touch l seen in
  NoDup (peer_of <$> out) ∧
  ∀ p t o, mkCollision p t o ∈ out ↔
    mkCollision p t o ∈ seen ∨
    p ≠ session ∧ (p ∉ peer_of <$> seen) ∧ o = true ∧
    ∃ a, head (filter (hit touch p) l) = Some a ∧ a_touch a = t.
Proof.
  cbn zeta. revert seen. induction l as [|a l IH]; intros seen Hnd; cbn [collide_loop].
  { split; [done|]. intros p t o. split; [by left|].
    intros [?|(_ & _ & _ & a & Ha & _)]; [done|]. done. }
  assert (Hskip : ∀ seen', NoDup (peer_of <$> seen') →
    (∀ p, hit touch p a → p = session ∨ p ∈ peer_of <$> seen') → seen' = seen →
    NoDup (peer_of <$> collide_loop fold_case session touch l seen') ∧
    ∀ p t o, mkCollision p t o ∈ collide_loop fold_case session touch l seen' ↔
      mkCollision p t o ∈ seen ∨
      p ≠ session ∧ (p ∉ peer_of <$> seen) ∧ o = true ∧
      ∃ a', head (filter (hit touch p) (a :: l)) = Some a' ∧ a_touch a' = t).
  { intros seen' Hnd' Hno ->. destruct (IH seen Hnd) as [H1 H2]. split; [done|].
    intros p t o. rewrite H2. rewrite filter_cons. case_decide as Hh; [|done].
    destruct (Hno p Hh) as [->|Hin]; [tauto|]. tauto. }
  destruct (N.eqb_spec (a_session a) session) as [Hs|Hs].
  { apply Hskip; try done. intros p [<- _]. by left. }
  destruct (collides_with fold_case (a_touch a) touch) eqn:Hc; cbn [negb].
  2: { apply Hskip; try done. intros p [_ Hh]. congruence. }
  destruct (existsb _ seen) eqn:Hseen.
  { apply Hskip; try done. intros p [<- _]. right. by apply existsb_peers. }
  clear Hskip. rewrite (collides_overlapping _ _ Hc).
  apply not_true_iff_false in Hseen. rewrite existsb_peers in Hseen.
  set (new := mkCollision (a_session a) (a_touch a) true).
  assert (Hpeers : ∀ p, p ∈ peer_of <$> seen ++ [new] ↔ p ∈ peer_of <$> seen ∨ p = a_session a).
  { intros p. rewrite fmap_app, elem_of_app. simpl. by rewrite list_elem_of_singleton. }
  destruct (IH (seen ++ [new])) as [H1 H2].
  { rewrite fmap_app. apply list.NoDup_app. split_and!; [done| |by apply NoDup_singleton].
    by intros p Hp ->%list_elem_of_singleton. }
  split; [done|]. intros p t o. rewrite H2, elem_of_app, list_elem_of_singleton.
  rewrite Hpeers, filter_cons. case_decide as Hh.
  - destruct Hh as [<- _]. cbn [head]. split.
    + intros [[?|Hnew]|(_ & Hno & _)]; [by left| |tauto].
      injection Hnew as -> ->. right. split_and!; try done. by exists a.
    + intros [?|(Hp & Hin & -> & a' & [= <-] & <-)]; [by left; left|]. left. by right.
  - assert (p ≠ a_session a) by (intros ->; by apply Hh). split.
    + intros [[?|Hnew]|(? & Hno & ? & ?)]; [by left| |right; tauto].
      injection Hnew as -> _ _. done.
    + intros [?|(? & ? & ? & ?)]; [by left; left|right]. tauto.
Qed.

(** Recording a touch: a read disturbs nobody; a change is reported against
    exactly the other sessions with a live access to the same file that its
    lines meet, each once and with the latest such access of theirs; and the
    access is filed, after dropping the expired ones of that file only. *)
Theorem record_exact ttl (ix : Index) session touch now :
  let '(ix', cs) := record fold_case ttl ix session touch now in
  NoDup (peer_of <$> cs) ∧
  (∀ p t o, mkCollision p t o ∈ cs ↔
     is_mutation (t_op touch) = true ∧ p ≠ session ∧ o = true ∧
     ∃ a, last (filter (concerned ttl now touch p) (bucket ix touch)) = Some a ∧
          a_touch a = t) ∧
  bucket ix' touch = filter (live ttl now) (bucket ix touch) ++ [mkAccess session touch now] ∧
  (∀ k, k ≠ normalise fold_case (t_path touch) → ix' !! k = ix !! k).
Proof.
  unfold record. cbn zeta. fold (bucket ix touch).
  assert (Hput : ∀ l, bucket (<[normalise fold_case (t_path touch) := l]> ix) touch = l)
    by (intros l; unfold bucket; by rewrite lookup_insert_eq).
  assert (Hfresh : ∀ (l : list Access) k, k ≠ normalise fold_case (t_path touch) →
    <[normalise fold_case (t_path touch) := l]> ix !! k = ix !! k)
    by (intros l k Hk; by rewrite lookup_insert_ne).
  destruct (is_mutation (t_op touch)).
  - destruct (collide_loop_spec session touch (rev (filter (live ttl now) (bucket ix touch))) [])
      as [H1 H2]; [by apply NoDup_nil|].
    split_and!; [done| |apply Hput|apply Hfresh].
    intros p t o. rewrite H2, filter_rev, head_rev, list_filter_filter.
    rewrite (list_filter_iff (concerned ttl now touch p)
      (λ a, hit touch p a ∧ live ttl now a)).
    + split; [intros [?%not_elem_of_nil|(?&_&?&?)]; [done|tauto]|].
      intros (_ & ? & ? & ?). right. split_and!; try done. by apply not_elem_of_nil.
    + intros a. unfold concerned, hit. rewrite Is_true_true. tauto.
  - split_and!; [by apply NoDup_nil| |apply Hput|apply Hfresh].
    intros p t o. split; [by intros ?%not_elem_of_nil|]. by intros [? _].
Qed.

(** Forgetting a session drops exactly its accesses, keeps everyone else's in
    order, and leaves no empty file behind. *)
Theorem forget_exact (ix : Index) session :
  (∀ k l, forget ix session !! k = Some l ↔
     l ≠ [] ∧ ∃ l0, ix !! k = Some l0 ∧ l = filter (λ a, a_session a ≠ session) l0) ∧
  (∀ ttl now, paths_touched_by ttl (forget ix session) session now = []).
Proof.
  assert (H : ∀ k l, forget ix session !! k = Some l ↔
     l ≠ [] ∧ ∃ l0, ix !! k = Some l0 ∧ l = filter (λ a, a_session a ≠ session) l0).
  { intros k l. unfold forget. rewrite map_lookup_filter_Some, lookup_fmap_Some. cbn.
    split.
    - intros [(l0 & <- & Hl) Hne]. split; [done|]. by exists l0.
    - intros [Hne (l0 & Hl & ->)]. split; [|done]. by exists l0. }
  split; [done|]. intros ttl now. unfold paths_touched_by.
  assert (Hno : filter (λ kv : string * list Access,
    existsb (λ a, (a_session a =? session) && live ttl now a) kv.2) (forget ix session) = ∅).
  { apply map_empty. intros k. apply map_lookup_filter_None. right.
    intros l Hl%H Hex. cbn in Hex.
    destruct Hl as (_ & l0 & _ & ->). apply Is_true_true, existsb_exists in Hex as (a & Ha & Hs).
    apply list_elem_of_In, list_elem_of_filter in Ha as [Hne _].
    apply andb_true_iff in Hs as [Hs _]. by apply N.eqb_eq in Hs. }
  rewrite Hno, map_to_list_empty. done.
Qed.
End index.

(** ** Spellings of a path *)

#[local] Open Scope string_scope.
#[local] Open Scope list_scope.

Definition separator (c : ascii) : bool := bool_decide (c = "/"%char) || bool_decide (c = "\"%char).

Fixpoint unseparated (s : string) : bool :=
  match s with "" => true | String c s => negb (separator c) && unseparated s end.

Lemma append_snoc cur c s : (cur +:+ String c "") +:+ s = cur +:+ String c s.
Proof. induction cur as [|x cur IH]; [done|]. exact (f_equal (String x) IH). Qed.

Lemma append_nil s : s +:+ "" = s.
Proof. induction s as [|c s IH]; [done|]. exact (f_equal (String c) IH). Qed.

Lemma split_cons cur c s :
  split_separators cur (String c s) =
    if separator c then cur :: split_separators "" s
    else split_separators (cur +:+ String c "") s.
Proof. done. Qed.

Lemma append_cons c a b : String c a +:+ b = String c (a +:+ b).
Proof. done. Qed.

Lemma append_empty b : "" +:+ b = b.
Proof. done. Qed.

Lemma split_app cur a c b :
  separator c = true →
  split_separators cur (a +:+ String c b) = split_separators cur a ++ split_separators "" b.
Proof.
  intros Hc. revert cur. induction a as [|x a IH]; intros cur.
  - change ("" +:+ String c b) with (String c b). by rewrite split_cons, Hc.
  - rewrite append_cons, !split_cons. destruct (separator x); [|apply IH].
    cbn [app]. by rewrite IH.
Qed.

Lemma split_unseparated cur s : unseparated s = true → split_separators cur s = [cur +:+ s].
Proof.
  revert cur. induction s as [|c s IH]; intros cur.
  - intros _. by rewrite append_nil.
  - cbn [unseparated]. intros [Hc Hs]%andb_true_iff. rewrite split_cons.
    apply negb_true_iff in Hc. rewrite Hc, IH by done. by rewrite append_snoc.
Qed.

Lemma unseparated_snoc cur c :
  unseparated cur = true → separator c = false → unseparated (cur +:+ String c "") = true.
Proof.
  induction cur as [|x cur IH]; intros Hs Hc.
  { change (negb (separator c) && true = true). by rewrite Hc. }
  rewrite append_cons. cbn [unseparated] in *. apply andb_true_iff in Hs as [Hx Hs]. rewrite Hx. by apply IH.
Qed.

Lemma split_parts_unseparated cur s :
  unseparated cur = true → Forall (λ p, unseparated p = true) (split_separators cur s).
Proof.
  revert cur. induction s as [|c s IH]; intros cur Hc.
  - by constructor.
  - rewrite split_cons. destruct (separator c) eqn:Hs.
    + constructor; [done|]. by apply IH.
    + apply IH. by apply unseparated_snoc.
Qed.

(** A component that stands for itself. *)
Definition plain (p : string) : Prop :=
  unseparated p = true ∧ p ≠ "" ∧ p ≠ "." ∧ p ≠ "..".

Lemma normal_step_plain parts p : plain p → normal_step parts p = parts ++ [p].
Proof.
  intros (_ & H1 & H2 & H3). unfold normal_step. rewrite !bool_decide_false by done. done.
Qed.

Lemma pop_snoc {A} (l : list A) x : pop (l ++ [x]) = l.
Proof.
  unfold pop. rewrite length_app. simpl.
  replace (length l + 1 - 1)%nat with (length l) by lia. by rewrite take_app_length.
Qed.

Lemma normal_steps_plain l parts :
  Forall (λ p, unseparated p = true) l → Forall plain parts →
  Forall plain (fold_left normal_step l parts).
Proof.
  intros Hl. revert parts. induction Hl as [|p l Hp _ IH]; intros parts Hparts; [done|].
  cbn [fold_left]. apply IH. unfold normal_step.
  case_bool_decide as H1; [done|]. case_bool_decide as H2; [done|]. cbn [orb].
  case_bool_decide as H3; [by apply Forall_take|].
  apply Forall_app. split; [done|]. by repeat constructor.
Qed.

Lemma normal_steps_id l parts : Forall plain l → fold_left normal_step l parts = parts ++ l.
Proof.
  intros Hl. revert parts. induction Hl as [|p l Hp _ IH]; intros parts; cbn [fold_left].
  - by rewrite app_nil_r.
  - rewrite normal_step_plain, IH by done. by rewrite <-app_assoc.
Qed.

Lemma split_join l : Forall plain l → l ≠ [] → split_separators "" (RustStr.join "/" l) = l.
Proof.
  unfold RustStr.join. intros Hl. induction Hl as [|p l Hp Hl IH]; [done|]. intros _.
  destruct l as [|q l].
  - cbn. rewrite split_unseparated by apply Hp. done.
  - change (String.concat "/" (p :: q :: l)) with (p +:+ String "/" (String.concat "/" (q :: l))).
    rewrite split_app by done. rewrite split_unseparated by apply Hp. rewrite IH by done. done.
Qed.

Lemma normal_parts_app a c b :
  separator c = true →
  normal_parts (a +:+ String c b) = fold_left normal_step (split_separators "" b) (normal_parts a).
Proof. intros Hc. unfold normal_parts. by rewrite split_app, fold_left_app. Qed.

Lemma normal_parts_plain p : Forall plain (normal_parts p).
Proof. apply normal_steps_plain; [by apply split_parts_unseparated|constructor]. Qed.

(** Spellings of one file are one file to the index: either separator, doubled
    separators, "." segments and a segment undone by ".." make no difference,
    and normalising a normalised path changes nothing. *)
Theorem same_file_spellings fold_case a seg b :
  plain seg →
  same_file fold_case (a +:+ "\" +:+ b) (a +:+ "/" +:+ b) = true ∧
  same_file fold_case (a +:+ "//" +:+ b) (a +:+ "/" +:+ b) = true ∧
  same_file fold_case (a +:+ "/./" +:+ b) (a +:+ "/" +:+ b) = true ∧
  same_file fold_case (a +:+ "/" +:+ seg +:+ "/../" +:+ b) (a +:+ "/" +:+ b) = true ∧
  same_file fold_case (RustStr.join "/" (normal_parts a)) a = true.
Proof.
  intros Hseg. unfold same_file, normalise. rewrite !bool_decide_eq_true.
  split_and!; do 2 f_equal.
  - rewrite !append_cons, !append_empty. by rewrite !normal_parts_app.
  - rewrite !append_cons, !append_empty. by rewrite !normal_parts_app.
  - rewrite !append_cons, !append_empty. rewrite !normal_parts_app by done.
    change (split_separators "" (String "." (String "/" b))) with ("." :: split_separators "" b).
    done.
  - rewrite !append_cons, !append_empty. rewrite !normal_parts_app by done. rewrite !split_app by done.
    rewrite split_unseparated by apply Hseg. rewrite append_empty.
    change (split_separators "" (String "." (String "." (String "/" b))))
      with (".." :: split_separators "" b).
    cbn [app fold_left]. rewrite (normal_step_plain _ seg) by done.
    unfold normal_step at 2. rewrite !bool_decide_false by done. cbn [orb].
    rewrite bool_decide_true by done. by rewrite pop_snoc.
  - unfold normal_parts at 1. destruct (normal_parts a) as [|p l] eqn:Hp; [done|].
    rewrite <-Hp. rewrite split_join; [|apply normal_parts_plain|by rewrite Hp].
    by rewrite normal_steps_id by apply normal_parts_plain.
Qed.

Lemma same_file_spellings_witness :
  plain "lib" ∧
  same_file (λ s, s) "src/lib/../touch.rs" "src/touch.rs" = true.
Proof.
  assert (Hp : plain "lib") by (split_and!; done).
  split; [done|]. apply (same_file_spellings (λ s, s) "src" "lib" "touch.rs" Hp).
Defined.

(** What normalising does not do: a path written in full is another file than
    the same one written from the workspace; and it forgets the leading
    separator, so a path from the root is the one from the workspace. *)
Lemma normalise_departures :
  same_file (λ s, s) "/w/src/lib.rs" "src/lib.rs" = false ∧
  same_file (λ s, s) "/src/lib.rs" "src/lib.rs" = true ∧
  same_file (λ s, s) "../src/lib.rs" "src/lib.rs" = true.
Proof. split_and!; by vm_compute. Qed.
