(* ===== verification/Lifecycle.v ===== *)
(** * A swarm's failure lifecycle and its messages
    (crates/localpilot-server/src/swarm/lifecycle.rs, messaging.rs, and the
    hosting of spawn.rs)

    What happens when a worker stops answering - its work is taken back, its
    children are adopted, its seat is filled, its owner is told - and who a
    member may address.  Each call of the source takes the registry's lock
    again; these definitions are the run in which nothing happens in between.

    The text of a session id and its parser belong to the [uuid] crate, and
    whether a host is in the middle of a turn to the runtime: they are the
    parameters of the sections. *)

From stdpp Require Import base gmap list sorting strings numbers.
From S2P Require Import Prelude RustStr Artifact Plan PlanOps Swarm Touches.
#[local] Open Scope string_scope.
#[local] Open Scope list_scope.

(** What reaches a session: a soft interrupt on its queue, or a turn started
    because it was idle. *)
Inductive Event :=
  | Inject (to : SessionId) (content : string) (urgent : bool)
  | Drive (to : SessionId) (content : string).

(** The server's swarm side: the registry, which sessions have a host, which
    have a messaging view, the touch index, and what was sent so far. *)
Record World := mkWorld {
  w_swarms : Registry;
  w_hosts : gset SessionId;
  w_bindings : gset SessionId;
  w_touches : Index;
  w_sent : list Event;
}.

Definition set_swarms (g : Registry) (w : World) : World :=
  mkWorld g (w_hosts w) (w_bindings w) (w_touches w) (w_sent w).
Definition set_touches (ix : Index) (w : World) : World :=
  mkWorld (w_swarms w) (w_hosts w) (w_bindings w) ix (w_sent w).
Definition send_event (e : Event) (w : World) : World :=
  mkWorld (w_swarms w) (w_hosts w) (w_bindings w) (w_touches w) (w_sent w ++ [e]).

Record Salvaged := mkSalvaged {
  departed : SessionId;
  tasks : list (NodeId * Salvage);
  reparented : list SessionId;
  new_coordinator : option SessionId;
  reported_to : option SessionId;
}.

Definition DEFAULT_STALE_AFTER : N := 90 * 1000000000.
Definition DEFAULT_RECLAIM_LIMIT : N := 2.

Section host.
Context (show_session : SessionId → string).

Definition salvage_line (t : NodeId * Salvage) : string :=
  match t.2 with
  | Requeued reclaims =>
      "- " +:+ show_node t.1 +:+ " is back in the queue for someone else (reclaim "
      +:+ show_N reclaims +:+ ")." +:+ NL
  | Exhausted reclaims limit =>
      "- " +:+ show_node t.1 +:+ " has now been reclaimed " +:+ show_N reclaims
      +:+ " times (limit " +:+ show_N limit
      +:+ ") and has been failed. It is failing, not unlucky — look at the task itself before re-creating it."
      +:+ NL
  end.

Definition salvage_report (name : string) (session : SessionId)
    (ts : list (NodeId * Salvage)) (moved : list SessionId) : string :=
  let out := "Worker " +:+ name +:+ " (" +:+ show_session session
    +:+ ") stopped responding and was taken off its work." in
  let out :=
    match ts with
    | [] => out +:+ " It held no unfinished tasks."
    | _ => fold_left (λ out t, out +:+ salvage_line t) ts
             (out +:+ NL +:+ NL +:+ "Its tasks:" +:+ NL)
    end in
  match moved with
  | [] => out
  | _ => out +:+ NL +:+ show_N (N.of_nat (length moved))
           +:+ " agent(s) it had spawned now report to you." +:+ NL
  end.

Definition member_name (g : Registry) (swarm : SwarmId) (session : SessionId) : string :=
  match member g swarm session with
  | Some m => m_name m
  | None => show_session session
  end.

(** [with_plan(..).unwrap_or_default()]. *)
Definition take_back (g : Registry) (swarm : SwarmId) (session : SessionId) (limit : N)
    : Registry * list (NodeId * Salvage) :=
  let '(g, r) := with_plan g swarm (λ p, salvage_actor p (mkActor (show_session session)) limit) in
  (g, match r with Ok ts => ts | Err _ => [] end).

(** The part of [salvage] that works on the registry. *)
Definition salvage_registry (g : Registry) (swarm : SwarmId) (session : SessionId) (limit : N)
    : Registry * (list (NodeId * Salvage) * list SessionId * option SessionId) :=
  let was_coordinator := is_coordinator g swarm session in
  let '(g, _) := set_member_status g swarm session Departed in
  let '(g, ts) := take_back g swarm session limit in
  let '(g, moved) := reparent_children g swarm session in
  let '(g, elected) := if was_coordinator then elect_coordinator g swarm else (g, None) in
  (g, (ts, moved, elected)).

Definition salvage_owner (g : Registry) (swarm : SwarmId) (session : SessionId)
    (elected : option SessionId) : option SessionId :=
  keep (λ owner, negb (owner =? session)%N)
    (match elected with Some c => Some c | None => coordinator g swarm end).

Definition salvage (w : World) (swarm : SwarmId) (session : SessionId) (limit : N)
    : World * Salvaged :=
  let name := member_name (w_swarms w) swarm session in
  let '(g, (ts, moved, elected)) := salvage_registry (w_swarms w) swarm session limit in
  let w := set_swarms g w in
  let told :=
    match salvage_owner g swarm session elected with
    | Some owner => if decide (owner ∈ w_hosts w) then Some owner else None
    | None => None
    end in
  let w :=
    match told with
    | Some owner => send_event (Inject owner (salvage_report name session ts moved) false) w
    | None => w
    end in
  (set_touches (forget (w_touches w) session) w, mkSalvaged session ts moved elected told).

Fixpoint salvage_each (w : World) (swarm : SwarmId) (stale : list SessionId) (limit : N)
    : World * list Salvaged :=
  match stale with
  | [] => (w, [])
  | session :: stale =>
      let '(w, one) := salvage w swarm session limit in
      let '(w, rest) := salvage_each w swarm stale limit in
      (w, one :: rest)
  end.

Definition sweep (w : World) (swarm : SwarmId) (stale_after : N) (limit : N) (now : Instant)
    : World * list Salvaged :=
  salvage_each w swarm (stale_members (w_swarms w) swarm stale_after now) limit.

(** [SwarmHost::unhost]; the answer is whether there was a host. *)
Definition unhost (w : World) (session : SessionId) : World * bool :=
  (mkWorld (w_swarms w) (w_hosts w ∖ {[session]}) (w_bindings w ∖ {[session]})
     (forget (w_touches w) session) (w_sent w),
   bool_decide (session ∈ w_hosts w)).

Fixpoint reap_each (w : World) (swarm : SwarmId) (terminal : list SessionId)
    : World * list SessionId :=
  match terminal with
  | [] => (w, [])
  | session :: terminal =>
      match children (w_swarms w) swarm session with
      | [] =>
          let '(w, hosted) := unhost w session in
          let '(w, reaped) := reap_each w swarm terminal in
          (w, if hosted then session :: reaped else reaped)
      | _ => reap_each w swarm terminal
      end
  end.

Definition reap_terminal (w : World) (swarm : SwarmId) : World * list SessionId :=
  reap_each w swarm (terminal_members (w_swarms w) swarm).

(** ** Messages (messaging.rs) *)

Inductive Audience := One (who : string) | Subtree | WholeSwarm.
Inductive Delivery := Notify | Interrupt | Wake.

Record PeerMessage := mkMessage {
  audience : Audience;
  body : string;
  tldr : option string;
  delivery : Delivery;
}.

Context (parse_session : string → option SessionId).
Context (show_error : SwarmError → string).
Context (is_busy : SessionId → bool).

(** [SessionPeers::members]. *)
Definition known_members (g : Registry) (swarm : SwarmId) (ids : list SessionId)
    : list SwarmMember := omap (member g swarm) ids.

Definition not_me (me : SessionId) (ids : list SessionId) : list SessionId :=
  filter (λ x, x ≠ me) ids.

Definition recipients (g : Registry) (swarm : SwarmId) (me : SessionId) (a : Audience)
    : result (list SwarmMember) string :=
  match a with
  | One who =>
      let? target :=
        match parse_session who with
        | Some s => Ok s
        | None => match resolve_name g swarm who with
                  | Ok s => Ok s
                  | Err e => Err (show_error e)
                  end
        end in
      if decide (target = me) then Err "that is you — messaging yourself does nothing"
      else match member g swarm target with
      | Some m => Ok [m]
      | None => Err ("no member of this swarm is " +:+ who)
      end
  | Subtree =>
      Ok (known_members g swarm (not_me me (default [] (subtree g swarm me))))
  | WholeSwarm =>
      if is_coordinator g swarm me then
        Ok (known_members g swarm (not_me me (m_session <$> members g swarm)))
      else Err "only the coordinator may address the whole swarm. Broadcast to the agents you spawned instead, or ask the coordinator to relay it."
  end.

Definition render_message (from : string) (m : PeerMessage) : string :=
  let out := "Message from " +:+ from in
  let out := match tldr m with Some t => out +:+ " — " +:+ trim t | None => out end in
  out +:+ ":" +:+ NL +:+ NL +:+ trim (body m).

Definition deliver (w : World) (to : SwarmMember) (m : PeerMessage) (from : string)
    : World * bool :=
  if negb (active to) then (w, false)
  else if decide (m_session to ∈ w_hosts w) then
    let content := render_message from m in
    let event :=
      match delivery m with
      | Notify => Inject (m_session to) content false
      | Interrupt => Inject (m_session to) content true
      | Wake =>
          if is_busy (m_session to) then Inject (m_session to) content true
          else Drive (m_session to) content
      end in
    (send_event event w, true)
  else (w, false).

Fixpoint deliver_each (w : World) (targets : list SwarmMember) (m : PeerMessage)
    (from : string) : World * list string :=
  match targets with
  | [] => (w, [])
  | to :: targets =>
      let '(w, landed) := deliver w to m from in
      let '(w, rest) := deliver_each w targets m from in
      (w, if landed then m_name to :: rest else rest)
  end.

(** [SessionPeers::send]; the answer is the sorted names it reached. *)
Definition send (w : World) (swarm : SwarmId) (me : SessionId) (m : PeerMessage)
    : World * result (list string) string :=
  let! targets := recipients (w_swarms w) swarm me (audience m) or w in
  let '(w, reached) := deliver_each w targets m (member_name (w_swarms w) swarm me) in
  (w, Ok (merge_sort string_le reached)).
End host.
