(* ===== verification/LifecycleProps.v ===== *)
(** * What the failure lifecycle promises

    Salvage puts the swarm back in order in one pass and a second pass finds
    nothing to do; messages reach who they may. *)

From stdpp Require Import base gmap list sorting strings numbers.
From S2P Require Import Prelude RustStr Artifact Plan PlanOps PlanWf PlanSafe PlanProps PlanShape.
From S2P Require Import Swarm SwarmInv SwarmProps Touches Lifecycle.
#[local] Open Scope N_scope.

(** ** Rewriting an entry with itself *)

Lemma put_same g w e : swarms g !! w = Some e → put g w e = g.
Proof. intros He. unfold put. rewrite insert_id by done. by destruct g. Qed.

Lemma set_members_same e : set_members (members_of e) e = e.
Proof. by destruct e. Qed.

Lemma set_plan_of_same e p : plan_of e = Some p → set_plan_of (Some p) e = e.
Proof. destruct e; cbn. by intros ->. Qed.

Lemma lookup_put g w e : swarms (put g w e) !! w = Some e.
Proof. apply lookup_insert_eq. Qed.

Lemma add_member_same e s m : members_of e !! s = Some m → add_member s m e = e.
Proof. intros Hm. unfold add_member. by rewrite insert_id, set_members_same. Qed.

Lemma set_m_status_same m : m_status m = Departed → set_m_status Departed m = m.
Proof. destruct m; cbn. by intros ->. Qed.

(** ** One salvage, written out *)

Section salvage.
Context (show_session : SessionId → string).

Abbreviation actor s := (mkActor (show_session s)).

(** The entry once the status and the plan are dealt with; its children are
    adopted next. *)
Definition left_entry (e : Swarm) (s : SessionId) (m : SwarmMember) (p' : TaskPlan) : Swarm :=
  set_plan_of (Some p') (add_member s (set_m_status Departed m) e).

Definition salvaged_entry (e : Swarm) (s : SessionId) (m : SwarmMember) (p' : TaskPlan) : Swarm :=
  adopted (left_entry e s m p') s.

Lemma salvage_registry_eq g w s limit e m p :
  swarms g !! w = Some e → topology e ≠ Some Pair → members_of e !! s = Some m →
  plan_of e = Some p →
  let '(p', ts) := salvage_actor p (actor s) limit in
  let e3 := salvaged_entry e s m p' in
  let '(g4, elected) :=
    if is_coordinator g w s then elect_coordinator (put g w e3) w else (put g w e3, None) in
  salvage_registry show_session g w s limit = 
    (g4, (ts, sort_ids (child_list (left_entry e s m p') s), elected)).
Proof.
  intros He Ht Hm Hp. destruct (salvage_actor p (actor s) limit) as [p' ts] eqn:Hs.
  cbn zeta. unfold salvage_registry.
  assert (H1 : set_member_status g w s Departed =
    (put g w (add_member s (set_m_status Departed m) e), Ok tt)).
  { unfold set_member_status. rewrite He. cbn. by rewrite Hm. }
  rewrite H1. set (e0 := add_member s (set_m_status Departed m) e).
  assert (H2 : take_back show_session (put g w e0) w s limit =
    (put g w (set_plan_of (Some p') e0), ts)).
  { unfold take_back, with_plan. rewrite lookup_put. cbn [ok_or].
    assert (Hpair : has_topology e0 Pair = false) by by apply has_topology_false.
    rewrite Hpair. change (plan_of e0) with (plan_of e). rewrite Hp. cbn [ok_or].
    rewrite Hs. by rewrite put_put. }
  rewrite H2. unfold reparent_children. rewrite lookup_put. cbn zeta. rewrite put_put.
  unfold salvaged_entry, left_entry. fold e0.
  destruct (is_coordinator g w s); [|done].
  by destruct (elect_coordinator _ w).
Qed.

Lemma left_entry_filed e s m p' :
  filed_ok e → members_of e !! s = Some m → filed_ok (left_entry e s m p').
Proof. intros Hf Hm x m'. cbn. apply filed_insert; [done|]. by apply (Hf s m). Qed.

Lemma left_entry_reports e s m p' x :
  members_of e !! s = Some m → parent_of (left_entry e s m p') x = parent_of e x.
Proof.
  intros Hm. unfold parent_of; cbn. rewrite lookup_insert. case_decide; [subst x|done].
  by rewrite Hm.
Qed.

Lemma salvaged_lookup e s m p' x :
  filed_ok e → members_of e !! s = Some m →
  ∃ q, members_of (salvaged_entry e s m p') !! x =
    (λ m', set_m_parent (q m') (if decide (x = s) then set_m_status Departed m' else m'))
      <$> members_of e !! x.
Proof.
  intros Hf Hm. unfold salvaged_entry.
  rewrite adopted_lookup by by apply left_entry_filed. rewrite left_entry_reports by done. cbn.
  rewrite lookup_insert. destruct (decide (parent_of e x = Some s)) as [Hx|Hx].
  - exists (λ _, if decide (new_parent (left_entry e s m p') s = Some x) then None
                 else new_parent (left_entry e s m p') s).
    destruct (decide (s = x)) as [<-|Hne].
    + rewrite Hm. cbn. by rewrite (decide_True (P := s = s)).
    + destruct (members_of e !! x); cbn; [|done]. by rewrite (decide_False (P := x = s)).
  - exists m_report_back_to. destruct (decide (s = x)) as [<-|Hne].
    + rewrite Hm. cbn. rewrite (decide_True (P := s = s)) by done. by destruct m.
    + destruct (members_of e !! x) as [[]|]; cbn; [|done]. by rewrite (decide_False (P := x = s)).
Qed.

Record salvaged_facts (e : Swarm) (s : SessionId) (p' : TaskPlan) (e' : Swarm) : Prop := mkFacts {
  sf_plan : plan_of e' = Some p';
  sf_topology : topology e' = topology e;
  sf_filed : filed_ok e';
  sf_departed : ∃ m, members_of e' !! s = Some m ∧ m_status m = Departed;
  sf_reports : ∀ x, ¬ reports e' x s;
  sf_active : ∀ x, has_active e' x ↔ x ≠ s ∧ has_active e x;
}.

Lemma salvaged_entry_facts e s m p' :
  filed_ok e → members_of e !! s = Some m →
  salvaged_facts e s p' (salvaged_entry e s m p') ∧ seat (salvaged_entry e s m p') = seat e.
Proof.
  intros Hf Hm.
  destruct (adopts_rest (new_parent (left_entry e s m p') s) (child_list (left_entry e s m p') s)
    (left_entry e s m p')) as (Hseat & Hplan & Htop).
  pose proof (λ x, salvaged_lookup e s m p' x Hf Hm) as Hlook.
  split; [|done]. split; [done..| | | |].
  - intros x m' Hx. destruct (Hlook x) as [q Hq]. rewrite Hq in Hx.
    apply fmap_Some in Hx as (m0 & Hm0 & ->).
    trans (m_session m0); [by destruct (decide (x = s))|by apply Hf].
  - destruct (Hlook s) as [q Hq]. rewrite Hm in Hq. cbn in Hq. rewrite decide_True in Hq by done.
    eexists. by split.
  - intros x [Hx _]%adopted_reports; [done|by apply left_entry_filed].
  - intros x. destruct (Hlook x) as [q Hq]. unfold has_active. rewrite Hq. split.
    + intros (m' & Hx & Ha). apply fmap_Some in Hx as (m0 & Hm0 & ->). case_decide; [done|].
      split; [done|]. by exists m0.
    + intros [Hne (m0 & -> & Ha)]. eexists. split; [reflexivity|].
      by destruct (decide (x = s)).
Qed.

(** Seating someone keeps all of it. *)
Lemma seat_member_facts e s p' e' c :
  salvaged_facts e s p' e' → salvaged_facts e s p' (seat_member e' c).
Proof.
  intros [H1 H2 H3 (m & Hm & Hd) H5 H6].
  assert (Hlook : ∀ x, ∃ r, members_of (seat_member e' c) !! x =
    (λ m, set_m_role (r m) m) <$> members_of e' !! x).
  { intros x. cbn. destruct (decide (c = x)) as [<-|Hne].
    - exists (λ _, Coordinator). by rewrite lookup_alter_eq.
    - exists m_role. rewrite lookup_alter_ne by done. by destruct (members_of e' !! x) as [[]|]. }
  split; [done..| | | |].
  - intros x m' Hx. destruct (Hlook x) as [r Hr]. rewrite Hr in Hx.
    apply fmap_Some in Hx as (m0 & Hm0 & ->). cbn. by apply H3.
  - destruct (Hlook s) as [r Hr]. rewrite Hm in Hr. eexists. by split.
  - intros x Hx. apply (H5 x). revert Hx. unfold reports, parent_of.
    destruct (Hlook x) as [r ->]. by destruct (members_of e' !! x).
  - intros x. rewrite <-H6. unfold has_active. destruct (Hlook x) as [r ->].
    destruct (members_of e' !! x) as [m'|]; cbn; [|done]. split.
    + intros (m0 & [= <-] & Ha). by exists m'.
    + intros (m0 & [= ->] & Ha). eexists. by split.
Qed.

(** ** The election inside a salvage *)

Definition after_election (g : Registry) (w : SwarmId) (was : bool) (e3 : Swarm)
    : Registry * option SessionId :=
  if was then elect_coordinator (put g w e3) w else (put g w e3, None).

Lemma after_election_facts g w (was : bool) e s p' e3 :
  topology e ≠ Some Pair → salvaged_facts e s p' e3 →
  was = bool_decide (seat e3 = Some s) →
  let '(g4, elected) := after_election g w was e3 in
  ∃ e4, g4 = put g w e4 ∧ salvaged_facts e s p' e4 ∧
    match elected with
    | Some c => seat e4 = Some c ∧ seat e3 = Some s ∧ has_active e4 c ∧
                ∀ x, has_active e4 x → c <= x
    | None => e4 = e3 ∧ (seat e3 = Some s → ∀ x, ¬ has_active e3 x)
    end.
Proof.
  intros Ht Hf ->. unfold after_election. case_bool_decide as Hseat.
  2: { exists e3. split_and!; try done. }
  unfold elect_coordinator. rewrite lookup_put.
  assert (Hp : has_topology e3 Pair = false)
    by (apply has_topology_false; by rewrite (sf_topology _ _ _ _ Hf)).
  assert (Hheld : seat_held e3 = false).
  { apply not_true_iff_false. rewrite seat_held_true. intros (c & Hc & Ha).
    rewrite Hseat in Hc. injection Hc as <-. apply (sf_active _ _ _ _ Hf) in Ha. by destruct Ha. }
  rewrite Hp, Hheld. destruct (min_id _) as [c|] eqn:Hmin.
  - exists (seat_member e3 c). rewrite put_put.
    pose proof (seat_member_facts e s p' e3 c Hf) as Hf'.
    split; [done|]. split; [done|]. apply min_id_elem in Hmin as [Hin Hle].
    rewrite (elem_of_active e3 c) in Hin by apply Hf.
    assert (Hact : ∀ x, has_active (seat_member e3 c) x ↔ has_active e3 x)
      by (intros x; by rewrite (sf_active _ _ _ _ Hf'), (sf_active _ _ _ _ Hf)).
    split_and!; [done..|by apply Hact|]. intros x Hx%Hact. apply Hle.
    by rewrite elem_of_active by apply Hf.
  - exists e3. split_and!; try done. intros _ x Hx. rewrite min_id_None in Hmin.
    rewrite <-(elem_of_active e3 x) in Hx by apply Hf. rewrite Hmin in Hx.
    by apply not_elem_of_nil in Hx.
Qed.

Lemma salvage_registry_once g w s limit e m p :
  swarms g !! w = Some e → topology e ≠ Some Pair → filed_ok e →
  members_of e !! s = Some m → plan_of e = Some p →
  let '(p', ts) := salvage_actor p (actor s) limit in
  let '(g', (ts', moved, elected)) := salvage_registry show_session g w s limit in
  ts' = ts ∧ (∀ x, x ∈ moved ↔ reports e x s) ∧
  ∃ e', g' = put g w e' ∧ salvaged_facts e s p' e' ∧
    match elected with
    | Some c => seat e' = Some c ∧ seat e = Some s ∧ has_active e' c ∧
                ∀ x, has_active e' x → c <= x
    | None => seat e' = seat e ∧ (seat e = Some s → ∀ x, ¬ has_active e' x)
    end.
Proof.
  intros He Ht Hf Hm Hp. pose proof (salvage_registry_eq g w s limit e m p He Ht Hm Hp) as H.
  destruct (salvage_actor p (actor s) limit) as [p' ts]. cbn zeta in H.
  destruct (salvaged_entry_facts e s m p' Hf Hm) as [Hfacts Hseat].
  fold (after_election g w (is_coordinator g w s) (salvaged_entry e s m p')) in H.
  assert (Hwas : is_coordinator g w s = bool_decide (seat (salvaged_entry e s m p') = Some s)).
  { unfold is_coordinator, coordinator. by rewrite Hseat, He. }
  pose proof (after_election_facts g w _ e s p' _ Ht Hfacts Hwas) as Ha.
  destruct (after_election g w _ _) as [g4 elected]. rewrite H. clear H.
  split; [done|]. split.
  { intros x. rewrite elem_of_sort_ids. unfold child_list.
    rewrite elem_of_children by by apply left_entry_filed.
    unfold reports. by rewrite left_entry_reports. }
  destruct Ha as (e4 & -> & Hf4 & Hel). exists e4. split; [done|]. split; [done|].
  destruct elected as [c|]; [by rewrite Hseat in Hel|]. destruct Hel as [-> Hno].
  by rewrite Hseat in *.
Qed.

(** A second salvage of the same member finds nothing to do. *)
Lemma salvage_registry_again g w s limit e' p' :
  swarms g !! w = Some e' → topology e' ≠ Some Pair → filed_ok e' → plan_of e' = Some p' →
  (∃ m, members_of e' !! s = Some m ∧ m_status m = Departed) →
  (∀ x, ¬ reports e' x s) → salvage_actor p' (actor s) limit = (p', []) →
  (seat e' = Some s → ∀ x, ¬ has_active e' x) →
  salvage_registry show_session g w s limit = (g, ([], [], None)).
Proof.
  intros He Ht Hf Hp (m & Hm & Hd) Hrep Hsalv Hseat.
  pose proof (salvage_registry_eq g w s limit e' m p' He Ht Hm Hp) as H.
  rewrite Hsalv in H. cbn zeta in H.
  assert (Hleft : left_entry e' s m p' = e').
  { unfold left_entry. rewrite set_m_status_same, add_member_same by done.
    by apply set_plan_of_same. }
  assert (Hkids : child_list e' s = []).
  { apply elem_of_nil_inv. intros x Hx. unfold child_list in Hx.
    rewrite elem_of_children in Hx by done. by apply (Hrep x). }
  assert (Hsame : salvaged_entry e' s m p' = e').
  { unfold salvaged_entry, adopted. by rewrite Hleft, Hkids. }
  rewrite Hleft, Hsame, Hkids in H. rewrite put_same in H by done.
  fold (after_election g w (is_coordinator g w s) e') in H.
  assert (Hel : (if is_coordinator g w s then elect_coordinator g w else (g, None)) = (g, None)).
  { destruct (is_coordinator g w s) eqn:Hc; [|done].
    unfold is_coordinator, coordinator in Hc. rewrite He in Hc.
    apply bool_decide_eq_true in Hc. cbn in Hc. specialize (Hseat Hc).
    unfold elect_coordinator. rewrite He. destruct (has_topology e' Pair); [done|].
    destruct (seat_held e'); [done|].
    destruct (min_id _) as [c|] eqn:Hmin; [|done].
    apply min_id_elem in Hmin as [Hin _]. rewrite elem_of_active in Hin by done.
    by apply Hseat in Hin. }
  rewrite Hel in H. exact H.
Qed.
End salvage.

(** ** The whole repair *)

Section repair.
Context (show_session : SessionId → string).

Lemma salvage_actor_nothing p a limit :
  wf p → (∀ i n, node p i = Some n → assignee n ≠ Some a) → salvage_actor p a limit = (p, []).
Proof.
  intros Hwf Hno. unfold salvage_actor.
  assert (Hids : id <$> filter (λ n, is_terminal n = false ∧ assignee n = Some a) (node_list p) = []).
  { apply elem_of_nil_inv. intros i Hi. apply elem_of_stranded in Hi as (n & Hn & Ha); [|done].
    by apply (Hno i n). }
  by rewrite Hids.
Qed.

(** One salvage puts a hierarchical swarm back in order: the member is marked
    gone; every task it held is queued again or failed, as reported, and no
    task of anyone else changes; its children, exactly those reported, no
    longer report to it; if it held the seat, the seat goes to the lowest
    running member, and otherwise stays; its file touches are forgotten; and at
    most one other, hosted member is told, by a message that is not urgent.  A
    second salvage of the same member changes nothing but the message. *)
Theorem salvage_settles w swarm s limit e m p :
  reg_ok (w_swarms w) → swarms (w_swarms w) !! swarm = Some e → topology e ≠ Some Pair →
  members_of e !! s = Some m → plan_of e = Some p → wf p → limit <= U32_MAX →
  let '(w', r) := salvage show_session w swarm s limit in
  let a := mkActor (show_session s) in
  ∃ e' p', swarms (w_swarms w') !! swarm = Some e' ∧ plan_of e' = Some p' ∧
    (∃ m', members_of e' !! s = Some m' ∧ m_status m' = Departed) ∧
    (∀ x, x ≠ s → has_active e' x ↔ has_active e x) ∧
    (∀ i n, node p' i = Some n → assignee n ≠ Some a) ∧
    (∀ i n, node p i = Some n → assignee n ≠ Some a → node p' i = Some n) ∧
    (∀ i, i ∈ (tasks r).*1 ↔ ∃ n, node p i = Some n ∧ assignee n = Some a) ∧
    (∀ x, ¬ reports e' x s) ∧ (∀ x, x ∈ reparented r ↔ reports e x s) ∧
    (seat e ≠ Some s → seat e' = seat e) ∧
    (seat e = Some s → ∀ x, has_active e' x →
       ∃ c, seat e' = Some c ∧ new_coordinator r = Some c ∧ has_active e' c ∧ c <= x) ∧
    w_touches w' = forget (w_touches w) s ∧
    w_sent w' = w_sent w ++
      match reported_to r with
      | Some o => [Inject o (salvage_report show_session (m_name m) s (tasks r) (reparented r)) false]
      | None => []
      end ∧
    (∀ o, reported_to r = Some o → o ≠ s ∧ o ∈ w_hosts w ∧ seat e' = Some o) ∧
    (let '(w2, r2) := salvage show_session w' swarm s limit in
     w_swarms w2 = w_swarms w' ∧ tasks r2 = [] ∧ reparented r2 = [] ∧
     new_coordinator r2 = None).
Proof.
  intros Hg He Ht Hm Hp Hwf Hlim.
  assert (Hf : filed_ok e) by (rewrite <-(entry_or_default_Some _ _ _ He); apply Hg).
  pose proof (salvage_registry_once show_session (w_swarms w) swarm s limit e m p He Ht Hf Hm Hp) as H.
  pose proof (salvage_actor_frees p (mkActor (show_session s)) limit Hwf Hlim) as Hfree.
  assert (Hwf' : wf (fst (salvage_actor p (mkActor (show_session s)) limit)))
    by by apply salvage_all_sound.
  destruct (salvage_actor p (mkActor (show_session s)) limit) as [p' ts].
  destruct Hfree as (_ & Hothers & Hnone & Hts). cbn [fst] in Hwf'.
  unfold salvage at 1.
  destruct (salvage_registry show_session (w_swarms w) swarm s limit) as [g' [[ts' moved] elected]].
  destruct H as (-> & Hmoved & e' & -> & Hfacts & Hel). cbn [fst snd].
  set (told := match salvage_owner _ _ _ _ with Some _ => _ | None => _ end).
  set (w' := set_touches _ _).
  assert (Hname : member_name show_session (w_swarms w) swarm s = m_name m)
    by (unfold member_name, member; rewrite He; cbn; by rewrite Hm).
  assert (Hw' : w_swarms w' = put (w_swarms w) swarm e') by (unfold w'; by destruct told).
  exists e', p'. rewrite Hw', lookup_put. cbn [tasks reparented new_coordinator reported_to].
  split_and!; try done.
  - apply Hfacts.
  - apply Hfacts.
  - intros x Hx. rewrite (sf_active _ _ _ _ Hfacts). tauto.
  - apply Hfacts.
  - destruct elected; destruct Hel as [Hel Hrest]; [|done]. destruct Hrest as [? _]. done.
  - intros Hseat x Hx. destruct elected as [c|].
    + exists c. destruct Hel as (? & _ & ? & Hle). split_and!; try done. by apply Hle.
    + destruct Hel as [_ Hno]. by apply Hno in Hx.
  - unfold w'. by destruct told.
  - unfold w'. rewrite Hname. destruct told; cbn; [done|by rewrite app_nil_r].
  - intros o. unfold told, salvage_owner.
    destruct (keep _ _) as [o'|] eqn:Hk; [|done]. case_decide as Hh; [|done]. intros [= <-].
    apply keep_Some in Hk as [Ho Hne]. apply negb_true_iff, N.eqb_neq in Hne.
    split_and!; try done. destruct elected as [c|]; [injection Ho as <-; apply Hel|].
    unfold coordinator in Ho. by rewrite lookup_put in Ho.
  - unfold salvage. rewrite Hw'.
    rewrite (salvage_registry_again show_session (put (w_swarms w) swarm e') swarm s limit e' p').
    + set (again := match salvage_owner _ _ _ _ with Some _ => _ | None => _ end).
      destruct again; by split_and!.
    + apply lookup_put.
    + by rewrite (sf_topology _ _ _ _ Hfacts).
    + apply Hfacts.
    + apply Hfacts.
    + apply Hfacts.
    + apply Hfacts.
    + by apply salvage_actor_nothing.
    + intros Hseat. destruct elected as [c|].
      * destruct Hel as (Hc & _ & Hact & _). rewrite Hc in Hseat. injection Hseat as ->.
        apply (sf_active _ _ _ _ Hfacts) in Hact. by destruct Hact.
      * destruct Hel as [Heq Hno]. rewrite Heq in Hseat. by apply Hno.
Qed.
End repair.

(** The three-member swarm with a plan, one task of it in the hands of [8]. *)
Definition show_demo (s : SessionId) : string :=
  if s =? 8 then as_str PlanProps.worker else show_N s.
Definition planned : Registry := fst (set_plan demo "s" demo2).
Definition world_demo : World := mkWorld planned {[7; 9]} ∅ ∅ [].

Lemma salvage_settles_witness :
  let w' := fst (salvage show_demo world_demo "s" 8 2) in
  ∃ e' p', swarms (w_swarms w') !! "s" = Some e' ∧ plan_of e' = Some p' ∧
    ∀ i n, node p' i = Some n → assignee n ≠ Some PlanProps.worker.
Proof.
  cbn zeta.
  assert (Hok : reg_ok planned) by (apply set_plan_ok, run_ops_ok, with_limits_ok).
  assert (He : ∃ e, swarms planned !! "s" = Some e ∧ topology e = Some Hierarchical ∧
    is_Some (members_of e !! 8) ∧ plan_of e = Some demo2)
    by (eexists; split; [by vm_compute|]; split_and!; vm_compute; by try eexists).
  destruct He as (e & He & Ht & [m Hm] & Hp).
  assert (Hwf : wf demo2) by apply (dispatch_sound demo1 1%N PlanProps.worker demo1_wf).
  pose proof (salvage_settles show_demo world_demo "s" 8 2 e m demo2 Hok He
    ltac:(by rewrite Ht) Hm Hp Hwf ltac:(by vm_compute)) as H.
  destruct (salvage show_demo world_demo "s" 8 2) as [w' r].
  destruct H as (e' & p' & H1 & H2 & _ & _ & H3 & _). exists e', p'. split_and!; [done..|exact H3].
Defined.

(** ** Messages *)

Section messages.
Context (show_session : SessionId → string) (parse_session : string → option SessionId).
Context (show_error : SwarmError → string) (is_busy : SessionId → bool).

Abbreviation recipients := (recipients parse_session show_error).

Lemma elem_of_known g swarm ids m :
  m ∈ known_members g swarm ids ↔ ∃ x, x ∈ ids ∧ member g swarm x = Some m.
Proof. apply list_elem_of_omap. Qed.

Lemma member_filed g swarm x m : reg_ok g → member g swarm x = Some m → m_session m = x.
Proof.
  intros Hg Hm. apply (eo_filed _ (ro_entries g Hg swarm)).
  unfold member, entry_or_default in *. by destruct (swarms g !! swarm).
Qed.

Lemma member_lookup g swarm x :
  member g swarm x = members_of (entry_or_default g swarm) !! x.
Proof.
  unfold member, entry_or_default. destruct (swarms g !! swarm); [done|].
  symmetry. apply lookup_empty.
Qed.

Lemma elem_of_members g swarm x :
  reg_ok g → x ∈ m_session <$> members g swarm ↔ is_Some (member g swarm x).
Proof.
  intros Hg. rewrite member_lookup, list_elem_of_fmap. unfold members, entry_or_default.
  pose proof (eo_filed _ (ro_entries g Hg swarm)) as Hf. unfold entry_or_default in Hf.
  destruct (swarms g !! swarm) as [e|]; cbn in *.
  - setoid_rewrite merge_sort_Permutation. unfold member_values.
    setoid_rewrite elem_of_btree_values. split.
    + intros (m & -> & k & Hk). rewrite (Hf k m Hk). by exists m.
    + intros [m Hm]. exists m. split; [by rewrite (Hf x m Hm)|by exists x].
  - rewrite lookup_empty. split; [by intros (m & _ & ?%not_elem_of_nil)|by intros []].
Qed.

(** What each audience means: one member by id or by its unambiguous name, the
    members beneath the sender, or - for whoever holds the seat - everyone. *)
Definition in_audience (g : Registry) (swarm : SwarmId) (me : SessionId) (a : Audience)
    (x : SessionId) : Prop :=
  match a with
  | One who => parse_session who = Some x ∨
               parse_session who = None ∧ resolve_name g swarm who = Ok x
  | Subtree => rtc (reports (entry_or_default g swarm)) x me
  | WholeSwarm => coordinator g swarm = Some me
  end.

Lemma recipients_spec g swarm me a ms :
  reg_ok g → recipients g swarm me a = Ok ms →
  ∀ x m, (m ∈ ms ∧ m_session m = x) ↔
    x ≠ me ∧ in_audience g swarm me a x ∧ member g swarm x = Some m.
Proof.
  intros Hg Hr x m.
  assert (Hknown : ∀ ids, m ∈ known_members g swarm (not_me me ids) ∧ m_session m = x ↔
    x ∈ ids ∧ x ≠ me ∧ member g swarm x = Some m).
  { intros ids. rewrite elem_of_known. unfold not_me. setoid_rewrite list_elem_of_filter. split.
    - intros [(y & [Hy Hin] & Hm) <-]. by rewrite (member_filed g swarm y m Hg Hm).
    - intros (Hin & Hne & Hm). split; [|by eapply member_filed]. by exists x. }
  destruct a as [who| |]; cbn [recipients in_audience] in *.
  - assert (Hone : ∀ target, (if decide (target = me) then Err "that is you — messaging yourself does nothing"%string
        else match member g swarm target with
             | Some m => Ok [m] | None => Err ("no member of this swarm is " +:+ who)%string end) = Ok ms →
        (m ∈ ms ∧ m_session m = x ↔ x ≠ me ∧ target = x ∧ member g swarm x = Some m)).
    { intros target. case_decide as Hme; [done|]. destruct (member g swarm target) as [m'|] eqn:Hm; [|done].
      intros [= <-]. rewrite list_elem_of_singleton. split.
      - intros [-> <-]. rewrite (member_filed g swarm target m' Hg Hm). done.
      - intros (_ & <- & Hx). split; [congruence|]. by eapply member_filed. }
    unfold Lifecycle.recipients in Hr.
    destruct (parse_session who) as [t|] eqn:Hp; [|destruct (resolve_name g swarm who) as [t|] eqn:Hn; [|done]];
      rewrite (Hone t Hr); naive_solver.
  - destruct (subtree_exact g swarm me Hg) as (l & Hl & _ & Hin). cbn in Hr. rewrite Hl in Hr.
    injection Hr as <-. rewrite Hknown. cbn. rewrite Hin, <-member_lookup. split.
    + tauto.
    + intros (? & ? & Hm). rewrite Hm. split_and!; [by eexists|done..].
  - cbn in Hr. destruct (is_coordinator g swarm me) eqn:Hc; [|done]. injection Hr as <-.
    apply bool_decide_eq_true in Hc. rewrite Hknown, elem_of_members by done. split.
    + tauto.
    + intros (? & _ & Hm). rewrite Hm. split_and!; [by eexists|done..].
Qed.

(** The event a delivery is. *)
Definition delivery_event (m : PeerMessage) (from : string) (to : SessionId) : Event :=
  let content := render_message from m in
  match delivery m with
  | Notify => Inject to content false
  | Interrupt => Inject to content true
  | Wake => if is_busy to then Inject to content true else Drive to content
  end.

Definition reachable (w : World) (m : SwarmMember) : Prop :=
  active m = true ∧ m_session m ∈ w_hosts w.
#[local] Instance reachable_dec w m : Decision (reachable w m).
Proof. apply _. Defined.

Lemma deliver_each_spec w targets m from :
  let '(w', names) := deliver_each is_busy w targets m from in
  let landed := filter (reachable w) targets in
  w' = mkWorld (w_swarms w) (w_hosts w) (w_bindings w) (w_touches w)
         (w_sent w ++ ((λ t, delivery_event m from (m_session t)) <$> landed)) ∧
  names = m_name <$> landed.
Proof.
  revert w. induction targets as [|t targets IH]; intros w; cbn [deliver_each].
  - rewrite filter_nil. cbn. rewrite app_nil_r. by destruct w.
  - unfold deliver. rewrite filter_cons. destruct (active t) eqn:Ha; cbn [negb].
    + destruct (decide (m_session t ∈ w_hosts w)) as [Hh|Hh].
      * rewrite (decide_True (P := reachable w t)) by by split.
        fold (delivery_event m from (m_session t)).
        specialize (IH (send_event (delivery_event m from (m_session t)) w)).
        destruct (deliver_each _ _ _ _ _) as [w2 names2]. destruct IH as [-> ->]. cbn.
        by rewrite <-app_assoc.
      * rewrite (decide_False (P := reachable w t)) by (intros []; done).
        specialize (IH w). by destruct (deliver_each _ _ _ _ _).
    + rewrite (decide_False (P := reachable w t)) by (intros [? _]; congruence).
      specialize (IH w). by destruct (deliver_each _ _ _ _ _).
Qed.

(** A message reaches exactly the running, hosted members of its audience, the
    sender never among them: by id or unambiguous name the one member meant,
    to the sender's subtree the members beneath it and no others, to the whole
    swarm everyone, but only from whoever holds the seat.  It leaves one event
    for each, of the kind the delivery asks for, and changes nothing else; a
    refusal changes nothing at all. *)
Theorem send_exact w swarm me msg :
  reg_ok (w_swarms w) →
  match send show_session parse_session show_error is_busy w swarm me msg with
  | (w', Err _) => w' = w
  | (w', Ok names) =>
      ∃ targets,
        (∀ m, m ∈ targets ↔
           active m = true ∧ m_session m ∈ w_hosts w ∧ m_session m ≠ me ∧
           in_audience (w_swarms w) swarm me (audience msg) (m_session m) ∧
           member (w_swarms w) swarm (m_session m) = Some m) ∧
        names ≡ₚ m_name <$> targets ∧
        w_sent w' = w_sent w ++
          ((λ m, delivery_event msg (member_name show_session (w_swarms w) swarm me) (m_session m))
             <$> targets) ∧
        w_swarms w' = w_swarms w ∧ w_hosts w' = w_hosts w ∧ w_touches w' = w_touches w
  end.
Proof.
  intros Hg. unfold send.
  destruct (recipients (w_swarms w) swarm me (audience msg)) as [ms|] eqn:Hr; [|done].
  pose proof (recipients_spec _ _ _ _ _ Hg Hr) as Hspec.
  pose proof (deliver_each_spec w ms msg (member_name show_session (w_swarms w) swarm me)) as Hd.
  destruct (deliver_each _ _ _ _ _) as [w' names]. destruct Hd as [-> ->].
  exists (filter (reachable w) ms). split_and!; try done.
  - intros m. rewrite list_elem_of_filter. specialize (Hspec (m_session m) m).
    unfold reachable. tauto.
  - by rewrite merge_sort_Permutation.
Qed.
End messages.

Lemma send_exact_witness :
  let parse (_ : string) : option SessionId := None in
  let msg := mkMessage Subtree "status?" None Notify in
  let w' := fst (send show_demo parse (λ _, "") (λ _, false) world_demo "s" 7 msg) in
  w_sent w' = [Inject 9 ("Message from lead:" +:+ NL +:+ NL +:+ "status?")%string false] ∧
  w_hosts w' = w_hosts world_demo.
Proof.
  cbn zeta. set (msg := mkMessage Subtree "status?" None Notify).
  assert (Hok : reg_ok (w_swarms world_demo))
    by (apply set_plan_ok, run_ops_ok, with_limits_ok).
  pose proof (send_exact show_demo (λ _, None) (λ _, ""%string) (λ _, false) world_demo "s" 7 msg Hok)
    as H.
  assert (Hs : w_sent (fst (send show_demo (λ _, None) (λ _, ""%string) (λ _, false) world_demo "s" 7 msg))
    = [Inject 9 ("Message from lead:" +:+ NL +:+ NL +:+ "status?")%string false] ∧
    is_ok (snd (send show_demo (λ _, None) (λ _, ""%string) (λ _, false) world_demo "s" 7 msg)) = true)
    by (split; vm_compute; reflexivity).
  destruct (send _ _ _ _ _ _ _ _) as [w' [names|]]; [|by destruct Hs].
  destruct H as (targets & _ & _ & _ & _ & H & _). split; [apply Hs|exact H].
Defined.

(** Addressing one member by id or name is not held to the sender's subtree:
    [8] reaches [9], which the coordinator spawned. *)
Lemma one_is_not_scoped :
  snd (send show_demo (λ _, None) (λ _, ""%string) (λ _, false) world_demo "s" 8
         (mkMessage (One "b") "hi" None Interrupt)) = Ok ["b"%string].
Proof. vm_compute. reflexivity. Qed.
