(* ===== verification/Snapshot.v ===== *)
(** * Durable snapshots (crates/localpilot-server/src/swarm/lifecycle.rs)

    The store that keeps a swarm's membership and plan across a restart: one
    primary and one backup file per swarm, written through a temporary file and
    a rename.  The directory is a map from file names to contents.  Every step
    that can fail is given its outcome by an argument, a failed copy or write
    leaving any content behind; a crash is a failure after which nothing more
    happens.  A rename is atomic.

    The JSON text of a snapshot is the work of [serde_json]: [encode] and
    [decode] stand for it. *)

From Stdlib Require Import Ascii.
From stdpp Require Import base gmap list sorting strings numbers.
From S2P Require Import Prelude RustStr Artifact Plan Swarm SwarmInv SwarmProps Touches.
From S2P Require Import Lifecycle LifecycleProps.
#[local] Open Scope N_scope.

Record SwarmSnapshot := mkSnapshot {
  sn_swarm : SwarmId;
  revision : N;
  sn_members : list SwarmMember;
  sn_coordinator : option SessionId;
  sn_plan : option TaskPlan;
}.

Inductive SnapshotError := Io (path : string) | Malformed (path : string).

Abbreviation Disk := (gmap string string).

(** ** File names *)

(** [is_ascii_alphanumeric], [-] or [_]. *)
Definition key_char (c : ascii) : bool :=
  let n := N_of_ascii c in
  ((48 <=? n) && (n <=? 57)) || ((65 <=? n) && (n <=? 90)) || ((97 <=? n) && (n <=? 122))
  || (n =? 45) || (n =? 95).

(** The byte continues a character of several bytes, which maps to one [_]. *)
Definition continuation (c : ascii) : bool :=
  let n := N_of_ascii c in (128 <=? n) && (n <? 192).

Fixpoint file_key (swarm : string) : string :=
  match swarm with
  | "" => ""
  | String c s =>
      if key_char c then String c (file_key s)
      else if continuation c then file_key s
      else String "_" (file_key s)
  end.

Definition primary (swarm : SwarmId) : string := file_key swarm +:+ ".json".
Definition backup (swarm : SwarmId) : string := file_key swarm +:+ ".json.bak".
(** [primary.with_extension("json.tmp")]: the key holds no dot. *)
Definition temporary (swarm : SwarmId) : string := file_key swarm +:+ ".json.tmp".

(** ** The file system *)

(** How a copy or a write went: a failed one may leave the target changed. *)
Inductive outcome := Done | Stopped (left_behind : option string).

Record Faults := mkFaults {
  f_create : bool;   (* create_dir_all *)
  f_copy : outcome;
  f_write : outcome;
  f_rename : bool;
}.
Definition no_faults : Faults := mkFaults true Done Done true.

Definition write_file (d : Disk) (name content : string) (o : outcome) : Disk * bool :=
  match o with
  | Done => (<[name := content]> d, true)
  | Stopped None => (d, false)
  | Stopped (Some partial) => (<[name := partial]> d, false)
  end.

Section store.
Context (encode : SwarmSnapshot → option string) (decode : string → option SwarmSnapshot).

(** [Ok(None)] when the file cannot be read at all. *)
Definition read_file (d : Disk) (name : string) : result (option SwarmSnapshot) unit :=
  match d !! name with
  | None => Ok None
  | Some body => match decode body with Some s => Ok (Some s) | None => Err tt end
  end.

Definition load (d : Disk) (swarm : SwarmId) : result (option SwarmSnapshot) SnapshotError :=
  match read_file d (primary swarm) with
  | Ok (Some s) => Ok (Some s)
  | _ =>
      match read_file d (backup swarm) with
      | Ok found => Ok found
      | Err _ => Err (Malformed (backup swarm))
      end
  end.

(** [std::fs::copy(&primary, backup)], whose result is ignored. *)
Definition copy_primary (d : Disk) (swarm : SwarmId) (o : outcome) : Disk :=
  match d !! primary swarm with
  | Some body => fst (write_file d (backup swarm) body o)
  | None => d
  end.

Definition replace_primary (d : Disk) (f : Faults) (s : SwarmSnapshot)
    : Disk * result bool SnapshotError :=
  let swarm := sn_swarm s in
  let! body := ok_or (encode s) (Malformed (primary swarm)) or d in
  let '(d, written) := write_file d (temporary swarm) body (f_write f) in
  if negb written then (d, Err (Io (temporary swarm)))
  else if f_rename f then
    (<[primary swarm := body]> (delete (temporary swarm) d), Ok true)
  else (d, Err (Io (primary swarm))).

Definition save (d : Disk) (f : Faults) (s : SwarmSnapshot)
    : Disk * result bool SnapshotError :=
  if negb (f_create f) then (d, Err (Io ""))
  else
    match read_file d (primary (sn_swarm s)) with
    | Ok (Some existing) =>
        if revision s <=? revision existing then (d, Ok false)
        else replace_primary (copy_primary d (sn_swarm s) (f_copy f)) f s
    | _ => replace_primary d f s
    end.

(** [capture]: what the registry holds now, one revision on. *)
Definition snapshot_of (g : Registry) (swarm : SwarmId) (previous : option SwarmSnapshot)
    : SwarmSnapshot :=
  mkSnapshot swarm
    (match previous with Some s => u64_add (revision s) 1 | None => 1 end)
    (members g swarm) (coordinator g swarm) (plan g swarm).

Definition capture (d : Disk) (f : Faults) (g : Registry) (swarm : SwarmId)
    : Disk * result SwarmSnapshot SnapshotError :=
  let previous := match load d swarm with Ok found => found | Err _ => None end in
  let s := snapshot_of g swarm previous in
  let '(d, r) := save d f s in
  (d, match r with Ok _ => Ok s | Err e => Err e end).

(** [SnapshotStore::restore]. *)
Definition restore_snapshot (g : Registry) (s : SwarmSnapshot)
    : Registry * result unit SwarmError :=
  restore g (sn_swarm s) (sn_members s) (sn_coordinator s) (sn_plan s).
End store.

(** ** What the snapshot store promises

    The files implement a register that only moves to newer revisions, through
    any failure and any crash; and what is captured comes back after a restart. *)

(** ** The register the store promises to be *)

(** One cell per swarm; a write takes effect only when its revision is newer. *)
Definition register_save (st : option SwarmSnapshot) (s : SwarmSnapshot)
    : option SwarmSnapshot * bool :=
  match st with
  | Some old => if revision s <=? revision old then (st, false) else (Some s, true)
  | None => (Some s, true)
  end.

(** ** File names do not meet *)

Lemma append_inj_l a b c : a +:+ b = a +:+ c → b = c.
Proof. induction a as [|x a IH]; [done|]. intros [= H]. by apply IH. Qed.

Lemma primary_backup w : primary w ≠ backup w.
Proof. unfold primary, backup. intros H%append_inj_l. done. Qed.
Lemma primary_temporary w : primary w ≠ temporary w.
Proof. unfold primary, temporary. intros H%append_inj_l. done. Qed.
Lemma backup_temporary w : backup w ≠ temporary w.
Proof. unfold backup, temporary. intros H%append_inj_l. done. Qed.

Fixpoint dotless (s : string) : bool :=
  match s with "" => true | String c s => negb (bool_decide (c = "."%char)) && dotless s end.

Lemma file_key_dotless w : dotless (file_key w) = true.
Proof.
  induction w as [|c w IH]; [done|]. cbn [file_key].
  destruct (key_char c) eqn:Hc; [|by destruct (continuation c)].
  cbn [dotless]. rewrite IH, andb_true_r. apply negb_true_iff, bool_decide_eq_false.
  intros ->. done.
Qed.

Lemma dotless_split a b x y :
  dotless a = true → dotless b = true →
  a +:+ String "." x = b +:+ String "." y → a = b ∧ x = y.
Proof.
  revert b. induction a as [|c a IH]; intros [|c' b] Ha Hb; cbn [dotless] in *.
  - intros [= H]. done.
  - intros [= H _]. subst c'. done.
  - intros [= H _]. subst c. done.
  - apply andb_true_iff in Ha as [_ Ha], Hb as [_ Hb].
    intros [= Hc H]. destruct (IH b Ha Hb H) as [-> ->]. by subst.
Qed.

Section store.
Context (encode : SwarmSnapshot → option string) (decode : string → option SwarmSnapshot).
(** [serde_json] reads back what it wrote. *)
Context (Hjson : ∀ s body, encode s = Some body → decode body = Some s).

Abbreviation read_file := (read_file decode).
Abbreviation load := (load decode).
Abbreviation save := (save encode decode).

(** The files stand for the register's content. *)
Definition represents (d : Disk) (w : SwarmId) (st : option SwarmSnapshot) : Prop :=
  match st with
  | Some s => read_file d (primary w) = Ok (Some s)
  | None => d !! primary w = None ∧ d !! backup w = None
  end.

Lemma represents_load d w st : represents d w st → load d w = Ok st.
Proof.
  unfold represents, Snapshot.load. destruct st as [s|]; [by intros ->|].
  intros [H1 H2]. unfold Snapshot.read_file. by rewrite H1, H2.
Qed.

Lemma read_file_insert_ne d n1 n2 c : n1 ≠ n2 → read_file (<[n1 := c]> d) n2 = read_file d n2.
Proof. intros Hne. unfold Snapshot.read_file. by rewrite lookup_insert_ne. Qed.

Lemma write_file_other d n1 n2 c o : n1 ≠ n2 → fst (write_file d n1 c o) !! n2 = d !! n2.
Proof. intros Hne. destruct o as [|[p|]]; cbn; rewrite ?lookup_insert_ne by done; done. Qed.

Lemma replace_primary_spec d f s :
  match replace_primary encode d f s with
  | (d', Ok b) => b = true ∧ read_file d' (primary (sn_swarm s)) = Ok (Some s)
  | (d', Err _) => d' !! primary (sn_swarm s) = d !! primary (sn_swarm s) ∧
                   d' !! backup (sn_swarm s) = d !! backup (sn_swarm s)
  end.
Proof.
  unfold replace_primary. destruct (encode s) as [body|] eqn:He; cbn [ok_or]; [|done].
  set (w := sn_swarm s).
  pose proof (write_file_other d (temporary w) (primary w) body (f_write f)
    (not_eq_sym (primary_temporary w))) as Hp.
  pose proof (write_file_other d (temporary w) (backup w) body (f_write f)
    (not_eq_sym (backup_temporary w))) as Hb.
  destruct (write_file _ _ _ _) as [d1 written]. cbn [fst] in *.
  destruct written; cbn [negb]; [|done]. destruct (f_rename f); [|done].
  split; [done|]. unfold Snapshot.read_file. rewrite lookup_insert_eq.
  by rewrite (Hjson s body He).
Qed.

Lemma copy_primary_primary d w o : copy_primary d w o !! primary w = d !! primary w.
Proof.
  unfold copy_primary. destruct (d !! primary w) eqn:Hd; [|done].
  rewrite write_file_other; [done|]. apply not_eq_sym, primary_backup.
Qed.

Lemma save_refines_register_raw d f s st :
  represents d (sn_swarm s) st →
  match save d f s with
  | (d', Ok wrote) =>
      represents d' (sn_swarm s) (fst (register_save st s)) ∧ wrote = snd (register_save st s)
  | (d', Err _) => represents d' (sn_swarm s) st
  end.
Proof.
  set (w := sn_swarm s). intros Hst.
  unfold Snapshot.save. destruct (f_create f); cbn [negb]; [|done]. fold w.
  destruct st as [old|]; cbn [represents register_save] in *.
  - rewrite Hst. destruct (revision s <=? revision old); [done|]. cbn [fst snd].
    pose proof (replace_primary_spec (copy_primary d w (f_copy f)) f s) as Hr. fold w in Hr.
    destruct (replace_primary _ _ _ _) as [d' [b|]]; [by destruct Hr|].
    destruct Hr as [Hp _]. unfold represents, Snapshot.read_file in *.
    by rewrite Hp, copy_primary_primary.
  - destruct Hst as [Hp Hb]. unfold Snapshot.read_file at 1. rewrite Hp.
    pose proof (replace_primary_spec d f s) as Hr. fold w in Hr.
    destruct (replace_primary _ _ _ _) as [d' [b|]]; [by destruct Hr|].
    destruct Hr as [Hp' Hb']. unfold represents. by rewrite Hp', Hb'.
Qed.

(** The store refines a register that only moves forward: whatever fails or
    crashes along the way, a save that answers wrote exactly when its revision
    is newer than what the files hold, and one that fails - at any step -
    leaves the files holding what they held. *)
Theorem save_refines_register d f s st :
  represents d (sn_swarm s) st →
  match save d f s with
  | (d', Ok wrote) =>
      represents d' (sn_swarm s) (fst (register_save st s)) ∧
      wrote = snd (register_save st s) ∧
      load d' (sn_swarm s) = Ok (fst (register_save st s))
  | (d', Err _) => represents d' (sn_swarm s) st ∧ load d' (sn_swarm s) = Ok st
  end.
Proof.
  intros Hst. pose proof (save_refines_register_raw d f s st Hst) as H.
  destruct (save d f s) as [d' [b|]].
  - destruct H as [H1 H2]. split_and!; [done..|by apply represents_load].
  - split; [done|by apply represents_load].
Qed.

(** A save writes the three files of its own key only. *)
Lemma save_other d f s n :
  n ≠ primary (sn_swarm s) → n ≠ backup (sn_swarm s) → n ≠ temporary (sn_swarm s) →
  fst (save d f s) !! n = d !! n.
Proof.
  set (w := sn_swarm s). intros Hp Hb Ht.
  assert (Hrep : ∀ d0, fst (replace_primary encode d0 f s) !! n = d0 !! n).
  { intros d0. unfold replace_primary. destruct (encode s) as [body|]; [cbn [ok_or]|done].
    pose proof (write_file_other d0 (temporary w) n body (f_write f) (not_eq_sym Ht)) as Hw.
    fold w. destruct (write_file _ _ _ _) as [d1 []]; cbn [fst negb] in *; [|done].
    destruct (f_rename f); cbn [fst]; [|done].
    by rewrite lookup_insert_ne, lookup_delete_ne by done. }
  unfold Snapshot.save. destruct (f_create f); cbn [negb]; [|done]. fold w.
  destruct (read_file d (primary w)) as [[ex|]|]; [|by apply Hrep|by apply Hrep].
  destruct (revision s <=? revision ex); [done|]. rewrite Hrep by done.
  unfold copy_primary. destruct (d !! primary w); [|done]. by apply write_file_other.
Qed.

Lemma save_other_load d f s other :
  file_key other ≠ file_key (sn_swarm s) → load (fst (save d f s)) other = load d other.
Proof.
  intros Hne.
  assert (Hap : ∀ ext ext', file_key (sn_swarm s) +:+ String "." ext ≠
    file_key other +:+ String "." ext').
  { intros ext ext' H. apply dotless_split in H as [H _]; [|apply file_key_dotless..]. done. }
  assert (Hfiles : ∀ n, n = primary other ∨ n = backup other → fst (save d f s) !! n = d !! n).
  { intros n [-> | ->]; apply save_other; intros H; symmetry in H; by apply Hap in H. }
  unfold Snapshot.load, Snapshot.read_file. by rewrite !Hfiles by auto.
Qed.

(** A save that took effect left the previous snapshot in the backup. *)
Lemma save_backup d f s old d' :
  represents d (sn_swarm s) (Some old) → f_copy f = Done → save d f s = (d', Ok true) →
  read_file d' (backup (sn_swarm s)) = Ok (Some old).
Proof.
  set (w := sn_swarm s). intros Hold Hcopy. unfold Snapshot.save.
  destruct (f_create f); cbn [negb]; [|done]. fold w. cbn [represents] in Hold. rewrite Hold.
  destruct (revision s <=? revision old); [done|].
  unfold replace_primary. destruct (encode s) as [body|]; cbn [ok_or]; [|done]. fold w.
  set (d1 := copy_primary d w (f_copy f)).
  assert (Hd1 : read_file d1 (backup w) = Ok (Some old)).
  { unfold d1, copy_primary. unfold Snapshot.read_file in Hold.
    destruct (d !! primary w) as [b|] eqn:Hb; [|done]. rewrite Hcopy. cbn [write_file fst].
    unfold Snapshot.read_file. by rewrite lookup_insert_eq. }
  pose proof (write_file_other d1 (temporary w) (backup w) body (f_write f)
    (not_eq_sym (backup_temporary w))) as Hw.
  destruct (write_file d1 _ _ _) as [d2 []]; cbn [fst negb] in *; [|done].
  destruct (f_rename f); [|done]. intros [= <-]. unfold Snapshot.read_file in *.
  rewrite lookup_insert_ne, lookup_delete_ne by
    (first [apply primary_backup | apply not_eq_sym, backup_temporary]).
  by rewrite Hw.
Qed.

(** A save costs nobody else anything and itself at most its newest revision:
    after a save that took effect, a primary file torn or lost still leaves the
    previous snapshot to be read; and whatever happens, the snapshots of a
    swarm with another file key read as before. *)
Theorem backup_covers_newest d f s old torn d' :
  represents d (sn_swarm s) (Some old) → f_copy f = Done → decode torn = None →
  save d f s = (d', Ok true) →
  load (<[primary (sn_swarm s) := torn]> d') (sn_swarm s) = Ok (Some old) ∧
  load (delete (primary (sn_swarm s)) d') (sn_swarm s) = Ok (Some old) ∧
  (∀ other f0, file_key other ≠ file_key (sn_swarm s) →
     load (fst (save d f0 s)) other = load d other).
Proof.
  intros Hold Hcopy Htorn Hsave.
  pose proof (save_backup d f s old d' Hold Hcopy Hsave) as Hback.
  split_and!; [| |by intros; apply save_other_load].
  - unfold Snapshot.load. unfold Snapshot.read_file at 1. rewrite lookup_insert_eq, Htorn.
    rewrite read_file_insert_ne by apply primary_backup. by rewrite Hback.
  - unfold Snapshot.load. unfold Snapshot.read_file at 1. rewrite lookup_delete_eq.
    unfold Snapshot.read_file in *. by rewrite lookup_delete_ne, Hback by apply primary_backup.
Qed.

(** ** Across a restart *)

Lemma collect_is_Some ms m : m ∈ ms → is_Some (collect ms !! m_session m).
Proof.
  intros Hm. unfold collect.
  assert (H : ∀ acc : gmap SessionId SwarmMember,
    m ∈ ms ∨ is_Some (acc !! m_session m) →
    is_Some (fold_left (λ map m, <[m_session m := m]> map) ms acc !! m_session m)).
  { clear Hm. induction ms as [|x ms IH]; cbn [fold_left]; intros acc Hor.
    - destruct Hor as [?%not_elem_of_nil|?]; done.
    - apply IH. destruct Hor as [[->|Hin]%elem_of_cons|Hs]; [|by left|].
      + right. rewrite lookup_insert_eq. by eexists.
      + right. apply is_Some_insert. by right. }
  apply H. by left.
Qed.

Lemma collect_members g w :
  reg_ok g → collect (members g w) = members_of (entry_or_default g w).
Proof.
  intros Hg. pose proof (eo_filed _ (ro_entries g Hg w)) as Hf.
  set (e := entry_or_default g w) in *.
  assert (Hin : ∀ m, m ∈ members g w ↔ ∃ k, members_of e !! k = Some m).
  { intros m. unfold members, e, entry_or_default. destruct (swarms g !! w) as [e0|]; cbn.
    - rewrite merge_sort_Permutation. apply elem_of_btree_values.
    - split; [by intros ?%not_elem_of_nil|]. intros [k Hk]. by rewrite lookup_empty in Hk. }
  apply map_eq. intros x. destruct (members_of e !! x) as [m|] eqn:Hm.
  - assert (Hmx : m_session m = x) by by apply Hf.
    destruct (collect_is_Some (members g w) m) as [m' Hm']; [apply Hin; by exists x|].
    rewrite Hmx in Hm'. rewrite Hm'. apply collect_lookup in Hm' as [[k Hk]%Hin Hs].
    rewrite (Hf k m' Hk) in Hs. subst k. congruence.
  - apply eq_None_not_Some. intros [m' Hm'].
    apply collect_lookup in Hm' as [[k Hk]%Hin Hs]. rewrite (Hf k m' Hk) in Hs. congruence.
Qed.

Lemma restore_fresh lim w ms c p :
  Forall (λ m, m_role m ≠ Peer) ms →
  ∃ g', restore (with_limits lim) w ms c p = (g', Ok tt) ∧
    swarms g' !! w = Some (mkSwarm (Some Hierarchical) (collect ms) ∅ ∅
      (N.max 0 (N.of_nat (length ms))) c p ∅).
Proof.
  intros Hms. unfold restore.
  assert (Hrole : existsb (λ m, bool_decide (m_role m = Peer)) ms = false).
  { apply not_true_iff_false. rewrite existsb_exists. intros (m & Hm & Hp).
    apply bool_decide_eq_true in Hp. rewrite list.Forall_forall in Hms.
    apply (Hms m); [by apply list_elem_of_In|done]. }
  assert (Hnone : swarms (with_limits lim) !! w = None) by apply lookup_empty.
  assert (Hguard : restore_guard (with_limits lim) w ms = Ok tt).
  { clear. induction ms as [|m ms IH]; [done|]. cbn [restore_guard].
    unfold elsewhere. cbn [with_limits by_session]. by rewrite lookup_empty. }
  assert (Hfresh : entry_or_default (with_limits lim) w = Swarm_default)
    by (unfold entry_or_default; by rewrite Hnone).
  rewrite Hnone, Hrole, Hguard. cbn [orb]. cbn zeta. eexists. split; [reflexivity|].
  rewrite Hfresh. apply lookup_put.
Qed.

(** What is captured comes back: if the write succeeds, the file reads back as
    the captured snapshot, one revision on, and a restarted server that
    restores it has the same members - ids, names, roles, states, report edges
    and completions - the same coordinator and the same plan. *)
Theorem capture_restore_roundtrip d f g w e prev d' s lim :
  reg_ok g → swarms g !! w = Some e → topology e ≠ Some Pair →
  represents d w prev → from_option revision 0 prev < U64_MAX →
  capture encode decode d f g w = (d', Ok s) →
  load d' w = Ok (Some s) ∧ revision s = from_option revision 0 prev + 1 ∧
  ∃ g', restore_snapshot (with_limits lim) s = (g', Ok tt) ∧
    (∀ x, member g' w x = member g w x) ∧
    coordinator g' w = coordinator g w ∧ plan g' w = plan g w.
Proof.
  intros Hg He Ht Hrep Hrev. unfold capture. rewrite (represents_load d w prev Hrep).
  set (s0 := snapshot_of g w prev).
  assert (Hs0 : revision s0 = from_option revision 0 prev + 1).
  { unfold s0, snapshot_of. destruct prev as [old|]; [|done].
    cbn [from_option revision] in *. apply u64_add_small. lia. }
  assert (Hnew : register_save prev s0 = (Some s0, true)).
  { unfold register_save. destruct prev as [old|]; [|done].
    cbn [from_option] in *.
    rewrite (proj2 (N.leb_gt _ _)); [done|lia]. }
  pose proof (save_refines_register_raw d f s0 prev Hrep) as Hsave. cbn [sn_swarm snapshot_of] in Hsave.
  destruct (save d f s0) as [d1 [b|err]]; [|done]. intros [= <- <-].
  rewrite Hnew in Hsave. destruct Hsave as (Hrep' & _). cbn [fst] in Hrep'.
  split; [by apply (represents_load d1 w (Some s0))|]. split; [done|].
  destruct (restore_fresh lim w (members g w) (coordinator g w) (plan g w)) as (g' & Hg' & Hent).
  { apply list.Forall_forall. intros m Hm. unfold members in Hm. rewrite He in Hm.
    rewrite merge_sort_Permutation in Hm. apply elem_of_btree_values in Hm as [k Hk].
    rewrite <-(entry_or_default_Some _ _ _ He) in Hk, Ht.
    by apply (not_pair_members _ (ro_entries g Hg w) Ht k). }
  exists g'. split; [exact Hg'|]. split_and!.
  - intros x. rewrite !member_lookup. rewrite (entry_or_default_Some _ _ _ Hent). cbn.
    by rewrite collect_members.
  - unfold coordinator at 1. by rewrite Hent.
  - unfold plan at 1. by rewrite Hent.
Qed.
End store.

(** ** At work *)

(** A text format for the members' ids only, enough to run the store: the
    revision and then each id, in unary. *)
Fixpoint unary (n : nat) (rest : string) : string :=
  match n with O => String ";" rest | S n => String "1" (unary n rest) end.
Definition plain_worker (m : SwarmMember) : bool :=
  bool_decide (m = mkMember (m_session m) "w" Worker Active None None).
Definition encode_demo (s : SwarmSnapshot) : option string :=
  if bool_decide (sn_swarm s = "s"%string) && forallb plain_worker (sn_members s)
     && match sn_coordinator s, sn_plan s with None, None => true | _, _ => false end
  then Some (unary (N.to_nat (revision s))
               (foldr (λ m rest, unary (N.to_nat (m_session m)) rest) "" (sn_members s)))
  else None.

Fixpoint numbers (n : nat) (s : string) : list nat :=
  match s with
  | "" => []
  | String c s => if bool_decide (c = ";"%char) then n :: numbers 0 s else numbers (S n) s
  end.
Definition decode_demo (body : string) : option SwarmSnapshot :=
  match numbers 0 body with
  | r :: ids =>
      Some (mkSnapshot "s" (N.of_nat r)
              ((λ i, mkMember (N.of_nat i) "w" Worker Active None None) <$> ids) None None)
  | [] => None
  end.

Lemma numbers_unary k n rest : numbers k (unary n rest) = (k + n)%nat :: numbers 0 rest.
Proof.
  revert k. induction n as [|n IH]; intros k.
  - change (k :: numbers 0 rest = (k + 0)%nat :: numbers 0 rest). by rewrite Nat.add_0_r.
  - change (numbers (S k) (unary n rest) = (k + S n)%nat :: numbers 0 rest).
    by rewrite IH, Nat.add_succ_r.
Qed.

Lemma demo_json s body : encode_demo s = Some body → decode_demo body = Some s.
Proof.
  unfold encode_demo, decode_demo. destruct (_ && _) eqn:Hc; [|done]. intros [= <-].
  apply andb_true_iff in Hc as [Hc Hnone]. apply andb_true_iff in Hc as [Hsw Hms].
  apply bool_decide_eq_true in Hsw. rewrite numbers_unary, Nat.add_0_l.
  destruct s as [sw r ms c p]; cbn in *. subst sw. destruct c, p; try done. f_equal.
  rewrite N2Nat.id. f_equal. clear Hnone. induction ms as [|m ms IH]; [done|].
  cbn [foldr forallb] in *. apply andb_true_iff in Hms as [Hm Hms].
  rewrite numbers_unary. cbn. rewrite N2Nat.id, (IH Hms).
  apply bool_decide_eq_true in Hm. by rewrite <-Hm.
Qed.

Definition snap1 : SwarmSnapshot :=
  mkSnapshot "s" 1 [mkMember 4 "w" Worker Active None None] None None.
Definition snap2 : SwarmSnapshot := mkSnapshot "s" 2 [] None None.
Definition disk1 : Disk := {["s.json"%string := unary 1 (unary 4 "")]}.

Lemma save_refines_register_witness :
  let '(d', r) := save encode_demo decode_demo disk1 (mkFaults true Done (Stopped (Some "1"%string)) true) snap2 in
  r = Err (Io "s.json.tmp") ∧ load decode_demo d' "s" = Ok (Some snap1).
Proof.
  assert (Hrep : represents decode_demo disk1 (sn_swarm snap2) (Some snap1))
    by (vm_compute; reflexivity).
  pose proof (save_refines_register encode_demo decode_demo demo_json disk1
    (mkFaults true Done (Stopped (Some "1"%string)) true) snap2 (Some snap1) Hrep) as H.
  assert (Hr : snd (save encode_demo decode_demo disk1
    (mkFaults true Done (Stopped (Some "1"%string)) true) snap2) = Err (Io "s.json.tmp"))
    by (vm_compute; reflexivity).
  destruct (save _ _ _ _ _) as [d' [b|err]]; cbn in Hr; [done|].
  injection Hr as ->. split; [done|]. exact (proj2 H).
Defined.

Lemma backup_covers_newest_witness :
  let d' := fst (save encode_demo decode_demo disk1 no_faults snap2) in
  load decode_demo (<["s.json"%string := ""%string]> d') "s" = Ok (Some snap1).
Proof.
  cbn zeta.
  assert (Hrep : represents decode_demo disk1 (sn_swarm snap2) (Some snap1))
    by (vm_compute; reflexivity).
  assert (Hr : snd (save encode_demo decode_demo disk1 no_faults snap2) = Ok true)
    by (vm_compute; reflexivity).
  destruct (save encode_demo decode_demo disk1 no_faults snap2) as [d' r] eqn:Hs.
  cbn [snd] in Hr. subst r.
  apply (backup_covers_newest encode_demo decode_demo disk1 no_faults snap2 snap1 ""%string d' Hrep
    eq_refl eq_refl Hs).
Defined.

Definition restored_demo : Registry :=
  fst (restore (with_limits SwarmLimits_default) "s" (sn_members snap1) None None).

Lemma capture_restore_roundtrip_witness :
  let '(d', r) := capture encode_demo decode_demo ∅ no_faults restored_demo "s" in
  r = Ok snap1 ∧ load decode_demo d' "s" = Ok (Some snap1).
Proof.
  assert (Hok : reg_ok restored_demo) by apply restore_ok, with_limits_ok.
  assert (He : ∃ e, swarms restored_demo !! "s"%string = Some e ∧ topology e = Some Hierarchical)
    by (eexists; split; vm_compute; reflexivity).
  destruct He as (e & He & Ht).
  assert (Hrep : represents decode_demo ∅ "s" None) by (split; vm_compute; reflexivity).
  assert (Hc : snd (capture encode_demo decode_demo ∅ no_faults restored_demo "s") = Ok snap1)
    by (vm_compute; reflexivity).
  destruct (capture encode_demo decode_demo ∅ no_faults restored_demo "s") as [d' r] eqn:Hcap.
  cbn [snd] in Hc. subst r. split; [done|].
  destruct (capture_restore_roundtrip encode_demo decode_demo demo_json ∅ no_faults restored_demo
    "s" e None d' snap1 SwarmLimits_default Hok He ltac:(by rewrite Ht) Hrep
    ltac:(by vm_compute) Hcap) as (H & _). exact H.
Defined.

(** Two swarms the environment override can name share one file. *)
Lemma file_keys_can_meet : file_key "team/a" = file_key "team_a".
Proof. vm_compute. reflexivity. Qed.
