(* ===== verification/Converge.v ===== *)
(** * The peer-pair convergence protocol
    (crates/localpilot-server/src/swarm/converge.rs)

    Two symmetric peers exchange proposals and revisions of one artifact until
    both agree on the same revision, or a bound stops them: the typed actions,
    the shared candidate and who agreed to it, and the driver that schedules
    one turn at a time over abstract endpoints.

    The JSON reader and SHA-256 are third-party code, and the endpoints are
    whatever sessions the host supplies: they are the sections' parameters.  An
    endpoint call answers with its reply and with whether the slot's deadline
    fired while it was awaited; looking at the cancellation token moves the
    world on too, so an abort may land between any two steps. *)

From stdpp Require Import base gmap list strings numbers.
From Stdlib Require Import Ascii.
From S2P Require Import Prelude RustStr Artifact Plan Swarm.
#[local] Open Scope N_scope.

(** [let* (r, x) := c in k]: [?] in an operation that also moves a state on. *)
Notation "'let*' ( r , x ) ':=' c 'in' k" :=
  (match c with (r, Ok x) => k | (r, Err e) => (r, Err e) end)
  (at level 10, r name, x pattern, c at level 100, k at level 200) : pilot_scope.

Definition PROTOCOL_VERSION : N := 1.

(** ** Envelopes *)

Inductive PairAction :=
  | Propose (artifact : string)
  | Revise (artifact : string)
  | Agree (revision : N) (digest : string).

Inductive EnvelopeError :=
  | UnknownVersion (found expected : N)
  | EnvelopeMalformed (why : string).

Definition show_envelope_error (e : EnvelopeError) : string :=
  match e with
  | UnknownVersion found expected =>
      "unsupported convergence protocol version " +:+ show_N found +:+ "; this build speaks "
      +:+ show_N expected
  | EnvelopeMalformed why => "malformed convergence envelope: " +:+ why
  end.

(** The wire shape: the version and the action arm. *)
Record Envelope := mkEnvelope { env_v : N; env_action : PairAction }.

(** ** The candidate *)

Record Candidate := mkCandidate { c_revision : N; c_digest : string; c_artifact : string }.

Definition LF : ascii := "010"%char.
Definition CR : ascii := "013"%char.

(** [.replace("\r\n", "\n")]. *)
Fixpoint replace_crlf (s : string) : string :=
  match s with
  | "" => ""
  | String c rest =>
      match rest with
      | String d rest' =>
          if bool_decide (c = CR) && bool_decide (d = LF) then String LF (replace_crlf rest')
          else String c (replace_crlf rest)
      | "" => String c ""
      end
  end.

(** [.replace('\r', "\n")]. *)
Fixpoint replace_cr (s : string) : string :=
  match s with
  | "" => ""
  | String c rest => String (if bool_decide (c = CR) then LF else c) (replace_cr rest)
  end.

Definition canonicalize (artifact : string) : string := replace_cr (replace_crlf artifact).

Inductive Transition :=
  | CandidateInstalled (revision : N)
  | AgreementRecorded (revision : N)
  | TConverged (revision : N)
  | StaleAgreement.

Inductive PairStateError := ForeignActor | RevisionExhausted.

Definition show_state_error (e : PairStateError) : string :=
  match e with
  | ForeignActor => "action from a session that is not one of the pair's two peers"
  | RevisionExhausted => "the pair's revision space is exhausted"
  end.

Record PairState := mkPairState {
  peer0 : SessionId;
  peer1 : SessionId;
  candidate : option Candidate;
  next_revision : N;
  agreed : gset SessionId;
}.

(** [PairState::distinct]. *)
Definition distinct (first second : SessionId) : PairState := mkPairState first second None 1 ∅.

Definition is_peer (st : PairState) (s : SessionId) : bool := (s =? peer0 st) || (s =? peer1 st).

(** ** Outcomes and what endpoints answer *)

Inductive PairOutcome :=
  | Converged (revision : N)
  | CapReached (rounds : N)
  | ProtocolError (detail : string)
  | Aborted
  | TimedOut
  | PeerFailed (detail : string)
  | ProviderError (detail : string)
  | BudgetExceeded
  | NoProgress.

Inductive EndpointError := EPeerFailed (detail : string) | EProviderError (detail : string).

Inductive TurnReply :=
  | Produced (envelope : string) (cost : N)
  | TCancelled
  | TTimedOut
  | TBudgetExceeded
  | TNoProgress.

Inductive NotifyReply := Delivered | NCancelled.

Inductive StepResult :=
  | SConverged (revision : N)
  | SProgressed
  | SRepairable (detail : string)
  | SFatal (detail : string).

Inductive PairSetupError := DuplicatePeers | ZeroRoundCap | ZeroSlotTimeout.

Record PairBounds := mkBounds {
  max_rounds : N;          (* u32 *)
  slot_timeout : N;
  slot_token_budget : N;   (* u64 *)
}.

Definition endpoint_outcome (e : EndpointError) : PairOutcome :=
  match e with
  | EPeerFailed detail => PeerFailed detail
  | EProviderError detail => ProviderError detail
  end.

Definition cancellation_anomaly : PairOutcome :=
  PeerFailed "endpoint reported cancellation without a driver signal".

Record PairProgress := mkProgress {
  p_completed_rounds : N;
  p_max_rounds : N;
  p_next_peer : option SessionId;
  p_candidate : option Candidate;
  p_agreements : (SessionId * bool) * (SessionId * bool);
  p_repairing_peer : option SessionId;
}.

(** An endpoint call made, with its answer. *)
Inductive Call :=
  | Notified (from to : SessionId) (content : string) (reply : result NotifyReply EndpointError)
  | Drove (peer : SessionId) (prompt : string) (reply : result TurnReply EndpointError).

Definition render_delivery (c : Candidate) : string :=
  "The current proposal is revision " +:+ show_N (c_revision c) +:+ " (digest " +:+ c_digest c
  +:+ "). To accept it exactly, agree to that revision and digest; otherwise revise it."
  +:+ NL +:+ NL +:+ c_artifact c.

Definition render_repair (reason : string) : string :=
  "Your previous reply could not be used: " +:+ reason
  +:+ ". Reply with exactly one protocol-version-1 JSON envelope — a proposal, a revision, or an agreement. To agree, name the current proposal's revision and digest exactly as delivered.".

Definition PAIR_TURN_PROMPT : string :=
  "The other peer has shared its current proposal. Review it and reply with your own proposal, a revision of it, or your agreement.".

Section protocol.
(** [serde_json::from_str::<Envelope>] with the error's text; SHA-256 in
    lower-case hexadecimal. *)
Context (read_envelope : string → result Envelope string).
Context (digest_of : string → string).

Definition parse_action (input : string) : result PairAction EnvelopeError :=
  match read_envelope input with
  | Err error => Err (EnvelopeMalformed error)
  | Ok envelope =>
      if negb (env_v envelope =? PROTOCOL_VERSION)
      then Err (UnknownVersion (env_v envelope) PROTOCOL_VERSION)
      else Ok (env_action envelope)
  end.

(** ** The shared state *)

Definition install (st : PairState) (artifact : string)
    : PairState * result Transition PairStateError :=
  let revision := next_revision st in
  let! advanced := ok_or (checked_add revision 1) RevisionExhausted or st in
  let canonical := canonicalize artifact in
  let digest := digest_of canonical in
  (mkPairState (peer0 st) (peer1 st) (Some (mkCandidate revision digest canonical)) advanced ∅,
   Ok (CandidateInstalled revision)).

Definition record_agreement (st : PairState) (actor : SessionId) (revision : N)
    (digest : string) : PairState * Transition :=
  match candidate st with
  | None => (st, StaleAgreement)
  | Some c =>
      if negb (revision =? c_revision c) || negb (bool_decide (digest = c_digest c))
      then (st, StaleAgreement)
      else
        let st := mkPairState (peer0 st) (peer1 st) (candidate st) (next_revision st)
                    ({[actor]} ∪ agreed st) in
        (st, if bool_decide (peer0 st ∈ agreed st) && bool_decide (peer1 st ∈ agreed st)
             then TConverged revision else AgreementRecorded revision)
  end.

Definition apply (st : PairState) (actor : SessionId) (action : PairAction)
    : PairState * result Transition PairStateError :=
  if negb (is_peer st actor) then (st, Err ForeignActor)
  else match action with
  | Propose artifact | Revise artifact => install st artifact
  | Agree revision digest =>
      let '(st, t) := record_agreement st actor revision digest in (st, Ok t)
  end.

(** [PairDriver::step]. *)
Definition step (st : PairState) (peer : SessionId) (envelope : string)
    : PairState * StepResult :=
  match parse_action envelope with
  | Err error => (st, SRepairable (show_envelope_error error))
  | Ok action =>
      let '(st, r) := apply st peer action in
      (st, match r with
           | Ok (TConverged revision) => SConverged revision
           | Ok (CandidateInstalled _) | Ok (AgreementRecorded _) => SProgressed
           | Ok StaleAgreement => SRepairable "stale agreement"
           | Err error => SFatal (show_state_error error)
           end)
  end.

(** ** The driver *)

Context {E : Type}.
(** [CancellationToken::is_cancelled], and the two endpoint operations. *)
Context (is_cancelled : E → E * bool).
Context (notify : E → SessionId → SessionId → string
                  → E * (bool * result NotifyReply EndpointError)).
Context (drive : E → SessionId → string → E * (bool * result TurnReply EndpointError)).

Record PairDriver := mkDriver {
  d_state : PairState;
  d_task : string;
  d_bounds : PairBounds;
  d_progress : list PairProgress;           (* published so far, latest last *)
  d_raw : option string * option string;    (* [raw] of the run *)
  d_calls : list Call;                      (* endpoint calls made so far *)
  d_env : E;
}.

Definition set_env (e : E) (d : PairDriver) : PairDriver :=
  mkDriver (d_state d) (d_task d) (d_bounds d) (d_progress d) (d_raw d) (d_calls d) e.
Definition log_call (c : Call) (d : PairDriver) : PairDriver :=
  mkDriver (d_state d) (d_task d) (d_bounds d) (d_progress d) (d_raw d) (d_calls d ++ [c]) (d_env d).
Definition set_state (st : PairState) (d : PairDriver) : PairDriver :=
  mkDriver st (d_task d) (d_bounds d) (d_progress d) (d_raw d) (d_calls d) (d_env d).

(** The scheduled peer of a slot and the other one. *)
Definition peer_at (d : PairDriver) (slot : nat) : SessionId :=
  if Nat.even slot then peer0 (d_state d) else peer1 (d_state d).

Definition set_raw (slot : nat) (envelope : string) (d : PairDriver) : PairDriver :=
  mkDriver (d_state d) (d_task d) (d_bounds d) (d_progress d)
    (if Nat.even slot then (Some envelope, (d_raw d).2) else ((d_raw d).1, Some envelope))
    (d_calls d) (d_env d).

Definition agreements (st : PairState) : (SessionId * bool) * (SessionId * bool) :=
  ((peer0 st, bool_decide (peer0 st ∈ agreed st)), (peer1 st, bool_decide (peer1 st ∈ agreed st))).

Definition publish_state (next : option SessionId) (completed : N)
    (repairing : option SessionId) (d : PairDriver) : PairDriver :=
  mkDriver (d_state d) (d_task d) (d_bounds d)
    (d_progress d ++ [mkProgress completed (max_rounds (d_bounds d)) next
                        (candidate (d_state d)) (agreements (d_state d)) repairing])
    (d_raw d) (d_calls d) (d_env d).
Definition publish (next : option SessionId) (completed : N) : PairDriver → PairDriver :=
  publish_state next completed None.
Definition publish_repairing (peer : SessionId) (completed : N) : PairDriver → PairDriver :=
  publish_state (Some peer) completed (Some peer).

(** [PairDriver::new]. *)
Definition PairDriver_new (first second : SessionId) (task : string) (bounds : PairBounds)
    (env : E) : result PairDriver PairSetupError :=
  if max_rounds bounds =? 0 then Err ZeroRoundCap
  else if slot_timeout bounds =? 0 then Err ZeroSlotTimeout
  else if first =? second then Err DuplicatePeers
  else Ok (mkDriver (distinct first second) task bounds
    [mkProgress 0 (max_rounds bounds) (Some first) None ((first, false), (second, false)) None]
    (None, None) [] env).

(** [stop_precedence], as the early return it is used for. *)
Definition stop_precedence (d : PairDriver) (deadline_fired : bool)
    : PairDriver * result unit PairOutcome :=
  let '(e, cancelled) := is_cancelled (d_env d) in
  (set_env e d,
   if cancelled then Err Aborted else if deadline_fired then Err TimedOut else Ok tt).

(** The delivery at the start of a slot; answers whether the deadline fired. *)
Definition deliver_candidate (d : PairDriver) (other peer : SessionId) (content : string)
    : PairDriver * result bool PairOutcome :=
  let* (d, _) := stop_precedence d false in
  let '(e, (fired, reply)) := notify (d_env d) other peer content in
  let d := log_call (Notified other peer content reply) (set_env e d) in
  let* (d, _) := stop_precedence d fired in
  (d, match reply with
      | Err error => Err (endpoint_outcome error)
      | Ok Delivered => Ok fired
      | Ok NCancelled => Err cancellation_anomaly
      end).

(** What a reply that is not an envelope ends the slot with. *)
Definition read_reply (reply : result TurnReply EndpointError) : result (string * N) PairOutcome :=
  match reply with
  | Err error => Err (endpoint_outcome error)
  | Ok (Produced envelope cost) => Ok (envelope, cost)
  | Ok TCancelled => Err cancellation_anomaly
  | Ok TTimedOut => Err TimedOut
  | Ok TBudgetExceeded => Err BudgetExceeded
  | Ok TNoProgress => Err NoProgress
  end.

(** The slot's spending after one more turn. *)
Definition spend (budget spent cost : N) : result N PairOutcome :=
  match checked_add spent cost with
  | None => Err BudgetExceeded
  | Some total => if (0 <? budget) && (budget <? total) then Err BudgetExceeded else Ok total
  end.

(** One drive of the slot's peer, primary or repair. *)
Definition attempt (d : PairDriver) (slot : nat) (fired : bool) (spent : N) (prompt : string)
    : PairDriver * result (bool * N * StepResult) PairOutcome :=
  let peer := peer_at d slot in
  let* (d, _) := stop_precedence d fired in
  let '(e, (fires, reply)) := drive (d_env d) peer prompt in
  let fired := fired || fires in
  let d := log_call (Drove peer prompt reply) (set_env e d) in
  let d := match reply with Ok (Produced envelope _) => set_raw slot envelope d | _ => d end in
  let* (d, _) := stop_precedence d fired in
  let! (envelope, cost) := read_reply reply or d in
  let! total := spend (slot_token_budget (d_bounds d)) spent cost or d in
  let '(st, r) := step (d_state d) peer envelope in
  (set_state st d, Ok (fired, total, r)).

(** Converging on the second peer's slot completes that round. *)
Definition converged_rounds (slot : nat) (rounds : N) : N :=
  if Nat.even slot then rounds else u32_add rounds 1.

(** The ['slot] loop, which goes round at most twice: the outcome that ends the
    pair, if any, and the rounds completed. *)
Definition run_slot (d : PairDriver) (slot : nat) (rounds : N)
    : PairDriver * (option PairOutcome * N) :=
  let peer := peer_at d slot in
  let other := peer_at d (S slot) in
  let delivery := render_delivery <$> candidate (d_state d) in
  let base_prompt := match delivery with None => d_task d | Some _ => PAIR_TURN_PROMPT end in
  let delivered :=
    match delivery with
    | Some content => deliver_candidate d other peer content
    | None => (d, Ok false)
    end in
  match delivered with
  | (d, Err outcome) => (d, (Some outcome, rounds))
  | (d, Ok fired) =>
      match attempt d slot fired 0 base_prompt with
      | (d, Err outcome) => (d, (Some outcome, rounds))
      | (d, Ok (fired, spent, r)) =>
          match r with
          | SConverged revision => (d, (Some (Converged revision), converged_rounds slot rounds))
          | SProgressed => (d, (None, rounds))
          | SFatal detail => (d, (Some (ProtocolError detail), rounds))
          | SRepairable detail =>
              let d := publish_repairing peer rounds d in
              match attempt d slot fired spent (render_repair detail) with
              | (d, Err outcome) => (d, (Some outcome, rounds))
              | (d, Ok (_, _, r)) =>
                  match r with
                  | SConverged revision =>
                      (d, (Some (Converged revision), converged_rounds slot rounds))
                  | SProgressed => (d, (None, rounds))
                  | SFatal detail | SRepairable detail =>
                      (d, (Some (ProtocolError detail), rounds))
                  end
              end
          end
      end
  end.

(** [run_loop]; [None] is running out of fuel. *)
Fixpoint run_loop (fuel : nat) (d : PairDriver) (slot : nat) (rounds : N)
    : option (PairDriver * (PairOutcome * N)) :=
  match fuel with
  | O => None
  | S fuel =>
      let '(e, cancelled) := is_cancelled (d_env d) in
      let d := set_env e d in
      if cancelled then Some (d, (Aborted, rounds))
      else
        let '(d, (terminal, rounds)) := run_slot d slot rounds in
        match terminal with
        | Some outcome => Some (d, (outcome, rounds))
        | None =>
            let slot := S slot in
            let rounds := if Nat.even slot then u32_add rounds 1 else rounds in
            if Nat.even slot && (max_rounds (d_bounds d) <=? rounds)
            then Some (d, (CapReached rounds, rounds))
            else run_loop fuel (publish (Some (peer_at d slot)) rounds d) slot rounds
        end
  end.

Record PairReport := mkReport {
  outcome : PairOutcome;
  completed_rounds : N;
  report_peers : SessionId * SessionId;
  raw : option string * option string;
  report_candidate : option Candidate;
}.

(** Two slots a round. *)
Definition run_fuel (b : PairBounds) : nat := 2 * N.to_nat (max_rounds b).

(** The last value published. *)
Definition latest_rounds (d : PairDriver) : N :=
  match list.last (d_progress d) with Some p => p_completed_rounds p | None => 0 end.

(** [run]; the driver it leaves is what an observer of the calls and of the
    progress channel has seen. *)
Definition run (d : PairDriver) : option (PairDriver * PairReport) :=
  '(d, (o, rounds)) ← run_loop (run_fuel (d_bounds d)) d 0 0;
  let d := publish None rounds d in
  Some (d, mkReport o (latest_rounds d) (peer0 (d_state d), peer1 (d_state d)) (d_raw d)
             (candidate (d_state d))).

End protocol.

(** [PairReport::raw_for]. *)
Definition raw_for (r : PairReport) (peer : SessionId) : option string :=
  if (report_peers r).1 =? peer then (raw r).1
  else if (report_peers r).2 =? peer then (raw r).2
  else None.

(** A JSON string, and the envelope lines the directive shows. *)
Definition quoted (s : string) : string := String "034"%char s +:+ String "034"%char "".
Definition example_line (action : string) (rest : string) : string :=
  "{" +:+ quoted "v" +:+ ":" +:+ show_N PROTOCOL_VERSION +:+ "," +:+ quoted "action" +:+ ":"
  +:+ quoted action +:+ "," +:+ rest +:+ "}" +:+ NL.

Definition pair_session_directive (self_label other_label task : string) : string :=
  "You are peer " +:+ self_label +:+ " in a symmetric two-peer collaboration. The host assigned this identity; never claim or infer a different peer identity. Peer "
  +:+ other_label +:+ " is working on the same original task." +:+ NL +:+ NL
  +:+ "Original task:" +:+ NL +:+ task +:+ NL +:+ NL
  +:+ "On every scheduled pair turn, reply with exactly one JSON object and no surrounding prose. Use one of:" +:+ NL
  +:+ example_line "propose" (quoted "artifact" +:+ ":" +:+ quoted "...")
  +:+ example_line "revise" (quoted "artifact" +:+ ":" +:+ quoted "...")
  +:+ example_line "agree" (quoted "revision" +:+ ":1," +:+ quoted "digest" +:+ ":" +:+ quoted "...")
  +:+ "Use propose or revise for the complete candidate artifact. Agree only to the current revision and digest supplied by the host. You remain an ordinary interactive Agent-mode session: tools, approvals, questions, and direct peer messages stay available.".
