(* ===== verification/ConvergeProps.v ===== *)
(** * What the convergence protocol promises

    An agreement counts only for the candidate it names; a pair that converged
    has both peers' own word for the very artifact reported; and every run ends
    within its rounds, one peer at a time. *)

From stdpp Require Import base gmap list strings numbers.
From S2P Require Import Prelude RustStr Artifact Plan Swarm SwarmInv SwarmCaps Converge.
From stdpp Require Import list.
#[local] Open Scope N_scope.

(** ** Histories of actions *)

Definition artifact_in (a : PairAction) : option string :=
  match a with Propose x | Revise x => Some x | Agree _ _ => None end.

(** The artifacts put forward, in order. *)
Definition installs (acts : list (SessionId * PairAction)) : list string :=
  omap (λ pa, artifact_in pa.2) acts.

Lemma installs_app a b : installs (a ++ b) = installs a ++ installs b.
Proof. apply omap_app. Qed.

Lemma installs_length acts : (length (installs acts) <= length acts)%nat.
Proof.
  unfold installs. induction acts as [|[p a] acts IH]; [done|]. csimpl.
  destruct (artifact_in a); simpl; lia.
Qed.

Section protocol.
Context (read_envelope : string → result Envelope string).
Context (digest_of : string → string).

Abbreviation apply := (Converge.apply digest_of).

Definition run_actions (st : PairState) (acts : list (SessionId * PairAction)) : PairState :=
  fold_left (λ st pa, fst (apply st pa.1 pa.2)) acts st.

Lemma run_actions_snoc st acts pa :
  run_actions st (acts ++ [pa]) = fst (apply (run_actions st acts) pa.1 pa.2).
Proof. unfold run_actions. by rewrite fold_left_app. Qed.

(** The candidate after a history: the last artifact put forward, at the
    revision that counts them. *)
Definition candidate_of (arts : list string) : option Candidate :=
  art ← last arts;
  Some (mkCandidate (N.of_nat (length arts)) (digest_of (canonicalize art)) (canonicalize art)).

(** [q] agreed to the candidate [c], and nothing was put forward since. *)
Definition agreed_last (acts : list (SessionId * PairAction)) (c : Candidate) (q : SessionId) : Prop :=
  ∃ pre post, acts = pre ++ (q, Agree (c_revision c) (c_digest c)) :: post ∧ installs post = [].

Record history_ok (a b : SessionId) (acts : list (SessionId * PairAction)) (st : PairState)
    : Prop := mkHistory {
  ho_peer0 : peer0 st = a;
  ho_peer1 : peer1 st = b;
  ho_next : next_revision st = N.of_nat (length (installs acts)) + 1;
  ho_candidate : candidate st = candidate_of (installs acts);
  ho_agreed : ∀ q, q ∈ agreed st ↔ ∃ c, candidate st = Some c ∧ agreed_last acts c q;
}.

Lemma agreed_last_snoc acts pa c q :
  agreed_last (acts ++ [pa]) c q ↔
  artifact_in pa.2 = None ∧
  (agreed_last acts c q ∨ pa = (q, Agree (c_revision c) (c_digest c))).
Proof.
  unfold agreed_last. split.
  - intros (pre & post & Heq & Hpost). induction post as [|z post _] using rev_ind.
    + apply app_inj_tail in Heq as [-> ->]. split; [done|by right].
    + rewrite app_comm_cons, app_assoc in Heq. apply app_inj_tail in Heq as [-> <-].
      rewrite installs_app in Hpost. apply app_nil in Hpost as [Hpost Hz].
      unfold installs in Hz; cbn in Hz. destruct (artifact_in pa.2); [done|].
      split; [done|]. left. by exists pre, post.
  - intros [Hnone [(pre & post & -> & Hpost)| ->]].
    + exists pre, (post ++ [pa]). split; [by rewrite <-app_assoc|].
      rewrite installs_app, Hpost. unfold installs; cbn. by rewrite Hnone.
    + by exists acts, [].
Qed.

Lemma candidate_of_snoc arts art :
  candidate_of (arts ++ [art]) =
    Some (mkCandidate (N.of_nat (length arts) + 1) (digest_of (canonicalize art)) (canonicalize art)).
Proof.
  unfold candidate_of. rewrite last_snoc. cbn. rewrite length_app. cbn. do 2 f_equal. lia.
Qed.

Lemma history_start a b : history_ok a b [] (distinct a b).
Proof.
  split; try done. intros q. split; [by intros ?%not_elem_of_empty|]. by intros (c & Hc & _).
Qed.

Lemma history_step a b acts st p act :
  history_ok a b acts st → p = a ∨ p = b → N.of_nat (length acts) + 1 < U64_MAX →
  history_ok a b (acts ++ [(p, act)]) (fst (apply st p act)).
Proof.
  intros [H0 H1 Hn Hc Ha] Hp Hlen.
  assert (Hpeer : is_peer st p = true).
  { unfold is_peer. rewrite H0, H1. destruct Hp as [-> | ->]; rewrite N.eqb_refl; [done|apply orb_true_r]. }
  pose proof (installs_length acts) as Hle.
  unfold Converge.apply. rewrite Hpeer. cbn [negb].
  destruct (artifact_in act) as [art|] eqn:Hart.
  - assert (Hinst : fst (install digest_of st art) =
      mkPairState a b (candidate_of (installs acts ++ [art])) (next_revision st + 1) ∅).
    { unfold install. rewrite (proj2 (checked_add_Some _ 1 (next_revision st + 1))) by lia.
      cbn. rewrite candidate_of_snoc. by rewrite H0, H1, Hn. }
    assert (Hins : installs (acts ++ [(p, act)]) = installs acts ++ [art]).
    { rewrite installs_app. unfold installs at 2; cbn. by rewrite Hart. }
    assert (Hst : fst (match act with
      | Propose artifact | Revise artifact => install digest_of st artifact
      | Agree revision digest =>
          let '(st, t) := record_agreement st p revision digest in (st, Ok t)
      end) = fst (install digest_of st art)) by (destruct act; cbn in Hart; by simplify_eq).
    rewrite Hst, Hinst. split; cbn; rewrite ?Hins; try done.
    + rewrite Hn, length_app. cbn. lia.
    + intros q. split; [by intros ?%not_elem_of_empty|]. intros (c & _ & Hl).
      apply agreed_last_snoc in Hl as [Hno _]. cbn in Hno. congruence.
  - destruct act as [x|x|rev dig]; [done..|].
    assert (Hins : installs (acts ++ [(p, Agree rev dig)]) = installs acts).
    { rewrite installs_app. unfold installs at 2; cbn. by rewrite app_nil_r. }
    assert (Hlast : ∀ c q, agreed_last (acts ++ [(p, Agree rev dig)]) c q ↔
      agreed_last acts c q ∨ q = p ∧ rev = c_revision c ∧ dig = c_digest c).
    { intros c q. rewrite agreed_last_snoc. cbn. split.
      - intros [_ [?|[= -> -> ->]]]; [by left|by right].
      - intros [?|(-> & -> & ->)]; (split; [done|]); [by left|by right]. }
    unfold record_agreement. destruct (candidate st) as [c|] eqn:Hcand.
    2: { split; cbn; rewrite ?Hins; try done; [congruence|]. intros q. rewrite Ha.
         split; intros (c & Hc' & _); congruence. }
    destruct (negb (rev =? c_revision c) || negb (bool_decide (dig = c_digest c))) eqn:Hstale.
    + split; cbn; rewrite ?Hins; try done; [congruence|]. intros q. rewrite Ha.
      rewrite Hcand. split; intros (c' & [= <-] & Hl); exists c; (split; [done|]).
      * apply Hlast. by left.
      * apply Hlast in Hl as [?|(-> & -> & ->)]; [done|].
        rewrite N.eqb_refl, bool_decide_true in Hstale by done. done.
    + apply orb_false_iff in Hstale as [Hr Hd]. apply negb_false_iff in Hr, Hd.
      apply N.eqb_eq in Hr. apply bool_decide_eq_true in Hd.
      split; cbn; rewrite ?Hins; try done. intros q.
      rewrite elem_of_union, elem_of_singleton, Ha. split.
      * intros [->|(c' & [= <-] & Hl)]; exists c; (split; [done|]); apply Hlast; [by right|by left].
      * intros (c' & [= <-] & Hl). apply Hlast in Hl as [Hl|[-> _]]; [right; by exists c|by left].
Qed.

Lemma history_run a b acts :
  Forall (λ pa, pa.1 = a ∨ pa.1 = b) acts → N.of_nat (length acts) < U64_MAX →
  history_ok a b acts (run_actions (distinct a b) acts).
Proof.
  induction acts as [|[p act] acts IH] using rev_ind; intros Hp Hlen; [apply history_start|].
  rewrite run_actions_snoc. apply Forall_app in Hp as [Hp Hlast]. rewrite length_app in Hlen.
  apply history_step; [apply IH; [done|]|by apply Forall_inv in Hlast|]; cbn in Hlen; lia.
Qed.

(** ** The driver *)

Context {E : Type}.
Context (is_cancelled : E → E * bool).
Context (notify : E → SessionId → SessionId → string
                  → E * (bool * result NotifyReply EndpointError)).
Context (drive : E → SessionId → string → E * (bool * result TurnReply EndpointError)).

Abbreviation PairDriver := (PairDriver (E:=E)).
Abbreviation attempt := (attempt read_envelope digest_of is_cancelled drive).
Abbreviation deliver_candidate := (deliver_candidate is_cancelled notify).
Abbreviation run_slot := (run_slot read_envelope digest_of is_cancelled notify drive).
Abbreviation run_loop := (run_loop read_envelope digest_of is_cancelled notify drive).
Abbreviation run := (run read_envelope digest_of is_cancelled notify drive).

(** The action a call put to the shared state, if its envelope parsed. *)
Definition call_action (c : Call) : option (SessionId * PairAction) :=
  match c with
  | Drove peer _ (Ok (Produced envelope _)) =>
      match parse_action read_envelope envelope with
      | Ok a => Some (peer, a)
      | Err _ => None
      end
  | _ => None
  end.
Definition actions_of (calls : list Call) : list (SessionId * PairAction) := omap call_action calls.

Lemma actions_of_app a b : actions_of (a ++ b) = actions_of a ++ actions_of b.
Proof. apply omap_app. Qed.

Definition is_drive (p : SessionId) (c : Call) : Prop :=
  match c with Drove q _ _ => q = p | _ => False end.
Definition is_notice (from to : SessionId) (c : Call) : Prop :=
  match c with Notified f t _ _ => f = from ∧ t = to | _ => False end.

(** The calls of one slot: at most one delivery, from the other peer, and at
    most two turns, both of the scheduled peer. *)
Definition slot_calls (p o : SessionId) (calls : list Call) : Prop :=
  ∃ ns ds, calls = ns ++ ds ∧ (length ns <= 1)%nat ∧ (length ds <= 2)%nat ∧
    Forall (is_notice o p) ns ∧ Forall (is_drive p) ds.

(** What a step of the driver leaves as it was. *)
Record same_setup (d d' : PairDriver) : Prop := mkSame {
  ss_peer0 : peer0 (d_state d') = peer0 (d_state d);
  ss_peer1 : peer1 (d_state d') = peer1 (d_state d);
  ss_bounds : d_bounds d' = d_bounds d;
}.

Lemma same_setup_refl d : same_setup d d.
Proof. done. Qed.
Lemma same_setup_trans d d1 d2 : same_setup d d1 → same_setup d1 d2 → same_setup d d2.
Proof. intros [] []. split; congruence. Qed.
Lemma same_setup_peer d d' slot : same_setup d d' → peer_at d' slot = peer_at d slot.
Proof. intros []. unfold peer_at. by destruct (Nat.even slot). Qed.

Lemma apply_peers st p a :
  peer0 (fst (apply st p a)) = peer0 st ∧ peer1 (fst (apply st p a)) = peer1 st.
Proof.
  unfold Converge.apply. destruct (negb (is_peer st p)); [done|].
  destruct a as [x|x|rev dig].
  1,2: unfold install; by destruct (checked_add (next_revision st) 1).
  unfold record_agreement. destruct (candidate st); [|done].
  by destruct (_ || _).
Qed.

(** The state holds exactly what the calls so far put to it. *)
Definition in_step (a b : SessionId) (d : PairDriver) : Prop :=
  d_state d = run_actions (distinct a b) (actions_of (d_calls d)).

(** An outcome a slot can end with short of convergence. *)
Definition plain_stop (o : PairOutcome) : Prop :=
  match o with Converged _ | CapReached _ => False | _ => True end.

Lemma stop_precedence_spec d fired :
  match stop_precedence is_cancelled d fired with
  | (d', r) => d_state d' = d_state d ∧ d_calls d' = d_calls d ∧ same_setup d d' ∧
               match r with Err o => plain_stop o | Ok _ => True end
  end.
Proof.
  unfold stop_precedence. destruct (is_cancelled (d_env d)) as [e c].
  split_and!; [done..|]. by destruct c, fired.
Qed.

Lemma read_reply_plain reply o : read_reply reply = Err o → plain_stop o.
Proof. intros H. destruct reply as [[]|[]]; cbn in H; by simplify_eq. Qed.

Lemma spend_plain budget spent cost o :
  spend budget spent cost = Err o → plain_stop o.
Proof.
  unfold spend. destruct (checked_add spent cost); [destruct (_ && _)|]; intros [=]; by subst.
Qed.

Lemma deliver_candidate_spec d other peer content :
  match deliver_candidate d other peer content with
  | (d', r) =>
      d_state d' = d_state d ∧ same_setup d d' ∧
      (∃ ns, d_calls d' = d_calls d ++ ns ∧ (length ns <= 1)%nat ∧
         Forall (is_notice other peer) ns) ∧
      match r with Err o => plain_stop o | Ok _ => True end
  end.
Proof.
  unfold Converge.deliver_candidate.
  pose proof (stop_precedence_spec d false) as H1.
  destruct (stop_precedence is_cancelled d false) as [d1 [[]|o]]; destruct H1 as (Hst & Hca & Hs & Hr).
  2: { split_and!; try done. exists []. rewrite app_nil_r. split_and!; [done|simpl; lia|constructor]. }
  destruct (notify (d_env d1) other peer content) as [e [fired reply]].
  set (d2 := log_call _ _). pose proof (stop_precedence_spec d2 fired) as H2.
  assert (Hn : ∃ ns, d_calls d2 = d_calls d ++ ns ∧ (length ns <= 1)%nat ∧
    Forall (is_notice other peer) ns).
  { exists [Notified other peer content reply]. cbn. rewrite Hca. split_and!; [done|lia|].
    by repeat constructor. }
  assert (Hs2 : same_setup d d2) by (destruct Hs; split; cbn; done).
  destruct (stop_precedence is_cancelled d2 fired) as [d3 [[]|o]];
    destruct H2 as (Hst3 & Hca3 & Hs3 & Hr3); rewrite Hst3, Hca3;
    (split_and!; [done|by eapply same_setup_trans|done|]); [|done].
  destruct reply as [[]|[]]; done.
Qed.

(** One turn. *)
Lemma attempt_spec a b d slot fired spent prompt :
  in_step a b d →
  match attempt d slot fired spent prompt with
  | (d', r) =>
      same_setup d d' ∧
      (∃ ds, d_calls d' = d_calls d ++ ds ∧ (length ds <= 1)%nat ∧
         Forall (is_drive (peer_at d slot)) ds ∧
         match r with Ok _ => length ds = 1%nat | Err _ => True end) ∧
      match r with
      | Err o => plain_stop o
      | Ok (_, _, s) => in_step a b d' ∧
          match s with
          | SConverged rev => ∃ pa, last (actions_of (d_calls d')) = Some pa ∧
              ∃ st, snd (apply st pa.1 pa.2) = Ok (TConverged rev) ∧
                    fst (apply st pa.1 pa.2) = d_state d'
          | _ => True
          end
      end
  end.
Proof.
  intros Hin. unfold Converge.attempt. cbn zeta.
  pose proof (stop_precedence_spec d fired) as H1.
  destruct (stop_precedence is_cancelled d fired) as [d1 [[]|o]]; destruct H1 as (Hst & Hca & Hs & Hr).
  2: { split_and!; try done. exists []. rewrite app_nil_r. split_and!; [done|simpl; lia|constructor|done]. }
  destruct (drive (d_env d1) (peer_at d slot) prompt) as [e [fires reply]].
  set (p := peer_at d slot). set (d2 := log_call _ _).
  set (d3 := match reply with Ok (Produced envelope _) => set_raw slot envelope d2 | _ => d2 end).
  assert (H3 : d_state d3 = d_state d ∧ d_calls d3 = d_calls d ++ [Drove p prompt reply] ∧
    same_setup d d3).
  { unfold d3. destruct Hs. destruct reply as [[]|]; cbn; rewrite ?Hst, ?Hca; by split_and!. }
  destruct H3 as (Hst3 & Hca3 & Hs3).
  pose proof (stop_precedence_spec d3 (fired || fires)) as H4.
  assert (Hds : Forall (is_drive p) [Drove p prompt reply]) by by repeat constructor.
  destruct (stop_precedence is_cancelled d3 (fired || fires)) as [d4 [[]|o]];
    destruct H4 as (Hst4 & Hca4 & Hs4 & Hr4); rewrite ?Hca3 in Hca4.
  2: { split_and!; [by eapply same_setup_trans| |done]. exists [Drove p prompt reply].
       split_and!; [done|simpl; lia|done|done]. }
  assert (Hs04 : same_setup d d4) by by eapply same_setup_trans.
  destruct (read_reply reply) as [[envelope cost]|o] eqn:Hread.
  2: { split_and!; [done| |by eapply read_reply_plain].
       exists [Drove p prompt reply]. split_and!; [done|simpl; lia|done|done]. }
  destruct (spend _ spent cost) as [total|o] eqn:Hspend.
  2: { split_and!; [done| |by eapply spend_plain].
       exists [Drove p prompt reply]. split_and!; [done|simpl; lia|done|done]. }
  assert (Hreply : reply = Ok (Produced envelope cost))
    by (destruct reply as [[]|[]]; cbn in Hread; congruence).
  unfold step. destruct (parse_action read_envelope envelope) as [act|err] eqn:Hparse.
  - assert (Hacts : actions_of (d_calls d4) = actions_of (d_calls d) ++ [(p, act)]).
    { rewrite Hca4, actions_of_app. unfold actions_of at 2. cbn. by rewrite Hreply, Hparse. }
    pose proof (apply_peers (d_state d4) p act) as [Hp0 Hp1].
    destruct (apply (d_state d4) p act) as [st r] eqn:Happ. cbn [fst snd] in *.
    split_and!.
    + destruct Hs04. split; cbn; congruence.
    + exists [Drove p prompt reply]. by split_and!.
    + unfold in_step. cbn [set_state d_state d_calls]. rewrite Hacts, run_actions_snoc.
      unfold in_step in Hin. rewrite <-Hin, <-Hst3, <-Hst4. cbn. by rewrite Happ.
    + destruct r as [[]|]; try done. exists (p, act). cbn [set_state d_calls d_state fst snd].
      rewrite Hacts, last_snoc. split; [done|]. exists (d_state d4). by rewrite Happ.
  - split_and!.
    + destruct Hs04. by split.
    + exists [Drove p prompt reply]. by split_and!.
    + unfold in_step. cbn [set_state d_state d_calls]. rewrite Hca4, actions_of_app.
      unfold actions_of at 2. cbn. rewrite Hreply, Hparse, app_nil_r.
      by rewrite Hst4, Hst3.
    + done.
Qed.

(** The last action put to the state was the one that made the pair unanimous. *)
Definition just_converged (d : PairDriver) (rev : N) : Prop :=
  ∃ pa, last (actions_of (d_calls d)) = Some pa ∧
  ∃ st, snd (apply st pa.1 pa.2) = Ok (TConverged rev) ∧ fst (apply st pa.1 pa.2) = d_state d.

Lemma run_slot_spec a b d slot rounds :
  in_step a b d →
  match run_slot d slot rounds with
  | (d', (t, rounds')) =>
      same_setup d d' ∧
      (∃ s, d_calls d' = d_calls d ++ s ∧ slot_calls (peer_at d slot) (peer_at d (S slot)) s) ∧
      match t with
      | None => in_step a b d' ∧ rounds' = rounds
      | Some (Converged rev) =>
          in_step a b d' ∧ just_converged d' rev ∧ rounds' = converged_rounds slot rounds
      | Some o => plain_stop o ∧ rounds' = rounds
      end
  end.
Proof.
  intros Hin. unfold Converge.run_slot. cbn zeta.
  set (p := peer_at d slot). set (o := peer_at d (S slot)).
  set (delivered := match render_delivery <$> _ with Some _ => _ | None => _ end).
  assert (Hdel : match delivered with
    | (d', r) => d_state d' = d_state d ∧ same_setup d d' ∧
        (∃ ns, d_calls d' = d_calls d ++ ns ∧ (length ns <= 1)%nat ∧ Forall (is_notice o p) ns) ∧
        match r with Err o => plain_stop o | Ok _ => True end end).
  { unfold delivered. destruct (render_delivery <$> _); [apply deliver_candidate_spec|].
    split_and!; try done. exists []. rewrite app_nil_r. split_and!; [done|simpl; lia|constructor]. }
  destruct delivered as [d1 [fired|stop]]; destruct Hdel as (Hst1 & Hs1 & (ns & Hca1 & Hln & Hns) & Hr1).
  2: { split_and!; [done| |by destruct stop].
       exists ns. split; [done|]. exists ns, []. rewrite app_nil_r. split_and!; try done. simpl; lia. }
  assert (Hin1 : in_step a b d1).
  { unfold in_step in *. rewrite Hst1, Hin, Hca1, actions_of_app.
    assert (Hno : actions_of ns = []); [|by rewrite Hno, app_nil_r].
    unfold actions_of. clear -Hns. induction Hns as [|[] l Hc _ IH]; [done|exact IH|done]. }
  set (prompt := match render_delivery <$> _ with None => _ | Some _ => _ end).
  pose proof (attempt_spec a b d1 slot fired 0 prompt Hin1) as Ha.
  destruct (attempt d1 slot fired 0 prompt) as [d2 [[[fired2 spent] r]|stop]];
    destruct Ha as (Hs2 & (ds & Hca2 & Hld & Hds & Hok) & Hr2);
    rewrite (same_setup_peer d d1 slot Hs1) in Hds; fold p in Hds;
    pose proof (same_setup_trans _ _ _ Hs1 Hs2) as Hs02.
  2: { split_and!; [done| |by destruct stop]. exists (ns ++ ds).
       split; [by rewrite Hca2, Hca1, app_assoc|]. exists ns, ds. split_and!; try done. lia. }
  destruct Hr2 as [Hin2 Hr2].
  assert (Hone : ∃ s, d_calls d2 = d_calls d ++ s ∧ slot_calls p o s).
  { exists (ns ++ ds). split; [by rewrite Hca2, Hca1, app_assoc|]. exists ns, ds.
    split_and!; try done. lia. }
  destruct r as [rev| |detail|detail]; [by split_and!|by split_and!| |by split_and!].
  set (d3 := publish_repairing _ _ _).
  assert (Hs3 : same_setup d d3) by (destruct Hs02; by split).
  pose proof (attempt_spec a b d3 slot fired2 spent (render_repair detail) Hin2) as Ha.
  destruct (attempt d3 slot fired2 spent (render_repair detail)) as [d4 [[[fired4 spent4] r]|stop]];
    destruct Ha as (Hs4 & (ds' & Hca4 & Hld' & Hds' & _) & Hr4);
    rewrite (same_setup_peer d d3 slot Hs3) in Hds'; fold p in Hds';
    pose proof (same_setup_trans _ _ _ Hs3 Hs4) as Hs04;
    (assert (Htwo : ∃ s, d_calls d4 = d_calls d ++ s ∧ slot_calls p o s);
      [exists (ns ++ ds ++ ds');
       split; [rewrite Hca4; cbn [d3 publish_repairing publish_state d_calls];
               by rewrite Hca2, Hca1, !app_assoc|];
       exists ns, (ds ++ ds'); split_and!;
         [done|done|rewrite length_app; lia|done|by apply Forall_app]|]).
  2: { split_and!; [done..|by destruct stop]. }
  destruct Hr4 as [Hin4 Hr4]. by destruct r; split_and!.
Qed.
(** The peer of the [i]-th slot of a pair. *)
Definition turn_of (a b : SessionId) (i : nat) : SessionId := if Nat.even i then a else b.

(** Calls made slot by slot, the peers taking turns. *)
Definition alternating (a b : SessionId) (slots : list (list Call)) : Prop :=
  ∀ i s, slots !! i = Some s → slot_calls (turn_of a b i) (turn_of a b (S i)) s.

Lemma alternating_snoc a b slots s :
  alternating a b slots →
  slot_calls (turn_of a b (length slots)) (turn_of a b (S (length slots))) s →
  alternating a b (slots ++ [s]).
Proof.
  intros Halt Hs i s' Hi. apply lookup_snoc_Some in Hi as [[_ Hi]|[-> ->]]; [by apply Halt|done].
Qed.

(** The driver about to start slot [length slots]. *)
Record at_slot (a b : SessionId) (d : PairDriver) (slots : list (list Call)) : Prop := mkAt {
  as_peer0 : peer0 (d_state d) = a;
  as_peer1 : peer1 (d_state d) = b;
  as_step : in_step a b d;
  as_calls : d_calls d = concat slots;
  as_turns : alternating a b slots;
}.

(** What a finished run amounts to. *)
Definition ended (a b : SessionId) (d d' : PairDriver) (o : PairOutcome) (rounds : N) : Prop :=
  peer0 (d_state d') = a ∧ peer1 (d_state d') = b ∧ d_bounds d' = d_bounds d ∧
  ∃ slots, d_calls d' = concat slots ∧ alternating a b slots ∧
    (length slots <= 2 * N.to_nat (max_rounds (d_bounds d)))%nat ∧
    rounds <= max_rounds (d_bounds d) ∧
    match o with
    | Converged rev =>
        in_step a b d' ∧ just_converged d' rev ∧ rounds = N.of_nat (Nat.div2 (length slots))
    | CapReached n =>
        n = max_rounds (d_bounds d) ∧ rounds = n ∧ length slots = (2 * N.to_nat n)%nat
    | _ => True
    end.

(** Half of the slots, rounded down, are complete rounds. *)
Lemma rounds_step (slot : nat) :
  Nat.div2 (S slot) = if Nat.even (S slot) then S (Nat.div2 slot) else Nat.div2 slot.
Proof.
  rewrite Nat.even_succ, <-Nat.negb_even. destruct (Nat.even slot) eqn:He; cbn [negb].
  - apply Nat.even_spec in He as [k ->]. by rewrite Nat.div2_succ_double, Nat.div2_double.
  - assert (Ho : Nat.odd slot = true) by (by rewrite <-Nat.negb_even, He).
    apply Nat.odd_spec in Ho as [k ->].
    replace (S (2 * k + 1))%nat with (2 * (S k))%nat by lia.
    replace (2 * k + 1)%nat with (S (2 * k))%nat by lia.
    by rewrite Nat.div2_double, Nat.div2_succ_double.
Qed.

Lemma run_loop_spec a b fuel d slots :
  at_slot a b d slots →
  max_rounds (d_bounds d) <= U32_MAX →
  (length slots < 2 * N.to_nat (max_rounds (d_bounds d)))%nat →
  (2 * N.to_nat (max_rounds (d_bounds d)) <= fuel + length slots)%nat →
  ∃ d' o rounds,
    run_loop fuel d (length slots) (N.of_nat (Nat.div2 (length slots))) = Some (d', (o, rounds)) ∧
    ended a b d d' o rounds.
Proof.
  revert d slots. induction fuel as [|fuel IH]; intros d slots Hat Hmax Hlen Hfuel; [lia|].
  destruct Hat as [H0 H1 Hin Hca Halt]. cbn [Converge.run_loop].
  pose proof (Nat.div2_double (N.to_nat (max_rounds (d_bounds d)))) as Hdbl.
  assert (Hhalf : (Nat.div2 (length slots) < N.to_nat (max_rounds (d_bounds d)))%nat).
  { rewrite Nat.div2_div. apply Nat.Div0.div_lt_upper_bound. lia. }
  set (slot := length slots) in *. set (rounds := N.of_nat (Nat.div2 slot)).
  destruct (is_cancelled (d_env d)) as [e [|]].
  { do 3 eexists. split; [done|]. split_and!; [done..|]. exists slots.
    split_and!; [done|done|lia|unfold rounds; lia|done]. }
  pose proof (run_slot_spec a b (set_env e d) slot rounds Hin) as Hslot.
  destruct (run_slot (set_env e d) slot rounds) as [d1 [t rounds1]].
  destruct Hslot as ([Hp0 Hp1 Hb] & (s & Hca1 & Hs) & Ht). cbn in Hp0, Hp1, Hb, Hca1.
  assert (Hs' : slot_calls (turn_of a b slot) (turn_of a b (S slot)) s).
  { unfold peer_at in Hs. cbn [set_env d_state] in Hs. by rewrite H0, H1 in Hs. }
  pose proof (alternating_snoc a b slots s Halt Hs') as Halt1.
  assert (Hca1' : d_calls d1 = concat (slots ++ [s]))
    by (rewrite concat_app, Hca1, Hca; cbn; by rewrite app_nil_r).
  assert (Hlen1 : length (slots ++ [s]) = S slot) by (rewrite length_app; cbn; lia).
  pose proof (rounds_step slot) as Hstep.
  assert (Hadd : u32_add rounds 1 = rounds + 1) by (apply u32_add_small; unfold rounds; lia).
  destruct t as [o|].
  - do 3 eexists. split; [done|]. unfold ended. rewrite Hp0, Hp1, Hb, H0, H1.
    split_and!; [done..|]. exists (slots ++ [s]). rewrite Hlen1.
    assert (Hr : rounds1 <= max_rounds (d_bounds d) ∧
      match o with Converged _ => rounds1 = N.of_nat (Nat.div2 (S slot)) | _ => True end).
    { destruct o; try (destruct Ht as [_ ->]; unfold rounds; split; [lia|done]).
      destruct Ht as (_ & _ & ->). unfold converged_rounds. rewrite Hadd, Hstep.
      rewrite Nat.even_succ, <-Nat.negb_even. unfold rounds. destruct (Nat.even slot); cbn; lia. }
    destruct Hr as [Hr Hr']. split_and!; [done|done|lia|done|].
    destruct o; try done; try (by destruct Ht). destruct Ht as (? & ? & _). by split_and!.
  - destruct Ht as [Hin1 ->].
    assert (Hrounds : (if Nat.even (S slot) then u32_add rounds 1 else rounds) =
      N.of_nat (Nat.div2 (S slot))).
    { rewrite Hstep, Hadd. unfold rounds. destruct (Nat.even (S slot)); lia. }
    rewrite Hrounds. rewrite Hb. destruct (Nat.even (S slot) && _) eqn:Hcap.
    + apply andb_true_iff in Hcap as [He Hcap%N.leb_le]. rewrite He in Hstep.
      apply Nat.even_spec in He as [k Hk]. rewrite Hk, Nat.div2_double in Hcap.
      do 3 eexists. split; [done|]. unfold ended. rewrite Hp0, Hp1, Hb, H0, H1.
      split_and!; [done..|]. exists (slots ++ [s]).
      rewrite Hlen1, Hk, Nat.div2_double. split_and!; [done|done|lia|lia|lia|done|lia].
    + assert (Hlt : (S slot < 2 * N.to_nat (max_rounds (d_bounds d)))%nat).
      { destruct (decide (S slot = (2 * N.to_nat (max_rounds (d_bounds d)))%nat)) as [Heq|]; [|lia].
        rewrite Heq, Nat.even_mul, Hdbl in Hcap. cbn in Hcap. apply N.leb_gt in Hcap. lia. }
      set (d2 := publish _ _ d1). rewrite <-Hlen1.
      assert (Hat2 : at_slot a b d2 (slots ++ [s]))
        by (split; [exact (eq_trans Hp0 H0)|exact (eq_trans Hp1 H1)|exact Hin1|exact Hca1'|done]).
      destruct (IH d2 (slots ++ [s]) Hat2) as (d' & o & r & Hrun & He0 & He1 & Heb & Hrest);
        [cbn; rewrite Hb; lia..|].
      exists d', o, r. split; [done|]. cbn in Heb. split_and!; [done|done|congruence|].
      cbn in Hrest. by rewrite Hb in Hrest.
Qed.
Lemma new_at_start a b task bounds env d :
  PairDriver_new a b task bounds env = Ok d →
  at_slot a b d [] ∧ d_bounds d = bounds ∧ 0 < max_rounds bounds ∧ a ≠ b.
Proof.
  unfold PairDriver_new. destruct (max_rounds bounds =? 0) eqn:Hm; [done|].
  destruct (slot_timeout bounds =? 0); [done|]. destruct (a =? b) eqn:Hab; [done|].
  intros [= <-]. apply N.eqb_neq in Hm, Hab. split_and!; [|done|lia|done].
  by split.
Qed.

Lemma run_spec a b task bounds env d0 :
  PairDriver_new a b task bounds env = Ok d0 → max_rounds bounds <= U32_MAX →
  ∃ d' r, run d0 = Some (d', r) ∧ ended a b d0 d' (outcome r) (completed_rounds r) ∧
    report_peers r = (a, b) ∧ report_candidate r = candidate (d_state d').
Proof.
  intros (Hat & Hb & Hpos & _)%new_at_start Hmax.
  destruct (run_loop_spec a b (run_fuel (d_bounds d0)) d0 [] Hat) as (d1 & o & rounds & Hrun & Hend);
    [by rewrite Hb|cbn; rewrite Hb; lia|unfold run_fuel; cbn; lia|].
  unfold Converge.run. cbn [Nat.div2 length] in Hrun. change (N.of_nat 0) with 0 in Hrun. rewrite Hrun. cbn [mbind option_bind].
  do 2 eexists. split; [done|]. destruct Hend as (H0 & H1 & Hb1 & Hslots).
  cbn [outcome completed_rounds report_peers report_candidate publish publish_state d_state].
  rewrite H0, H1. unfold latest_rounds. cbn [publish publish_state d_progress].
  rewrite last_snoc. cbn. by split_and!.
Qed.

(** ** Where the actions of a run come from *)

Lemma slot_calls_length p o s : slot_calls p o s → (length s <= 3)%nat.
Proof. intros (ns & ds & -> & Hn & Hd & _). rewrite length_app. lia. Qed.

Lemma slot_calls_actors p o s : slot_calls p o s → Forall (λ pa, pa.1 = p) (actions_of s).
Proof.
  intros (ns & ds & -> & _ & _ & Hns & Hds). rewrite actions_of_app. apply Forall_app. split.
  - induction Hns as [|[] l Hc _ IH]; [constructor|exact IH|done].
  - induction Hds as [|c l Hc _ IH]; [constructor|]. unfold actions_of; csimpl. fold (actions_of l).
    destruct (call_action c) as [[q act]|] eqn:Ha; [|done]. constructor; [|done].
    destruct c as [|q' pr [[env cost| | | |]|]]; cbn in *; try done.
    destruct (parse_action read_envelope env); by simplify_eq.
Qed.

Lemma alternating_actors a b slots :
  alternating a b slots → Forall (λ pa, pa.1 = a ∨ pa.1 = b) (actions_of (concat slots)).
Proof.
  induction slots as [|s slots IH] using rev_ind; intros Halt; [constructor|].
  rewrite concat_app, actions_of_app. apply Forall_app. split.
  - apply IH. intros i s' Hi. apply Halt. by apply lookup_app_l_Some.
  - cbn. rewrite app_nil_r. specialize (Halt (length slots) s).
    rewrite lookup_app_r, Nat.sub_diag in Halt by lia.
    eapply Forall_impl; [eapply slot_calls_actors; by apply Halt|]. intros pa ->.
    unfold turn_of. destruct (Nat.even _); auto.
Qed.

Lemma alternating_length a b slots :
  alternating a b slots → (length (actions_of (concat slots)) <= 3 * length slots)%nat.
Proof.
  intros Halt. transitivity (length (concat slots)).
  { unfold actions_of. induction (concat slots) as [|c l IH]; [done|]. csimpl.
    destruct (call_action c); simpl; lia. }
  assert (Hall : Forall (λ s, length s <= 3)%nat slots).
  { apply Forall_lookup. intros i s Hi. by eapply slot_calls_length, Halt. }
  clear Halt. induction Hall as [|s l Hs _ IH]; [done|]. cbn. rewrite length_app. lia.
Qed.

(** A unanimous pair: both peers hold the candidate of the revision. *)
Lemma converged_state st p act rev st' :
  apply st p act = (st', Ok (TConverged rev)) →
  ∃ c, candidate st' = Some c ∧ c_revision c = rev ∧ peer0 st' ∈ agreed st' ∧ peer1 st' ∈ agreed st'.
Proof.
  unfold Converge.apply. destruct (negb (is_peer st p)); [done|].
  destruct act as [x|x|r dig].
  1,2: unfold install; by destruct (checked_add (next_revision st) 1).
  unfold record_agreement. destruct (candidate st) as [c|]; [|done].
  destruct (negb (r =? c_revision c) || _) eqn:Hstale; [done|].
  apply orb_false_iff in Hstale as [Hr%negb_false_iff%N.eqb_eq _].
  destruct (bool_decide _ && bool_decide _) eqn:Hboth; [|done].
  apply andb_true_iff in Hboth as [Hp0%bool_decide_eq_true Hp1%bool_decide_eq_true].
  intros [= <- <-]. exists c. by split_and!.
Qed.

(** C27. A pair that reports convergence has really agreed: the reported
    candidate is the last artifact put forward in the run, canonicalised, with
    its digest and with the revision that counts the artifacts before it; each
    of the two distinct peers named that revision and that digest in a turn of
    its own; and nothing was put forward after either agreement.  This holds
    whatever the endpoints, the JSON reader, the digest and the cancellation
    token do. *)
Theorem pair_converges_soundly a b task bounds env d0 d r rev :
  max_rounds bounds <= U32_MAX →
  PairDriver_new a b task bounds env = Ok d0 →
  run d0 = Some (d, r) →
  outcome r = Converged rev →
  let acts := actions_of (d_calls d) in
  ∃ c, report_candidate r = Some c ∧ c_revision c = rev ∧
    candidate_of (installs acts) = Some c ∧
    a ≠ b ∧ agreed_last acts c a ∧ agreed_last acts c b.
Proof.
  intros Hmax Hnew Hrun Hout acts.
  destruct (run_spec _ _ _ _ _ _ Hnew Hmax) as (d' & r' & Hrun' & Hend & _ & Hcand).
  assert (d' = d ∧ r' = r) as [-> ->] by (split; congruence).
  destruct Hend as (H0 & H1 & _ & slots & Hcalls & Halt & Hlen & _ & Hconv).
  rewrite Hout in Hconv. destruct Hconv as (Hin & (pa & _ & st & Hsnd & Hfst) & _).
  apply new_at_start in Hnew as (_ & Hb & _ & Hab). rewrite Hb in Hlen.
  destruct (converged_state st pa.1 pa.2 rev (d_state d)) as (c & Hc & Hrev & Ha0 & Ha1).
  { rewrite <-Hsnd, <-Hfst. apply surjective_pairing. }
  assert (Hok : history_ok a b acts (d_state d)).
  { unfold in_step in Hin. fold acts in Hin. rewrite Hin. apply history_run.
    - unfold acts. rewrite Hcalls. by apply alternating_actors.
    - unfold acts. rewrite Hcalls. pose proof (alternating_length _ _ _ Halt).
      unfold U32_MAX in Hmax. unfold U64_MAX. lia. }
  rewrite H0 in Ha0. rewrite H1 in Ha1. destruct Hok as [_ _ _ Hcandok Hag].
  exists c. split_and!; [congruence|done|congruence|done| |].
  - apply Hag in Ha0 as (c' & Hc' & Hl). congruence.
  - apply Hag in Ha1 as (c' & Hc' & Hl). congruence.
Qed.

(** Every run of a pair ends, whatever its endpoints answer, within two
    slots a round: the endpoint calls split into slots in which the peers take
    strict turns, each slot at most one delivery to its peer and at most two
    turns of it; the completed rounds never pass the cap; a pair stopped by the
    cap used all its slots and reports exactly the cap; a converged pair
    reports the rounds both peers had finished. *)
Theorem run_is_bounded a b task bounds env d0 :
  max_rounds bounds <= U32_MAX →
  PairDriver_new a b task bounds env = Ok d0 →
  ∃ d r slots, run d0 = Some (d, r) ∧
    report_peers r = (a, b) ∧
    d_calls d = concat slots ∧ alternating a b slots ∧
    (length slots <= 2 * N.to_nat (max_rounds bounds))%nat ∧
    completed_rounds r <= max_rounds bounds ∧
    match outcome r with
    | Converged _ => completed_rounds r = N.of_nat (Nat.div2 (length slots))
    | CapReached n =>
        n = max_rounds bounds ∧ completed_rounds r = n ∧ length slots = (2 * N.to_nat n)%nat
    | _ => True
    end.
Proof.
  intros Hmax Hnew.
  destruct (run_spec _ _ _ _ _ _ Hnew Hmax) as (d & r & Hrun & Hend & Hpeers & _).
  apply new_at_start in Hnew as (_ & Hb & _).
  destruct Hend as (_ & _ & _ & slots & Hcalls & Halt & Hlen & Hr & Hout). rewrite Hb in *.
  exists d, r, slots. split_and!; try done. destruct (outcome r); try done. by destruct Hout as (_ & _ & ?).
Qed.
End protocol.

(** ** A scripted pair: the first peer proposes, the second agrees, and the
    first, repaired once, agrees too *)

(** Envelopes and digests by example: the model only ever compares them. *)
Definition read_by_script (s : string) : result Envelope string :=
  if bool_decide (s = "P") then Ok (mkEnvelope 1 (Propose "draft"))
  else if bool_decide (s = "A") then Ok (mkEnvelope 1 (Agree 1 "5"))
  else Err "expected value at line 1 column 1".
Definition length_digest (s : string) : string := show_N (N.of_nat (String.length s)).

Definition never_cancelled (e : list string) : list string * bool := (e, false).
Definition always_delivered (e : list string) (from to : SessionId) (content : string)
    : list string * (bool * result NotifyReply EndpointError) := (e, (false, Ok Delivered)).
Definition next_line (e : list string) (peer : SessionId) (prompt : string)
    : list string * (bool * result TurnReply EndpointError) :=
  match e with
  | s :: e => (e, (false, Ok (Produced s 1)))
  | [] => ([], (false, Ok TNoProgress))
  end.

Definition script_bounds : PairBounds := mkBounds 3 60 100.
Definition script_start : PairDriver (E:=list string) :=
  mkDriver (distinct 7 9) "write it" script_bounds
    [mkProgress 0 3 (Some 7) None ((7, false), (9, false)) None] (None, None) []
    ["P"; "A"; "what?"; "A"].
#[local] Abbreviation script_run :=
  (run read_by_script length_digest never_cancelled always_delivered next_line script_start).

Lemma pair_converges_soundly_witness :
  ∃ d r, script_run = Some (d, r) ∧ length (d_calls d) = 6%nat ∧ completed_rounds r = 1 ∧
  ∃ c, report_candidate r = Some c ∧ c_revision c = 1 ∧
    candidate_of length_digest (installs (actions_of read_by_script (d_calls d))) = Some c ∧
    7 ≠ 9 ∧ agreed_last (actions_of read_by_script (d_calls d)) c 7
    ∧ agreed_last (actions_of read_by_script (d_calls d)) c 9.
Proof.
  assert (Hrun : ∃ d r, script_run = Some (d, r) ∧ length (d_calls d) = 6%nat ∧
    completed_rounds r = 1 ∧ outcome r = Converged 1).
  { do 2 eexists. split; [vm_compute; reflexivity|]. split; [reflexivity|]. split; reflexivity. }
  destruct Hrun as (d & r & Hrun & Hc & Hr & Ho). exists d, r. split; [exact Hrun|].
  split; [exact Hc|]. split; [exact Hr|].
  apply (pair_converges_soundly read_by_script length_digest never_cancelled always_delivered
    next_line 7 9 "write it" script_bounds ["P"; "A"; "what?"; "A"] script_start d r 1);
    [vm_compute; discriminate|reflexivity|exact Hrun|exact Ho].
Defined.

Lemma run_is_bounded_witness :
  ∃ d r slots, script_run = Some (d, r) ∧
    report_peers r = (7, 9) ∧
    d_calls d = concat slots ∧ alternating 7 9 slots ∧
    (length slots <= 2 * N.to_nat (max_rounds script_bounds))%nat ∧
    completed_rounds r <= max_rounds script_bounds ∧
    match outcome r with
    | Converged _ => completed_rounds r = N.of_nat (Nat.div2 (length slots))
    | CapReached n =>
        n = max_rounds script_bounds ∧ completed_rounds r = n ∧ length slots = (2 * N.to_nat n)%nat
    | _ => True
    end.
Proof.
  apply (run_is_bounded read_by_script length_digest never_cancelled always_delivered
    next_line 7 9 "write it" script_bounds ["P"; "A"; "what?"; "A"] script_start);
    [vm_compute; discriminate|reflexivity].
Defined.
