(* ===== verification/Ownership.v ===== *)
(** * Session ownership (crates/localpilot-store/src/ownership.rs, error.rs,
    [session_write] of lib.rs)

    A session is run by at most one runtime.  The machine below is everything
    that can decide that: the operating-system locks on the lock files, the
    owner records beside them, the leases and lease tables of the store handles,
    the claims and the writes in progress, of any number of processes.  A write
    takes three steps - finding its authority, entering it, finishing - so
    claims, releases, crashes and other writes may fall between them.  An
    operation that would wait for a mutex answers [None].

    [serde_json] is a parameter; a rename that fails leaves its target alone
    (atomic.rs), so a publication either happens or changes nothing. *)

From stdpp Require Import base gmap list strings numbers.
From S2P Require Import Prelude RustStr.
#[local] Open Scope N_scope.

Abbreviation SessionId := N.
Abbreviation HandleId := N.   (* a store handle with its clones: one lease table *)
Abbreviation LeaseId := N.
Abbreviation ClaimId := N.
Abbreviation WriterId := N.

(** ** Records *)

Inductive HolderKind := Tui | Server | Other.

Record Holder := mkHolder { instance : string; pid : N; holder_kind : HolderKind }.

Inductive TransferState := Released | Committed.

Record TransferRecord := mkTransfer {
  tr_id : string;
  tr_state : TransferState;
  tr_tail : option N;            (* EventId *)
  tr_manifest_digest : string;
}.

Record OwnerRecord := mkOwnerRecord {
  or_v : N;                      (* u32 *)
  generation : N;                (* u64 *)
  or_holder : Holder;
  transfer : option TransferRecord;
}.

Definition OWNER_RECORD_VERSION : N := 1.

Inductive StoreError :=
  | Io (path : string)
  | Serde (why : string)
  | InvalidKey (key : list N)      (* a text, as its characters *)
  | InvalidName (name : list N)
  | NameTaken (name : list N) (existing : SessionId)
  | UnsupportedFormat (found supported : N)
  | NoUserDir
  | SessionBusy (session : SessionId) (busy_holder : option Holder)
  | OwnershipLost (session : SessionId).

(** [{..record, transfer: Some({state, ..transfer})}]. *)
Definition with_transfer (r : OwnerRecord) (st : TransferState) (t : TransferRecord)
    : OwnerRecord :=
  mkOwnerRecord (or_v r) (generation r) (or_holder r)
    (Some (mkTransfer (tr_id t) st (tr_tail t) (tr_manifest_digest t))).

(** ** The machine *)

(** Who holds the operating-system lock of a session. *)
Inductive LockHolder := ByClaim (c : ClaimId) | ByWriter (i : WriterId) | ByMaintenance (m : N).
#[export] Instance LockHolder_eq_dec : EqDecision LockHolder.
Proof. solve_decision. Defined.

(** The flag of a lease, and the write that holds its mutex. *)
Record Lease := mkLease { live : bool; entered : option WriterId }.

Record SessionClaim := mkClaim {
  c_session : SessionId;
  c_handle : HandleId;           (* whose table *)
  c_lease : LeaseId;
  c_previous : option OwnerRecord;
  c_record : OwnerRecord;
}.

(** A session-owned write: the authority it found, and whether it runs. *)
Record Writer := mkWriter {
  wr_handle : HandleId;
  wr_session : SessionId;
  wr_auth : option LeaseId;
  wr_line : string;
  running : bool;
}.

Record Machine := mkMachine {
  locks : gmap SessionId LockHolder;
  records : gmap SessionId string;
  leases : gmap LeaseId Lease;
  table : gmap (HandleId * SessionId) LeaseId;
  claims : gmap ClaimId SessionClaim;
  writers : gmap WriterId Writer;
  held : gmap N SessionId;
  next : N;
  written : gmap SessionId (list string);
}.

Definition boot : Machine := mkMachine ∅ ∅ ∅ ∅ ∅ ∅ ∅ 0 ∅.

(** What the operating system lets an operation do: create the directory and
    open the lock file, read the record, publish one. *)
Record Disk := mkDisk { can_lock : bool; can_read : bool; can_publish : bool }.
Definition healthy : Disk := mkDisk true true true.

Section store.
(** [serde_json]: the whole value, of which the [v] field and the record; and
    the pretty printer. *)
Context (read_value : string → option (option N * option OwnerRecord)).
Context (print_record : OwnerRecord → string).

Definition read_record (m : Machine) (d : Disk) (s : SessionId)
    : result (option OwnerRecord) StoreError :=
  match records m !! s with
  | None => Ok None
  | Some body =>
      if negb (can_read d) then Err (Io "record")
      else match read_value body with
      | None => Err (Serde "record")
      | Some (version, record) =>
          if negb (bool_decide (version = Some OWNER_RECORD_VERSION))
          then Err (UnsupportedFormat (default 0 version) OWNER_RECORD_VERSION)
          else match record with Some r => Ok (Some r) | None => Err (Serde "record") end
      end
  end.

(** The holder named in a refusal: [read_record(..).ok().flatten()]. *)
Definition named_holder (m : Machine) (d : Disk) (s : SessionId) : option Holder :=
  match read_record m d s with Ok (Some r) => Some (or_holder r) | _ => None end.

Definition set_record (s : SessionId) (r : OwnerRecord) (m : Machine) : Machine :=
  mkMachine (locks m) (<[s := print_record r]> (records m)) (leases m) (table m) (claims m)
    (writers m) (held m) (next m) (written m).

Definition publish_record (m : Machine) (d : Disk) (s : SessionId) (r : OwnerRecord)
    : Machine * result unit StoreError :=
  if can_publish d then (set_record s r m, Ok tt) else (m, Err (Io "record")).

(** ** Claims *)

(** One attempt of [SessionClaim::take]; the lock taken on the way is let go
    again on every early return. *)
Definition claim_take (m : Machine) (d : Disk) (h : HandleId) (s : SessionId) (who : Holder)
    : Machine * result ClaimId StoreError :=
  if negb (can_lock d) then (m, Err (Io "lock"))
  else match locks m !! s with
  | Some _ => (m, Err (SessionBusy s (named_holder m d s)))
  | None =>
      let! previous := read_record m d s or m in
      let generation := u64_sat_add (match previous with Some r => generation r | None => 0 end) 1 in
      let record := mkOwnerRecord OWNER_RECORD_VERSION generation who None in
      match publish_record m d s record with
      | (m, Err e) => (m, Err e)
      | (m, Ok _) =>
          let l := next m in
          let c := next m + 1 in
          (mkMachine (<[s := ByClaim c]> (locks m)) (records m)
             (<[l := mkLease true None]> (leases m)) (<[(h, s) := l]> (table m))
             (<[c := mkClaim s h l previous record]> (claims m))
             (writers m) (held m) (next m + 2) (written m),
           Ok c)
      end
  end.

Definition set_claim (c : ClaimId) (cl : SessionClaim) (m : Machine) : Machine :=
  mkMachine (locks m) (records m) (leases m) (table m) (<[c := cl]> (claims m)) (writers m)
    (held m) (next m) (written m).

Definition commit_transfer (m : Machine) (d : Disk) (c : ClaimId) (cl : SessionClaim)
    (t : TransferRecord) : Machine * result unit StoreError :=
  let record := with_transfer (c_record cl) Committed t in
  match publish_record m d (c_session cl) record with
  | (m, Err e) => (m, Err e)
  | (m, Ok _) =>
      (set_claim c (mkClaim (c_session cl) (c_handle cl) (c_lease cl) (c_previous cl) record) m,
       Ok tt)
  end.

(** The claim's value is gone, its lock is free and its lease is dead. *)
Definition let_go (c : ClaimId) (cl : SessionClaim) (m : Machine) : Machine :=
  mkMachine (delete (c_session cl) (locks m)) (records m)
    (<[c_lease cl := mkLease false None]> (leases m)) (table m) (delete c (claims m))
    (writers m) (held m) (next m) (written m).

(** The mutex of a lease, waited for. *)
Definition mutex_free (m : Machine) (l : LeaseId) : bool :=
  match leases m !! l with Some le => bool_decide (entered le = None) | None => false end.

(** [SessionClaim::release]: a failed publication gives the claim back. *)
Definition claim_release (m : Machine) (d : Disk) (c : ClaimId) (cl : SessionClaim)
    (t : TransferRecord) : option (Machine * result unit StoreError) :=
  if negb (mutex_free m (c_lease cl)) then None
  else
    match publish_record m d (c_session cl) (with_transfer (c_record cl) Released t) with
    | (m, Err e) => Some (m, Err e)
    | (m, Ok _) => Some (let_go c cl m, Ok tt)
    end.

Definition forget_lease (h : HandleId) (s : SessionId) (l : LeaseId) (m : Machine) : Machine :=
  mkMachine (locks m) (records m) (leases m)
    (if bool_decide (table m !! (h, s) = Some l) then delete (h, s) (table m) else table m)
    (claims m) (writers m) (held m) (next m) (written m).

(** [Drop for SessionClaim] of a claim that was not released. *)
Definition claim_drop (m : Machine) (c : ClaimId) (cl : SessionClaim) : option Machine :=
  if negb (mutex_free m (c_lease cl)) then None
  else Some (let_go c cl (forget_lease (c_handle cl) (c_session cl) (c_lease cl) m)).

(** ** Writes ([session_write]) *)

Definition set_writer (i : WriterId) (wr : Writer) (m : Machine) : Machine :=
  mkMachine (locks m) (records m) (leases m) (table m) (claims m) (<[i := wr]> (writers m))
    (held m) (next m) (written m).
Definition drop_writer (i : WriterId) (m : Machine) : Machine :=
  mkMachine (locks m) (records m) (leases m) (table m) (claims m) (delete i (writers m))
    (held m) (next m) (written m).
Definition set_lease (l : LeaseId) (le : Lease) (m : Machine) : Machine :=
  mkMachine (locks m) (records m) (<[l := le]> (leases m)) (table m) (claims m) (writers m)
    (held m) (next m) (written m).
Definition set_locks (ls : gmap SessionId LockHolder) (m : Machine) : Machine :=
  mkMachine ls (records m) (leases m) (table m) (claims m) (writers m) (held m) (next m)
    (written m).

(** [lease_in]: the handle's lease for the session, if it has one. *)
Definition lease_in (m : Machine) (h : HandleId) (s : SessionId) : option LeaseId :=
  table m !! (h, s).

(** A write looks its authority up. *)
Definition write_start (m : Machine) (h : HandleId) (s : SessionId) (line : string)
    : Machine * WriterId :=
  let i := next m in
  (mkMachine (locks m) (records m) (leases m) (table m) (claims m)
     (<[i := mkWriter h s (lease_in m h s) line false]> (writers m)) (held m) (next m + 1)
     (written m), i).

Definition started (wr : Writer) : Writer :=
  mkWriter (wr_handle wr) (wr_session wr) (wr_auth wr) (wr_line wr) true.

(** [Lease::guarded], up to the write itself. *)
Definition guarded (m : Machine) (i : WriterId) (wr : Writer) (l : LeaseId)
    : option (Machine * result unit StoreError) :=
  le ← leases m !! l;
  match entered le with
  | Some _ => None
  | None =>
      if negb (live le) then Some (drop_writer i m, Err (OwnershipLost (wr_session wr)))
      else Some (set_writer i (started wr) (set_lease l (mkLease true (Some i)) m), Ok tt)
  end.

(** [with_session_lock], up to the write itself. *)
Definition with_session_lock (m : Machine) (d : Disk) (i : WriterId) (wr : Writer)
    : Machine * result unit StoreError :=
  let s := wr_session wr in
  if negb (can_lock d) then (drop_writer i m, Err (Io "lock"))
  else match locks m !! s with
  | Some _ => (drop_writer i m, Err (SessionBusy s (named_holder m d s)))
  | None => (set_writer i (started wr) (set_locks (<[s := ByWriter i]> (locks m)) m), Ok tt)
  end.

(** The write enters its authority. *)
Definition write_enter (m : Machine) (d : Disk) (i : WriterId) (wr : Writer)
    : option (Machine * result unit StoreError) :=
  match wr_auth wr with
  | Some l => guarded m i wr l
  | None => Some (with_session_lock m d i wr)
  end.

(** The write is over: [done] tells whether it reached the file. *)
Definition write_finish (m : Machine) (i : WriterId) (wr : Writer) (done : bool) : Machine :=
  let s := wr_session wr in
  let m := match wr_auth wr with
           | Some l => set_lease l (mkLease true None) m
           | None => set_locks (delete s (locks m)) m
           end in
  let m := drop_writer i m in
  mkMachine (locks m) (records m) (leases m) (table m) (claims m) (writers m) (held m) (next m)
    (if done then <[s := default [] (written m !! s) ++ [wr_line wr]]> (written m)
     else written m).

(** ** Maintenance and crashes *)

(** [hold_session]; [None] when another owner holds the lock. *)
Definition hold_session (m : Machine) (s : SessionId) : Machine * option N :=
  match locks m !! s with
  | Some _ => (m, None)
  | None =>
      (mkMachine (<[s := ByMaintenance (next m)]> (locks m)) (records m) (leases m) (table m)
         (claims m) (writers m) (<[next m := s]> (held m)) (next m + 1) (written m),
       Some (next m))
  end.

(** The lock of maintenance is dropped; [removed] tells whether the session and
    its owner record were pruned under it. *)
Definition unhold_session (m : Machine) (k : N) (s : SessionId) (removed : bool) : Machine :=
  mkMachine (delete s (locks m)) (if removed then delete s (records m) else records m) (leases m)
    (table m) (claims m) (writers m) (delete k (held m)) (next m)
    (if removed then delete s (written m) else written m).

(** The claims and the writes of a handle. *)
Definition of_handle_claim (m : Machine) (h : HandleId) (c : ClaimId) : bool :=
  match claims m !! c with Some cl => c_handle cl =? h | None => false end.
Definition of_handle_writer (m : Machine) (h : HandleId) (i : WriterId) : bool :=
  match writers m !! i with Some wr => wr_handle wr =? h | None => false end.
Definition lock_survives (m : Machine) (h : HandleId) (o : LockHolder) : bool :=
  match o with
  | ByClaim c => negb (of_handle_claim m h c)
  | ByWriter i => negb (of_handle_writer m h i)
  | ByMaintenance _ => true
  end.
Definition lease_survives (m : Machine) (h : HandleId) (l : LeaseId) : bool :=
  negb (existsb (λ cl, (c_handle cl =? h) && (c_lease cl =? l)) (map_to_list (claims m)).*2).

(** The process of a handle ends: the operating system frees its locks. *)
Definition crash (m : Machine) (h : HandleId) : Machine :=
  mkMachine (filter (λ kv, lock_survives m h kv.2 = true) (locks m)) (records m)
    (filter (λ kv, lease_survives m h kv.1 = true) (leases m))
    (filter (λ kv, kv.1.1 ≠ h) (table m))
    (filter (λ kv, c_handle kv.2 ≠ h) (claims m))
    (filter (λ kv, wr_handle kv.2 ≠ h) (writers m)) (held m) (next m) (written m).

(** ** Histories *)

Inductive op :=
  | Take (d : Disk) (h : HandleId) (s : SessionId) (who : Holder)
  | Commit (d : Disk) (c : ClaimId) (t : TransferRecord)
  | Release (d : Disk) (c : ClaimId) (t : TransferRecord)
  | DropClaim (c : ClaimId)
  | WriteStart (h : HandleId) (s : SessionId) (line : string)
  | WriteEnter (d : Disk) (i : WriterId)
  | WriteFinish (i : WriterId) (done : bool)
  | Hold (s : SessionId)
  | Unhold (k : N) (removed : bool)
  | Crash (h : HandleId).

(** One operation; one that names a value that is not there, or that has to
    wait, changes nothing. *)
Definition run_op (m : Machine) (o : op) : Machine :=
  match o with
  | Take d h s who => fst (claim_take m d h s who)
  | Commit d c t =>
      match claims m !! c with Some cl => fst (commit_transfer m d c cl t) | None => m end
  | Release d c t =>
      match claims m !! c with
      | Some cl => match claim_release m d c cl t with Some (m, _) => m | None => m end
      | None => m
      end
  | DropClaim c =>
      match claims m !! c with Some cl => default m (claim_drop m c cl) | None => m end
  | WriteStart h s line => fst (write_start m h s line)
  | WriteEnter d i =>
      match writers m !! i with
      | Some wr =>
          if running wr then m
          else match write_enter m d i wr with Some (m, _) => m | None => m end
      | None => m
      end
  | WriteFinish i done =>
      match writers m !! i with
      | Some wr => if running wr then write_finish m i wr done else m
      | None => m
      end
  | Hold s => fst (hold_session m s)
  | Unhold k removed =>
      match held m !! k with Some s => unhold_session m k s removed | None => m end
  | Crash h => crash m h
  end.

Definition run_ops (m : Machine) (ops : list op) : Machine := fold_left run_op ops m.
End store.
