(* ===== verification/OwnershipInv.v ===== *)
(** * The coherence of the ownership machine

    What every reachable machine satisfies - locks, claims, leases, lease tables
    and running writes agree - and that every operation keeps it so. *)

From stdpp Require Import base gmap list strings numbers.
From S2P Require Import Prelude RustStr Ownership.
#[local] Open Scope N_scope.

Section store.
Context (read_value : string → option (option N * option OwnerRecord)).
Context (print_record : OwnerRecord → string).

Abbreviation run_op := (Ownership.run_op read_value print_record).
Abbreviation run_ops := (Ownership.run_ops read_value print_record).
Abbreviation claim_take := (Ownership.claim_take read_value print_record).
Abbreviation write_enter := (Ownership.write_enter read_value).

(** ** The invariant

    [og] tells for which handle and session each lease was armed. *)
Record coherent (og : gmap LeaseId (HandleId * SessionId)) (m : Machine) : Prop := mkCoherent {
  co_lock_claim : ∀ s c, locks m !! s = Some (ByClaim c) ↔
    ∃ cl, claims m !! c = Some cl ∧ c_session cl = s;
  co_lock_writer : ∀ s i, locks m !! s = Some (ByWriter i) ↔
    ∃ wr, writers m !! i = Some wr ∧ running wr = true ∧ wr_auth wr = None ∧ wr_session wr = s;
  co_lock_held : ∀ s k, locks m !! s = Some (ByMaintenance k) ↔ held m !! k = Some s;
  co_claim : ∀ c cl, claims m !! c = Some cl →
    table m !! (c_handle cl, c_session cl) = Some (c_lease cl) ∧
    og !! c_lease cl = Some (c_handle cl, c_session cl) ∧
    ∃ e, leases m !! c_lease cl = Some (mkLease true e);
  co_live : ∀ l e, leases m !! l = Some (mkLease true e) →
    ∃ c cl, claims m !! c = Some cl ∧ c_lease cl = l;
  co_table : ∀ h s l, table m !! (h, s) = Some l →
    og !! l = Some (h, s) ∧ is_Some (leases m !! l);
  co_auth : ∀ i wr l, writers m !! i = Some wr → wr_auth wr = Some l →
    og !! l = Some (wr_handle wr, wr_session wr) ∧ is_Some (leases m !! l);
  co_entered : ∀ l b i, leases m !! l = Some (mkLease b (Some i)) →
    b = true ∧ ∃ wr, writers m !! i = Some wr ∧ running wr = true ∧ wr_auth wr = Some l;
  co_running : ∀ i wr l, writers m !! i = Some wr → running wr = true → wr_auth wr = Some l →
    ∃ b, leases m !! l = Some (mkLease b (Some i));
  co_fresh : ∀ k, next m <= k →
    leases m !! k = None ∧ claims m !! k = None ∧ writers m !! k = None ∧ held m !! k = None ∧
    og !! k = None;
}.

Definition ok (m : Machine) : Prop := ∃ og, coherent og m.

Lemma boot_ok : ok boot.
Proof.
  exists ∅. split; cbn; try (intros; by rewrite ?lookup_empty in *; simplify_eq).
  all: try (intros; rewrite lookup_empty; split; [done|naive_solver]).
  all: intros; rewrite ?lookup_empty; naive_solver.
Qed.

(** Case analysis on a lookup in a map an operation has just updated. *)
Ltac upd H :=
  first
  [ apply lookup_insert_Some in H as [[<- Hupd]|[Hne H]]; [simplify_eq/=|]
  | apply lookup_delete_Some in H as [Hne H] ].

(** Only what the files hold changed. *)
Lemma coherent_files og m rs ws :
  coherent og m →
  coherent og (mkMachine (locks m) rs (leases m) (table m) (claims m) (writers m) (held m)
                 (next m) ws).
Proof. intros []. by split. Qed.

Lemma publish_ok m d s r : ok m → ok (fst (publish_record print_record m d s r)).
Proof.
  intros [og H]. unfold publish_record. destruct (can_publish d); [|by exists og].
  exists og. by apply (coherent_files og m).
Qed.

Lemma take_ok m d h s who : ok m → ok (fst (claim_take m d h s who)).
Proof.
  intros Hok. unfold Ownership.claim_take. destruct (negb (can_lock d)); [done|].
  destruct (locks m !! s) as [|] eqn:Hl; [done|].
  destruct (read_record read_value m d s) as [prev|]; [|done].
  set (r := mkOwnerRecord _ _ _ _).
  assert (Hp : ∃ rs b, publish_record print_record m d s r =
    (mkMachine (locks m) rs (leases m) (table m) (claims m) (writers m) (held m)
                 (next m) (written m), b)).
  { unfold publish_record, set_record. destruct (can_publish d); [by do 2 eexists|].
    exists (records m), (Err (Io "record")). by destruct m. }
  destruct Hp as (rs & [[]|e] & ->); cbn [fst locks records leases table claims writers held next written].
  2: { destruct Hok as [og H]. exists og. by apply (coherent_files og m). }
  destruct Hok as [og []]. exists (<[next m := (h, s)]> og).
  assert (Hn0 : next m + 1 ≠ next m) by lia.
  destruct (co_fresh0 (next m)) as (Hf1 & Hf2 & _ & _ & Hf5); [lia|].
  destruct (co_fresh0 (next m + 1)) as (_ & Hf2' & _); [lia|].
  split; cbn.
  - intros s' c. rewrite lookup_insert_Some, co_lock_claim0. split.
    + intros [[<- [= <-]]|[Hne (cl & Hcl & Hs)]].
      * eexists. by rewrite lookup_insert_eq.
      * exists cl. rewrite lookup_insert_ne; [done|]. intros <-. congruence.
    + intros (cl & Hcl & Hs). upd Hcl; [by left|]. right. split; [|by exists cl].
      intros ->. assert (locks m !! c_session cl = Some (ByClaim c)); [|congruence].
      apply co_lock_claim0. by exists cl.
  - intros s' i. rewrite lookup_insert_Some, co_lock_writer0. split; [by intros [[_ ?]|[_ ?]]|].
    intros (wr & Hwr & Hrest). right. split; [|by exists wr]. intros ->.
    assert (locks m !! s' = Some (ByWriter i)); [|congruence].
    apply co_lock_writer0. by exists wr.
  - intros s' k. rewrite lookup_insert_Some, co_lock_held0. split; [by intros [[_ ?]|[_ ?]]|].
    intros Hk. right. split; [|done]. intros ->. apply co_lock_held0 in Hk. congruence.
  - intros c cl Hcl. upd Hcl.
    + cbn. rewrite !lookup_insert_eq. split_and!; [done..|by eexists].
    + destruct (co_claim0 _ _ Hcl) as (Ht & Ho & e & Hle).
      rewrite !lookup_insert_ne; try congruence; [by split_and!; [..|eexists]|].
      intros [= -> Hs]. assert (locks m !! c_session cl = Some (ByClaim c)); [|congruence].
      apply co_lock_claim0. by exists cl.
  - intros l e Hle. upd Hle.
    + eexists _, _. rewrite lookup_insert_eq. done.
    + destruct (co_live0 _ _ Hle) as (c & cl & Hcl & Hc). exists c, cl.
      rewrite lookup_insert_ne; [done|]. intros <-. congruence.
  - intros h' s' l Hl'. upd Hl'; [rewrite !lookup_insert_eq; split; [done|by eexists]|].
    destruct (co_table0 _ _ _ Hl') as [? ?].
    rewrite !lookup_insert_ne by (intros <-; by eapply is_Some_None; rewrite <-Hf1).
    done.
  - intros i wr l Hwr Ha. destruct (co_auth0 _ _ _ Hwr Ha) as [? ?].
    rewrite !lookup_insert_ne by (intros <-; by eapply is_Some_None; rewrite <-Hf1).
    done.
  - intros l b i Hle. upd Hle. by apply (co_entered0 _ _ _ Hle).
  - intros i wr l Hwr Hr Ha. destruct (co_running0 _ _ _ Hwr Hr Ha) as [b Hb].
    exists b. rewrite lookup_insert_ne; [done|]. intros <-. congruence.
  - intros k Hk. rewrite !lookup_insert_ne by lia. apply co_fresh0. lia.
Qed.

Lemma commit_ok m d c cl t :
  ok m → claims m !! c = Some cl → ok (fst (commit_transfer print_record m d c cl t)).
Proof.
  intros Hok Hc. unfold commit_transfer. set (r := with_transfer _ _ _).
  pose proof (publish_ok m d (c_session cl) r Hok) as Hp.
  assert (Hc' : claims (fst (publish_record print_record m d (c_session cl) r)) !! c = Some cl)
    by (unfold publish_record; by destruct (can_publish d)).
  destruct (publish_record print_record m d (c_session cl) r) as [m1 [[]|e]]; [|done].
  cbn [fst] in *. clear m Hok Hc. destruct Hp as [og []]. exists og.
  split; cbn; try done.
  - intros s c'. rewrite co_lock_claim0. split.
    + intros (cl' & Hcl & Hs). destruct (decide (c = c')) as [<-|].
      * rewrite lookup_insert_eq. eexists. split; [done|]. cbn. congruence.
      * exists cl'. by rewrite lookup_insert_ne.
    + intros (cl' & Hcl & Hs). upd Hcl; [by exists cl|by exists cl'].
  - intros c' cl' Hcl. upd Hcl; [by apply co_claim0 in Hc'|by apply co_claim0 in Hcl].
  - intros l e Hle. destruct (co_live0 _ _ Hle) as (c' & cl' & Hcl & Hl).
    destruct (decide (c = c')) as [<-|].
    + eexists c, _. rewrite lookup_insert_eq. split; [done|]. cbn. congruence.
    + exists c', cl'. by rewrite lookup_insert_ne.
  - intros k Hk. destruct (co_fresh0 k Hk) as (? & Hck & ?).
    rewrite lookup_insert_ne; [done|]. intros <-. congruence.
Qed.

(** A claim alone holds its session's lock and its lease. *)
Lemma claim_unique og m c c' cl cl' :
  coherent og m → claims m !! c = Some cl → claims m !! c' = Some cl' →
  c_session cl = c_session cl' ∨ c_lease cl = c_lease cl' → c = c'.
Proof.
  intros [] Hc Hc' Heq.
  assert (Hs : c_session cl = c_session cl').
  { destruct Heq as [|Hl]; [done|]. apply co_claim0 in Hc as (_ & Ho & _).
    apply co_claim0 in Hc' as (_ & Ho' & _). congruence. }
  assert (locks m !! c_session cl = Some (ByClaim c)) by (apply co_lock_claim0; by exists cl).
  assert (locks m !! c_session cl = Some (ByClaim c')) by (apply co_lock_claim0; by exists cl').
  congruence.
Qed.

Lemma mutex_free_spec m l : mutex_free m l = true ↔ ∃ b, leases m !! l = Some (mkLease b None).
Proof.
  unfold mutex_free. destruct (leases m !! l) as [[b e]|]; [|naive_solver].
  rewrite bool_decide_eq_true. cbn. naive_solver.
Qed.

Lemma let_go_ok m c cl :
  ok m → claims m !! c = Some cl → mutex_free m (c_lease cl) = true → ok (let_go c cl m).
Proof.
  intros [og H] Hc [b Hm]%mutex_free_spec. exists og.
  pose proof (λ c' cl', claim_unique og m c c' cl cl' H Hc) as Huniq. destruct H.
  assert (Hlock : locks m !! c_session cl = Some (ByClaim c)) by (apply co_lock_claim0; by exists cl).
  split; cbn.
  - intros s c'. rewrite lookup_delete_Some, co_lock_claim0. split.
    + intros [Hne (cl' & Hcl & Hs)]. exists cl'. rewrite lookup_delete_ne; [done|].
      intros <-. congruence.
    + intros (cl' & Hcl & Hs). upd Hcl. split; [|by exists cl'].
      intros Heq. apply Hne. eapply Huniq; [done|]. left. congruence.
  - intros s i. rewrite lookup_delete_Some, co_lock_writer0. split; [by intros [_ ?]|].
    intros (wr & Hwr). split; [|by exists wr]. intros <-.
    assert (locks m !! c_session cl = Some (ByWriter i)); [|congruence].
    apply co_lock_writer0. by exists wr.
  - intros s k. rewrite lookup_delete_Some, co_lock_held0. split; [by intros [_ ?]|].
    intros Hk. split; [|done]. intros <-. apply co_lock_held0 in Hk. congruence.
  - intros c' cl' Hcl. upd Hcl. destruct (co_claim0 _ _ Hcl) as (? & ? & e & ?).
    split_and!; [done..|]. exists e. rewrite lookup_insert_ne; [done|].
    intros Heq. apply Hne. eapply Huniq; [done|]. by right.
  - intros l e Hle. upd Hle. destruct (co_live0 _ _ Hle) as (c' & cl' & Hcl & Hl).
    exists c', cl'. rewrite lookup_delete_ne; [done|]. intros <-. congruence.
  - intros h s l Hl. destruct (co_table0 _ _ _ Hl) as [? ?]. split; [done|].
    destruct (decide (c_lease cl = l)) as [<-|]; [rewrite lookup_insert_eq; by eexists|].
    by rewrite lookup_insert_ne.
  - intros i wr l Hwr Ha. destruct (co_auth0 _ _ _ Hwr Ha) as [? ?]. split; [done|].
    destruct (decide (c_lease cl = l)) as [<-|]; [rewrite lookup_insert_eq; by eexists|].
    by rewrite lookup_insert_ne.
  - intros l b' i Hle. upd Hle. by eapply co_entered0.
  - intros i wr l Hwr Hr Ha. destruct (co_running0 _ _ _ Hwr Hr Ha) as [b' Hb'].
    exists b'. rewrite lookup_insert_ne; [done|]. intros <-. congruence.
  - intros k Hk. destruct (co_fresh0 k Hk) as (? & ? & ?).
    rewrite lookup_insert_ne by congruence. split; [done|].
    split; [apply lookup_delete_None; by right|done].
Qed.

(** An entry of a lease no claim has may go. *)
Lemma forget_ok m h s l :
  ok m → (∀ c cl, claims m !! c = Some cl → c_lease cl ≠ l) → ok (forget_lease h s l m).
Proof.
  intros [og []] Hno. exists og. unfold forget_lease. case_bool_decide as Hl; [|by split].
  split; cbn; try done.
  - intros c cl Hcl. destruct (co_claim0 _ _ Hcl) as (? & ? & ?). split_and!; [|done..].
    rewrite lookup_delete_ne; [done|]. intros [= -> ->]. apply (Hno c cl Hcl). congruence.
  - intros h' s' l' Hl'. upd Hl'. by apply co_table0.
Qed.

Lemma drop_ok m c cl m' :
  ok m → claims m !! c = Some cl → claim_drop m c cl = Some m' → ok m'.
Proof.
  unfold claim_drop. intros Hok Hc. destruct (mutex_free m (c_lease cl)) eqn:Hf; [|done].
  cbn [negb]. intros [= <-].
  change (ok (forget_lease (c_handle cl) (c_session cl) (c_lease cl) (let_go c cl m))).
  apply forget_ok; [by apply let_go_ok|]. destruct Hok as [og H].
  intros c' cl' Hcl Heq. cbn in Hcl. upd Hcl. apply Hne.
  eapply (claim_unique og m c c' cl cl'); [done..|]. by right.
Qed.

Lemma claim_release_ok m d c cl t m' r :
  ok m → claims m !! c = Some cl → claim_release print_record m d c cl t = Some (m', r) → ok m'.
Proof.
  unfold claim_release. intros Hok Hc. destruct (mutex_free m (c_lease cl)) eqn:Hf; [|done].
  cbn [negb]. set (rec := with_transfer _ _ _).
  pose proof (publish_ok m d (c_session cl) rec Hok) as Hp.
  unfold publish_record in *. destruct (can_publish d); intros [= <- <-]; [|done].
  by apply let_go_ok.
Qed.

Lemma start_ok m h s line : ok m → ok (fst (write_start m h s line)).
Proof.
  intros [og []]. exists og. destruct (co_fresh0 (next m)) as (_ & _ & Hw & _); [lia|].
  split; cbn; try done.
  - intros s' i. rewrite co_lock_writer0. split.
    + intros (wr & Hwr & Hrest). exists wr. rewrite lookup_insert_ne; [done|].
      intros <-. congruence.
    + intros (wr & Hwr & Hr & Hrest). upd Hwr. by exists wr.
  - intros i wr l Hwr Ha. upd Hwr; [by apply co_table0|by apply (co_auth0 _ _ _ Hwr)].
  - intros l b i Hle. destruct (co_entered0 _ _ _ Hle) as [? (wr & ? & ?)].
    split; [done|]. exists wr. rewrite lookup_insert_ne; [done|]. intros <-. congruence.
  - intros i wr l Hwr Hr Ha. upd Hwr. by eapply co_running0.
  - intros k Hk. destruct (co_fresh0 k) as (? & ? & ? & ? & ?); [lia|].
    rewrite lookup_insert_ne by lia. done.
Qed.

(** A write that is not running holds nothing. *)
Lemma drop_writer_ok m i wr :
  ok m → writers m !! i = Some wr → running wr = false → ok (drop_writer i m).
Proof.
  intros [og []] Hi Hr. exists og. split; cbn; try done.
  - intros s' j. rewrite co_lock_writer0. split.
    + intros (wr' & Hwr & Hrest). exists wr'. rewrite lookup_delete_ne; [done|].
      intros <-. destruct Hrest. congruence.
    + intros (wr' & Hwr & Hrest). upd Hwr. by exists wr'.
  - intros j wr' l Hwr. upd Hwr. by apply (co_auth0 _ _ _ Hwr).
  - intros l b j Hle. destruct (co_entered0 _ _ _ Hle) as [? (wr' & ? & ? & ?)].
    split; [done|]. exists wr'. rewrite lookup_delete_ne; [done|]. intros <-. congruence.
  - intros j wr' l Hwr. upd Hwr. by apply co_running0.
  - intros k Hk. destruct (co_fresh0 k Hk) as (? & ? & ? & ? & ?).
    split_and!; try done. apply lookup_delete_None. by right.
Qed.

Lemma enter_ok m d i wr m' r :
  ok m → writers m !! i = Some wr → running wr = false →
  write_enter m d i wr = Some (m', r) → ok m'.
Proof.
  intros Hok Hi Hr. pose proof (drop_writer_ok m i wr Hok Hi Hr) as Hdrop.
  unfold Ownership.write_enter. destruct (wr_auth wr) as [l|] eqn:Ha.
  - unfold guarded. destruct (leases m !! l) as [[b [j|]]|] eqn:Hl; cbn; [done| |done].
    destruct b; intros [= <- <-]; [|done]. destruct Hok as [og []]. exists og. split; cbn; try done.
    + intros s' j. rewrite co_lock_writer0. split.
      * intros (wr' & Hwr & Hrest & ?). exists wr'. rewrite lookup_insert_ne; [done|].
        intros <-. congruence.
      * intros (wr' & Hwr & Hrest & Hau & Hs). upd Hwr. by exists wr'.
    + intros c cl Hcl. destruct (co_claim0 _ _ Hcl) as (? & ? & e & ?). split_and!; [done..|].
      destruct (decide (l = c_lease cl)) as [->|]; [rewrite lookup_insert_eq; by eexists|].
      exists e. by rewrite lookup_insert_ne.
    + intros l' e Hle. upd Hle; by eapply co_live0.
    + intros h s l' Hl'. destruct (co_table0 _ _ _ Hl') as [? ?]. split; [done|].
      apply lookup_insert_is_Some'. by right.
    + intros j wr' l' Hwr Hau.
      assert (Hold : og !! l' = Some (wr_handle wr', wr_session wr') ∧ is_Some (leases m !! l')).
      { upd Hwr; [by apply (co_auth0 _ _ _ Hi)|by apply (co_auth0 _ _ _ Hwr)]. }
      split; [apply Hold|]. apply lookup_insert_is_Some'. right. apply Hold.
    + intros l' b j Hle. upd Hle.
      * split; [done|]. exists (started wr). rewrite lookup_insert_eq. done.
      * destruct (co_entered0 _ _ _ Hle) as [? (wr' & ? & ? & ?)]. split; [done|].
        exists wr'. rewrite lookup_insert_ne; [done|]. intros <-. congruence.
    + intros j wr' l' Hwr Hr' Hau. upd Hwr.
      * exists true. by rewrite lookup_insert_eq.
      * destruct (co_running0 _ _ _ Hwr Hr' Hau) as [b Hb]. exists b.
        rewrite lookup_insert_ne; [done|]. intros <-. congruence.
    + intros k Hk. destruct (co_fresh0 k Hk) as (? & ? & ? & ? & ?).
      rewrite !lookup_insert_ne by congruence. done.
  - unfold with_session_lock. destruct (negb (can_lock d)); [by intros [= <- <-]|].
    destruct (locks m !! wr_session wr) as [|] eqn:Hl; intros [= <- <-]; [done|].
    destruct Hok as [og []]. exists og. split; cbn; try done.
    + intros s c. rewrite lookup_insert_Some, co_lock_claim0. split; [by intros [[_ ?]|[_ ?]]|].
      intros (cl & Hcl & Hs). right. split; [|by exists cl]. intros <-.
      assert (locks m !! wr_session wr = Some (ByClaim c)); [|congruence].
      apply co_lock_claim0. by exists cl.
    + intros s j. rewrite lookup_insert_Some. split.
      * intros [[<- [= <-]]|[Hne Hj]]; [exists (started wr); by rewrite lookup_insert_eq|].
        apply co_lock_writer0 in Hj as (wr' & ? & ? & ? & ?). exists wr'.
        rewrite lookup_insert_ne; [done|]. intros <-. congruence.
      * intros (wr' & Hwr & Hr' & Hau & Hs). upd Hwr; [by left|]. right.
        assert (Hj : locks m !! s = Some (ByWriter j)) by (apply co_lock_writer0; by exists wr').
        split; [|done]. intros <-. congruence.
    + intros s k. rewrite lookup_insert_Some, co_lock_held0. split; [by intros [[_ ?]|[_ ?]]|].
      intros Hk. right. split; [|done]. intros <-. apply co_lock_held0 in Hk. congruence.
    + intros j wr' l Hwr Hau. upd Hwr. by apply (co_auth0 _ _ _ Hwr).
    + intros l b j Hle. destruct (co_entered0 _ _ _ Hle) as [? (wr' & ? & ? & ?)].
      split; [done|]. exists wr'. rewrite lookup_insert_ne; [done|]. intros <-. congruence.
    + intros j wr' l Hwr Hr' Hau. upd Hwr. by apply (co_running0 _ _ _ Hwr).
    + intros k Hk. destruct (co_fresh0 k Hk) as (? & ? & ? & ? & ?).
      rewrite !lookup_insert_ne by congruence. done.
Qed.

(** Two running writes of one session are one write. *)
Lemma writer_unique og m i j wr wr' :
  coherent og m → writers m !! i = Some wr → writers m !! j = Some wr' →
  running wr = true → running wr' = true → wr_session wr = wr_session wr' → i = j.
Proof.
  intros [] Hi Hj Hri Hrj Hs.
  assert (Hlock : ∀ k w, writers m !! k = Some w → running w = true →
    match wr_auth w with
    | None => locks m !! wr_session w = Some (ByWriter k)
    | Some l => leases m !! l = Some (mkLease true (Some k)) ∧ og !! l = Some (wr_handle w, wr_session w) ∧
        ∃ c cl, claims m !! c = Some cl ∧ c_lease cl = l ∧ c_session cl = wr_session w ∧
          locks m !! wr_session w = Some (ByClaim c)
    end).
  { intros k w Hk Hr. destruct (wr_auth w) as [l|] eqn:Ha.
    - destruct (co_running0 _ _ _ Hk Hr Ha) as [b Hl].
      destruct (co_entered0 _ _ _ Hl) as [-> _]. split; [done|].
      destruct (co_auth0 _ _ _ Hk Ha) as [Ho _]. split; [done|].
      destruct (co_live0 _ _ Hl) as (c & cl & Hc & Hcl). exists c, cl.
      destruct (co_claim0 _ _ Hc) as (_ & Ho' & _). rewrite Hcl, Ho in Ho'. simplify_eq.
      split_and!; [done..|]. apply co_lock_claim0. by exists cl.
    - apply co_lock_writer0. by exists w. }
  pose proof (Hlock _ _ Hi Hri) as Hi'. pose proof (Hlock _ _ Hj Hrj) as Hj'. rewrite Hs in Hi'.
  destruct (wr_auth wr) as [l|], (wr_auth wr') as [l'|].
  - destruct Hi' as (Hl & _ & c & cl & Hc & <- & _ & Hk).
    destruct Hj' as (Hl' & _ & c' & cl' & Hc' & <- & _ & Hk').
    assert (c = c') as <- by congruence. assert (cl = cl') as <- by congruence. congruence.
  - destruct Hi' as (_ & _ & c & _ & _ & _ & _ & Hk). congruence.
  - destruct Hj' as (_ & _ & c & _ & _ & _ & _ & Hk). congruence.
  - congruence.
Qed.

Lemma finish_ok m i wr b :
  ok m → writers m !! i = Some wr → running wr = true → ok (write_finish m i wr b).
Proof.
  intros [og H] Hi Hr. pose proof (λ j wr', writer_unique og m i j wr wr' H Hi) as Huniq.
  exists og. unfold write_finish. cbn zeta.
  destruct (wr_auth wr) as [l|] eqn:Ha.
  - refine (coherent_files og (drop_writer i (set_lease l (mkLease true None) m)) _ _ _).
    destruct H. destruct (co_running0 _ _ _ Hi Hr Ha) as [bl Hl].
    destruct (co_entered0 _ _ _ Hl) as [-> _]. split; cbn; try done.
    + intros s j. rewrite co_lock_writer0. split.
      * intros (wr' & Hwr & Hrest). exists wr'. rewrite lookup_delete_ne; [done|].
        intros <-. destruct Hrest as (_ & ? & _). congruence.
      * intros (wr' & Hwr & Hrest). upd Hwr. by exists wr'.
    + intros c cl Hcl. destruct (co_claim0 _ _ Hcl) as (? & ? & e & ?). split_and!; [done..|].
      destruct (decide (l = c_lease cl)) as [->|]; [rewrite lookup_insert_eq; by eexists|].
      exists e. by rewrite lookup_insert_ne.
    + intros l' e Hle. upd Hle; by eapply co_live0.
    + intros h s l' Hl'. destruct (co_table0 _ _ _ Hl') as [? ?]. split; [done|].
      apply lookup_insert_is_Some'. by right.
    + intros j wr' l' Hwr Hau. upd Hwr. destruct (co_auth0 _ _ _ Hwr Hau) as [? ?].
      split; [done|]. apply lookup_insert_is_Some'. by right.
    + intros l' bl j Hle. upd Hle. destruct (co_entered0 _ _ _ Hle) as [? (wr' & ? & ? & ?)].
      split; [done|]. exists wr'. rewrite lookup_delete_ne; [done|]. intros <-. congruence.
    + intros j wr' l' Hwr Hr' Hau. upd Hwr.
      destruct (co_running0 _ _ _ Hwr Hr' Hau) as [b' Hb']. exists b'.
      rewrite lookup_insert_ne; [done|]. intros <-. congruence.
    + intros k Hk. destruct (co_fresh0 k Hk) as (? & ? & ? & ? & ?).
      rewrite lookup_insert_ne by congruence. split_and!; try done.
      apply lookup_delete_None. by right.
  - refine (coherent_files og (drop_writer i (set_locks (delete (wr_session wr) (locks m)) m)) _ _ _).
    destruct H.
    assert (Hlock : locks m !! wr_session wr = Some (ByWriter i)) by (apply co_lock_writer0; by exists wr).
    split; cbn; try done.
    + intros s c. rewrite lookup_delete_Some, co_lock_claim0. split; [by intros [_ ?]|].
      intros Hc. split; [|done]. intros <-. apply co_lock_claim0 in Hc. congruence.
    + intros s j. rewrite lookup_delete_Some. split.
      * intros [Hne Hj]. apply co_lock_writer0 in Hj as (wr' & Hwr & Hrest). exists wr'.
        rewrite lookup_delete_ne; [done|]. intros <-. destruct Hrest as (_ & _ & <-). congruence.
      * intros (wr' & Hwr & Hr' & Hau & Hs). upd Hwr.
        assert (Hj : locks m !! s = Some (ByWriter j)) by (apply co_lock_writer0; by exists wr').
        split; [|done]. intros <-. congruence.
    + intros s k. rewrite lookup_delete_Some, co_lock_held0. split; [by intros [_ ?]|].
      intros Hk. split; [|done]. intros <-. apply co_lock_held0 in Hk. congruence.
    + intros j wr' l Hwr. upd Hwr. by apply (co_auth0 _ _ _ Hwr).
    + intros l b' j Hle. destruct (co_entered0 _ _ _ Hle) as [? (wr' & ? & ? & ?)].
      split; [done|]. exists wr'. rewrite lookup_delete_ne; [done|]. intros <-. congruence.
    + intros j wr' l Hwr. upd Hwr. by apply (co_running0 _ _ _ Hwr).
    + intros k Hk. destruct (co_fresh0 k Hk) as (? & ? & ? & ? & ?). split_and!; try done.
      apply lookup_delete_None. by right.
Qed.

Lemma hold_ok m s : ok m → ok (fst (hold_session m s)).
Proof.
  intros [og H]. unfold hold_session. destruct (locks m !! s) eqn:Hl; [by exists og|].
  exists og. destruct H. destruct (co_fresh0 (next m)) as (_ & _ & _ & Hh & _); [lia|].
  split; cbn; try done.
  - intros s' c. rewrite lookup_insert_Some, co_lock_claim0. split; [by intros [[_ ?]|[_ ?]]|].
    intros Hc. right. split; [|done]. intros <-. apply co_lock_claim0 in Hc. congruence.
  - intros s' i. rewrite lookup_insert_Some, co_lock_writer0. split; [by intros [[_ ?]|[_ ?]]|].
    intros Hc. right. split; [|done]. intros <-. apply co_lock_writer0 in Hc. congruence.
  - intros s' k. rewrite !lookup_insert_Some, co_lock_held0. split.
    + intros [[<- [= <-]]|[Hne Hk]]; [by left|]. right. split; [|done]. intros <-. congruence.
    + intros [[<- <-]|[Hne Hk]]; [by left|]. right. split; [|done]. intros <-.
      apply co_lock_held0 in Hk. congruence.
  - intros k Hk. destruct (co_fresh0 k) as (? & ? & ? & ? & ?); [lia|].
    rewrite lookup_insert_ne by lia. done.
Qed.

Lemma unhold_ok m k s b : ok m → held m !! k = Some s → ok (unhold_session m k s b).
Proof.
  intros [og H] Hk. exists og.
  refine (coherent_files og (unhold_session m k s false) _ _ _).
  destruct H. assert (Hl : locks m !! s = Some (ByMaintenance k)) by by apply co_lock_held0.
  split; cbn; try done.
  - intros s' c. rewrite lookup_delete_Some, co_lock_claim0. split; [by intros [_ ?]|].
    intros Hc. split; [|done]. intros <-. apply co_lock_claim0 in Hc. congruence.
  - intros s' i. rewrite lookup_delete_Some, co_lock_writer0. split; [by intros [_ ?]|].
    intros Hc. split; [|done]. intros <-. apply co_lock_writer0 in Hc. congruence.
  - intros s' k'. rewrite !lookup_delete_Some, co_lock_held0. split.
    + intros [Hne Hk']. split; [|done]. intros <-. congruence.
    + intros [Hne Hk']. split; [|done]. intros <-. apply co_lock_held0 in Hk'. congruence.
  - intros k' Hk'. destruct (co_fresh0 k' Hk') as (? & ? & ? & ? & ?). split_and!; try done.
    apply lookup_delete_None. by right.
Qed.

Lemma lease_survives_spec m h l :
  lease_survives m h l = true ↔
  ∀ c cl, claims m !! c = Some cl → c_handle cl = h → c_lease cl ≠ l.
Proof.
  unfold lease_survives. rewrite negb_true_iff, <-not_true_iff_false, existsb_exists. split.
  - intros Hno c cl Hc <- <-. apply Hno. exists cl. rewrite !N.eqb_refl. split; [|done].
    apply list_elem_of_In, list_elem_of_fmap. exists (c, cl). split; [done|].
    by apply elem_of_map_to_list.
  - intros Hall (cl & Hin & Heq). apply andb_true_iff in Heq as [Hh%N.eqb_eq Hl%N.eqb_eq].
    apply list_elem_of_In, list_elem_of_fmap in Hin as ([c cl'] & -> & Hin%elem_of_map_to_list).
    by apply (Hall c cl').
Qed.

Lemma crash_ok m h : ok m → ok (crash m h).
Proof.
  intros [og H]. exists og. pose proof (λ c c' cl cl', claim_unique og m c c' cl cl' H) as Huniq.
  destruct H.
  assert (Hkeep : ∀ l le, leases m !! l = Some le →
    (∀ c cl, claims m !! c = Some cl → c_lease cl = l → c_handle cl ≠ h) →
    filter (λ kv : LeaseId * Lease, lease_survives m h kv.1 = true) (leases m) !! l = Some le).
  { intros l le Hl Hno. apply map_lookup_filter_Some. split; [done|].
    apply lease_survives_spec. intros c cl Hc Hh Heq. by apply (Hno c cl). }
  assert (Hog : ∀ l h' s', og !! l = Some (h', s') → h' ≠ h →
    ∀ c cl, claims m !! c = Some cl → c_lease cl = l → c_handle cl ≠ h).
  { intros l h' s' Ho Hne c cl Hc <-. apply co_claim0 in Hc as (_ & Ho' & _). congruence. }
  split; cbn; try done.
  - intros s c. rewrite map_lookup_filter_Some, co_lock_claim0. cbn. unfold of_handle_claim. split.
    + intros [(cl & Hc & Hs) Hsur]. exists cl. rewrite map_lookup_filter_Some. cbn.
      rewrite Hc in Hsur. apply negb_true_iff, N.eqb_neq in Hsur. done.
    + intros (cl & Hc & Hs). apply map_lookup_filter_Some in Hc as [Hc Hh]. cbn in Hh.
      split; [by exists cl|]. rewrite Hc. by apply negb_true_iff, N.eqb_neq.
  - intros s i. rewrite map_lookup_filter_Some, co_lock_writer0. cbn. unfold of_handle_writer. split.
    + intros [(wr & Hw & Hrest) Hsur]. exists wr. rewrite map_lookup_filter_Some. cbn.
      rewrite Hw in Hsur. apply negb_true_iff, N.eqb_neq in Hsur. done.
    + intros (wr & Hw & Hrest). apply map_lookup_filter_Some in Hw as [Hw Hh]. cbn in Hh.
      split; [by exists wr|]. rewrite Hw. by apply negb_true_iff, N.eqb_neq.
  - intros s k. rewrite map_lookup_filter_Some, co_lock_held0. cbn. by split; [intros []|].
  - intros c cl Hc. apply map_lookup_filter_Some in Hc as [Hc Hh]. cbn in Hh.
    destruct (co_claim0 _ _ Hc) as (Ht & Ho & e & Hl). rewrite map_lookup_filter_Some.
    split_and!; [done..|]. exists e. apply Hkeep; [done|]. by eapply Hog.
  - intros l e Hl. apply map_lookup_filter_Some in Hl as [Hl Hsur]. cbn in Hsur.
    destruct (co_live0 _ _ Hl) as (c & cl & Hc & Heq). exists c, cl. split; [|done].
    apply map_lookup_filter_Some. split; [done|]. cbn. intros Hh.
    by eapply lease_survives_spec in Hsur.
  - intros h' s l Ht. apply map_lookup_filter_Some in Ht as [Ht Hh]. cbn in Hh.
    destruct (co_table0 _ _ _ Ht) as [Ho [le Hl]]. split; [done|]. exists le.
    apply Hkeep; [done|]. by eapply Hog.
  - intros i wr l Hw Ha. apply map_lookup_filter_Some in Hw as [Hw Hh]. cbn in Hh.
    destruct (co_auth0 _ _ _ Hw Ha) as [Ho [le Hl]]. split; [done|]. exists le.
    apply Hkeep; [done|]. by eapply Hog.
  - intros l b i Hl. apply map_lookup_filter_Some in Hl as [Hl Hsur]. cbn in Hsur.
    destruct (co_entered0 _ _ _ Hl) as [-> (wr & Hw & Hr & Ha)]. split; [done|].
    exists wr. split; [|done]. apply map_lookup_filter_Some. split; [done|]. cbn. intros Hh.
    destruct (co_live0 _ _ Hl) as (c & cl & Hc & Heq).
    destruct (co_auth0 _ _ _ Hw Ha) as [Ho _].
    destruct (co_claim0 _ _ Hc) as (_ & Ho' & _). rewrite Heq in Ho'.
    eapply lease_survives_spec in Hsur; [|done|congruence]. done.
  - intros i wr l Hw Hr Ha. apply map_lookup_filter_Some in Hw as [Hw Hh]. cbn in Hh.
    destruct (co_running0 _ _ _ Hw Hr Ha) as [b Hl]. exists b. apply Hkeep; [done|].
    destruct (co_auth0 _ _ _ Hw Ha) as [Ho _]. by eapply Hog.
  - intros k Hk. destruct (co_fresh0 k Hk) as (? & ? & ? & ? & ?).
    split_and!; try done; apply map_lookup_filter_None; by left.
Qed.

Lemma machine_op_ok m o : ok m → ok (run_op m o).
Proof.
  intros Hok. destruct o as [d h s who|d c t|d c t|c|h s line|d i|i b|s|k b|h]; cbn [Ownership.run_op].
  - by apply take_ok.
  - destruct (claims m !! c) as [cl|] eqn:Hc; [by apply commit_ok|done].
  - destruct (claims m !! c) as [cl|] eqn:Hc; [|done].
    destruct (claim_release _ m d c cl t) as [[m' r]|] eqn:He; [by eapply claim_release_ok|done].
  - destruct (claims m !! c) as [cl|] eqn:Hc; [|done].
    destruct (claim_drop m c cl) as [m'|] eqn:He; [by eapply drop_ok|done].
  - by apply start_ok.
  - destruct (writers m !! i) as [wr|] eqn:Hw; [|done]. destruct (running wr) eqn:Hr; [done|].
    destruct (write_enter m d i wr) as [[m' r]|] eqn:He; [by eapply enter_ok|done].
  - destruct (writers m !! i) as [wr|] eqn:Hw; [|done].
    destruct (running wr) eqn:Hr; [by apply finish_ok|done].
  - by apply hold_ok.
  - destruct (held m !! k) as [s|] eqn:Hk; [by apply unhold_ok|done].
  - by apply crash_ok.
Qed.

Lemma machine_ops_ok m ops : ok m → ok (run_ops m ops).
Proof. revert m. induction ops as [|o ops IH]; intros m Hok; [done|]. by apply IH, machine_op_ok. Qed.
End store.
