(* ===== verification/OwnershipProps.v ===== *)
(** * What session ownership promises

    Over every history of claims, hand-overs, writes, maintenance and crashes:
    a session has one owner at most, one write at most, and never both from
    different hands; a released handle stays fenced; a hand-over is seen by
    whoever comes next; a generation counts the claims. *)

From stdpp Require Import base gmap list strings numbers.
From Stdlib Require Import Ascii.
From S2P Require Import Prelude RustStr Ownership OwnershipInv.
From stdpp Require Import list.
#[local] Open Scope N_scope.

Section store.
Context (read_value : string → option (option N * option OwnerRecord)).
Context (print_record : OwnerRecord → string).

Abbreviation run_op := (Ownership.run_op read_value print_record).
Abbreviation run_ops := (Ownership.run_ops read_value print_record).
Abbreviation claim_take := (Ownership.claim_take read_value print_record).
Abbreviation write_enter := (Ownership.write_enter read_value).
Abbreviation machine_op_ok := (OwnershipInv.machine_op_ok read_value print_record).
Abbreviation machine_ops_ok := (OwnershipInv.machine_ops_ok read_value print_record).
Abbreviation claim_release_ok := (OwnershipInv.claim_release_ok print_record).

(** ** One owner *)

(** C4. Whatever claims, hand-overs, writes, maintenance and crashes happened: a
    session has at most one live claim and at most one write running; a write
    that runs while a claim lives runs under that claim's own lease and handle;
    and while maintenance holds a session it has neither claim nor write. *)
Theorem one_owner ops :
  let m := run_ops boot ops in
  (∀ c c' cl cl', claims m !! c = Some cl → claims m !! c' = Some cl' →
     c_session cl = c_session cl' → c = c') ∧
  (∀ i j wr wr', writers m !! i = Some wr → writers m !! j = Some wr' →
     running wr = true → running wr' = true → wr_session wr = wr_session wr' → i = j) ∧
  (∀ c cl i wr, claims m !! c = Some cl → writers m !! i = Some wr → running wr = true →
     wr_session wr = c_session cl →
     wr_auth wr = Some (c_lease cl) ∧ wr_handle wr = c_handle cl) ∧
  (∀ k s, held m !! k = Some s →
     (∀ c cl, claims m !! c = Some cl → c_session cl ≠ s) ∧
     (∀ i wr, writers m !! i = Some wr → running wr = true → wr_session wr ≠ s)).
Proof.
  intros m. destruct (machine_ops_ok boot ops boot_ok) as [og H]. fold m in H.
  assert (Hlock : ∀ i wr, writers m !! i = Some wr → running wr = true →
    locks m !! wr_session wr = Some (ByWriter i) ∧ wr_auth wr = None ∨
    ∃ c cl, claims m !! c = Some cl ∧ wr_auth wr = Some (c_lease cl) ∧
      wr_handle wr = c_handle cl ∧ locks m !! wr_session wr = Some (ByClaim c)).
  { intros i wr Hi Hr. destruct (wr_auth wr) as [l|] eqn:Ha.
    - right. destruct (co_running _ _ H _ _ _ Hi Hr Ha) as [b Hl].
      destruct (co_entered _ _ H _ _ _ Hl) as [-> _]. destruct (co_auth _ _ H _ _ _ Hi Ha) as [Ho _].
      destruct (co_live _ _ H _ _ Hl) as (c & cl & Hc & Hcl). exists c, cl.
      destruct (co_claim _ _ H _ _ Hc) as (_ & Ho' & _). rewrite Hcl, Ho in Ho'. simplify_eq.
      split_and!; [done..|]. apply (co_lock_claim _ _ H). by exists cl.
    - left. split; [|done]. apply (co_lock_writer _ _ H). by exists wr. }
  assert (Hclaim : ∀ c cl, claims m !! c = Some cl → locks m !! c_session cl = Some (ByClaim c)).
  { intros c cl Hc. apply (co_lock_claim _ _ H). by exists cl. }
  split_and!.
  - intros c c' cl cl' Hc Hc' Hs. apply (claim_unique og m c c' cl cl'); auto.
  - intros i j wr wr' Hi Hj Hr Hr' Hs. by apply (writer_unique og m i j wr wr').
  - intros c cl i wr Hc Hi Hr Hs. pose proof (Hclaim _ _ Hc) as Hl. rewrite <-Hs in Hl.
    destruct (Hlock _ _ Hi Hr) as [[? _]|(c' & cl' & Hc' & ? & ? & ?)]; [congruence|].
    assert (c' = c) as -> by congruence. by simplify_eq.
  - intros k s Hk%(co_lock_held _ _ H). split.
    + intros c cl Hc <-. apply Hclaim in Hc. congruence.
    + intros i wr Hi Hr <-. destruct (Hlock _ _ Hi Hr) as [[? _]|(c' & cl' & _ & _ & _ & ?)]; congruence.
Qed.

(** ** The fence of a released handle *)

Definition fenced (l : LeaseId) (h : HandleId) (s : SessionId) (m : Machine) : Prop :=
  table m !! (h, s) = Some l ∧ leases m !! l = Some (mkLease false None).

(** Neither a new claim of the session through the handle nor its end. *)
Definition keeps_fence (h : HandleId) (s : SessionId) (o : op) : Prop :=
  match o with
  | Take _ h' s' _ => h' ≠ h ∨ s' ≠ s
  | Crash h' => h' ≠ h
  | _ => True
  end.

Lemma dead_lease_unclaimed og m l c cl :
  coherent og m → leases m !! l = Some (mkLease false None) → claims m !! c = Some cl →
  c_lease cl ≠ l.
Proof. intros H Hl Hc <-. destruct (co_claim _ _ H _ _ Hc) as (_ & _ & e & ?). congruence. Qed.

Lemma let_go_fenced og l h s m c cl :
  coherent og m → claims m !! c = Some cl → fenced l h s m → fenced l h s (let_go c cl m).
Proof.
  intros H Hc [Ht Hl]. split; [done|]. cbn. rewrite lookup_insert_ne; [done|].
  by eapply dead_lease_unclaimed.
Qed.

Lemma run_op_fenced l h s m o :
  ok m → keeps_fence h s o → fenced l h s m → fenced l h s (run_op m o).
Proof.
  intros [og H] Hq Hf. pose proof Hf as [Ht Hl]. pose proof (co_fresh _ _ H) as Hfresh.
  assert (Hpub : ∀ d s' r, fenced l h s (fst (publish_record print_record m d s' r))).
  { intros d s' r. unfold publish_record. by destruct (can_publish d). }
  destruct o as [d h' s' who|d c t|d c t|c|h' s' line|d i|i b|s'|k b|h']; cbn [Ownership.run_op].
  - unfold Ownership.claim_take. destruct (negb (can_lock d)); [done|].
    destruct (locks m !! s'); [done|]. destruct (read_record read_value m d s') as [prev|]; [|done].
    unfold publish_record. destruct (can_publish d); [|done]. split; cbn.
    + rewrite lookup_insert_ne; [done|]. intros [= -> ->]. by destruct Hq.
    + rewrite lookup_insert_ne; [done|]. intros Heq.
      destruct (Hfresh (next m)) as (Hn & _); [lia|]. congruence.
  - destruct (claims m !! c) as [cl|]; [|done]. unfold commit_transfer.
    set (r := with_transfer _ _ _). specialize (Hpub d (c_session cl) r).
    by destruct (publish_record print_record m d (c_session cl) r) as [m1 [[]|e]].
  - destruct (claims m !! c) as [cl|] eqn:Hc; [|done]. unfold claim_release.
    destruct (negb _); [done|]. unfold publish_record. destruct (can_publish d); [|done].
    eapply (let_go_fenced og) in Hf; [|done..]. exact Hf.
  - destruct (claims m !! c) as [cl|] eqn:Hc; [|done]. unfold claim_drop.
    destruct (negb _); [done|]. cbn [default].
    change (fenced l h s (forget_lease (c_handle cl) (c_session cl) (c_lease cl) (let_go c cl m))).
    eapply (let_go_fenced og) in Hf; [|done..]. destruct Hf as [Ht' Hl']. unfold forget_lease.
    case_bool_decide as Htab; [|done]. split; cbn; [|done].
    rewrite lookup_delete_ne; [done|]. intros [= Hh Hs].
    eapply dead_lease_unclaimed; [done..|]. rewrite Hh, Hs in Htab. congruence.
  - done.
  - destruct (writers m !! i) as [wr|] eqn:Hw; [|done]. destruct (running wr); [done|].
    unfold Ownership.write_enter. destruct (wr_auth wr) as [l'|].
    + unfold guarded. destruct (leases m !! l') as [[b [j|]]|] eqn:Hl'; cbn; [done| |done].
      destruct b; [|done]. split; cbn; [done|]. rewrite lookup_insert_ne; [done|]. congruence.
    + unfold with_session_lock. destruct (negb _); [done|]. by destruct (locks m !! _).
  - destruct (writers m !! i) as [wr|] eqn:Hw; [|done]. destruct (running wr) eqn:Hr; [|done].
    unfold write_finish. destruct (wr_auth wr) as [l'|] eqn:Ha; [|done]. split; cbn; [done|].
    rewrite lookup_insert_ne; [done|]. intros ->.
    destruct (co_running _ _ H _ _ _ Hw Hr Ha) as [b' Hb]. congruence.
  - unfold hold_session. by destruct (locks m !! s').
  - by destruct (held m !! k).
  - split; cbn; apply map_lookup_filter_Some; (split; [done|]).
    + cbn. cbn in Hq. congruence.
    + apply lease_survives_spec. intros c cl Hc _. by eapply dead_lease_unclaimed.
Qed.

Lemma run_ops_fenced l h s ops m :
  ok m → Forall (keeps_fence h s) ops → fenced l h s m → fenced l h s (run_ops m ops).
Proof.
  intros Hok Hq. revert m Hok. induction Hq as [|o ops Ho _ IH]; intros m Hok Hf; [done|].
  apply IH; [by apply machine_op_ok|by apply run_op_fenced].
Qed.

(** A handle that released a session for a hand-over can never write to it
    again until it claims it anew: whatever else happens afterwards - other
    claims, writes, crashes of other processes, prunes - a write started through
    the handle is refused with [OwnershipLost], and so is one that had looked
    its lease up before the release. *)
Theorem released_handle_is_fenced ops d c cl t m1 ops' :
  let m := run_ops boot ops in
  claims m !! c = Some cl →
  claim_release print_record m d c cl t = Some (m1, Ok tt) →
  Forall (keeps_fence (c_handle cl) (c_session cl)) ops' →
  let m2 := run_ops m1 ops' in
  (∀ d' line, let '(m3, i) := write_start m2 (c_handle cl) (c_session cl) line in
     ∃ wr, writers m3 !! i = Some wr ∧
       write_enter m3 d' i wr = Some (drop_writer i m3, Err (OwnershipLost (c_session cl)))) ∧
  (∀ d' i wr, writers m2 !! i = Some wr → wr_auth wr = Some (c_lease cl) →
     write_enter m2 d' i wr = Some (drop_writer i m2, Err (OwnershipLost (wr_session wr)))).
Proof.
  intros m Hc Hrel Hq m2. pose proof (machine_ops_ok boot ops boot_ok) as Hok. fold m in Hok.
  pose proof (claim_release_ok _ _ _ _ _ _ _ Hok Hc Hrel) as Hok1.
  assert (Hf : fenced (c_lease cl) (c_handle cl) (c_session cl) m1).
  { destruct Hok as [og H]. destruct (co_claim _ _ H _ _ Hc) as (Ht & _).
    unfold claim_release in Hrel. destruct (mutex_free m (c_lease cl)); [|done].
    cbn [negb] in Hrel. unfold publish_record in Hrel. destruct (can_publish d); [|done].
    injection Hrel as <-. split; [exact Ht|]. cbn. by rewrite lookup_insert_eq. }
  pose proof (run_ops_fenced _ _ _ ops' m1 Hok1 Hq Hf) as [Ht Hl]. fold m2 in Ht, Hl. split.
  - intros d' line. cbn. eexists. rewrite lookup_insert_eq. split; [done|].
    unfold Ownership.write_enter, lease_in. cbn [wr_auth]. rewrite Ht. unfold guarded. cbn [leases].
    by rewrite Hl.
  - intros d' i wr Hw Ha. unfold Ownership.write_enter. rewrite Ha. unfold guarded. by rewrite Hl.
Qed.

(** ** Records *)

Definition published (m : Machine) : Prop := ∀ c cl,
  claims m !! c = Some cl →
  records m !! c_session cl = Some (print_record (c_record cl)) ∧
  or_v (c_record cl) = OWNER_RECORD_VERSION.

Lemma locked_by_claim og m c cl :
  coherent og m → claims m !! c = Some cl → locks m !! c_session cl = Some (ByClaim c).
Proof. intros H Hc. apply (co_lock_claim _ _ H). by exists cl. Qed.

(** Whether an operation publishes the record of [s]. *)
Definition publishes (m : Machine) (s : SessionId) (o : op) : Prop :=
  match o with
  | Take _ _ s' _ => s' = s
  | Commit _ c _ | Release _ c _ => ∃ cl, claims m !! c = Some cl ∧ c_session cl = s
  | Unhold k removed => removed = true ∧ held m !! k = Some s
  | _ => False
  end.

Lemma records_kept m s o : ¬ publishes m s o → records (run_op m o) !! s = records m !! s.
Proof.
  intros Hno.
  assert (Hpub : ∀ d s' r, s' ≠ s →
    records (fst (publish_record print_record m d s' r)) !! s = records m !! s).
  { intros d s' r Hne. unfold publish_record. destruct (can_publish d); [|done]. cbn.
    by rewrite lookup_insert_ne. }
  destruct o as [d h' s' who|d c t|d c t|c|h' s' line|d i|i b|s'|k b|h']; cbn [Ownership.run_op] in *.
  - unfold Ownership.claim_take. destruct (negb (can_lock d)); [done|].
    destruct (locks m !! s'); [done|]. destruct (read_record read_value m d s') as [prev|]; [|done].
    set (r := mkOwnerRecord _ _ _ _). specialize (Hpub d s' r Hno).
    destruct (publish_record print_record m d s' r) as [m1 [[]|e]]; exact Hpub.
  - destruct (claims m !! c) as [cl|] eqn:Hc; [|done]. unfold commit_transfer.
    set (r := with_transfer _ _ _).
    assert (Hne : c_session cl ≠ s) by (intros <-; apply Hno; cbn; by exists cl).
    specialize (Hpub d (c_session cl) r Hne).
    destruct (publish_record print_record m d (c_session cl) r) as [m1 [[]|e]]; exact Hpub.
  - destruct (claims m !! c) as [cl|] eqn:Hc; [|done]. unfold claim_release.
    destruct (negb _); [done|]. set (r := with_transfer _ _ _).
    assert (Hne : c_session cl ≠ s) by (intros <-; apply Hno; cbn; by exists cl).
    specialize (Hpub d (c_session cl) r Hne).
    destruct (publish_record print_record m d (c_session cl) r) as [m1 [[]|e]]; exact Hpub.
  - destruct (claims m !! c) as [cl|]; [|done]. unfold claim_drop. by destruct (negb _).
  - done.
  - destruct (writers m !! i) as [wr|]; [|done]. destruct (running wr); [done|].
    unfold Ownership.write_enter. destruct (wr_auth wr) as [l'|].
    + unfold guarded. destruct (leases m !! l') as [[b' [j|]]|]; cbn; [done| |done].
      by destruct b'.
    + unfold with_session_lock. destruct (negb _); [done|]. by destruct (locks m !! _).
  - destruct (writers m !! i) as [wr|]; [|done]. destruct (running wr); [|done].
    unfold write_finish. by destruct (wr_auth wr).
  - unfold hold_session. by destruct (locks m !! s').
  - destruct (held m !! k) as [s'|] eqn:Hk; [|done]. cbn. destruct b; [|done].
    rewrite lookup_delete_ne; [done|]. intros ->. by apply Hno.
  - done.
Qed.

Lemma published_sub m m' :
  published m → records m' = records m →
  (∀ c cl, claims m' !! c = Some cl → claims m !! c = Some cl) → published m'.
Proof. intros Hp Hr Hc c cl Hcl. rewrite Hr. by apply (Hp c), Hc. Qed.

Lemma run_op_published m o : ok m → published m → published (run_op m o).
Proof.
  intros [og H] Hp. pose proof (λ c c' cl cl', claim_unique og m c c' cl cl' H) as Huniq.
  destruct o as [d h' s' who|d c t|d c t|c|h' s' line|d i|i b|s'|k b|h']; cbn [Ownership.run_op].
  - unfold Ownership.claim_take. destruct (negb (can_lock d)); [done|].
    destruct (locks m !! s') eqn:Hlock; [done|].
    destruct (read_record read_value m d s') as [prev|]; [|done].
    unfold publish_record. destruct (can_publish d); [|done]. cbn.
    intros c cl Hcl. cbn in Hcl |- *. apply lookup_insert_Some in Hcl as [[<- <-]|[_ Hcl]].
    + cbn. by rewrite lookup_insert_eq.
    + rewrite lookup_insert_ne; [by apply (Hp c)|]. intros ->.
      apply (locked_by_claim og) in Hcl; [congruence|done].
  - destruct (claims m !! c) as [cl|] eqn:Hc; [|done]. unfold commit_transfer, publish_record.
    destruct (can_publish d); [|done]. cbn. intros c' cl' Hcl. cbn in Hcl |- *.
    apply lookup_insert_Some in Hcl as [[<- <-]|[Hne Hcl]].
    + cbn. rewrite lookup_insert_eq. split; [done|]. by apply (Hp c) in Hc as [_ ?].
    + rewrite lookup_insert_ne; [by apply (Hp c')|]. intros Hs. apply Hne.
      eapply Huniq; [done..|by left].
  - destruct (claims m !! c) as [cl|] eqn:Hc; [|done]. unfold claim_release, publish_record.
    destruct (negb _); [done|]. destruct (can_publish d); [|done]. cbn.
    intros c' cl' Hcl. cbn in Hcl |- *. apply lookup_delete_Some in Hcl as [Hne Hcl].
    rewrite lookup_insert_ne; [by apply (Hp c')|]. intros Hs. apply Hne.
    eapply Huniq; [done..|by left].
  - destruct (claims m !! c) as [cl|]; [|done]. unfold claim_drop. destruct (negb _); [done|].
    apply (published_sub m); [done..|]. cbn. by intros c' cl' [_ ?]%lookup_delete_Some.
  - by apply (published_sub m).
  - destruct (writers m !! i) as [wr|]; [|done]. destruct (running wr); [done|].
    unfold Ownership.write_enter. destruct (wr_auth wr) as [l'|].
    + unfold guarded. destruct (leases m !! l') as [[b' [j|]]|]; cbn; [done| |done].
      destruct b'; by apply (published_sub m).
    + unfold with_session_lock. destruct (negb _); [by apply (published_sub m)|].
      destruct (locks m !! _); by apply (published_sub m).
  - destruct (writers m !! i) as [wr|]; [|done]. destruct (running wr); [|done].
    unfold write_finish. destruct (wr_auth wr); by apply (published_sub m).
  - unfold hold_session. destruct (locks m !! s'); by apply (published_sub m).
  - destruct (held m !! k) as [s'|] eqn:Hk; [|done]. intros c cl Hcl. cbn in Hcl |- *.
    destruct b; [|by apply (Hp c)]. rewrite lookup_delete_ne; [by apply (Hp c)|].
    intros ->. apply (locked_by_claim og) in Hcl; [|done]. apply (co_lock_held _ _ H) in Hk. congruence.
  - apply (published_sub m); [done..|]. cbn. by intros c cl [? _]%map_lookup_filter_Some.
Qed.

Lemma run_ops_published m ops : ok m → published m → published (run_ops m ops).
Proof.
  revert m. induction ops as [|o ops IH]; intros m Hok Hp; [done|].
  apply IH; [by apply machine_op_ok|by apply run_op_published].
Qed.

Lemma boot_published : published boot.
Proof. intros c cl Hc. cbn in Hc. by rewrite lookup_empty in Hc. Qed.

(** [serde_json] reads back what it printed. *)
Definition reads_back : Prop := ∀ r, read_value (print_record r) = Some (Some (or_v r), Some r).

(** Neither a claim of [s] nor a prune. *)
Definition leaves_record (s : SessionId) (o : op) : Prop :=
  match o with
  | Take _ _ s' _ => s' ≠ s
  | Unhold _ removed => removed = false
  | _ => True
  end.

(** Only a claim makes a claim. *)
Lemma claims_from m o c cl :
  claims (run_op m o) !! c = Some cl →
  (∃ cl', claims m !! c = Some cl' ∧ c_session cl' = c_session cl) ∨
  (∃ d h who, o = Take d h (c_session cl) who).
Proof.
  assert (Hsame : ∀ m', claims m' = claims m → claims m' !! c = Some cl →
    (∃ cl', claims m !! c = Some cl' ∧ c_session cl' = c_session cl) ∨
    (∃ d h who, o = Take d h (c_session cl) who)).
  { intros m' -> Hc. left. by exists cl. }
  destruct o as [d h' s' who|d c' t|d c' t|c'|h' s' line|d i|i b|s'|k b|h'];
    cbn [Ownership.run_op]; try by apply Hsame.
  - unfold Ownership.claim_take. destruct (negb (can_lock d)); [by apply Hsame|].
    destruct (locks m !! s'); [by apply Hsame|].
    destruct (read_record read_value m d s') as [prev|]; [|by apply Hsame].
    unfold publish_record. destruct (can_publish d); [|by apply Hsame]. cbn.
    intros [[<- <-]|[_ Hc]]%lookup_insert_Some; [right; by exists d, h', who|left; by exists cl].
  - destruct (claims m !! c') as [cl'|] eqn:Hc'; [|by apply Hsame].
    unfold commit_transfer, publish_record. destruct (can_publish d); [|by apply Hsame]. cbn.
    intros [[<- <-]|[_ Hc]]%lookup_insert_Some; left; [by exists cl'|by exists cl].
  - destruct (claims m !! c') as [cl'|] eqn:Hc'; [|by apply Hsame].
    unfold claim_release, publish_record. destruct (negb _); [by apply Hsame|].
    destruct (can_publish d); [|by apply Hsame]. cbn.
    intros [_ ?]%lookup_delete_Some. left. by exists cl.
  - destruct (claims m !! c') as [cl'|] eqn:Hc'; [|by apply Hsame]. unfold claim_drop.
    destruct (negb _); [by apply Hsame|]. cbn. intros [_ ?]%lookup_delete_Some. left. by exists cl.
  - destruct (writers m !! i) as [wr|]; [|by apply Hsame].
    destruct (running wr); [by apply Hsame|]. unfold Ownership.write_enter.
    destruct (wr_auth wr) as [l'|].
    + unfold guarded. destruct (leases m !! l') as [[b' [j|]]|]; cbn; [by apply Hsame| |by apply Hsame].
      destruct b'; by apply Hsame.
    + unfold with_session_lock. destruct (negb _); [by apply Hsame|].
      destruct (locks m !! _); by apply Hsame.
  - destruct (writers m !! i) as [wr|]; [|by apply Hsame].
    destruct (running wr); [|by apply Hsame]. unfold write_finish.
    destruct (wr_auth wr); by apply Hsame.
  - unfold hold_session. destruct (locks m !! s'); by apply Hsame.
  - destruct (held m !! k); by apply Hsame.
  - cbn. intros [Hc _]%map_lookup_filter_Some. left. by exists cl.
Qed.

(** Until it is claimed, a session without a claim keeps its record. *)
Lemma unclaimed_record_kept m s ops :
  (∀ c cl, claims m !! c = Some cl → c_session cl ≠ s) →
  Forall (leaves_record s) ops →
  records (run_ops m ops) !! s = records m !! s.
Proof.
  intros Hno Hq. revert m Hno. induction Hq as [|o ops Ho _ IH]; intros m Hno; [done|].
  change (run_ops m (o :: ops)) with (run_ops (run_op m o) ops). rewrite IH.
  - apply records_kept. destruct o; cbn in *; subst; first
      [done | by intros [] | intros (cl & Hc & Hs); by apply (Hno _ _ Hc)].
  - intros c cl Hc <-. apply claims_from in Hc as [(cl' & Hc & Hs)|(d & h & who & ->)].
    + by apply (Hno _ _ Hc).
    + by apply Ho.
Qed.

Lemma take_spec m d h s who m' c :
  claim_take m d h s who = (m', Ok c) →
  ∃ prev cl, read_record read_value m d s = Ok prev ∧ locks m !! s = None ∧
    claims m' !! c = Some cl ∧ c_session cl = s ∧ c_handle cl = h ∧ c_previous cl = prev ∧
    c_record cl = mkOwnerRecord OWNER_RECORD_VERSION
      (u64_sat_add (match prev with Some r => generation r | None => 0 end) 1) who None ∧
    records m' !! s = Some (print_record (c_record cl)).
Proof.
  unfold Ownership.claim_take. destruct (negb (can_lock d)); [done|].
  destruct (locks m !! s) eqn:Hl; [done|].
  destruct (read_record read_value m d s) as [prev|] eqn:Hr; [|done].
  unfold publish_record. destruct (can_publish d); [|done]. cbn. intros [= <- <-].
  eexists prev, _. cbn. rewrite !lookup_insert_eq. by split_and!.
Qed.

Lemma read_published m d s r :
  reads_back → records m !! s = Some (print_record r) → or_v r = OWNER_RECORD_VERSION →
  read_record read_value m d s = if can_read d then Ok (Some r) else Err (Io "record").
Proof.
  intros Hcodec Hr Hv. unfold read_record. rewrite Hr, Hcodec, Hv.
  destruct (can_read d); [|done]. cbn [negb]. by rewrite bool_decide_true.
Qed.

(** A hand-over is all or nothing and is seen by whoever comes next.  A
    release whose publication fails changes nothing at all, so the source is
    still the sole owner; one that succeeds frees the lock and leaves the
    released record, which the next claim of the session - by any process, after
    anything else that may happen - reads as its predecessor, one generation
    below its own; and a release waits exactly while a write runs under its
    lease. *)
Theorem handover_is_seen ops d c cl t :
  reads_back →
  let m := run_ops boot ops in
  claims m !! c = Some cl →
  match claim_release print_record m d c cl t with
  | None => ∃ i wr, writers m !! i = Some wr ∧ running wr = true ∧ wr_auth wr = Some (c_lease cl)
  | Some (m1, Err _) => m1 = m
  | Some (m1, Ok _) =>
      locks m1 !! c_session cl = None ∧
      ∀ ops' d' h' who m3 c', Forall (leaves_record (c_session cl)) ops' →
        claim_take (run_ops m1 ops') d' h' (c_session cl) who = (m3, Ok c') →
        ∃ cl', claims m3 !! c' = Some cl' ∧
          c_previous cl' = Some (with_transfer (c_record cl) Released t) ∧
          generation (c_record cl') = u64_sat_add (generation (c_record cl)) 1
  end.
Proof.
  intros Hcodec m Hc. pose proof (machine_ops_ok boot ops boot_ok) as [og H]. fold m in H.
  destruct (run_ops_published boot ops boot_ok boot_published c cl Hc) as [_ Hv]. fold m in Hc.
  unfold claim_release. destruct (mutex_free m (c_lease cl)) eqn:Hfree; cbn [negb].
  2: { destruct (co_claim _ _ H _ _ Hc) as (_ & _ & e & Hl). unfold mutex_free in Hfree.
       rewrite Hl in Hfree. cbn in Hfree. apply bool_decide_eq_false in Hfree.
       destruct e as [i|]; [|done]. destruct (co_entered _ _ H _ _ _ Hl) as [_ (wr & ? & ? & ?)].
       by exists i, wr. }
  unfold publish_record. destruct (can_publish d); [|done].
  set (r := with_transfer (c_record cl) Released t). split; [cbn; by rewrite lookup_delete_eq|].
  intros ops' d' h' who m3 c' Hq Htake. set (m1 := let_go _ _ _) in *.
  apply take_spec in Htake as (prev & cl' & Hread & _ & Hcl' & _ & _ & Hprev & Hrec & _).
  assert (Hr : records (run_ops m1 ops') !! c_session cl = Some (print_record r)).
  { rewrite unclaimed_record_kept; [cbn; by rewrite lookup_insert_eq| |done].
    intros c2 cl2 Hc2. cbn in Hc2. apply lookup_delete_Some in Hc2 as [Hne Hc2]. intros Hs.
    apply Hne. eapply (claim_unique og m); [done..|]. by left. }
  rewrite (read_published _ _ _ r Hcodec Hr Hv) in Hread.
  destruct (can_read d'); [|done]. injection Hread as <-.
  exists cl'. split_and!; [done..|]. by rewrite Hrec.
Qed.

(** ** Generations *)

Definition disk_generation (m : Machine) (s : SessionId) : N :=
  match read_record read_value m healthy s with Ok (Some r) => generation r | _ => 0 end.

(** Whether an operation is a claim of [s] that succeeds, and how many of a
    history do. *)
Definition took (m : Machine) (s : SessionId) (o : op) : bool :=
  match o with Take d h s' who => (s' =? s) && is_ok (snd (claim_take m d h s' who)) | _ => false end.
Fixpoint claims_taken (m : Machine) (s : SessionId) (ops : list op) : N :=
  match ops with
  | [] => 0
  | o :: ops => (if took m s o then 1 else 0) + claims_taken (run_op m o) s ops
  end.

(** What is on disk was published. *)
Definition own_record (m : Machine) (s : SessionId) : Prop :=
  ∀ body, records m !! s = Some body →
    ∃ r, body = print_record r ∧ or_v r = OWNER_RECORD_VERSION.

Definition no_prune (o : op) : Prop := match o with Unhold _ removed => removed = false | _ => True end.

Lemma disk_generation_of m s r :
  reads_back → records m !! s = Some (print_record r) → or_v r = OWNER_RECORD_VERSION →
  disk_generation m s = generation r.
Proof. intros Hc Hr Hv. unfold disk_generation. by rewrite (read_published _ _ _ r Hc Hr Hv). Qed.

Lemma disk_generation_same m m' s :
  records m' !! s = records m !! s → disk_generation m' s = disk_generation m s.
Proof. intros Hr. unfold disk_generation, read_record. by rewrite Hr. Qed.

Lemma generation_step m s o :
  reads_back → published m → own_record m s → no_prune o →
  disk_generation (run_op m o) s =
    (if took m s o then u64_sat_add (disk_generation m s) 1 else disk_generation m s) ∧
  own_record (run_op m o) s.
Proof.
  intros Hcodec Hp Hown Hq.
  assert (Hsame : ∀ m', records m' !! s = records m !! s → took m s o = false →
    disk_generation m' s = (if took m s o then u64_sat_add (disk_generation m s) 1
                            else disk_generation m s) ∧ own_record m' s).
  { intros m' Hr ->. split; [by apply disk_generation_same|]. intros body. rewrite Hr. apply Hown. }
  assert (Hrenew : ∀ m' c cl st t, claims m !! c = Some cl → c_session cl = s → took m s o = false →
    records m' !! s = Some (print_record (with_transfer (c_record cl) st t)) →
    disk_generation m' s = (if took m s o then u64_sat_add (disk_generation m s) 1
                            else disk_generation m s) ∧ own_record m' s).
  { intros m' c cl st t Hc <- -> Hr. destruct (Hp c cl Hc) as [Hr0 Hv].
    rewrite (disk_generation_of m' _ _ Hcodec Hr Hv), (disk_generation_of m _ _ Hcodec Hr0 Hv).
    split; [done|]. intros body. rewrite Hr. intros [= <-]. by eexists. }
  destruct o as [d h' s' who|d c t|d c t|c|h' s' line|d i|i b|s'|k b|h'].
  2: { cbn [Ownership.run_op]. destruct (claims m !! c) as [cl|] eqn:Hc; [|by apply Hsame].
       unfold commit_transfer, publish_record. destruct (can_publish d); [|by apply Hsame]. cbn [fst].
       destruct (decide (c_session cl = s)) as [Hs|Hs].
       - eapply Hrenew; [done..|]. cbn. by rewrite Hs, lookup_insert_eq.
       - apply Hsame; [|done]. cbn. by rewrite lookup_insert_ne. }
  2: { cbn [Ownership.run_op]. destruct (claims m !! c) as [cl|] eqn:Hc; [|by apply Hsame].
       unfold claim_release, publish_record. destruct (negb _); [by apply Hsame|].
       destruct (can_publish d); [|by apply Hsame].
       destruct (decide (c_session cl = s)) as [Hs|Hs].
       - eapply Hrenew; [done..|]. cbn. by rewrite Hs, lookup_insert_eq.
       - apply Hsame; [|done]. cbn. by rewrite lookup_insert_ne. }
  2-8: apply Hsame; [apply records_kept; cbn in *; subst; first [by intros [] | by intros (? & ? & ?)]|done].
  destruct (decide (s' = s)) as [->|Hne].
  2: { apply Hsame; [by apply records_kept|]. cbn. by rewrite (proj2 (N.eqb_neq _ _) Hne). }
  cbn [Ownership.run_op took]. rewrite N.eqb_refl.
  destruct (claim_take m d h' s who) as [m' [c|e]] eqn:Htake; cbn [andb is_ok fst snd].
  - apply take_spec in Htake as (prev & cl & Hread & _ & _ & _ & _ & _ & Hrec & Hr).
    assert (Hv : or_v (c_record cl) = OWNER_RECORD_VERSION) by by rewrite Hrec.
    rewrite (disk_generation_of m' _ _ Hcodec Hr Hv), Hrec. cbn [generation]. split.
    + destruct (records m !! s) as [body|] eqn:Hbody.
      * destruct (Hown body Hbody) as (r & -> & Hvr).
        rewrite (disk_generation_of m _ r Hcodec Hbody Hvr).
        rewrite (read_published _ _ _ r Hcodec Hbody Hvr) in Hread.
        destruct (can_read d); [|done]. by injection Hread as <-.
      * unfold disk_generation, read_record in *. rewrite Hbody in *. by injection Hread as <-.
    + intros body. rewrite Hr. intros [= <-]. by eexists.
  - assert (Hm : m' = m); [|subst m'; split; [done|exact Hown]].
    revert Htake. unfold Ownership.claim_take, publish_record.
    destruct (negb (can_lock d)); [by intros [= <- _]|]. destruct (locks m !! s); [by intros [= <- _]|].
    destruct (read_record read_value m d s); [|by intros [= <- _]].
    destruct (can_publish d); [done|by intros [= <- _]].
Qed.

(** As long as nothing is pruned, the generation in a session's owner record
    is exactly the number of claims of the session that ever succeeded, in any
    process, capped at the largest [u64]: refused claims, failed publications,
    commits, releases, writes and crashes do not count. *)
Theorem generation_counts_claims ops s :
  reads_back → Forall no_prune ops →
  disk_generation (run_ops boot ops) s = N.min (claims_taken boot s ops) U64_MAX.
Proof.
  intros Hcodec Hq.
  assert (Hgen : ∀ m g, ok m → published m → own_record m s → disk_generation m s = N.min g U64_MAX →
    disk_generation (run_ops m ops) s = N.min (g + claims_taken m s ops) U64_MAX).
  { induction Hq as [|o ops Ho _ IH]; intros m g Hok Hp Hown Hg; cbn [claims_taken].
    - by rewrite N.add_0_r.
    - destruct (generation_step m s o Hcodec Hp Hown Ho) as [Hstep Hown'].
      change (run_ops m (o :: ops)) with (run_ops (run_op m o) ops).
      rewrite (IH _ (g + (if took m s o then 1 else 0))); [f_equal; lia|..|].
      + by apply machine_op_ok.
      + by apply run_op_published.
      + done.
      + rewrite Hstep. destruct (took m s o); [|by rewrite N.add_0_r].
        unfold u64_sat_add. rewrite Hg. unfold U64_MAX. lia. }
  rewrite (Hgen boot 0 boot_ok boot_published); [by rewrite N.add_0_l| |done].
  intros body Hb. cbn in Hb. by rewrite lookup_empty in Hb.
Qed.
End store.

(** ** A concrete codec and machine *)

#[local] Instance HolderKind_eq_dec : EqDecision HolderKind.
Proof. solve_decision. Defined.
#[local] Instance HolderKind_countable : Countable HolderKind.
Proof.
  refine (inj_countable' (λ k, match k with Tui => 0 | Server => 1 | Other => 2 end)
            (λ n, match n with 0 => Tui | 1 => Server | _ => Other end) _); by intros [].
Defined.
#[local] Instance Holder_eq_dec : EqDecision Holder.
Proof. solve_decision. Defined.
#[local] Instance Holder_countable : Countable Holder.
Proof.
  refine (inj_countable' (λ h, (instance h, pid h, holder_kind h))
            (λ t, mkHolder t.1.1 t.1.2 t.2) _); by intros [].
Defined.
#[local] Instance TransferState_eq_dec : EqDecision TransferState.
Proof. solve_decision. Defined.
#[local] Instance TransferState_countable : Countable TransferState.
Proof.
  refine (inj_countable' (λ k, match k with Released => true | Committed => false end)
            (λ b, if b then Released else Committed) _); by intros [].
Defined.
#[local] Instance TransferRecord_eq_dec : EqDecision TransferRecord.
Proof. solve_decision. Defined.
#[local] Instance TransferRecord_countable : Countable TransferRecord.
Proof.
  refine (inj_countable' (λ t, (tr_id t, tr_state t, tr_tail t, tr_manifest_digest t))
            (λ t, mkTransfer t.1.1.1 t.1.1.2 t.1.2 t.2) _); by intros [].
Defined.
#[local] Instance OwnerRecord_eq_dec : EqDecision OwnerRecord.
Proof. solve_decision. Defined.
#[local] Instance OwnerRecord_countable : Countable OwnerRecord.
Proof.
  refine (inj_countable' (λ r, (or_v r, generation r, or_holder r, transfer r))
            (λ t, mkOwnerRecord t.1.1.1 t.1.1.2 t.1.2 t.2) _); by intros [].
Defined.

Fixpoint print_bits (p : positive) : string :=
  match p with xH => "" | xO p => String "0"%char (print_bits p) | xI p => String "1"%char (print_bits p) end.
Fixpoint read_bits (s : string) : positive :=
  match s with
  | "" => xH
  | String c s => if bool_decide (c = "0"%char) then xO (read_bits s) else xI (read_bits s)
  end.
Lemma read_print_bits p : read_bits (print_bits p) = p.
Proof. induction p as [p IH|p IH|]; cbn; by rewrite ?IH. Qed.

Definition print_demo (r : OwnerRecord) : string := print_bits (encode r).
Definition read_demo (s : string) : option (option N * option OwnerRecord) :=
  r ← decode (read_bits s); Some (Some (or_v r), Some r).
Lemma demo_reads_back : reads_back read_demo print_demo.
Proof. intros r. unfold read_demo, print_demo. rewrite read_print_bits, decode_encode. done. Qed.

Definition who1 : Holder := mkHolder "a" 10 Tui.
Definition who2 : Holder := mkHolder "b" 20 Server.
Definition transfer1 : TransferRecord := mkTransfer "t1" Committed (Some 5) "d".

(** Handle 1 claims session 7, a write of it starts and runs to its end while a
    second one only looked its lease up. *)
Definition story : list op :=
  [Take healthy 1 7 who1; WriteStart 1 7 "x"; WriteStart 1 7 "y"; WriteEnter healthy 2;
   WriteFinish 2 true].
(** After the release: another process claims the session, writes and dies; a
    claim through handle 1 of another session. *)
Definition sequel : list op :=
  [Take healthy 2 7 who2; WriteStart 2 7 "z"; WriteEnter healthy 6; Crash 2; Take healthy 1 8 who1].

Definition claim1 : SessionClaim :=
  mkClaim 7 1 0 None (mkOwnerRecord OWNER_RECORD_VERSION 1 who1 None).

Lemma released_handle_is_fenced_witness :
  let m := run_ops read_demo print_demo boot story in
  ∃ m1, claim_release print_demo m healthy 1 claim1 transfer1 = Some (m1, Ok tt) ∧
  let m2 := run_ops read_demo print_demo m1 sequel in
  (∀ d' line, let '(m3, i) := write_start m2 1 7 line in
     ∃ wr, writers m3 !! i = Some wr ∧
       write_enter read_demo m3 d' i wr = Some (drop_writer i m3, Err (OwnershipLost 7))) ∧
  (∀ d' i wr, writers m2 !! i = Some wr → wr_auth wr = Some 0 →
     write_enter read_demo m2 d' i wr = Some (drop_writer i m2, Err (OwnershipLost (wr_session wr)))).
Proof.
  intros m. assert (Hrel : ∃ m1, claim_release print_demo m healthy 1 claim1 transfer1 = Some (m1, Ok tt))
    by (eexists; vm_compute; reflexivity).
  destruct Hrel as [m1 Hrel]. exists m1. split; [exact Hrel|].
  apply (released_handle_is_fenced read_demo print_demo story healthy 1 claim1 transfer1 m1 sequel).
  - vm_compute. reflexivity.
  - exact Hrel.
  - repeat constructor; cbn; lia.
Defined.

Lemma handover_is_seen_witness :
  let m := run_ops read_demo print_demo boot story in
  match claim_release print_demo m healthy 1 claim1 transfer1 with
  | None => ∃ i wr, writers m !! i = Some wr ∧ running wr = true ∧ wr_auth wr = Some 0
  | Some (m1, Err _) => m1 = m
  | Some (m1, Ok _) =>
      locks m1 !! 7 = None ∧
      ∀ ops' d' h' who m3 c', Forall (leaves_record 7) ops' →
        claim_take read_demo print_demo (run_ops read_demo print_demo m1 ops') d' h' 7 who
          = (m3, Ok c') →
        ∃ cl', claims m3 !! c' = Some cl' ∧
          c_previous cl' = Some (with_transfer (c_record claim1) Released transfer1) ∧
          generation (c_record cl') = u64_sat_add 1 1
  end.
Proof.
  apply (handover_is_seen read_demo print_demo story healthy 1 claim1 transfer1).
  - exact demo_reads_back.
  - vm_compute. reflexivity.
Defined.

Lemma generation_counts_claims_witness :
  let ops := story ++ [Release healthy 1 transfer1] ++ sequel in
  disk_generation read_demo (run_ops read_demo print_demo boot ops) 7 = 2.
Proof.
  intros ops. transitivity (N.min (claims_taken read_demo print_demo boot 7 ops) U64_MAX).
  - apply generation_counts_claims; [exact demo_reads_back|repeat constructor].
  - vm_compute. reflexivity.
Defined.
