(* ===== verification/Monitor.v ===== *)
(** * Degenerate output (crates/localpilot-recovery/src/detect.rs, first part)

    The tests for a flood of slashes and for a token repeated over and over: the
    one that reads a whole text, and the monitor that is fed the text piece by
    piece while it streams.  A text is its characters, as Unicode scalar values. *)

From stdpp Require Import base list numbers.
From S2P Require Import Prelude.
#[local] Open Scope N_scope.

Abbreviation Text := (list N).

Definition LF : N := 10.
Definition CR : N := 13.
Definition SLASH : N := 47.
Definition BACKTICK : N := 96.

(** [char::is_whitespace]: the property White_Space. *)
Definition is_whitespace (c : N) : bool :=
  ((9 <=? c) && (c <=? 13)) || (c =? 32) || (c =? 0x85) || (c =? 0xA0) || (c =? 0x1680)
  || ((0x2000 <=? c) && (c <=? 0x200A)) || (c =? 0x2028) || (c =? 0x2029) || (c =? 0x202F)
  || (c =? 0x205F) || (c =? 0x3000).

Inductive BadOutputKind :=
  | EmptyTurn
  | RepeatedTokenLoop
  | SlashFlood
  | MalformedToolCall
  | MalformedStructuredOutput
  | Unknown.
#[export] Instance BadOutputKind_eq_dec : EqDecision BadOutputKind.
Proof. solve_decision. Defined.

Definition SLASH_FLOOD_THRESHOLD : nat := 8.
Definition SLASH_FLOOD_IN_CODE_THRESHOLD : nat := 40.
Definition REPEATED_TOKEN_THRESHOLD : nat := 10.

(** ** [str] methods *)

(** [str::lines], of the characters read since the last line feed: a line loses
    its line feed and one carriage return before it; what follows the last line
    feed is a line unless it is empty. *)
Definition strip_cr (line : Text) : Text :=
  match list.last line with
  | Some c => if c =? CR then take (length line - 1) line else line
  | None => line
  end.
Fixpoint lines_from (cur s : Text) : list Text :=
  match s with
  | [] => match cur with [] => [] | _ => [cur] end
  | c :: s => if c =? LF then strip_cr cur :: lines_from [] s else lines_from (cur ++ [c]) s
  end.
Definition lines (s : Text) : list Text := lines_from [] s.

Fixpoint trim_start (s : Text) : Text :=
  match s with
  | c :: s' => if is_whitespace c then trim_start s' else s
  | [] => []
  end.

(** [starts_with("```")]. *)
Definition starts_fence (s : Text) : bool :=
  match s with
  | a :: b :: c :: _ => (a =? BACKTICK) && (b =? BACKTICK) && (c =? BACKTICK)
  | _ => false
  end.

(** [str::split_whitespace]. *)
Definition word (cur : Text) : list Text := match cur with [] => [] | _ => [cur] end.
Fixpoint words_from (cur s : Text) : list Text :=
  match s with
  | [] => word cur
  | c :: s => if is_whitespace c then word cur ++ words_from [] s else words_from (cur ++ [c]) s
  end.
Definition split_whitespace (s : Text) : list Text := words_from [] s.

(** ** The whole text *)

Definition is_punct_run_char (c : N) : bool := c =? SLASH.

(** The loop of [longest_repeat_run]: best, current and previous. *)
Definition run_step (st : nat * nat * option N) (c : N) : nat * nat * option N :=
  let '(best, current, previous) := st in
  let current :=
    if is_punct_run_char c && bool_decide (previous = Some c) then S current
    else if is_punct_run_char c then 1%nat
    else 0%nat in
  (Nat.max best current, current, Some c).
Definition longest_repeat_run (line : Text) : nat :=
  (fold_left run_step line (0%nat, 0%nat, None)).1.1.

Definition fence_line (line : Text) : bool := starts_fence (trim_start line).

(** The loop of [max_punctuation_runs]: in_fence, max_outside and max_inside. *)
Definition line_step (st : bool * nat * nat) (line : Text) : bool * nat * nat :=
  let '(in_fence, max_outside, max_inside) := st in
  if fence_line line then (negb in_fence, max_outside, max_inside)
  else
    let run := longest_repeat_run line in
    if in_fence then (in_fence, max_outside, Nat.max max_inside run)
    else (in_fence, Nat.max max_outside run, max_inside).
Definition max_punctuation_runs (text : Text) : nat * nat :=
  let '(_, max_outside, max_inside) := fold_left line_step (lines text) (false, 0%nat, 0%nat) in
  (max_outside, max_inside).

Definition is_slash_flood (text : Text) : bool :=
  let '(max_outside, max_inside) := max_punctuation_runs text in
  (SLASH_FLOOD_THRESHOLD <=? max_outside)%nat || (SLASH_FLOOD_IN_CODE_THRESHOLD <=? max_inside)%nat.

(** The loop of [is_repeated_token_loop]: best, current and previous. *)
Definition token_step (st : nat * nat * option Text) (token : Text) : nat * nat * option Text :=
  let '(best, current, previous) := st in
  let current := if bool_decide (previous = Some token) then S current else 1%nat in
  (Nat.max best current, current, Some token).
Definition is_repeated_token_loop (text : Text) : bool :=
  let '(best, _, _) := fold_left token_step (split_whitespace text) (0%nat, 0%nat, None) in
  (REPEATED_TOKEN_THRESHOLD <=? best)%nat.

Definition detect (text : Text) (has_tool_calls : bool) : option BadOutputKind :=
  if bool_decide (trim_start text = []) && negb has_tool_calls then Some EmptyTurn
  else if is_slash_flood text then Some SlashFlood
  else if is_repeated_token_loop text then Some RepeatedTokenLoop
  else None.

(** ** The stream *)

Inductive LineLead := Pending | Fence | Content.
#[export] Instance LineLead_eq_dec : EqDecision LineLead.
Proof. solve_decision. Defined.

Record StreamMonitor := mkMonitor {
  in_fence : bool;
  line_lead : LineLead;
  prev_char : option N;
  m_run : nat;
  line_max_run : nat;
  m_outside : nat;
  m_inside : nat;
  prev_token : Text;
  token : Text;
  repeat_ : nat;
  max_repeat : nat;
}.
Definition StreamMonitor_default : StreamMonitor :=
  mkMonitor false Pending None 0 0 0 0 [] [] 0 0.

Definition close_token (m : StreamMonitor) : StreamMonitor :=
  match token m with
  | [] => m
  | _ =>
      let r := if bool_decide (token m = prev_token m) then S (repeat_ m) else 1%nat in
      mkMonitor (in_fence m) (line_lead m) (prev_char m) (m_run m) (line_max_run m) (m_outside m)
        (m_inside m) (token m) [] r (Nat.max (max_repeat m) r)
  end.

Definition close_line (m : StreamMonitor) : StreamMonitor :=
  let fence := bool_decide (line_lead m = Fence) in
  close_token
    (mkMonitor (if fence then negb (in_fence m) else in_fence m) Pending None 0 0
       (if fence || in_fence m then m_outside m else Nat.max (m_outside m) (line_max_run m))
       (if fence || negb (in_fence m) then m_inside m else Nat.max (m_inside m) (line_max_run m))
       (prev_token m) (token m) (repeat_ m) (max_repeat m)).

(** The line's leading characters decide whether it toggles a fence; the second
    component is [backticks_pending]. *)
Definition lead_step (lead : LineLead) (pending : nat) (c : N) : LineLead * nat :=
  match lead with
  | Pending =>
      if c =? BACKTICK then
        (if decide (S pending = 3%nat) then Fence else Pending, S pending)
      else if is_whitespace c && bool_decide (pending = 0%nat) then (Pending, pending)
      else (Content, pending)
  | _ => (lead, pending)
  end.

(** One character of [push]. *)
Definition push_char (st : StreamMonitor * nat) (c : N) : StreamMonitor * nat :=
  let '(m, pending) := st in
  if c =? LF then (close_line m, 0%nat)
  else
    let '(lead, pending) := lead_step (line_lead m) pending c in
    let run :=
      if bool_decide (lead = Fence) then m_run m
      else if is_punct_run_char c && bool_decide (prev_char m = Some c) then S (m_run m)
      else if is_punct_run_char c then 1%nat
      else 0%nat in
    let line_max :=
      if bool_decide (lead = Fence) then line_max_run m else Nat.max (line_max_run m) run in
    let m := mkMonitor (in_fence m) lead (Some c) run line_max (m_outside m) (m_inside m)
               (prev_token m) (token m) (repeat_ m) (max_repeat m) in
    (if is_whitespace c then close_token m
     else mkMonitor (in_fence m) (line_lead m) (prev_char m) (m_run m) (line_max_run m)
            (m_outside m) (m_inside m) (prev_token m) (token m ++ [c]) (repeat_ m) (max_repeat m),
     pending).

(** [push]: the count of pending backticks starts anew with every delta. *)
Definition push (m : StreamMonitor) (delta : Text) : StreamMonitor :=
  (fold_left push_char delta (m, 0%nat)).1.

Definition detected (m : StreamMonitor) : bool :=
  let counts := bool_decide (line_lead m ≠ Fence) in
  let outside :=
    if counts && negb (in_fence m) then Nat.max (m_outside m) (line_max_run m) else m_outside m in
  let inside :=
    if counts && in_fence m then Nat.max (m_inside m) (line_max_run m) else m_inside m in
  let repeat_ :=
    match token m with
    | [] => max_repeat m
    | _ => if bool_decide (token m = prev_token m) then Nat.max (max_repeat m) (S (repeat_ m))
           else Nat.max (max_repeat m) 1
    end in
  (SLASH_FLOOD_THRESHOLD <=? outside)%nat || (SLASH_FLOOD_IN_CODE_THRESHOLD <=? inside)%nat
  || (REPEATED_TOKEN_THRESHOLD <=? repeat_)%nat.
