(* ===== verification/MonitorProps.v ===== *)
(** * The streaming monitor against the whole-text tests

    Fed in one piece, or in pieces none of which ends inside the backticks that
    open a line, the monitor reaches the verdict of the whole-text tests; a piece
    that ends there can hide a fence from it. *)

From stdpp Require Import base list numbers.
From S2P Require Import Prelude Monitor.
#[local] Open Scope N_scope.

(** ** What the text read so far amounts to *)

(** The words closed by whitespace and the one still open. *)
Definition word_step (st : list Text * Text) (c : N) : list Text * Text :=
  if is_whitespace c then (st.1 ++ word st.2, []) else (st.1, st.2 ++ [c]).
Definition words_of (s : Text) : list Text * Text := fold_left word_step s ([], []).

(** The lines closed by a line feed, with the carriage returns they end with,
    and the one still open. *)
Definition break_step (st : list Text * Text) (c : N) : list Text * Text :=
  if c =? LF then (st.1 ++ [st.2], []) else (st.1, st.2 ++ [c]).
Definition breaks_of (s : Text) : list Text * Text := fold_left break_step s ([], []).

Lemma words_from_spec s closed cur :
  let '(cl, o) := fold_left word_step s (closed, cur) in
  closed ++ words_from cur s = cl ++ word o.
Proof.
  revert closed cur. induction s as [|c s IH]; intros closed cur; [done|].
  cbn [fold_left words_from]. unfold word_step at 2. cbn [fst snd].
  destruct (is_whitespace c).
  - specialize (IH (closed ++ word cur) []). destruct (fold_left _ _ _) as [cl o].
    by rewrite app_assoc.
  - apply IH.
Qed.

Lemma split_whitespace_spec s : split_whitespace s = (words_of s).1 ++ word (words_of s).2.
Proof.
  pose proof (words_from_spec s [] []) as H. unfold words_of. by destruct (fold_left _ _ _).
Qed.

Lemma lines_from_spec s closed cur :
  let '(cl, o) := fold_left break_step s (closed, cur) in
  (strip_cr <$> closed) ++ lines_from cur s = (strip_cr <$> cl) ++ word o.
Proof.
  revert closed cur. induction s as [|c s IH]; intros closed cur; [by destruct cur|].
  cbn [fold_left lines_from]. unfold break_step at 2. cbn [fst snd]. destruct (c =? LF).
  - specialize (IH (closed ++ [cur]) []). destruct (fold_left _ _ _) as [cl o].
    by rewrite <-IH, fmap_app, <-app_assoc.
  - apply IH.
Qed.

Lemma lines_spec s : lines s = (strip_cr <$> (breaks_of s).1) ++ word (breaks_of s).2.
Proof.
  pose proof (lines_from_spec s [] []) as H. unfold breaks_of. by destruct (fold_left _ _ _).
Qed.

(** ** Lines *)

Definition lead_of (line : Text) : LineLead * nat :=
  fold_left (λ st c, lead_step st.1 st.2 c) line (Pending, 0%nat).
Definition run_of (line : Text) : nat * nat * option N := fold_left run_step line (0%nat, 0%nat, None).
Definition fences_of (ls : list Text) : bool * nat * nat :=
  fold_left line_step ls (false, 0%nat, 0%nat).

Lemma lead_stays lead p line :
  lead ≠ Pending → fold_left (λ st c, lead_step st.1 st.2 c) line (lead, p) = (lead, p).
Proof.
  intros Hl. induction line as [|c line IH]; [done|]. cbn [fold_left fst snd].
  by destruct lead.
Qed.

Lemma backtick_visible : is_whitespace BACKTICK = false.
Proof. reflexivity. Qed.

(** The leading characters find exactly the lines that [trim_start] makes begin
    with a fence. *)
Lemma lead_of_fence line : (lead_of line).1 = Fence ↔ fence_line line = true.
Proof.
  unfold lead_of, fence_line. induction line as [|c line IH]; [done|].
  cbn [fold_left fst snd trim_start lead_step]. destruct (c =? BACKTICK) eqn:Hc.
  - apply N.eqb_eq in Hc as ->. rewrite backtick_visible. cbn [decide].
    rewrite decide_False by done. clear IH.
    destruct line as [|d line]; [done|]. cbn [fold_left fst snd lead_step starts_fence].
    destruct (d =? BACKTICK) eqn:Hd.
    + apply N.eqb_eq in Hd as ->. rewrite decide_False by done.
      destruct line as [|e line]; [done|]. cbn [fold_left fst snd lead_step starts_fence].
      destruct (e =? BACKTICK) eqn:He.
      * rewrite decide_True by done. rewrite lead_stays by done. cbn. done.
      * rewrite (bool_decide_false (2%nat = 0%nat)) by done. rewrite andb_false_r.
        rewrite lead_stays by done. cbn. done.
    + rewrite (bool_decide_false (1%nat = 0%nat)) by done. rewrite andb_false_r.
      rewrite lead_stays by done. cbn. by destruct line.
  - rewrite (bool_decide_true (0%nat = 0%nat)), andb_true_r by done.
    destruct (is_whitespace c); [exact IH|]. rewrite lead_stays by done. cbn.
    destruct line as [|d [|e line]]; by rewrite ?Hc.
Qed.

(** A carriage return at the end of a line changes neither. *)
Lemma strip_cr_cases line : strip_cr line = line ∨ line = strip_cr line ++ [CR].
Proof.
  unfold strip_cr. destruct line as [|c line _] using rev_ind; [by left|].
  rewrite last_snoc. destruct (c =? CR) eqn:Hc; [|by left]. right.
  apply N.eqb_eq in Hc as ->. rewrite length_app. cbn [length].
  by rewrite Nat.add_sub, take_app_length.
Qed.

Lemma lead_step_cr lead p : (lead_step lead p CR).1 = Fence ↔ lead = Fence.
Proof.
  destruct lead; [|done|done]. cbn. destruct (bool_decide (p = 0%nat)); by cbn.
Qed.

Lemma line_step_strip st line : line_step st (strip_cr line) = line_step st line.
Proof.
  destruct (strip_cr_cases line) as [-> | Heq]; [done|].
  assert (Hf : fence_line (strip_cr line) = fence_line line).
  { apply eq_bool_prop_intro. rewrite !Is_true_true, <-!lead_of_fence.
    rewrite Heq at 2. unfold lead_of. rewrite fold_left_app. cbn. symmetry. apply lead_step_cr. }
  assert (Hr : longest_repeat_run (strip_cr line) = longest_repeat_run line).
  { rewrite Heq at 2. unfold longest_repeat_run. rewrite fold_left_app. cbn.
    destruct (fold_left run_step (strip_cr line) _) as [[b c] p]. cbn. lia. }
  unfold line_step. destruct st as [[f mo] mi]. by rewrite Hf, Hr.
Qed.

Lemma fences_strip ls st : fold_left line_step (strip_cr <$> ls) st = fold_left line_step ls st.
Proof.
  revert st. induction ls as [|l ls IH]; intros st; [done|]. cbn. by rewrite line_step_strip, IH.
Qed.

(** ** The monitor's state *)

Definition repeats_of (ts : list Text) : nat * nat * option Text :=
  fold_left token_step ts (0%nat, 0%nat, None).

Record mirrors (text : Text) (m : StreamMonitor) (pending : nat) : Prop := mkMirrors {
  mi_fences : fences_of (breaks_of text).1 = (in_fence m, m_outside m, m_inside m);
  mi_lead : ∃ p, lead_of (breaks_of text).2 = (line_lead m, p) ∧
    (line_lead m = Pending → p = pending);
  mi_run : line_lead m ≠ Fence →
    run_of (breaks_of text).2 = (line_max_run m, m_run m, prev_char m);
  mi_token : token m = (words_of text).2;
  mi_words : ∃ previous, repeats_of (words_of text).1 = (max_repeat m, repeat_ m, previous) ∧
    prev_token m = default [] previous ∧ previous ≠ Some [];
}.

Lemma mirrors_start : mirrors [] StreamMonitor_default 0.
Proof. split; try done; [by exists 0%nat|by exists None]. Qed.

(** What [close_token] leaves, whatever the rest of the monitor. *)
Lemma close_token_mirrors closed open m previous :
  repeats_of closed = (max_repeat m, repeat_ m, previous) → prev_token m = default [] previous →
  previous ≠ Some [] → token m = open →
  let m' := close_token m in
  token m' = [] ∧
  ∃ previous', repeats_of (closed ++ word open) = (max_repeat m', repeat_ m', previous') ∧
    prev_token m' = default [] previous' ∧ previous' ≠ Some [].
Proof.
  intros Hr Hp Hne Ht. unfold close_token. rewrite Ht. destruct open as [|c open].
  - cbn. split; [done|]. exists previous. by rewrite app_nil_r.
  - cbn zeta. split; [done|]. exists (Some (c :: open)).
    assert (Heq : bool_decide (previous = Some (c :: open)) =
                  bool_decide (c :: open = prev_token m)).
    { apply bool_decide_ext. rewrite Hp. destruct previous as [x|]; cbn; [|done]. split; [by intros [= ->]|by intros <-]. }
    unfold repeats_of in *. rewrite fold_left_app, Hr. cbn. rewrite Heq. done.
Qed.

Lemma close_token_rest m :
  in_fence (close_token m) = in_fence m ∧ line_lead (close_token m) = line_lead m ∧
  prev_char (close_token m) = prev_char m ∧ m_run (close_token m) = m_run m ∧
  line_max_run (close_token m) = line_max_run m ∧ m_outside (close_token m) = m_outside m ∧
  m_inside (close_token m) = m_inside m.
Proof. unfold close_token. by destruct (token m). Qed.

Lemma breaks_of_snoc text c : breaks_of (text ++ [c]) = break_step (breaks_of text) c.
Proof. unfold breaks_of. by rewrite fold_left_app. Qed.
Lemma words_of_snoc text c : words_of (text ++ [c]) = word_step (words_of text) c.
Proof. unfold words_of. by rewrite fold_left_app. Qed.

Lemma close_line_mirrors text m pending :
  mirrors text m pending → mirrors (text ++ [LF]) (close_line m) 0.
Proof.
  intros [Hf (p & Hl & _) Hr Ht (previous & Hw & Hp & Hne)].
  unfold close_line. set (m0 := mkMonitor _ _ _ _ _ _ _ _ _ _ _).
  destruct (close_token_mirrors (words_of text).1 (words_of text).2 m0 previous Hw Hp Hne Ht)
    as [Htok Hwords].
  destruct (close_token_rest m0) as (E1 & E2 & E3 & E4 & E5 & E6 & E7).
  assert (Hb : breaks_of (text ++ [LF]) = ((breaks_of text).1 ++ [(breaks_of text).2], []))
    by by rewrite breaks_of_snoc.
  assert (Hwd : words_of (text ++ [LF]) = ((words_of text).1 ++ word (words_of text).2, []))
    by by rewrite words_of_snoc.
  split; rewrite ?Hb, ?Hwd, ?E1, ?E2, ?E3, ?E4, ?E5, ?E6, ?E7; try done; [|by exists 0%nat].
  unfold fences_of in *. cbn [fst]. rewrite fold_left_app, Hf.
  cbn [fold_left m0 in_fence m_outside m_inside]. unfold line_step.
  pose proof (lead_of_fence (breaks_of text).2) as Hfence. rewrite Hl in Hfence. cbn in Hfence.
  destruct (decide (line_lead m = Fence)) as [He|He].
  - rewrite (proj1 Hfence He), (bool_decide_true (line_lead m = Fence)) by done. done.
  - rewrite (bool_decide_false (line_lead m = Fence)) by done.
    destruct (fence_line (breaks_of text).2); [by destruct He; apply Hfence|].
    specialize (Hr He). unfold run_of in Hr. unfold longest_repeat_run. rewrite Hr.
    cbn. by destruct (in_fence m).
Qed.

Lemma push_char_mirrors text m pending c :
  mirrors text m pending →
  let '(m', pending') := push_char (m, pending) c in mirrors (text ++ [c]) m' pending'.
Proof.
  intros Hm. unfold push_char. destruct (c =? LF) eqn:Hlf.
  { apply N.eqb_eq in Hlf as ->. by eapply close_line_mirrors. }
  destruct Hm as [Hf (p & Hl & Hpend) Hr Ht (previous & Hw & Hp & Hne)].
  destruct (lead_step (line_lead m) pending c) as [lead pending'] eqn:Hlead.
  cbn zeta. set (m0 := mkMonitor _ _ _ _ _ _ _ _ _ _ _).
  assert (Hb : breaks_of (text ++ [c]) = ((breaks_of text).1, (breaks_of text).2 ++ [c])).
  { rewrite breaks_of_snoc. unfold break_step. by rewrite Hlf. }
  assert (Hlead' : ∃ p', lead_of ((breaks_of text).2 ++ [c]) = (lead, p') ∧
    (lead = Pending → p' = pending')).
  { unfold lead_of in *. rewrite fold_left_app, Hl. cbn [fold_left fst snd].
    destruct (line_lead m) eqn:Hlm; [rewrite (Hpend eq_refl); by exists pending'|..];
      cbn in Hlead |- *; injection Hlead as <- _; by exists p. }
  assert (Hrun' : lead ≠ Fence →
    run_of ((breaks_of text).2 ++ [c]) = (line_max_run m0, m_run m0, Some c)).
  { intros Hne'. assert (Hold : line_lead m ≠ Fence).
    { intros He. rewrite He in Hlead. cbn in Hlead. congruence. }
    unfold run_of in *. rewrite fold_left_app, (Hr Hold). cbn [fold_left m0 line_max_run m_run].
    rewrite !bool_decide_false by done. done. }
  assert (Hwd : words_of (text ++ [c]) = word_step (words_of text) c) by apply words_of_snoc.
  unfold word_step in Hwd. destruct (is_whitespace c).
  - destruct (close_token_mirrors (words_of text).1 (words_of text).2 m0 previous Hw Hp Hne Ht)
      as [Htok Hwords].
    destruct (close_token_rest m0) as (E1 & E2 & E3 & E4 & E5 & E6 & E7).
    split; rewrite ?Hb, ?Hwd, ?E1, ?E2, ?E3, ?E4, ?E5, ?E6, ?E7; try done.
  - split; rewrite ?Hb, ?Hwd; try done; cbn [fst snd].
    + cbn. by rewrite Ht.
    + by exists previous.
Qed.

Lemma push_mirrors text m pending delta :
  mirrors text m pending →
  let '(m', pending') := fold_left push_char delta (m, pending) in
  mirrors (text ++ delta) m' pending'.
Proof.
  revert text m pending. induction delta as [|c delta IH]; intros text m pending Hm.
  - by rewrite app_nil_r.
  - cbn [fold_left]. pose proof (push_char_mirrors text m pending c Hm) as Hc.
    destruct (push_char (m, pending) c) as [m' pending'].
    specialize (IH _ _ _ Hc). rewrite <-app_assoc in IH. exact IH.
Qed.

(** The verdict of a monitor that mirrors a text. *)
Lemma mirrors_verdict text m pending :
  mirrors text m pending → detected m = is_slash_flood text || is_repeated_token_loop text.
Proof.
  intros [Hf (p & Hl & _) Hr Ht (previous & Hw & Hp & Hne)].
  unfold is_slash_flood, max_punctuation_runs. rewrite lines_spec, fold_left_app, fences_strip.
  unfold fences_of in Hf. rewrite Hf.
  pose proof (lead_of_fence (breaks_of text).2) as Hfence. rewrite Hl in Hfence. cbn in Hfence.
  set (o := (breaks_of text).2) in *.
  assert (Hlines : fold_left line_step (word o) (in_fence m, m_outside m, m_inside m) =
    (if decide (line_lead m = Fence) then (negb (in_fence m), m_outside m, m_inside m)
     else (in_fence m,
           if in_fence m then m_outside m else Nat.max (m_outside m) (line_max_run m),
           if in_fence m then Nat.max (m_inside m) (line_max_run m) else m_inside m))).
  { destruct o as [|c o'] eqn:Ho.
    - cbn in Hl. injection Hl as Hl _. cbn [word fold_left]. rewrite <-Hl. cbn.
      rewrite decide_False by done. rewrite <-Hl in Hr. specialize (Hr ltac:(done)). cbn in Hr.
      injection Hr as <- _ _. rewrite !Nat.max_0_r. by destruct (in_fence m).
    - cbn [word fold_left line_step]. destruct (decide (line_lead m = Fence)) as [He|He].
      + by rewrite (proj1 Hfence He).
      + destruct (fence_line (c :: o')); [by destruct He; apply Hfence|].
        specialize (Hr He). unfold run_of in Hr. unfold longest_repeat_run. rewrite Hr. cbn.
        by destruct (in_fence m). }
  rewrite Hlines. clear Hlines.
  unfold is_repeated_token_loop. rewrite split_whitespace_spec, fold_left_app.
  unfold repeats_of in Hw. rewrite Hw, <-Ht.
  assert (Hwords : (fold_left token_step (word (token m)) (max_repeat m, repeat_ m, previous)).1.1 =
    match token m with
    | [] => max_repeat m
    | _ => if bool_decide (token m = prev_token m) then Nat.max (max_repeat m) (S (repeat_ m))
           else Nat.max (max_repeat m) 1
    end).
  { destruct (token m) as [|c t]; [done|]. cbn [word fold_left token_step fst].
    assert (Heq : bool_decide (previous = Some (c :: t)) = bool_decide (c :: t = prev_token m)).
    { apply bool_decide_ext. rewrite Hp. destruct previous as [x|]; cbn; [|done].
      split; [by intros [= ->]|by intros <-]. }
    rewrite Heq. clear Heq. by case_bool_decide. }
  destruct (fold_left token_step _ _) as [[best cur] prev] in Hwords |- *. cbn [fst] in Hwords.
  rewrite Hwords.
  unfold detected. cbn zeta. destruct (decide (line_lead m = Fence)) as [He|He].
  - rewrite (bool_decide_false (line_lead m ≠ Fence)) by tauto. done.
  - rewrite (bool_decide_true (line_lead m ≠ Fence)) by done. by destruct (in_fence m).
Qed.

(** ** Pieces *)

(** The line being read is one or two backticks after white space: the first
    part of a fence, or not. *)
Definition ends_in_marker (text : Text) : bool :=
  let lead := trim_start (breaks_of text).2 in
  bool_decide (lead = [BACKTICK]) || bool_decide (lead = [BACKTICK; BACKTICK]).

Lemma lead_of_pending line p :
  lead_of line = (Pending, p) → p ≠ 0%nat →
  trim_start line = [BACKTICK] ∨ trim_start line = [BACKTICK; BACKTICK].
Proof.
  unfold lead_of. induction line as [|c line IH]; intros Hl Hp; [by injection Hl as <-|].
  cbn [fold_left fst snd trim_start lead_step] in *. destruct (c =? BACKTICK) eqn:Hc.
  - apply N.eqb_eq in Hc as ->. rewrite backtick_visible. clear IH.
    rewrite decide_False in Hl by done. destruct line as [|d line]; [by left|].
    cbn [fold_left fst snd lead_step] in Hl. destruct (d =? BACKTICK) eqn:Hd.
    + apply N.eqb_eq in Hd as ->. rewrite decide_False in Hl by done.
      destruct line as [|e line]; [by right|]. cbn [fold_left fst snd lead_step] in Hl.
      destruct (e =? BACKTICK).
      * rewrite decide_True in Hl by done. by rewrite lead_stays in Hl.
      * rewrite (bool_decide_false (2%nat = 0%nat)), andb_false_r in Hl by done.
        by rewrite lead_stays in Hl.
    + rewrite (bool_decide_false (1%nat = 0%nat)), andb_false_r in Hl by done.
      by rewrite lead_stays in Hl.
  - rewrite (bool_decide_true (0%nat = 0%nat)), andb_true_r in Hl by done.
    destruct (is_whitespace c); [by apply IH|]. by rewrite lead_stays in Hl.
Qed.

(** Between pieces the count of pending backticks may be forgotten, unless a
    marker has begun. *)
Lemma mirrors_restart text m pending :
  mirrors text m pending → ends_in_marker text = false → mirrors text m 0.
Proof.
  intros [Hf (p & Hl & Hp) Hr Ht Hw] Hno. split; try done. exists p. split; [done|].
  intros He. destruct (decide (p = 0%nat)) as [|Hne]; [done|]. exfalso. rewrite He in Hl.
  apply orb_false_iff in Hno as [H1%bool_decide_eq_false H2%bool_decide_eq_false].
  by destruct (lead_of_pending _ _ Hl Hne).
Qed.

Lemma push_mirrors_piece text m delta :
  mirrors text m 0 → ∃ pending, mirrors (text ++ delta) (push m delta) pending.
Proof.
  intros Hm. pose proof (push_mirrors text m 0 delta Hm) as H. unfold push.
  destruct (fold_left push_char delta (m, 0%nat)) as [m' pending']. by exists pending'.
Qed.

(** C39. The streaming monitor and the whole-text tests agree: fed any text in any
    pieces, none of which but the last stops inside the backticks that open a
    line, the monitor reports a degenerate stream exactly when the accumulated
    text is a flood of slashes or a repeated-token loop.  In one piece this holds
    of every text. *)
Theorem monitor_agrees deltas :
  (∀ i, (i < length deltas)%nat → ends_in_marker (concat (take i deltas)) = false) →
  detected (fold_left push deltas StreamMonitor_default) =
    is_slash_flood (concat deltas) || is_repeated_token_loop (concat deltas).
Proof.
  intros Hcut.
  assert (Hm : ∃ pending, mirrors (concat deltas) (fold_left push deltas StreamMonitor_default) pending).
  { induction deltas as [|delta deltas IH] using rev_ind; [exists 0%nat; apply mirrors_start|].
    destruct IH as [pending Hm].
    { intros i Hi. rewrite <-(take_app_le deltas [delta]) by lia. apply Hcut.
      rewrite length_app. lia. }
    rewrite fold_left_app, concat_app. cbn [fold_left concat]. rewrite app_nil_r.
    apply push_mirrors_piece. eapply mirrors_restart; [done|].
    specialize (Hcut (length deltas)). rewrite take_app_length in Hcut. apply Hcut.
    rewrite length_app. cbn. lia. }
  destruct Hm as [pending Hm]. by eapply mirrors_verdict.
Qed.

Definition fence_text : Text := [BACKTICK; BACKTICK; BACKTICK; LF].
Definition slashes : Text := replicate 8 SLASH.

Lemma monitor_agrees_witness :
  detected (fold_left push [fence_text; slashes; [LF] ++ fence_text; slashes] StreamMonitor_default) =
    is_slash_flood (concat [fence_text; slashes; [LF] ++ fence_text; slashes]) ||
    is_repeated_token_loop (concat [fence_text; slashes; [LF] ++ fence_text; slashes]) ∧
  is_slash_flood (concat [fence_text; slashes; [LF] ++ fence_text; slashes]) = true.
Proof.
  split; [|vm_compute; reflexivity]. apply monitor_agrees. intros i Hi.
  do 4 (destruct i as [|i]; [vm_compute; reflexivity|]). cbn in Hi. lia.
Defined.

(** A piece that ends inside the three backticks hides the fence: eight slashes
    in fenced code are then reported, though the whole text is clean. *)
Lemma split_fence_is_missed :
  let pieces := [[BACKTICK; BACKTICK]; [BACKTICK; LF]; slashes] in
  detected (fold_left push pieces StreamMonitor_default) = true ∧
  is_slash_flood (concat pieces) = false ∧ is_repeated_token_loop (concat pieces) = false.
Proof. vm_compute. done. Qed.
