(* ===== verification/Guards.v ===== *)
(** * The guards of a turn (crates/localpilot-recovery/src/detect.rs, second
    part, and engine.rs)

    Counters that watch the calls of a turn - the same error again, the same
    observation again, no forward progress - the budget for tool calls, and the
    recovery ladder with the model's health.  The hasher of the standard library
    does not specify its algorithm: the two digests are parameters. *)

From Stdlib Require Import SpecFloat.
From stdpp Require Import base gmap list numbers.
From S2P Require Import Prelude Monitor.
#[local] Open Scope N_scope.

(** ** The same error again *)

Definition SAME_ERROR_THRESHOLD : nat := 3.

Definition lower_char (c : N) : N := if (65 <=? c) && (c <=? 90) then c + 32 else c.
Fixpoint join_words (ws : list Text) : Text :=
  match ws with
  | [] => []
  | [w] => w
  | w :: ws => w ++ [32] ++ join_words ws
  end.
Definition error_signature (error : Text) : Text :=
  lower_char <$> join_words (split_whitespace error).

Record RepeatedErrorBreaker := mkBreaker {
  b_threshold : nat;
  b_last : option Text;
  streak : nat;
}.
Definition breaker_new (threshold : nat) : RepeatedErrorBreaker :=
  mkBreaker (Nat.max threshold 1) None 0.
Definition breaker_default : RepeatedErrorBreaker := breaker_new SAME_ERROR_THRESHOLD.

Definition error_key (tool error : Text) : Text := tool ++ [0x1f] ++ error_signature error.

Definition breaker_observe (b : RepeatedErrorBreaker) (tool error : Text)
    : RepeatedErrorBreaker * bool :=
  let signature := error_key tool error in
  let b :=
    if bool_decide (b_last b = Some signature)
    then mkBreaker (b_threshold b) (b_last b) (S (streak b))
    else mkBreaker (b_threshold b) (Some signature) 1 in
  (b, bool_decide (streak b = b_threshold b)).

Definition breaker_reset (b : RepeatedErrorBreaker) : RepeatedErrorBreaker :=
  mkBreaker (b_threshold b) None 0.

(** ** The same observation again *)

Definition REPEATED_OBSERVATION_NUDGE : nat := 2.
Definition REPEATED_OBSERVATION_STOP : nat := 3.

Inductive RepeatedObservation := Fresh | Nudge (count : nat) | Stop (count : nat).

Record RepeatedObservationGuard := mkGuard { g_last : option (N * N); g_count : nat }.
Definition guard_default : RepeatedObservationGuard := mkGuard None 0.

Section digests.
(** [digest] and [digest_pair]. *)
Context (digest : Text → N) (digest_pair : Text → Text → N).

Definition guard_observe (g : RepeatedObservationGuard) (call result : Text)
    : RepeatedObservationGuard * RepeatedObservation :=
  let key := (digest call, digest result) in
  let g := if bool_decide (g_last g = Some key) then mkGuard (g_last g) (S (g_count g))
           else mkGuard (Some key) 1 in
  (g, if (REPEATED_OBSERVATION_STOP <=? g_count g)%nat then Stop (g_count g)
      else if (REPEATED_OBSERVATION_NUDGE <=? g_count g)%nat then Nudge (g_count g)
      else Fresh).

Definition guard_reset (g : RepeatedObservationGuard) : RepeatedObservationGuard := mkGuard None 0.

(** ** No forward progress *)

(** [f64]: the standard library's executable IEEE-754 model. *)
Definition f64_of_nat (n : nat) : spec_float :=
  match N.of_nat n with
  | 0 => S754_zero false
  | Npos p => binary_round 53 1024 false p 0
  end.
Definition f64_div (a b : spec_float) : spec_float := SFdiv 53 1024 a b.
(** [f64::clamp]. *)
Definition f64_clamp (v lo hi : spec_float) : spec_float :=
  if SFltb v lo then lo else if SFltb hi v then hi else v.
Definition f64_1 : spec_float := f64_of_nat 1.

Definition NO_PROGRESS_WINDOW : nat := 12.
(** 0.34. *)
Definition NO_PROGRESS_DISTINCT_FLOOR : spec_float := f64_div (f64_of_nat 34) (f64_of_nat 100).
Definition NO_PROGRESS_REPEAT_THRESHOLD : nat := 3.
Definition NO_PROGRESS_GRACE_CALLS : nat := 1.

Inductive NoProgressSignal :=
  | NoSignal
  | StuckRepeat (count : nat)
  | NoveltyDecay (distinct window : nat).

Definition signal_is_active (s : NoProgressSignal) : bool :=
  match s with NoSignal => false | _ => true end.

Record RecentEntry := mkEntry { re_signature : N; re_pair : N }.

Record NoProgressDetector := mkDetector {
  window : nat;
  distinct_floor : spec_float;
  repeat_threshold : nat;
  repeats : gmap N nat;
  recent : list RecentEntry;
  active : NoProgressSignal;
  tripped_since_reset : bool;
  nudged : bool;
  grace_remaining : nat;
}.

Definition detector_new (window : nat) (floor : spec_float) (repeat_threshold : nat)
    : NoProgressDetector :=
  mkDetector (Nat.max window 1) (f64_clamp floor (S754_zero false) f64_1)
    (Nat.max repeat_threshold 1) ∅ [] NoSignal false false 0.
Definition detector_default : NoProgressDetector :=
  detector_new NO_PROGRESS_WINDOW NO_PROGRESS_DISTINCT_FLOOR NO_PROGRESS_REPEAT_THRESHOLD.

(** One eviction's share of the counts: [None] would be a missing entry. *)
Definition decrement (pair : N) (repeats : gmap N nat) : gmap N nat :=
  match repeats !! pair with
  | Some count =>
      if bool_decide (count = 1%nat) then delete pair repeats
      else <[pair := (count - 1)%nat]> repeats
  | None => repeats
  end.

(** [while self.recent.len() > self.window]. *)
Fixpoint evict (window : nat) (repeats : gmap N nat) (recent : list RecentEntry)
    : gmap N nat * list RecentEntry :=
  match recent with
  | evicted :: rest =>
      if (window <? length recent)%nat then evict window (decrement (re_pair evicted) repeats) rest
      else (repeats, recent)
  | [] => (repeats, recent)
  end.

Definition distinct_count (recent : list RecentEntry) : nat :=
  size (list_to_set (re_signature <$> recent) : gset N).

Definition distinct_ratio (recent : list RecentEntry) : spec_float :=
  match recent with
  | [] => f64_1
  | _ => f64_div (f64_of_nat (distinct_count recent)) (f64_of_nat (length recent))
  end.

(** [NoProgressDetector::observe]. *)
Definition detector_observe (d : NoProgressDetector) (signature output : Text)
    : NoProgressDetector * bool :=
  let pair := digest_pair signature output in
  let reps := <[pair := S (default 0%nat (repeats d !! pair))]> (repeats d) in
  let '(reps, rec) := evict (window d) reps (recent d ++ [mkEntry (digest signature) pair]) in
  let stuck_count := default 0%nat (reps !! pair) in
  let stuck_repeat := (repeat_threshold d <=? stuck_count)%nat in
  let window_full := (window d <=? length rec)%nat in
  let novelty_decayed := window_full && SFltb (distinct_ratio rec) (distinct_floor d) in
  let active :=
    if stuck_repeat then StuckRepeat stuck_count
    else if novelty_decayed then NoveltyDecay (distinct_count rec) (length rec)
    else NoSignal in
  let crossing := signal_is_active active && negb (nudged d) in
  (mkDetector (window d) (distinct_floor d) (repeat_threshold d) reps rec active
     (tripped_since_reset d || signal_is_active active) (nudged d || crossing)
     (if crossing then NO_PROGRESS_GRACE_CALLS else grace_remaining d),
   crossing).

Definition consume_grace (d : NoProgressDetector) : NoProgressDetector * bool :=
  if (0 <? grace_remaining d)%nat
  then (mkDetector (window d) (distinct_floor d) (repeat_threshold d) (repeats d) (recent d)
          (active d) (tripped_since_reset d) (nudged d) (grace_remaining d - 1), true)
  else (d, false).

Definition detector_reset (d : NoProgressDetector) : NoProgressDetector :=
  mkDetector (window d) (distinct_floor d) (repeat_threshold d) ∅ [] NoSignal false (nudged d) 0.
End digests.

(** ** The budget for tool calls *)

Inductive BudgetDecision := Continue | StopNoProgress | StopCostMax.

Inductive BudgetController := Unlimited | Bounded (soft_start hard_max : nat).

Definition budget_new (soft_start hard_max : option nat) : BudgetController :=
  match soft_start, hard_max with
  | None, None => Unlimited
  | Some soft, Some hard => Bounded soft (Nat.max hard soft)
  | Some soft, None => Bounded soft soft
  | None, Some hard => Bounded hard hard
  end.

Definition budget_decide (b : BudgetController) (calls_used : nat) (no_progress : bool)
    : BudgetDecision :=
  match b with
  | Unlimited => Continue
  | Bounded soft_start hard_max =>
      if (hard_max <=? calls_used)%nat then StopCostMax
      else if no_progress && (soft_start <=? calls_used)%nat then StopNoProgress
      else Continue
  end.

(** ** The recovery ladder (engine.rs) *)

Inductive ModelHealth := Healthy | Recovering | Degraded.
#[export] Instance ModelHealth_eq_dec : EqDecision ModelHealth.
Proof. solve_decision. Defined.

Inductive RecoveryAction :=
  | AbortStream
  | SaveDiagnostic
  | RetryWithRepairPrompt
  | ReduceContext
  | SummarizeOversizedToolResults
  | RequestChunkedWrite
  | RepairToolArguments
  | LowerImageCount
  | MarkDegraded
  | StopHarnessProgress.

Definition is_malformed_output (kind : BadOutputKind) : bool :=
  match kind with MalformedStructuredOutput | MalformedToolCall => true | _ => false end.

Record RecoveryDiagnostic := mkDiagnostic {
  rd_kind : BadOutputKind;
  rd_attempt : N;
  rd_health : ModelHealth;
  rd_actions : list RecoveryAction;
}.

Record RecoveryEngine := mkEngine {
  max_repair_attempts : N;    (* u32 *)
  attempts : N;               (* u32 *)
  health : ModelHealth;
  last_turn_clean : bool;
}.

Definition engine_new (max_repair_attempts : N) : RecoveryEngine :=
  mkEngine max_repair_attempts 0 Healthy true.
Definition budget_default : N := 2.

Definition record_clean_turn (e : RecoveryEngine) : RecoveryEngine :=
  mkEngine (max_repair_attempts e) 0
    (if bool_decide (health e = Recovering) then Healthy else health e) true.

Definition record_bad_turn (e : RecoveryEngine) (kind : BadOutputKind)
    : RecoveryEngine * RecoveryDiagnostic :=
  let attempts := u32_add (attempts e) 1 in
  let '(health, actions) :=
    if attempts <=? max_repair_attempts e then
      (Recovering,
       [AbortStream; SaveDiagnostic; RetryWithRepairPrompt]
       ++ (if is_malformed_output kind then [RequestChunkedWrite] else [])
       ++ (if 1 <? attempts then [ReduceContext; SummarizeOversizedToolResults] else []))
    else (Degraded, [AbortStream; SaveDiagnostic; MarkDegraded; StopHarnessProgress]) in
  (mkEngine (max_repair_attempts e) attempts health false,
   mkDiagnostic kind attempts health actions).

Definition step_completable (e : RecoveryEngine) : bool :=
  last_turn_clean e && negb (bool_decide (health e = Degraded)).

Definition tool_input_repair_rung (e : RecoveryEngine) : RecoveryAction := RepairToolArguments.

Definition image_limit_rung (e : RecoveryEngine) (image_count : nat) : option RecoveryAction :=
  if (1 <? image_count)%nat then Some LowerImageCount else None.
