(* ===== verification/GuardsProps.v ===== *)
(** * What the guards of a turn promise

    Repeats are counted exactly and fire once; the no-progress detector sees
    exactly the last calls of its window, nudges once and grants one grace; the
    budget bounds the calls; the model's health is that of its last bad run. *)

From Stdlib Require Import SpecFloat.
From stdpp Require Import base gmap list numbers.
From S2P Require Import Prelude Monitor Guards.
From stdpp Require Import list.
#[local] Open Scope N_scope.

(** ** Consecutive repeats *)

(** How many of the last elements of a history are [x]. *)
Fixpoint leading {A} `{EqDecision A} (x : A) (l : list A) : nat :=
  match l with y :: l => if decide (y = x) then S (leading x l) else 0%nat | [] => 0%nat end.
Definition trailing {A} `{EqDecision A} (x : A) (l : list A) : nat := leading x (rev l).

Lemma trailing_snoc {A} `{EqDecision A} (x y : A) l :
  trailing x (l ++ [y]) = if decide (y = x) then S (trailing x l) else 0%nat.
Proof. unfold trailing. by rewrite rev_unit. Qed.

(** The state of a counter of consecutive repeats. *)
Definition counts_repeats {A} `{EqDecision A} (l : list A) (last_ : option A) (n : nat) : Prop :=
  last_ = last l ∧ n = match last l with Some x => trailing x l | None => 0%nat end.

Lemma counts_repeats_snoc {A} `{EqDecision A} (l : list A) last_ n x :
  counts_repeats l last_ n →
  counts_repeats (l ++ [x]) (Some x) (if bool_decide (last_ = Some x) then S n else 1%nat) ∧
  (if bool_decide (last_ = Some x) then S n else 1%nat) = S (trailing x l).
Proof.
  intros [-> ->]. unfold counts_repeats.
  rewrite last_snoc, trailing_snoc, (decide_True (P := x = x)) by done.
  assert (Heq : (if bool_decide (last l = Some x)
    then S (match last l with Some y => trailing y l | None => 0 end) else 1)%nat
    = S (trailing x l)); [|by rewrite Heq].
  destruct l as [|y l _] using rev_ind; [done|].
  rewrite last_snoc, !trailing_snoc. case_bool_decide as Hxy.
  - injection Hxy as ->. by rewrite decide_True.
  - rewrite decide_False; [done|]. congruence.
Qed.

Definition run_breaker (threshold : nat) (calls : list (Text * Text)) : RepeatedErrorBreaker :=
  fold_left (λ b te, fst (breaker_observe b te.1 te.2)) calls (breaker_new threshold).

Lemma run_breaker_state threshold calls :
  let b := run_breaker threshold calls in
  b_threshold b = Nat.max threshold 1 ∧
  counts_repeats ((λ te, error_key te.1 te.2) <$> calls) (b_last b) (streak b).
Proof.
  cbn zeta. unfold run_breaker. induction calls as [|[t e] calls IH] using rev_ind; [done|].
  rewrite fold_left_app, fmap_app. cbn [fold_left fmap list_fmap fst snd].
  destruct IH as [Ht Hc]. set (b := fold_left _ calls _) in *.
  destruct (counts_repeats_snoc _ _ _ (error_key t e) Hc) as [Hs _].
  unfold breaker_observe. cbn [fst]. revert Hs.
  destruct (bool_decide (b_last b = Some (error_key t e))) eqn:Hl; intros Hs; [|by split].
  apply bool_decide_eq_true in Hl. cbn [b_threshold b_last streak]. rewrite Hl. by split.
Qed.

Section digests.
Context (digest : Text → N) (digest_pair : Text → Text → N).

Abbreviation guard_observe := (Guards.guard_observe digest).
Abbreviation detector_observe := (Guards.detector_observe digest digest_pair).

Definition run_guard (calls : list (Text * Text)) : RepeatedObservationGuard :=
  fold_left (λ g cr, fst (guard_observe g cr.1 cr.2)) calls guard_default.

Lemma run_guard_state calls :
  counts_repeats ((λ cr, (digest cr.1, digest cr.2)) <$> calls) (g_last (run_guard calls))
    (g_count (run_guard calls)).
Proof.
  unfold run_guard. induction calls as [|[c r] calls IH] using rev_ind; [done|].
  rewrite fold_left_app, fmap_app. cbn [fold_left fmap list_fmap fst snd].
  set (g := fold_left _ calls _) in *.
  destruct (counts_repeats_snoc _ _ _ (digest c, digest r) IH) as [Hs _].
  unfold Guards.guard_observe. cbn [fst]. revert Hs.
  destruct (bool_decide (g_last g = Some (digest c, digest r))) eqn:Hl; intros Hs; [|done].
  apply bool_decide_eq_true in Hl. cbn [g_last g_count]. by rewrite Hl.
Qed.

(** Repeats are counted exactly.  After any failures of a turn the breaker
    fires on the next one precisely when it makes the run of failures with the
    same tool and the same normalised error as long as the threshold - so once
    per run; and after any observations the guard answers [Fresh], [Nudge] or
    [Stop] by the length of the run of identical calls with identical results
    that the next one ends. *)
Theorem repeats_counted_exactly threshold failures tool error (calls : list (Text * Text)) call result :
  snd (breaker_observe (run_breaker threshold failures) tool error) =
    bool_decide (S (trailing (error_key tool error) ((λ te, error_key te.1 te.2) <$> failures))
                 = Nat.max threshold 1) ∧
  let n := S (trailing (digest call, digest result) ((λ cr, (digest cr.1, digest cr.2)) <$> calls)) in
  snd (guard_observe (run_guard calls) call result) =
    (if (n <=? 1)%nat then Guards.Fresh else if (n <=? 2)%nat then Nudge n else Stop n).
Proof.
  split.
  - destruct (run_breaker_state threshold failures) as [Ht Hc]. cbn zeta in *.
    set (b := run_breaker threshold failures) in *.
    destruct (counts_repeats_snoc _ _ _ (error_key tool error) Hc) as [_ <-].
    unfold breaker_observe. cbn [snd]. rewrite <-Ht.
    by destruct (bool_decide (b_last b = Some (error_key tool error))).
  - cbn zeta. pose proof (run_guard_state calls) as Hc. set (g := run_guard calls) in *.
    destruct (counts_repeats_snoc _ _ _ (digest call, digest result) Hc) as [_ Hn].
    unfold Guards.guard_observe. cbn [snd]. set (g' := if bool_decide _ then _ else _).
    assert (Hg : g_count g' = S (trailing (digest call, digest result)
      ((λ cr, (digest cr.1, digest cr.2)) <$> calls))).
    { rewrite <-Hn. unfold g'. by destruct (bool_decide _). }
    rewrite Hg. generalize (trailing (digest call, digest result)
      ((λ cr, (digest cr.1, digest cr.2)) <$> calls)). clear. intros [|[|n]]; done.
Qed.

(** ** No forward progress *)

(** How many of the entries carry the pair. *)
Definition occurrences (pair : N) (l : list RecentEntry) : nat :=
  length (filter (λ e, re_pair e = pair) l).

Definition tallies (reps : gmap N nat) (l : list RecentEntry) : Prop :=
  ∀ pair, reps !! pair = if decide (occurrences pair l = 0%nat) then None
                         else Some (occurrences pair l).

Lemma tallies_default reps l pair : tallies reps l → default 0%nat (reps !! pair) = occurrences pair l.
Proof. intros Ht. rewrite Ht. by destruct (decide _) as [->|]. Qed.

Lemma occurrences_cons pair e l :
  occurrences pair (e :: l) = ((if decide (re_pair e = pair) then 1 else 0) + occurrences pair l)%nat.
Proof. unfold occurrences. rewrite filter_cons. by destruct (decide _). Qed.

Lemma occurrences_snoc pair e l :
  occurrences pair (l ++ [e]) = (occurrences pair l + if decide (re_pair e = pair) then 1 else 0)%nat.
Proof.
  unfold occurrences. rewrite list.filter_app, length_app, filter_cons, filter_nil.
  by destruct (decide _).
Qed.

Lemma tallies_snoc reps l e :
  tallies reps l →
  tallies (<[re_pair e := S (default 0%nat (reps !! re_pair e))]> reps) (l ++ [e]).
Proof.
  intros Ht pair. rewrite occurrences_snoc, (tallies_default reps l) by done.
  destruct (decide (re_pair e = pair)) as [<-|Hne].
  - rewrite lookup_insert_eq, decide_False by lia. f_equal. lia.
  - rewrite lookup_insert_ne, Ht, Nat.add_0_r by done. done.
Qed.

Lemma tallies_pop reps l e : tallies reps (e :: l) → tallies (decrement (re_pair e) reps) l.
Proof.
  intros Ht. pose proof (Ht (re_pair e)) as He. rewrite occurrences_cons, (decide_True (P := re_pair e = re_pair e)) in He by done.
  rewrite decide_False in He by lia. unfold decrement. rewrite He.
  intros pair. pose proof (Ht pair) as Hp. rewrite occurrences_cons in Hp.
  destruct (decide (re_pair e = pair)) as [<-|Hne].
  - case_bool_decide as Hone.
    + rewrite lookup_delete_eq, decide_True by lia. done.
    + rewrite lookup_insert_eq, decide_False by lia. f_equal. lia.
  - rewrite Nat.add_0_l in Hp. case_bool_decide.
    + by rewrite lookup_delete_ne.
    + by rewrite lookup_insert_ne.
Qed.

(** The last [n] elements. *)
Definition lastn {A} (n : nat) (l : list A) : list A := drop (length l - n) l.

Lemma evict_spec w reps l :
  tallies reps l →
  let '(reps', l') := evict w reps l in l' = lastn w l ∧ tallies reps' l'.
Proof.
  revert reps. induction l as [|e l IH]; intros reps Ht; [done|].
  cbn [evict]. destruct (w <? length (e :: l))%nat eqn:Hw.
  - apply Nat.ltb_lt in Hw. specialize (IH _ (tallies_pop _ _ _ Ht)).
    destruct (evict w _ l) as [reps' l']. destruct IH as [-> Ht']. split; [|done].
    unfold lastn. cbn [length] in *. replace (S (length l) - w)%nat with (S (length l - w)) by lia.
    done.
  - apply Nat.ltb_ge in Hw. split; [|done]. unfold lastn.
    by replace (length (e :: l) - w)%nat with 0%nat by lia.
Qed.

Lemma lastn_length {A} n (l : list A) : length (lastn n l) = Nat.min n (length l).
Proof. unfold lastn. rewrite length_drop. lia. Qed.

Lemma lastn_snoc {A} n (l : list A) x : (0 < n)%nat → lastn n (lastn n l ++ [x]) = lastn n (l ++ [x]).
Proof.
  intros Hn. unfold lastn. rewrite !length_app, length_drop. cbn [length].
  destruct (Nat.le_gt_cases (length l) n) as [Hle|Hgt].
  - replace (length l - n)%nat with 0%nat by lia. rewrite drop_0. f_equal. lia.
  - replace (length l - (length l - n) + 1 - n)%nat with 1%nat by lia.
    rewrite !drop_app_le by (rewrite ?length_drop; lia). rewrite drop_drop.
    f_equal. f_equal. lia.
Qed.

(** What a turn does with the detector. *)
Inductive det_op := Observe (signature output : Text) | ConsumeGrace | Steer.

Definition det_step (st : NoProgressDetector * list bool) (o : det_op)
    : NoProgressDetector * list bool :=
  let '(d, r) := match o with
                 | Observe s out => detector_observe st.1 s out
                 | ConsumeGrace => consume_grace st.1
                 | Steer => (detector_reset st.1, false)
                 end in
  (d, st.2 ++ [r]).
Definition det_run (d : NoProgressDetector) (ops : list det_op) : NoProgressDetector * list bool :=
  fold_left det_step ops (d, []).

Definition entry (s out : Text) : RecentEntry := mkEntry (digest s) (digest_pair s out).

(** The calls observed since the last steer. *)
Definition observed (ops : list det_op) : list RecentEntry :=
  fold_left (λ l o, match o with
                    | Observe s out => l ++ [entry s out]
                    | ConsumeGrace => l
                    | Steer => []
                    end) ops [].

(** The signal for the calls in the window, the last of which is the newest. *)
Definition signal_for (w : nat) (floor : spec_float) (threshold : nat) (l : list RecentEntry)
    : NoProgressSignal :=
  match last l with
  | None => NoSignal
  | Some e =>
      if (threshold <=? occurrences (re_pair e) l)%nat then StuckRepeat (occurrences (re_pair e) l)
      else if (w <=? length l)%nat && SFltb (distinct_ratio l) floor
      then NoveltyDecay (distinct_count l) (length l)
      else NoSignal
  end.

(** The nudges and the graces among the results of a history. *)
Definition results_of (P : det_op → bool) (ops : list det_op) (rs : list bool) : nat :=
  length (filter (λ ob : det_op * bool, P ob.1 && ob.2 = true) (zip ops rs)).
Definition is_observe (o : det_op) : bool := match o with Observe _ _ => true | _ => false end.
Definition is_grace (o : det_op) : bool := match o with ConsumeGrace => true | _ => false end.

Record det_ok (w : nat) (floor : spec_float) (th : nat) (ops : list det_op)
    (st : NoProgressDetector * list bool) : Prop := mkDetOk {
  do_window : window st.1 = w;
  do_floor : distinct_floor st.1 = floor;
  do_threshold : repeat_threshold st.1 = th;
  do_recent : recent st.1 = lastn w (observed ops);
  do_tallies : tallies (repeats st.1) (recent st.1);
  do_active : active st.1 = signal_for w floor th (recent st.1);
  do_length : length st.2 = length ops;
  do_nudges : results_of is_observe ops st.2 = if nudged st.1 then 1%nat else 0%nat;
  do_graces : (results_of is_grace ops st.2 + grace_remaining st.1
               <= results_of is_observe ops st.2)%nat;
}.

Lemma results_of_snoc P ops rs o b :
  length rs = length ops →
  results_of P (ops ++ [o]) (rs ++ [b]) = (results_of P ops rs + if P o && b then 1 else 0)%nat.
Proof.
  intros Hl. unfold results_of. rewrite zip_with_app by done. cbn [zip_with].
  rewrite list.filter_app, length_app, filter_cons, filter_nil. cbn [fst snd].
  destruct (P o && b); [by rewrite decide_True|by rewrite decide_False].
Qed.

Lemma det_observe_ok w floor th ops st s out :
  (0 < w)%nat → det_ok w floor th ops st →
  det_ok w floor th (ops ++ [Observe s out]) (det_step st (Observe s out)).
Proof.
  intros Hw [H1 H2 H3 Hrec Htal Hact Hlen Hn Hg]. destruct st as [d rs]. cbn [fst snd] in *.
  unfold det_step. cbn [fst snd]. unfold Guards.detector_observe. cbn zeta.
  pose proof (tallies_snoc _ _ (entry s out) Htal) as Ht. cbn [entry re_pair] in Ht.
  pose proof (evict_spec (window d) _ _ Ht) as He. fold (entry s out).
  destruct (evict (window d) _ _) as [reps rec]. destruct He as [Hrec' Ht'].
  rewrite H1, Hrec, lastn_snoc in Hrec' by done.
  assert (Hobs : observed (ops ++ [Observe s out]) = observed ops ++ [entry s out])
    by (unfold observed; by rewrite fold_left_app).
  assert (Hlast : last rec = Some (entry s out)).
  { rewrite Hrec'. unfold lastn. rewrite length_app. cbn [length].
    rewrite drop_app_le by lia. by rewrite last_snoc. }
  set (act := if (_ <=? _)%nat then _ else _).
  assert (Hact' : act = signal_for w floor th rec).
  { unfold act, signal_for. rewrite Hlast. cbn [entry re_pair].
    by rewrite (tallies_default _ _ _ Ht'), H1, H2, H3. }
  set (crossing := signal_is_active act && negb (nudged d)).
  split; cbn [fst snd window distinct_floor repeat_threshold recent repeats active nudged grace_remaining];
    rewrite ?Hobs; try done.
  - by rewrite !length_app, Hlen.
  - rewrite results_of_snoc by done. cbn [is_observe andb]. rewrite Hn. unfold crossing.
    by destruct (nudged d), (signal_is_active act).
  - rewrite !results_of_snoc by done. cbn [is_observe is_grace andb]. rewrite Hn in Hg |- *.
    unfold crossing, NO_PROGRESS_GRACE_CALLS.
    destruct (nudged d), (signal_is_active act); cbn; lia.
Qed.

Lemma det_run_ok w floor th ops :
  let st := det_run (detector_new w floor th) ops in
  det_ok (Nat.max w 1) (f64_clamp floor (S754_zero false) f64_1) (Nat.max th 1) ops st.
Proof.
  cbn zeta. unfold det_run. induction ops as [|o ops IH] using rev_ind.
  { split; try done. }
  rewrite fold_left_app. cbn [fold_left]. set (st := fold_left det_step ops _) in *.
  destruct o as [s out| |].
  - apply det_observe_ok; [lia|done].
  - destruct IH as [H1 H2 H3 Hrec Htal Hact Hlen Hn Hg]. unfold det_step, consume_grace.
    assert (Hobs : observed (ops ++ [ConsumeGrace]) = observed ops)
      by (unfold observed; by rewrite fold_left_app).
    destruct (0 <? grace_remaining st.1)%nat eqn:Hpos;
      split; cbn [fst snd window distinct_floor repeat_threshold recent repeats active nudged grace_remaining];
      rewrite ?Hobs, ?length_app, ?results_of_snoc by done; cbn [is_observe is_grace andb length];
      try done; try lia.
    apply Nat.ltb_lt in Hpos. lia.
  - destruct IH as [H1 H2 H3 Hrec Htal Hact Hlen Hn Hg]. unfold det_step, detector_reset.
    assert (Hobs : observed (ops ++ [Steer]) = []) by (unfold observed; by rewrite fold_left_app).
    split; cbn [fst snd window distinct_floor repeat_threshold recent repeats active nudged grace_remaining];
      rewrite ?Hobs, ?length_app, ?results_of_snoc by done; cbn [is_observe is_grace andb length];
      try done; try lia.
Qed.

Lemma size_list_to_set_le (l : list N) : (size (list_to_set l : gset N) <= length l)%nat.
Proof.
  induction l as [|x l IH]; [by rewrite list_to_set_nil, size_empty|].
  rewrite list_to_set_cons, size_union_alt, size_singleton. cbn [length].
  assert ((size (list_to_set l ∖ {[x]} : gset N) <= size (list_to_set l : gset N))%nat);
    [apply subseteq_size; set_solver|lia].
Qed.

Lemma tallies_size reps l : tallies reps l → (size reps <= length l)%nat.
Proof.
  intros Ht. rewrite <-(length_fmap re_pair l), <-size_dom.
  transitivity (size (list_to_set (re_pair <$> l) : gset N)).
  - apply subseteq_size. intros pair [n Hn]%elem_of_dom. rewrite Ht in Hn.
    case_decide as Hz; [done|]. apply elem_of_list_to_set, list_elem_of_fmap.
    unfold occurrences in Hz. destruct (filter _ l) as [|e l'] eqn:Hf; [done|].
    assert (He : e ∈ filter (λ e, re_pair e = pair) l) by (rewrite Hf; apply list_elem_of_here).
    apply list_elem_of_filter in He as [<- ?]. by exists e.
  - apply size_list_to_set_le.
Qed.

(** Whatever a turn does - calls observed, the grace asked for, the user
    steering - the no-progress detector remembers exactly the calls of its
    window since the last steer, with exactly their repeat counts, in a map no
    larger than the window; its signal is the one those calls deserve and no
    older one; and over the whole turn it nudges at most once and grants at most
    the one grace that goes with the nudge. *)
Theorem detector_exact w floor th ops :
  let '(d, rs) := det_run (detector_new w floor th) ops in
  let w := Nat.max w 1 in
  recent d = lastn w (observed ops) ∧
  (∀ pair, default 0%nat (repeats d !! pair) = occurrences pair (recent d)) ∧
  (size (repeats d) <= w)%nat ∧
  active d = signal_for w (f64_clamp floor (S754_zero false) f64_1) (Nat.max th 1) (recent d) ∧
  (results_of is_observe ops rs <= 1)%nat ∧
  (results_of is_grace ops rs <= results_of is_observe ops rs)%nat.
Proof.
  pose proof (det_run_ok w floor th ops) as H. cbn zeta in H.
  destruct (det_run (detector_new w floor th) ops) as [d rs].
  destruct H as [H1 H2 H3 Hrec Htal Hact Hlen Hn Hg]. cbn [fst snd] in *. split_and!; try done.
  - intros pair. by apply tallies_default.
  - transitivity (length (recent d)); [by apply tallies_size|]. rewrite Hrec, lastn_length. lia.
  - rewrite Hn. destruct (nudged d); lia.
  - lia.
Qed.
End digests.

(** With the default window and floor, a full window has decayed when it holds at
    most four different calls. *)
Lemma default_decay l :
  length l = 12%nat →
  SFltb (distinct_ratio l) (f64_clamp NO_PROGRESS_DISTINCT_FLOOR (S754_zero false) f64_1) =
    (distinct_count l <=? 4)%nat.
Proof.
  intros Hl. assert (Hd : (distinct_count l <= 12)%nat).
  { rewrite <-Hl, <-(length_fmap re_signature l). apply size_list_to_set_le. }
  unfold distinct_ratio. destruct l as [|e l']; [done|]. rewrite Hl.
  generalize dependent (distinct_count (e :: l')). clear. intros n Hn.
  do 13 (destruct n as [|n]; [vm_compute; reflexivity|]). lia.
Qed.

(** ** The budget *)

(** Every call of a turn was allowed; [flags] tells at each call whether the turn
    was making no progress. *)
Definition allowed (b : BudgetController) (flags : list bool) : Prop :=
  ∀ i p, flags !! i = Some p → budget_decide b i p = Continue.

(** A turn whose budget sets either bound never runs more calls than the larger of
    the bounds set, and never one without progress from the soft start on. *)
Lemma budget_bounds_calls soft hard flags :
  allowed (budget_new soft hard) flags →
  match budget_new soft hard with
  | Unlimited => soft = None ∧ hard = None
  | Bounded s h => (length flags <= h)%nat ∧ h = Nat.max (default 0%nat soft) (default 0%nat hard) ∧
      ∀ i, flags !! i = Some true → (i < s)%nat
  end.
Proof.
  intros Hall. destruct (budget_new soft hard) as [|s h] eqn:Hb; [by destruct soft, hard|].
  split_and!.
  - destruct (Nat.le_gt_cases (length flags) h) as [|Hgt]; [done|]. exfalso.
    destruct (lookup_lt_is_Some_2 flags h Hgt) as [p Hp]. specialize (Hall h p Hp). cbn in Hall.
    by rewrite Nat.leb_refl in Hall.
  - destruct soft, hard; cbn in Hb |- *; simplify_eq; lia.
  - intros i Hi. specialize (Hall i true Hi). cbn in Hall. destruct (h <=? i)%nat; [done|].
    destruct (s <=? i)%nat eqn:Hs; [done|]. by apply Nat.leb_gt in Hs.
Qed.

(** ** Health *)

Inductive turn := CleanTurn | BadTurn (kind : BadOutputKind).

Definition turn_step (e : RecoveryEngine) (t : turn) : RecoveryEngine :=
  match t with CleanTurn => record_clean_turn e | BadTurn kind => fst (record_bad_turn e kind) end.
Definition run_turns (budget : N) (ts : list turn) : RecoveryEngine :=
  fold_left turn_step ts (engine_new budget).

(** The bad turns at the head of a list, newest first, and the turns before the
    clean ones at its head. *)
Fixpoint leading_bad (l : list turn) : nat :=
  match l with BadTurn _ :: l => S (leading_bad l) | _ => 0%nat end.
Fixpoint skip_clean (l : list turn) : list turn :=
  match l with CleanTurn :: l => skip_clean l | _ => l end.

(** The bad turns in a row at the end of a history; the last such run there was. *)
Definition bad_run (ts : list turn) : nat := leading_bad (rev ts).
Definition last_bad_run (ts : list turn) : nat := leading_bad (skip_clean (rev ts)).

Lemma leading_bad_le l : (leading_bad l <= length l)%nat.
Proof. induction l as [|[|k] l IH]; cbn; lia. Qed.

Lemma run_turns_state budget ts :
  N.of_nat (length ts) <= U32_MAX →
  let e := run_turns budget ts in
  max_repair_attempts e = budget ∧ attempts e = N.of_nat (bad_run ts) ∧
  last_turn_clean e = bool_decide (bad_run ts = 0%nat) ∧
  health e =
    (if N.of_nat (last_bad_run ts) <=? budget
     then if bool_decide (bad_run ts = 0%nat) then Healthy else Recovering
     else Degraded).
Proof.
  cbn zeta. unfold run_turns. induction ts as [|t ts IH] using rev_ind; intros Hlen; [by destruct budget|].
  rewrite length_app in Hlen. cbn [length] in Hlen. destruct IH as (Hm & Ha & Hc & Hh); [lia|].
  rewrite fold_left_app. cbn [fold_left]. set (e := fold_left turn_step ts _) in *.
  unfold bad_run, last_bad_run in *. rewrite rev_unit. destruct t as [|kind].
  - cbn. rewrite Hm, Hh. split_and!; try done.
    destruct (N.of_nat (leading_bad (skip_clean (rev ts))) <=? budget); [|done].
    by destruct (bool_decide (leading_bad (rev ts) = 0%nat)).
  - cbn [leading_bad skip_clean turn_step]. unfold record_bad_turn. rewrite Hm, Ha.
    pose proof (leading_bad_le (rev ts)) as Hle. rewrite length_rev in Hle.
    rewrite u32_add_small by lia.
    replace (N.of_nat (leading_bad (rev ts)) + 1) with (N.of_nat (S (leading_bad (rev ts)))) by lia.
    by destruct (N.of_nat (S (leading_bad (rev ts))) <=? budget).
Qed.

(** The model's health is that of its last run of bad turns: after any
    history the engine is degraded exactly when the last run of consecutive bad
    turns - still going on or already over - was longer than the budget, else
    recovering while the run goes on, else healthy; a step may complete exactly
    when the last turn was clean and that run was within the budget.  The next
    bad turn is answered with a repair prompt exactly while its run stays within
    the budget and stops the harness from then on. *)
Theorem health_is_that_of_the_last_bad_run budget ts kind :
  N.of_nat (length ts) < U32_MAX →
  let e := run_turns budget ts in
  health e =
    (if N.of_nat (last_bad_run ts) <=? budget
     then if bool_decide (bad_run ts = 0%nat) then Healthy else Recovering
     else Degraded) ∧
  step_completable e =
    bool_decide (bad_run ts = 0%nat) && (N.of_nat (last_bad_run ts) <=? budget) ∧
  let actions := rd_actions (snd (record_bad_turn e kind)) in
  (RetryWithRepairPrompt ∈ actions ↔ N.of_nat (S (bad_run ts)) <= budget) ∧
  (StopHarnessProgress ∈ actions ↔ budget < N.of_nat (S (bad_run ts))).
Proof.
  intros Hlen e. destruct (run_turns_state budget ts) as (Hm & Ha & Hc & Hh); [lia|]. fold e in Hm, Ha, Hc, Hh.
  split; [done|]. split.
  - unfold step_completable. rewrite Hc, Hh.
    destruct (N.of_nat (last_bad_run ts) <=? budget), (bool_decide (bad_run ts = 0%nat)); done.
  - cbn zeta. unfold record_bad_turn. rewrite Hm, Ha.
    pose proof (leading_bad_le (rev ts)) as Hle. rewrite length_rev in Hle. fold (bad_run ts) in Hle.
    rewrite u32_add_small by lia.
    replace (N.of_nat (bad_run ts) + 1) with (N.of_nat (S (bad_run ts))) by lia.
    destruct (N.leb_spec (N.of_nat (S (bad_run ts))) budget) as [Hin|Hout]; cbn [snd rd_actions].
    + split; (split; [intros Hx|intros Hx]); try lia.
      * cbn. rewrite !elem_of_cons. tauto.
      * exfalso. revert Hx. rewrite !elem_of_app, !elem_of_cons, elem_of_nil.
        destruct (is_malformed_output kind), (1 <? _); rewrite ?elem_of_cons, ?elem_of_nil; naive_solver.
    + split; (split; [intros Hx|intros Hx]); try lia.
      * exfalso. revert Hx. rewrite !elem_of_cons, elem_of_nil. naive_solver.
      * rewrite !elem_of_cons. tauto.
Qed.

Lemma health_is_that_of_the_last_bad_run_witness :
  let ts := [BadTurn SlashFlood; BadTurn SlashFlood; BadTurn SlashFlood; CleanTurn] in
  health (run_turns budget_default ts) = Degraded ∧
  step_completable (run_turns budget_default ts) = false.
Proof.
  destruct (health_is_that_of_the_last_bad_run budget_default
    [BadTurn SlashFlood; BadTurn SlashFlood; BadTurn SlashFlood; CleanTurn] SlashFlood)
    as (Hh & Hs & _); [vm_compute; reflexivity|].
  split; [rewrite Hh|rewrite Hs]; vm_compute; reflexivity.
Defined.

(** A bad turn heals a degraded model: once the engine is degraded, a clean turn
    leaves it so, but a further bad turn makes it recovering and the next clean
    one healthy, with steps completable again. *)
Lemma degraded_is_forgotten :
  let bad := BadTurn SlashFlood in
  health (run_turns budget_default [bad; bad; bad; CleanTurn]) = Degraded ∧
  health (run_turns budget_default [bad; bad; bad; CleanTurn; bad]) = Recovering ∧
  health (run_turns budget_default [bad; bad; bad; CleanTurn; bad; CleanTurn]) = Healthy ∧
  step_completable (run_turns budget_default [bad; bad; bad; CleanTurn; bad; CleanTurn]) = true.
Proof. vm_compute. done. Qed.
