(* ===== verification/Utf8.v ===== *)
(** * UTF-8 (the standard library's [String] and its byte form)

    A text is the list of its Unicode scalar values; a file is a list of bytes.
    [encode] is what [str::as_bytes] gives, [decode] the validation of
    [fs::read_to_string] and [decode_lossy] is [String::from_utf8_lossy].  The
    table of byte ranges is the one of the Unicode standard the library follows. *)

From stdpp Require Import base list numbers.
From S2P Require Import Prelude.
#[local] Open Scope N_scope.

Abbreviation Bytes := (list N).

(** A [char]. *)
Definition is_scalar (c : N) : bool := (c <? 0xD800) || ((0xE000 <=? c) && (c <? 0x110000)).

Definition encode_char (c : N) : Bytes :=
  if c <? 0x80 then [c]
  else if c <? 0x800 then [0xC0 + c / 64; 0x80 + c mod 64]
  else if c <? 0x10000 then [0xE0 + c / 4096; 0x80 + (c / 64) mod 64; 0x80 + c mod 64]
  else [0xF0 + c / 262144; 0x80 + (c / 4096) mod 64; 0x80 + (c / 64) mod 64; 0x80 + c mod 64].
Definition encode (s : list N) : Bytes := s ≫= encode_char.

Definition cont (b : N) : bool := (0x80 <=? b) && (b <? 0xC0).
Definition lead2 (b : N) : bool := (0xC2 <=? b) && (b <? 0xE0).
(** A lead byte of three, or of four, with the byte after it. *)
Definition pair3 (a b : N) : bool :=
  ((a =? 0xE0) && (0xA0 <=? b) && (b <? 0xC0))
  || (((0xE1 <=? a) && (a <=? 0xEC) || (a =? 0xEE) || (a =? 0xEF)) && cont b)
  || ((a =? 0xED) && (0x80 <=? b) && (b <? 0xA0)).
Definition pair4 (a b : N) : bool :=
  ((a =? 0xF0) && (0x90 <=? b) && (b <? 0xC0))
  || ((0xF1 <=? a) && (a <=? 0xF3) && cont b)
  || ((a =? 0xF4) && (0x80 <=? b) && (b <? 0x90)).

Definition char2 (a b : N) : N := (a - 0xC0) * 64 + (b - 0x80).
Definition char3 (a b c : N) : N := (a - 0xE0) * 4096 + (b - 0x80) * 64 + (c - 0x80).
Definition char4 (a b c d : N) : N :=
  (a - 0xF0) * 262144 + (b - 0x80) * 4096 + (c - 0x80) * 64 + (d - 0x80).

Fixpoint decode (bs : Bytes) : option (list N) :=
  match bs with
  | [] => Some []
  | a :: bs =>
      if a <? 0x80 then cons a <$> decode bs
      else match bs with
      | [] => None
      | b :: bs =>
          if lead2 a && cont b then cons (char2 a b) <$> decode bs
          else match bs with
          | [] => None
          | c :: bs =>
              if pair3 a b && cont c then cons (char3 a b c) <$> decode bs
              else match bs with
              | [] => None
              | d :: bs =>
                  if pair4 a b && cont c && cont d then cons (char4 a b c d) <$> decode bs
                  else None
              end
          end
      end
  end.

(** Every longest piece of a sequence that is cut short or cannot go on becomes
    one U+FFFD. *)
Definition REPLACEMENT : N := 0xFFFD.
Fixpoint decode_lossy (bs : Bytes) : list N :=
  match bs with
  | [] => []
  | a :: bs1 =>
      if a <? 0x80 then a :: decode_lossy bs1
      else match bs1 with
      | [] => [REPLACEMENT]
      | b :: bs2 =>
          if lead2 a && cont b then char2 a b :: decode_lossy bs2
          else if negb (pair3 a b || pair4 a b) then REPLACEMENT :: decode_lossy bs1
          else match bs2 with
          | [] => [REPLACEMENT]
          | c :: bs3 =>
              if pair3 a b && cont c then char3 a b c :: decode_lossy bs3
              else if negb (pair4 a b && cont c) then REPLACEMENT :: decode_lossy bs2
              else match bs3 with
              | [] => [REPLACEMENT]
              | d :: bs4 =>
                  if cont d then char4 a b c d :: decode_lossy bs4
                  else REPLACEMENT :: decode_lossy bs3
              end
          end
      end
  end.

(** ** Round trip *)

Ltac bool_lia :=
  repeat (rewrite ?andb_true_iff, ?andb_false_iff, ?orb_true_iff, ?orb_false_iff,
            ?N.leb_le, ?N.ltb_lt, ?N.leb_gt, ?N.ltb_ge, ?N.eqb_eq, ?N.eqb_neq in * ).

(** The digits of a number in base 64. *)
Lemma digits64 c : ∃ q1 q2 q3 r1 r2 r3,
  c / 64 = q1 ∧ c / 4096 = q2 ∧ c / 262144 = q3 ∧
  c mod 64 = r1 ∧ (c / 64) mod 64 = r2 ∧ (c / 4096) mod 64 = r3 ∧
  c = q1 * 64 + r1 ∧ q1 = q2 * 64 + r2 ∧ q2 = q3 * 64 + r3 ∧ r1 < 64 ∧ r2 < 64 ∧ r3 < 64.
Proof.
  do 6 eexists. do 6 (split; [reflexivity|]).
  assert (Hm : ∀ n, n = n / 64 * 64 + n mod 64 ∧ n mod 64 < 64).
  { intros n. split; [rewrite (N.div_mod n 64) at 1; lia|apply N.mod_lt; lia]. }
  assert (H2 : c / 4096 = c / 64 / 64) by (by rewrite N.Div0.div_div).
  assert (H3 : c / 262144 = c / 64 / 64 / 64) by (by rewrite !N.Div0.div_div).
  rewrite H3, H2. pose proof (Hm c). pose proof (Hm (c / 64)). pose proof (Hm (c / 64 / 64)).
  naive_solver.
Qed.

Lemma decode_char c bs : is_scalar c = true → decode (encode_char c ++ bs) = cons c <$> decode bs.
Proof.
  intros Hc. unfold encode_char. unfold is_scalar in Hc. bool_lia.
  destruct (digits64 c) as (q1 & q2 & q3 & r1 & r2 & r3 & -> & -> & -> & -> & -> & -> & H).
  destruct (c <? 0x80) eqn:E1; [cbn; by rewrite E1|].
  destruct (c <? 0x800) eqn:E2; [|destruct (c <? 0x10000) eqn:E3]; bool_lia; cbn [decode app].
  - replace (_ <? 0x80) with false by (symmetry; bool_lia; lia).
    replace (lead2 _ && cont _) with true by (symmetry; unfold lead2, cont; bool_lia; lia).
    do 2 f_equal. unfold char2. lia.
  - replace (_ <? 0x80) with false by (symmetry; bool_lia; lia).
    replace (lead2 _ && cont _) with false by (symmetry; unfold lead2; bool_lia; lia).
    replace (pair3 _ _ && cont _) with true by (symmetry; unfold pair3, cont; bool_lia; lia).
    do 2 f_equal. unfold char3. lia.
  - replace (_ <? 0x80) with false by (symmetry; bool_lia; lia).
    replace (lead2 _ && cont _) with false by (symmetry; unfold lead2; bool_lia; lia).
    replace (pair3 _ _ && cont _) with false by (symmetry; unfold pair3; bool_lia; lia).
    replace (pair4 _ _ && cont _ && cont _) with true
      by (symmetry; unfold pair4, cont; bool_lia; lia).
    do 2 f_equal. unfold char4. lia.
Qed.

Lemma encode_app s t : encode (s ++ t) = encode s ++ encode t.
Proof. apply bind_app. Qed.
Lemma encode_cons c s : encode (c :: s) = encode_char c ++ encode s.
Proof. done. Qed.

Lemma decode_encode_app s bs :
  forallb is_scalar s = true → decode (encode s ++ bs) = app s <$> decode bs.
Proof.
  induction s as [|c s IH]; cbn [forallb]; intros Hs.
  { change (encode [] ++ bs) with bs. by destruct (decode bs). }
  apply andb_true_iff in Hs as [Hc Hs]. rewrite encode_cons, <-app_assoc, decode_char, IH by done.
  by destruct (decode bs).
Qed.

Lemma decode_encode s : forallb is_scalar s = true → decode (encode s) = Some s.
Proof.
  intros Hs. pose proof (decode_encode_app s [] Hs) as H. cbn in H. by rewrite !app_nil_r in H.
Qed.

(** What is valid is what was encoded. *)
Lemma char2_valid a b : lead2 a && cont b = true →
  encode_char (char2 a b) = [a; b] ∧ is_scalar (char2 a b) = true.
Proof.
  unfold lead2, cont, encode_char, char2, is_scalar. intros H.
  set (q := a - 0xC0). set (r := b - 0x80).
  assert (Hq : a = 0xC0 + q ∧ 2 <= q < 32) by (subst q; bool_lia; lia).
  assert (Hr : b = 0x80 + r ∧ r < 64) by (subst r; bool_lia; lia).
  clearbody q r. destruct Hq as [-> Hq], Hr as [-> Hr].
  destruct (digits64 (q * 64 + r)) as (q1 & q2 & q3 & r1 & r2 & r3 & -> & _ & _ & -> & _ & _ & He).
  replace (_ <? 0x80) with false by (symmetry; bool_lia; lia).
  replace (_ <? 0x800) with true by (symmetry; bool_lia; lia).
  split; [repeat f_equal; lia|]. bool_lia. lia.
Qed.

Lemma char3_valid a b c : pair3 a b && cont c = true →
  encode_char (char3 a b c) = [a; b; c] ∧ is_scalar (char3 a b c) = true.
Proof.
  unfold pair3, cont, encode_char, char3, is_scalar. intros H.
  set (p := a - 0xE0). set (q := b - 0x80). set (r := c - 0x80).
  assert (Hp : a = 0xE0 + p ∧ p < 16) by (subst p; bool_lia; lia).
  assert (Hq : b = 0x80 + q ∧ q < 64) by (subst q; bool_lia; lia).
  assert (Hr : c = 0x80 + r ∧ r < 64) by (subst r; bool_lia; lia).
  clearbody p q r. destruct Hp as [-> Hp], Hq as [-> Hq], Hr as [-> Hr].
  destruct (digits64 (p * 4096 + q * 64 + r)) as
    (q1 & q2 & q3 & r1 & r2 & r3 & -> & -> & -> & -> & -> & -> & He).
  replace (_ <? 0x80) with false by (symmetry; bool_lia; lia).
  replace (_ <? 0x800) with false by (symmetry; bool_lia; lia).
  replace (_ <? 0x10000) with true by (symmetry; bool_lia; lia).
  split; [repeat f_equal; lia|]. bool_lia. lia.
Qed.

Lemma char4_valid a b c d : pair4 a b && cont c && cont d = true →
  encode_char (char4 a b c d) = [a; b; c; d] ∧ is_scalar (char4 a b c d) = true.
Proof.
  unfold pair4, cont, encode_char, char4, is_scalar. intros H.
  set (o := a - 0xF0). set (p := b - 0x80). set (q := c - 0x80). set (r := d - 0x80).
  assert (Ho : a = 0xF0 + o ∧ o < 5) by (subst o; bool_lia; lia).
  assert (Hp : b = 0x80 + p ∧ p < 64) by (subst p; bool_lia; lia).
  assert (Hq : c = 0x80 + q ∧ q < 64) by (subst q; bool_lia; lia).
  assert (Hr : d = 0x80 + r ∧ r < 64) by (subst r; bool_lia; lia).
  clearbody o p q r. destruct Ho as [-> Ho], Hp as [-> Hp], Hq as [-> Hq], Hr as [-> Hr].
  destruct (digits64 (o * 262144 + p * 4096 + q * 64 + r)) as
    (q1 & q2 & q3 & r1 & r2 & r3 & -> & -> & -> & -> & -> & -> & He).
  replace (_ <? 0x80) with false by (symmetry; bool_lia; lia).
  replace (_ <? 0x800) with false by (symmetry; bool_lia; lia).
  replace (_ <? 0x10000) with false by (symmetry; bool_lia; lia).
  split; [repeat f_equal; lia|]. bool_lia. lia.
Qed.

(** A valid file is the encoding of its text. *)
Lemma decode_valid bs s : decode bs = Some s → encode s = bs ∧ forallb is_scalar s = true.
Proof.
  revert s. induction bs as [bs IH] using (induction_ltof1 _ length). unfold ltof in IH.
  assert (Hstep : ∀ u c rest s', bs = u ++ rest → u ≠ [] → encode_char c = u → is_scalar c = true →
    cons c <$> decode rest = Some s' → encode s' = bs ∧ forallb is_scalar s' = true).
  { intros u c rest s' -> Hu Henc Hsc Hd. destruct (decode rest) as [t|] eqn:Hr; [|done].
    cbn in Hd. injection Hd as <-. destruct (IH rest) with (s := t) as [He Ht]; [|done|].
    { rewrite length_app. destruct u; [done|]. cbn. lia. }
    rewrite encode_cons, Henc, He. cbn [forallb]. by rewrite Hsc, Ht. }
  intros s. destruct bs as [|a bs]; [intros [= <-]; done|]. cbn [decode].
  destruct (a <? 0x80) eqn:Ha.
  { apply (Hstep [a]); [done..| |].
    - unfold encode_char. by rewrite Ha.
    - unfold is_scalar. bool_lia. lia. }
  destruct bs as [|b bs]; [done|]. destruct (lead2 a && cont b) eqn:H2.
  { destruct (char2_valid _ _ H2). by apply (Hstep [a; b]). }
  destruct bs as [|c bs]; [done|]. destruct (pair3 a b && cont c) eqn:H3.
  { destruct (char3_valid _ _ _ H3). by apply (Hstep [a; b; c]). }
  destruct bs as [|d bs]; [done|]. destruct (pair4 a b && cont c && cont d) eqn:H4; [|done].
  destruct (char4_valid _ _ _ _ H4). by apply (Hstep [a; b; c; d]).
Qed.

Lemma decode_lossy_valid bs s : decode bs = Some s → decode_lossy bs = s.
Proof.
  revert s. induction bs as [bs IH] using (induction_ltof1 _ length). unfold ltof in IH. intros s.
  assert (Hstep : ∀ c rest, (length rest < length bs)%nat → cons c <$> decode rest = Some s →
    c :: decode_lossy rest = s).
  { intros c rest Hlt Hd. destruct (decode rest) as [t|] eqn:Hr; [|done]. cbn in Hd.
    injection Hd as <-. by rewrite (IH rest Hlt t). }
  destruct bs as [|a bs]; [intros [= <-]; done|]. cbn [decode decode_lossy].
  destruct (a <? 0x80); [apply Hstep; cbn; lia|].
  destruct bs as [|b bs]; [done|].
  destruct (lead2 a && cont b); [apply Hstep; cbn; lia|].
  destruct bs as [|c bs]; [done|].
  destruct (pair3 a b), (pair4 a b), (cont c); cbn [andb negb orb];
    try (intros Hd; apply Hstep; [cbn; lia|exact Hd]); destruct bs as [|d bs]; try done;
    destruct (cont d); cbn; try done; intros Hd; apply Hstep; try (cbn; lia); exact Hd.
Qed.

(** A line feed is no part of a longer character: a file is valid exactly when
    its parts around a line feed are. *)
Lemma decode_line_feed x y :
  decode (x ++ 10 :: y) = (s ← decode x; t ← decode y; Some (s ++ 10 :: t)).
Proof.
  induction x as [x IH] using (induction_ltof1 _ length). unfold ltof in IH.
  assert (Hstep : ∀ c rest, (length rest < length x)%nat →
    cons c <$> decode (rest ++ 10 :: y) =
    (s ← (cons c <$> decode rest); t ← decode y; Some (s ++ 10 :: t))).
  { intros c rest Hlt. rewrite IH by done. destruct (decode rest), (decode y); done. }
  destruct x as [|a x]; [cbn; by destruct (decode y)|]. cbn [decode app].
  destruct (a <? 0x80); [apply Hstep; cbn; lia|].
  assert (H10 : cont 10 = false) by done.
  assert (P10 : pair3 a 10 = false ∧ pair4 a 10 = false).
  { unfold pair3, pair4. rewrite H10. split; bool_lia; lia. }
  destruct P10 as [P3 P4].
  destruct x as [|b x]; cbn [app].
  { rewrite H10, andb_false_r, P3. cbn. by destruct y as [|? [|]]; rewrite ?P4. }
  destruct (lead2 a && cont b); [apply Hstep; cbn; lia|].
  destruct x as [|c x]; cbn [app].
  { rewrite H10, andb_false_r. cbn. by destruct y; rewrite ?andb_false_r. }
  destruct (pair3 a b && cont c); [apply Hstep; cbn; lia|].
  destruct x as [|d x]; cbn [app].
  { by rewrite H10, andb_false_r. }
  destruct (pair4 a b && cont c && cont d); [apply Hstep; cbn; lia|done].
Qed.

(** The last byte is a line feed exactly when the last character is. *)
Lemma encode_char_last c :
  ∃ bs b, encode_char c = bs ++ [b] ∧ (b =? 10) = (c =? 10).
Proof.
  unfold encode_char. destruct (digits64 c) as (q1 & q2 & q3 & r1 & r2 & r3 & -> & -> & -> & -> & -> & -> & H).
  destruct (c <? 0x80) eqn:E1; [by exists [], c|].
  assert (Hc : (c =? 10) = false) by (bool_lia; lia).
  destruct (c <? 0x800); [|destruct (c <? 0x10000)]; [exists [0xC0 + q1], (0x80 + r1)
    |exists [0xE0 + q2; 0x80 + r2], (0x80 + r1)|exists [0xF0 + q3; 0x80 + r3; 0x80 + r2], (0x80 + r1)];
    (split; [done|]); rewrite Hc; bool_lia; lia.
Qed.

Lemma encode_last s :
  (list.last (encode s) = Some 10) ↔ list.last s = Some 10.
Proof.
  destruct s as [|c s] using rev_ind; [done|]. clear IHs.
  destruct (encode_char_last c) as (bs & b & He & Hb).
  rewrite encode_app. unfold encode at 2. cbn. rewrite app_nil_r, He, app_assoc, !last_snoc.
  split; intros [= ->]; apply N.eqb_eq in Hb || (symmetry in Hb; apply N.eqb_eq in Hb); congruence.
Qed.

Lemma encode_nil s : encode s = [] ↔ s = [].
Proof.
  split; [|by intros ->]. destruct s as [|c s]; [done|]. rewrite encode_cons.
  destruct (encode_char_last c) as (bs & b & -> & _). by destruct bs.
Qed.
