(* ===== verification/Chars.v ===== *)
(** * Rust string slices as characters

    The [str] and [String] methods the components below use, on texts given as
    their Unicode scalar values ([Monitor.v] has [lines], [split_whitespace] and
    [is_whitespace]; [Utf8.v] has the bytes).  Lengths in bytes are those of the
    UTF-8 form. *)

From Stdlib Require Import Ascii String.
From stdpp Require Import base list numbers.
From S2P Require Import Prelude Monitor Utf8.
#[local] Open Scope N_scope.

(** A literal. *)
Definition txt (s : string) : Text := N_of_ascii <$> list_ascii_of_string s.

(** [str::len]. *)
Definition utf8_len (s : Text) : nat := length (encode s).

Definition trim_end (s : Text) : Text := rev (Monitor.trim_start (rev s)).
Definition trim (s : Text) : Text := trim_end (Monitor.trim_start s).
(** [s.trim().is_empty()]. *)
Definition is_blank (s : Text) : bool := forallb is_whitespace s.

Definition lower_ascii (c : N) : N := if (65 <=? c) && (c <=? 90) then c + 32 else c.
Definition to_ascii_lowercase (s : Text) : Text := lower_ascii <$> s.
Definition eq_ignore_ascii_case (s t : Text) : bool :=
  bool_decide (to_ascii_lowercase s = to_ascii_lowercase t).

Fixpoint strip_prefix (p s : Text) : option Text :=
  match p, s with
  | [], _ => Some s
  | a :: p, b :: s => if a =? b then strip_prefix p s else None
  | _, [] => None
  end.
Definition starts_with (p s : Text) : bool :=
  match strip_prefix p s with Some _ => true | None => false end.
Definition ends_with (p s : Text) : bool := starts_with (rev p) (rev s).
Fixpoint contains (needle s : Text) : bool :=
  starts_with needle s || match s with [] => false | _ :: s => contains needle s end.
Definition contains_any (s : Text) (needles : list Text) : bool :=
  existsb (λ n, contains n s) needles.

(** [[..].join(sep)]. *)
Fixpoint join (sep : Text) (ts : list Text) : Text :=
  match ts with
  | [] => []
  | [t] => t
  | t :: ts => t ++ sep ++ join sep ts
  end.

Fixpoint trim_start_chars (p : N → bool) (s : Text) : Text :=
  match s with
  | c :: s' => if p c then trim_start_chars p s' else s
  | [] => []
  end.
(** [str::trim_matches] with a predicate on characters. *)
Definition trim_chars (p : N → bool) (s : Text) : Text :=
  rev (trim_start_chars p (rev (trim_start_chars p s))).

(** The decimal digits of a number. *)
Fixpoint digits_of (fuel : nat) (n : N) (acc : Text) : Text :=
  match fuel with
  | O => acc
  | S fuel =>
      let acc := (48 + n mod 10) :: acc in
      if n <? 10 then acc else digits_of fuel (n / 10) acc
  end.
Definition show_N (n : N) : Text := digits_of (S (N.to_nat (N.log2 n))) n [].
Definition show_nat (n : nat) : Text := show_N (N.of_nat n).

(** The order of [str]: by bytes, which is by characters. *)
Fixpoint text_lt (a b : Text) : bool :=
  match a, b with
  | [], [] => false
  | [], _ :: _ => true
  | _ :: _, [] => false
  | x :: a, y :: b => (x <? y) || ((x =? y) && text_lt a b)
  end.

(** ** Facts *)

Lemma trim_start_blank s : is_blank s = true ↔ Monitor.trim_start s = [].
Proof. induction s as [|c s IH]; cbn; [done|]. destruct (is_whitespace c); [done|]. by split. Qed.

Lemma trim_start_suffix s : ∃ p, s = p ++ Monitor.trim_start s ∧ is_blank p = true.
Proof.
  induction s as [|c s (p & Hp & Hb)]; [by exists []|]. cbn.
  destruct (is_whitespace c) eqn:Hc; [|by exists []]. exists (c :: p). cbn. by rewrite Hc, <-Hp.
Qed.

Lemma trim_blank s : is_blank s = bool_decide (trim s = []).
Proof.
  unfold trim, trim_end. destruct (is_blank s) eqn:Hb.
  - apply trim_start_blank in Hb. by rewrite Hb.
  - symmetry. apply bool_decide_eq_false. intros Hnil.
    assert (Hr : Monitor.trim_start (rev (Monitor.trim_start s)) = []).
    { rewrite <-(rev_involutive (Monitor.trim_start _)), Hnil. done. }
    apply trim_start_blank in Hr. unfold is_blank in Hr.
    destruct (Monitor.trim_start s) as [|c t] eqn:Hs; [apply trim_start_blank in Hs; congruence|].
    assert (Hc : is_whitespace c = false).
    { clear -Hs. induction s as [|d s IH]; cbn in Hs; [done|].
      destruct (is_whitespace d) eqn:Hd; [by apply IH|]. congruence. }
    rewrite forallb_forall in Hr. rewrite (Hr c) in Hc; [done|]. apply in_rev. rewrite rev_involutive. by left.
Qed.

Lemma strip_prefix_Some p s r : strip_prefix p s = Some r ↔ s = p ++ r.
Proof.
  revert s. induction p as [|a p IH]; intros s; cbn; [split; [by intros [= ->]|by intros ->]|].
  destruct s as [|b s]; [split; done|]. destruct (N.eqb_spec a b) as [->|Hab].
  - rewrite IH. split; [by intros ->|by intros [= ->]].
  - split; [done|]. intros [= ]. congruence.
Qed.

Lemma starts_with_app p s : starts_with p (p ++ s) = true.
Proof. unfold starts_with. by rewrite (proj2 (strip_prefix_Some p (p ++ s) s)). Qed.

Lemma starts_with_true p s : starts_with p s = true ↔ ∃ r, s = p ++ r.
Proof.
  unfold starts_with. destruct (strip_prefix p s) as [r|] eqn:H.
  - apply strip_prefix_Some in H. split; [by exists r|done].
  - split; [done|]. intros [r Hr]. apply strip_prefix_Some in Hr. congruence.
Qed.

Lemma utf8_len_app s t : utf8_len (s ++ t) = (utf8_len s + utf8_len t)%nat.
Proof. unfold utf8_len. by rewrite encode_app, length_app. Qed.

Lemma encode_char_length c : (1 <= length (encode_char c) <= 4)%nat.
Proof. unfold encode_char. repeat case_match; cbn; lia. Qed.

Lemma utf8_len_bounds s : (length s <= utf8_len s <= 4 * length s)%nat.
Proof.
  unfold utf8_len. induction s as [|c s IH]; [done|]. rewrite encode_cons, length_app. cbn [length].
  pose proof (encode_char_length c). lia.
Qed.

Example txt_example : txt "a-1" = [97; 45; 49]. Proof. reflexivity. Qed.
Example show_example : show_N 1024 = txt "1024" ∧ show_N 0 = txt "0". Proof. split; vm_compute; reflexivity. Qed.
Example trim_example : trim (txt "  a b ") = txt "a b". Proof. reflexivity. Qed.
