(* ===== verification/Message.v ===== *)
(** * Messages, tool calls and summaries (crates/localpilot-core/src/message.rs,
    tool.rs, summary.rs, secret.rs, text.rs)

    The provider-neutral vocabulary of a conversation, as data, with the
    conversions and helpers of the crate.  [serde_json::Value] is its documented
    type; an identifier that is a UUID is a number. *)

From Stdlib Require Import String.
From stdpp Require Import base list numbers.
From S2P Require Import Prelude Monitor Utf8 Chars.
#[local] Open Scope N_scope.
#[local] Open Scope list_scope.

Abbreviation MessageId := N.
Abbreviation ToolUseId := Text.

(** [serde_json::Value]; an object lists its members by ascending key, and a
    number is the text it prints as. *)
Inductive Json :=
  | JNull
  | JBool (b : bool)
  | JNumber (n : Text)
  | JString (s : Text)
  | JArray (l : list Json)
  | JObject (m : list (Text * Json)).

(** ** tool.rs *)

Record ToolCall := mkToolCall {
  tc_id : ToolUseId;
  tc_name : Text;
  tc_input : Json;
  tc_provider_metadata : option Json;
}.

Definition ToolCall_new (id : ToolUseId) (name : Text) (input : Json) : ToolCall :=
  mkToolCall id name input None.

Inductive ToolOutcome := OutcomeOk | ReportedFailure | Unusable.

Definition outcome_is_error (o : ToolOutcome) : bool := match o with OutcomeOk => false | _ => true end.
Definition is_malfunction (o : ToolOutcome) : bool := match o with Unusable => true | _ => false end.
Definition status_label (o : ToolOutcome) : Text :=
  if outcome_is_error o then txt "error" else txt "success".

Record ToolImage := mkToolImage { ti_media_type : Text; ti_data : Text }.

Record ToolResult := mkToolResult {
  tr_id : ToolUseId;
  tr_output : Text;
  tr_outcome : ToolOutcome;
  tr_image : option ToolImage;
}.

(** What is written: older lines have no [outcome]. *)
Record ToolResultWire := mkWire {
  w_id : ToolUseId;
  w_output : Text;
  w_is_error : bool;
  w_outcome : option ToolOutcome;
  w_image : option ToolImage;
}.

Definition result_from_wire (wire : ToolResultWire) : ToolResult :=
  let fallback := if w_is_error wire then Unusable else OutcomeOk in
  mkToolResult (w_id wire) (w_output wire) (default fallback (w_outcome wire)) (w_image wire).

Definition result_into_wire (r : ToolResult) : ToolResultWire :=
  mkWire (tr_id r) (tr_output r) (outcome_is_error (tr_outcome r)) (Some (tr_outcome r)) (tr_image r).

Definition ToolResult_success (id : ToolUseId) (output : Text) : ToolResult :=
  mkToolResult id output OutcomeOk None.
Definition ToolResult_error (id : ToolUseId) (output : Text) : ToolResult :=
  mkToolResult id output Unusable None.
Definition result_is_error (r : ToolResult) : bool := outcome_is_error (tr_outcome r).

(** ** message.rs *)

Inductive Role := RSystem | RUser | RAssistant | RTool | RUserShell.
#[export] Instance Role_eq_dec : EqDecision Role.
Proof. solve_decision. Defined.

Inductive ContentBlock :=
  | BText (text : Text)
  | BReasoning (text : Text) (signature : option Text) (provider_metadata : option Json)
  | BToolUse (call : ToolCall)
  | BToolResult (result : ToolResult)
  | BImage (media_type data : Text).

Record MessageMetadata := mkMetadata {
  md_id : option MessageId;
  md_provider : option Text;
  md_synthetic : option Text;
}.

Record Message := mkMessage {
  role : Role;
  content : list ContentBlock;
  metadata : MessageMetadata;
}.

(** [PartialEq] of the conversation's data. *)
#[export] Instance Json_eq_dec : EqDecision Json.
Proof.
  unfold EqDecision. fix go 1. intros v w.
  assert (object_dec : ∀ m m' : list (Text * Json), Decision (m = m')).
  { fix go_m 1. intros m m'. destruct m as [|[k v1] m], m' as [|[k' v1'] m']; try (by left); try (by right).
    destruct (decide (k = k')) as [->|]; [|right; congruence].
    destruct (go v1 v1') as [->|]; [|right; congruence].
    destruct (go_m m m') as [->|]; [by left|right; congruence]. }
  assert (list_dec : ∀ m m' : list Json, Decision (m = m')).
  { fix go_m 1. intros m m'. destruct m as [|v1 m], m' as [|v1' m']; try (by left); try (by right).
    destruct (go v1 v1') as [->|]; [|right; congruence].
    destruct (go_m m m') as [->|]; [by left|right; congruence]. }
  destruct v, w; try (by left); try (by right).
  - destruct (decide (b = b0)) as [->|]; [by left|right; congruence].
  - destruct (decide (n = n0)) as [->|]; [by left|right; congruence].
  - destruct (decide (s = s0)) as [->|]; [by left|right; congruence].
  - destruct (list_dec l l0) as [->|]; [by left|right; congruence].
  - destruct (object_dec m m0) as [->|]; [by left|right; congruence].
Defined.
#[export] Instance ToolCall_eq_dec : EqDecision ToolCall.
Proof. solve_decision. Defined.
#[export] Instance ToolOutcome_eq_dec : EqDecision ToolOutcome.
Proof. solve_decision. Defined.
#[export] Instance ToolImage_eq_dec : EqDecision ToolImage.
Proof. solve_decision. Defined.
#[export] Instance ToolResult_eq_dec : EqDecision ToolResult.
Proof. solve_decision. Defined.
#[export] Instance ContentBlock_eq_dec : EqDecision ContentBlock.
Proof. solve_decision. Defined.
#[export] Instance MessageMetadata_eq_dec : EqDecision MessageMetadata.
Proof. solve_decision. Defined.
#[export] Instance Message_eq_dec : EqDecision Message.
Proof. solve_decision. Defined.

Definition Message_new (r : Role) (blocks : list ContentBlock) : Message :=
  mkMessage r blocks (mkMetadata None None None).
Definition Message_text (r : Role) (text : Text) : Message := Message_new r [BText text].

Definition metadata_is_empty (md : MessageMetadata) : bool :=
  match md with mkMetadata None None None => true | _ => false end.

Definition into_synthetic (m : Message) (why : Text) : Message :=
  mkMessage (role m) (content m)
    (mkMetadata (md_id (metadata m)) (md_provider (metadata m)) (Some why)).
Definition is_synthetic (m : Message) : bool :=
  match md_synthetic (metadata m) with Some _ => true | None => false end.

(** ** summary.rs *)

Definition STRUCTURED_SUMMARY_SCHEMA_VERSION : N := 2.

Inductive SummarySectionKind :=
  | Goal | Constraints | Progress | Decisions | NextSteps | CriticalContext
  | RelevantFiles | CommandOutcomes | Risks | StaleOrSuperseded.
#[export] Instance SummarySectionKind_eq_dec : EqDecision SummarySectionKind.
Proof. solve_decision. Defined.

Definition section_label (k : SummarySectionKind) : Text :=
  match k with
  | Goal => txt "goal"
  | Constraints => txt "constraints/preferences"
  | Progress => txt "progress"
  | Decisions => txt "decisions"
  | NextSteps => txt "next steps"
  | CriticalContext => txt "critical context"
  | RelevantFiles => txt "relevant files"
  | CommandOutcomes => txt "commands/failures"
  | Risks => txt "unresolved risks"
  | StaleOrSuperseded => txt "stale/superseded"
  end.

Record SummarySection := mkSection { sec_kind : SummarySectionKind; sec_items : list Text }.

Inductive SummarySourceKind :=
  | MessageRange | SrcToolCall | SrcToolResult | FilePath | SrcCommand | PreviousSummary
  | IngestChunk | AcceptedMemory | GraphFact.

Record SummarySource := mkSource {
  src_kind : SummarySourceKind;
  source_id : Text;
  src_range : option Text;
  src_path : option Text;
  src_redacted : bool;
}.
Definition SummarySource_new (k : SummarySourceKind) (id : Text) : SummarySource :=
  mkSource k id None None true.
Definition with_path (s : SummarySource) (path : Text) : SummarySource :=
  mkSource (src_kind s) (source_id s) (src_range s) (Some path) (src_redacted s).

Record SummaryBudget := mkBudget {
  estimated_tokens : nat;
  original_messages : nat;
  b_kept_messages : nat;
  b_dropped_messages : nat;
  b_truncated_tool_results : nat;
  truncation_reason : option Text;
}.
Definition SummaryBudget_default : SummaryBudget := mkBudget 0 0 0 0 0 None.

Record StructuredSummary := mkSummary {
  schema_version : N;
  title : Text;
  entries : list Text;
  sections : list SummarySection;
  sources : list SummarySource;
  budget : SummaryBudget;
}.
Definition StructuredSummary_new (title : Text) (entries : list Text) : StructuredSummary :=
  mkSummary STRUCTURED_SUMMARY_SCHEMA_VERSION title entries [] [] SummaryBudget_default.

(** The [label: item] lines that stand in for missing entries. *)
Definition section_lines (s : SummarySection) : list Text :=
  (λ item, section_label (sec_kind s) ++ txt ": " ++ item) <$> sec_items s.

Definition render_entries (s : StructuredSummary) : list Text :=
  match entries s, sections s with
  | [], _ :: _ => sections s ≫= section_lines
  | es, _ => es
  end.
Definition summary_render (s : StructuredSummary) : Text :=
  title s ++ (render_entries s ≫= λ e, LF :: txt "- " ++ e).

(** ** text.rs *)

Definition SUMMARY_CHARS : nat := 100.
Definition collapse_whitespace (text : Text) : Text := join [32] (split_whitespace text).
Definition one_line (text : Text) (max : nat) : Text :=
  let collapsed := collapse_whitespace text in
  take max collapsed ++ (if (max <? length collapsed)%nat then [0x2026] else []).
Definition truncate_collapsed (text : Text) (max : nat) : Text :=
  take max (collapse_whitespace text).

(** ** secret.rs *)

Definition REDACTED_EXACT : Text := txt "[REDACTED]".
Definition MIN_EXACT_REDACTION_LEN : nat := 8.
Definition is_exact_redactable (secret : Text) : bool :=
  (MIN_EXACT_REDACTION_LEN <=? length secret)%nat.

(** [str::replace] of a pattern that is not empty: from the left, matches do not
    overlap. *)
Fixpoint replace_from (fuel : nat) (pat rep s : Text) : Text :=
  match fuel with
  | O => s
  | S fuel =>
      match s with
      | [] => []
      | c :: s' =>
          match strip_prefix pat s with
          | Some rest => rep ++ replace_from fuel pat rep rest
          | None => c :: replace_from fuel pat rep s'
          end
      end
  end.
Definition replace (pat rep s : Text) : Text := replace_from (length s) pat rep s.

Definition redact_exact (text : Text) (secrets : list Text) : Text :=
  fold_left (λ out secret,
    if negb (is_exact_redactable secret) then out
    else if contains secret out then replace secret REDACTED_EXACT out else out)
    secrets text.
