(* ===== verification/Json.v ===== *)
(** * JSON values

    The methods of [serde_json::Value] and of its sorted map that the program
    uses; the reader and the printer are parameters where they are called. *)

From Stdlib Require Import String.
From stdpp Require Import base list numbers.
From S2P Require Import Prelude Monitor Utf8 Chars Message.
From stdpp Require Import list.
#[local] Open Scope N_scope.
#[local] Open Scope list_scope.

(** [Map::get] and [Map::insert] of the sorted map. *)
Fixpoint map_get (k : Text) (m : list (Text * Json)) : option Json :=
  match m with
  | [] => None
  | (k', v) :: m => if bool_decide (k = k') then Some v else map_get k m
  end.
Fixpoint map_insert (k : Text) (v : Json) (m : list (Text * Json)) : list (Text * Json) :=
  match m with
  | [] => [(k, v)]
  | (k', v') :: m' =>
      if bool_decide (k = k') then (k, v) :: m'
      else if text_lt k k' then (k, v) :: m
      else (k', v') :: map_insert k v m'
  end.

(** [Value::get] with a key. *)
Definition json_get (k : Text) (v : Json) : option Json :=
  match v with JObject m => map_get k m | _ => None end.
(** [Value::as_u64]: a number written as a plain integer that fits. *)
Definition digit (c : N) : bool := (48 <=? c) && (c <=? 57).
Definition as_u64 (v : Json) : option N :=
  match v with
  | JNumber (c :: n) =>
      if forallb digit (c :: n)
      then let k := fold_left (λ a c, a * 10 + (c - 48)) (c :: n) 0 in
           if k <=? U64_MAX then Some k else None
      else None
  | _ => None
  end.

(** [Index] with a key: [Null] where there is nothing. *)
Definition json_at (v : Json) (k : Text) : Json := default JNull (json_get k v).
(** [Value::get] with a position. *)
Definition json_nth (v : Json) (i : nat) : option Json :=
  match v with JArray l => l !! i | _ => None end.
Definition as_str (v : Json) : option Text := match v with JString s => Some s | _ => None end.
Definition as_array (v : Json) : option (list Json) := match v with JArray l => Some l | _ => None end.
Definition as_object (v : Json) : option (list (Text * Json)) :=
  match v with JObject m => Some m | _ => None end.
Definition is_object (v : Json) : bool := match v with JObject _ => true | _ => false end.

(** An object written out, as [json!] does. *)
Definition json_object (fields : list (string * Json)) : Json :=
  JObject (fold_left (λ m f, map_insert (txt (fst f)) (snd f) m) fields []).
Definition json_string (s : string) : Json := JString (txt s).

(** ** Facts *)

Lemma map_insert_twice k x y m : map_insert k x (map_insert k y m) = map_insert k x m.
Proof.
  induction m as [|[k' v] m IH]; cbn; [by rewrite bool_decide_eq_true_2|].
  case_bool_decide as Hk; cbn; [by rewrite bool_decide_eq_true_2|].
  destruct (text_lt k k') eqn:Hlt; cbn; [by rewrite bool_decide_eq_true_2|].
  rewrite bool_decide_eq_false_2 by done. by rewrite Hlt, IH.
Qed.

Lemma map_get_insert k x m : map_get k (map_insert k x m) = Some x.
Proof.
  induction m as [|[k' v] m IH]; cbn; [by rewrite bool_decide_eq_true_2|].
  case_bool_decide as Hk; cbn; [by rewrite bool_decide_eq_true_2|].
  destruct (text_lt k k'); cbn; [by rewrite bool_decide_eq_true_2|].
  by rewrite bool_decide_eq_false_2.
Qed.

Lemma map_get_insert_ne k k' x m : k ≠ k' → map_get k (map_insert k' x m) = map_get k m.
Proof.
  intros Hne. induction m as [|[j v] m IH]; cbn; [by rewrite bool_decide_eq_false_2|].
  destruct (bool_decide (k' = j)) eqn:Hk; [apply bool_decide_eq_true in Hk as <-; cbn;
    by rewrite !bool_decide_eq_false_2|].
  destruct (text_lt k' j); cbn; [by rewrite (bool_decide_eq_false_2 (k = k'))|].
  by rewrite IH.
Qed.

Lemma json_get_insert k x m : json_get k (JObject (map_insert k x m)) = Some x.
Proof. apply map_get_insert. Qed.
