(* ===== verification/Fields.v ===== *)
(** * Fields in lines of text

    The [str] methods by which a document is read line by line and field by
    field, and the facts by which what was written that way is read back: lines
    with their ends, trimmed texts, separators, lists and decimal numbers. *)

From Stdlib Require Import String.
From stdpp Require Import base list numbers.
From S2P Require Import Prelude Monitor Utf8 Chars Message Json.
From stdpp Require Import list.
#[local] Open Scope N_scope.
#[local] Open Scope list_scope.

(** [str::split_once] with a string. *)
Fixpoint split_once (sep s : Text) : option (Text * Text) :=
  match Chars.strip_prefix sep s with
  | Some rest => Some ([], rest)
  | None => match s with [] => None | c :: s => '(a, b) ← split_once sep s; Some (c :: a, b) end
  end.

(** [str::split] with a character. *)
Fixpoint split_on (sep : N) (cur s : Text) : list Text :=
  match s with
  | [] => [cur]
  | c :: s => if c =? sep then cur :: split_on sep [] s else split_on sep (cur ++ [c]) s
  end.
Definition split_char (sep : N) (s : Text) : list Text := split_on sep [] s.

(** [Iterator::take_while]. *)
Fixpoint take_while {A} (p : A → bool) (l : list A) : list A :=
  match l with
  | [] => []
  | a :: l => if p a then a :: take_while p l else []
  end.

(** [str::parse] to an unsigned integer with the greatest value [max]: a plus
    sign may come first. *)
Definition decimal (ds : Text) : N := fold_left (λ a c, a * 10 + (c - 48)) ds 0.
Definition PLUS : N := 43.
Definition parse_unsigned (max : N) (s : Text) : option N :=
  let ds := match s with c :: ((_ :: _) as ds) => if c =? PLUS then ds else s | _ => s end in
  match ds with
  | [] => None
  | _ => if forallb digit ds && (decimal ds <=? max) then Some (decimal ds) else None
  end.
Definition parse_usize : Text → option N := parse_unsigned U64_MAX.
Definition parse_u32 : Text → option N := parse_unsigned U32_MAX.

Definition COMMA : N := 44.

(** ** Trimmed texts *)

(** A field as it is kept: trimmed, on one line. *)
Definition trimmed (t : Text) : Prop := trim t = t.
Definition tidy (t : Text) : Prop := trimmed t ∧ (LF ∉ t).

Lemma trim_start_head s : match Monitor.trim_start s with c :: _ => is_whitespace c = false | [] => True end.
Proof. induction s as [|c s IH]; cbn; [done|]. by destruct (is_whitespace c) eqn:Hc. Qed.
Lemma trim_start_stays c s : is_whitespace c = false → Monitor.trim_start (c :: s) = c :: s.
Proof. intros Hc. cbn. by rewrite Hc. Qed.

Lemma trimmed_ends t :
  trimmed t ↔ (∀ c, head t = Some c → is_whitespace c = false) ∧ (∀ c, list.last t = Some c → is_whitespace c = false).
Proof.
  unfold trimmed, trim, trim_end. split.
  - intros Ht. split; intros c Hc.
    + destruct (trim_start_suffix t) as (p & Hp & Hb). pose proof (trim_start_head t) as Hh.
      destruct (Monitor.trim_start t) as [|d s] eqn:Hs; [rewrite <-Ht in Hc; done|].
      destruct p as [|e p]; [cbn in Hp; rewrite Hp in Hc; cbn in Hc; congruence|].
      exfalso. assert (Hl := f_equal length Hp). rewrite <-Ht in Hl at 1.
      destruct (trim_start_suffix (rev (d :: s))) as (q & Hq & _). apply (f_equal length) in Hq.
      rewrite length_rev in Hl. rewrite length_rev, length_app in Hq. rewrite length_app in Hl. cbn [length] in *. lia.
    + pose proof (trim_start_head (rev (Monitor.trim_start t))) as Hh. rewrite <-Ht in Hc.
      destruct (Monitor.trim_start (rev _)) as [|d s]; [done|]. cbn [rev] in Hc. rewrite last_snoc in Hc. congruence.
  - intros [Hh Hl]. destruct t as [|c t]; [done|]. rewrite trim_start_stays by auto.
    destruct (rev (c :: t)) as [|d s] eqn:Hr; [by apply (f_equal length) in Hr; rewrite length_rev in Hr|].
    rewrite trim_start_stays; [by rewrite <-Hr, rev_involutive|]. apply Hl.
    apply (f_equal (@rev N)) in Hr. rewrite rev_involutive in Hr. rewrite Hr. cbn [rev]. apply last_snoc.
Qed.

Lemma trim_trimmed t : trimmed (trim t).
Proof.
  apply trimmed_ends. unfold trim, trim_end. pose proof (trim_start_head (rev (Monitor.trim_start t))) as Hl.
  destruct (trim_start_suffix (rev (Monitor.trim_start t))) as (q & Hq & _).
  pose proof (trim_start_head t) as Hh. split; intros c Hc.
  - destruct (Monitor.trim_start t) as [|d s]; [done|]. apply (f_equal (@rev N)) in Hq.
    rewrite rev_involutive, rev_app_distr in Hq. destruct (rev (Monitor.trim_start _)) as [|e r] eqn:He; [done|].
    cbn in Hc, Hq. congruence.
  - destruct (Monitor.trim_start (rev _)) as [|d s]; [done|]. cbn [rev] in Hc. rewrite last_snoc in Hc. congruence.
Qed.

Lemma trim_elem c t : c ∈ trim t → c ∈ t.
Proof.
  unfold trim, trim_end. intros Hc. destruct (trim_start_suffix t) as (p & Hp & _). rewrite Hp.
  destruct (trim_start_suffix (rev (Monitor.trim_start t))) as (q & Hq & _).
  apply elem_of_app. right. apply list_elem_of_In, in_rev. rewrite Hq. apply in_or_app. right.
  apply in_rev. by apply list_elem_of_In.
Qed.

Lemma trim_tidy t : LF ∉ t → tidy (trim t).
Proof. intros Ht. split; [apply trim_trimmed|]. intros H. by apply trim_elem in H. Qed.

(** A text between two that end in no space, put together. *)
Lemma trimmed_app a b : trimmed a → trimmed b → a ≠ [] → b ≠ [] → trimmed (a ++ b).
Proof.
  rewrite !trimmed_ends. intros [Ha _] [_ Hb] Hna Hnb. split; intros c Hc.
  - apply Ha. by destruct a.
  - apply Hb. destruct b as [|d b]; [done|]. by rewrite last_app_cons in Hc.
Qed.

Lemma trim_space v : trimmed v → trim (32 :: v) = v.
Proof. intros Hv. by unfold trimmed, trim in *. Qed.

(** ** Lines *)

Definition line (t : Text) : Text := t ++ [LF].
Definition unlines (ls : list Text) : Text := concat ((λ l, l ++ [LF]) <$> ls).
(** A line that is read back as it was written. *)
Definition clean (l : Text) : Prop := (LF ∉ l) ∧ list.last l ≠ Some CR.

Lemma tidy_clean_app l t : clean l → tidy t → clean (l ++ t).
Proof.
  intros [Hl Hc] [Ht HLF]. split; [by apply not_elem_of_app|]. destruct t as [|c t]; [by rewrite app_nil_r|].
  rewrite last_app_cons. apply trimmed_ends in Ht as [_ Ht]. intros H. by specialize (Ht _ H).
Qed.

Lemma strip_cr_clean l : list.last l ≠ Some CR → strip_cr l = l.
Proof.
  intros Hl. unfold strip_cr. destruct (list.last l) as [c|]; [|done].
  destruct (N.eqb_spec c CR); [congruence|done].
Qed.
Lemma lines_from_line cur l s :
  LF ∉ l → lines_from cur (l ++ LF :: s) = strip_cr (cur ++ l) :: lines_from [] s.
Proof.
  revert cur. induction l as [|c l IH]; intros cur Hl; [by rewrite app_nil_r|].
  apply not_elem_of_cons in Hl as [Hc Hl]. cbn [app lines_from].
  destruct (N.eqb_spec c LF); [congruence|]. by rewrite IH, <-app_assoc.
Qed.
Lemma lines_unlines ls : Forall clean ls → lines (unlines ls) = ls.
Proof.
  unfold lines, unlines. induction 1 as [|l ls [Hl Hc] _ IH]; [done|]. cbn [fmap list_fmap concat].
  rewrite <-app_assoc. cbn [app]. by rewrite lines_from_line, IH, app_nil_l, strip_cr_clean.
Qed.

Lemma strip_cr_elem c l : c ∈ strip_cr l → c ∈ l.
Proof.
  unfold strip_cr. destruct (list.last l) as [d|]; [|done]. destruct (d =? CR); [|done].
  intros Hc. rewrite <-(take_drop (length l - 1) l). apply elem_of_app. by left.
Qed.
Lemma lines_no_feed t l : l ∈ lines t → LF ∉ l.
Proof.
  unfold lines. assert (Hcur : LF ∉ @nil N) by apply not_elem_of_nil. revert Hcur.
  generalize (@nil N) as cur. induction t as [|c t IH]; intros cur Hcur Hl; cbn [lines_from] in Hl.
  - destruct cur; [by apply not_elem_of_nil in Hl|]. by apply list_elem_of_singleton in Hl as ->.
  - destruct (N.eqb_spec c LF) as [->|Hc].
    + apply elem_of_cons in Hl as [->|Hl]; [|by apply (IH [] (not_elem_of_nil _))].
      intros H. by apply strip_cr_elem in H.
    + apply (IH (cur ++ [c])); [|done]. apply not_elem_of_app. split; [done|].
      rewrite list_elem_of_singleton. congruence.
Qed.

(** No carriage return stands before a line feed. *)
Fixpoint crlf_free (s : Text) : bool :=
  match s with
  | c :: s => negb ((c =? CR) && starts_with [LF] s) && crlf_free s
  | [] => true
  end.
Lemma replace_crlf_free rep s : crlf_free s = true → replace [CR; LF] rep s = s.
Proof.
  unfold replace. generalize (length s) as fuel. intros fuel. revert s.
  induction fuel as [|fuel IH]; intros [|c s]; [done|done|done|]. cbn [crlf_free replace_from].
  intros [Hc Hs]%andb_true_iff.
  destruct (Chars.strip_prefix [CR; LF] (c :: s)) as [r|] eqn:Hr; [|by rewrite IH].
  apply strip_prefix_Some in Hr. injection Hr as -> ->. by rewrite N.eqb_refl in Hc.
Qed.
Lemma unlines_crlf_free ls : Forall clean ls → crlf_free (unlines ls) = true.
Proof.
  unfold unlines. induction 1 as [|l ls [Hl Hc] _ IH]; [done|]. cbn [fmap list_fmap concat].
  rewrite <-app_assoc. revert Hl Hc. induction l as [|c l IHl]; intros Hl Hc; [done|].
  apply not_elem_of_cons in Hl as [Hd Hl]. cbn [app crlf_free]. apply andb_true_iff. split.
  - destruct l as [|d l].
    + destruct (N.eqb_spec c CR) as [->|]; [by destruct Hc|done].
    + apply not_elem_of_cons in Hl as [Hd' _]. unfold starts_with. cbn [app Chars.strip_prefix].
      destruct (N.eqb_spec LF d); [congruence|]. by destruct (c =? CR).
  - apply IHl; [done|]. by destruct l.
Qed.

(** ** Separators *)

Lemma strip_prefix_app p s : Chars.strip_prefix p (p ++ s) = Some s.
Proof. by apply strip_prefix_Some. Qed.

Lemma split_once_app d sep a b : d ∉ a → split_once (d :: sep) (a ++ (d :: sep) ++ b) = Some (a, b).
Proof.
  intros Ha. induction a as [|c a IH].
  - pose proof (strip_prefix_app (d :: sep) b) as Hp. cbn [app] in *. cbn [split_once]. by rewrite Hp.
  - apply not_elem_of_cons in Ha as [Hc Ha]. cbn [app] in *. cbn [split_once Chars.strip_prefix].
    destruct (N.eqb_spec d c); [congruence|]. by rewrite IH.
Qed.
Lemma split_once_elem sep s a b c : split_once sep s = Some (a, b) → (c ∈ a ∨ c ∈ b) → c ∈ s.
Proof.
  revert a. induction s as [|d s IH]; intros a; cbn [split_once].
  - destruct (Chars.strip_prefix sep []) as [r|] eqn:Hp; [|done]. intros [= <- <-] [Hc|Hc]; [by apply not_elem_of_nil in Hc|].
    apply strip_prefix_Some in Hp. destruct sep, r; done.
  - destruct (Chars.strip_prefix sep (d :: s)) as [r|] eqn:Hp.
    + intros [= <- <-] [Hc|Hc]; [by apply not_elem_of_nil in Hc|]. apply strip_prefix_Some in Hp as ->.
      apply elem_of_app. by right.
    + destruct (split_once sep s) as [[a' b']|]; [|done]. intros [= <- <-] Hc. apply elem_of_cons.
      destruct Hc as [[->|Hc]%elem_of_cons|Hc]; [by left|right; by eapply IH; eauto..].
Qed.

Lemma split_on_app sep cur a s : sep ∉ a → split_on sep cur (a ++ s) = split_on sep (cur ++ a) s.
Proof.
  revert cur. induction a as [|c a IH]; intros cur Ha; [by rewrite app_nil_r|].
  apply not_elem_of_cons in Ha as [Hc Ha]. cbn [app split_on]. destruct (N.eqb_spec c sep); [congruence|].
  by rewrite IH, <-app_assoc.
Qed.
(** A list written with commas and spaces, split and trimmed again. *)
Lemma split_char_join t ts :
  Forall (λ t, (COMMA ∉ t) ∧ trimmed t) (t :: ts) → trim <$> split_char COMMA (Chars.join (txt ", ") (t :: ts)) = t :: ts.
Proof.
  unfold split_char. intros Hts. inversion_clear Hts as [|? ? [Ht Hr] Hts'].
  assert (Hgen : ∀ cur, trim cur = [] → trim (cur ++ t) = t →
            trim <$> split_on COMMA cur (Chars.join (txt ", ") (t :: ts)) = t :: ts).
  2: { by apply Hgen. }
  revert t Ht Hr. induction Hts' as [|u ts [Hu Hru] Hts IH]; intros t Ht Hr cur Hcur Hcurt.
  - cbn [Chars.join]. rewrite <-(app_nil_r t) at 1. rewrite split_on_app by done. cbn. by rewrite Hcurt.
  - change (Chars.join (txt ", ") (t :: u :: ts)) with (t ++ COMMA :: 32 :: Chars.join (txt ", ") (u :: ts)).
    rewrite split_on_app by done. cbn [split_on]. rewrite N.eqb_refl. rewrite fmap_cons, Hcurt. f_equal.
    change (32 =? COMMA) with false. cbn [app]. apply IH; [done|done|done|]. by apply trim_space.
Qed.
Lemma split_elem sep s p c : p ∈ split_char sep s → c ∈ p → c ∈ s ∧ c ≠ sep.
Proof.
  unfold split_char. assert (Hcur : ∀ c : N, c ∈ @nil N → c ≠ sep) by (by intros ? ?%not_elem_of_nil).
  assert (Hall : ∀ cur, (∀ c, c ∈ cur → c ≠ sep) → p ∈ split_on sep cur s → c ∈ p → (c ∈ cur ∨ c ∈ s) ∧ c ≠ sep).
  2: { intros Hp Hc. destruct (Hall [] Hcur Hp Hc) as [[H%not_elem_of_nil|H] ?]; done. }
  clear Hcur. induction s as [|d s IH]; intros cur Hcur Hp Hc; cbn [split_on] in Hp.
  - apply list_elem_of_singleton in Hp as ->. auto.
  - destruct (N.eqb_spec d sep) as [->|Hd].
    + apply elem_of_cons in Hp as [->|Hp]; [by auto|].
      destruct (IH [] ltac:(by intros ? ?%not_elem_of_nil) Hp Hc) as [[H%not_elem_of_nil|H] ?]; [done|].
      split; [right; by apply elem_of_cons; right|done].
    + destruct (IH (cur ++ [d])) as [[H|H] ?]; [|done|done|..].
      * intros e [He|He%list_elem_of_singleton]%elem_of_app; [by apply Hcur|by subst].
      * apply elem_of_app in H as [H|H%list_elem_of_singleton]; [by split; [left|]|].
        split; [right; apply elem_of_cons; by left|done].
      * split; [right; by apply elem_of_cons; right|done].
Qed.

(** ** Numbers *)

Lemma decimal_acc ds a : fold_left (λ a c, a * 10 + (c - 48)) ds a = a * 10 ^ N.of_nat (length ds) + decimal ds.
Proof.
  unfold decimal. revert a. induction ds as [|c ds IH]; intros a; [cbn; lia|]. cbn [fold_left length].
  rewrite (IH (a * 10 + _)), (IH (0 * 10 + _)), Nat2N.inj_succ, N.pow_succ_r'. lia.
Qed.
Lemma decimal_cons c ds : decimal (c :: ds) = (c - 48) * 10 ^ N.of_nat (length ds) + decimal ds.
Proof. unfold decimal at 1. cbn [fold_left]. rewrite decimal_acc. lia. Qed.

Lemma digits_of_spec fuel n acc :
  n < 2 ^ N.of_nat fuel → n ≠ 0 ∨ fuel ≠ O →
  let ds := digits_of fuel n acc in
  (∃ pre, ds = pre ++ acc ∧ pre ≠ [] ∧ forallb digit pre = true) ∧
  decimal ds = n * 10 ^ N.of_nat (length acc) + decimal acc.
Proof.
  revert n acc. induction fuel as [|fuel IH]; intros n acc Hn Hne; [cbn in Hn; lia|]. cbv zeta. cbn [digits_of].
  assert (Hd : digit (48 + n mod 10) = true).
  { unfold digit. pose proof (N.mod_lt n 10 ltac:(lia)). generalize dependent (n mod 10). intros r Hr.
    apply andb_true_iff. split; apply N.leb_le; lia. }
  assert (Hhead : decimal ((48 + n mod 10) :: acc) = n mod 10 * 10 ^ N.of_nat (length acc) + decimal acc).
  { rewrite decimal_cons. f_equal. f_equal. generalize (n mod 10). clear. intros r. lia. }
  destruct (N.ltb_spec n 10) as [Hs|Hs].
  - rewrite N.mod_small in * by done. split; [|done]. exists [48 + n]. cbn. by rewrite Hd.
  - assert (Hq : n / 10 < 2 ^ N.of_nat fuel).
    { rewrite Nat2N.inj_succ, N.pow_succ_r' in Hn. apply N.Div0.div_lt_upper_bound. lia. }
    assert (Hq0 : n / 10 ≠ 0) by (apply N.neq_0_lt_0, N.div_str_pos; lia).
    destruct (IH (n / 10) ((48 + n mod 10) :: acc) Hq (or_introl Hq0)) as [(pre & -> & Hp & Hf) ->].
    split.
    + exists (pre ++ [48 + n mod 10]). rewrite <-app_assoc, forallb_app, Hf. cbn. rewrite Hd.
      split_and!; [done|by destruct pre|done].
    + rewrite Hhead. cbn [length]. rewrite Nat2N.inj_succ, N.pow_succ_r'.
      pose proof (N.div_mod n 10 ltac:(lia)). nia.
Qed.

Lemma show_N_spec n : forallb digit (show_N n) = true ∧ show_N n ≠ [] ∧ decimal (show_N n) = n.
Proof.
  unfold show_N. destruct (digits_of_spec (S (N.to_nat (N.log2 n))) n []) as [(pre & -> & Hp & Hf) ->].
  - rewrite Nat2N.inj_succ, N2Nat.id. destruct (N.eq_dec n 0) as [->|Hn]; [done|]. apply N.log2_spec. lia.
  - by right.
  - rewrite app_nil_r. split_and!; [done..|]. cbn. lia.
Qed.
Lemma digit_plain c : digit c = true → is_whitespace c = false ∧ c ≠ LF ∧ c ≠ COMMA ∧ c ≠ PLUS ∧ c ≠ 46.
Proof.
  unfold digit. intros [H1 H2]%andb_true_iff. apply N.leb_le in H1, H2.
  assert (c = 48 ∨ c = 49 ∨ c = 50 ∨ c = 51 ∨ c = 52 ∨ c = 53 ∨ c = 54 ∨ c = 55 ∨ c = 56 ∨ c = 57) as Hc by lia.
  destruct_or! Hc; subst; by vm_compute.
Qed.
Lemma digits_tidy t : forallb digit t = true → tidy t ∧ (COMMA ∉ t) ∧ (46 ∉ t).
Proof.
  intros Ht. assert (Hd : ∀ c, c ∈ t → digit c = true).
  { intros c Hc. rewrite forallb_forall in Ht. by apply Ht, list_elem_of_In. }
  unfold tidy. split_and!; [apply trimmed_ends; split; intros c Hc; apply digit_plain, Hd| | |].
  - destruct t; [done|]. injection Hc as ->. by left.
  - by apply last_Some_elem_of.
  - intros H. by apply Hd in H.
  - intros H. by apply Hd in H.
  - intros H. by apply Hd in H.
Qed.
Lemma show_N_tidy n : tidy (show_N n) ∧ (COMMA ∉ show_N n) ∧ (46 ∉ show_N n).
Proof. apply digits_tidy, show_N_spec. Qed.

Lemma parse_show max n : n <= max → parse_unsigned max (show_N n) = Some n.
Proof.
  intros Hn. destruct (show_N_spec n) as (Hd & Hne & Hv). unfold parse_unsigned.
  assert (Hds : match show_N n with c :: ((_ :: _) as ds) => if c =? PLUS then ds else show_N n | _ => show_N n end
                = show_N n).
  { destruct (show_N n) as [|c [|d ds]]; [done|done|]. destruct (N.eqb_spec c PLUS) as [->|]; [done|done]. }
  cbv zeta. rewrite Hds, Hd, Hv. destruct (show_N n); [done|]. cbn [andb]. by rewrite (proj2 (N.leb_le _ _) Hn).
Qed.
Lemma parse_unsigned_bound max t n : parse_unsigned max t = Some n → n <= max.
Proof.
  unfold parse_unsigned. cbv zeta. destruct (match t with c :: ((_ :: _) as ds) => _ | _ => _ end); [done|].
  destruct (_ && _) eqn:Hb; [|done]. apply andb_true_iff in Hb as [_ Hb%N.leb_le]. intros [= <-]. done.
Qed.

(** ** Clean lines *)

Lemma unlines_app a b : unlines (a ++ b) = unlines a ++ unlines b.
Proof. unfold unlines. by rewrite fmap_app, concat_app. Qed.
Lemma unlines_cons l ls : unlines (l :: ls) = line l ++ unlines ls.
Proof. done. Qed.

(** Literals hold no line feed and end in no carriage return. *)
Definition literal (t : Text) : bool := negb (bool_decide (LF ∈ t)) && negb (bool_decide (list.last t = Some CR)).
Lemma literal_clean t : literal t = true → clean t.
Proof.
  unfold literal. intros [H1 H2]%andb_true_iff. apply negb_true_iff, bool_decide_eq_false in H1, H2. done.
Qed.
Lemma clean_app a b : clean a → clean b → clean (a ++ b).
Proof.
  intros [Ha Hca] [Hb Hcb]. split; [by apply not_elem_of_app|]. destruct b as [|c b]; [by rewrite app_nil_r|].
  by rewrite last_app_cons.
Qed.
Lemma tidy_clean t : tidy t → clean t.
Proof. intros Ht. apply (tidy_clean_app [] t); [|done]. by apply literal_clean. Qed.
Create HintDb clean.
#[export] Hint Resolve clean_app tidy_clean : clean.
#[export] Hint Extern 1 (clean (txt _)) => (apply literal_clean; vm_compute; reflexivity) : clean.
#[export] Hint Extern 1 (clean []) => (apply literal_clean; vm_compute; reflexivity) : clean.


Lemma join_clean ts : Forall clean ts → clean (Chars.join (txt ", ") ts).
Proof.
  induction 1 as [|t [|u ts] Ht Hts IH]; [by apply literal_clean|exact Ht|].
  change (clean (t ++ txt ", " ++ Chars.join (txt ", ") (u :: ts))). eauto with clean.
Qed.
Lemma show_clean n : clean (show_N n).
Proof. apply tidy_clean, show_N_tidy. Qed.
#[export] Hint Resolve show_clean join_clean : clean.

Lemma trimmed_lead c p t : is_whitespace c = false → trimmed t → t ≠ [] → trimmed (c :: p ++ t).
Proof.
  rewrite !trimmed_ends. intros Hc [_ Hl] Hne. split; [by intros d [= <-]|]. intros d Hd. apply Hl.
  destruct t as [|e t]; [done|]. by rewrite app_comm_cons, last_app_cons in Hd.
Qed.
Lemma blank_trimmed t : trimmed t → is_blank t = bool_decide (t = []).
Proof. intros Ht. rewrite trim_blank. unfold trimmed in Ht. by rewrite Ht. Qed.
