(* ===== verification/Provider.v ===== *)
(** * What a provider says (localpilot-llm-core: error.rs, event.rs;
    localpilot-core/src/usage.rs)

    The events of a response, the errors it can end with, and the tokens it
    cost. *)

From Stdlib Require Import String.
From stdpp Require Import base list numbers.
From S2P Require Import Quota.
From S2P Require Import Prelude Monitor Utf8 Chars Message Json.
From stdpp Require Import list.
#[local] Open Scope N_scope.
#[local] Open Scope list_scope.

(** ** usage.rs *)

Definition u64_saturate (n : N) : N := N.min n U64_MAX.

Record TokenUsage := mkUsage {
  input_tokens : N;
  output_tokens : N;
  cache_creation_input_tokens : N;
  cache_read_input_tokens : N;
}.
Definition TokenUsage_default : TokenUsage := mkUsage 0 0 0 0.
Definition effective_input_tokens (u : TokenUsage) : N :=
  u64_saturate (u64_saturate (input_tokens u + cache_creation_input_tokens u)
    + cache_read_input_tokens u).
Definition usage_total (u : TokenUsage) : N :=
  u64_saturate (effective_input_tokens u + output_tokens u).
Definition accumulate (u other : TokenUsage) : TokenUsage :=
  mkUsage (u64_saturate (input_tokens u + input_tokens other))
    (u64_saturate (output_tokens u + output_tokens other))
    (u64_saturate (cache_creation_input_tokens u + cache_creation_input_tokens other))
    (u64_saturate (cache_read_input_tokens u + cache_read_input_tokens other)).

(** ** error.rs *)

Inductive ProviderError :=
  | Auth (request_id : option Text)
  | AuthConfig (message : Text)
  | RateLimit (quota : QuotaInfo)
  | QuotaExhausted (quota : QuotaInfo)
  | InvalidRequest (message : Text)
  | ModelNotFound (model : Text)
  | Server (status : N) (request_id : option Text)
  | Network (detail : Text)
  | StreamDecode (detail : Text)
  | StreamTruncated (detail : Text)
  | StreamStalled (waited_secs : N)
  | MalformedToolArguments (tool : Text) (bytes : nat) (reason : Text)
  | UnsupportedFeature (feature : Text).

(** The words of an error, as they are shown. *)
Definition provider_error_text (e : ProviderError) : Text :=
  match e with
  | Auth _ => txt "authentication failed"
  | AuthConfig message => txt "authentication setup failed: " ++ message
  | RateLimit _ => txt "rate limited by provider"
  | QuotaExhausted _ => txt "provider quota exhausted"
  | InvalidRequest message => txt "invalid request: " ++ message
  | ModelNotFound model => txt "model not found: " ++ model
  | Server status _ => txt "provider server error (status " ++ show_N status ++ txt ")"
  | Network detail => txt "network error: " ++ detail
  | StreamDecode detail => txt "stream decode error: " ++ detail
  | StreamTruncated detail => txt "the response stream ended early: " ++ detail
  | StreamStalled waited_secs =>
      txt "no data from the model server for " ++ show_N waited_secs
      ++ txt "s (the connection stayed open); the server may be hung, or working slower than the stall window "
      ++ [0x2014]
      ++ txt " for a local model, check that GPU offload is active (CPU-speed inference is the usual cause), or raise the provider's `request_timeout_secs` to wait longer"
  | MalformedToolArguments tool bytes reason =>
      txt "malformed arguments for tool `" ++ tool ++ txt "` (" ++ show_nat bytes ++ txt " bytes): " ++ reason
  | UnsupportedFeature feature => txt "unsupported feature: " ++ feature
  end.

Definition is_context_length_error (e : ProviderError) : bool :=
  match e with
  | InvalidRequest message =>
      contains_any (to_ascii_lowercase message)
        (txt <$> ["context"; "token"; "too large"; "too long"; "maximum length"; "max length"]%string)
  | _ => false
  end.
(** How reading an open body failed: a decode error is a cut. *)
Definition from_response_body_error (is_decode : bool) (err : Text) : ProviderError :=
  let message := txt "response body read failed after stream opened: " ++ err in
  if is_decode then StreamTruncated message else Network message.
Definition stream_stalled (waited : Duration) : ProviderError := StreamStalled (as_secs waited).
Definition quota (e : ProviderError) : option QuotaInfo :=
  match e with RateLimit q | QuotaExhausted q => Some q | _ => None end.
Definition from_http (status : N) (code request_id : option Text) (quota : QuotaInfo) : ProviderError :=
  if (status =? 401) || (status =? 403) then Auth request_id
  else if status =? 404 then ModelNotFound []
  else if status =? 429 then
    if bool_decide (code = Some (txt "insufficient_quota")) then QuotaExhausted quota else RateLimit quota
  else if (status =? 400) || (status =? 422) then InvalidRequest (default (txt "bad request") code)
  else Server status request_id.

(** ** event.rs *)

(** What a provider emits: an id, a name, the input and its metadata. *)
Record StreamCall := mkStreamCall {
  sc_id : Text;
  sc_name : Text;
  sc_input : Json;
  sc_metadata : option Json;
}.
Inductive ModelEvent :=
  | TextDelta (t : Text)
  | ReasoningDelta (t : Text)
  | EvToolCall (c : StreamCall)
  | EvUsage (u : TokenUsage)
  | ProviderWarning (message : Text)
  | OutputLimit (message : Text) (truncated_tools : list Text)
  | EvDone.
