(* ===== verification/ToolInput.v ===== *)
(** * The arguments of a tool call (localpilot-tools: validate.rs, repair.rs,
    schema_intent.rs, contract.rs)

    A call's arguments are checked against the tool's schema; what does not fit
    may be repaired where the schema proves what was meant, and only for tools
    that cannot do lasting harm.  The JSON reader, the printer's text of an
    example and the configured redaction are parameters. *)

From Stdlib Require Import String.
From stdpp Require Import base list numbers relations.
From S2P Require Import Prelude Monitor Utf8 Chars Message Json Fields.
From stdpp Require Import list.
#[local] Open Scope nat_scope.
#[local] Open Scope list_scope.

(** ** validate.rs *)

Inductive MalformedClass :=
  | MissingRequiredField
  | StringifiedJson
  | BareStringForArray
  | ObjectForArray
  | MarkdownAutolink
  | TypeMismatch.
#[export] Instance MalformedClass_eq_dec : EqDecision MalformedClass.
Proof. solve_decision. Defined.

Definition label (c : MalformedClass) : Text :=
  txt match c with
      | MissingRequiredField => "missing_required_field"
      | StringifiedJson => "stringified_json"
      | BareStringForArray => "bare_string_for_array"
      | ObjectForArray => "object_for_array"
      | MarkdownAutolink => "markdown_autolink"
      | TypeMismatch => "type_mismatch"
      end%string.

Record SchemaIssue := mkIssue {
  path : Text;
  expected : Text;
  actual : Text;
  class : MalformedClass;
}.

(** [Number::is_i64() || is_u64()], of the text of a number. *)
Definition is_integer (n : Text) : bool :=
  match n with
  | 45%N :: ((_ :: _) as ds) =>
      forallb digit ds && (fold_left (λ a c, a * 10 + (c - 48)) ds 0 <=? 9223372036854775808)%N
  | _ => bool_decide (is_Some (as_u64 (JNumber n)))
  end.

Definition type_name (v : Json) : Text :=
  txt match v with
      | JNull => "null"
      | JBool _ => "boolean"
      | JNumber n => if is_integer n then "integer" else "number"
      | JString _ => "string"
      | JArray _ => "array"
      | JObject _ => "object"
      end%string.

Definition has_key (k : string) (m : list (Text * Json)) : bool := bool_decide (is_Some (map_get (txt k) m)).
(** The one type a property declares, [None] when that is open. *)
Definition expected_type (prop : Json) : option Text :=
  prop ← as_object prop;
  if existsb (λ k, has_key k prop) ["$ref"; "allOf"; "anyOf"; "oneOf"; "enum"]%string then None
  else match map_get (txt "type") prop with
       | Some (JString t) => Some t
       | Some (JArray types) => head (List.filter (λ t, negb (bool_decide (t = txt "null"))) (omap as_str types))
       | _ => None
       end.

Definition is_string (v : Json) : bool := match v with JString _ => true | _ => false end.
Definition is_array (v : Json) : bool := match v with JArray _ => true | _ => false end.
Definition is_boolean (v : Json) : bool := match v with JBool _ => true | _ => false end.
Definition is_number (v : Json) : bool := match v with JNumber _ => true | _ => false end.
Definition is_int (v : Json) : bool := match v with JNumber n => is_integer n | _ => false end.
Definition is_null (v : Json) : bool := match v with JNull => true | _ => false end.

(** The types both checks know; [null] is told apart by the validator only. *)
Definition json_type_matches (expected : Text) (v : Json) : bool :=
  let named s := bool_decide (expected = txt s) in
  if named "string"%string then is_string v
  else if named "array"%string then is_array v
  else if named "object"%string then is_object v
  else if named "boolean"%string then is_boolean v
  else if named "integer"%string then is_int v
  else if named "number"%string then is_number v
  else true.
Definition type_matches (expected : Text) (v : Json) : bool :=
  if bool_decide (expected = txt "null") then is_null v else json_type_matches expected v.

(** schema_intent.rs. *)
Definition INTENT_KEY : Text := txt "x-localpilot-intent".
Definition INTENT_PATH : Text := txt "path".
Definition INTENT_CONTENT : Text := txt "content".
Definition INTENT_COMMAND : Text := txt "command".
Definition field_intent (prop : Json) : option Text := json_get INTENT_KEY prop ≫= as_str.
Definition is_repair_exempt (prop : Json) : bool :=
  bool_decide (field_intent prop = Some INTENT_CONTENT ∨ field_intent prop = Some INTENT_COMMAND).

Definition property (schema : Json) (name : Text) : option Json :=
  json_get (txt "properties") schema ≫= json_get name.

Definition ARRAY : Text := txt "array".
Definition OBJECT : Text := txt "object".

Section validate.
(** [serde_json::from_str]. *)
Context (from_str : Text → option Json).

Definition classify_array_mismatch (v : Json) : MalformedClass :=
  match v with
  | JString s =>
      match from_str s with Some (JArray _) => StringifiedJson | _ => BareStringForArray end
  | JObject _ => ObjectForArray
  | _ => TypeMismatch
  end.
Definition classify_scalar_mismatch (expected : Text) (v : Json) : MalformedClass :=
  match v with
  | JString s =>
      match from_str s with
      | Some parsed => if type_matches expected parsed then StringifiedJson else TypeMismatch
      | None => TypeMismatch
      end
  | _ => TypeMismatch
  end.

Definition missing_issue (properties : option (list (Text * Json))) (field : Text) : SchemaIssue :=
  mkIssue field (default (txt "value") (ps ← properties; prop ← map_get field ps; expected_type prop))
    (txt "absent") MissingRequiredField.
Definition type_issue (properties : list (Text * Json)) (entry : Text * Json) : option SchemaIssue :=
  let '(field, value) := entry in
  if is_null value then None
  else
    prop ← map_get field properties;
    t ← expected_type prop;
    if type_matches t value then None
    else Some (mkIssue field t (type_name value)
                 (if bool_decide (t = ARRAY) then classify_array_mismatch value
                  else classify_scalar_mismatch t value)).

Definition tool_input_issues (schema input : Json) : list SchemaIssue :=
  match as_object schema with
  | None => []
  | Some schema =>
      let required := map_get (txt "required") schema ≫= as_array in
      let properties := map_get (txt "properties") schema ≫= as_object in
      match as_object input with
      | None =>
          if negb (bool_decide (default [] required = [])) &&
             bool_decide ((map_get (txt "type") schema ≫= as_str) = Some OBJECT)
          then [mkIssue [] OBJECT (type_name input) TypeMismatch] else []
      | Some obj =>
          (missing_issue properties <$>
             List.filter (λ f, negb (bool_decide (is_Some (map_get f obj)))) (omap as_str (default [] required)))
          ++ match properties with Some ps => omap (type_issue ps) obj | None => [] end
      end
  end.
Definition is_input_valid (schema input : Json) : bool :=
  match tool_input_issues schema input with [] => true | _ => false end.
Definition required_fields_present (schema input : Json) : bool :=
  match json_get (txt "required") schema ≫= as_array with
  | None => true
  | Some required =>
      match as_object input with
      | None => bool_decide (required = [])
      | Some obj => forallb (λ f, bool_decide (is_Some (map_get f obj))) (omap as_str required)
      end
  end.

(** ** The readable error *)

Definition quote (t : Text) : Text := BACKTICK :: t ++ [BACKTICK].
Definition describe_issue (i : SchemaIssue) : Text :=
  let field := quote (path i) in
  match path i, class i with
  | [], _ => txt "the arguments must be a JSON object, but a " ++ actual i ++ txt " was sent"
  | _, MissingRequiredField =>
      field ++ txt " is required (expected " ++ expected i ++ txt ") but was not provided"
  | _, StringifiedJson =>
      field ++ txt " must be a JSON " ++ expected i ++ txt ", but was sent as a quoted string; pass it as an actual "
      ++ expected i ++ txt ", not a string (remove the surrounding quotes)"
  | _, BareStringForArray =>
      field ++ txt " must be an array, but a single string was sent; wrap the value in an array, e.g. ["
      ++ 34%N :: txt "value" ++ 34%N :: txt "]"
  | _, ObjectForArray => field ++ txt " must be an array, but an object was sent"
  | _, MarkdownAutolink =>
      field ++ txt " looks like a markdown link `[text](target)`; pass just the path or URL, not the markdown form"
  | _, TypeMismatch => field ++ txt " must be " ++ expected i ++ txt ", but " ++ actual i ++ txt " was sent"
  end.
Record ToolExample := mkExample { ex_input : Text; ex_note : Text }.
Definition readable_input_error (tool : Text) (issues : list SchemaIssue) (examples : list ToolExample) : Text :=
  txt "the " ++ quote tool ++ txt " call's arguments did not match its schema:"
  ++ (issues ≫= λ i, LF :: txt "  - " ++ describe_issue i)
  ++ match examples with
     | e :: _ => LF :: txt "a valid " ++ quote tool ++ txt " call looks like: " ++ ex_input e
     | [] => []
     end.

(** ** contract.rs *)

Inductive SideEffectClass := ReadOnly | ProjectWrite | ExternalWrite | NetworkUse | Destructive.
Inductive Reversibility := Reversible | ReversibleWithArtifact | Irreversible | UnknownReversibility.

(** ** repair.rs *)

Definition is_repair_eligible (side_effect : SideEffectClass) (reversibility : Reversibility) (is_mcp : bool) : bool :=
  negb is_mcp
  && match side_effect with ReadOnly | ProjectWrite => true | _ => false end
  && match reversibility with Irreversible => false | _ => true end.

(** [str::strip_suffix]. *)
Definition strip_suffix (suffix s : Text) : option Text :=
  (λ r, rev r) <$> Chars.strip_prefix (rev suffix) (rev s).
Definition has_any (cs : string) (s : Text) : bool :=
  existsb (λ c, bool_decide (c ∈ txt cs)) s.

Definition unwrap_markdown_autolink (value : Text) : option Text :=
  inner ← Chars.strip_prefix (txt "[") (trim value);
  '(text, rest) ← split_once (txt "](") inner;
  target ← strip_suffix (txt ")") rest;
  if bool_decide (text = []) || bool_decide (target = []) || has_any "[]" text || has_any "()" target
  then None else Some text.

Definition array_item_type (prop : Json) : option Text :=
  items ← json_get (txt "items") prop ≫= as_object;
  map_get (txt "type") items ≫= as_str.
Definition wrap_bare_string_as_array (prop value : Json) : option Json :=
  s ← as_str value;
  t ← array_item_type prop;
  if bool_decide (t = txt "string") then Some (JArray [JString s]) else None.
Definition parse_stringified_json (prop value : Json) : option Json :=
  s ← as_str value;
  parsed ← from_str s;
  t ← expected_type prop;
  if bool_decide (t = ARRAY) then
    items ← as_array parsed;
    match array_item_type prop with
    | Some item_type => if forallb (json_type_matches item_type) items then Some parsed else None
    | None => Some parsed
    end
  else if bool_decide (t = OBJECT) then if is_object parsed then Some parsed else None
  else None.

Definition intent_issue (schema : Json) (entry : Text * Json) : option SchemaIssue :=
  let '(field, value) := entry in
  prop ← property schema field;
  if bool_decide (field_intent prop = Some INTENT_PATH) then
    text ← as_str value;
    _ ← unwrap_markdown_autolink text;
    Some (mkIssue field (txt "path") (txt "string") MarkdownAutolink)
  else None.
Definition intent_issues (schema input : Json) : list SchemaIssue :=
  match as_object input with None => [] | Some obj => omap (intent_issue schema) obj end.
Definition all_issues (schema input : Json) : list SchemaIssue :=
  tool_input_issues schema input ++ intent_issues schema input.

Definition apply_rule (schema : Json) (issue : SchemaIssue) (value : Json) : option (Json * Text * Text) :=
  let prop := property schema (path issue) in
  if match prop with Some p => is_repair_exempt p | None => false end then None
  else match class issue with
       | BareStringForArray =>
           prop ← prop;
           repaired ← wrap_bare_string_as_array prop value;
           Some (repaired, txt "wrap_bare_string_as_array",
                 txt "interpreted " ++ quote (path issue) ++ txt " as a one-element array")
       | StringifiedJson =>
           prop ← prop;
           repaired ← parse_stringified_json prop value;
           Some (repaired, txt "parse_stringified_json",
                 txt "parsed " ++ quote (path issue) ++ txt " from a JSON string into its value")
       | MarkdownAutolink =>
           text ← as_str value;
           unwrapped ← unwrap_markdown_autolink text;
           Some (JString unwrapped, txt "unwrap_markdown_autolink",
                 txt "unwrapped a markdown link in " ++ quote (path issue))
       | MissingRequiredField | ObjectForArray | TypeMismatch => None
       end.

Inductive RepairOutcome := Valid | Repaired | Invalid.
#[export] Instance RepairOutcome_eq_dec : EqDecision RepairOutcome.
Proof. solve_decision. Defined.
Record ToolInputValidationResult := mkValidation {
  tool : Text;
  outcome : RepairOutcome;
  issues : list SchemaIssue;
  repairs_applied : list Text;
  repaired_input : option Json;
  model_note : option Text;
  readable_message : option Text;
  risk : SideEffectClass;
  rejected_high_risk : bool;
}.
Record RepairRequest := mkRepair {
  rr_tool : Text;
  rr_schema : Json;
  rr_side_effect : SideEffectClass;
  rr_reversibility : Reversibility;
  rr_is_mcp : bool;
  rr_attempt_repair : bool;
  rr_examples : list ToolExample;
}.
(** [redact] of the configuration. *)
Context (redact : Text → Text).

(** One issue repaired on the copy, with its rule and its note. *)
Definition repair_step (schema : Json) (st : Json * list Text * list Text) (issue : SchemaIssue)
    : Json * list Text * list Text :=
  let '(candidate, applied, notes) := st in
  match apply_rule schema issue (default JNull (json_get (path issue) candidate)), candidate with
  | Some (repaired, rule, note), JObject obj =>
      (JObject (map_insert (path issue) repaired obj), applied ++ [rule], notes ++ [note])
  | _, _ => st
  end.
Definition repair_all (schema input : Json) (found : list SchemaIssue) : Json * list Text * list Text :=
  fold_left (repair_step schema) found (input, [], []).

Definition evaluate (req : RepairRequest) (input : Json) : ToolInputValidationResult :=
  let found := all_issues (rr_schema req) input in
  match found with
  | [] => mkValidation (rr_tool req) Valid [] [] None None None (rr_side_effect req) false
  | _ =>
      let eligible := is_repair_eligible (rr_side_effect req) (rr_reversibility req) (rr_is_mcp req) in
      let make_invalid rejected applied :=
        mkValidation (rr_tool req) Invalid found applied None None
          (Some (redact (readable_input_error (rr_tool req) found (rr_examples req)))) (rr_side_effect req) rejected in
      if negb (rr_attempt_repair req) || negb eligible
      then make_invalid (rr_attempt_repair req && negb eligible) []
      else
        let '(candidate, applied, notes) := repair_all (rr_schema req) input found in
        match applied with
        | [] => make_invalid false []
        | _ =>
            match all_issues (rr_schema req) candidate with
            | [] => mkValidation (rr_tool req) Repaired found applied (Some candidate)
                      (Some (Chars.join (txt "; ") notes)) None (rr_side_effect req) false
            | _ => make_invalid false applied
            end
        end
  end.
End validate.

(** ** The arguments of a tool call: the theorems *)

Lemma map_get_elem k v m : (k, v) ∈ m → is_Some (map_get k m).
Proof.
  induction m as [|[k' v'] m IH]; [by intros ?%elem_of_nil|]. cbn [map_get].
  intros [[= -> ->]|H]%elem_of_cons; [by rewrite bool_decide_eq_true_2|].
  case_bool_decide; [done|by apply IH].
Qed.

(** ** Validation *)

(** What the schema asks of an object, as far as the check goes. *)
Definition fits (schema obj : list (Text * Json)) : Prop :=
  (∀ required f, map_get (txt "required") schema ≫= as_array = Some required → JString f ∈ required →
     is_Some (map_get f obj)) ∧
  (∀ ps k v prop t, map_get (txt "properties") schema ≫= as_object = Some ps → (k, v) ∈ obj → v ≠ JNull →
     map_get k ps = Some prop → expected_type prop = Some t → type_matches t v = true).

Lemma omap_nil {A B} (f : A → option B) l : omap f l = [] ↔ ∀ a, a ∈ l → f a = None.
Proof.
  induction l as [|a l IH]; [split; [by intros _ a ?%elem_of_nil|done]|]. cbn [omap list_omap]. split.
  - destruct (f a) eqn:Ha; [done|]. intros Hl b [->|Hb]%elem_of_cons; [done|]. by apply IH.
  - intros H. rewrite (H a) by by left. apply IH. intros b Hb. apply H. by right.
Qed.

(** An object is valid exactly when every required field is there and every
    property of one declared type has it. *)
Lemma validation_exact from_str schema obj :
  is_input_valid from_str (JObject schema) (JObject obj) = true ↔ fits schema obj.
Proof.
  unfold is_input_valid, tool_input_issues, fits. cbn [as_object].
  set (required := _ ≫= as_array). set (properties := _ ≫= as_object).
  assert (H1 : (missing_issue properties <$> List.filter (λ f, negb (bool_decide (is_Some (map_get f obj))))
                  (omap as_str (default [] required))) = [] ↔
               ∀ r f, required = Some r → JString f ∈ r → is_Some (map_get f obj)).
  { assert (Hnil : ∀ l, missing_issue properties <$> l = [] ↔ l = []) by (intros []; by split). rewrite Hnil. split.
    - intros Hf r f -> Hin. destruct (decide (is_Some (map_get f obj))) as [|Hn]; [done|]. exfalso.
      apply (not_elem_of_nil f). rewrite <-Hf. apply list_elem_of_In, filter_In.
      rewrite bool_decide_eq_false_2 by done. split; [|done].
      apply list_elem_of_In, list_elem_of_omap. by exists (JString f).
    - intros H. apply elem_of_nil_inv. intros f Hin. apply list_elem_of_In, filter_In in Hin as [Hin Hn].
      apply list_elem_of_In, list_elem_of_omap in Hin as (v & Hv & Hs). destruct v; try done.
      injection Hs as ->. destruct required as [r|]; [|by apply elem_of_nil in Hv]. apply (H r _ eq_refl) in Hv. by rewrite bool_decide_eq_true_2 in Hn. }
  assert (H2 : match properties with Some ps => omap (type_issue from_str ps) obj | None => [] end = [] ↔
               ∀ ps k v prop t, properties = Some ps → (k, v) ∈ obj → v ≠ JNull → map_get k ps = Some prop →
                 expected_type prop = Some t → type_matches t v = true).
  { destruct properties as [ps|]; [|by split]. rewrite omap_nil. split.
    - intros H ps' k v prop t [= <-] Hin Hnn Hp Ht. specialize (H _ Hin). unfold type_issue in H.
      destruct (is_null v) eqn:Hnull; [by destruct v|]. rewrite Hp in H. cbn in H. rewrite Ht in H. cbn in H.
      by destruct (type_matches t v).
    - intros H [k v] Hin. unfold type_issue. destruct (is_null v) eqn:Hnull; [done|].
      destruct (map_get k ps) as [prop|] eqn:Hp; [|done]. cbn. destruct (expected_type prop) as [t|] eqn:Ht; [|done].
      cbn. by rewrite (H ps k v prop t) by (done || by intros ->). }
  rewrite <-H1, <-H2. split.
  - destruct (_ ++ _) as [|x l] eqn:Happ; [|done]. by apply app_nil in Happ as [-> ->].
  - by intros [-> ->].
Qed.

(** ** Repair *)

Section repair.
Context (from_str : Text → option Json) (redact : Text → Text).

(** The readings a repair may give to a string. *)
Inductive reads_as : Json → Json → Prop :=
  | as_one_element s : reads_as (JString s) (JArray [JString s])
  | as_quoted s v : from_str s = Some v → reads_as (JString s) v
  | as_link s t : unwrap_markdown_autolink s = Some t → reads_as (JString s) (JString t).

Lemma applied_reads schema i v w rule note :
  apply_rule from_str schema i v = Some (w, rule, note) →
  reads_as v w ∧ class i ≠ MissingRequiredField ∧
  (∀ prop, property schema (path i) = Some prop → is_repair_exempt prop = false).
Proof.
  unfold apply_rule. cbv zeta. destruct (match property schema (path i) with Some p => _ | None => _ end) eqn:He; [done|].
  intros H. assert (Hex : ∀ prop, property schema (path i) = Some prop → is_repair_exempt prop = false)
    by (intros prop Hp; by rewrite Hp in He).
  destruct (class i) eqn:Hc; try done.
  - apply bind_Some in H as (prop & _ & H). apply bind_Some in H as (x & Hx & [= <- _ _]). split_and!; [|done|done].
    unfold parse_stringified_json in Hx. apply bind_Some in Hx as (s & Hs & Hx). destruct v; try done. injection Hs as ->.
    apply bind_Some in Hx as (parsed & Hp & Hx). apply bind_Some in Hx as (t & _ & Hx).
    assert (x = parsed) as ->.
    { case_bool_decide; [|case_bool_decide; [|done]; by destruct (is_object parsed); simplify_eq].
      apply bind_Some in Hx as (items & _ & Hx). destruct (array_item_type prop); [|by simplify_eq].
      by destruct (forallb _ _); simplify_eq. }
    by apply as_quoted.
  - apply bind_Some in H as (prop & _ & H). apply bind_Some in H as (x & Hx & [= <- _ _]). split_and!; [|done|done].
    unfold wrap_bare_string_as_array in Hx. apply bind_Some in Hx as (s & Hs & Hx). destruct v; try done. injection Hs as ->.
    apply bind_Some in Hx as (t & _ & Hx). case_bool_decide; simplify_eq. constructor.
  - apply bind_Some in H as (t & Ht & H). apply bind_Some in H as (u & Hu & [= <- _ _]). split_and!; [|done|done].
    destruct v; try done. injection Ht as ->. by apply as_link.
Qed.

(** Every issue but a missing field is about a field that is there. *)
Lemma issue_present schema obj i :
  i ∈ all_issues from_str schema (JObject obj) → class i ≠ MissingRequiredField → is_Some (map_get (path i) obj).
Proof.
  unfold all_issues, tool_input_issues, intent_issues. cbn [as_object].
  intros [Hi|Hi]%elem_of_app Hc.
  - destruct (as_object schema) as [sch|]; [|by apply elem_of_nil in Hi].
    apply elem_of_app in Hi as [Hi|Hi]; [by apply list_elem_of_fmap in Hi as (f & -> & _)|].
    destruct (map_get (txt "properties") sch ≫= as_object) as [ps|]; [|by apply elem_of_nil in Hi].
    apply list_elem_of_omap in Hi as ([k v] & Hin & Ht). unfold type_issue in Ht.
    destruct (is_null v); [done|]. apply bind_Some in Ht as (prop & _ & Ht). apply bind_Some in Ht as (t & _ & Ht).
    destruct (type_matches t v); simplify_eq. by eapply map_get_elem.
  - apply list_elem_of_omap in Hi as ([k v] & Hin & Ht). unfold intent_issue in Ht.
    apply bind_Some in Ht as (prop & _ & Ht). case_bool_decide; [|done].
    apply bind_Some in Ht as (s & _ & Ht). apply bind_Some in Ht as (t & _ & [= <-]). by eapply map_get_elem.
Qed.

(** What a repair leaves of the input: a field that changed was reported, was
    there, may be rewritten, and is a reading of what was there. *)
Definition confined (schema : Json) (found : list SchemaIssue) (obj obj' : list (Text * Json)) : Prop :=
  ∀ k, map_get k obj' = map_get k obj ∨
    (∃ i, i ∈ found ∧ path i = k) ∧
    (∀ prop, property schema k = Some prop → is_repair_exempt prop = false) ∧
    ∃ v w, map_get k obj = Some v ∧ map_get k obj' = Some w ∧ rtc reads_as v w.

Lemma repair_all_confined schema obj found :
  (∀ i, i ∈ found → class i ≠ MissingRequiredField → is_Some (map_get (path i) obj)) →
  ∃ obj', fst (fst (repair_all from_str schema (JObject obj) found)) = JObject obj' ∧ confined schema found obj obj'.
Proof.
  intros Hf. unfold repair_all.
  assert (H : ∀ l obj1 applied notes, l ⊆ found → confined schema found obj obj1 →
    ∃ obj', fst (fst (fold_left (repair_step from_str schema) l (JObject obj1, applied, notes))) = JObject obj' ∧
            confined schema found obj obj').
  { induction l as [|i l IH]; intros obj1 applied notes Hl Hc; cbn [fold_left fst]; [by exists obj1|].
    assert (Hl' : l ⊆ found) by (intros x Hx; apply Hl; by right).
    cbn [repair_step]. cbn [json_get]. destruct (apply_rule _ _ _ _) as [[[w rule] note]|] eqn:Ha; [|by apply IH].
    apply IH; [done|]. apply applied_reads in Ha as (Hr & Hcl & Hex).
    destruct (Hf i (Hl i ltac:(by left)) Hcl) as [v Hv].
    intros k. destruct (decide (k = path i)) as [->|Hne]; [|by rewrite map_get_insert_ne].
    right. rewrite map_get_insert. split; [exists i; split; [apply Hl; by left|done]|]. split; [done|].
    exists v, w. split_and!; [done|done|]. destruct (Hc (path i)) as [He|(_ & _ & v' & w' & Hv' & Hw' & Hrtc)].
    - rewrite He, Hv in Hr. by apply rtc_once.
    - rewrite Hw' in Hr. rewrite Hv in Hv'. simplify_eq. by eapply rtc_r. }
  apply H; [done|]. intros k. by left.
Qed.
Lemma repair_all_applied schema input found :
  as_object input = None → repair_all from_str schema input found = (input, [], []).
Proof.
  intros Hi. unfold repair_all. induction found as [|i found IH]; [done|]. cbn [fold_left]. unfold repair_step at 2.
  by destruct (apply_rule _ _ _ _) as [[[? ?] ?]|], input.
Qed.

(** C36. Repair is confined.  Input that fits is used as it is; input is reshaped
    only when repair is on and the tool can do no lasting harm, and then the
    result fits, and differs from what the model sent only in fields that were
    reported, were there, and are not declared a file's content or a command,
    each of them now a reading of the string it was; a refusal for risk is told
    exactly when repair was wanted for a tool it is kept from. *)
Theorem repair_is_confined req input :
  let r := evaluate from_str redact req input in
  let eligible := is_repair_eligible (rr_side_effect req) (rr_reversibility req) (rr_is_mcp req) in
  (outcome r = Valid ↔ all_issues from_str (rr_schema req) input = []) ∧
  (outcome r = Repaired ↔ is_Some (repaired_input r)) ∧
  (rejected_high_risk r = true ↔
     all_issues from_str (rr_schema req) input ≠ [] ∧ rr_attempt_repair req = true ∧ eligible = false) ∧
  ∀ c, repaired_input r = Some c →
    rr_attempt_repair req = true ∧ eligible = true ∧ all_issues from_str (rr_schema req) c = [] ∧
    ∃ obj obj', input = JObject obj ∧ c = JObject obj' ∧ confined (rr_schema req) (issues r) obj obj'.
Proof.
  cbv zeta. unfold evaluate. set (schema := rr_schema req). set (eligible := is_repair_eligible _ _ _).
  assert (Hnone : ∀ A (P : A → Prop) c, None = Some c → P c) by done.
  assert (Hns : is_Some (@None Json) ↔ False) by (split; [by intros [? ?]|done]).
  destruct (all_issues from_str schema input) as [|i0 found0] eqn:Hall.
  { cbn. rewrite Hns. split_and!; [done|by split|by split; [|intros (? & _)]|by apply Hnone]. }
  set (found := i0 :: found0) in *. assert (Hne : found ≠ []) by done. clearbody found.
  assert (Hinvalid : ∀ applied m,
    let r := mkValidation (rr_tool req) Invalid found applied None None m (rr_side_effect req)
      (rr_attempt_repair req && negb eligible) in
    (outcome r = Valid ↔ found = []) ∧ (outcome r = Repaired ↔ is_Some (repaired_input r)) ∧
    (rejected_high_risk r = true ↔ found ≠ [] ∧ rr_attempt_repair req = true ∧ eligible = false) ∧
    ∀ c, repaired_input r = Some c →
      rr_attempt_repair req = true ∧ eligible = true ∧ all_issues from_str schema c = [] ∧
      ∃ obj obj', input = JObject obj ∧ c = JObject obj' ∧ confined schema (issues r) obj obj').
  { intros applied m. cbn. rewrite Hns. split_and!; [by split|by split| |by apply Hnone].
    rewrite andb_true_iff, negb_true_iff. tauto. }
  destruct (rr_attempt_repair req) eqn:Hat, eligible eqn:Hel; cbn [negb andb orb];
    try (specialize (Hinvalid [] (Some (redact (readable_input_error (rr_tool req) found (rr_examples req)))));
         destruct found; [done|exact Hinvalid]).
  destruct (repair_all from_str schema input found) as [[candidate applied] notes] eqn:Hr.
  destruct found as [|i1 found1] eqn:Hfound; [done|]. rewrite <-Hfound in *.
  destruct applied as [|a applied]; [apply Hinvalid|].
  destruct (all_issues from_str schema candidate) as [|i2 l] eqn:Hc; [|apply Hinvalid]. clear Hinvalid. cbn.
  split_and!; [by split|by split; [|eexists]|by split; [|intros (_ & _ & ?)]|].
  intros c [= <-]. split_and!; [done|done|done|].
  destruct input as [| | | | |obj]; try (by rewrite repair_all_applied in Hr by done).
  destruct (repair_all_confined schema obj found) as (obj' & Ho & Hconf).
  { intros i Hi. apply (issue_present schema). by rewrite Hall. }
  rewrite Hr in Ho. cbn in Ho. subst candidate. by exists obj, obj'.
Qed.
End repair.

(** ** A sample repair *)

Definition sample_schema : Json :=
  json_object [("type", json_string "object"); ("required", JArray [json_string "paths"]);
    ("properties", json_object
      [("paths", json_object [("type", json_string "array"); ("items", json_object [("type", json_string "string")])]);
       ("body", json_object [("type", json_string "object"); ("x-localpilot-intent", json_string "content")])])]%string.
Definition sample_request (side_effect : SideEffectClass) : RepairRequest :=
  mkRepair (txt "read") sample_schema side_effect Reversible false true [].
Definition sample_input : Json := json_object [("paths", json_string "README.md")]%string.
Definition sample_repaired : Json := json_object [("paths", JArray [json_string "README.md"])]%string.

Lemma repair_is_confined_witness :
  repaired_input (evaluate (λ _, None) (λ t, t) (sample_request ReadOnly) sample_input) = Some sample_repaired ∧
  all_issues (λ _, None) sample_schema sample_repaired = [] ∧
  rejected_high_risk (evaluate (λ _, None) (λ t, t) (sample_request Destructive) sample_input) = true.
Proof.
  assert (He : repaired_input (evaluate (λ _, None) (λ t, t) (sample_request ReadOnly) sample_input) =
               Some sample_repaired) by (vm_compute; reflexivity).
  destruct (repair_is_confined (λ _, None) (λ t, t) (sample_request ReadOnly) sample_input) as (_ & _ & _ & H).
  destruct (H _ He) as (_ & _ & Hok & _).
  destruct (repair_is_confined (λ _, None) (λ t, t) (sample_request Destructive) sample_input) as (_ & _ & Hr & _).
  split; [exact He|split; [exact Hok|]]. apply Hr. vm_compute. split; [discriminate|done].
Defined.

(** A field declared a file's content is left alone, whatever it looks like. *)
Example content_is_never_parsed :
  let input := json_object [("paths", JArray []); ("body", JString (txt "{}"))]%string in
  outcome (evaluate (λ _, Some (JObject [])) (λ t, t) (sample_request ReadOnly) input) = Invalid.
Proof. vm_compute. reflexivity. Qed.
