(* ===== verification/Thinking.v ===== *)
(** * Reasoning inside the answer (localpilot-llm-core/src/event.rs)

    Some models write their reasoning between [<think>] and [</think>] in the
    text of the answer.  [InlineThinkingFilter] routes it to its own channel
    while the answer streams in.  [scan] is what it computes, read off the whole
    text; the theorem is that the two agree however the text is cut into deltas. *)

From Stdlib Require Import String.
From stdpp Require Import base list numbers.
From S2P Require Import Prelude Monitor Utf8 Chars Message Json Provider.
From stdpp Require Import list.
#[local] Open Scope nat_scope.
#[local] Open Scope list_scope.

(** ** [str] methods *)

(** [str::find] with a string: in characters, which for the ASCII tags below is
    where the source cuts. *)
Fixpoint find_sub (needle s : Text) : option nat :=
  if starts_with needle s then Some 0
  else match s with [] => None | _ :: s => S <$> find_sub needle s end.

(** ** The filter *)

Definition THINK_OPEN : Text := txt "<think>".
Definition THINK_CLOSE : Text := txt "</think>".
Definition THINKING_BAILOUT : N := 32 * 1024.

Definition route (thinking : bool) (t : Text) : ModelEvent :=
  if thinking then ReasoningDelta t else TextDelta t.

Record InlineThinkingFilter := mkFilter {
  in_thinking : bool;
  held : Text;
  thinking_bytes : N;
}.
Definition filter_default : InlineThinkingFilter := mkFilter false [] 0.

Definition bytes_of (t : Text) : N := N.of_nat (utf8_len t).

(** The longest proper prefix of [tag], among those of at most [len]
    characters, that [text] ends with. *)
Fixpoint longest_partial (text tag : Text) (len : nat) : nat :=
  match len with
  | O => 0
  | S k => if ends_with (take len tag) text then len else longest_partial text tag k
  end.
Definition partial_tag_suffix (text tag : Text) : nat := longest_partial text tag (length tag - 1).

Definition tag_of (thinking : bool) : Text := if thinking then THINK_CLOSE else THINK_OPEN.
(** An event, unless it would be empty. *)
Definition emit (thinking : bool) (t : Text) : list ModelEvent :=
  match t with [] => [] | _ => [route thinking t] end.

(** The [loop] of [push]: [None] when the fuel runs out. *)
Fixpoint push_loop (fuel : nat) (f : InlineThinkingFilter) (events : list ModelEvent)
    : option (InlineThinkingFilter * list ModelEvent) :=
  match fuel with
  | O => None
  | S fuel =>
      let tag := tag_of (in_thinking f) in
      match find_sub tag (held f) with
      | Some start =>
          let before := take start (held f) in
          let rest := drop (start + length tag) (held f) in
          let thinking := negb (in_thinking f) in
          push_loop fuel (mkFilter thinking rest (if thinking then 0%N else thinking_bytes f))
            (events ++ emit (in_thinking f) before)
      | None =>
          if in_thinking f &&
             (THINKING_BAILOUT <? u64_sat_add (thinking_bytes f) (bytes_of (held f)))%N
          then push_loop fuel (mkFilter false [] 0) (events ++ emit false (held f))
          else
            let keep := partial_tag_suffix (held f) tag in
            let emit_len := length (held f) - keep in
            let emitted := take emit_len (held f) in
            Some (mkFilter (in_thinking f) (drop emit_len (held f))
                    (if in_thinking f then thinking_bytes f + bytes_of emitted else thinking_bytes f)%N,
                  events ++ emit (in_thinking f) emitted)
      end
  end.

(** Every turn of the loop but the last takes a tag out of what is held, or
    empties it and leaves the reasoning. *)
Definition push_fuel (f : InlineThinkingFilter) : nat := 2 + length (held f).

Definition filter_push (f : InlineThinkingFilter) (delta : Text) : InlineThinkingFilter * list ModelEvent :=
  let f := mkFilter (in_thinking f) (held f ++ delta) (thinking_bytes f) in
  default (f, []) (push_loop (push_fuel f) f []).

Definition filter_finish (f : InlineThinkingFilter) : InlineThinkingFilter * list ModelEvent :=
  (mkFilter (in_thinking f) [] (thinking_bytes f), emit (in_thinking f) (held f)).

(** A whole stream. *)
Fixpoint push_all (f : InlineThinkingFilter) (deltas : list Text) : InlineThinkingFilter * list ModelEvent :=
  match deltas with
  | [] => (f, [])
  | d :: deltas =>
      let '(f1, e1) := filter_push f d in
      let '(f2, e2) := push_all f1 deltas in
      (f2, e1 ++ e2)
  end.
Definition filter_stream (deltas : list Text) : list ModelEvent :=
  let '(f, e) := push_all filter_default deltas in e ++ snd (filter_finish f).

(** ** What it computes *)

(** The characters of the events, each with its channel. *)
Definition routed1 (e : ModelEvent) : list (bool * N) :=
  match e with
  | TextDelta t => (λ c, (false, c)) <$> t
  | ReasoningDelta t => (λ c, (true, c)) <$> t
  | _ => []
  end.
Definition routed (ds : list ModelEvent) : list (bool * N) := ds ≫= routed1.

(** The text read once, character by character; [skip] characters of a tag are
    still to be passed over. *)
Fixpoint scan (thinking : bool) (skip : nat) (s : Text) : list (bool * N) :=
  match s with
  | [] => []
  | c :: s' =>
      match skip with
      | S k => scan thinking k s'
      | O =>
          if starts_with (tag_of thinking) s then scan (negb thinking) (length (tag_of thinking) - 1) s'
          else (thinking, c) :: scan thinking 0 s'
      end
  end.

(** [s] is [out] with whole tags put in. *)
Inductive with_tags : Text → Text → Prop :=
  | tags_nil : with_tags [] []
  | tags_char c s out : with_tags s out → with_tags (c :: s) (c :: out)
  | tags_tag thinking s out : with_tags s out → with_tags (tag_of thinking ++ s) out.

(** ** Searching *)

Lemma starts_with_app_l p s rest : length p <= length s → starts_with p (s ++ rest) = starts_with p s.
Proof.
  intros Hl. apply eq_true_iff_eq. rewrite !starts_with_true. split.
  - intros [r Hr]. assert (Hp : take (length p) s = p).
    { apply (f_equal (take (length p))) in Hr. by rewrite take_app_le, take_app_length in Hr by done. }
    exists (drop (length p) s). by rewrite <-Hp at 1; rewrite take_drop.
  - intros [r ->]. exists (r ++ rest). by rewrite <-app_assoc.
Qed.

Lemma starts_with_long p s : length s < length p → starts_with p s = false.
Proof.
  intros Hl. destruct (starts_with p s) eqn:Hs; [|done]. apply starts_with_true in Hs as [r ->].
  rewrite length_app in Hl. lia.
Qed.

Lemma find_sub_Some p s i :
  find_sub p s = Some i →
  s = take i s ++ p ++ drop (i + length p) s ∧ (∀ j, j < i → starts_with p (drop j s) = false) ∧
  i + length p <= length s.
Proof.
  revert i. induction s as [|c s IH]; intros i; cbn [find_sub].
  - destruct (starts_with p []) eqn:Hs; [|done]. intros [= <-].
    apply starts_with_true in Hs as [r Hr]. symmetry in Hr. apply app_nil in Hr as [-> ->].
    cbn. split_and!; [done|lia|lia].
  - destruct (starts_with p (c :: s)) eqn:Hs.
    + intros [= <-]. apply starts_with_true in Hs as [r Hr]. rewrite Hr. cbn [take app Nat.add].
      rewrite drop_app_length. split_and!; [done|lia|rewrite length_app; lia].
    + destruct (find_sub p s) as [k|] eqn:Hk; [|done]. intros [= <-].
      destruct (IH k eq_refl) as (He & Hj & Hl). split_and!; cbn [take drop app Nat.add length].
      * by rewrite <-He.
      * intros [|j] Hj'; [done|]. apply Hj. lia.
      * lia.
Qed.

Lemma find_sub_None p s : find_sub p s = None → ∀ j, starts_with p (drop j s) = false ∨ drop j s = [] ∧ j ≠ 0.
Proof.
  induction s as [|c s IH]; cbn [find_sub]; intros Hn j.
  - destruct (starts_with p []) eqn:Hs; [done|]. left. by rewrite drop_nil.
  - destruct (starts_with p (c :: s)) eqn:Hs; [done|]. destruct j as [|j]; [by left|]. cbn [drop].
    destruct (find_sub p s); [done|]. destruct (IH eq_refl j) as [H|[H _]]; [by left|by right].
Qed.

Lemma longest_partial_spec text tag n :
  longest_partial text tag n <= n ∧
  (longest_partial text tag n ≠ 0 → ends_with (take (longest_partial text tag n) tag) text = true) ∧
  (∀ k, longest_partial text tag n < k → k <= n → ends_with (take k tag) text = false).
Proof.
  induction n as [|n (H1 & H2 & H3)]; [split_and!; [done|done|lia]|]. cbn [longest_partial].
  destruct (ends_with (take (S n) tag) text) eqn:He; [split_and!; [done|done|lia]|].
  split_and!; [lia|done|]. intros k Hk Hn. destruct (decide (k = S n)) as [->|]; [done|]. apply H3; lia.
Qed.

Lemma ends_with_true p s : ends_with p s = true ↔ ∃ r, s = r ++ p.
Proof.
  unfold ends_with. rewrite starts_with_true. split.
  - intros [r Hr]. exists (rev r). apply (f_equal (@rev _)) in Hr. by rewrite rev_app_distr, !rev_involutive in Hr.
  - intros [r ->]. exists (rev r). by rewrite rev_app_distr.
Qed.

(** ** One push *)

Lemma routed_app a b : routed (a ++ b) = routed a ++ routed b.
Proof. unfold routed. by rewrite bind_app. Qed.
Lemma routed_emit t s : routed (emit t s) = (λ c, (t, c)) <$> s.
Proof. destruct s as [|c s]; [done|]. unfold routed. cbn [emit mbind list_bind]. destruct t; by rewrite app_nil_r. Qed.

Lemma tag_length t : 7 <= length (tag_of t).
Proof. destruct t; cbn; lia. Qed.

(** Characters with no tag before the cut. *)
Lemma scan_plain t n s :
  n <= length s → (∀ j, j < n → starts_with (tag_of t) (drop j s) = false) →
  scan t 0 s = ((λ c, (t, c)) <$> take n s) ++ scan t 0 (drop n s).
Proof.
  revert s. induction n as [|n IH]; intros s Hn Hj; [done|]. destruct s as [|c s]; [cbn in Hn; lia|].
  cbn [scan take drop]. rewrite (Hj 0 ltac:(lia) : starts_with (tag_of t) (c :: s) = false). cbn. f_equal.
  apply IH; [cbn in Hn; lia|]. intros j Hlt. apply (Hj (S j)). lia.
Qed.

Lemma scan_skip t k s : k <= length s → scan t k s = scan t 0 (drop k s).
Proof. revert s. induction k as [|k IH]; intros s Hk; [done|]. destruct s as [|c s]; [done|]. apply IH. cbn in Hk. lia. Qed.

(** A tag is passed over. *)
Lemma scan_tag t s : scan t 0 (tag_of t ++ s) = scan (negb t) 0 s.
Proof.
  pose proof (tag_length t) as Hl. pose proof (starts_with_app (tag_of t) s) as Hs.
  remember (tag_of t) as tag eqn:Ht. destruct tag as [|c tag]; [cbn in Hl; lia|].
  change ((c :: tag) ++ s) with (c :: (tag ++ s)) in *. cbn [scan]. rewrite <-Ht, Hs.
  rewrite scan_skip; cbn [length]; rewrite Nat.sub_succ, Nat.sub_0_r; [by rewrite drop_app_length|].
  rewrite length_app. lia.
Qed.

(** No tag begins before the part that is kept, whatever comes. *)
Lemma kept_is_partial tag s rest j :
  find_sub tag s = None → j < length s - partial_tag_suffix s tag →
  starts_with tag (drop j s ++ rest) = false.
Proof.
  intros Hf Hj. destruct (decide (length tag <= length (drop j s))) as [Hl|Hl].
  - rewrite starts_with_app_l by done. destruct (find_sub_None _ _ Hf j) as [H|[H _]]; [done|].
    apply (f_equal length) in H. rewrite length_drop in H. cbn in H. lia.
  - destruct (starts_with tag (drop j s ++ rest)) eqn:Hs; [|done]. exfalso.
    apply starts_with_true in Hs as [r Hr]. rewrite length_drop in Hl.
    assert (Hp : take (length s - j) tag = drop j s).
    { apply (f_equal (take (length s - j))) in Hr. rewrite take_app_le in Hr by (rewrite length_drop; lia).
      rewrite take_app_le in Hr by lia. rewrite <-Hr. apply take_ge. rewrite length_drop. lia. }
    unfold partial_tag_suffix in Hj. destruct (longest_partial_spec s tag (length tag - 1)) as (_ & _ & Hmax).
    specialize (Hmax (length s - j)). rewrite Hp in Hmax.
    assert (ends_with (drop j s) s = true) by (apply ends_with_true; exists (take j s); by rewrite take_drop).
    rewrite Hmax in H; [done|lia|lia].
Qed.

Lemma partial_length s tag : partial_tag_suffix s tag <= length s.
Proof.
  unfold partial_tag_suffix. destruct (longest_partial_spec s tag (length tag - 1)) as (H1 & H2 & _).
  destruct (decide (longest_partial s tag (length tag - 1) = 0)) as [->|Hn]; [lia|].
  apply H2, ends_with_true in Hn as [r Hr]. apply (f_equal length) in Hr.
  rewrite length_app, length_take in Hr. lia.
Qed.

(** The loop ends with the fuel it is given. *)
Lemma push_loop_total fuel f e :
  length (held f) + (if in_thinking f then 1 else 0) < fuel → is_Some (push_loop fuel f e).
Proof.
  revert f e. induction fuel as [|fuel IH]; intros f e Hf; [lia|]. cbn [push_loop]. cbv zeta.
  destruct (find_sub _ _) as [i|] eqn:Hi.
  - apply find_sub_Some in Hi as (_ & _ & Hl). pose proof (tag_length (in_thinking f)). apply IH. cbn [held in_thinking].
    rewrite length_drop. destruct (in_thinking f); cbn [negb]; lia.
  - destruct (in_thinking f); cbn [andb]; [|by eexists].
    destruct (_ <? _)%N; [|by eexists]. apply IH. cbn. lia.
Qed.
Lemma filter_push_ends f delta :
  push_loop (push_fuel (mkFilter (in_thinking f) (held f ++ delta) (thinking_bytes f)))
    (mkFilter (in_thinking f) (held f ++ delta) (thinking_bytes f)) [] = Some (filter_push f delta).
Proof.
  unfold filter_push. edestruct push_loop_total as [r Hr]; [|by rewrite Hr].
  unfold push_fuel. cbn. destruct (in_thinking f); lia.
Qed.

(** ** Whole streams *)

(** Every span of reasoning stays within the limit; [n] is the bytes of the open
    one. *)
Fixpoint spans_within (limit : N) (thinking : bool) (n : N) (skip : nat) (s : Text) : bool :=
  match s with
  | [] => true
  | c :: s' =>
      match skip with
      | S k => spans_within limit thinking n k s'
      | O =>
          if starts_with (tag_of thinking) s
          then spans_within limit (negb thinking) (if negb thinking then 0%N else n)
                 (length (tag_of thinking) - 1) s'
          else if thinking
          then (n + bytes_of [c] <=? limit)%N && spans_within limit true (n + bytes_of [c])%N 0 s'
          else spans_within limit false n 0 s'
      end
  end.

Lemma within_skip l t n k s : k <= length s → spans_within l t n k s = spans_within l t n 0 (drop k s).
Proof. revert s. induction k as [|k IH]; intros s Hk; [done|]. destruct s as [|c s]; [done|]. apply IH. cbn in Hk. lia. Qed.

Lemma within_tag l t n s :
  spans_within l t n 0 (tag_of t ++ s) = spans_within l (negb t) (if negb t then 0%N else n) 0 s.
Proof.
  pose proof (tag_length t) as Hl. pose proof (starts_with_app (tag_of t) s) as Hs.
  remember (tag_of t) as tag eqn:Ht. destruct tag as [|c tag]; [cbn in Hl; lia|].
  change ((c :: tag) ++ s) with (c :: (tag ++ s)) in *. cbn [spans_within]. rewrite <-Ht, Hs.
  rewrite within_skip; cbn [length]; rewrite Nat.sub_succ, Nat.sub_0_r; [by rewrite drop_app_length|].
  rewrite length_app. lia.
Qed.

Lemma bytes_app a b : bytes_of (a ++ b) = (bytes_of a + bytes_of b)%N.
Proof. unfold bytes_of. rewrite utf8_len_app. lia. Qed.

Lemma within_plain l t n k s :
  k <= length s → (∀ j, j < k → starts_with (tag_of t) (drop j s) = false) →
  spans_within l t n 0 s = true →
  spans_within l t (if t then n + bytes_of (take k s) else n)%N 0 (drop k s) = true ∧
  (t = true → k ≠ 0 → (n + bytes_of (take k s) <= l)%N).
Proof.
  revert n s. induction k as [|k IH]; intros n s Hk Hj Hs.
  - cbn [take drop]. change (bytes_of []) with 0%N. rewrite N.add_0_r. by destruct t.
  - destruct s as [|c s]; [cbn in Hk; lia|]. cbn [take drop].
    cbn [spans_within] in Hs. rewrite (Hj 0 ltac:(lia) : starts_with (tag_of t) (c :: s) = false) in Hs.
    assert (Hj' : ∀ j, j < k → starts_with (tag_of t) (drop j s) = false) by (intros j Hlt; apply (Hj (S j)); lia).
    assert (Hk' : k <= length s) by (cbn in Hk; lia).
    change (c :: take k s) with ([c] ++ take k s). rewrite bytes_app.
    destruct t; [|by destruct (IH n s Hk' Hj' Hs)].
    apply andb_true_iff in Hs as [Hc Hs]. apply N.leb_le in Hc.
    destruct (IH (n + bytes_of [c])%N s Hk' Hj' Hs) as [H1 H2].
    split; [by rewrite N.add_assoc|]. intros _ _.
    destruct (decide (k = 0)) as [->|Hne]; [rewrite take_0; change (bytes_of []) with 0%N; lia|].
    specialize (H2 eq_refl Hne). lia.
Qed.

Definition LIMIT : N := THINKING_BAILOUT - 7.

(** What is kept is the beginning of a tag, all of it ASCII. *)
Lemma kept_bytes s t : (bytes_of (drop (length s - partial_tag_suffix s (tag_of t)) s) <= 7)%N.
Proof.
  unfold partial_tag_suffix.
  destruct (longest_partial_spec s (tag_of t) (length (tag_of t) - 1)) as (Hle & Hend & _).
  set (k := longest_partial s (tag_of t) (length (tag_of t) - 1)) in *.
  destruct (decide (k = 0)) as [->|Hne].
  { rewrite Nat.sub_0_r, drop_all. vm_compute. done. }
  apply Hend in Hne. apply ends_with_true in Hne as [r Hr].
  assert (Hl : length (take k (tag_of t)) = k) by (rewrite length_take; lia).
  assert (drop (length s - k) s = take k (tag_of t)) as ->.
  { rewrite Hr, length_app, Hl at 1. replace (length r + k - k) with (length r) by lia.
    rewrite Hr. by rewrite drop_app_length. }
  clearbody k. clear -Hle. assert (Hk : k < 8) by (destruct t; cbn in Hle; lia). clear Hle.
  destruct t; do 8 (destruct k as [|k]; [vm_compute; done|]); lia.
Qed.

Lemma within_free l n m k s : spans_within l false n k s = spans_within l false m k s.
Proof.
  revert k. induction s as [|c s IH]; intros k; [done|]. cbn [spans_within].
  destruct k as [|k]; [|apply IH]. destruct (starts_with _ _); [done|apply IH].
Qed.

Lemma with_tags_app pre s out : with_tags s out → with_tags (pre ++ s) (pre ++ out).
Proof. intros H. induction pre as [|c pre IH]; [done|]. by constructor. Qed.

Lemma snd_emit t s rest : (snd <$> routed (emit t s ++ rest)) = s ++ (snd <$> routed rest).
Proof.
  rewrite routed_app, fmap_app, routed_emit. f_equal. rewrite <-list_fmap_compose.
  apply list_fmap_id.
Qed.

Lemma no_tag_before tag s rest i :
  find_sub tag s = Some i → ∀ j, j < i → starts_with tag (drop j (s ++ rest)) = false.
Proof.
  intros Hi j Hj. apply find_sub_Some in Hi as (_ & Hno & Hl).
  rewrite drop_app_le by lia. rewrite starts_with_app_l; [by apply Hno|]. rewrite length_drop. lia.
Qed.

(** The counter is that of the spans, and a span can still be closed. *)
Definition in_span (f : InlineThinkingFilter) : Prop :=
  in_thinking f = true → (thinking_bytes f <= LIMIT)%N.
Definition spans_ok (f : InlineThinkingFilter) (rest : Text) : Prop :=
  in_span f ∧ spans_within LIMIT (in_thinking f) (thinking_bytes f) 0 (held f ++ rest) = true.

(** A tag is taken out of what is held. *)
Lemma taken_tag f i rest :
  let t := in_thinking f in
  let f1 := mkFilter (negb t) (drop (i + length (tag_of t)) (held f)) (if negb t then 0%N else thinking_bytes f) in
  find_sub (tag_of t) (held f) = Some i →
  (∀ out, with_tags (held f1 ++ rest) out → with_tags (held f ++ rest) (take i (held f) ++ out)) ∧
  (spans_ok f rest → spans_ok f1 rest) ∧
  scan t 0 (held f ++ rest) = ((λ c, (t, c)) <$> take i (held f)) ++ scan (negb t) 0 (held f1 ++ rest).
Proof.
  intros t f1 Hi. pose proof (no_tag_before _ _ rest _ Hi) as Hno. apply find_sub_Some in Hi as (He & _ & Hl).
  assert (Hd : drop i (held f ++ rest) = tag_of t ++ held f1 ++ rest).
  { rewrite He, <-!app_assoc. apply drop_app_length'. rewrite length_take. lia. }
  assert (Ht : take i (held f ++ rest) = take i (held f)) by (apply take_app_le; lia).
  assert (Hlen : i <= length (held f ++ rest)) by (rewrite length_app; lia).
  split_and!.
  - intros out Ho. rewrite <-(take_drop i (held f ++ rest)), Hd, Ht. by apply with_tags_app, tags_tag.
  - intros [Hn Hs]. destruct (within_plain _ _ _ _ _ Hlen Hno Hs) as [Hw _]. rewrite Hd, within_tag in Hw.
    split; [unfold in_span, LIMIT; cbn; intros ->; vm_compute; done|]. cbn [f1 in_thinking thinking_bytes].
    fold t in Hw. destruct t; cbn [negb] in *; [by rewrite (within_free _ _ (thinking_bytes f)) in Hw|done].
  - rewrite (scan_plain _ i) by done. by rewrite Hd, Ht, scan_tag.
Qed.

(** What holds no tag, up to the part that is kept. *)
Lemma passed_on f rest :
  let t := in_thinking f in
  let n := length (held f) - partial_tag_suffix (held f) (tag_of t) in
  let f1 := mkFilter t (drop n (held f))
    (if t then thinking_bytes f + bytes_of (take n (held f)) else thinking_bytes f)%N in
  find_sub (tag_of t) (held f) = None →
  (∀ out, with_tags (held f1 ++ rest) out → with_tags (held f ++ rest) (take n (held f) ++ out)) ∧
  (spans_ok f rest → spans_ok f1 rest) ∧
  scan t 0 (held f ++ rest) = ((λ c, (t, c)) <$> take n (held f)) ++ scan t 0 (held f1 ++ rest).
Proof.
  intros t n f1 Hi. pose proof (partial_length (held f) (tag_of t)) as Hp.
  assert (Hn : n <= length (held f)) by (unfold n; lia).
  assert (Hno : ∀ j, j < n → starts_with (tag_of t) (drop j (held f ++ rest)) = false).
  { intros j Hj. rewrite drop_app_le by lia. by apply kept_is_partial. }
  assert (Hlen : n <= length (held f ++ rest)) by (rewrite length_app; lia).
  assert (Hd : drop n (held f ++ rest) = held f1 ++ rest) by by apply drop_app_le.
  assert (Ht : take n (held f ++ rest) = take n (held f)) by by apply take_app_le.
  split_and!.
  - intros out Ho. rewrite <-(take_drop n (held f ++ rest)), Hd, Ht. by apply with_tags_app.
  - intros [Hc Hs]. destruct (within_plain _ _ _ _ _ Hlen Hno Hs) as [Hw Hb]. rewrite Hd, Ht in *.
    split; [|done]. unfold in_span in *. cbn [f1 in_thinking thinking_bytes]. intros Htt. fold t in Hc.
    rewrite Htt in *. destruct (decide (n = 0)) as [->|Hne]; [|by apply Hb].
    rewrite take_0. change (bytes_of []) with 0%N. specialize (Hc eq_refl). by rewrite N.add_0_r.
  - rewrite (scan_plain _ n) by done. by rewrite Hd, Ht.
Qed.

(** What one run of the loop does: nothing is lost but tags; while the spans are
    short it does what [scan] does; it never holds more than the limit. *)
Record ran (f f' : InlineThinkingFilter) (es : list ModelEvent) : Prop := {
  ran_kept rest out : with_tags (held f' ++ rest) out → with_tags (held f ++ rest) ((snd <$> routed es) ++ out);
  ran_spans rest : spans_ok f rest → spans_ok f' rest;
  ran_scan rest : spans_ok f rest →
    scan (in_thinking f) 0 (held f ++ rest) = routed es ++ scan (in_thinking f') 0 (held f' ++ rest);
  ran_bounded : in_thinking f' = true → (thinking_bytes f' + bytes_of (held f') <= THINKING_BAILOUT)%N;
  ran_partial : length (held f') < length (tag_of (in_thinking f'));
}.

Lemma ran_tag f i f' es :
  find_sub (tag_of (in_thinking f)) (held f) = Some i →
  ran (mkFilter (negb (in_thinking f)) (drop (i + length (tag_of (in_thinking f))) (held f))
         (if negb (in_thinking f) then 0%N else thinking_bytes f)) f' es →
  ran f f' (emit (in_thinking f) (take i (held f)) ++ es).
Proof.
  intros Hi [Hk Hs Hc Hb Hp]. split; [| | |done|done].
  - intros rest out Ho. rewrite snd_emit, <-app_assoc. apply (taken_tag f i rest Hi), Hk, Ho.
  - intros rest Hf. apply Hs, (taken_tag f i rest Hi), Hf.
  - intros rest Hf. destruct (taken_tag f i rest Hi) as (_ & H1 & ->).
    rewrite routed_app, routed_emit, <-app_assoc. f_equal. exact (Hc rest (H1 Hf)).
Qed.

Lemma limits : (LIMIT + 7 = THINKING_BAILOUT ∧ THINKING_BAILOUT < U64_MAX)%N.
Proof. by vm_compute. Qed.
Lemma saturated_le a b : (u64_sat_add a b <= THINKING_BAILOUT ↔ a + b <= THINKING_BAILOUT)%N.
Proof. pose proof limits. unfold u64_sat_add. lia. Qed.

(** A span that is given up was too long. *)
Lemma bail_is_over f rest :
  find_sub (tag_of true) (held f) = None → in_thinking f = true →
  ¬ (u64_sat_add (thinking_bytes f) (bytes_of (held f)) <= THINKING_BAILOUT)%N → ¬ spans_ok f rest.
Proof.
  intros Hi Ht Hbail Hf. rewrite saturated_le in Hbail. pose proof limits as [Hlim _]. pose proof (passed_on f rest) as Hpass. rewrite Ht in Hpass.
  destruct (Hpass Hi) as (_ & H1 & _). destruct (H1 Hf) as [Hin _]. clear Hpass H1.
  specialize (Hin eq_refl). cbn [thinking_bytes] in Hin. pose proof (kept_bytes (held f) true) as Hk.
  set (n := length (held f) - partial_tag_suffix (held f) (tag_of true)) in *. clearbody n.
  pose proof (bytes_app (take n (held f)) (drop n (held f))) as Hsum. rewrite take_drop in Hsum.
  lia.
Qed.

Lemma ran_bail f f' es :
  (∀ rest, ¬ spans_ok f rest) → ran (mkFilter false [] 0) f' es → ran f f' (emit false (held f) ++ es).
Proof.
  intros Hover [Hk Hs Hc Hb Hp]. split; [| | |done|done].
  - intros rest out Ho. rewrite snd_emit, <-app_assoc. apply with_tags_app, Hk, Ho.
  - intros rest Hf. by destruct (Hover rest).
  - intros rest Hf. by destruct (Hover rest).
Qed.

Lemma ran_done f :
  let n := length (held f) - partial_tag_suffix (held f) (tag_of (in_thinking f)) in
  find_sub (tag_of (in_thinking f)) (held f) = None →
  (in_thinking f = true → (u64_sat_add (thinking_bytes f) (bytes_of (held f)) <= THINKING_BAILOUT)%N) →
  ran f (mkFilter (in_thinking f) (drop n (held f))
    (if in_thinking f then thinking_bytes f + bytes_of (take n (held f)) else thinking_bytes f)%N)
    (emit (in_thinking f) (take n (held f))).
Proof.
  intros n Hi Hle. split; cbn [in_thinking held thinking_bytes].
  - intros rest out Ho. rewrite <-(app_nil_r (emit _ _)), snd_emit, <-app_assoc. apply (passed_on f rest Hi), Ho.
  - intros rest Hf. apply (passed_on f rest Hi), Hf.
  - intros rest Hf. rewrite routed_emit. apply (passed_on f rest Hi).
  - intros Ht. specialize (Hle Ht). rewrite saturated_le in Hle. by rewrite Ht, <-N.add_assoc, <-bytes_app, take_drop.
  - subst n. pose proof (partial_length (held f) (tag_of (in_thinking f))). rewrite length_drop.
    pose proof (tag_length (in_thinking f)).
    destruct (longest_partial_spec (held f) (tag_of (in_thinking f)) (length (tag_of (in_thinking f)) - 1)) as [Hle' _].
    unfold partial_tag_suffix in *. lia.
Qed.

Lemma push_loop_exact fuel f e f' e' :
  push_loop fuel f e = Some (f', e') → ∃ es, e' = e ++ es ∧ ran f f' es.
Proof.
  revert f e. induction fuel as [|fuel IH]; intros f e; [done|]. cbn [push_loop]. cbv zeta.
  destruct (find_sub _ _) as [i|] eqn:Hi.
  - intros Hr. apply IH in Hr as (es & -> & Hr). eexists. split; [by rewrite <-app_assoc|]. exact (ran_tag f i f' es Hi Hr).
  - destruct (in_thinking f && _) eqn:Hbail.
    + apply andb_true_iff in Hbail as [Ht Hbail]. apply N.ltb_lt, N.nle_gt in Hbail. rewrite Ht in Hi.
      intros Hr. apply IH in Hr as (es & -> & Hr). eexists. split; [by rewrite <-app_assoc|].
      apply ran_bail; [|exact Hr]. intros rest. by apply bail_is_over.
    + intros [= <- <-]. eexists. split; [reflexivity|]. apply ran_done; [exact Hi|].
      intros Ht. rewrite Ht in Hbail. by apply N.ltb_ge in Hbail.
Qed.

Lemma filter_push_exact f d es f' :
  filter_push f d = (f', es) → ran (mkFilter (in_thinking f) (held f ++ d) (thinking_bytes f)) f' es.
Proof.
  intros Hp. pose proof (filter_push_ends f d) as He. rewrite Hp in He.
  by apply push_loop_exact in He as (es' & -> & Hr).
Qed.

(** What is still held is no tag. *)
Lemma scan_held f : length (held f) < length (tag_of (in_thinking f)) →
  scan (in_thinking f) 0 (held f) = routed (emit (in_thinking f) (held f)).
Proof.
  intros Hl. rewrite routed_emit, (scan_plain _ (length (held f))), firstn_all, drop_all; [by rewrite app_nil_r|done|].
  intros j Hj. apply starts_with_long. rewrite length_drop. lia.
Qed.

Lemma push_all_exact deltas f :
  length (held f) < length (tag_of (in_thinking f)) →
  let '(f', e) := push_all f deltas in
  let s := held f ++ concat deltas in
  with_tags s (snd <$> routed (e ++ snd (filter_finish f'))) ∧
  (spans_ok f (concat deltas) → routed (e ++ snd (filter_finish f')) = scan (in_thinking f) 0 s).
Proof.
  revert f. induction deltas as [|d deltas IH]; intros f Hl.
  - cbn [push_all concat]. rewrite app_nil_r, app_nil_l. cbn [filter_finish snd]. split.
    + rewrite <-(app_nil_r (emit _ _)), snd_emit. rewrite <-(app_nil_r (held f)) at 1.
      apply with_tags_app. constructor.
    + intros _. by rewrite scan_held.
  - cbn [push_all concat]. destruct (filter_push f d) as [f1 e1] eqn:Hp.
    apply filter_push_exact in Hp as [Hk Hs Hc _ Hpart]. cbn [held in_thinking] in *. specialize (IH f1 Hpart).
    destruct (push_all f1 deltas) as [f2 e2]. destruct IH as [IH1 IH2].
    rewrite <-app_assoc, (app_assoc (held f)). split.
    + rewrite routed_app, fmap_app. by apply Hk.
    + intros [Hin Hw].
      assert (Hf : spans_ok (mkFilter (in_thinking f) (held f ++ d) (thinking_bytes f)) (concat deltas)).
      { split; [done|]. cbn [held in_thinking thinking_bytes]. by rewrite <-app_assoc. }
      rewrite routed_app, (IH2 (Hs _ Hf)). symmetry. by apply Hc.
Qed.

(** The thinking filter is exact and cannot depend on how the answer was cut
    into deltas: whatever the deltas, their text comes out in order with nothing
    missing but whole tags; and when no span of reasoning comes near the bailout
    limit, each character is on the channel that reading the whole text once puts
    it on. *)
Theorem thinking_is_routed_exactly deltas :
  with_tags (concat deltas) (snd <$> routed (filter_stream deltas)) ∧
  (spans_within LIMIT false 0 0 (concat deltas) = true →
   routed (filter_stream deltas) = scan false 0 (concat deltas)).
Proof.
  pose proof (push_all_exact deltas filter_default ltac:(cbn; lia)) as H. unfold filter_stream.
  destruct (push_all filter_default deltas) as [f e]. destruct H as [H1 H2]. split; [done|].
  intros Hs. apply H2. split; [by intros ?|done].
Qed.

(** A reply is never held hostage: no push leaves more than the limit of bytes in
    an open span, and fewer characters unrouted than a tag has. *)
Lemma reasoning_is_bounded f d f' es :
  filter_push f d = (f', es) →
  (in_thinking f' = true → (thinking_bytes f' + bytes_of (held f') <= THINKING_BAILOUT)%N) ∧
  length (held f') < length (tag_of (in_thinking f')).
Proof. intros Hp. by destruct (filter_push_exact _ _ _ _ Hp). Qed.

(** Where a span is too long, the cut of the deltas shows: in one delta it is
    reasoning; with its closing tag in a second one, both are text. *)
Definition summary (e : ModelEvent) : bool * nat :=
  match e with ReasoningDelta t => (true, length t) | TextDelta t => (false, length t) | _ => (false, 0) end.
Example bailout_depends_on_the_cut :
  let long := repeat 122%N (N.to_nat THINKING_BAILOUT + 1) in
  (N.of_nat <$> (summary <$> filter_stream [THINK_OPEN ++ long ++ THINK_CLOSE]).*2,
   (summary <$> filter_stream [THINK_OPEN ++ long ++ THINK_CLOSE]).*1,
   (summary <$> filter_stream [THINK_OPEN ++ long; THINK_CLOSE]).*1) =
  ([THINKING_BAILOUT + 1]%N, [true], [false; false]).
Proof. vm_compute. reflexivity. Qed.

Lemma thinking_is_routed_exactly_witness :
  routed (filter_stream (txt <$> ["a<th"; "ink>b</"; "think"; ">c"]%string)) =
    [(false, 97); (true, 98); (false, 99)]%N.
Proof.
  destruct (thinking_is_routed_exactly (txt <$> ["a<th"; "ink>b</"; "think"; ">c"]%string)) as [_ H].
  rewrite H; vm_compute; reflexivity.
Defined.
