(* ===== verification/Sse.v ===== *)
(** * Decoding a provider's stream (localpilot-llm-openai/src/lib.rs and
    localpilot-llm-anthropic/src/lib.rs)

    Both adapters buffer raw bytes, decode whole lines, and turn the JSON of each
    [data:] line into events; a tool call is put together from fragments and
    emitted whole.  [Lines] is what they share, [OpenAi] and [Anthropic] the two
    decoders.  The JSON reader is a parameter; the reader's error is its text. *)

From Stdlib Require Import String.
From stdpp Require Import base gmap list numbers.
From S2P Require Import Quota.
From S2P Require Import Prelude Monitor Utf8 Chars Message Json Provider Thinking.
From stdpp Require Import list.
#[local] Open Scope nat_scope.
#[local] Open Scope list_scope.

(** What a decoder queues. *)
Definition Item : Type := result ModelEvent ProviderError.

(** ** What the two share *)

Module Lines.
Section lines.
Context {D : Type} (process_line : Text → D * list Item → D * list Item).

(** The complete lines, each with its line feed, and the bytes after the last. *)
Fixpoint split_lines (cur bytes : Bytes) : list Bytes * Bytes :=
  match bytes with
  | [] => ([], cur)
  | b :: bytes =>
      if (b =? LF)%N
      then let '(lines, rest) := split_lines [] bytes in ((cur ++ [b]) :: lines, rest)
      else split_lines (cur ++ [b]) bytes
  end.

(** A decoder with its buffer and its queue. *)
Record Sse := mkSse { buf : Bytes; decoder : D; queue : list Item }.

Definition take_line (st : D * list Item) (line : Bytes) : D * list Item :=
  process_line (trim (decode_lossy line)) st.

Definition push (bytes : Bytes) (s : Sse) : Sse :=
  let '(lines, rest) := split_lines [] (buf s ++ bytes) in
  let '(d, q) := fold_left take_line lines (decoder s, queue s) in
  mkSse rest d q.

(** The start of [finish]: a last line without its line feed. *)
Definition finish_tail (s : Sse) : D * list Item :=
  if is_blank (decode_lossy (buf s)) then (decoder s, queue s)
  else take_line (decoder s, queue s) (buf s).

(** The body as [into_event_stream] polls it: chunks and read errors until the
    end, or until the server has been silent for too long. *)
Inductive BodyPoll :=
  | Chunk (bytes : Bytes)
  | BodyError (is_decode : bool) (err : Text)
  | Stall (waited : Duration).

Context (finish : D * list Item → D * list Item).
Definition finish_stream (s : Sse) : Sse :=
  let '(d, q) := finish (finish_tail s) in mkSse [] d q.

(** Every item in the order in which the stream yields them. *)
Fixpoint event_stream (polls : list BodyPoll) (s : Sse) : list Item :=
  match polls with
  | [] => queue (finish_stream s)
  | Chunk bytes :: polls => event_stream polls (push bytes s)
  | BodyError is_decode err :: polls =>
      event_stream polls
        (mkSse (buf s) (decoder s) (queue s ++ [Err (from_response_body_error is_decode err)]))
  | Stall waited :: _ => queue s ++ [Err (stream_stalled waited)]
  end.
End lines.
Arguments mkSse {D} buf decoder queue.
Arguments buf {D} s.
Arguments decoder {D} s.
Arguments queue {D} s.
End Lines.

Definition DATA : Text := txt "data:".
Definition ended_early (detail : string) : Item := Err (StreamTruncated (txt detail)).
(** [format!("`{name}`")]. *)
Definition quoted (name : Text) : Text := BACKTICK :: name ++ [BACKTICK].
Definition EM_DASH : N := 0x2014.
Definition discarded_subject (n : nat) : Text :=
  if n =? 1 then txt "the partial tool call was" else txt "the partial tool calls were".

(** Text put through the thinking filter. *)
Definition filtered (f : InlineThinkingFilter) (t : Text) : InlineThinkingFilter * list Item :=
  match t with
  | [] => (f, [])
  | _ => let '(f, es) := filter_push f t in (f, Ok <$> es)
  end.

(** ** The OpenAI wire *)

Module OpenAi.
Inductive ToolKey := KIndex (n : N) | KId (id : Text).
#[export] Instance ToolKey_eq_dec : EqDecision ToolKey.
Proof. solve_decision. Defined.
(** The derived [Ord]. *)
Definition key_lt (a b : ToolKey) : bool :=
  match a, b with
  | KIndex m, KIndex n => (m <? n)%N
  | KIndex _, KId _ => true
  | KId s, KId t => text_lt s t
  | KId _, KIndex _ => false
  end.

Record ToolAccum := mkAccum {
  acc_id : option Text;
  acc_name : option Text;
  acc_args : Text;
  acc_metadata : option Json;
}.
Definition accum_default : ToolAccum := mkAccum None None [] None.

(** [BTreeMap::entry(key).or_default()], changed by [f]. *)
Fixpoint entry (k : ToolKey) (f : ToolAccum → ToolAccum) (m : list (ToolKey * ToolAccum))
    : list (ToolKey * ToolAccum) :=
  match m with
  | [] => [(k, f accum_default)]
  | (k', v) :: m' =>
      if decide (k = k') then (k', f v) :: m'
      else if key_lt k k' then (k, f accum_default) :: m
      else (k', v) :: entry k f m'
  end.

Record SseDecoder := mkDecoder {
  thinking : InlineThinkingFilter;
  tools : list (ToolKey * ToolAccum);
  last_keyless : option ToolKey;
  warned_finish_reasons : list Text;
  saw_finish_reason : bool;
  output_limited : bool;
  truncated_tools : list Text;
  done : bool;
}.
Definition decoder_default : SseDecoder := mkDecoder filter_default [] None [] false false [] false.
Abbreviation State := (SseDecoder * list Item)%type.

Definition set_thinking (f : InlineThinkingFilter) (d : SseDecoder) : SseDecoder :=
  mkDecoder f (tools d) (last_keyless d) (warned_finish_reasons d) (saw_finish_reason d)
    (output_limited d) (truncated_tools d) (done d).
Definition set_tools (ts : list (ToolKey * ToolAccum)) (k : option ToolKey) (d : SseDecoder) : SseDecoder :=
  mkDecoder (thinking d) ts k (warned_finish_reasons d) (saw_finish_reason d)
    (output_limited d) (truncated_tools d) (done d).
Definition set_warned (rs : list Text) (d : SseDecoder) : SseDecoder :=
  mkDecoder (thinking d) (tools d) (last_keyless d) rs (saw_finish_reason d)
    (output_limited d) (truncated_tools d) (done d).
Definition set_finish (saw limited : bool) (cut : list Text) (d : SseDecoder) : SseDecoder :=
  mkDecoder (thinking d) (tools d) (last_keyless d) (warned_finish_reasons d) saw limited cut (done d).
Definition set_done (d : SseDecoder) : SseDecoder :=
  mkDecoder (thinking d) (tools d) (last_keyless d) (warned_finish_reasons d) (saw_finish_reason d)
    (output_limited d) (truncated_tools d) true.

Definition push_back (i : Item) (st : State) : State := (fst st, snd st ++ [i]).

Definition flush_thinking (st : State) : State :=
  let '(f, es) := filter_finish (thinking (fst st)) in
  (set_thinking f (fst st), snd st ++ (Ok <$> es)).

Definition emit_done (st : State) : State :=
  if done (fst st) then st
  else let st := flush_thinking st in push_back (Ok EvDone) (set_done (fst st), snd st).

Section decoder.
(** [serde_json::from_str]. *)
Context (from_str : Text → result Json Text).

(** What an accumulator ends as. *)
Definition flushed (acc : ToolAccum) : option Item :=
  match acc_name acc with
  | None => None
  | Some name =>
      let call input := Ok (EvToolCall (mkStreamCall (default [] (acc_id acc)) name input (acc_metadata acc))) in
      if is_blank (acc_args acc) then Some (call (JObject []))
      else match from_str (acc_args acc) with
           | Ok input => Some (call input)
           | Err e => Some (Err (MalformedToolArguments name (utf8_len (acc_args acc)) e))
           end
  end.
Definition flush_tools (st : State) : State :=
  (set_tools [] (last_keyless (fst st)) (fst st), snd st ++ omap (λ e, flushed (snd e)) (tools (fst st))).

(** The names of the calls that are dropped. *)
Definition discard_tools (d : SseDecoder) : list Text * SseDecoder :=
  (omap (λ e, acc_name (snd e)) (tools d), set_tools [] None d).

Definition tool_key (tc : Json) (d : SseDecoder) : ToolKey * SseDecoder :=
  match as_u64 (json_at tc (txt "index")) with
  | Some index => (KIndex index, d)
  | None =>
      match as_str (json_at tc (txt "id")) with
      | Some ((_ :: _) as id) => (KId id, set_tools (tools d) (Some (KId id)) d)
      | _ => (default (KId []) (last_keyless d), d)
      end
  end.

Definition non_empty (t : option Text) (old : option Text) : option Text :=
  match t with Some ((_ :: _) as t) => Some t | _ => old end.
Definition add_fragment (tc : Json) (acc : ToolAccum) : ToolAccum :=
  let function := json_at tc (txt "function") in
  mkAccum (non_empty (as_str (json_at tc (txt "id"))) (acc_id acc))
    (non_empty (as_str (json_at function (txt "name"))) (acc_name acc))
    (acc_args acc ++ default [] (as_str (json_at function (txt "arguments"))))
    (match json_get (txt "extra_content") tc with
     | Some extra =>
         Some (JObject (map_insert (txt "extra_content") extra (default [] (acc_metadata acc ≫= as_object))))
     | None => acc_metadata acc
     end).
Definition on_tool_call (d : SseDecoder) (tc : Json) : SseDecoder :=
  let '(key, d) := tool_key tc d in
  set_tools (entry key (add_fragment tc) (tools d)) (last_keyless d) d.

Definition on_content (delta : Json) (st : State) : State :=
  let '(f, es) := filtered (thinking (fst st)) (default [] (as_str (json_at delta (txt "content")))) in
  (set_thinking f (fst st), snd st ++ es).
Definition reasoning_of (delta : Json) : Text :=
  default [] (match as_str (json_at delta (txt "reasoning_content")) with
              | Some r => Some r
              | None => as_str (json_at delta (txt "reasoning"))
              end).
Definition on_reasoning (delta : Json) (st : State) : State :=
  match reasoning_of delta with
  | [] => st
  | r => push_back (Ok (ReasoningDelta r)) st
  end.
Definition on_tool_calls (delta : Json) (st : State) : State :=
  (fold_left on_tool_call (default [] (as_array (json_at delta (txt "tool_calls")))) (fst st), snd st).

Definition finish_message (reason : Text) (cut : list Text) : option Text :=
  if bool_decide (reason = txt "stop" ∨ reason = txt "tool_calls") then None
  else if bool_decide (reason = txt "function_call") then
    Some (txt "provider returned a legacy function_call finish reason; no tool call was decoded")
  else if bool_decide (reason = txt "length") then
    Some match cut with
         | [] => txt "provider stopped because the token limit was reached; output may be truncated"
         | _ => txt "provider stopped because the token limit was reached while streaming "
             ++ Chars.join (txt ", ") (quoted <$> cut) ++ txt " arguments; "
             ++ discarded_subject (length cut) ++ txt " discarded " ++ [EM_DASH]
             ++ txt " the output cap is shared with any prose before the call, so write the file in smaller pieces (write_file, then append_file), skip a long preamble, or raise provider max_tokens"
         end
  else if bool_decide (reason = txt "content_filter") then
    Some (txt "provider filtered part or all of the response")
  else if is_blank reason then None
  else Some (txt "provider finished with reason " ++ quoted reason).

Definition warn_for_finish_reason (reason : Text) (st : State) : State :=
  let '(d, q) := st in
  if bool_decide (reason ∈ warned_finish_reasons d) then st
  else
    let d := set_warned (reason :: warned_finish_reasons d) d in
    match finish_message reason (truncated_tools d) with
    | None => (d, q)
    | Some message =>
        if bool_decide (reason = txt "length")
        then (set_finish (saw_finish_reason d) (output_limited d) [] d,
              q ++ [Ok (OutputLimit message (truncated_tools d))])
        else (d, q ++ [Ok (ProviderWarning message)])
    end.

Definition cut_by_length (d : SseDecoder) : SseDecoder :=
  let '(discarded, d) := discard_tools d in
  set_finish (saw_finish_reason d) true (truncated_tools d ++ discarded) d.
Definition on_finish_reason (reason : Text) (st : State) : State :=
  let d := set_finish true (output_limited (fst st)) (truncated_tools (fst st)) (fst st) in
  let d := if bool_decide (reason = txt "length") then cut_by_length d else d in
  let st := if bool_decide (reason = txt "tool_calls") then flush_tools (d, snd st) else (d, snd st) in
  warn_for_finish_reason reason st.

Definition u64_or_zero (v : Json) : N := default 0%N (as_u64 v).
Definition usage_of (usage : Json) : TokenUsage :=
  let prompt := u64_or_zero (json_at usage (txt "prompt_tokens")) in
  let cached := N.min (u64_or_zero (json_at (json_at usage (txt "prompt_tokens_details")) (txt "cached_tokens"))) prompt in
  mkUsage (prompt - cached) (u64_or_zero (json_at usage (txt "completion_tokens"))) 0 cached.

Definition on_choice (choice : Json) (st : State) : State :=
  let delta := json_at choice (txt "delta") in
  let st := on_tool_calls delta (on_reasoning delta (on_content delta st)) in
  match as_str (json_at choice (txt "finish_reason")) with
  | Some reason => on_finish_reason reason st
  | None => st
  end.
Definition handle_chunk (chunk : Json) (st : State) : State :=
  let st := match json_nth (json_at chunk (txt "choices")) 0 with
            | Some choice => on_choice choice st
            | None => st
            end in
  let usage := json_at chunk (txt "usage") in
  if is_object usage then push_back (Ok (EvUsage (usage_of usage))) st else st.

Definition process_line (line : Text) (st : State) : State :=
  match Chars.strip_prefix DATA line with
  | None => st
  | Some payload =>
      let payload := trim payload in
      if bool_decide (payload = txt "[DONE]") then emit_done (flush_tools st)
      else match from_str payload with
           | Ok chunk => handle_chunk chunk st
           | Err e => push_back (Err (StreamDecode e)) st
           end
  end.

(** The rest of [finish]. *)
Definition finish (st : State) : State :=
  let st := flush_thinking st in
  let st := if output_limited (fst st) then (snd (discard_tools (fst st)), snd st) else flush_tools st in
  if done (fst st) then st
  else if saw_finish_reason (fst st) then emit_done st
  else push_back (ended_early "stream ended before a completion marker") (set_done (fst st), snd st).

Definition start : Lines.Sse := Lines.mkSse [] decoder_default [].
Definition push : Bytes → Lines.Sse → Lines.Sse := Lines.push process_line.
Definition finish_stream : Lines.Sse → Lines.Sse := Lines.finish_stream process_line finish.
Definition into_event_stream (polls : list Lines.BodyPoll) : list Item :=
  Lines.event_stream process_line finish polls start.
End decoder.
End OpenAi.

(** ** The Anthropic wire *)

Module Anthropic.
Record ToolAccum := mkAccum { acc_id : Text; acc_name : Text; acc_input : Text }.
Definition accum_default : ToolAccum := mkAccum [] [] [].
Record UnparsedTool := mkUnparsed { un_name : Text; un_bytes : nat; un_reason : Text }.

Record SseDecoder := mkDecoder {
  thinking : InlineThinkingFilter;
  tools : gmap N ToolAccum;
  unparsed_tools : list UnparsedTool;
  open_blocks : gset N;
  closed_blocks : N;
  saw_content_delta : bool;
  input_counts : N * N * N;
  done : bool;
  warned_stop_reason : bool;
  saw_stop_reason : bool;
  output_limited : bool;
}.
Definition decoder_default : SseDecoder :=
  mkDecoder filter_default ∅ [] ∅ 0 false (0, 0, 0)%N false false false false.
Abbreviation State := (SseDecoder * list Item)%type.

Definition set_thinking (f : InlineThinkingFilter) (d : SseDecoder) : SseDecoder :=
  mkDecoder f (tools d) (unparsed_tools d) (open_blocks d) (closed_blocks d) (saw_content_delta d)
    (input_counts d) (done d) (warned_stop_reason d) (saw_stop_reason d) (output_limited d).
Definition set_tools (ts : gmap N ToolAccum) (d : SseDecoder) : SseDecoder :=
  mkDecoder (thinking d) ts (unparsed_tools d) (open_blocks d) (closed_blocks d) (saw_content_delta d)
    (input_counts d) (done d) (warned_stop_reason d) (saw_stop_reason d) (output_limited d).
Definition set_unparsed (us : list UnparsedTool) (d : SseDecoder) : SseDecoder :=
  mkDecoder (thinking d) (tools d) us (open_blocks d) (closed_blocks d) (saw_content_delta d)
    (input_counts d) (done d) (warned_stop_reason d) (saw_stop_reason d) (output_limited d).
Definition set_blocks (os : gset N) (closed : N) (saw : bool) (d : SseDecoder) : SseDecoder :=
  mkDecoder (thinking d) (tools d) (unparsed_tools d) os closed saw
    (input_counts d) (done d) (warned_stop_reason d) (saw_stop_reason d) (output_limited d).
Definition set_counts (ns : N * N * N) (d : SseDecoder) : SseDecoder :=
  mkDecoder (thinking d) (tools d) (unparsed_tools d) (open_blocks d) (closed_blocks d) (saw_content_delta d)
    ns (done d) (warned_stop_reason d) (saw_stop_reason d) (output_limited d).
Definition set_done (d : SseDecoder) : SseDecoder :=
  mkDecoder (thinking d) (tools d) (unparsed_tools d) (open_blocks d) (closed_blocks d) (saw_content_delta d)
    (input_counts d) true (warned_stop_reason d) (saw_stop_reason d) (output_limited d).
Definition set_stop (warned saw limited : bool) (d : SseDecoder) : SseDecoder :=
  mkDecoder (thinking d) (tools d) (unparsed_tools d) (open_blocks d) (closed_blocks d) (saw_content_delta d)
    (input_counts d) (done d) warned saw limited.

Definition push_back (i : Item) (st : State) : State := (fst st, snd st ++ [i]).

Definition content_complete (d : SseDecoder) : bool :=
  negb (saw_content_delta d) || (0 <? closed_blocks d)%N.
Definition flush_thinking (st : State) : State :=
  let '(f, es) := filter_finish (thinking (fst st)) in
  (set_thinking f (fst st), snd st ++ (Ok <$> es)).
Definition emit_done (st : State) : State :=
  if done (fst st) then st
  else let st := flush_thinking st in push_back (Ok EvDone) (set_done (fst st), snd st).

(** The calls whose arguments could not be read, once it is known that the
    output limit is not to blame. *)
Definition malformed (u : UnparsedTool) : Item :=
  Err (MalformedToolArguments (un_name u) (un_bytes u) (un_reason u)).
Definition report_malformed_tools (st : State) : State :=
  let '(d, q) := st in
  (set_unparsed [] d, if output_limited d then q else q ++ (malformed <$> unparsed_tools d)).

Definition unparsed_tool_summary (us : list UnparsedTool) : option Text :=
  match us with
  | [] => None
  | _ => Some (Chars.join (txt ", ")
           ((λ u, quoted (un_name u) ++ txt " arguments (" ++ show_nat (un_bytes u) ++ txt " bytes)") <$> us))
  end.
Definition cap_message (us : list UnparsedTool) : Text :=
  match unparsed_tool_summary us with
  | Some summary =>
      txt "provider stopped at max_tokens while streaming " ++ summary ++ txt "; "
      ++ discarded_subject (length us) ++ txt " discarded " ++ [EM_DASH]
      ++ txt " the output cap is shared with any prose before the call, so write the file in smaller pieces (write_file, then append_file), skip a long preamble, or raise provider max_tokens"
  | None => txt "provider stopped at max_tokens; output may be truncated"
  end.
Definition stop_message (reason : Text) : option Text :=
  if bool_decide (reason = txt "end_turn" ∨ reason = txt "tool_use") then None
  else if bool_decide (reason = txt "pause_turn") then
    Some (txt "provider paused during server-tool processing; a continuation may be required")
  else if bool_decide (reason = txt "refusal") then Some (txt "provider refused the request")
  else if bool_decide (reason = txt "stop_sequence") then
    Some (txt "provider stopped at a configured stop sequence; output may be partial")
  else if is_blank reason then None
  else Some (txt "provider stopped with reason " ++ quoted reason).

Definition warned (d : SseDecoder) : SseDecoder := set_stop true (saw_stop_reason d) (output_limited d) d.
Definition warn_for_stop_reason (reason : Text) (st : State) : State :=
  let '(d, q) := st in
  if warned_stop_reason d then st
  else if bool_decide (reason = txt "max_tokens") then
    (set_unparsed [] (warned d),
     q ++ [Ok (OutputLimit (cap_message (unparsed_tools d)) (un_name <$> unparsed_tools d))])
  else match stop_message reason with
       | Some message => (warned d, q ++ [Ok (ProviderWarning message)])
       | None => st
       end.

Section decoder.
Context (from_str : Text → result Json Text).

Definition flush_tool (index : N) (st : State) : State :=
  let '(d, q) := st in
  match tools d !! index with
  | None => st
  | Some acc =>
      let d := set_tools (delete index (tools d)) d in
      match acc_name acc with
      | [] => (d, q)
      | name =>
          let call input := (d, q ++ [Ok (EvToolCall (mkStreamCall (acc_id acc) name input None))]) in
          if is_blank (acc_input acc) then call (JObject [])
          else match from_str (acc_input acc) with
               | Ok input => call input
               | Err e =>
                   (if output_limited d then d
                    else set_unparsed (unparsed_tools d ++ [mkUnparsed name (utf8_len (acc_input acc)) e]) d, q)
               end
      end
  end.

Definition u64_or_zero (v : Json) : N := default 0%N (as_u64 v).
Definition text_or_empty (v : Json) : Text := default [] (as_str v).
Definition change_tool (index : N) (f : ToolAccum → ToolAccum) (d : SseDecoder) : SseDecoder :=
  set_tools (<[index := f (default accum_default (tools d !! index))]> (tools d)) d.

Definition on_message_start (event : Json) (d : SseDecoder) : SseDecoder :=
  let usage := json_at (json_at event (txt "message")) (txt "usage") in
  set_counts (u64_or_zero (json_at usage (txt "input_tokens")),
              u64_or_zero (json_at usage (txt "cache_creation_input_tokens")),
              u64_or_zero (json_at usage (txt "cache_read_input_tokens"))) d.
Definition on_block_start (event : Json) (d : SseDecoder) : SseDecoder :=
  let index := u64_or_zero (json_at event (txt "index")) in
  let block := json_at event (txt "content_block") in
  let d := set_blocks ({[index]} ∪ open_blocks d) (closed_blocks d) (saw_content_delta d) d in
  if bool_decide (as_str (json_at block (txt "type")) = Some (txt "tool_use"))
  then change_tool index (λ acc, mkAccum (text_or_empty (json_at block (txt "id")))
         (text_or_empty (json_at block (txt "name"))) (acc_input acc)) d
  else d.

Definition handle_delta (event : Json) (st : State) : State :=
  let '(d, q) := st in
  let delta := json_at event (txt "delta") in
  let kind := as_str (json_at delta (txt "type")) in
  if bool_decide (kind = Some (txt "text_delta")) then
    let '(f, es) := filtered (thinking d) (text_or_empty (json_at delta (txt "text"))) in
    (set_thinking f d, q ++ es)
  else if bool_decide (kind = Some (txt "thinking_delta")) then
    match text_or_empty (json_at delta (txt "thinking")) with
    | [] => st
    | t => (d, q ++ [Ok (ReasoningDelta t)])
    end
  else if bool_decide (kind = Some (txt "input_json_delta")) then
    match as_str (json_at delta (txt "partial_json")) with
    | Some fragment =>
        (change_tool (u64_or_zero (json_at event (txt "index")))
           (λ acc, mkAccum (acc_id acc) (acc_name acc) (acc_input acc ++ fragment)) d, q)
    | None => st
    end
  else st.

Definition on_block_stop (event : Json) (st : State) : State :=
  let index := u64_or_zero (json_at event (txt "index")) in
  let d := fst st in
  let d := if bool_decide (index ∈ open_blocks d)
           then set_blocks (open_blocks d ∖ {[index]}) (u64_saturate (closed_blocks d + 1)) (saw_content_delta d) d
           else d in
  flush_tool index (d, snd st).

Definition on_message_delta (event : Json) (st : State) : State :=
  let st := match as_u64 (json_at (json_at event (txt "usage")) (txt "output_tokens")) with
            | Some output =>
                let '(input, creation, read) := input_counts (fst st) in
                push_back (Ok (EvUsage (mkUsage input output creation read))) st
            | None => st
            end in
  match as_str (json_at (json_at event (txt "delta")) (txt "stop_reason")) with
  | Some reason =>
      let d := fst st in
      let capped := bool_decide (reason = txt "max_tokens") in
      let d := set_stop (warned_stop_reason d) true (capped || output_limited d) d in
      let st := if capped then (d, snd st) else report_malformed_tools (d, snd st) in
      warn_for_stop_reason reason st
  | None => st
  end.

Definition on_message_stop (st : State) : State :=
  let st := report_malformed_tools st in
  if bool_decide (open_blocks (fst st) = ∅) && content_complete (fst st) then emit_done st
  else push_back (ended_early "stream stopped before content lifecycle completed") (set_done (fst st), snd st).

Definition handle_event (event : Json) (st : State) : State :=
  let kind := as_str (json_at event (txt "type")) in
  let is_kind s := bool_decide (kind = Some (txt s)) in
  if is_kind "message_start"%string then (on_message_start event (fst st), snd st)
  else if is_kind "content_block_start"%string then (on_block_start event (fst st), snd st)
  else if is_kind "content_block_delta"%string then
    handle_delta event (set_blocks (open_blocks (fst st)) (closed_blocks (fst st)) true (fst st), snd st)
  else if is_kind "content_block_stop"%string then on_block_stop event st
  else if is_kind "message_delta"%string then on_message_delta event st
  else if is_kind "message_stop"%string then on_message_stop st
  else if is_kind "error"%string then
    push_back (Err (StreamDecode (default (txt "stream error")
      (as_str (json_at (json_at event (txt "error")) (txt "message")))))) st
  else st.

Definition process_line (line : Text) (st : State) : State :=
  match Chars.strip_prefix DATA line with
  | None => st
  | Some payload =>
      match trim payload with
      | [] => st
      | payload =>
          match from_str payload with
          | Ok event => handle_event event st
          | Err e => push_back (Err (StreamDecode e)) st
          end
      end
  end.

Definition finish (st : State) : State :=
  let st := report_malformed_tools (flush_thinking st) in
  let d := fst st in
  if done d then st
  else if saw_stop_reason d && bool_decide (open_blocks d = ∅) && content_complete d then emit_done st
  else push_back (ended_early "stream ended before a completion marker") (set_done d, snd st).

Definition start : Lines.Sse := Lines.mkSse [] decoder_default [].
Definition push : Bytes → Lines.Sse → Lines.Sse := Lines.push process_line.
Definition finish_stream : Lines.Sse → Lines.Sse := Lines.finish_stream process_line finish.
Definition into_event_stream (polls : list Lines.BodyPoll) : list Item :=
  Lines.event_stream process_line finish polls start.
End decoder.
End Anthropic.
