(* ===== verification/SseProps.v ===== *)
(** * Decoding a stream: the theorems

    How the body was cut into chunks cannot be seen; a response is complete only
    if the server said so; parallel calls are put together apart from each
    other; calls cut off by the output limit never run. *)

From Stdlib Require Import String.
From stdpp Require Import base gmap list sorting numbers.
From S2P Require Import Quota.
From S2P Require Import Prelude Monitor Utf8 Chars Message Json Provider Thinking Sse.
From stdpp Require Import list.
#[local] Open Scope nat_scope.
#[local] Open Scope list_scope.

(** ** Chunks *)

Section chunks.
Context {D : Type} (process_line : Text → D * list Item → D * list Item).
Abbreviation split_lines := Lines.split_lines.
Abbreviation push := (Lines.push process_line).

Lemma split_lines_app cur a b :
  split_lines cur (a ++ b) =
    let '(l1, r1) := split_lines cur a in let '(l2, r2) := split_lines r1 b in (l1 ++ l2, r2).
Proof.
  revert cur. induction a as [|x a IH]; intros cur; cbn [app split_lines]; [by destruct (split_lines cur b)|].
  destruct (x =? LF)%N; [|apply IH]. rewrite IH. destruct (split_lines [] a) as [l1 r1].
  by destruct (split_lines r1 b).
Qed.

Definition unbroken (bs : Bytes) : Prop := Forall (λ b, b ≠ LF) bs.
Lemma split_unbroken cur r b : unbroken r → split_lines cur (r ++ b) = split_lines (cur ++ r) b.
Proof.
  intros Hr. revert cur. induction Hr as [|x r Hx _ IH]; intros cur; cbn [app split_lines]; [by rewrite app_nil_r|].
  rewrite (proj2 (N.eqb_neq x LF) Hx), IH. by rewrite <-app_assoc.
Qed.
Lemma split_rest cur bs : unbroken cur → unbroken (snd (split_lines cur bs)).
Proof.
  revert cur. induction bs as [|b bs IH]; intros cur Hc; cbn [split_lines]; [done|].
  destruct (N.eqb_spec b LF) as [->|Hb].
  - specialize (IH [] (list.Forall_nil_2 _)). by destruct (split_lines [] bs).
  - apply IH, list.Forall_app. split; [done|]. by apply list.Forall_singleton.
Qed.

Definition buffered (s : @Lines.Sse D) : Prop := unbroken (Lines.buf s).
Lemma push_buffered bytes s : buffered (push bytes s).
Proof.
  unfold buffered, Lines.push. pose proof (split_rest [] (Lines.buf s ++ bytes) (list.Forall_nil_2 _)) as Hr.
  destruct (split_lines _ _) as [ls r]. by destruct (fold_left _ _ _).
Qed.

(** Two chunks are as one. *)
Lemma push_app a b s : buffered s → push (a ++ b) s = push b (push a s).
Proof.
  intros Hs. unfold Lines.push. rewrite app_assoc, split_lines_app.
  pose proof (split_rest [] (Lines.buf s ++ a) (list.Forall_nil_2 _)) as Hr.
  destruct (split_lines [] (Lines.buf s ++ a)) as [l1 r1].
  destruct (fold_left (Lines.take_line process_line) l1 _) as [d1 q1] eqn:Hf.
  cbn [Lines.buf Lines.decoder Lines.queue]. rewrite (split_unbroken [] r1 b Hr).
  destruct (split_lines ([] ++ r1) b) as [l2 r2] eqn:H2. cbn [app] in H2. rewrite H2.
  by rewrite fold_left_app, Hf.
Qed.
Lemma push_nil s : buffered s → push [] s = s.
Proof.
  intros Hs. unfold Lines.push. rewrite (split_unbroken [] _ [] Hs). by destruct s.
Qed.

Context (finish : D * list Item → D * list Item).
Lemma chunks_join chunks s :
  buffered s → Lines.event_stream process_line finish (Lines.Chunk <$> chunks) s =
               Lines.queue (Lines.finish_stream process_line finish (push (concat chunks) s)).
Proof.
  revert s. induction chunks as [|c chunks IH]; intros s Hs; cbn [fmap list_fmap concat Lines.event_stream].
  - by rewrite push_nil.
  - rewrite IH by apply push_buffered. by rewrite push_app.
Qed.
End chunks.

(** C28. How a body was cut into network chunks cannot be seen: two bodies with
    the same bytes, cut anywhere (inside a character, inside a line, into empty
    pieces), give the same events in the same order, for both wires. *)
Theorem chunks_are_invisible from_str chunks chunks' :
  concat chunks = concat chunks' →
  OpenAi.into_event_stream from_str (Lines.Chunk <$> chunks) =
    OpenAi.into_event_stream from_str (Lines.Chunk <$> chunks') ∧
  Anthropic.into_event_stream from_str (Lines.Chunk <$> chunks) =
    Anthropic.into_event_stream from_str (Lines.Chunk <$> chunks').
Proof.
  intros He. unfold OpenAi.into_event_stream, Anthropic.into_event_stream.
  by rewrite !chunks_join, He by constructor.
Qed.

(** ** Completion *)

Definition BEFORE_MARKER : string := "stream ended before a completion marker".
Definition is_done (i : Item) : bool := match i with Ok EvDone => true | _ => false end.
Definition is_cut (i : Item) : bool :=
  match i with Err (StreamTruncated d) => bool_decide (d = txt BEFORE_MARKER) | _ => false end.
Definition count (p : Item → bool) (q : list Item) : nat := length (List.filter p q).
Lemma count_app p a b : count p (a ++ b) = count p a + count p b.
Proof. unfold count. by rewrite List.filter_app, length_app. Qed.
Definition plain_item (i : Item) : Prop := is_done i = false ∧ is_cut i = false.
Lemma count_plain q : Forall plain_item q → count is_done q = 0 ∧ count is_cut q = 0.
Proof.
  unfold count. induction 1 as [|i q [Hd Hc] _ [IH1 IH2]]; [done|]. cbn. by rewrite Hd, Hc.
Qed.

Lemma filter_events_plain es : Forall plain_item es ↔ ∀ i, i ∈ es → plain_item i.
Proof. apply list.Forall_forall. Qed.
Lemma emitted_plain t s : Forall plain_item (Ok <$> emit t s).
Proof. destruct s, t; repeat constructor. Qed.

Lemma push_loop_plain fuel f e f' e' :
  push_loop fuel f e = Some (f', e') → Forall plain_item (Ok <$> e : list Item) → Forall plain_item (Ok <$> e' : list Item).
Proof.
  revert f e. induction fuel as [|fuel IH]; intros f e; [done|]. cbn [push_loop]. cbv zeta.
  destruct (find_sub _ _) as [i|].
  - intros Hr He. eapply IH; [exact Hr|]. rewrite fmap_app. apply list.Forall_app. split; [done|apply emitted_plain].
  - destruct (in_thinking f && _).
    + intros Hr He. eapply IH; [exact Hr|]. rewrite fmap_app. apply list.Forall_app. split; [done|apply emitted_plain].
    + intros [= <- <-] He. rewrite fmap_app. apply list.Forall_app. split; [done|apply emitted_plain].
Qed.
Lemma filtered_plain f t : Forall plain_item (snd (filtered f t)).
Proof.
  unfold filtered. destruct t as [|c t]; [constructor|]. pose proof (filter_push_ends f (c :: t)) as He.
  destruct (filter_push f (c :: t)) as [f' es]. by apply push_loop_plain in He.
Qed.

(** What a line of a body says, and the lines of it. *)
Definition body_lines (body : Bytes) : list Text :=
  let '(lines, rest) := Lines.split_lines [] body in (λ l, trim (decode_lossy l)) <$> lines ++ [rest].

Lemma trim_of_blank s : is_blank s = true → trim s = [].
Proof. rewrite trim_blank. apply bool_decide_eq_true. Qed.

Section bodies.
Context {D : Type} (process_line : Text → D * list Item → D * list Item) (finish : D * list Item → D * list Item).

(** A whole body is its lines one after another, then the end. *)
Lemma body_read (chunks : list Bytes) (d : D) (q : list Item) :
  (∀ st, process_line [] st = st) →
  Lines.event_stream process_line finish (Lines.Chunk <$> chunks) (Lines.mkSse [] d q) =
  snd (finish (fold_left (λ st l, process_line l st) (body_lines (concat chunks)) (d, q))).
Proof.
  intros Hnil. rewrite chunks_join by constructor. unfold Lines.finish_stream, Lines.push, body_lines, Lines.finish_tail.
  cbn [Lines.buf Lines.decoder Lines.queue app]. destruct (Lines.split_lines [] (concat chunks)) as [ls r].
  rewrite fmap_app, fold_left_app. cbn [fmap list_fmap fold_left].
  assert (He : fold_left (Lines.take_line process_line) ls (d, q) =
               fold_left (λ st l, process_line l st) ((λ l, trim (decode_lossy l)) <$> ls) (d, q)).
  { generalize (d, q). induction ls as [|l ls IH]; intros st; [done|]. apply IH. }
  rewrite <-He. destruct (fold_left (Lines.take_line _) ls (d, q)) as [d' q']. cbn [Lines.buf Lines.decoder Lines.queue].
  unfold Lines.take_line.
  destruct (is_blank (decode_lossy r)) eqn:Hb; [rewrite (trim_of_blank _ Hb), Hnil|]; by destruct (finish _).
Qed.
End bodies.

Lemma blank_marks_nothing : Chars.strip_prefix DATA [] = None.
Proof. done. Qed.

Module OpenAiDone.
Import OpenAi.
Section completion.
Context (from_str : Text → result Json Text).

(** Whether a line tells the end: the sentinel, or a chunk with a finish reason. *)
Definition tells_end (line : Text) : bool :=
  match Chars.strip_prefix DATA line with
  | None => false
  | Some payload =>
      bool_decide (trim payload = txt "[DONE]") ||
      match from_str (trim payload) with
      | Ok chunk =>
          match json_nth (json_at chunk (txt "choices")) 0 with
          | Some choice => bool_decide (is_Some (as_str (json_at choice (txt "finish_reason"))))
          | None => false
          end
      | Err _ => false
      end
  end.

(** The queue grew by plain items, and nothing was told. *)
Definition quiet (saw : bool) (st st' : State) : Prop :=
  ∃ es, snd st' = snd st ++ es ∧ Forall plain_item es ∧
    done (fst st') = done (fst st) ∧ saw_finish_reason (fst st') = saw_finish_reason (fst st) || saw.

Lemma quiet_refl st : quiet false st st.
Proof. exists []. rewrite app_nil_r, orb_false_r. by split_and!. Qed.
Lemma quiet_trans a b st1 st2 st3 : quiet a st1 st2 → quiet b st2 st3 → quiet (a || b) st1 st3.
Proof.
  intros (e1 & Hq1 & He1 & Hd1 & Hs1) (e2 & Hq2 & He2 & Hd2 & Hs2). exists (e1 ++ e2).
  rewrite Hq2, Hq1, app_assoc. split_and!; [done|by apply list.Forall_app|congruence|].
  by rewrite Hs2, Hs1, orb_assoc.
Qed.
Lemma quiet_push i st : plain_item i → quiet false st (push_back i st).
Proof. intros Hi. exists [i]. rewrite orb_false_r. split_and!; try done. by apply list.Forall_singleton. Qed.

Lemma flush_thinking_quiet st : quiet false st (flush_thinking st).
Proof.
  unfold flush_thinking, filter_finish. cbn. exists (Ok <$> emit (in_thinking (thinking (fst st))) (held (thinking (fst st)))).
  rewrite orb_false_r. split_and!; try done. apply emitted_plain.
Qed.
Lemma flushed_plain acc i : flushed from_str acc = Some i → plain_item i.
Proof. unfold flushed. destruct (acc_name acc); [|done]. repeat case_match; by intros [= <-]. Qed.
Lemma flush_tools_quiet st : quiet false st (flush_tools from_str st).
Proof.
  eexists. split; [reflexivity|]. rewrite orb_false_r. split_and!; try done.
  apply list.Forall_forall. intros i (e & _ & He)%list_elem_of_omap. by eapply flushed_plain.
Qed.

Lemma on_content_quiet delta st : quiet false st (on_content delta st).
Proof.
  unfold on_content. pose proof (filtered_plain (thinking (fst st)) (default [] (as_str (json_at delta (txt "content"))))) as Hp.
  destruct (filtered _ _) as [f es]. exists es. rewrite orb_false_r. by split_and!.
Qed.
Lemma on_reasoning_quiet delta st : quiet false st (on_reasoning delta st).
Proof. unfold on_reasoning. destruct (reasoning_of delta); [apply quiet_refl|by apply quiet_push]. Qed.
Lemma on_tool_call_same d tc :
  done (on_tool_call d tc) = done d ∧ saw_finish_reason (on_tool_call d tc) = saw_finish_reason d.
Proof. unfold on_tool_call, tool_key. by repeat case_match; simplify_eq. Qed.
Lemma on_tool_calls_quiet delta st : quiet false st (on_tool_calls delta st).
Proof.
  exists []. rewrite app_nil_r, orb_false_r. unfold on_tool_calls. cbn [fst snd].
  generalize (default [] (as_array (json_at delta (txt "tool_calls")))). intros tcs.
  assert (∀ d, done (fold_left on_tool_call tcs d) = done d ∧
               saw_finish_reason (fold_left on_tool_call tcs d) = saw_finish_reason d) as H.
  { induction tcs as [|tc tcs IH]; intros d; [done|]. cbn [fold_left].
    destruct (IH (on_tool_call d tc)) as [-> ->]. apply on_tool_call_same. }
  destruct (H (fst st)). by split_and!.
Qed.
Lemma warn_quiet reason st : quiet false st (warn_for_finish_reason reason st).
Proof.
  destruct st as [d q]. unfold warn_for_finish_reason. case_match; [apply quiet_refl|]. cbv zeta.
  destruct (finish_message _ _); [|exists []; rewrite app_nil_r, orb_false_r; by split_and!].
  case_match; eexists; (split; [reflexivity|]); rewrite orb_false_r; split_and!; try done;
    by apply list.Forall_singleton.
Qed.
Lemma on_finish_reason_quiet reason st : quiet true st (on_finish_reason from_str reason st).
Proof.
  unfold on_finish_reason. cbv zeta. eapply (quiet_trans true false); [|apply warn_quiet].
  set (d := set_finish true _ _ _). set (d' := if bool_decide (reason = txt "length") then _ else d).
  assert (H : quiet true st (d', snd st)).
  { exists []. rewrite app_nil_r, orb_true_r. subst d' d. case_match; by split_and!. }
  case_match; [|done]. apply (quiet_trans true false _ _ _ H). apply flush_tools_quiet.
Qed.

Definition chunk_tells (chunk : Json) : bool :=
  match json_nth (json_at chunk (txt "choices")) 0 with
  | Some choice => bool_decide (is_Some (as_str (json_at choice (txt "finish_reason"))))
  | None => false
  end.
Lemma handle_chunk_quiet chunk st : quiet (chunk_tells chunk) st (handle_chunk from_str chunk st).
Proof.
  unfold handle_chunk. cbv zeta.
  set (st1 := match json_nth _ _ with Some choice => _ | None => st end).
  assert (H : quiet (chunk_tells chunk) st st1).
  { unfold st1, chunk_tells. destruct (json_nth _ _) as [choice|]; [|apply quiet_refl]. unfold on_choice.
    set (st2 := on_tool_calls _ _). assert (H2 : quiet false st st2).
    { apply (quiet_trans false false _ (on_reasoning (json_at choice (txt "delta")) (on_content (json_at choice (txt "delta")) st)));
        [|apply on_tool_calls_quiet].
      apply (quiet_trans false false _ (on_content (json_at choice (txt "delta")) st));
        [apply on_content_quiet|apply on_reasoning_quiet]. }
    destruct (as_str _) as [reason|]; [|done].
    rewrite bool_decide_eq_true_2 by done. apply (quiet_trans false true _ _ _ H2), on_finish_reason_quiet. }
  destruct (is_object _); [|done].
  rewrite <-(orb_false_r (chunk_tells chunk)). apply (quiet_trans _ false _ _ _ H). by apply quiet_push.
Qed.

(** One [Done] once something told the end by the sentinel, none before. *)
Record told (m : bool) (st : State) : Prop := {
  t_cut : count is_cut (snd st) = 0;
  t_done : count is_done (snd st) = Nat.b2n (done (fst st));
  t_told : done (fst st) || saw_finish_reason (fst st) = m;
}.

Lemma told_quiet saw m st st' : quiet saw st st' → told m st → told (m || saw) st'.
Proof.
  intros (es & Hq & He & Hd & Hs) [Hc Hn Ht]. destruct (count_plain _ He) as [H1 H2].
  split; rewrite ?Hq, ?count_app, ?H1, ?H2, ?Hd, ?Hs; [lia|lia|]. by rewrite orb_assoc, Ht.
Qed.
Lemma told_emit_done m st : told m st → told true (emit_done st) ∧ done (fst (emit_done st)) = true.
Proof.
  unfold emit_done. destruct (done (fst st)) eqn:Hd.
  - intros [Hc Hn Ht]. rewrite Hd in *. split; [|done]. split; [done|by rewrite Hd|by rewrite Hd].
  - intros Hm. apply (told_quiet _ _ _ _ (flush_thinking_quiet st)) in Hm as [Hc Hn _]. split; [|done].
    assert (Hf : done (fst (flush_thinking st)) = false) by done. rewrite Hf in Hn.
    split; cbn [push_back fst snd set_done done]; rewrite ?count_app, ?Hc, ?Hn; done.
Qed.

Lemma told_line m line st : told m st → told (m || tells_end line) (process_line from_str line st).
Proof.
  intros Hm. unfold process_line, tells_end. destruct (Chars.strip_prefix _ _) as [payload|]; [|by rewrite orb_false_r].
  case_bool_decide; cbn [orb].
  - apply (told_quiet _ _ _ _ (flush_tools_quiet st)) in Hm. rewrite orb_true_r. by eapply told_emit_done.
  - destruct (from_str _) as [chunk|e].
    + eapply told_quiet; [apply handle_chunk_quiet|done].
    + eapply (told_quiet false); [by apply quiet_push|done].
Qed.
Lemma told_lines m lines st :
  told m st → told (m || existsb tells_end lines) (fold_left (λ st l, process_line from_str l st) lines st).
Proof.
  revert m st. induction lines as [|l lines IH]; intros m st Hm; cbn [fold_left existsb]; [by rewrite orb_false_r|].
  rewrite orb_assoc. by apply IH, told_line.
Qed.

Lemma told_finish m st :
  told m st → count is_done (snd (finish from_str st)) = Nat.b2n m ∧
              count is_cut (snd (finish from_str st)) = Nat.b2n (negb m).
Proof.
  intros Hm. unfold finish. cbv zeta. set (st1 := if output_limited _ then _ else _).
  assert (H : quiet false st st1).
  { unfold st1. apply (quiet_trans false false _ (flush_thinking st)); [apply flush_thinking_quiet|].
    destruct (output_limited _); [|apply flush_tools_quiet]. exists []. rewrite app_nil_r, orb_false_r. by split_and!. }
  apply (told_quiet _ _ _ _ H) in Hm. rewrite orb_false_r in Hm. clearbody st1. clear H.
  destruct (done (fst st1)) eqn:Hd; [destruct Hm as [Hc Hn Ht]; rewrite Hd in *; cbn in Ht; subst m; by rewrite Hc, Hn|].
  destruct (saw_finish_reason (fst st1)) eqn:Hs.
  - assert (m = true) as -> by (destruct Hm as [_ _ <-]; by rewrite Hs, orb_true_r).
    destruct (told_emit_done _ _ Hm) as [[Hc Hn _] Ht]. by rewrite Hc, Hn, Ht.
  - destruct Hm as [Hc Hn Ht]. rewrite Hd, Hs in *. cbn in Ht. subst m. cbn [push_back fst snd].
    rewrite !count_app, Hc, Hn. done.
Qed.

Lemma completed chunks :
  let q := into_event_stream from_str (Lines.Chunk <$> chunks) in
  let said := existsb tells_end (body_lines (concat chunks)) in
  count is_done q = Nat.b2n said ∧ count is_cut q = Nat.b2n (negb said).
Proof.
  cbv zeta. unfold into_event_stream, start. rewrite body_read by done.
  apply told_finish. apply (told_lines false). by split.
Qed.
End completion.
End OpenAiDone.

Module AnthropicDone.
Import Anthropic.
Section completion.
Context (from_str : Text → result Json Text).

Definition is_trunc (i : Item) : bool := match i with Err (StreamTruncated _) => true | _ => false end.

(** Whether an event, and a line, tells the end: the last event, or a reason to
    stop. *)
Definition event_tells (event : Json) : bool :=
  bool_decide (as_str (json_at event (txt "type")) = Some (txt "message_stop")) ||
  bool_decide (as_str (json_at event (txt "type")) = Some (txt "message_delta")) &&
  bool_decide (is_Some (as_str (json_at (json_at event (txt "delta")) (txt "stop_reason")))).
Definition tells_end (line : Text) : bool :=
  match Chars.strip_prefix DATA line with
  | None => false
  | Some payload =>
      match from_str (trim payload) with
      | Ok event => bool_decide (trim payload ≠ []) && event_tells event
      | Err _ => false
      end
  end.

Definition quiet (saw : bool) (st st' : State) : Prop :=
  ∃ es, snd st' = snd st ++ es ∧ Forall plain_item es ∧
    done (fst st') = done (fst st) ∧ (saw_stop_reason (fst st') = true → saw_stop_reason (fst st) || saw = true).

Lemma quiet_more a st st' : quiet false st st' → quiet a st st'.
Proof.
  intros (es & Hq & He & Hd & Hs). exists es. split_and!; try done. rewrite orb_false_r in Hs.
  intros H. by rewrite (Hs H).
Qed.
Lemma quiet_set d q d' : done d' = done d → saw_stop_reason d' = saw_stop_reason d → quiet false (d, q) (d', q).
Proof. intros Hd Hs. exists []. rewrite app_nil_r, orb_false_r. cbn. by rewrite Hd, Hs. Qed.
Lemma ant_quiet_refl st : quiet false st st.
Proof. destruct st. by apply quiet_set. Qed.
Lemma ant_quiet_trans a b st1 st2 st3 : quiet a st1 st2 → quiet b st2 st3 → quiet (a || b) st1 st3.
Proof.
  intros (e1 & Hq1 & He1 & Hd1 & Hs1) (e2 & Hq2 & He2 & Hd2 & Hs2). exists (e1 ++ e2).
  rewrite Hq2, Hq1, app_assoc. split_and!; [done|by apply list.Forall_app|congruence|].
  intros H. apply Hs2, orb_true_iff in H as [H| ->]; [|by rewrite !orb_true_r].
  rewrite orb_assoc. by rewrite (Hs1 H).
Qed.
Lemma quiet_grow d q d' es :
  Forall plain_item es → done d' = done d → saw_stop_reason d' = saw_stop_reason d → quiet false (d, q) (d', q ++ es).
Proof. intros He Hd Hs. exists es. rewrite orb_false_r. cbn. by rewrite Hd, Hs. Qed.
Lemma quiet_item d q d' i :
  plain_item i → done d' = done d → saw_stop_reason d' = saw_stop_reason d → quiet false (d, q) (d', q ++ [i]).
Proof. intros Hi. by apply quiet_grow, list.Forall_singleton. Qed.

Lemma ant_flush_thinking_quiet st : quiet false st (flush_thinking st).
Proof. destruct st as [d q]. apply quiet_grow; [apply emitted_plain|done|done]. Qed.
Lemma report_quiet st : quiet false st (report_malformed_tools st).
Proof.
  destruct st as [d q]. unfold report_malformed_tools. destruct (output_limited d); [by apply quiet_set|].
  apply quiet_grow; [|done|done]. apply list.Forall_fmap, list.Forall_forall. by intros u _.
Qed.
Lemma ant_warn_quiet reason st : quiet false st (warn_for_stop_reason reason st).
Proof.
  destruct st as [d q]. unfold warn_for_stop_reason. destruct (warned_stop_reason d); [apply ant_quiet_refl|].
  case_match; [by apply quiet_item|]. destruct (stop_message reason); [by apply quiet_item|apply ant_quiet_refl].
Qed.
Lemma flush_tool_quiet index st : quiet false st (flush_tool from_str index st).
Proof.
  destruct st as [d q]. unfold flush_tool. destruct (tools d !! index) as [acc|]; [|apply ant_quiet_refl].
  cbv zeta. destruct (acc_name acc) as [|c name]; [by apply quiet_set|].
  destruct (is_blank _); [by apply quiet_item|]. destruct (from_str _); [by apply quiet_item|].
  apply quiet_set; by case_match.
Qed.
Lemma handle_delta_quiet event st : quiet false st (handle_delta event st).
Proof.
  destruct st as [d q]. unfold handle_delta. cbv zeta. case_match.
  - pose proof (filtered_plain (thinking d) (text_or_empty (json_at (json_at event (txt "delta")) (txt "text")))) as Hp.
    destruct (filtered _ _) as [f es]. by apply quiet_grow.
  - case_match; [destruct (text_or_empty _); [apply ant_quiet_refl|by apply quiet_item]|].
    case_match; [|apply ant_quiet_refl].
    destruct (as_str (json_at _ (txt "partial_json"))); [|apply ant_quiet_refl]. by apply quiet_set.
Qed.
Lemma on_block_stop_quiet event st : quiet false st (on_block_stop from_str event st).
Proof.
  destruct st as [d q]. unfold on_block_stop. cbv zeta. cbn [fst snd].
  eapply (ant_quiet_trans false false); [|apply flush_tool_quiet]. apply quiet_set; by case_match.
Qed.
Lemma on_message_delta_quiet event st :
  quiet (bool_decide (is_Some (as_str (json_at (json_at event (txt "delta")) (txt "stop_reason"))))) st
    (on_message_delta event st).
Proof.
  unfold on_message_delta. set (st1 := match as_u64 _ with Some output => _ | None => st end).
  assert (H1 : quiet false st st1).
  { subst st1. destruct (as_u64 _); [|apply ant_quiet_refl]. destruct st as [d q]. cbn [fst].
    destruct (input_counts d) as [[? ?] ?]. by apply quiet_item. }
  clearbody st1. destruct (as_str _) as [reason|]; [|done]. rewrite bool_decide_eq_true_2 by done. cbv zeta.
  apply (ant_quiet_trans false true _ _ _ H1). clear H1. destruct st1 as [d q]. cbn [fst snd].
  eapply (ant_quiet_trans true false); [|apply ant_warn_quiet].
  set (d' := set_stop _ _ _ _).
  assert (H : quiet true (d, q) (d', q)).
  { exists []. rewrite app_nil_r, orb_true_r. by split_and!. }
  case_match; [done|]. apply (ant_quiet_trans true false _ _ _ H), report_quiet.
Qed.

Record told (m : bool) (st : State) : Prop := {
  t_cut : count is_cut (snd st) = 0;
  t_done : count is_done (snd st) <= Nat.b2n (done (fst st));
  t_end : done (fst st) = true → 1 <= count is_done (snd st) + count is_trunc (snd st);
  t_told : done (fst st) = true ∨ saw_stop_reason (fst st) = true → m = true;
}.

Lemma told_more m b st : told m st → told (m || b) st.
Proof. intros [Hc Hd He Ht]. split; try done. intros H. by rewrite (Ht H). Qed.
Lemma ant_told_quiet saw m st st' : quiet saw st st' → told m st → told (m || saw) st'.
Proof.
  intros (es & Hq & He & Hd & Hs) [Hc Hn Hend Ht]. destruct (count_plain _ He) as [H1 H2].
  split; rewrite ?Hq, ?count_app, ?H1, ?H2, ?Hd; [lia|lia| |].
  - intros H. specialize (Hend H). lia.
  - intros [H|H]; [by rewrite Ht; [|left]|]. apply Hs, orb_true_iff in H as [H| ->]; [|by rewrite orb_true_r].
    by rewrite Ht; [|right].
Qed.
Lemma ant_told_emit_done m st : told m st → told true (emit_done st).
Proof.
  unfold emit_done. destruct (done (fst st)) eqn:Hd.
  - intros [Hc Hn He Ht]. rewrite Hd in *. split; rewrite ?Hd; done.
  - intros Hm. apply (ant_told_quiet _ _ _ _ (ant_flush_thinking_quiet st)) in Hm as [Hc Hn _ _].
    assert (Hf : done (fst (flush_thinking st)) = false) by done. rewrite Hf in Hn. cbn [Nat.b2n] in Hn.
    set (st1 := flush_thinking st) in *. clearbody st1.
    assert (H1 : count is_done ([Ok EvDone] : list Item) = 1) by done.
    split; cbn [push_back fst snd set_done done Nat.b2n]; rewrite ?count_app, ?Hc, ?H1; change (count is_done [Ok EvDone]) with 1 in *; [done|lia|intros _; lia|done].
Qed.
Lemma told_truncated m st d' i :
  told m st → is_cut i = false → is_trunc i = true → done d' = true →
  told true (push_back i (d', snd st)).
Proof.
  intros [Hc Hn He Ht] Hi Htr Hd. split; cbn [push_back fst snd]; rewrite ?count_app, ?Hd; [| |intros _|done].
  - rewrite Hc. cbn. by rewrite Hi.
  - assert (count is_done [i] = 0) as -> by (by destruct i as [|[]]).
    destruct (done (fst st)); cbn [Nat.b2n] in *; lia.
  - assert (count is_trunc [i] = 1) as -> by (unfold count; cbn; by rewrite Htr). lia.
Qed.

Lemma told_event m event st : told m st → told (m || event_tells event) (handle_event from_str event st).
Proof.
  intros Hm. destruct st as [d q].
  assert (Hquiet : ∀ b st', quiet false (d, q) st' → told (m || b) st').
  { intros b st' H. apply (ant_told_quiet b m (d, q)); [by apply quiet_more|done]. }
  unfold handle_event. cbv zeta. cbn [fst snd].
  case_bool_decide; [by apply Hquiet, quiet_set|].
  case_bool_decide.
  { apply Hquiet. unfold on_block_start. cbv zeta. case_match; by apply quiet_set. }
  case_bool_decide.
  { apply Hquiet. eapply (ant_quiet_trans false false); [|apply handle_delta_quiet]. by apply quiet_set. }
  case_bool_decide; [apply Hquiet, on_block_stop_quiet|].
  case_bool_decide as Hd.
  { unfold event_tells. rewrite Hd, (bool_decide_eq_true_2 (_ = Some (txt "message_delta"))) by done.
    rewrite (bool_decide_eq_false_2 (_ = Some (txt "message_stop"))) by (vm_compute; congruence).
    apply (ant_told_quiet _ m (d, q)); [apply on_message_delta_quiet|done]. }
  case_bool_decide as Hs.
  { unfold event_tells. rewrite Hs, (bool_decide_eq_true_2 (_ = Some (txt "message_stop"))), orb_true_r by done.
    unfold on_message_stop. pose proof (ant_told_quiet false _ _ _ (report_quiet (d, q)) Hm) as Hr.
    case_match; [by eapply ant_told_emit_done|]. by eapply told_truncated. }
  case_bool_decide; apply Hquiet; [by apply quiet_item|apply ant_quiet_refl].
Qed.

Lemma ant_told_line m line st : told m st → told (m || tells_end line) (process_line from_str line st).
Proof.
  intros Hm. unfold process_line, tells_end. destruct (Chars.strip_prefix _ _) as [payload|]; [|by rewrite orb_false_r].
  destruct (trim payload) as [|c p] eqn:Hp; [by apply told_more|].
  destruct (from_str (c :: p)) as [event|e].
  - rewrite bool_decide_eq_true_2 by done. by apply told_event.
  - destruct st as [d q]. eapply (ant_told_quiet false); [by apply quiet_item|done].
Qed.
Lemma ant_told_lines m lines st :
  told m st → told (m || existsb tells_end lines) (fold_left (λ st l, process_line from_str l st) lines st).
Proof.
  revert m st. induction lines as [|l lines IH]; intros m st Hm; cbn [fold_left existsb]; [by rewrite orb_false_r|].
  rewrite orb_assoc. by apply IH, ant_told_line.
Qed.

(** At the end: no event says so unless the server did, one at the most does, and
    a response that is not complete is cut off. *)
Record ended (said : bool) (q : list Item) : Prop := {
  en_once : count is_done q <= 1;
  en_said : count is_done q = 1 → said = true;
  en_cut : said = false → count is_cut q = 1;
  en_some : 1 <= count is_done q + count is_trunc q;
}.
Lemma ant_told_finish m st : told m st → ended m (snd (finish st)).
Proof.
  intros Hm. unfold finish. cbv zeta. set (st1 := report_malformed_tools (flush_thinking st)).
  assert (H : quiet false st st1).
  { apply (ant_quiet_trans false false _ (flush_thinking st)); [apply ant_flush_thinking_quiet|apply report_quiet]. }
  apply (ant_told_quiet _ _ _ _ H) in Hm. rewrite orb_false_r in Hm. clearbody st1. clear H st.
  assert (Hfin : ∀ st2, done (fst st2) = true → told m st2 → ended m (snd st2)).
  { intros st2 Hd [Hc Hn He Ht]. rewrite Hd in *. assert (m = true) as -> by (apply Ht; by left).
    split; [done|done|done|by apply He]. }
  destruct (done (fst st1)) eqn:Hd; [by apply Hfin|].
  destruct (saw_stop_reason (fst st1) && _ && _) eqn:Hs.
  - apply andb_true_iff in Hs as [[Hs _]%andb_true_iff _].
    assert (m = true) as -> by (apply (t_told _ _ Hm); by right).
    apply Hfin; [unfold emit_done; rewrite Hd; done|]. by eapply ant_told_emit_done.
  - destruct Hm as [Hc Hn He Ht]. rewrite Hd in Hn. cbn [Nat.b2n] in Hn. cbn [push_back fst snd].
    assert (H1 : count is_done [ended_early BEFORE_MARKER] = 0 ∧ count is_cut [ended_early BEFORE_MARKER] = 1 ∧
                 count is_trunc [ended_early BEFORE_MARKER] = 1) by by vm_compute.
    destruct H1 as (H1 & H2 & H3). change "stream ended before a completion marker"%string with BEFORE_MARKER.
    split; rewrite ?count_app, ?Hc, ?H1, ?H2, ?H3; [lia|lia|done|lia].
Qed.

Lemma ant_completed chunks :
  ended (existsb tells_end (body_lines (concat chunks))) (into_event_stream from_str (Lines.Chunk <$> chunks)).
Proof.
  unfold into_event_stream, start. rewrite body_read by done.
  apply ant_told_finish. apply (ant_told_lines false). split; try done. by intros [H|H].
Qed.
End completion.
End AnthropicDone.

(** C29. A response is complete only when the server said so.  On the OpenAI wire
    a body yields exactly one end, [Done] when one of its lines is the sentinel
    or has a finish reason and the truncation error otherwise; on the Anthropic
    wire [Done] comes at most once and only after a stop reason or the last
    event, and a body without either ends in the truncation error. *)
Theorem completion_is_honest from_str chunks :
  (let q := OpenAi.into_event_stream from_str (Lines.Chunk <$> chunks) in
   let said := existsb (OpenAiDone.tells_end from_str) (body_lines (concat chunks)) in
   count is_done q = Nat.b2n said ∧ count is_cut q = Nat.b2n (negb said)) ∧
  AnthropicDone.ended (existsb (AnthropicDone.tells_end from_str) (body_lines (concat chunks)))
    (Anthropic.into_event_stream from_str (Lines.Chunk <$> chunks)).
Proof. split; [apply OpenAiDone.completed|apply AnthropicDone.ant_completed]. Qed.

(** ** Calls put together *)

(** A call, or the report of one whose arguments could not be read. *)
Definition is_call_item (i : Item) : bool :=
  match i with Ok (EvToolCall _) | Err (MalformedToolArguments _ _ _) => true | _ => false end.
Definition call_items (q : list Item) : list Item := List.filter is_call_item q.
Lemma call_items_app a b : call_items (a ++ b) = call_items a ++ call_items b.
Proof. apply List.filter_app. Qed.

Lemma push_loop_speech fuel f e f' e' :
  push_loop fuel f e = Some (f', e') → call_items (Ok <$> e) = [] → call_items (Ok <$> e') = [].
Proof.
  assert (Hemit : ∀ t s, call_items (Ok <$> emit t s) = []) by (by intros [] []).
  revert f e. induction fuel as [|fuel IH]; intros f e; [done|]. cbn [push_loop]. cbv zeta.
  destruct (find_sub _ _) as [i|].
  - intros Hr He. eapply IH; [exact Hr|]. by rewrite fmap_app, call_items_app, He, Hemit.
  - destruct (in_thinking f && _).
    + intros Hr He. eapply IH; [exact Hr|]. by rewrite fmap_app, call_items_app, He, Hemit.
    + intros [= <- <-] He. by rewrite fmap_app, call_items_app, He, Hemit.
Qed.
Lemma filtered_speech f t : call_items (snd (filtered f t)) = [].
Proof.
  unfold filtered. destruct t as [|c t]; [done|]. pose proof (filter_push_ends f (c :: t)) as He.
  destruct (filter_push f (c :: t)) as [f' es]. by apply push_loop_speech in He.
Qed.

(** Strictly ascending lists with the same elements are equal. *)
Lemma ascending_unique (a b : list N) :
  StronglySorted N.lt a → StronglySorted N.lt b → (∀ x, x ∈ a ↔ x ∈ b) → a = b.
Proof.
  revert b. induction a as [|x a IH]; intros b Ha Hb He.
  - destruct b as [|y b]; [done|]. exfalso. apply (not_elem_of_nil y), He. by left.
  - destruct b as [|y b]; [exfalso; apply (not_elem_of_nil x), He; by left|].
    apply StronglySorted_inv in Ha as [Ha Hxa]. apply StronglySorted_inv in Hb as [Hb Hyb].
    rewrite list.Forall_forall in Hxa, Hyb.
    assert (x = y) as <-.
    { assert (x ∈ y :: b) as [->|Hx]%elem_of_cons by (apply He; by left); [done|].
      assert (y ∈ x :: a) as [->|Hy]%elem_of_cons by (apply He; by left); [done|].
      specialize (Hxa _ Hy). specialize (Hyb _ Hx). lia. }
    f_equal. apply IH; [done|done|]. intros z. specialize (He z). rewrite !elem_of_cons in He.
    split; intros Hz.
    + destruct (proj1 He (or_intror Hz)) as [->|]; [|done]. specialize (Hxa _ Hz). lia.
    + destruct (proj2 He (or_intror Hz)) as [->|]; [|done]. specialize (Hyb _ Hz). lia.
Qed.

Module OpenAiCalls.
Import OpenAi.
Section calls.
Context (from_str : Text → result Json Text).

(** A fragment of a call, as a server that numbers its calls sends it. *)
Record Part := mkPart { p_index : N; p_id : option Text; p_name : option Text; p_args : Text }.
Record parses (tc : Json) (p : Part) : Prop := {
  ps_index : as_u64 (json_at tc (txt "index")) = Some (p_index p);
  ps_id : as_str (json_at tc (txt "id")) = p_id p;
  ps_name : as_str (json_at (json_at tc (txt "function")) (txt "name")) = p_name p;
  ps_args : default [] (as_str (json_at (json_at tc (txt "function")) (txt "arguments"))) = p_args p;
  ps_extra : json_get (txt "extra_content") tc = None;
}.
(** A chunk with these fragments that does not end the response. *)
Definition carries (chunk : Json) (ps : list Part) : Prop :=
  ∃ choice, json_nth (json_at chunk (txt "choices")) 0 = Some choice ∧
    as_str (json_at choice (txt "finish_reason")) = None ∧
    Forall2 parses (default [] (as_array (json_at (json_at choice (txt "delta")) (txt "tool_calls")))) ps.

(** The call with one number: its own fragments joined, the last id and the last
    name given. *)
Definition own (k : N) (ps : list Part) : list Part := List.filter (λ p, (p_index p =? k)%N) ps.
Definition last_given (l : list (option Text)) : option Text := fold_left (λ old t, non_empty t old) l None.
Definition assembled (ps : list Part) (k : N) : ToolAccum :=
  mkAccum (last_given (p_id <$> own k ps)) (last_given (p_name <$> own k ps)) (own k ps ≫= p_args) None.
Definition indices (ps : list Part) : list N := sort_dedup (p_index <$> ps).
Definition by_index (ps : list Part) : list (ToolKey * ToolAccum) :=
  (λ k, (KIndex k, assembled ps k)) <$> indices ps.

Definition add_part (p : Part) (acc : ToolAccum) : ToolAccum :=
  mkAccum (non_empty (p_id p) (acc_id acc)) (non_empty (p_name p) (acc_name acc))
    (acc_args acc ++ p_args p) (acc_metadata acc).
Lemma add_fragment_part tc p acc : parses tc p → add_fragment tc acc = add_part p acc.
Proof. intros [_ Hi Hn Ha He]. unfold add_fragment. cbv zeta. by rewrite Hi, Hn, Ha, He. Qed.

Lemma assembled_snoc ps p k :
  assembled (ps ++ [p]) k = if (p_index p =? k)%N then add_part p (assembled ps k) else assembled ps k.
Proof.
  unfold assembled, own. rewrite List.filter_app. cbn [List.filter].
  destruct (p_index p =? k)%N; [|by rewrite app_nil_r].
  unfold add_part, last_given. cbn [acc_id acc_name acc_args acc_metadata].
  rewrite !fmap_app, !fold_left_app, bind_app. cbn. by rewrite app_nil_r.
Qed.
Lemma assembled_absent ps k : k ∉ (p_index <$> ps) → assembled ps k = accum_default.
Proof.
  intros Hk. unfold assembled. assert (own k ps = []) as ->; [|done].
  induction ps as [|p ps IH]; [done|]. cbn in Hk. apply not_elem_of_cons in Hk as [Hne Hk]. unfold own. cbn [List.filter].
  destruct (N.eqb_spec (p_index p) k); [done|]. by apply IH.
Qed.

(** Changing the entry of one number. *)
Lemma entry_index k f (g : N → ToolAccum) ks :
  StronglySorted N.lt ks → (k ∉ ks → g k = accum_default) →
  ∃ ks', StronglySorted N.lt ks' ∧ (∀ x, x ∈ ks' ↔ x = k ∨ x ∈ ks) ∧
    entry (KIndex k) f ((λ i, (KIndex i, g i)) <$> ks) =
    (λ i, (KIndex i, if (k =? i)%N then f (g i) else g i)) <$> ks'.
Proof.
  intros Hs Hg. induction Hs as [|j ks Hs IH Hj]; cbn [fmap list_fmap entry].
  - exists [k]. split; [repeat constructor|]. split; [intros x; rewrite list_elem_of_singleton, elem_of_nil; tauto|].
    cbn. rewrite N.eqb_refl, Hg; [done|apply not_elem_of_nil].
  - assert (Hrest : ∀ l : list N, (∀ i, i ∈ l → (k < i)%N) →
      ((λ i, (KIndex i, if (k =? i)%N then f (g i) else g i)) <$> l) = (λ i, (KIndex i, g i)) <$> l).
    { intros l Hl. apply list_fmap_ext. intros n i Hi. apply list_elem_of_lookup_2, Hl in Hi.
      destruct (N.eqb_spec k i); [lia|done]. }
    rewrite list.Forall_forall in Hj. destruct (decide (KIndex k = KIndex j)) as [[= <-]|Hne].
    + exists (k :: ks). split; [by constructor; [|apply list.Forall_forall]|].
      split; [intros x; rewrite elem_of_cons; tauto|]. cbn [fmap list_fmap]. by rewrite N.eqb_refl, Hrest.
    + assert (k ≠ j) by congruence. unfold key_lt. destruct (N.ltb_spec k j) as [Hlt|Hge].
      * exists (k :: j :: ks). split.
        { constructor; [by constructor; [|apply list.Forall_forall]|]. apply list.Forall_forall.
          intros x [->|Hx]%elem_of_cons; [done|]. specialize (Hj _ Hx). lia. }
        split; [intros x; rewrite !elem_of_cons; tauto|]. cbn [fmap list_fmap].
        rewrite N.eqb_refl, Hg.
        2: { intros [->|Hx]%elem_of_cons; [done|]. specialize (Hj _ Hx). lia. }
        f_equal. destruct (N.eqb_spec k j); [done|]. f_equal. symmetry. apply Hrest.
        intros i Hi. specialize (Hj _ Hi). lia.
      * destruct IH as (ks' & Hs' & He & ->).
        { intros Hk. apply Hg. by apply not_elem_of_cons. }
        exists (j :: ks'). split.
        { constructor; [done|]. apply list.Forall_forall. intros x [->|Hx]%He; [lia|by apply Hj]. }
        split; [intros x; rewrite !elem_of_cons, He; tauto|]. cbn [fmap list_fmap].
        by destruct (N.eqb_spec k j).
Qed.

Lemma on_part d tc p ps :
  parses tc p → tools d = by_index ps → tools (on_tool_call d tc) = by_index (ps ++ [p]).
Proof.
  intros Hp Ht. unfold on_tool_call, tool_key. rewrite (ps_index _ _ Hp). cbn [set_tools tools].
  rewrite Ht. unfold by_index.
  destruct (entry_index (p_index p) (add_fragment tc) (assembled ps) (indices ps)) as (ks & Hs & He & ->).
  - apply sort_dedup_sorted.
  - intros Hk. apply assembled_absent. unfold indices in Hk. by rewrite elem_of_sort_dedup in Hk.
  - assert (ks = indices (ps ++ [p])) as ->.
    { apply ascending_unique; [done|apply sort_dedup_sorted|]. intros x. rewrite He. unfold indices.
      rewrite !elem_of_sort_dedup, fmap_app, elem_of_app. cbn. rewrite list_elem_of_singleton. tauto. }
    apply list_fmap_ext. intros _ k _. rewrite assembled_snoc, (add_fragment_part _ _ _ Hp). done.
Qed.
Lemma on_parts d tcs ps before :
  Forall2 parses tcs ps → tools d = by_index before →
  tools (fold_left on_tool_call tcs d) = by_index (before ++ ps).
Proof.
  intros H. revert d before. induction H as [|tc p tcs ps Hp _ IH]; intros d before Ht; cbn [fold_left];
    [by rewrite app_nil_r|].
  replace (before ++ p :: ps) with ((before ++ [p]) ++ ps) by (by rewrite <-app_assoc). apply IH. by apply on_part.
Qed.

Lemma on_chunk chunk ps before st :
  carries chunk ps → tools (fst st) = by_index before →
  tools (fst (handle_chunk from_str chunk st)) = by_index (before ++ ps) ∧
  call_items (snd (handle_chunk from_str chunk st)) = call_items (snd st).
Proof.
  intros (choice & Hc & Hf & Hp) Ht. unfold handle_chunk. rewrite Hc. unfold on_choice. rewrite Hf. cbv zeta.
  set (delta := json_at choice (txt "delta")) in *.
  set (st1 := on_content delta st). assert (H1 : tools (fst st1) = by_index before ∧ call_items (snd st1) = call_items (snd st)).
  { subst st1. unfold on_content. pose proof (filtered_speech (thinking (fst st)) (default [] (as_str (json_at delta (txt "content"))))) as Hs.
    destruct (filtered _ _) as [f es]. cbn [fst snd] in *. by rewrite call_items_app, Hs, app_nil_r. }
  clearbody st1. destruct H1 as [H1 Hq1].
  set (st2 := on_reasoning delta st1). assert (H2 : tools (fst st2) = by_index before ∧ call_items (snd st2) = call_items (snd st)).
  { subst st2. unfold on_reasoning. destruct (reasoning_of delta); [done|]. cbn [push_back fst snd].
    by rewrite call_items_app, app_nil_r. }
  clearbody st2. destruct H2 as [H2 Hq2].
  assert (H3 : tools (fst (on_tool_calls delta st2)) = by_index (before ++ ps)) by by apply on_parts.
  destruct (is_object _); [|done]. split; [done|]. cbn [push_back snd on_tool_calls]. by rewrite call_items_app, app_nil_r.
Qed.

Lemma on_chunks chunks pss before st :
  Forall2 carries chunks pss → tools (fst st) = by_index before →
  let st' := fold_left (λ st c, handle_chunk from_str c st) chunks st in
  tools (fst st') = by_index (before ++ concat pss) ∧ call_items (snd st') = call_items (snd st).
Proof.
  intros H. revert st before. induction H as [|c ps chunks pss Hc _ IH]; intros st before Ht; cbn [fold_left concat].
  - by rewrite app_nil_r.
  - destruct (on_chunk _ _ _ _ Hc Ht) as [H1 H2]. rewrite app_assoc, <-H2. by apply IH.
Qed.
Lemma flushed_is_call acc i : flushed from_str acc = Some i → is_call_item i = true.
Proof. unfold flushed. destruct (acc_name acc); [|done]. repeat case_match; by intros [= <-]. Qed.
Lemma flushed_calls ts : call_items (omap (λ e : ToolKey * ToolAccum, flushed from_str (snd e)) ts) = omap (λ e, flushed from_str (snd e)) ts.
Proof.
  induction ts as [|e ts IH]; [done|]. cbn [omap list_omap]. destruct (flushed from_str (snd e)) as [i|] eqn:Hi; [|done].
  unfold call_items. cbn [List.filter]. rewrite (flushed_is_call _ _ Hi). f_equal. exact IH.
Qed.

(** Parallel calls keep apart: however a server spreads the fragments of its
    numbered calls over chunks and mixes them, the calls that come out are, in
    the order of the numbers and once each, those whose arguments are their own
    fragments joined, under the last id and name they were given; nothing is
    taken for a call before the flush. *)
Theorem parallel_calls_keep_apart chunks pss d q :
  Forall2 carries chunks pss → tools d = [] →
  let st := fold_left (λ st c, handle_chunk from_str c st) chunks (d, q) in
  call_items (snd st) = call_items q ∧
  call_items (snd (flush_tools from_str st)) =
    call_items q ++ omap (λ k, flushed from_str (assembled (concat pss) k)) (indices (concat pss)).
Proof.
  intros Hc Ht. destruct (on_chunks chunks pss [] (d, q) Hc Ht) as [H1 H2]. cbv zeta. split; [done|].
  unfold flush_tools. cbn [snd]. rewrite call_items_app, H2, H1, flushed_calls. cbn [app]. f_equal.
  unfold by_index. induction (indices (concat pss)) as [|k ks IH]; [done|]. cbn. by destruct (flushed _ _); rewrite IH.
Qed.
End calls.
End OpenAiCalls.

Module OpenAiLimit.
Import OpenAi.
Section limit.
Context (from_str : Text → result Json Text).

Definition fragments (chunk : Json) : list Json :=
  match json_nth (json_at chunk (txt "choices")) 0 with
  | Some choice => default [] (as_array (json_at (json_at choice (txt "delta")) (txt "tool_calls")))
  | None => []
  end.
(** A line that sends no fragment of a call. *)
Definition no_fragment (line : Text) : bool :=
  match Chars.strip_prefix DATA line with
  | None => true
  | Some payload => match from_str (trim payload) with
                    | Ok chunk => bool_decide (fragments chunk = [])
                    | Err _ => true
                    end
  end.

(** No call is open, and none has come out since [q]. *)
Record spent (q : list Item) (st : State) : Prop := {
  sp_tools : tools (fst st) = [];
  sp_calls : call_items (snd st) = call_items q;
}.

Lemma spent_flush_thinking q st : spent q st → spent q (flush_thinking st).
Proof.
  intros [Ht Hc]. split; [done|]. unfold flush_thinking, filter_finish. cbn. rewrite call_items_app, Hc.
  by destruct (in_thinking _), (held _); cbn; rewrite app_nil_r.
Qed.
Lemma spent_flush_tools q st : spent q st → spent q (flush_tools from_str st).
Proof. intros [Ht Hc]. unfold flush_tools. split; [done|]. cbn [snd]. by rewrite Ht, app_nil_r. Qed.
Lemma spent_push q st i : is_call_item i = false → spent q st → spent q (push_back i st).
Proof.
  intros Hi [Ht Hc]. split; [done|]. cbn [push_back snd]. rewrite call_items_app, Hc. unfold call_items at 2.
  cbn. by rewrite Hi, app_nil_r.
Qed.
Lemma spent_emit_done q st : spent q st → spent q (emit_done st).
Proof.
  intros Hs. unfold emit_done. destruct (done (fst st)); [done|]. apply spent_push; [done|].
  by apply spent_flush_thinking in Hs as [Ht Hc].
Qed.
Lemma spent_warn q reason st : spent q st → spent q (warn_for_finish_reason reason st).
Proof.
  intros [Ht Hc]. destruct st as [d q']. unfold warn_for_finish_reason. cbn [fst snd] in *.
  case_match; [done|]. cbv zeta. destruct (finish_message _ _); [|done].
  case_match; (split; [done|]); cbn [snd]; by rewrite call_items_app, app_nil_r.
Qed.
Lemma content_calls delta st :
  tools (fst (on_reasoning delta (on_content delta st))) = tools (fst st) ∧
  truncated_tools (fst (on_reasoning delta (on_content delta st))) = truncated_tools (fst st) ∧
  warned_finish_reasons (fst (on_reasoning delta (on_content delta st))) = warned_finish_reasons (fst st) ∧
  call_items (snd (on_reasoning delta (on_content delta st))) = call_items (snd st).
Proof.
  unfold on_reasoning, on_content.
  pose proof (filtered_speech (thinking (fst st)) (default [] (as_str (json_at delta (txt "content"))))) as Hs.
  destruct (filtered _ _) as [f es]. cbn [snd] in Hs. 
  destruct (reasoning_of delta); cbn [push_back fst snd set_thinking tools truncated_tools warned_finish_reasons];
    rewrite !call_items_app, Hs, ?app_nil_r; done.
Qed.
Lemma spent_finish_reason q reason st : spent q st → spent q (on_finish_reason from_str reason st).
Proof.
  intros [Ht Hc]. unfold on_finish_reason. cbv zeta. apply spent_warn.
  set (d' := if bool_decide (reason = txt "length") then _ else _). assert (spent q (d', snd st)) by (split; [subst d'; case_match; [done|exact Ht]|done]).
  case_match; [by apply spent_flush_tools|done].
Qed.
Lemma spent_chunk q chunk st : fragments chunk = [] → spent q st → spent q (handle_chunk from_str chunk st).
Proof.
  intros Hf [Ht Hc]. unfold handle_chunk, fragments in *. cbv zeta.
  set (st1 := match json_nth _ _ with Some choice => _ | None => st end).
  assert (H : spent q st1).
  { subst st1. destruct (json_nth _ _) as [choice|]; [|done]. unfold on_choice. cbv zeta.
    destruct (content_calls (json_at choice (txt "delta")) st) as (H1 & _ & _ & H2).
    set (st2 := on_tool_calls _ _). assert (spent q st2).
    { subst st2. unfold on_tool_calls. rewrite Hf. cbn [fold_left]. split; cbn [fst snd]; congruence. }
    destruct (as_str _); [by apply spent_finish_reason|done]. }
  destruct (is_object _); [by apply spent_push|done].
Qed.
Lemma spent_line q line st : no_fragment line = true → spent q st → spent q (process_line from_str line st).
Proof.
  unfold no_fragment, process_line. destruct (Chars.strip_prefix _ _) as [payload|]; [|done]. intros Hn Hs.
  destruct (bool_decide (trim payload = txt "[DONE]")); [by apply spent_emit_done, spent_flush_tools|].
  destruct (from_str _); [|by apply spent_push]. apply bool_decide_eq_true in Hn. by apply spent_chunk.
Qed.
Lemma spent_lines q lines st :
  forallb no_fragment lines = true → spent q st → spent q (fold_left (λ st l, process_line from_str l st) lines st).
Proof.
  revert st. induction lines as [|l lines IH]; intros st; [done|]. cbn [forallb fold_left].
  intros [Hl Hls]%andb_true_iff Hs. by apply IH, spent_line.
Qed.
Lemma spent_finish q st : spent q st → spent q (finish from_str st).
Proof.
  intros Hs%spent_flush_thinking. unfold finish. cbv zeta. set (st1 := if output_limited _ then _ else _).
  assert (H : spent q st1).
  { subst st1. destruct (output_limited _); [by destruct Hs|by apply spent_flush_tools]. }
  destruct (done _); [done|]. destruct (saw_finish_reason _); [by apply spent_emit_done|].
  apply spent_push; [done|]. by destruct H.
Qed.

Definition LENGTH : Text := txt "length".

(** Calls cut off by the output limit never run: after a chunk whose finish
    reason is the limit no call comes out, whatever follows to the end of the
    body, unless the server sends new fragments; and the calls that were open,
    this chunk's included, are named in the event. *)
Theorem cut_calls_never_run d q chunk choice lines :
  json_nth (json_at chunk (txt "choices")) 0 = Some choice →
  as_str (json_at choice (txt "finish_reason")) = Some LENGTH →
  forallb no_fragment lines = true →
  let st := handle_chunk from_str chunk (d, q) in
  call_items (snd (finish from_str (fold_left (λ st l, process_line from_str l st) lines st))) = call_items q ∧
  (LENGTH ∉ warned_finish_reasons d → ∃ message,
     Ok (OutputLimit message (truncated_tools d ++
       omap (λ e, acc_name (snd e)) (tools (fold_left on_tool_call (fragments chunk)
         (fst (on_reasoning (json_at choice (txt "delta")) (on_content (json_at choice (txt "delta")) (d, q))))))))
     ∈ snd st).
Proof.
  intros Hc Hl Hls. cbv zeta. unfold handle_chunk, fragments. rewrite Hc. unfold on_choice. rewrite Hl. cbv zeta.
  set (delta := json_at choice (txt "delta")).
  destruct (content_calls delta (d, q)) as (H1 & H2 & H3 & H4).
  set (st0 := on_reasoning delta (on_content delta (d, q))) in *. clearbody st0. cbn [fst snd] in H1, H2, H3, H4.
  unfold on_tool_calls. set (tcs := default [] _).
  assert (Hkeep : ∀ tcs d0, truncated_tools (fold_left on_tool_call tcs d0) = truncated_tools d0 ∧
            warned_finish_reasons (fold_left on_tool_call tcs d0) = warned_finish_reasons d0).
  { clear. induction tcs as [|tc tcs IH]; intros d0; [done|]. cbn [fold_left].
    destruct (IH (on_tool_call d0 tc)) as [-> ->]. unfold on_tool_call, tool_key. by repeat case_match; simplify_eq. }
  destruct (Hkeep tcs (fst st0)) as [Hk1 Hk2]. rewrite H2 in Hk1. rewrite H3 in Hk2. clear Hkeep.
  set (d1 := fold_left on_tool_call tcs (fst st0)) in *. clearbody d1. unfold on_finish_reason. cbn [fst snd]. cbv zeta.
  rewrite (bool_decide_eq_true_2 (LENGTH = txt "length")) by done.
  rewrite (bool_decide_eq_false_2 (LENGTH = txt "tool_calls")) by (vm_compute; congruence).
  set (d2 := cut_by_length _).
  assert (Hd2 : tools d2 = [] ∧ truncated_tools d2 = truncated_tools d ++ omap (λ e, acc_name (snd e)) (tools d1) ∧
                warned_finish_reasons d2 = warned_finish_reasons d).
  { subst d2. cbn. by rewrite Hk1, Hk2. }
  clearbody d2. destruct Hd2 as (Hd2 & Hn2 & Hw2). split.
  - apply spent_finish, spent_lines; [done|].
    assert (Hs : spent q (warn_for_finish_reason LENGTH (d2, snd st0))) by by apply spent_warn.
    destruct (is_object _); [by apply spent_push|done].
  - intros Hw. unfold warn_for_finish_reason. rewrite bool_decide_eq_false_2 by (by rewrite Hw2). cbv zeta.
    assert (∃ message, finish_message LENGTH (truncated_tools d2) = Some message) as [message Hmsg].
    { unfold finish_message. rewrite (bool_decide_eq_false_2 (_ ∨ _)) by (vm_compute; intros [|]; congruence).
      rewrite (bool_decide_eq_false_2 (LENGTH = txt "function_call")) by (vm_compute; congruence).
      rewrite bool_decide_eq_true_2 by done. by eexists. }
    exists message. cbn [set_warned truncated_tools]. rewrite Hmsg, (bool_decide_eq_true_2 (LENGTH = txt "length")), Hn2 by done.
    destruct (is_object _); cbn [push_back snd]; rewrite ?elem_of_app, list_elem_of_singleton; tauto.
Qed.
End limit.
End OpenAiLimit.

(** ** Sample streams *)

Definition text_chunk (s : string) : Json :=
  json_object [("choices", JArray [json_object [("delta", json_object [("content", json_string s)])]])]%string.
Definition call_part (index : N) (id name args : string) : Json :=
  json_object [("index", JNumber (show_N index)); ("id", json_string id);
               ("function", json_object [("name", json_string name); ("arguments", json_string args)])]%string.
Definition call_chunk (parts : list Json) : Json :=
  json_object [("choices", JArray [json_object [("delta", json_object [("tool_calls", JArray parts)])]])]%string.
Definition ending_chunk (reason : string) : Json :=
  json_object [("choices", JArray [json_object [("delta", JObject []); ("finish_reason", json_string reason)]])]%string.
(** A reader that knows two texts. *)
Definition sample_reader (t : Text) : result Json Text :=
  if bool_decide (t = txt "A") then Ok (text_chunk "hi")
  else if bool_decide (t = txt "{}") then Ok (JObject [])
  else Err (txt "unknown").

Lemma chunks_are_invisible_witness :
  OpenAi.into_event_stream sample_reader (Lines.Chunk <$> [txt "dat"; txt "a: A"; [LF]; txt "data: [DONE]"]) =
    [Ok (TextDelta (txt "hi")); Ok EvDone] ∧
  Anthropic.into_event_stream sample_reader (Lines.Chunk <$> [txt "dat"; txt "a: A"; [LF]; txt "data: [DONE]"]) =
    Anthropic.into_event_stream sample_reader (Lines.Chunk <$> [txt "data: A" ++ [LF] ++ txt "data: [DONE]"]).
Proof.
  destruct (chunks_are_invisible sample_reader [txt "dat"; txt "a: A"; [LF]; txt "data: [DONE]"]
    [txt "data: A" ++ [LF] ++ txt "data: [DONE]"] eq_refl) as [H1 H2].
  split; [rewrite H1; vm_compute; reflexivity|exact H2].
Defined.

Definition sample_chunks : list Json :=
  [call_chunk [call_part 1 "b" "list" ""; call_part 0 "a" "read" "{"];
   call_chunk [call_part 0 "" "" "}"]].
Definition sample_parts : list (list OpenAiCalls.Part) :=
  [[OpenAiCalls.mkPart 1 (Some (txt "b")) (Some (txt "list")) [];
    OpenAiCalls.mkPart 0 (Some (txt "a")) (Some (txt "read")) (txt "{")];
   [OpenAiCalls.mkPart 0 (Some []) (Some []) (txt "}")]].
Lemma sample_carried : Forall2 OpenAiCalls.carries sample_chunks sample_parts.
Proof.
  repeat constructor; (eexists; split; [vm_compute; reflexivity|split; [vm_compute; reflexivity|]]);
    vm_compute; repeat constructor.
Qed.
Lemma parallel_calls_keep_apart_witness :
  call_items (snd (OpenAi.flush_tools sample_reader
    (fold_left (λ st c, OpenAi.handle_chunk sample_reader c st) sample_chunks (OpenAi.decoder_default, [])))) =
  [Ok (EvToolCall (mkStreamCall (txt "a") (txt "read") (JObject []) None));
   Ok (EvToolCall (mkStreamCall (txt "b") (txt "list") (JObject []) None))].
Proof.
  destruct (OpenAiCalls.parallel_calls_keep_apart sample_reader sample_chunks sample_parts
    OpenAi.decoder_default [] sample_carried eq_refl) as [_ H].
  rewrite H. vm_compute. reflexivity.
Defined.

Lemma cut_calls_never_run_witness :
  call_items (snd (OpenAi.finish sample_reader (fold_left (λ st l, OpenAi.process_line sample_reader l st)
    [txt "data: [DONE]"] (OpenAi.handle_chunk sample_reader (ending_chunk "length")
      (fold_left (λ st c, OpenAi.handle_chunk sample_reader c st) sample_chunks (OpenAi.decoder_default, [])))))) = [].
Proof.
  destruct (fold_left (λ st c, OpenAi.handle_chunk sample_reader c st) sample_chunks (OpenAi.decoder_default, []))
    as [d q] eqn:He.
  assert (Hq : q = []) by (apply (f_equal snd) in He; vm_compute in He; by rewrite <-He).
  pose proof (OpenAiLimit.cut_calls_never_run sample_reader d q (ending_chunk "length")
    (json_object [("delta", JObject []); ("finish_reason", json_string "length")]%string)
    [txt "data: [DONE]"] eq_refl eq_refl eq_refl) as [H _].
  rewrite H, Hq. reflexivity.
Defined.
