(* ===== verification/Files.v ===== *)
(** * File writes (crates/localpilot-store/src/atomic.rs)

    Whole-file replacement through a temporary file and line appends that seal a
    torn tail, over a file map.  The operating system may refuse each step and a
    write may reach the disk in part only; [Stopped] in a trace is where the
    process may die.  A path is a directory and a file name. *)

From Stdlib Require Import String.
From stdpp Require Import base gmap list numbers.
From S2P Require Import Prelude Ownership Monitor Utf8 Chars.
From stdpp Require Import list.
#[local] Open Scope N_scope.
#[local] Open Scope list_scope.

Section files.
Context {D : Type} `{Countable D}.
Abbreviation Path := (D * Text)%type.
Abbreviation Files := (gmap Path Bytes).

(** [StoreError::io] names the path; the text of the path is left out. *)
Definition io_error {A} : result A StoreError := Err (Io "").

(** ** [atomic_write_if] *)

Definition TEMP_ATTEMPTS : nat := 100.
Definition RENAME_ATTEMPTS : nat := 40.

Inductive RenameAnswer := Renamed | Transient | Refused.

(** How the system answers one whole-file write: the directory, the creation of
    the temporary file (which also fails when the name is taken), the bytes that
    reach it, the flush, the replacements and the removal of the temporary. *)
Record WriteIo := mkWriteIo {
  wi_mkdir : bool;
  wi_create : nat → bool;
  wi_cut : option nat;
  wi_sync : bool;
  wi_rename : nat → RenameAnswer;
  wi_unlink : bool;
}.

(** [.<file>.<pid>.<n>.tmp] beside the target. *)
Definition temp_name (path : Path) (pid n : N) : Path :=
  (path.1, txt "." ++ path.2 ++ txt "." ++ show_N pid ++ txt "." ++ show_N n ++ txt ".tmp").

(** [create_temp_sibling]; the counter is the process's. *)
Fixpoint create_temp (tries : nat) (fs : Files) (io : WriteIo) (path : Path) (pid counter : N)
    : N * result Path StoreError :=
  match tries with
  | O => (counter, io_error)
  | S tries =>
      let tmp := temp_name path pid counter in
      let counter := u64_add counter 1 in
      match fs !! tmp with
      | Some _ => create_temp tries fs io path pid counter
      | None => if wi_create io tries then (counter, Ok tmp) else (counter, io_error)
      end
  end.

(** [rename_retrying]: the answers from [attempt] on, [false] when publication
    was withdrawn. *)
Fixpoint rename_retrying (fuel attempt : nat) (io : WriteIo) (may_publish : nat → bool)
    : result bool StoreError :=
  match fuel with
  | O => io_error
  | S fuel =>
      if negb (may_publish attempt) then Ok false
      else match wi_rename io attempt with
      | Renamed => Ok true
      | Transient =>
          if (attempt <? RENAME_ATTEMPTS)%nat
          then rename_retrying fuel (S attempt) io may_publish
          else io_error
      | Refused => io_error
      end
  end.

(** The maps the disk goes through, the last one first, with the counter and the
    answer. *)
Definition atomic_write_if (fs : Files) (io : WriteIo) (path : Path) (bytes : Bytes)
    (may_publish : nat → bool) (pid counter : N) : list Files * N * result bool StoreError :=
  if negb (wi_mkdir io) then ([fs], counter, io_error)
  else
    match create_temp TEMP_ATTEMPTS fs io path pid counter with
    | (counter, Err e) => ([fs], counter, Err e)
    | (counter, Ok tmp) =>
        let created := <[tmp := []]> fs in
        let written := match wi_cut io with Some n => take n bytes | None => bytes end in
        let filled := <[tmp := written]> fs in
        let cleaned := if wi_unlink io then delete tmp filled else filled in
        if bool_decide (wi_cut io ≠ None) || negb (wi_sync io)
        then ([cleaned; filled; created; fs], counter, io_error)
        else
          match rename_retrying RENAME_ATTEMPTS 1 io may_publish with
          | Ok true => ([delete tmp (<[path := written]> fs); filled; created; fs], counter, Ok true)
          | other => ([cleaned; filled; created; fs], counter, other)
          end
    end.

Definition atomic_write (fs : Files) (io : WriteIo) (path : Path) (bytes : Bytes) (pid counter : N)
    : list Files * N * result unit StoreError :=
  let '(trace, counter, r) := atomic_write_if fs io path bytes (λ _, true) pid counter in
  (trace, counter, match r with Ok _ => Ok tt | Err e => Err e end).

(** ** [append] *)

Record AppendIo := mkAppendIo {
  ai_mkdir : bool;
  ai_stat : bool;              (* the length of the file can be read *)
  ai_peek : bool;              (* its last byte can be read *)
  ai_open : bool;
  ai_cut : option nat;         (* the write stops after this many bytes *)
  ai_sync : bool;
}.
Definition append_healthy : AppendIo := mkAppendIo true true true true None true.

Definition ends_with_newline (c : Bytes) : bool := bool_decide (list.last c = Some LF).

(** [seal_torn_tail]. *)
Definition seal_needed (fs : Files) (io : AppendIo) (path : Path) : result bool StoreError :=
  match (if ai_stat io then fs !! path else None) with
  | Some (b :: c) => if ai_peek io then Ok (negb (ends_with_newline (b :: c))) else io_error
  | _ => Ok false
  end.

Definition append_buffer (seal : bool) (line : Text) : Text :=
  (if seal then [LF] else []) ++ line ++ [LF].

Definition append (fs : Files) (io : AppendIo) (path : Path) (line : Text) (durable : bool)
    : Files * result unit StoreError :=
  if negb (ai_mkdir io) then (fs, io_error)
  else
    let! seal := seal_needed fs io path or fs in
    let buf := encode (append_buffer seal line) in
    if negb (ai_open io) then (fs, io_error)
    else
      let old := default [] (fs !! path) in
      match ai_cut io with
      | Some n => (<[path := old ++ take n buf]> fs, io_error)
      | None =>
          (<[path := old ++ buf]> fs,
           if durable && negb (ai_sync io) then io_error else Ok tt)
      end.

Definition append_line (fs : Files) (io : AppendIo) (path : Path) (line : Text)
    : Files * result unit StoreError := append fs io path line false.
Definition append_line_durable (fs : Files) (io : AppendIo) (path : Path) (line : Text)
    : Files * result unit StoreError := append fs io path line true.

(** [read_to_string_opt], [read_bytes_opt], [remove_file_if_present]. *)
Definition read_to_string_opt (fs : Files) (can_read : bool) (path : Path)
    : result (option Text) StoreError :=
  match fs !! path with
  | None => Ok None
  | Some b =>
      if negb can_read then io_error
      else match decode b with Some s => Ok (Some s) | None => io_error end
  end.
Definition read_bytes_opt (fs : Files) (can_read : bool) (path : Path)
    : result (option Bytes) StoreError :=
  match fs !! path with
  | None => Ok None
  | Some b => if can_read then Ok (Some b) else io_error
  end.
Definition remove_file_if_present (fs : Files) (can_remove : bool) (path : Path)
    : Files * result unit StoreError :=
  match fs !! path with
  | None => (fs, Ok tt)
  | Some _ => if can_remove then (delete path fs, Ok tt) else (fs, io_error)
  end.
End files.

(** ** Whole-file replacement and line appends: what a crash can leave *)

#[local] Open Scope N_scope.

(** ** Lines *)

(** No line feed and no carriage return, as in every line of compact JSON. *)
Definition one_line_text (s : Text) : Prop := (LF ∉ s) ∧ (CR ∉ s).

Lemma lines_from_unbroken cur p :
  LF ∉ p → lines_from cur p = match cur ++ p with [] => [] | l => [l] end.
Proof.
  revert cur. induction p as [|c p IH]; intros cur Hp; cbn [lines_from].
  - rewrite app_nil_r. by destruct cur.
  - apply not_elem_of_cons in Hp as [Hc Hp]. destruct (N.eqb_spec c LF) as [->|]; [done|].
    rewrite IH by done. by rewrite <-app_assoc.
Qed.

Lemma lines_from_app cur p t :
  LF ∉ p → lines_from cur (p ++ t) = lines_from (cur ++ p) t.
Proof.
  revert cur. induction p as [|c p IH]; intros cur Hp; cbn [lines_from app]; [by rewrite app_nil_r|].
  apply not_elem_of_cons in Hp as [Hc Hp]. destruct (N.eqb_spec c LF) as [->|]; [done|].
  rewrite IH by done. by rewrite <-app_assoc.
Qed.

Lemma strip_cr_id l : list.last l ≠ Some CR → strip_cr l = l.
Proof.
  unfold strip_cr. destruct (list.last l) as [c|]; [|done]. intros Hc.
  destruct (N.eqb_spec c CR) as [->|]; done.
Qed.

Lemma lines_one l : l ≠ [] → LF ∉ l → lines l = [l].
Proof. intros Hl Hn. unfold lines. rewrite lines_from_unbroken by done. by destruct l. Qed.

Lemma lines_ended l t :
  LF ∉ l → list.last l ≠ Some CR → lines (l ++ LF :: t) = l :: lines t.
Proof.
  intros Hl Hc. unfold lines. rewrite lines_from_app by done. cbn. by rewrite strip_cr_id.
Qed.

(** What stands before the point where a line was started is read as before. *)
Definition sealed (s : Text) : Prop := s = [] ∨ list.last s = Some LF.

Lemma lines_from_sealed cur s t :
  list.last s = Some LF → lines_from cur (s ++ t) = lines_from cur s ++ lines t.
Proof.
  revert cur. induction s as [|c s IH]; intros cur Hl; [done|]. cbn [lines_from app].
  destruct s as [|d s].
  - cbn in Hl. injection Hl as ->. cbn. by destruct t.
  - change (list.last (c :: d :: s)) with (list.last (d :: s)) in Hl.
    destruct (c =? LF); [|by apply IH]. cbn [app]. f_equal. by apply IH.
Qed.

Lemma lines_sealed s t : sealed s → lines (s ++ t) = lines s ++ lines t.
Proof. intros [->|Hs]; [done|]. by apply lines_from_sealed. Qed.

Lemma lines_from_torn cur s t :
  s ≠ [] → list.last s ≠ Some LF → list.last s ≠ Some CR →
  lines_from cur (s ++ LF :: t) = lines_from cur s ++ lines t.
Proof.
  revert cur. induction s as [|c s IH]; intros cur Hne Hl Hc; [done|]. cbn [lines_from app].
  destruct s as [|d s].
  - cbn in Hl, Hc. destruct (N.eqb_spec c LF) as [->|]; [done|]. cbn.
    rewrite strip_cr_id by (rewrite last_snoc; congruence). by destruct (cur ++ [c]) eqn:E; [destruct cur|].
  - change (list.last (c :: d :: s)) with (list.last (d :: s)) in Hl, Hc.
    destruct (c =? LF); [|by apply IH]. cbn [app]. f_equal. by apply IH.
Qed.

(** ** One append *)

(** The part of the line that reaches the file when the first [k] characters of
    the buffer do. *)
Definition piece (seal : bool) (line : Text) (k : nat) : list Text :=
  match take (if seal then k - 1 else k) line with [] => [] | p => [p] end.

Lemma last_take_CR (line : Text) k : CR ∉ line → list.last (take k line) ≠ Some CR.
Proof.
  intros Hn Hl. apply last_Some_elem_of in Hl. apply Hn. by apply elem_of_take in Hl as (? & ?%list_elem_of_lookup_2 & _).
Qed.

#[export] Instance sealed_dec s : Decision (sealed s).
Proof. unfold sealed. apply _. Defined.

(** The first characters of a terminated line, alone. *)
Lemma lines_cut (line : Text) j :
  line ≠ [] → one_line_text line →
  lines (take j (line ++ [LF])) = match take j line with [] => [] | p => [p] end.
Proof.
  intros Hne [Hlf Hcr]. rewrite take_app. destruct (decide (j <= length line)%nat) as [Hj|Hj].
  - replace (j - length line)%nat with 0%nat by lia. cbn [take]. rewrite app_nil_r.
    destruct (take j line) as [|c p] eqn:Ht; [done|]. rewrite <-Ht. rewrite lines_one; [by rewrite Ht|by rewrite Ht|].
    intros Hin. apply Hlf. by apply elem_of_take in Hin as (? & ?%list_elem_of_lookup_2 & _).
  - replace (j - length line)%nat with (S (j - length line - 1)) by lia.
    rewrite (take_ge line) by lia. cbn [take]. rewrite take_nil, lines_ended; [by destruct line|done|].
    rewrite <-(take_ge line (length line)) by lia. by apply last_take_CR.
Qed.

(** A torn or whole append leaves the lines there were and adds its own piece. *)
Lemma append_lines s line k :
  line ≠ [] → one_line_text line → CR ∉ s →
  let seal := negb (bool_decide (sealed s)) in
  lines (s ++ take k (append_buffer seal line)) = lines s ++ piece seal line k.
Proof.
  intros Hne Hl Hs. cbn zeta. case_bool_decide as Hseal; cbn [negb].
  - rewrite lines_sealed by done. f_equal. by apply lines_cut.
  - unfold sealed in Hseal. destruct k as [|k]; cbn.
    { by rewrite !app_nil_r. }
    unfold lines. rewrite lines_from_torn; [|tauto|tauto|].
    + f_equal. rewrite lines_cut by done. unfold piece. by rewrite Nat.sub_succ, Nat.sub_0_r.
    + intros Hc%last_Some_elem_of. done.
Qed.

(** ** Replacement *)

Section files.
Context {D : Type} `{Countable D}.
Abbreviation Path := (D * Text)%type.
Abbreviation Files := (gmap Path Bytes).

Lemma temp_name_ne (path : Path) pid n : temp_name path pid n ≠ path.
Proof.
  intros He. apply (f_equal (λ p, length p.2)) in He. unfold temp_name in He. cbn in He.
  rewrite !length_app in He. cbn in He. lia.
Qed.

(** The temporary file is new and beside its target. *)
Lemma create_temp_new (tries : nat) (fs : Files) (io : WriteIo) (path : Path) (pid counter counter' : N)
    (tmp : Path) :
  create_temp tries fs io path pid counter = (counter', Ok tmp) →
  fs !! tmp = None ∧ ∃ n, tmp = temp_name path pid n.
Proof.
  revert counter. induction tries as [|tries IH]; intros counter; cbn; [done|].
  destruct (fs !! temp_name path pid counter) eqn:Hf; [apply IH|].
  destruct (wi_create io tries); intros [= _ <-]. split; [done|by eexists].
Qed.

(** An answer [Ok] comes from an attempt within the bound that the predicate let
    through. *)
Lemma rename_published (fuel attempt : nat) (io : WriteIo) (may : nat → bool) :
  rename_retrying fuel attempt io may = Ok true →
  ∃ k, (attempt <= k < attempt + fuel)%nat ∧ may k = true ∧ wi_rename io k = Renamed.
Proof.
  revert attempt. induction fuel as [|fuel IH]; intros attempt; [done|]. cbn [rename_retrying].
  destruct (may attempt) eqn:Hm; cbn [negb]; [|done].
  destruct (wi_rename io attempt) eqn:Hr; [|destruct (attempt <? RENAME_ATTEMPTS)%nat|]; intros He; [|apply IH in He|done..].
  - exists attempt. split_and!; [lia|lia|done..].
  - destruct He as (k & Hk & ?). exists k. split; [lia|done].
Qed.

(** Every answer is reached within the forty attempts: more fuel changes nothing. *)
Lemma rename_fuel (fuel attempt : nat) (io : WriteIo) (may : nat → bool) :
  (RENAME_ATTEMPTS < attempt + fuel)%nat → (attempt <= RENAME_ATTEMPTS)%nat →
  rename_retrying (S fuel) attempt io may = rename_retrying fuel attempt io may.
Proof.
  revert attempt. induction fuel as [|fuel IH]; intros attempt Hf Ha; [lia|].
  change (rename_retrying (S (S fuel)) attempt io may) with
    (if negb (may attempt) then Ok false
     else match wi_rename io attempt with
     | Renamed => Ok true
     | Transient => if (attempt <? RENAME_ATTEMPTS)%nat
                    then rename_retrying (S fuel) (S attempt) io may else io_error
     | Refused => io_error end : result bool StoreError).
  cbn [rename_retrying]. destruct (may attempt), (wi_rename io attempt); try done.
  destruct (Nat.ltb_spec attempt RENAME_ATTEMPTS); [|done]. apply IH; lia.
Qed.

(** A rename that is never withdrawn does not report that it was. *)
Lemma rename_always (fuel attempt : nat) (io : WriteIo) : rename_retrying fuel attempt io (λ _, true) ≠ Ok false.
Proof.
  revert attempt. induction fuel as [|fuel IH]; intros attempt; [done|]. cbn [rename_retrying negb].
  destruct (wi_rename io attempt); [done| |done]. by destruct (_ <? _)%nat.
Qed.

(** The target holds its old or the whole new content; no other file that existed
    is touched. *)
Definition intact (fs : Files) (path : Path) (bytes : Bytes) (st : Files) : Prop :=
  (st !! path = fs !! path ∨ st !! path = Some bytes) ∧
  ∀ q, q ≠ path → is_Some (fs !! q) → st !! q = fs !! q.

Lemma intact_refl fs path bytes : intact fs path bytes fs.
Proof. split; auto. Qed.
Lemma intact_temp fs path bytes tmp b :
  fs !! tmp = None → tmp ≠ path → intact fs path bytes (<[tmp := b]> fs).
Proof.
  intros Hnew Hne. split; [left; by rewrite lookup_insert_ne|]. intros q _ [x Hx].
  rewrite lookup_insert_ne; [done|]. intros ->. congruence.
Qed.

Lemma replacement_outcome (fs : Files) (io : WriteIo) (path : Path) (bytes : Bytes)
    (may : nat → bool) (pid counter : N) :
  let '(trace, counter', r) := atomic_write_if fs io path bytes may pid counter in
  Forall (intact fs path bytes) trace ∧
  ∃ final before, trace = final :: before ∧
    match r with
    | Ok true => final = <[path := bytes]> fs ∧
        ∃ k, (1 <= k <= RENAME_ATTEMPTS)%nat ∧ may k = true ∧ wi_rename io k = Renamed
    | _ => final !! path = fs !! path ∧ (wi_unlink io = true → final = fs)
    end.
Proof.
  unfold atomic_write_if. destruct (wi_mkdir io); cbn [negb].
  2: { split; [by repeat constructor|]. by exists fs, []. }
  destruct (create_temp _ fs io path pid counter) as [counter' [tmp|e]] eqn:Ht.
  2: { split; [by repeat constructor|]. by exists fs, []. }
  apply create_temp_new in Ht as (Hnew & n & ->). set (tmp := temp_name path pid n) in *.
  assert (Hne : tmp ≠ path) by apply temp_name_ne.
  set (written := match wi_cut io with Some k => take k bytes | None => bytes end).
  pose proof (intact_temp fs path bytes tmp) as Hst. pose proof (intact_refl fs path bytes) as Hfs.
  assert (Hback : delete tmp (<[tmp := written]> fs) = fs) by (by rewrite delete_insert_id).
  set (cleaned := if wi_unlink io then delete tmp (<[tmp := written]> fs) else <[tmp := written]> fs).
  assert (Hclean : cleaned !! path = fs !! path ∧ (wi_unlink io = true → cleaned = fs)).
  { subst cleaned. destruct (wi_unlink io); [by rewrite Hback|]. by rewrite lookup_insert_ne. }
  assert (Htrace : Forall (intact fs path bytes)
      [cleaned; <[tmp := written]> fs; <[tmp := []]> fs; fs]).
  { subst cleaned. destruct (wi_unlink io); rewrite ?Hback; auto. }
  destruct (bool_decide (wi_cut io ≠ None) || negb (wi_sync io)) eqn:Hw.
  { split; [done|]. by exists cleaned, [<[tmp := written]> fs; <[tmp := []]> fs; fs]. }
  destruct (rename_retrying RENAME_ATTEMPTS 1 io may) as [[|]|e] eqn:Hr.
  2,3: split; [done|]; by exists cleaned, [<[tmp := written]> fs; <[tmp := []]> fs; fs].
  apply orb_false_iff in Hw as [Hcut _]. apply bool_decide_eq_false in Hcut.
  assert (Hall : written = bytes) by (subst written; destruct (wi_cut io); [by destruct Hcut|done]).
  rewrite Hall in *.
  assert (Hfin : delete tmp (<[path := bytes]> fs) = <[path := bytes]> fs).
  { apply delete_id. by rewrite lookup_insert_ne. }
  rewrite Hfin. split.
  - constructor; [|by inversion_clear Htrace]. split; [right; by rewrite lookup_insert_eq|].
    intros q Hq _. by rewrite lookup_insert_ne.
  - eexists _, _. split; [done|]. split; [done|]. apply rename_published in Hr as (k & Hk & ?).
    exists k. split; [|done]. lia.
Qed.
Lemma atomic_write_outcome (fs : Files) (io : WriteIo) (path : Path) (bytes : Bytes) (pid counter : N) :
  let '(trace, _, r) := atomic_write fs io path bytes pid counter in
  Forall (intact fs path bytes) trace ∧
  ∃ final before, trace = final :: before ∧
    match r with
    | Ok _ => final = <[path := bytes]> fs
    | Err _ => final !! path = fs !! path ∧ (wi_unlink io = true → final = fs)
    end.
Proof.
  pose proof (replacement_outcome fs io path bytes (λ _, true) pid counter) as Ho. unfold atomic_write, atomic_write_if in *.
  destruct (negb (wi_mkdir io)) eqn:Hm; cbn [negb] in Ho |- *; [done|].
  destruct (create_temp _ fs io path pid counter) as [c [tmp|e]]; [|done].
  destruct (_ || _); [done|]. pose proof (rename_always RENAME_ATTEMPTS 1 io) as Ha.
  destruct (rename_retrying _ _ _ _) as [[|]|e]; [|done|done].
  destruct Ho as [Ht (final & before & He & Hf & _)]. split; [done|]. by exists final, before.
Qed.

(** Replacing a file is all or nothing, wherever the process dies.  In every
    state the disk goes through, the target holds what it held before or the
    whole new content, and no other file that existed is touched.  At the end:
    a reported publication has put exactly the new content there and left no
    temporary file, and it was permitted at the attempt that made it; an error
    or a withdrawn publication leaves the target as it was, and everything as
    it was once the temporary file could be removed. *)
Theorem replacement_all_or_nothing (fs : Files) (io : WriteIo) (path : Path) (bytes : Bytes)
    (may : nat → bool) (pid counter : N) :
  let '(trace, counter', r) := atomic_write_if fs io path bytes may pid counter in
  Forall (intact fs path bytes) trace ∧
  ∃ final before, trace = final :: before ∧
    match r with
    | Ok true => final = <[path := bytes]> fs ∧
        ∃ k, (1 <= k <= RENAME_ATTEMPTS)%nat ∧ may k = true ∧ wi_rename io k = Renamed
    | _ => final !! path = fs !! path ∧ (wi_unlink io = true → final = fs)
    end.
Proof. apply replacement_outcome. Qed.
End files.
