(* ===== verification/EventLog.v ===== *)
(** * The session log (crates/localpilot-store/src/events.rs; the backends, the
    transcripts and the event log of lib.rs)

    A store keeps one file map, on disk or in memory.  An event is written as one
    line of compact JSON, redacted, and read back line by line: a damaged line is
    skipped and counted, an older record is migrated, a newer one is refused.
    [serde_json]'s reader and printer, the derived (de)serialisers, the redaction
    and the text of a UUID are parameters. *)

From Stdlib Require Import String.
From stdpp Require Import base gmap list numbers.
From S2P Require Import Prelude Monitor Utf8 Chars Message Json Ownership Files.
#[local] Open Scope N_scope.
#[local] Open Scope list_scope.

Abbreviation EventId := N.

(** ** events.rs: data *)

Definition SESSION_EVENT_FORMAT_VERSION : N := 9.

Record MemoryUsed := mkMemoryUsed { mu_id : Text; mu_score : Z; mu_layer : Text }.
Inductive OpenReason := OpenNew | Resumed | Forked.
Inductive MessageOrigin :=
  | UserInput | FromAssistant | FromToolResult | FromSystem | Synthetic (why : Text) | FromShell.
Record BinaryMaterial := mkBinary { bm_bytes : N; bm_sha256 : Text }.
Record BinaryChange := mkBinaryChange {
  bc_path : Text;
  bc_before : option BinaryMaterial;
  bc_after : option BinaryMaterial;
}.

Inductive SessionEventKind :=
  | SessionOpened (reason : OpenReason)
  | SessionClosed
  | EvMessage (message : Message) (origin : MessageOrigin)
  | TurnStarted (model : Text)
  | TurnEnded (stop : Text) (detail : option Text)
  | UsageReported (input_tokens output_tokens cache_creation cache_read : N)
  | PermissionDecided (tool decision detail : Text)
  | ToolStarted (id name : Text)
  | ToolFinished (id name : Text) (is_error : bool) (outcome : option ToolOutcome)
  | RecoveryDiagnostic (kind health : Text)
  | QuotaPaused (reset : Text)
  | QuotaResumed
  | Compacted (summary : StructuredSummary)
  | CompactionAttempt (requested_mode used_mode state : Text)
      (dropped_exchanges kept_messages dropped_messages digest_estimate_tokens : N)
      (fallback_reason : option Text) (truncated_tool_results : N)
  | StepStarted (number : N) (description : Text)
  | WorkUnitInspected (ignored_generated : list Text) (binary_changes : list BinaryChange)
      (binary_bytes : N) (blocked : option Text)
  | StepCompleted (number : N) (commit : option Text) (attempts : N)
  | BranchClosed (summary : StructuredSummary)
  | BranchForked (from : EventId)
  | Cancelled
  | CheckRan (name cadence command_digest status detail : Text)
  | ToolVerified (id verdict : Text)
  | MemoriesUsed (memories : list MemoryUsed)
  | ToolInputValid (tool provider model : Text)
  | ToolInputInvalid (tool provider model class : Text) (issue_paths : list Text)
      (before_type : Text)
  | ToolInputRetryMessageSent (tool provider model : Text)
  | ToolInputRepaired (tool provider model class : Text) (rules : list Text)
  | ToolRepairRejectedHighRisk (tool provider model risk : Text)
  | ToolResolution (need : Text) (chosen : option Text) (score : N) (trigger : Text)
  | DriverIntervention (action detail : Text) (activity : option Text) (client : Text)
  | SoftInterruptInjected (point source : Text).

Record SessionEvent := mkEvent {
  ev_v : N;                      (* u32 *)
  ev_id : EventId;
  ev_parent : option EventId;
  ev_at : N;                     (* u64 *)
  ev_kind : SessionEventKind;
}.

Definition transcript_from_events (events : list SessionEvent) : list Message :=
  omap (λ e, match ev_kind e with EvMessage m _ => Some m | _ => None end) events.

Definition origin_for (m : Message) : MessageOrigin :=
  match md_synthetic (metadata m) with
  | Some why => Synthetic why
  | None =>
      match role m with
      | RUser => UserInput
      | RAssistant => FromAssistant
      | RTool => FromToolResult
      | RSystem => FromSystem
      | RUserShell => FromShell
      end
  end.

(** ** [migrate] *)

Definition V_KEY : Text := txt "v".

(** Every step is additive: it stamps the next version on an object. *)
Definition stamp (version : N) (v : Json) : Json :=
  match v with
  | JObject m => JObject (map_insert V_KEY (JNumber (show_N version)) m)
  | _ => v
  end.

Fixpoint migrate_loop (fuel : nat) (value : Json) (version : N) : result Json StoreError :=
  match fuel with
  | O => Ok value
  | S fuel =>
      if version <? SESSION_EVENT_FORMAT_VERSION then
        if version <=? 8 then migrate_loop fuel (stamp (version + 1) value) (version + 1)
        else Err (UnsupportedFormat version SESSION_EVENT_FORMAT_VERSION)
      else Ok value
  end.
(** One turn of the loop for each version left. *)
Definition migrate (value : Json) (from_version : N) : result Json StoreError :=
  migrate_loop (S (N.to_nat SESSION_EVENT_FORMAT_VERSION)) value from_version.

(** ** The parameters *)

Class Codecs := {
  from_str : Text → option Json;
  event_to_string : SessionEvent → Text;
  event_from_value : Json → option SessionEvent;
  message_to_string : Message → Text;
  message_from_str : Text → option Message;
  redact : Text → Text;
  show_id : SessionId → Text;
}.

Inductive Dir := RootDir | SessionsDir | CacheDir | ToolOutputDir | ProvidersDir.
#[export] Instance Dir_eq_dec : EqDecision Dir.
Proof. solve_decision. Defined.
#[export] Instance Dir_countable : Countable Dir.
Proof.
  refine (inj_countable'
    (λ d, match d with RootDir => 0 | SessionsDir => 1 | CacheDir => 2 | ToolOutputDir => 3
          | ProvidersDir => 4 end)
    (λ n, match n with 0 => RootDir | 1 => SessionsDir | 2 => CacheDir | 3 => ToolOutputDir
          | _ => ProvidersDir end) _). by intros [].
Defined.

Abbreviation Path := (Dir * Text)%type.
Abbreviation Files := (gmap Path Bytes).

Record Store := mkStore { is_ephemeral : bool; files : Files }.

Definition on_files (st : Store) (r : Files * result unit StoreError)
    : Store * result unit StoreError := (mkStore (is_ephemeral st) r.1, r.2).

Section store.
Context `{Codecs}.

(** ** Backends *)

Definition append_record (st : Store) (io : AppendIo) (path : Path) (line : Text)
    : Store * result unit StoreError :=
  if is_ephemeral st then
    let entry := default [] (files st !! path) in
    let entry := match entry with [] => [] | _ =>
      if ends_with_newline entry then entry else entry ++ [LF] end in
    (mkStore true (<[path := entry ++ encode line ++ [LF]]> (files st)), Ok tt)
  else on_files st (append_line (files st) io path line).

Definition read_string (st : Store) (can_read : bool) (path : Path)
    : result (option Text) StoreError :=
  if is_ephemeral st then Ok (decode_lossy <$> (files st !! path))
  else read_to_string_opt (files st) can_read path.

Definition read_bytes (st : Store) (can_read : bool) (path : Path)
    : result (option Bytes) StoreError :=
  if is_ephemeral st then Ok (files st !! path) else read_bytes_opt (files st) can_read path.

Definition remove (st : Store) (can_remove : bool) (path : Path)
    : Store * result unit StoreError :=
  if is_ephemeral st then (mkStore true (delete path (files st)), Ok tt)
  else on_files st (remove_file_if_present (files st) can_remove path).

(** A whole-file write either happens or leaves its target alone
    ([replacement_all_or_nothing]). *)
Definition write_bytes (st : Store) (can_write : bool) (path : Path) (bytes : Bytes)
    : Store * result unit StoreError :=
  if is_ephemeral st || can_write
  then (mkStore (is_ephemeral st) (<[path := bytes]> (files st)), Ok tt)
  else (st, io_error).

(** ** Names *)

Definition session_path (s : SessionId) : Path := (SessionsDir, show_id s ++ txt ".jsonl").
Definition events_path (s : SessionId) : Path := (SessionsDir, show_id s ++ txt ".events.jsonl").

(** ** The event log *)

(** [SessionEvent::from_line]. *)
Definition from_line (line : Text) : result SessionEvent StoreError :=
  match from_str line with
  | None => Err (Serde "event")
  | Some value =>
      let version := default 0 (v ← json_get V_KEY value; as_u64 v) in
      if (version <=? U32_MAX) && (version <=? SESSION_EVENT_FORMAT_VERSION) then
        let? migrated := migrate value version in
        match event_from_value migrated with
        | Some e => Ok e
        | None => Err (Serde "event")
        end
      else Err (UnsupportedFormat version SESSION_EVENT_FORMAT_VERSION)
  end.

(** [append_event]: the identifier and the time are the caller's; [authority] is
    what [session_write] answers before the write (Ownership.v). *)
Definition append_event (st : Store) (io : AppendIo) (authority : result unit StoreError)
    (session : SessionId) (id : EventId) (parent : option EventId) (now : N)
    (kind : SessionEventKind) : Store * result EventId StoreError :=
  let event := mkEvent SESSION_EVENT_FORMAT_VERSION id parent now kind in
  let line := redact (event_to_string event) in
  let! _ := (if is_ephemeral st then Ok tt else authority) or st in
  match append_record st io (events_path session) line with
  | (st, Ok _) => (st, Ok id)
  | (st, Err e) => (st, Err e)
  end.

Record RecoveredEvents := mkRecovered { events : list SessionEvent; skipped_lines : nat }.

Fixpoint recover_lines (ls : list Text) (acc : RecoveredEvents) : result RecoveredEvents StoreError :=
  match ls with
  | [] => Ok acc
  | line :: ls =>
      if is_blank line then recover_lines ls acc
      else match from_line line with
      | Ok event => recover_lines ls (mkRecovered (events acc ++ [event]) (skipped_lines acc))
      | Err (UnsupportedFormat found supported) => Err (UnsupportedFormat found supported)
      | Err _ => recover_lines ls (mkRecovered (events acc) (S (skipped_lines acc)))
      end
  end.

Definition read_events_recovering (st : Store) (can_read : bool) (session : SessionId)
    : result RecoveredEvents StoreError :=
  let? content := read_string st can_read (events_path session) in
  match content with
  | None => Ok (mkRecovered [] 0)
  | Some content => recover_lines (lines content) (mkRecovered [] 0)
  end.

Definition read_events (st : Store) (can_read : bool) (session : SessionId)
    : result (list SessionEvent) StoreError :=
  let? recovered := read_events_recovering st can_read session in Ok (events recovered).

(** ** Transcripts *)

Definition read_transcript (st : Store) (can_read : bool) (session : SessionId)
    : result (list Message) StoreError :=
  let? content := read_string st can_read (session_path session) in
  match content with
  | None => Ok []
  | Some content =>
      Ok (omap message_from_str (List.filter (λ l, negb (is_blank l)) (lines content)))
  end.
End store.
