(* ===== verification/EventLogProps.v ===== *)
(** * The session log: migration, and what torn writes can cost *)

From Stdlib Require Import String.
From stdpp Require Import base gmap list numbers.
From S2P Require Import Prelude Monitor Utf8 Chars Message Json Ownership Files EventLog.
From stdpp Require Import list.
#[local] Open Scope N_scope.
#[local] Open Scope list_scope.

(** ** Migration *)

Lemma stamp_twice a b v : stamp a (stamp b v) = stamp a v.
Proof. destruct v; try done. cbn. by rewrite map_insert_twice. Qed.

Lemma migrate_loop_exact fuel v n :
  n <= SESSION_EVENT_FORMAT_VERSION → (N.to_nat (SESSION_EVENT_FORMAT_VERSION - n) < fuel)%nat →
  migrate_loop fuel v n = Ok (if n =? SESSION_EVENT_FORMAT_VERSION then v
                              else stamp SESSION_EVENT_FORMAT_VERSION v).
Proof.
  unfold SESSION_EVENT_FORMAT_VERSION. revert v n.
  induction fuel as [|fuel IH]; intros v n Hn Hf; [lia|]. cbn [migrate_loop].
  unfold SESSION_EVENT_FORMAT_VERSION. destruct (N.ltb_spec n 9).
  - destruct (N.leb_spec n 8); [|lia]. rewrite IH by lia.
    rewrite (proj2 (N.eqb_neq n 9)) by lia. f_equal.
    destruct (N.eqb_spec (n + 1) 9) as [->|]; [done|]. apply stamp_twice.
  - by rewrite (proj2 (N.eqb_eq n 9)) by lia.
Qed.

Lemma migrate_exact v n :
  n <= SESSION_EVENT_FORMAT_VERSION →
  migrate v n = Ok (if n =? SESSION_EVENT_FORMAT_VERSION then v
                    else stamp SESSION_EVENT_FORMAT_VERSION v).
Proof. intros Hn. apply migrate_loop_exact; [done|]. unfold SESSION_EVENT_FORMAT_VERSION. lia. Qed.

(** The version a record states; a record without a readable one is of the time
    before versions. *)
Definition record_version (v : Json) : N := default 0 (x ← json_get V_KEY v; as_u64 x).

Lemma stamp_get v n k :
  json_get k (stamp n v) =
  match v with
  | JObject m => if bool_decide (k = V_KEY) then Some (JNumber (show_N n)) else json_get k v
  | _ => None
  end.
Proof.
  destruct v; try done. cbn. case_bool_decide as Hk; [subst; apply map_get_insert|].
  by apply map_get_insert_ne.
Qed.

(** ** Characters cut by a torn write *)

(** How many characters the first [n] bytes hold; [None] when they end inside
    one. *)
Fixpoint chars_in (n : nat) (s : Text) : option nat :=
  match n, s with
  | O, _ | _, [] => Some 0%nat
  | _, c :: s =>
      let l := length (encode_char c) in
      if (n <? l)%nat then None else S <$> chars_in (n - l) s
  end.

Lemma chars_in_Some n s k : chars_in n s = Some k → take n (encode s) = encode (take k s).
Proof.
  revert n k. induction s as [|c s IH]; intros n k; [by destruct n, k; intros|].
  destruct n as [|n]; [by intros [= <-]|]. cbn [chars_in]. set (l := length (encode_char c)).
  destruct (Nat.ltb_spec (S n) l); [done|]. destruct (chars_in (S n - l) s) as [j|] eqn:Hj; [|done].
  intros [= <-]. rewrite encode_cons, take_app. fold l. rewrite (IH _ _ Hj). cbn [take].
  rewrite encode_cons. f_equal. apply take_ge. lia.
Qed.

(** Part of a character is not valid, and its bytes are no line feed. *)
Lemma decode_part c n :
  is_scalar c = true → (0 < n < length (encode_char c))%nat →
  decode (take n (encode_char c)) = None ∧ list.last (take n (encode_char c)) ≠ Some LF.
Proof.
  unfold encode_char, is_scalar. destruct (digits64 c) as (q1 & q2 & q3 & r1 & r2 & r3 & -> & -> & -> & -> & -> & -> & Hd).
  intros Hc Hn. destruct (c <? 0x80) eqn:E1; [cbn in Hn; lia|].
  destruct (c <? 0x800) eqn:E2; [|destruct (c <? 0x10000) eqn:E3]; cbn [length] in Hn; bool_lia.
  - destruct n as [|[|n]]; [lia| |lia]. cbn. rewrite (proj2 (N.ltb_ge _ _)) by lia.
    split; [done|]. intros [= ?]. unfold LF in *. lia.
  - destruct n as [|[|[|n]]]; [lia| | |lia]; cbn; rewrite (proj2 (N.ltb_ge _ _)) by lia.
    + split; [done|]. intros [= ?]. unfold LF in *. lia.
    + replace (lead2 _ && _) with false by (symmetry; unfold lead2; bool_lia; lia).
      split; [done|]. intros [= ?]. unfold LF in *. lia.
  - destruct n as [|[|[|[|n]]]]; [lia| | | |lia]; cbn; rewrite (proj2 (N.ltb_ge _ _)) by lia.
    + split; [done|]. intros [= ?]. unfold LF in *. lia.
    + replace (lead2 _ && _) with false by (symmetry; unfold lead2; bool_lia; lia).
      split; [done|]. intros [= ?]. unfold LF in *. lia.
    + replace (lead2 _ && _) with false by (symmetry; unfold lead2; bool_lia; lia).
      replace (pair3 _ _ && _) with false by (symmetry; unfold pair3; bool_lia; lia).
      split; [done|]. intros [= ?]. unfold LF in *. lia.
Qed.

Lemma chars_in_None n s :
  forallb is_scalar s = true → chars_in n s = None →
  ∃ k part, take n (encode s) = encode (take k s) ++ part ∧ part ≠ [] ∧
    decode part = None ∧ list.last part ≠ Some LF.
Proof.
  revert n. induction s as [|c s IH]; intros n Hs; [by destruct n|]. cbn in Hs.
  apply andb_true_iff in Hs as [Hc Hs]. destruct n as [|n]; [done|]. cbn [chars_in].
  set (l := length (encode_char c)). destruct (Nat.ltb_spec (S n) l) as [Hlt|Hge]; intros Hn.
  - exists 0%nat, (take (S n) (encode_char c)). destruct (decode_part c (S n)) as [? ?]; [done|lia|].
    split_and!; [| |done..].
    2: { intros He. apply (f_equal length) in He. rewrite length_take in He. subst l. cbn [length] in He. lia. }
    rewrite encode_cons, take_app_le by lia. done.
  - destruct (chars_in (S n - l) s) as [j|] eqn:Hj; [done|].
    destruct (IH _ Hs Hj) as (k & part & Ht & ?). exists (S k), part. split; [|done].
    rewrite encode_cons, take_app, take_ge by lia. fold l. rewrite Ht. cbn [take].
    by rewrite encode_cons, app_assoc.
Qed.

(** ** A log under torn writes *)

Section log.
Context `{Codecs}.

(** One call of [append_event] on a disk store. *)
Record Attempt := mkAttempt {
  at_io : AppendIo;
  at_authority : result unit StoreError;
  at_id : EventId;
  at_parent : option EventId;
  at_now : N;
  at_kind : SessionEventKind;
}.

Definition event_of (a : Attempt) : SessionEvent :=
  mkEvent SESSION_EVENT_FORMAT_VERSION (at_id a) (at_parent a) (at_now a) (at_kind a).
Definition line_of (a : Attempt) : Text := redact (event_to_string (event_of a)).

Definition attempt_step (session : SessionId) (st : Store) (a : Attempt) : Store :=
  fst (append_event st (at_io a) (at_authority a) session (at_id a) (at_parent a) (at_now a)
         (at_kind a)).
Definition run_attempts (session : SessionId) (st : Store) (l : list Attempt) : Store :=
  fold_left (attempt_step session) l st.

(** What an attempt leaves of its line: nothing, the first characters, all of
    it, or bytes that end inside a character. *)
Inductive Fate := Nothing | Torn (k : nat) | Written | InsideCharacter.

Definition log_content (session : SessionId) (st : Store) : Bytes :=
  default [] (files st !! events_path session).

Definition fate (session : SessionId) (st : Store) (a : Attempt) : Fate :=
  match at_authority a, ai_mkdir (at_io a),
        seal_needed (files st) (at_io a) (events_path session), ai_open (at_io a) with
  | Ok _, true, Ok seal, true =>
      match ai_cut (at_io a) with
      | None => Written
      | Some n =>
          match chars_in n (append_buffer seal (line_of a)) with
          | None => InsideCharacter
          | Some k =>
              let k := if seal then (k - 1)%nat else k in
              if (k =? 0)%nat then Nothing
              else if (length (line_of a) <=? k)%nat then Written else Torn k
          end
      end
  | _, _, _, _ => Nothing
  end.
Fixpoint fates (session : SessionId) (st : Store) (l : list Attempt) : list (Attempt * Fate) :=
  match l with
  | [] => []
  | a :: l => (a, fate session st a) :: fates session (attempt_step session st a) l
  end.

Definition piece_of (x : Attempt * Fate) : list Text :=
  match x.2 with
  | Nothing | InsideCharacter => []
  | Torn k => [take k (line_of x.1)]
  | Written => [line_of x.1]
  end.
Definition is_inside (x : Attempt * Fate) : bool :=
  match x.2 with InsideCharacter => true | _ => false end.
Definition is_written (x : Attempt * Fate) : bool :=
  match x.2 with Written => true | _ => false end.
Definition is_torn (x : Attempt * Fate) : bool := match x.2 with Torn _ => true | _ => false end.

(** Compact JSON is one line that starts with a brace. *)
Definition json_line (l : Text) : Prop :=
  l ≠ [] ∧ one_line_text l ∧ forallb is_scalar l = true ∧
  match l with c :: _ => is_whitespace c = false | [] => True end.

(** The file holds [s]. *)
Definition holds (session : SessionId) (st : Store) (s : Text) : Prop :=
  is_ephemeral st = false ∧ log_content session st = encode s ∧ forallb is_scalar s = true ∧ CR ∉ s.

Lemma sealed_encode s : ends_with_newline (encode s) = bool_decide (list.last s = Some LF).
Proof. unfold ends_with_newline. apply bool_decide_ext. apply encode_last. Qed.

Lemma seal_exact session st s io seal :
  holds session st s → ai_stat io = true →
  seal_needed (files st) io (events_path session) = Ok seal →
  seal = negb (bool_decide (sealed s)).
Proof.
  intros (_ & Hc & _) Hstat. unfold seal_needed. rewrite Hstat. unfold log_content in Hc.
  unfold sealed. destruct (files st !! events_path session) as [[|b c]|] eqn:Hf; cbn in Hc.
  - intros [= <-]. symmetry in Hc. apply (proj1 (encode_nil _)) in Hc. by rewrite bool_decide_eq_true_2 by auto.
  - destruct (ai_peek io); [|done]. intros [= <-]. rewrite Hc, sealed_encode. f_equal.
    apply bool_decide_ext. split; [auto|]. intros [->|?]; [done|done].
  - intros [= <-]. symmetry in Hc. apply (proj1 (encode_nil _)) in Hc. by rewrite bool_decide_eq_true_2 by auto.
Qed.

(** What one attempt does to the bytes of the log. *)
Lemma attempt_bytes session st a :
  is_ephemeral st = false →
  let st' := attempt_step session st a in
  is_ephemeral st' = false ∧
  log_content session st' = log_content session st ++
    match at_authority a, ai_mkdir (at_io a),
        seal_needed (files st) (at_io a) (events_path session), ai_open (at_io a) with
    | Ok _, true, Ok seal, true =>
        let buf := encode (append_buffer seal (line_of a)) in
        match ai_cut (at_io a) with Some n => take n buf | None => buf end
    | _, _, _, _ => []
    end.
Proof.
  intros He. cbn zeta. unfold attempt_step, append_event. rewrite He. fold (event_of a). fold (line_of a).
  destruct (at_authority a) as [u|e]; [|by cbn; rewrite app_nil_r].
  unfold append_record. rewrite He. unfold append_line, append, on_files.
  destruct (ai_mkdir (at_io a)); cbn [negb]; [|by cbn; rewrite app_nil_r].
  destruct (seal_needed _ _ _) as [seal|e]; [|by cbn; rewrite app_nil_r].
  destruct (ai_open (at_io a)); cbn [negb]; [|by cbn; rewrite app_nil_r].
  destruct (ai_cut (at_io a)); cbn; (split; [done|]); unfold log_content; cbn;
    by rewrite lookup_insert_eq.
Qed.

Lemma append_buffer_scalar seal l : json_line l → forallb is_scalar (append_buffer seal l) = true.
Proof. intros (_ & _ & Hs & _). unfold append_buffer. rewrite !forallb_app, Hs. by destruct seal. Qed.

Lemma append_buffer_CR seal l k : json_line l → CR ∉ take k (append_buffer seal l).
Proof.
  intros (_ & [_ Hcr] & _) Hin. apply elem_of_take in Hin as (i & Hi & _).
  apply list_elem_of_lookup_2 in Hi. unfold append_buffer in Hi.
  rewrite !elem_of_app, list_elem_of_singleton in Hi. destruct seal; set_solver.
Qed.

Lemma forallb_take {A} (f : A → bool) k l : forallb f l = true → forallb f (take k l) = true.
Proof. intros Hl. rewrite <-(take_drop k l), forallb_app in Hl. by apply andb_true_iff in Hl as [? _]. Qed.

Lemma attempt_holds session st a s :
  holds session st s → json_line (line_of a) → ai_stat (at_io a) = true →
  fate session st a ≠ InsideCharacter →
  ∃ s', holds session (attempt_step session st a) s' ∧
    lines s' = lines s ++ piece_of (a, fate session st a).
Proof.
  intros Hh Hj Hstat Hf. pose proof Hh as (He & Hc & Hs & Hcr).
  destruct (attempt_bytes session st a He) as [He' Hb]. rewrite Hc in Hb.
  assert (Hgrow : ∀ seal k, seal_needed (files st) (at_io a) (events_path session) = Ok seal →
    log_content session (attempt_step session st a) =
      encode s ++ encode (take k (append_buffer seal (line_of a))) →
    ∃ s', holds session (attempt_step session st a) s' ∧ lines s' = lines s ++ piece seal (line_of a) k).
  { intros seal k Hseal Hbytes. exists (s ++ take k (append_buffer seal (line_of a))).
    rewrite <-encode_app in Hbytes. split.
    - split_and!; [done|done| |].
      + rewrite forallb_app, Hs. by apply forallb_take, append_buffer_scalar.
      + rewrite elem_of_app. intros [?|Hin]; [done|]. by apply append_buffer_CR in Hin.
    - destruct Hj as (Hne & Hone & _). pose proof (seal_exact _ _ _ _ _ Hh Hstat Hseal) as ->.
      by apply append_lines. }
  assert (Hsame : log_content session (attempt_step session st a) = encode s ++ [] →
    ∃ s', holds session (attempt_step session st a) s' ∧ lines s' = lines s ++ []).
  { rewrite !app_nil_r. intros Hbytes. by exists s. }
  unfold fate, piece_of in *. cbn [fst snd].
  destruct (at_authority a) as [u|e]; [|by apply Hsame].
  destruct (ai_mkdir (at_io a)); [|by apply Hsame].
  destruct (seal_needed _ _ _) as [seal|e] eqn:Hseal; [|by apply Hsame].
  destruct (ai_open (at_io a)); [|by apply Hsame].
  destruct (ai_cut (at_io a)) as [n|].
  - destruct (chars_in n _) as [k|] eqn:Hk; [|done]. rewrite (chars_in_Some _ _ _ Hk) in Hb.
    destruct (Hgrow seal k eq_refl Hb) as (s' & Hs' & Hl). exists s'. split; [done|].
    rewrite Hl. f_equal. unfold piece. set (j := if seal then (k - 1)%nat else k).
    destruct (Nat.eqb_spec j 0) as [->|Hj0]; [done|]. destruct Hj as (Hne & _).
    destruct (Nat.leb_spec (length (line_of a)) j).
    + rewrite take_ge by done. by destruct (line_of a).
    + cbn. destruct (take j (line_of a)) eqn:Ht; [|done]. by destruct j, (line_of a).
  - destruct (Hgrow seal (length (append_buffer seal (line_of a))) eq_refl) as (s' & Hs' & Hl).
    { by rewrite take_ge. }
    exists s'. split; [done|]. rewrite Hl. f_equal. unfold piece, append_buffer.
    rewrite !length_app. destruct Hj as (Hne & _). cbn [length].
    rewrite take_ge by (destruct seal; cbn; lia). by destruct (line_of a).
Qed.

(** A log with part of a character in it. *)
Definition broken (session : SessionId) (st : Store) : Prop :=
  is_ephemeral st = false ∧
  ((decode (log_content session st) = None ∧ list.last (log_content session st) ≠ Some LF) ∨
   ∃ x y, log_content session st = x ++ LF :: y ∧ decode x = None).

Lemma broken_undecodable session st : broken session st → decode (log_content session st) = None.
Proof.
  intros (_ & [[? _]|(x & y & -> & Hx)]); [done|]. by rewrite decode_line_feed, Hx.
Qed.

Lemma broken_read session st can_read :
  broken session st → read_events_recovering st can_read session = Err (Io "").
Proof.
  intros Hb. pose proof (broken_undecodable _ _ Hb) as Hd. destruct Hb as [He _].
  unfold read_events_recovering, read_string, read_to_string_opt. rewrite He.
  unfold log_content in Hd. destruct (files st !! events_path session) as [b|]; cbn in Hd; [|done].
  destruct can_read; cbn; [|done]. by rewrite Hd.
Qed.

Lemma attempt_breaks session st a s :
  holds session st s → json_line (line_of a) → fate session st a = InsideCharacter →
  broken session (attempt_step session st a).
Proof.
  intros (He & Hc & Hs & Hcr) Hj Hf. destruct (attempt_bytes session st a He) as [He' Hb].
  split; [done|left]. revert Hb. unfold fate in Hf.
  destruct (at_authority a); [|done]. destruct (ai_mkdir (at_io a)); [|done].
  destruct (seal_needed _ _ _) as [seal|]; [|done]. destruct (ai_open (at_io a)); [|done].
  destruct (ai_cut (at_io a)) as [n|]; [|done].
  destruct (chars_in n _) as [k|] eqn:Hk; [by repeat case_match|].
  apply chars_in_None in Hk as (j & part & Ht & Hne & Hp & Hl); [|by apply append_buffer_scalar].
  intros ->. cbn zeta. rewrite Hc, Ht, app_assoc, <-encode_app. split.
  - rewrite decode_encode_app, Hp; [done|]. rewrite forallb_app, Hs.
    by apply forallb_take, append_buffer_scalar.
  - clear Ht Hp. destruct part as [|b part _] using rev_ind; [done|].
    rewrite app_assoc, last_snoc. by rewrite last_snoc in Hl.
Qed.

Lemma attempt_stays_broken session st a :
  broken session st → ai_stat (at_io a) = true → broken session (attempt_step session st a).
Proof.
  intros Hbr Hstat. pose proof (broken_undecodable _ _ Hbr) as Hd. destruct Hbr as [He Hbr].
  destruct (attempt_bytes session st a He) as [He' Hb]. split; [done|]. revert Hb.
  destruct Hbr as [[_ Hl]|(x & y & Hc & Hx)].
  2: { intros ->. right. rewrite Hc, <-app_assoc. by eexists x, _. }
  assert (Hsame : log_content session (attempt_step session st a) = log_content session st ++ [] →
    decode (log_content session (attempt_step session st a)) = None ∧
    list.last (log_content session (attempt_step session st a)) ≠ Some LF).
  { rewrite app_nil_r. intros ->. done. }
  destruct (at_authority a); [|by auto]. destruct (ai_mkdir (at_io a)); [|by auto].
  destruct (seal_needed _ _ _) as [seal|] eqn:Hseal; [|by auto]. destruct (ai_open (at_io a)); [|by auto].
  assert (seal = true) as ->.
  { unfold seal_needed in Hseal. rewrite Hstat in Hseal. unfold log_content in Hd, Hl.
    destruct (files st !! events_path session) as [[|b c]|]; [done| |done]. cbn in Hl.
    destruct (ai_peek (at_io a)); [|done]. injection Hseal as <-. unfold ends_with_newline.
    by rewrite bool_decide_eq_false_2. }
  unfold append_buffer. rewrite encode_app. change (encode [LF]) with [LF]. cbn [app].
  destruct (ai_cut (at_io a)) as [[|n]|]; [by auto|..]; intros ->; right; by eexists _, _.
Qed.

(** ** Reading back *)

Lemma recover_lines_app l k acc :
  recover_lines (l ++ k) acc =
  match recover_lines l acc with Ok acc => recover_lines k acc | Err e => Err e end.
Proof.
  revert acc. induction l as [|x l IH]; intros acc; cbn; [done|].
  destruct (is_blank x); [done|]. destruct (from_line x) as [e|[]]; done.
Qed.

(** The laws of the JSON reader a log relies on: the line that was written reads
    back as its event, and a proper beginning of it - an unclosed object - is
    not JSON. *)
Definition reads_back (a : Attempt) : Prop :=
  json_line (line_of a) ∧ from_line (line_of a) = Ok (event_of a) ∧
  ∀ k, (0 < k < length (line_of a))%nat → from_str (take k (line_of a)) = None.

Lemma fate_torn session st a k : fate session st a = Torn k → (0 < k < length (line_of a))%nat.
Proof.
  unfold fate. repeat case_match; try done; intros [= <-];
    repeat match goal with H : (_ =? _)%nat = false |- _ => apply Nat.eqb_neq in H
      | H : (_ <=? _)%nat = false |- _ => apply Nat.leb_gt in H end; subst; lia.
Qed.

Lemma recover_piece session st a acc :
  reads_back a →
  recover_lines (piece_of (a, fate session st a)) acc =
  Ok (mkRecovered (events acc ++ if is_written (a, fate session st a) then [event_of a] else [])
        (skipped_lines acc + if is_torn (a, fate session st a) then 1 else 0)).
Proof.
  intros ((Hne & _ & _ & Hws) & Hfull & Hpart). unfold piece_of, is_written, is_torn. cbn [fst snd].
  assert (Hblank : ∀ k, (0 < k)%nat → is_blank (take k (line_of a)) = false).
  { intros k Hk. destruct (line_of a) as [|c l]; [done|]. destruct k; [lia|]. cbn. by rewrite Hws. }
  destruct (fate session st a) as [|k| |] eqn:Hf; cbn [recover_lines].
  - rewrite app_nil_r, Nat.add_0_r. by destruct acc.
  - apply fate_torn in Hf. rewrite Hblank by lia. unfold from_line. rewrite Hpart by done.
    by rewrite app_nil_r, Nat.add_1_r.
  - rewrite <-(take_ge (line_of a) (length (line_of a))), Hblank, take_ge, Hfull, Nat.add_0_r; try done.
    destruct (line_of a); [done|]. cbn. lia.
  - rewrite app_nil_r, Nat.add_0_r. by destruct acc.
Qed.

(** What a list of attempts amounts to. *)
Definition whole_events (fs : list (Attempt * Fate)) : list SessionEvent :=
  event_of ∘ fst <$> List.filter is_written fs.
Definition torn_lines (fs : list (Attempt * Fate)) : nat := length (List.filter is_torn fs).

Definition dependable (a : Attempt) : Prop := reads_back a ∧ ai_stat (at_io a) = true.

Lemma run_breaks session st l :
  broken session st → Forall dependable l → broken session (run_attempts session st l).
Proof.
  unfold run_attempts. intros Hb Hl. revert st Hb. induction Hl as [|a l [_ Ha] _ IH]; intros st Hb; [done|].
  cbn. by apply IH, attempt_stays_broken.
Qed.

Lemma run_reads session st l s acc :
  holds session st s → Forall dependable l → recover_lines (lines s) (mkRecovered [] 0) = Ok acc →
  let fs := fates session st l in
  if existsb is_inside fs then broken session (run_attempts session st l)
  else ∃ s', holds session (run_attempts session st l) s' ∧
    recover_lines (lines s') (mkRecovered [] 0) =
      Ok (mkRecovered (events acc ++ whole_events fs) (skipped_lines acc + torn_lines fs)).
Proof.
  cbn zeta. intros Hh Hl. revert st s acc Hh. induction Hl as [|a l [Ha Hstat] Hl IH]; intros st s acc Hh Hacc.
  - exists s. unfold whole_events, torn_lines. cbn. rewrite app_nil_r, Nat.add_0_r. destruct acc. done.
  - change (run_attempts session st (a :: l)) with (run_attempts session (attempt_step session st a) l).
    cbn [fates existsb]. destruct (is_inside (a, fate session st a)) eqn:Hin; cbn [orb].
    + apply run_breaks; [|done]. eapply attempt_breaks; [done|apply Ha|].
      unfold is_inside in Hin. cbn in Hin. by destruct (fate session st a).
    + destruct (attempt_holds session st a s Hh) as (s1 & Hh1 & Hl1); [apply Ha|done| |].
      { intros Hf. unfold is_inside in Hin. cbn in Hin. by rewrite Hf in Hin. }
      pose proof (recover_piece session st a acc Ha) as Hp.
      assert (Hr1 := recover_lines_app (lines s) (piece_of (a, fate session st a)) (mkRecovered [] 0)).
      rewrite <-Hl1, Hacc, Hp in Hr1. specialize (IH _ s1 _ Hh1 Hr1).
      destruct (existsb is_inside _); [done|]. destruct IH as (s' & Hs' & Hr). exists s'. split; [done|].
      rewrite Hr. unfold whole_events, torn_lines. cbn [events skipped_lines List.filter].
      destruct (is_written _), (is_torn _); cbn; rewrite <-?app_assoc; do 2 f_equal; lia.
Qed.

(** An append that reports success has written its whole line. *)
Lemma reported_is_written session st a :
  is_ephemeral st = false →
  snd (append_event st (at_io a) (at_authority a) session (at_id a) (at_parent a) (at_now a)
         (at_kind a)) = Ok (at_id a) →
  fate session st a = Written.
Proof.
  intros He. unfold append_event, fate. rewrite He. destruct (at_authority a); [|done].
  unfold append_record. rewrite He. unfold append_line, append, on_files.
  destruct (ai_mkdir (at_io a)); [|done]. destruct (seal_needed _ _ _); [|done].
  destruct (ai_open (at_io a)); [|done]. by destruct (ai_cut (at_io a)).
Qed.

Lemma run_attempts_disk session st l :
  is_ephemeral st = false → is_ephemeral (run_attempts session st l) = false.
Proof.
  unfold run_attempts. revert st. induction l as [|a l IH]; intros st He; [done|]. cbn.
  apply IH. by apply attempt_bytes.
Qed.

(** C14. A damaged line never costs another event.  Take events whose serialised
    line, after redaction, still reads back as the event it was written for, no
    proper beginning of it being JSON (an event that holds a secret is not such
    a one: redaction changes or destroys its line), and appends for which the
    size of the log can be read.  Whatever of them are tried on a new session's
    log - refused, failing half way, or cut by a crash - and however they are
    cut between characters, a later read gives exactly the events whose line was
    written in full, in order, and counts exactly the lines that were torn; an
    append that reported success is among the former.  One cut inside a
    character makes every later read of the log fail. *)
Theorem log_survives_tears session st l :
  is_ephemeral st = false → files st !! events_path session = None →
  Forall dependable l →
  let fs := fates session st l in
  read_events_recovering (run_attempts session st l) true session =
    (if existsb is_inside fs then Err (Io "")
     else Ok (mkRecovered (whole_events fs) (torn_lines fs))) ∧
  ∀ l1 a l2, l = l1 ++ a :: l2 →
    snd (append_event (run_attempts session st l1) (at_io a) (at_authority a) session (at_id a)
           (at_parent a) (at_now a) (at_kind a)) = Ok (at_id a) →
    fate session (run_attempts session st l1) a = Written.
Proof.
  intros He Hnone Hl fs. split.
  2: { intros l1 a l2 _. by apply reported_is_written, run_attempts_disk. }
  assert (Hh : holds session st []).
  { split_and!; [done| |done|]; [|by apply not_elem_of_nil]. unfold log_content. by rewrite Hnone. }
  pose proof (run_reads session st l [] (mkRecovered [] 0) Hh Hl eq_refl) as H'. cbn zeta in H'.
  fold fs in H'. destruct (existsb is_inside fs).
  - by apply broken_read.
  - destruct H' as (s' & (He' & Hc & Hs & _) & Hr). unfold read_events_recovering, read_string.
    rewrite He'. unfold read_to_string_opt. unfold log_content in Hc.
    destruct (files (run_attempts session st l) !! events_path session) as [b|]; cbn in Hc |- *.
    + by rewrite Hc, decode_encode.
    + symmetry in Hc. apply (proj1 (encode_nil _)) in Hc. subst s'. cbn in Hr. by rewrite Hr.
Qed.
End log.

(** ** A concrete log *)

(** A record is a brace, an accented letter, a letter for the identifier and a
    brace. *)
#[local] Instance letters : Codecs := {
  from_str t := match t with
    | [123; 0xE9; c; 125] => Some (JObject [(txt "id", JNumber [c]); (V_KEY, JNumber (txt "9"))])
    | _ => None end;
  event_to_string e := [123; 0xE9; 65 + ev_id e; 125];
  event_from_value v := match json_get (txt "id") v with
    | Some (JNumber [c]) => Some (mkEvent SESSION_EVENT_FORMAT_VERSION (c - 65) None 0 Cancelled)
    | _ => None end;
  message_to_string _ := [];
  message_from_str _ := None;
  redact t := t;
  show_id _ := txt "s";
}.

Definition letter (cut : option nat) (id : EventId) : Attempt :=
  mkAttempt (mkAppendIo true true true true cut true) (Ok tt) id None 0 Cancelled.

Lemma letter_dependable cut id : id ∈ [1; 2; 3] → dependable (letter cut id).
Proof.
  rewrite !elem_of_cons, elem_of_nil. intros Hid. split; [|done]. split_and!.
  - unfold json_line, line_of, one_line_text. cbn [letter event_of event_to_string redact letters ev_id].
    rewrite !not_elem_of_cons. destruct_or?; subst; try done;
      (split_and!; try done; try apply not_elem_of_nil; vm_compute; reflexivity).
  - destruct_or?; subst; try done; vm_compute; reflexivity.
  - intros [|[|[|[|k]]]] Hk; unfold line_of in *; cbn in *; try done; lia.
Qed.

Lemma log_survives_tears_witness :
  read_events_recovering
    (run_attempts 7 (mkStore false ∅) [letter (Some 3%nat) 1; letter None 2; letter (Some 0%nat) 3]) true 7 =
  Ok (mkRecovered [mkEvent SESSION_EVENT_FORMAT_VERSION 2 None 0 Cancelled] 1).
Proof.
  destruct (log_survives_tears 7 (mkStore false ∅)
    [letter (Some 3%nat) 1; letter None 2; letter (Some 0%nat) 3]) as [Hr _]; [done|done| |].
  - repeat constructor; apply letter_dependable; set_solver.
  - rewrite Hr. vm_compute. reflexivity.
Defined.

(** A write cut inside the accented letter makes the whole log unreadable, the
    events written before and after it included. *)
Lemma torn_character_loses_the_log :
  read_events_recovering
    (run_attempts 7 (mkStore false ∅) [letter None 1; letter (Some 2%nat) 2; letter None 3]) true 7 =
  Err (Io "").
Proof. vm_compute. reflexivity. Qed.

(** ** Migration, record by record *)

(** A record of any format version up to the current one is read with its
    version replaced by the current one and every other field as it was, and a
    newer one is refused by name; what is not a record at all is a plain error.
    A record without a readable version counts as the oldest. *)
Theorem older_records_keep_their_payload `{Codecs} line value :
  from_str line = Some value →
  from_line line =
    (if record_version value <=? SESSION_EVENT_FORMAT_VERSION
     then ok_or (event_from_value (if record_version value =? SESSION_EVENT_FORMAT_VERSION then value
                                   else stamp SESSION_EVENT_FORMAT_VERSION value)) (Serde "event")
     else Err (UnsupportedFormat (record_version value) SESSION_EVENT_FORMAT_VERSION)) ∧
  (∀ k, k ≠ V_KEY → json_get k (stamp SESSION_EVENT_FORMAT_VERSION value) = json_get k value) ∧
  ∀ m, value = JObject m → record_version (stamp SESSION_EVENT_FORMAT_VERSION value) = SESSION_EVENT_FORMAT_VERSION.
Proof.
  intros Hv. split_and!.
  - unfold from_line. rewrite Hv. fold (record_version value).
    destruct (N.leb_spec (record_version value) SESSION_EVENT_FORMAT_VERSION) as [Hle|Hgt].
    + rewrite (proj2 (N.leb_le _ U32_MAX)) by (unfold U32_MAX, SESSION_EVENT_FORMAT_VERSION in *; lia).
      cbn [andb]. rewrite migrate_exact by done. by destruct (event_from_value _).
    + by rewrite andb_false_r.
  - intros k Hk. rewrite stamp_get. destruct value; try done. by rewrite bool_decide_eq_false_2.
  - intros m ->. unfold record_version. rewrite stamp_get, bool_decide_eq_true_2 by done. done.
Qed.

Lemma older_records_keep_their_payload_witness :
  from_line (line_of (letter None 4)) = Ok (event_of (letter None 4)).
Proof.
  destruct (older_records_keep_their_payload (line_of (letter None 4))
    (JObject [(txt "id", JNumber [69]); (V_KEY, JNumber (txt "9"))])) as [Hf _]; [reflexivity|].
  rewrite Hf. vm_compute. reflexivity.
Defined.
