(* ===== verification/Index.v ===== *)
(** * The session index, retention and the keyed files (the rest of
    crates/localpilot-store/src/lib.rs)

    The index of a workspace's sessions with their names, what a retention policy
    removes, and the cache, the tool-output snapshots and the provider metadata.
    A session is numbered by its UUID, whose text - lower-case hexadecimal of a
    fixed width - is ordered as the number is.  The steps of [prune] that other
    processes can come between are definitions of their own. *)

From Stdlib Require Import String.
From stdpp Require Import base gmap list sorting numbers.
From S2P Require Import Prelude Monitor Utf8 Chars Message Json Ownership Files EventLog.
From stdpp Require Import list.
#[local] Open Scope N_scope.
#[local] Open Scope list_scope.

Record SessionIndexEntry := mkEntry {
  ie_id : SessionId;
  message_count : nat;
  created_unix : N;
  updated_unix : N;
  ie_name : option Text;
}.

(** [serde_json] on the index and on provider metadata, and [str::parse] of a
    session identifier. *)
Class IndexCodec := {
  index_from_str : Text → option (list SessionIndexEntry);
  index_to_string : list SessionIndexEntry → Text;
  json_to_string_pretty : Json → Text;
  parses_as_id : Text → bool;
}.

(** How the system answers one operation: reads, removals and whole-file writes
    by path, the lock of the index, the directory listing, and the lock of each
    session ([hold_session]: taken, held elsewhere, or an error). *)
Inductive LockAnswer := Taken | HeldElsewhere | LockError.
#[export] Instance LockAnswer_eq_dec : EqDecision LockAnswer.
Proof. solve_decision. Defined.
Record StoreIo := mkStoreIo {
  si_read : Path → bool;
  si_remove : Path → bool;
  si_write : Path → bool;
  si_index_lock : bool;
  si_list : bool;
  si_hold : SessionId → LockAnswer;
}.
Definition store_healthy : StoreIo :=
  mkStoreIo (λ _, true) (λ _, true) (λ _, true) true true (λ _, Taken).

Record RetentionPolicy := mkPolicy { max_sessions : N; max_age_days : N }.
Definition is_unbounded (p : RetentionPolicy) : bool :=
  (max_sessions p =? 0) && (max_age_days p =? 0).
#[export] Instance SessionIndexEntry_eq_dec : EqDecision SessionIndexEntry.
Proof. solve_decision. Defined.
Record PruneReport := mkReport { sessions_removed : nat; tool_outputs_removed : nat }.

Section index.
Context `{Codecs, IndexCodec}.

Definition index_path : Path := (RootDir, txt "index.json").
Definition record_path (s : SessionId) : Path := (SessionsDir, show_id s ++ txt ".owner.json").

(** ** The index *)

Definition load_index (st : Store) (io : StoreIo) : result (list SessionIndexEntry) StoreError :=
  let? content := read_string st (si_read io index_path) index_path in
  match content with
  | Some content =>
      if is_blank content then Ok []
      else match index_from_str content with
      | Some sessions => Ok sessions
      | None => Err (Serde "index")
      end
  | None => Ok []
  end.

Definition list_sessions := load_index.

(** [max_by_key]: the last of the largest. *)
Definition latest_of (l : list SessionIndexEntry) : option SessionIndexEntry :=
  fold_left (λ best e, match best with
    | Some b => if updated_unix b <=? updated_unix e then Some e else best
    | None => Some e end) l None.
Definition latest_session (st : Store) (io : StoreIo)
    : result (option SessionIndexEntry) StoreError :=
  let? sessions := load_index st io in Ok (latest_of sessions).

Definition with_index_lock {A} (st : Store) (io : StoreIo)
    (work : Store * result A StoreError) : Store * result A StoreError :=
  if is_ephemeral st then work
  else if si_index_lock io then work else (st, io_error).

Definition save_index (st : Store) (io : StoreIo) (sessions : list SessionIndexEntry)
    : Store * result unit StoreError :=
  write_bytes st (si_write io index_path) index_path (encode (index_to_string sessions)).

(** Applies [f] to the first entry of the session, if it has one. *)
Fixpoint update_first (s : SessionId) (f : SessionIndexEntry → SessionIndexEntry)
    (l : list SessionIndexEntry) : option (list SessionIndexEntry) :=
  match l with
  | [] => None
  | e :: l => if ie_id e =? s then Some (f e :: l) else cons e <$> update_first s f l
  end.

Definition touched (count : nat) (now : N) (e : SessionIndexEntry) : SessionIndexEntry :=
  mkEntry (ie_id e) count (created_unix e) now (ie_name e).
Definition touch_entries (s : SessionId) (count : nat) (now : N) (l : list SessionIndexEntry)
    : list SessionIndexEntry :=
  match update_first s (touched count now) l with
  | Some l => l
  | None => l ++ [mkEntry s count now now None]
  end.
Definition touch_index_locked (st : Store) (io : StoreIo) (s : SessionId) (count : nat) (now : N)
    : Store * result unit StoreError :=
  let! index := load_index st io or st in
  save_index st io (touch_entries s count now index).
Definition touch_index (st : Store) (io : StoreIo) (s : SessionId) (count : nat) (now : N)
    : Store * result unit StoreError :=
  with_index_lock st io (touch_index_locked st io s count now).

(** [append_message]; [authority] as in [append_event]. *)
Definition append_message (st : Store) (aio : AppendIo) (io : StoreIo)
    (authority : result unit StoreError) (s : SessionId) (m : Message) (now : N)
    : Store * result unit StoreError :=
  let path := session_path s in
  let line := redact (message_to_string m) in
  let! _ := (if is_ephemeral st then Ok tt else authority) or st in
  match append_record st aio path line with
  | (st, Err e) => (st, Err e)
  | (st, Ok _) =>
      let! content := read_string st (si_read io path) path or st in
      let count := match content with
                   | Some c => length (List.filter (λ l, negb (is_blank l)) (lines c))
                   | None => 0%nat end in
      touch_index st io s count now
  end.

(** ** Names *)

Definition name_matches (stored : option Text) (query : Text) : bool :=
  match stored with Some n => eq_ignore_ascii_case n query | None => false end.

Definition named (name : Text) (e : SessionIndexEntry) : SessionIndexEntry :=
  mkEntry (ie_id e) (message_count e) (created_unix e) (updated_unix e) (Some name).
Definition set_name_entries (s : SessionId) (name : Text) (now : N) (l : list SessionIndexEntry)
    : result (list SessionIndexEntry) StoreError :=
  match List.find (λ e, negb (ie_id e =? s) && name_matches (ie_name e) name) l with
  | Some clash => Err (NameTaken name (ie_id clash))
  | None =>
      Ok match update_first s (named name) l with
         | Some l => l
         | None => l ++ [mkEntry s 0 now now (Some name)]
         end
  end.
Definition set_session_name_locked (st : Store) (io : StoreIo) (s : SessionId) (name : Text) (now : N)
    : Store * result unit StoreError :=
  let! index := load_index st io or st in
  let! index := set_name_entries s name now index or st in
  save_index st io index.
Definition set_session_name (st : Store) (io : StoreIo) (authority : result unit StoreError)
    (s : SessionId) (name : Text) (now : N) : Store * result unit StoreError :=
  let name := trim name in
  if bool_decide (name = []) || parses_as_id name then (st, Err (InvalidName name))
  else
    let! _ := (if is_ephemeral st then Ok tt else authority) or st in
    with_index_lock st io (set_session_name_locked st io s name now).

Definition find_session_by_name (st : Store) (io : StoreIo) (name : Text)
    : result (option SessionIndexEntry) StoreError :=
  let? sessions := load_index st io in
  Ok (List.find (λ e, name_matches (ie_name e) (trim name)) sessions).

(** ** Keyed files *)

Definition key_char (c : N) : bool :=
  ((48 <=? c) && (c <=? 57)) || ((65 <=? c) && (c <=? 90)) || ((97 <=? c) && (c <=? 122))
  || (c =? 46) || (c =? 95) || (c =? 45).
Definition safe_key (key : Text) : result Text StoreError :=
  if negb (bool_decide (key = [])) && forallb key_char key
     && negb (bool_decide (key = txt ".")) && negb (bool_decide (key = txt ".."))
  then Ok key else Err (InvalidKey key).

Definition put_cache (st : Store) (io : StoreIo) (key : Text) (value : Bytes)
    : Store * result unit StoreError :=
  let! key := safe_key key or st in
  let path := (CacheDir, key) in write_bytes st (si_write io path) path value.
Definition get_cache (st : Store) (io : StoreIo) (key : Text) : result (option Bytes) StoreError :=
  let? key := safe_key key in
  let path := (CacheDir, key) in read_bytes st (si_read io path) path.
Definition delete_cache (st : Store) (io : StoreIo) (key : Text) : Store * result unit StoreError :=
  let! key := safe_key key or st in
  let path := (CacheDir, key) in EventLog.remove st (si_remove io path) path.

Definition output_path (stem : Text) : Path := (ToolOutputDir, stem ++ txt ".txt").
Definition put_tool_output (st : Store) (io : StoreIo) (id output : Text)
    : Store * result unit StoreError :=
  let! id := safe_key id or st in
  write_bytes st (si_write io (output_path id)) (output_path id) (encode (redact output)).
Definition get_tool_output (st : Store) (io : StoreIo) (id : Text)
    : result (option Text) StoreError :=
  let? id := safe_key id in read_string st (si_read io (output_path id)) (output_path id).

Definition provider_path (id : Text) : Path := (ProvidersDir, id ++ txt ".json").
Definition put_provider_metadata (st : Store) (io : StoreIo) (id : Text) (md : Json)
    : Store * result unit StoreError :=
  let! id := safe_key id or st in
  write_bytes st (si_write io (provider_path id)) (provider_path id)
    (encode (redact (json_to_string_pretty md))).
Definition get_provider_metadata (st : Store) (io : StoreIo) (id : Text)
    : result (option Json) StoreError :=
  let? id := safe_key id in
  let? content := read_string st (si_read io (provider_path id)) (provider_path id) in
  match content with
  | Some c => match from_str c with Some v => Ok (Some v) | None => Err (Serde "metadata") end
  | None => Ok None
  end.

(** ** Retention *)

(** Most recently updated first; ties by identifier. *)
Definition fresher (a b : SessionIndexEntry) : Prop :=
  updated_unix b < updated_unix a ∨ (updated_unix a = updated_unix b ∧ ie_id a <= ie_id b).
#[export] Instance fresher_dec : RelDecision fresher.
Proof. intros a b. unfold fresher. apply _. Defined.

Definition SECONDS_PER_DAY : N := 86400.
Definition age_cutoff (p : RetentionPolicy) (now : N) : option N :=
  if 0 <? max_age_days p then Some (sat_sub now (u64_sat_mul (max_age_days p) SECONDS_PER_DAY)) else None.
Definition over_count (p : RetentionPolicy) (rank : nat) : bool :=
  (0 <? max_sessions p) && (max_sessions p <=? N.of_nat rank).
Definition too_old (p : RetentionPolicy) (now : N) (e : SessionIndexEntry) : bool :=
  match age_cutoff p now with Some cutoff => updated_unix e <? cutoff | None => false end.

Definition sessions_to_remove (l : list SessionIndexEntry) (p : RetentionPolicy) (now : N)
    : gset SessionId :=
  list_to_set (omap (λ '(rank, e), if over_count p rank || too_old p now e then Some (ie_id e) else None)
    (imap pair (merge_sort fresher l))).

(** [collect_tool_output_keys]. *)
Definition output_keys (m : Message) : gset Text :=
  list_to_set (omap (λ b, match b with
    | BToolUse call => Some (tc_id call)
    | BToolResult r => Some (Message.tr_id r)
    | _ => None end) (content m)).

(** The steps of [prune]: what the policy dooms, without what is held ... *)
Definition hold_doomed (io : StoreIo) (doomed : gset SessionId) : result (gset SessionId) StoreError :=
  if existsb (λ s, match si_hold io s with LockError => true | _ => false end) (elements doomed)
  then io_error
  else Ok (filter (λ s, si_hold io s = Taken) doomed).
Definition prune_doom (st : Store) (io : StoreIo) (p : RetentionPolicy) (now : N)
    : result (list SessionIndexEntry * gset SessionId) StoreError :=
  let? index := load_index st io in
  let doomed := sessions_to_remove index p now in
  if is_ephemeral st then Ok (index, doomed)
  else let? doomed := hold_doomed io doomed in Ok (index, doomed).

(** ... the keys that survivors own ... *)
Definition session_key (s : SessionId) : Text := txt "recovery-" ++ show_id s.
Fixpoint live_keys (st : Store) (io : StoreIo) (doomed : gset SessionId)
    (l : list SessionIndexEntry) (acc : gset Text) : result (gset Text) StoreError :=
  match l with
  | [] => Ok acc
  | e :: l =>
      if bool_decide (ie_id e ∈ doomed) then live_keys st io doomed l acc
      else
        let? messages := read_transcript st (si_read io (session_path (ie_id e))) (ie_id e) in
        live_keys st io doomed l
          (acc ∪ {[session_key (ie_id e)]} ∪ ⋃ (output_keys <$> messages))
  end.

(** [Path::file_stem] and [Path::extension] of a file name. *)
Fixpoint last_dot (name : Text) : option (Text * Text) :=
  match name with
  | [] => None
  | c :: rest =>
      match last_dot rest with
      | Some (stem, ext) => Some (c :: stem, ext)
      | None => if c =? 46 then Some ([], rest) else None
      end
  end.
Definition stem_and_extension (name : Text) : Text * option Text :=
  match last_dot name with
  | Some ([], _) | None => (name, None)
  | Some (stem, ext) => (stem, Some ext)
  end.
Definition tool_output_stems (st : Store) (io : StoreIo) : result (list Text) StoreError :=
  if is_ephemeral st || si_list io then
    Ok (omap (λ p : Path,
      if bool_decide (p.1 = ToolOutputDir) then
        let '(stem, ext) := stem_and_extension p.2 in
        if bool_decide (ext = Some (txt "txt")) then Some stem else None
      else None) (elements (dom (files st))))
  else io_error.

(** ... the sweep of the snapshots nobody owns, the removal of the sessions'
    files, and of their index entries and owner records. *)
Fixpoint remove_all (st : Store) (io : StoreIo) (paths : list Path) : Store * result unit StoreError :=
  match paths with
  | [] => (st, Ok tt)
  | p :: paths =>
      match EventLog.remove st (si_remove io p) p with
      | (st, Ok _) => remove_all st io paths
      | (st, Err e) => (st, Err e)
      end
  end.
Definition sweep_outputs (st : Store) (io : StoreIo) (live : gset Text) (dry_run : bool)
    : Store * result nat StoreError :=
  let! stems := tool_output_stems st io or st in
  let orphans := List.filter (λ s, negb (bool_decide (s ∈ live))) stems in
  if dry_run then (st, Ok (length orphans))
  else match remove_all st io (output_path <$> orphans) with
  | (st, Ok _) => (st, Ok (length orphans))
  | (st, Err e) => (st, Err e)
  end.
Definition drop_entries (st : Store) (io : StoreIo) (doomed : gset SessionId)
    : Store * result unit StoreError :=
  with_index_lock st io
    (let! kept := load_index st io or st in
     save_index st io (List.filter (λ e, negb (bool_decide (ie_id e ∈ doomed))) kept)).
Definition drop_sessions (st : Store) (io : StoreIo) (doomed : gset SessionId)
    : Store * result unit StoreError :=
  match remove_all st io (elements doomed ≫= λ s, [session_path s; events_path s]) with
  | (st, Err e) => (st, Err e)
  | (st, Ok _) =>
      match drop_entries st io doomed with
      | (st, Err e) => (st, Err e)
      | (st, Ok _) =>
          if is_ephemeral st then (st, Ok tt)
          else remove_all st io (record_path <$> elements doomed)
      end
  end.

Definition prune (st : Store) (io : StoreIo) (p : RetentionPolicy) (now : N) (dry_run : bool)
    : Store * result PruneReport StoreError :=
  let! (index, doomed) := prune_doom st io p now or st in
  let! live := live_keys st io doomed index ∅ or st in
  match sweep_outputs st io live dry_run with
  | (st, Err e) => (st, Err e)
  | (st, Ok swept) =>
      let report := mkReport (size doomed) swept in
      if dry_run || bool_decide (doomed = ∅) then (st, Ok report)
      else match drop_sessions st io doomed with
      | (st, Err e) => (st, Err e)
      | (st, Ok _) => (st, Ok report)
      end
  end.
End index.
