(* ===== verification/IndexProps.v ===== *)
(** * The session index: names, retention and pruning *)

From Stdlib Require Import String.
From stdpp Require Import base gmap list sorting numbers.
From S2P Require Import Prelude Monitor Utf8 Chars Message Json Ownership Files EventLog Index.
From stdpp Require Import list sorting.
#[local] Open Scope N_scope.
#[local] Open Scope list_scope.

(** ** Retention *)

#[export] Instance fresher_total : Total fresher.
Proof. intros a b. unfold fresher. lia. Qed.
#[export] Instance fresher_trans : Transitive fresher.
Proof. intros a b c. unfold fresher. lia. Qed.

(** The sessions before [e] in the order of retention. *)
Definition ahead (l : list SessionIndexEntry) (e : SessionIndexEntry) : list SessionIndexEntry :=
  filter (λ e', fresher e' e ∧ ie_id e' ≠ ie_id e) l.

Lemma ahead_sorted l1 e l2 :
  StronglySorted fresher (l1 ++ e :: l2) → NoDup (ie_id <$> l1 ++ e :: l2) →
  ahead (l1 ++ e :: l2) e = l1.
Proof.
  intros Hs Hnd. unfold ahead. rewrite list.filter_app.
  rewrite fmap_app in Hnd. apply list.NoDup_app in Hnd as (_ & Hdis & Hnd). cbn in Hnd.
  apply list.NoDup_cons in Hnd as [He _].
  assert (H1 : ∀ x, x ∈ l1 → fresher x e).
  { intros x Hx. apply list_elem_of_split in Hx as (k1 & k2 & ->). clear -Hs.
    rewrite <-app_assoc in Hs. induction k1 as [|y k1 IH]; cbn in Hs.
    - apply StronglySorted_inv in Hs as [_ Hall]. rewrite list.Forall_forall in Hall. apply Hall. set_solver.
    - apply StronglySorted_inv in Hs as [Hs _]. by apply IH. }
  assert (H2 : ∀ x, x ∈ l2 → fresher e x).
  { clear -Hs. induction l1 as [|y l1 IH]; cbn in Hs; apply StronglySorted_inv in Hs as [Hs Hall]; [|by apply IH].
    by rewrite list.Forall_forall in Hall. }
  replace (filter _ (e :: l2)) with (@nil SessionIndexEntry).
  - rewrite app_nil_r. clear Hs H2. induction l1 as [|x l1 IH]; [done|].
    rewrite filter_cons_True.
    + f_equal. apply IH; [|set_solver]. intros y Hy. apply Hdis. cbn. set_solver.
    + split; [apply H1; set_solver|]. intros Hid. apply (Hdis (ie_id x)); cbn; [by left|].
      rewrite Hid. by left.
  - symmetry. apply filter_nil_iff. intros x Hx [Hf Hne]. apply elem_of_cons in Hx as [->|Hx]; [done|].
    specialize (H2 x Hx). unfold fresher in *. lia.
Qed.

(** Retention keeps the most recently updated sessions.  A session of the
    index is removed exactly when the policy has a limit and at least that many
    other sessions are more recent (ties: a smaller identifier), or when it has
    an age and the session was last updated longer ago, with the cut-off at zero
    once the age reaches past it. *)
Theorem retention_exact l p now e :
  NoDup (ie_id <$> l) → e ∈ l →
  ie_id e ∈ sessions_to_remove l p now ↔
  (max_sessions p ≠ 0 ∧ max_sessions p <= N.of_nat (length (ahead l e))) ∨
  (max_age_days p ≠ 0 ∧ updated_unix e < now - N.min (max_age_days p * 86400) U64_MAX).
Proof.
  intros Hnd He. set (s := merge_sort fresher l).
  assert (Hperm : s ≡ₚ l) by apply merge_sort_Permutation.
  assert (Hsort : StronglySorted fresher s) by (apply StronglySorted_merge_sort; apply _).
  assert (Hs : NoDup (ie_id <$> s)) by (by rewrite Hperm).
  assert (Hrank : ∀ k x, s !! k = Some x → k = length (ahead l x)).
  { intros k x Hk. assert (Hlen : length (ahead s x) = length (ahead l x)).
    { apply Permutation_length. unfold ahead. by rewrite Hperm. }
    rewrite <-Hlen. apply list_elem_of_split_length in Hk as (l1 & l2 & Hl & ->).
    rewrite Hl in *. by rewrite ahead_sorted. }
  unfold sessions_to_remove. fold s. rewrite elem_of_list_to_set, list_elem_of_omap.
  assert (Hold : ∀ x, too_old p now x = true ↔
    max_age_days p ≠ 0 ∧ updated_unix x < now - N.min (max_age_days p * 86400) U64_MAX).
  { intros x. unfold too_old, age_cutoff, sat_sub, u64_sat_mul, SECONDS_PER_DAY.
    destruct (N.ltb_spec 0 (max_age_days p)); rewrite ?N.ltb_lt; [|split; [done|lia]].
    split; [intros; split; [lia|done]|tauto]. }
  assert (Hover : ∀ k, over_count p k = true ↔ max_sessions p ≠ 0 ∧ max_sessions p <= N.of_nat k).
  { intros k. unfold over_count. rewrite andb_true_iff, N.ltb_lt, N.leb_le. lia. }
  rewrite <-Hold. split.
  - intros ([k x] & Hk & Hx). rewrite elem_of_lookup_imap in Hk. destruct Hk as (k' & y & [= -> ->] & Hk).
    destruct (over_count p k' || too_old p now y) eqn:Hr; [|done]. injection Hx as Hid.
    assert (y = e) as ->.
    { assert (Hy : y ∈ s) by by eapply list_elem_of_lookup_2.
      rewrite Hperm in Hy. apply list_elem_of_lookup in Hy as [i Hi].
      apply list_elem_of_lookup in He as [j Hj].
      assert (i = j) as ->; [|congruence].
      eapply (NoDup_lookup (ie_id <$> l)); [done|rewrite list_lookup_fmap, Hi; done|].
      rewrite list_lookup_fmap, Hj. cbn. by rewrite Hid. }
    apply orb_true_iff in Hr as [Hr|Hr]; [left|by right]. apply Hover in Hr. by rewrite <-(Hrank _ _ Hk).
  - intros Hr. rewrite <-Hperm in He. apply list_elem_of_lookup in He as [k Hk].
    exists (k, e). split; [rewrite elem_of_lookup_imap; by eexists _, _|].
    rewrite <-(Hrank _ _ Hk), <-Hover in Hr. apply orb_true_iff in Hr. by rewrite Hr.
Qed.

Lemma retention_exact_witness :
  let l := [mkEntry 1 3 10 500 None; mkEntry 2 1 10 900 None; mkEntry 3 0 10 900 None] in
  1 ∈ sessions_to_remove l (mkPolicy 2 0) 1000 ∧ 3 ∉ sessions_to_remove l (mkPolicy 2 0) 1000.
Proof.
  split.
  - apply (retention_exact _ _ _ (mkEntry 1 3 10 500 None)); [vm_compute; repeat constructor; set_solver|set_solver|].
    left. vm_compute. split; done.
  - rewrite (retention_exact _ _ _ (mkEntry 3 0 10 900 None)); [|vm_compute; repeat constructor; set_solver|set_solver].
    vm_compute. intros [[_ Hc]|[Hc _]]; by apply Hc.
Defined.

(** ** Names *)

Definition same_name (a b : Text) : Prop := to_ascii_lowercase a = to_ascii_lowercase b.

Lemma name_matches_iff o q : name_matches o q = true ↔ ∃ n, o = Some n ∧ same_name n q.
Proof.
  unfold name_matches, eq_ignore_ascii_case, same_name. destruct o as [n|]; [|naive_solver].
  rewrite bool_decide_eq_true. naive_solver.
Qed.

(** Sessions are listed once and no two have the same name, whatever the case. *)
Definition names_ok (l : list SessionIndexEntry) : Prop :=
  NoDup (ie_id <$> l) ∧
  ∀ a b n k, a ∈ l → b ∈ l → ie_name a = Some n → ie_name b = Some k → same_name n k →
    ie_id a = ie_id b.

(** Applies [f] to the entry of one session. *)
Definition at_session (s : SessionId) (f : SessionIndexEntry → SessionIndexEntry)
    (e : SessionIndexEntry) : SessionIndexEntry := if ie_id e =? s then f e else e.

Lemma at_session_absent s f (l : list SessionIndexEntry) : s ∉ ie_id <$> l → at_session s f <$> l = l.
Proof.
  induction l as [|e l IH]; [done|]. cbn. rewrite not_elem_of_cons. intros [Hne Hl].
  rewrite IH by done. unfold at_session. by rewrite (proj2 (N.eqb_neq _ _)).
Qed.

Lemma update_first_exact s f (l : list SessionIndexEntry) :
  NoDup (ie_id <$> l) →
  update_first s f l = if bool_decide (s ∈ ie_id <$> l) then Some (at_session s f <$> l) else None.
Proof.
  induction l as [|e l IH]; intros Hnd; [done|]. cbn in Hnd. apply list.NoDup_cons in Hnd as [He Hnd].
  cbn [update_first fmap list_fmap]. destruct (N.eqb_spec (ie_id e) s) as [<-|Hne].
  - rewrite bool_decide_eq_true_2 by by left. unfold at_session at 1. rewrite N.eqb_refl.
    by rewrite at_session_absent.
  - rewrite IH by done. unfold at_session at 2. rewrite (proj2 (N.eqb_neq _ _) Hne).
    rewrite (bool_decide_ext (s ∈ ie_id e :: (ie_id <$> l)) (s ∈ ie_id <$> l)); [by case_bool_decide|].
    rewrite elem_of_cons. naive_solver.
Qed.

Lemma at_session_ids s f (l : list SessionIndexEntry) : (∀ e, ie_id (f e) = ie_id e) → ie_id <$> (at_session s f <$> l) = ie_id <$> l.
Proof.
  intros Hf. rewrite <-list_fmap_compose. apply list_fmap_ext. intros _ e _. cbn. unfold at_session.
  destruct (ie_id e =? s); [apply Hf|done].
Qed.

Lemma names_ok_map s f (l : list SessionIndexEntry) :
  (∀ e, ie_id (f e) = ie_id e) → (∀ e, ie_name (f e) = ie_name e) → names_ok l →
  names_ok (at_session s f <$> l).
Proof.
  intros Hid Hname [Hnd Hn]. split; [by rewrite at_session_ids|].
  assert (Hsame : ∀ e, ie_id (at_session s f e) = ie_id e ∧ ie_name (at_session s f e) = ie_name e).
  { intros e. unfold at_session. by destruct (ie_id e =? s). }
  intros a b n k (a0 & -> & Ha)%list_elem_of_fmap (b0 & -> & Hb)%list_elem_of_fmap.
  destruct (Hsame a0) as [-> ->], (Hsame b0) as [-> ->]. by apply Hn.
Qed.

Lemma names_ok_snoc (l : list SessionIndexEntry) e :
  ie_id e ∉ ie_id <$> l → names_ok l →
  (∀ a n k, a ∈ l → ie_name a = Some n → ie_name e = Some k → ¬ same_name n k) →
  names_ok (l ++ [e]).
Proof.
  intros He [Hnd Hn] Hnew. split.
  - rewrite fmap_app, list.NoDup_app. split_and!; [done| |apply NoDup_singleton].
    intros x Hx ->%list_elem_of_singleton. done.
  - intros a b n k. rewrite !elem_of_app, !list_elem_of_singleton.
    intros [Ha| ->] [Hb| ->] Hna Hnb Hs; [by eapply Hn|exfalso; by eapply Hnew| |done].
    exfalso. eapply Hnew; [done..|]. by symmetry.
Qed.

Lemma touch_ok s count now l : names_ok l → names_ok (touch_entries s count now l).
Proof.
  intros Hl. unfold touch_entries. rewrite update_first_exact by apply Hl. case_bool_decide as Hs.
  - by apply names_ok_map.
  - apply names_ok_snoc; done.
Qed.

(** Nobody else has the name. *)
Definition free_name (s : SessionId) (name : Text) (l : list SessionIndexEntry) : Prop :=
  ∀ e n, e ∈ l → ie_id e ≠ s → ie_name e = Some n → ¬ same_name n name.

Lemma find_free s name l :
  List.find (λ e, negb (ie_id e =? s) && name_matches (ie_name e) name) l = None ↔ free_name s name l.
Proof.
  unfold free_name. split.
  - intros Hn e n He%list_elem_of_In Hne Hname Hs. apply (find_none _ _ Hn) in He as Hf.
    rewrite (proj2 (N.eqb_neq _ _) Hne) in Hf. cbn in Hf.
    rewrite (proj2 (name_matches_iff (ie_name e) name)) in Hf by eauto. done.
  - intros Hfree. destruct (List.find _ l) as [e|] eqn:Hf; [|done]. exfalso.
    apply find_some in Hf as [He Hp]. apply andb_true_iff in Hp as [Hne Hm].
    apply name_matches_iff in Hm as (n & Hn & Hs). apply negb_true_iff, N.eqb_neq in Hne.
    eapply Hfree; [|done..]. by apply list_elem_of_In.
Qed.

Lemma rename_ok s name now l l' :
  names_ok l → set_name_entries s name now l = Ok l' → names_ok l'.
Proof.
  unfold set_name_entries. intros Hl. destruct (List.find _ l) eqn:Hf; [done|].
  apply find_free in Hf. intros [= <-]. rewrite update_first_exact by apply Hl. case_bool_decide as Hs.
  - destruct Hl as [Hnd Hn]. split; [by rewrite at_session_ids|].
    intros a b n k (a0 & -> & Ha)%list_elem_of_fmap (b0 & -> & Hb)%list_elem_of_fmap. unfold at_session.
    destruct (N.eqb_spec (ie_id a0) s), (N.eqb_spec (ie_id b0) s); cbn; intros Hna Hnb Hsame.
    + congruence.
    + injection Hna as <-. exfalso. eapply (Hf b0); [done..|]. by symmetry.
    + injection Hnb as <-. exfalso. by eapply (Hf a0).
    + by eapply Hn.
  - apply names_ok_snoc; [done..|]. cbn. intros a n k Ha Hna [= <-]. eapply Hf; [done| |done].
    intros <-. apply Hs. by apply list_elem_of_fmap_2.
Qed.

Inductive index_op :=
  | Touch (s : SessionId) (count : nat) (now : N)
  | Rename (s : SessionId) (name : Text) (now : N).
Definition index_step (l : list SessionIndexEntry) (o : index_op) : list SessionIndexEntry :=
  match o with
  | Touch s count now => touch_entries s count now l
  | Rename s name now => match set_name_entries s name now l with Ok l' => l' | Err _ => l end
  end.
Definition run_index (ops : list index_op) : list SessionIndexEntry := fold_left index_step ops [].

Lemma run_index_ok ops : names_ok (run_index ops).
Proof.
  unfold run_index. assert (H0 : names_ok []) by (split; [constructor|by intros ???? ?%elem_of_nil]).
  revert H0. generalize (@nil SessionIndexEntry). induction ops as [|o ops IH]; intros l Hl; [done|].
  apply IH. destruct o as [s count now|s name now]; cbn; [by apply touch_ok|].
  destruct (set_name_entries s name now l) eqn:Hs; [by eapply rename_ok|done].
Qed.

Lemma find_unique l e name n :
  names_ok l → e ∈ l → ie_name e = Some n → same_name n name →
  List.find (λ e, name_matches (ie_name e) name) l = Some e.
Proof.
  intros [Hnd Hn] He Hname Hs. destruct (List.find _ l) as [x|] eqn:Hf.
  - apply find_some in Hf as [Hx Hm]. apply list_elem_of_In in Hx.
    apply name_matches_iff in Hm as (k & Hk & Hks). f_equal.
    assert (Hid : ie_id x = ie_id e).
    { eapply Hn; [done..|]. unfold same_name in *. congruence. }
    apply list_elem_of_lookup in Hx as [i Hi]. apply list_elem_of_lookup in He as [j Hj].
    assert (i = j) as ->; [|congruence].
    eapply (NoDup_lookup (ie_id <$> l)); [done|rewrite list_lookup_fmap, Hi; done|].
    rewrite list_lookup_fmap, Hj. cbn. by rewrite Hid.
  - apply list_elem_of_In in He. apply (find_none _ _ Hf) in He.
    rewrite (proj2 (name_matches_iff (ie_name e) name)) in He; [done|eauto].
Qed.

(** A session's name is its own and finds it.  After any touches and renames
    of an index, sessions are listed once and no two names are the same up to
    case.  A rename is refused exactly when another session has the name, and
    then names it; otherwise the name finds the session, in any case, and every
    other session keeps its entry.  A touch never changes a name. *)
Theorem names_resolve ops s name now :
  let l := run_index ops in
  names_ok l ∧
  match set_name_entries s name now l with
  | Err e => ∃ clash n, clash ∈ l ∧ ie_id clash ≠ s ∧ ie_name clash = Some n ∧ same_name n name ∧
      e = NameTaken name (ie_id clash)
  | Ok l' => free_name s name l ∧
      (∀ q, same_name name q → ∃ e, List.find (λ e, name_matches (ie_name e) q) l' = Some e ∧
         ie_id e = s ∧ ie_name e = Some name) ∧
      ∀ e, ie_id e ≠ s → e ∈ l' ↔ e ∈ l
  end ∧
  ∀ e count, e ∈ touch_entries s count now l →
    (∃ e0, e0 ∈ l ∧ ie_id e0 = ie_id e ∧ ie_name e0 = ie_name e) ∨ (ie_id e ∉ ie_id <$> l ∧ ie_name e = None).
Proof.
  intros l. pose proof (run_index_ok ops) as Hok. fold l in Hok. split; [done|]. split.
  - destruct (set_name_entries s name now l) as [l'|e] eqn:Hset.
    + pose proof (rename_ok _ _ _ _ _ Hok Hset) as Hok'. unfold set_name_entries in Hset.
      destruct (List.find _ l) eqn:Hf; [done|]. apply find_free in Hf. injection Hset as Hl'.
      rewrite update_first_exact in Hl' by apply Hok. split; [done|].
      assert (Hin : ∃ e, e ∈ l' ∧ ie_id e = s ∧ ie_name e = Some name).
      { case_bool_decide as Hs; subst l'.
        - apply list_elem_of_fmap in Hs as (e & Hid & He). exists (named name e). split; [|done].
          apply list_elem_of_fmap. exists e. split; [|done]. unfold at_session. by rewrite <-Hid, N.eqb_refl.
        - eexists. split; [apply elem_of_app; right; by left|done]. }
      split.
      * intros q Hq. destruct Hin as (e & He & Hid & Hn). exists e. split; [|done]. by eapply find_unique.
      * intros e Hne. case_bool_decide; subst l'.
        -- rewrite list_elem_of_fmap. unfold at_session. split.
           ++ intros (e0 & -> & He0). destruct (N.eqb_spec (ie_id e0) s); [|done]. by destruct Hne.
           ++ intros He. exists e. by rewrite (proj2 (N.eqb_neq _ _) Hne).
        -- rewrite elem_of_app, list_elem_of_singleton. split; [|by left]. intros [?| ->]; [done|by destruct Hne].
    + unfold set_name_entries in Hset. destruct (List.find _ l) as [c|] eqn:Hf; [|done].
      injection Hset as <-. apply find_some in Hf as [Hc Hp]. apply andb_true_iff in Hp as [Hne Hm].
      apply name_matches_iff in Hm as (n & Hn & Hs). apply negb_true_iff, N.eqb_neq in Hne.
      exists c, n. split_and!; try done. by apply list_elem_of_In.
  - intros e count. unfold touch_entries. rewrite update_first_exact by apply Hok.
    case_bool_decide as Hs.
    + intros (e0 & -> & He0)%list_elem_of_fmap. left. exists e0. split; [done|]. unfold at_session.
      by destruct (ie_id e0 =? s).
    + rewrite elem_of_app, list_elem_of_singleton. intros [?| ->]; [left; by exists e|by right].
Qed.

(** ** Pruning *)

Section prune.
Context `{Codecs, IndexCodec}.
(** The text of a UUID: one for each, of 36 characters. *)
Context (show_inj : ∀ a b, show_id a = show_id b → a = b).
Context (show_length : ∀ a, length (show_id a) = 36%nat).

(** The files of one session. *)
Definition own_paths (s : SessionId) : list Path := [session_path s; events_path s; record_path s].

Lemma own_paths_disjoint s t q : q ∈ own_paths s → q ∈ own_paths t → s = t.
Proof.
  assert (Hcut : ∀ x y, show_id s ++ x = show_id t ++ y → s = t).
  { intros x y Heq. apply show_inj. apply (f_equal (take 36)) in Heq.
    rewrite !take_app_le, !take_ge in Heq; rewrite ?show_length; done || lia. }
  unfold own_paths, session_path, events_path, record_path. rewrite !elem_of_cons, !elem_of_nil.
  intros [->|[->|[->|[]]]] [Hq|[Hq|[Hq|[]]]]; injection Hq as Hq; by eapply Hcut.
Qed.

Lemma own_paths_sessions s q : q ∈ own_paths s → q.1 = SessionsDir.
Proof. unfold own_paths. rewrite !elem_of_cons, elem_of_nil. by intros [->|[->|[->|[]]]]. Qed.

(** What a store operation that works through [ps] may touch. *)
Definition within (ps : Path → Prop) (st st' : Store) : Prop :=
  is_ephemeral st' = is_ephemeral st ∧ ∀ q, ¬ ps q → files st' !! q = files st !! q.

Lemma within_refl ps st : within ps st st.
Proof. done. Qed.
Lemma within_trans ps st st' st'' : within ps st st' → within ps st' st'' → within ps st st''.
Proof. intros [He Hf] [He' Hf']. split; [congruence|]. intros q Hq. by rewrite Hf', Hf. Qed.
Lemma within_weaken (ps ps' : Path → Prop) st st' :
  (∀ q, ps q → ps' q) → within ps st st' → within ps' st st'.
Proof. intros Hps [He Hf]. split; [done|]. auto. Qed.

Lemma remove_exact st ok p st' r :
  EventLog.remove st ok p = (st', r) →
  within (λ q, q = p) st st' ∧ (∀ q, files st' !! q = files st !! q ∨ files st' !! q = None) ∧
  (r = Ok tt → files st' !! p = None).
Proof.
  unfold EventLog.remove, on_files, remove_file_if_present.
  assert (Hdel : ∀ b, within (λ q, q = p) st (mkStore b (delete p (files st))) ↔ b = is_ephemeral st).
  { intros b. split; [by intros [? _]|]. intros ->. split; [done|]. intros q Hq. cbn. by rewrite lookup_delete_ne. }
  assert (Hor : ∀ q, delete p (files st) !! q = files st !! q ∨ delete p (files st) !! q = None).
  { intros q. destruct (decide (p = q)) as [->|]; [right; apply lookup_delete_eq|left; by rewrite lookup_delete_ne]. }
  destruct (is_ephemeral st) eqn:He.
  - intros [= <- <-]. cbn. rewrite lookup_delete_eq. split_and!; [by apply Hdel|done|done].
  - destruct (files st !! p) as [b|] eqn:Hp; [destruct ok|]; intros [= <- <-]; cbn.
    + rewrite lookup_delete_eq. split_and!; [by apply Hdel|done|done].
    + split_and!; [by split|auto|done].
    + split_and!; [by split|auto|done].
Qed.

Lemma remove_all_exact st io ps st' r :
  remove_all st io ps = (st', r) →
  within (λ q, q ∈ ps) st st' ∧ (∀ q, files st' !! q = files st !! q ∨ files st' !! q = None) ∧
  (r = Ok tt → ∀ q, q ∈ ps → files st' !! q = None).
Proof.
  revert st. induction ps as [|p ps IH]; intros st; cbn.
  - intros [= <- <-]. split_and!; [done|auto|by intros _ q ?%elem_of_nil].
  - destruct (EventLog.remove st (si_remove io p) p) as [st1 [[]|e]] eqn:Hr;
      apply remove_exact in Hr as (Hw & Hor & Hp).
    + intros Hps. destruct (IH _ Hps) as (Hw' & Hor' & Hp'). split_and!.
      * eapply within_trans; eapply within_weaken; [|exact Hw| |exact Hw'];
          intros q; rewrite elem_of_cons; tauto.
      * intros q. destruct (Hor' q) as [->|]; [apply Hor|by right].
      * intros Hok q [->|Hq]%elem_of_cons; [|by apply Hp'].
        destruct (Hor' p) as [->|]; [by apply Hp|done].
    + intros [= <- <-]. split_and!; [|done|done]. eapply within_weaken; [|exact Hw]. intros q ->. by left.
Qed.

Lemma load_index_within st st' io ps :
  within ps st st' → ¬ ps index_path → load_index st' io = load_index st io.
Proof.
  intros [He Hf] Hps. unfold load_index, read_string, read_to_string_opt. by rewrite He, Hf.
Qed.

(** What the index may become. *)
Definition index_kept (st st' : Store) (io : StoreIo) (doomed : gset SessionId) : Prop :=
  files st' !! index_path = files st !! index_path ∨
  ∃ kept, load_index st io = Ok kept ∧ files st' !! index_path =
    Some (encode (index_to_string (List.filter (λ e, negb (bool_decide (ie_id e ∈ doomed))) kept))).

Lemma drop_entries_exact st io doomed st' r :
  drop_entries st io doomed = (st', r) →
  within (λ q, q = index_path) st st' ∧ index_kept st st' io doomed.
Proof.
  unfold drop_entries, with_index_lock, save_index, write_bytes, index_kept.
  assert (Hst : within (λ q, q = index_path) st st) by done.
  destruct (if is_ephemeral st then true else si_index_lock io) eqn:Hl.
  2: { destruct (is_ephemeral st), (si_index_lock io); try done; intros [= <- <-]; auto. }
  assert (Hgo : ∀ w : Store * result unit StoreError, (if is_ephemeral st then w else if si_index_lock io then w else (st, io_error)) = w).
  { intros w. by destruct (is_ephemeral st), (si_index_lock io). }
  rewrite Hgo. clear Hgo Hl. destruct (load_index st io) as [kept|e]; [|intros [= <- <-]; auto].
  destruct (is_ephemeral st || _); intros [= <- <-]; [|auto]. cbn. split; [|right].
  - split; [done|]. intros q Hq. cbn. by rewrite lookup_insert_ne.
  - exists kept. by rewrite lookup_insert_eq.
Qed.

Lemma drop_sessions_exact st io doomed st' r :
  drop_sessions st io doomed = (st', r) →
  within (λ q, q = index_path ∨ ∃ s, s ∈ doomed ∧ q ∈ own_paths s) st st' ∧
  index_kept st st' io doomed ∧
  (r = Ok tt → ∀ s q, s ∈ doomed → q ∈ own_paths s →
     files st' !! q = None ∨ (is_ephemeral st = true ∧ q = record_path s)).
Proof.
  assert (Hown : ∀ s q, q ∈ own_paths s → q ≠ index_path).
  { intros s q Hq ->. by apply own_paths_sessions in Hq. }
  unfold drop_sessions. set (ps := elements doomed ≫= _).
  assert (Hps : ∀ q, q ∈ ps ↔ ∃ s, s ∈ doomed ∧ (q = session_path s ∨ q = events_path s)).
  { intros q. unfold ps. rewrite list_elem_of_bind. setoid_rewrite elem_of_elements.
    setoid_rewrite elem_of_cons. setoid_rewrite list_elem_of_singleton. naive_solver. }
  assert (Hps' : ∀ q, q ∈ ps → ∃ s, s ∈ doomed ∧ q ∈ own_paths s).
  { intros q (s & Hs & Hq)%Hps. exists s. split; [done|]. unfold own_paths. set_solver. }
  destruct (remove_all st io ps) as [st1 r1] eqn:H1. apply remove_all_exact in H1 as (Hw1 & _ & Hg1).
  assert (Hi1 : files st1 !! index_path = files st !! index_path).
  { apply Hw1. intros (s & _ & Hq)%Hps'. by apply (Hown s _ Hq). }
  assert (Hw1' : within (λ q, q = index_path ∨ ∃ s, s ∈ doomed ∧ q ∈ own_paths s) st st1).
  { eapply within_weaken; [|exact Hw1]. auto. }
  destruct r1 as [[]|e]; [|by intros [= <- <-]; split_and!; [done|by left|done]].
  destruct (drop_entries st1 io doomed) as [st2 r2] eqn:H2. apply drop_entries_exact in H2 as [Hw2 Hk2].
  assert (Hk : index_kept st st2 io doomed).
  { destruct Hk2 as [Hk2|(kept & Hl & Hf)]; [left; congruence|right]. exists kept. split; [|done].
    rewrite <-Hl. symmetry. eapply load_index_within; [exact Hw1|]. intros (s & _ & Hq)%Hps'. by apply (Hown s _ Hq). }
  assert (Hw2' : within (λ q, q = index_path ∨ ∃ s, s ∈ doomed ∧ q ∈ own_paths s) st st2).
  { eapply within_trans; [exact Hw1'|]. eapply within_weaken; [|exact Hw2]. auto. }
  assert (Hgone : ∀ s q, s ∈ doomed → q = session_path s ∨ q = events_path s → files st2 !! q = None).
  { intros s q Hs Hq. destruct Hw2 as [_ ->]; [|eapply (Hown s); unfold own_paths; set_solver].
    apply Hg1; [done|]. apply Hps. by exists s. }
  destruct r2 as [[]|e]; [|by intros [= <- <-]; split_and!].
  assert (Heph : is_ephemeral st2 = is_ephemeral st) by apply Hw2'.
  rewrite Heph. destruct (is_ephemeral st) eqn:He.
  { intros [= <- <-]. split_and!; [done..|]. intros _ s q Hs Hq. unfold own_paths in Hq.
    rewrite !elem_of_cons, elem_of_nil in Hq. destruct Hq as [->|[->|[->|[]]]]; [left; by eapply Hgone; auto..|by right]. }
  intros H3. apply remove_all_exact in H3 as (Hw3 & Hor3 & Hg3).
  assert (Hrec : ∀ q, q ∈ record_path <$> elements doomed → ∃ s, s ∈ doomed ∧ q ∈ own_paths s).
  { intros q (s & -> & Hs%elem_of_elements)%list_elem_of_fmap. exists s. split; [done|]. unfold own_paths. set_solver. }
  split_and!.
  - eapply within_trans; [exact Hw2'|]. eapply within_weaken; [|exact Hw3]. auto.
  - destruct Hk as [Hk|(kept & ? & Hk)]; [left|right; exists kept; split; [done|]]; rewrite <-Hk; apply Hw3;
      intros (s & _ & Hq)%Hrec; by apply (Hown s _ Hq).
  - intros Hr s q Hs Hq. left. unfold own_paths in Hq. rewrite !elem_of_cons, elem_of_nil in Hq.
    destruct Hq as [->|[->|[->|[]]]].
    + destruct (Hor3 (session_path s)) as [->|]; [by eapply Hgone; auto|done].
    + destruct (Hor3 (events_path s)) as [->|]; [by eapply Hgone; auto|done].
    + apply Hg3; [done|]. apply list_elem_of_fmap. exists s. by rewrite elem_of_elements.
Qed.

Lemma last_dot_Some name stem ext :
  last_dot name = Some (stem, ext) → name = stem ++ 46 :: ext.
Proof.
  revert stem. induction name as [|c name IH]; intros stem; cbn; [done|].
  destruct (last_dot name) as [[st ex]|].
  - intros [= <- <-]. cbn. f_equal. by apply IH.
  - destruct (N.eqb_spec c 46) as [->|]; [|done]. by intros [= <- <-].
Qed.

Lemma tool_output_stems_exact st io stems k :
  tool_output_stems st io = Ok stems → k ∈ stems → k ≠ [] ∧ is_Some (files st !! output_path k).
Proof.
  unfold tool_output_stems. destruct (is_ephemeral st || si_list io); [|done]. intros [= <-] Hk.
  apply list_elem_of_omap in Hk as ([d name] & Hin & Hk). cbn in Hk.
  apply elem_of_elements, elem_of_dom in Hin. case_bool_decide as Hd; [|done]. subst d.
  unfold stem_and_extension in Hk. destruct (last_dot name) as [[stem ext]|] eqn:Hl; [|by case_bool_decide].
  destruct stem as [|c stem]; [by case_bool_decide|]. case_bool_decide as He; [|done]. injection He as ->.
  injection Hk as <-. split; [done|]. apply last_dot_Some in Hl. by rewrite Hl in Hin.
Qed.

Lemma output_path_inj k j : output_path k = output_path j → k = j.
Proof. unfold output_path. intros [= Heq]. by apply (inj (λ x, x ++ txt ".txt")) in Heq. Qed.

Lemma sweep_exact st io live dry st' r :
  sweep_outputs st io live dry = (st', r) →
  within (λ q, ∃ k, k ∉ live ∧ q = output_path k) st st' ∧ (dry = true → st' = st).
Proof.
  unfold sweep_outputs. destruct (tool_output_stems st io) as [stems|e]; [|by intros [= <- <-]].
  destruct dry; [by intros [= <- <-]|].
  destruct (remove_all st io _) as [st1 r1] eqn:H1. apply remove_all_exact in H1 as (Hw & _).
  intros Heq. assert (st' = st1) as -> by (by destruct r1; injection Heq). split; [|done].
  eapply within_weaken; [|exact Hw]. intros q (k & -> & Hk)%list_elem_of_fmap. exists k. split; [|done].
  apply list_elem_of_In, filter_In in Hk as [_ Hk]. by apply negb_true_iff, bool_decide_eq_false in Hk.
Qed.

(** Everything a survivor needs is live. *)
Lemma live_keys_exact st io doomed l acc live :
  live_keys st io doomed l acc = Ok live →
  acc ⊆ live ∧ ∀ e, e ∈ l → ie_id e ∉ doomed →
    session_key (ie_id e) ∈ live ∧
    ∃ ms, read_transcript st (si_read io (session_path (ie_id e))) (ie_id e) = Ok ms ∧
      ∀ m k, m ∈ ms → k ∈ output_keys m → k ∈ live.
Proof.
  revert acc. induction l as [|e l IH]; intros acc; cbn.
  - intros [= <-]. split; [done|]. by intros e ?%elem_of_nil.
  - case_bool_decide as Hd.
    + intros Hl. destruct (IH _ Hl) as [Hsub Hrest]. split; [done|].
      intros e' [->|He']%elem_of_cons; [done|by apply Hrest].
    + destruct (read_transcript st _ (ie_id e)) as [ms|] eqn:Hms; [|done]. intros Hl.
      destruct (IH _ Hl) as [Hsub Hrest]. split; [set_solver|].
      intros e' [->|He']%elem_of_cons; [|by apply Hrest]. intros _. split; [set_solver|].
      exists ms. split; [done|]. intros m k Hm Hk. apply Hsub. apply elem_of_union_r.
      apply elem_of_union_list. exists (output_keys m). split; [by apply list_elem_of_fmap_2|done].
Qed.

End prune.

(** ** A concrete store *)

#[local] Instance plain : Codecs := {
  from_str _ := None;
  event_to_string _ := [];
  event_from_value _ := None;
  message_to_string _ := [];
  message_from_str l := match l with [k] => Some (Message_new RTool [BToolResult (ToolResult_success [k] [])]) | _ => None end;
  redact t := t;
  show_id s := s :: repeat 48 35;
}.
Definition two_sessions : list SessionIndexEntry := [mkEntry 1 1 10 500 None; mkEntry 2 1 10 900 None].
#[local] Instance plain_index : IndexCodec := {
  index_from_str _ := Some two_sessions;
  index_to_string l := (λ e, 65 + ie_id e) <$> l;
  json_to_string_pretty _ := [];
  parses_as_id _ := false;
}.
(** Both sessions have a transcript that names one tool output. *)
Definition two_on_disk : Store := mkStore false (list_to_map
  [(index_path, [91]); (session_path 1, [97; 10]); (session_path 2, [98; 10]);
   (output_path [97], [65]); (output_path [98], [66])]).

Lemma plain_inj a b : show_id a = show_id b → a = b.
Proof. by intros [= ->]. Qed.
Lemma plain_length a : length (show_id a) = 36%nat.
Proof. reflexivity. Qed.


(** A tool output that another process stores after the live keys were
    collected is swept with the orphans. *)
Lemma prune_can_sweep_a_fresh_output :
  let '(st', _) := put_tool_output two_on_disk store_healthy [99] [67] in
  let '(st'', _) := sweep_outputs st' store_healthy {[session_key 2; [98]]} false in
  files st' !! output_path [99] = Some [67] ∧ files st'' !! output_path [99] = None.
Proof. vm_compute. split; reflexivity. Qed.
