(* ===== verification/History.v ===== *)
(** * Prompt history (crates/localpilot-store/src/history.rs)

    One file of JSON lines for all projects, rewritten whole on every prompt and
    bounded to the newest thousand entries.  The file is its bytes, or absent;
    [serde_json] is a parameter, with the law that a printed entry is one line
    that reads back. *)

From Stdlib Require Import String.
From stdpp Require Import base list numbers sets.
From S2P Require Import Prelude Monitor Utf8 Chars Ownership Files.
From stdpp Require Import list.
#[local] Open Scope N_scope.
#[local] Open Scope list_scope.

Definition HISTORY_FORMAT_VERSION : N := 1.
Definition MAX_HISTORY_ENTRIES : nat := 1000.
Definition PASTE_PERSIST_BUDGET : N := 65536.

Record HistoryPaste := mkPaste { placeholder : Text; paste_content : Text }.
#[export] Instance HistoryPaste_eq_dec : EqDecision HistoryPaste.
Proof. solve_decision. Defined.

Record HistoryEntry := mkHistory {
  h_v : N;
  h_text : Text;
  h_cwd : Text;
  h_at : N;
  h_pastes : list HistoryPaste;
}.
Definition HistoryEntry_new (text : Text) (pastes : list HistoryPaste) (cwd : Text) (now : N)
    : HistoryEntry := mkHistory HISTORY_FORMAT_VERSION text cwd now pastes.

(** The path is known or not; the file is apart. *)
Record PromptHistory := mkPromptHistory { enabled : bool; has_path : bool; muted : bool }.
Definition with_store (has_path : bool) : PromptHistory := mkPromptHistory has_path has_path false.
Definition set_muted (h : PromptHistory) (m : bool) : PromptHistory :=
  mkPromptHistory (enabled h) (has_path h) m.
Definition is_enabled (h : PromptHistory) : bool := enabled h && has_path h && negb (muted h).

(** The file can be read; it can be replaced; its mode can be set. *)
Record HistoryIo := mkHistoryIo { hi_read : bool; hi_write : bool; hi_mode : bool }.
Definition history_healthy : HistoryIo := mkHistoryIo true true true.

Class HistoryCodec := {
  entry_from_str : Text → option HistoryEntry;
  entry_to_string : HistoryEntry → Text;
}.

Section history.
Context `{HistoryCodec}.
Abbreviation File := (option Bytes).

(** [drain(0..len.saturating_sub(MAX))]. *)
Definition newest (l : list HistoryEntry) : list HistoryEntry :=
  drop (length l - MAX_HISTORY_ENTRIES) l.

(** [read_entries]: a file that cannot be read counts as empty. *)
Definition read_entries (file : File) (io : HistoryIo) : list HistoryEntry :=
  match file with
  | Some b =>
      if hi_read io then
        match decode b with
        | Some s => newest (omap entry_from_str (List.filter (λ l, negb (is_blank l)) (lines s)))
        | None => []
        end
      else []
  | None => []
  end.

Definition load (h : PromptHistory) (file : File) (io : HistoryIo) : list HistoryEntry :=
  if negb (enabled h) || muted h then []
  else if has_path h then read_entries file io else [].

Definition kept_pastes (pastes : list HistoryPaste) : list HistoryPaste :=
  if N.of_nat (sum_list_with (λ p, utf8_len (paste_content p)) pastes) <=? PASTE_PERSIST_BUDGET
  then pastes else [].

(** The prompt repeats the newest one. *)
Definition repeats_last (entries : list HistoryEntry) (text : Text) (pastes : list HistoryPaste)
    (cwd : Text) : bool :=
  match list.last entries with
  | Some e => bool_decide (h_text e = text) && bool_decide (h_pastes e = pastes)
              && bool_decide (h_cwd e = cwd)
  | None => false
  end.

Definition body_of (entries : list HistoryEntry) : Text :=
  newest entries ≫= λ e, entry_to_string e ++ [LF].

Definition append_prompt (h : PromptHistory) (file : File) (io : HistoryIo) (text : Text)
    (pastes : list HistoryPaste) (cwd : Text) (now : N) : File * result unit StoreError :=
  if negb (enabled h) || muted h || is_blank text then (file, Ok tt)
  else if negb (has_path h) then (file, Err NoUserDir)
  else
    let entries := read_entries file io in
    let kept := kept_pastes pastes in
    if repeats_last entries text kept cwd then (file, Ok tt)
    else
      let entries := entries ++ [HistoryEntry_new text kept cwd now] in
      if negb (hi_write io) then (file, Err (Io "history"))
      else (Some (encode (body_of entries)),
            if hi_mode io then Ok tt else Err (Io "history")).

Definition project_entries (entries : list HistoryEntry) (cwd : Text) : list HistoryEntry :=
  List.filter (λ e, bool_decide (h_cwd e = cwd)) entries.
Definition project_texts (entries : list HistoryEntry) (cwd : Text) : list Text :=
  h_text <$> project_entries entries cwd.
Definition all_texts (entries : list HistoryEntry) : list Text := h_text <$> entries.

(** ** What is remembered *)

Record Prompt := mkPrompt { p_text : Text; p_pastes : list HistoryPaste; p_cwd : Text; p_now : N }.
Definition entry_of (p : Prompt) : HistoryEntry :=
  HistoryEntry_new (p_text p) (kept_pastes (p_pastes p)) (p_cwd p) (p_now p).

(** Every prompt that is not blank and does not repeat the one before. *)
Definition remember (l : list HistoryEntry) (p : Prompt) : list HistoryEntry :=
  if is_blank (p_text p) || repeats_last l (p_text p) (kept_pastes (p_pastes p)) (p_cwd p)
  then l else l ++ [entry_of p].

Definition submit (h : PromptHistory) (file : File) (p : Prompt) : File :=
  fst (append_prompt h file history_healthy (p_text p) (p_pastes p) (p_cwd p) (p_now p)).

(** A printed entry is one line of JSON that reads back. *)
Definition prints_well (e : HistoryEntry) : Prop :=
  entry_from_str (entry_to_string e) = Some e ∧ one_line_text (entry_to_string e) ∧
  forallb is_scalar (entry_to_string e) = true ∧ is_blank (entry_to_string e) = false.

Lemma body_lines l :
  Forall prints_well l →
  forallb is_scalar (l ≫= λ e, entry_to_string e ++ [LF]) = true ∧
  omap entry_from_str (List.filter (λ l, negb (is_blank l)) (lines (l ≫= λ e, entry_to_string e ++ [LF]))) = l.
Proof.
  induction 1 as [|e l (Hr & [Hlf Hcr] & Hs & Hb) _ [IHs IHr]]; [done|]. cbn [mbind list_bind]. split.
  - by rewrite !forallb_app, Hs, IHs.
  - rewrite <-app_assoc. cbn [app]. rewrite lines_ended; [|done|].
    + cbn [List.filter]. rewrite Hb. cbn. rewrite Hr. by f_equal.
    + intros Hl%last_Some_elem_of. done.
Qed.

Lemma newest_snoc l e : newest (newest l ++ [e]) = newest (l ++ [e]).
Proof.
  unfold newest. rewrite !length_app, length_drop. cbn [length].
  destruct (decide (length l <= MAX_HISTORY_ENTRIES)%nat) as [Hle|Hgt].
  - by replace (length l - MAX_HISTORY_ENTRIES)%nat with 0%nat by lia; rewrite drop_0, Nat.sub_0_r.
  - rewrite !drop_app, drop_drop, length_drop. f_equal; f_equal; lia.
Qed.

Lemma newest_bound l : (length (newest l) <= MAX_HISTORY_ENTRIES)%nat.
Proof. unfold newest. rewrite length_drop. lia. Qed.

Lemma newest_idemp l : newest (newest l) = newest l.
Proof. unfold newest at 1. pose proof (newest_bound l). by replace (_ - _)%nat with 0%nat by lia. Qed.

Lemma newest_last l : list.last (newest l) = list.last l.
Proof.
  unfold newest. destruct l as [|e l _] using rev_ind; [done|].
  rewrite length_app. cbn [length]. rewrite drop_app_le; [by rewrite !last_snoc|].
  unfold MAX_HISTORY_ENTRIES. lia.
Qed.

(** The file holds the newest of [l]. *)
Definition holds_history (file : File) (l : list HistoryEntry) : Prop :=
  read_entries file history_healthy = newest l.

Lemma body_holds l : Forall prints_well l → holds_history (Some (encode (body_of l))) l.
Proof.
  intros Hl. unfold holds_history, read_entries, body_of. cbn [hi_read history_healthy].
  assert (Hn : Forall prints_well (newest l)) by (unfold newest; by apply Forall_drop).
  destruct (body_lines _ Hn) as [Hs Hr]. rewrite decode_encode by done. by rewrite Hr, newest_idemp.
Qed.

Lemma submit_holds h file l p :
  is_enabled h = true → Forall prints_well (l ++ [entry_of p]) → holds_history file l →
  holds_history (submit h file p) (remember l p).
Proof.
  unfold is_enabled, submit, append_prompt, remember. rewrite !andb_true_iff, negb_true_iff.
  intros [[He Hp] Hm] Hl Hf. rewrite He, Hp, Hm. cbn [negb orb].
  destruct (is_blank (p_text p)); [done|]. rewrite Hf. unfold repeats_last. rewrite newest_last.
  fold (repeats_last l (p_text p) (kept_pastes (p_pastes p)) (p_cwd p)).
  change (HistoryEntry_new _ _ _ _) with (entry_of p). cbn [orb].
  destruct (repeats_last l _ _ _); [done|]. cbn [hi_write history_healthy negb fst].
  assert (Hb : holds_history (Some (encode (body_of (newest l ++ [entry_of p])))) (newest l ++ [entry_of p])).
  { apply body_holds. apply Forall_app in Hl as [Hl He']. apply Forall_app. split; [|done].
    unfold newest. by apply Forall_drop. }
  unfold holds_history in *. by rewrite Hf, Hb, newest_snoc.
Qed.

(** The history is the last thousand prompts.  Whatever prompts are submitted
    in an enabled history that starts empty, loading it gives the newest thousand
    of those that were not blank and did not repeat the one before - same text,
    same project, same pastes - in order, with pastes above the budget left out;
    a muted or disabled history neither reads nor writes the file. *)
Theorem history_is_the_newest_prompts h prompts :
  Forall (λ p, prints_well (entry_of p)) prompts →
  (is_enabled h = true →
   load h (fold_left (submit h) prompts None) history_healthy =
     drop (length (fold_left remember prompts []) - 1000) (fold_left remember prompts [])) ∧
  (is_enabled h = false →
   ∀ file, load h file history_healthy = [] ∧ fold_left (submit h) prompts file = file).
Proof.
  intros Hp. split.
  - intros He. assert (Hrun : ∀ file l, Forall prints_well l → holds_history file l →
      holds_history (fold_left (submit h) prompts file) (fold_left remember prompts l)).
    { induction Hp as [|p ps Hp _ IH]; intros file l Hl Hf; [done|]. cbn. apply IH.
      - unfold remember. destruct (_ || _); [done|]. apply Forall_app; split; [done|by apply list.Forall_singleton].
      - apply submit_holds; [done| |done]. apply Forall_app; split; [done|by apply list.Forall_singleton]. }
    unfold is_enabled in He. rewrite !andb_true_iff, negb_true_iff in He. destruct He as [[He1 He2] He3].
    unfold load. rewrite He1, He2, He3. cbn [negb orb].
    specialize (Hrun None [] ltac:(constructor) eq_refl). by rewrite Hrun.
  - intros He file. unfold is_enabled in He. unfold load. split.
    + destruct (enabled h), (has_path h), (muted h); done.
    + clear Hp. induction prompts as [|p ps IH]; [done|]. cbn. rewrite <-IH at 2. f_equal.
      unfold submit, append_prompt. destruct (is_blank (p_text p)); [by rewrite orb_true_r|].
      by destruct (enabled h), (has_path h), (muted h).
Qed.

(** A file that cannot be read when a prompt is recorded is replaced by one that
    holds that prompt alone. *)
Lemma unreadable_history_is_replaced h file p :
  is_enabled h = true → is_blank (p_text p) = false →
  fst (append_prompt h file (mkHistoryIo false true true) (p_text p) (p_pastes p) (p_cwd p) (p_now p)) =
  Some (encode (body_of [entry_of p])).
Proof.
  unfold is_enabled, append_prompt. rewrite !andb_true_iff, negb_true_iff. intros [[He Hp] Hm] Hb.
  rewrite He, Hp, Hm, Hb. by destruct file.
Qed.
End history.

#[local] Instance one_letter : HistoryCodec := {
  entry_from_str t := match t with [c] => Some (mkHistory 1 [c] [] 0 []) | _ => None end;
  entry_to_string := h_text;
}.
Definition letter_prompt (c : N) : Prompt := mkPrompt [c] [] [] 0.

Lemma history_is_the_newest_prompts_witness :
  all_texts (load (with_store true)
    (fold_left (submit (with_store true)) (letter_prompt <$> [97; 97; 98; 97]) None) history_healthy) =
  [[97]; [98]; [97]].
Proof.
  destruct (history_is_the_newest_prompts (with_store true) (letter_prompt <$> [97; 97; 98; 97])) as [Hl _].
  - repeat constructor; cbn; unfold LF, CR; try done; set_solver.
  - rewrite Hl by reflexivity. reflexivity.
Defined.
