(* ===== verification/MessageProps.v ===== *)
(** * Messages: the wire form of a result, and exact redaction *)

From Stdlib Require Import String.
From stdpp Require Import base list numbers sets.
From S2P Require Import Prelude Monitor Utf8 Chars Message.
From stdpp Require Import list.
#[local] Open Scope N_scope.
#[local] Open Scope list_scope.

(** ** Tool results *)

(** What is written reads back, and a line from before outcomes were recorded
    keeps the meaning of its flag. *)
Lemma result_wire_roundtrip r : result_from_wire (result_into_wire r) = r.
Proof. by destruct r. Qed.
Lemma old_wire_error w :
  w_outcome w = None → result_is_error (result_from_wire w) = w_is_error w.
Proof. destruct w as [? ? [] o ?]; cbn; intros ->; done. Qed.

(** ** Occurrences *)

Definition occurs (t s : Text) : Prop := ∃ p q, s = p ++ t ++ q.

Lemma contains_occurs t s : contains t s = true ↔ occurs t s.
Proof.
  induction s as [|c s IH]; cbn [contains]; rewrite ?orb_true_iff, starts_with_true; unfold occurs.
  - split.
    + intros [[r Hr]|]; [|done]. by exists [], r.
    + intros (p & q & Hpq). left. exists q. destruct p; [done|]. done.
  - rewrite IH. unfold occurs. split.
    + intros [[r Hr]|(p & q & ->)]; [by exists [], r|by exists (c :: p), q].
    + intros ([|d p] & q & Hpq); [left; by exists q|right]. injection Hpq as -> ->. by exists p, q.
Qed.

Lemma occurs_cons t c s : occurs t (c :: s) ↔ (∃ q, c :: s = t ++ q) ∨ occurs t s.
Proof.
  unfold occurs. split.
  - intros ([|d p] & q & Hpq); [left; by exists q|right]. injection Hpq as -> ->. by exists p, q.
  - intros [(q & Hq)|(p & q & ->)]; [by exists [], q|by exists (c :: p), q].
Qed.

(** A text without [b] that occurs around a [b] occurs on one side of it. *)
Lemma occurs_split t x b y : b ∉ t → occurs t (x ++ b :: y) → occurs t x ∨ occurs t y.
Proof.
  intros Hb. induction x as [|c x IH]; cbn [app]; rewrite occurs_cons.
  - intros [(q & Hq)|?]; [|by right]. destruct t as [|d t]; [left; by exists [], []|].
    injection Hq as -> _. destruct Hb. by left.
  - intros [(q & Hq)|Ho].
    + left. assert (Hlen : (length t <= length (c :: x))%nat).
      { destruct (Nat.le_gt_cases (length t) (length (c :: x))) as [|Hgt]; [done|]. exfalso. apply Hb.
        apply (list_elem_of_lookup_2 _ (length (c :: x))).
        rewrite <-(lookup_app_l t q) by lia. rewrite <-Hq.
        change (c :: x ++ b :: y) with ((c :: x) ++ b :: y). by rewrite list_lookup_middle. }
      exists [], (drop (length t) (c :: x)). cbn [app].
      change (c :: x ++ b :: y) with ((c :: x) ++ b :: y) in Hq.
      apply (f_equal (take (length t))) in Hq. rewrite take_app_le in Hq by done.
      rewrite take_app_length in Hq. rewrite <-(take_drop (length t) (c :: x)) at 1. by rewrite Hq.
    + destruct (IH Ho) as [(p & q & ->)|?]; [left; by exists (c :: p), q|by right].
Qed.

(** ** Replacement *)

Section replace.
Context (pat mid : Text) (lb rb : N).
Abbreviation rep := (lb :: mid ++ [rb]).

Definition unbracketed (t : Text) : Prop := (lb ∉ t) ∧ (rb ∉ t) ∧ ¬ occurs t mid.

Lemma replace_prefix fuel t s q :
  lb ∉ t → replace_from fuel pat rep s = t ++ q → (length s <= fuel)%nat → ∃ r, s = t ++ r.
Proof.
  revert t s. induction fuel as [|fuel IH]; intros t s Hlb Hs Hf.
  - exists q. cbn in Hs. done.
  - destruct s as [|c s]; [exists []; cbn in Hs; by destruct t|]. cbn [replace_from] in Hs.
    destruct t as [|d t]; [by exists (c :: s)|].
    destruct (Chars.strip_prefix pat (c :: s)) as [rest|].
    + cbn [app] in Hs. injection Hs as -> _. destruct Hlb. by left.
    + cbn [app] in Hs. injection Hs as <- Hs. apply not_elem_of_cons in Hlb as [_ Hlb].
      destruct (IH t s Hlb Hs) as [r ->]; [cbn in Hf; lia|]. by exists r.
Qed.

(** What occurs after the replacement occurred before. *)
Lemma replace_occurs fuel t s :
  unbracketed t → pat ≠ [] → (length s <= fuel)%nat →
  occurs t (replace_from fuel pat rep s) → occurs t s.
Proof.
  intros Ht Hpat. revert s. induction fuel as [|fuel IH]; intros s Hf; [done|].
  destruct s as [|c s]; [done|]. cbn [replace_from].
  destruct Ht as (Hlb & Hrb & Hmid).
  destruct (Chars.strip_prefix pat (c :: s)) as [rest|] eqn:Hp.
  - apply strip_prefix_Some in Hp. intros Ho.
    change (rep ++ replace_from fuel pat rep rest) with ([] ++ lb :: (mid ++ [rb]) ++ replace_from fuel pat rep rest) in Ho.
    destruct (occurs_split t [] lb _ Hlb Ho) as [Ho'|Ho'].
    2: rename Ho' into Ho1.
    { destruct Ho' as (p & q & Hpq). destruct p, t; try done. by exists [], (c :: s). }
    rewrite <-app_assoc in Ho1. clear Ho. cbn [app] in Ho1.
    destruct (occurs_split t mid rb _ Hrb Ho1) as [Ho|Ho]; [done|].
    assert (Hlen : (length rest <= fuel)%nat).
    { apply (f_equal length) in Hp. rewrite length_app in Hp. cbn in Hp, Hf. destruct pat; [done|]. cbn in Hp. lia. }
    apply IH in Ho as (x & y & ->); [|done]. rewrite Hp. exists (pat ++ x), y. by rewrite <-app_assoc.
  - rewrite !occurs_cons. intros [(q & Hq)|Ho]; [left|right].
    + destruct t as [|d t]; [by exists (c :: s)|]. injection Hq as -> Hq.
      apply not_elem_of_cons in Hlb as [_ Hlb].
      destruct (replace_prefix fuel t s q Hlb Hq) as [r ->]; [cbn in Hf; lia|]. by exists r.
    + apply IH in Ho; [done|]. cbn in Hf. lia.
Qed.

(** The pattern itself does not. *)
Lemma replace_complete fuel s :
  unbracketed pat → pat ≠ [] → (length s <= fuel)%nat → ¬ occurs pat (replace_from fuel pat rep s).
Proof.
  intros Ht Hpat. revert s. induction fuel as [|fuel IH]; intros s Hf.
  - destruct s; [|cbn in Hf; lia]. cbn. intros (p & q & Hpq). by destruct p, pat.
  - destruct s as [|c s]; [cbn; intros (p & q & Hpq); by destruct p, pat|]. cbn [replace_from].
    destruct Ht as (Hlb & Hrb & Hmid).
    destruct (Chars.strip_prefix pat (c :: s)) as [rest|] eqn:Hp.
    + apply strip_prefix_Some in Hp. intros Ho.
      change (rep ++ replace_from fuel pat rep rest) with ([] ++ lb :: (mid ++ [rb]) ++ replace_from fuel pat rep rest) in Ho.
      destruct (occurs_split pat [] lb _ Hlb Ho) as [Ho'|Ho'].
      2: rename Ho' into Ho1.
      { destruct Ho' as (p & q & Hpq). by destruct p, pat. }
      rewrite <-app_assoc in Ho1. clear Ho. cbn [app] in Ho1.
      destruct (occurs_split pat mid rb _ Hrb Ho1) as [Ho|Ho]; [done|].
      revert Ho. apply IH.
      apply (f_equal length) in Hp. rewrite length_app in Hp. cbn in Hp, Hf. destruct pat; [done|]. cbn in Hp. lia.
    + rewrite occurs_cons. intros [(q & Hq)|Ho].
      * assert (Hpre : ∃ r, c :: s = pat ++ r).
        { apply (replace_prefix (S fuel) pat (c :: s) q Hlb); [|done]. cbn [replace_from]. by rewrite Hp. }
        destruct Hpre as [r Hr]. apply strip_prefix_Some in Hr. congruence.
      * revert Ho. apply IH. cbn in Hf. lia.
Qed.
End replace.

(** ** Exact redaction *)

Definition LBRACKET : N := 91.
Definition RBRACKET : N := 93.

(** A secret that the placeholder cannot imitate. *)
Definition plain_secret (s : Text) : Prop :=
  (LBRACKET ∉ s) ∧ (RBRACKET ∉ s) ∧ s ≠ txt "REDACTED".

Lemma plain_unbracketed s :
  plain_secret s → is_exact_redactable s = true → unbracketed (txt "REDACTED") LBRACKET RBRACKET s.
Proof.
  unfold is_exact_redactable, MIN_EXACT_REDACTION_LEN. rewrite Nat.leb_le.
  intros (Hl & Hr & Hne) Hlen. split_and!; [done..|]. intros (p & q & Hpq). apply Hne.
  pose proof (f_equal length Hpq) as Hlq. rewrite !length_app in Hlq. cbn [length txt] in Hlq.
  assert (length p = 0%nat ∧ length q = 0%nat) as [Hp0 Hq0].
  { change (length (txt "REDACTED")) with 8%nat in Hlq. lia. }
  destruct p, q; try done. by rewrite app_nil_r in Hpq.
Qed.

(** One secret of the fold. *)
Lemma redact_one out secret t :
  plain_secret secret → is_exact_redactable secret = true →
  let out' := if contains secret out then replace secret REDACTED_EXACT out else out in
  ¬ occurs secret out' ∧
  (plain_secret t → is_exact_redactable t = true → ¬ occurs t out → ¬ occurs t out').
Proof.
  intros Hs Hr. cbn zeta. pose proof (plain_unbracketed _ Hs Hr) as Hu.
  assert (Hne : secret ≠ []) by (intros ->; done).
  destruct (contains secret out) eqn:Hc.
  - change REDACTED_EXACT with (LBRACKET :: txt "REDACTED" ++ [RBRACKET]). unfold replace. split.
    + by apply replace_complete.
    + intros Ht Htr Hno Ho. apply Hno. eapply (replace_occurs secret (txt "REDACTED") LBRACKET RBRACKET);
        [by apply plain_unbracketed|done|done|exact Ho].
  - split; [|auto]. intros Ho. apply contains_occurs in Ho. congruence.
Qed.

(** A redacted text shows no secret.  For secrets that the placeholder cannot
    imitate, none that is long enough to be redacted occurs in the result, in
    whatever order they are listed and however they overlap; and a text that
    shows none of them is handed back as it is. *)
Theorem secrets_do_not_survive text secrets :
  Forall plain_secret secrets →
  (∀ s, s ∈ secrets → is_exact_redactable s = true → ¬ occurs s (redact_exact text secrets)) ∧
  ((∀ s, s ∈ secrets → is_exact_redactable s = true → ¬ occurs s text) → redact_exact text secrets = text).
Proof.
  intros Hplain. unfold redact_exact. set (step := λ out secret, _).
  assert (Hkeep : ∀ l out t, Forall plain_secret l → plain_secret t → is_exact_redactable t = true →
    ¬ occurs t out → ¬ occurs t (fold_left step l out)).
  { induction l as [|x l IH]; intros out t Hl Ht Htr Hno; [done|]. apply Forall_cons in Hl as [Hx Hl].
    cbn [fold_left]. apply IH; [done..|]. unfold step. destruct (is_exact_redactable x) eqn:Hxr; [|done].
    cbn [negb]. by apply (redact_one out x t Hx Hxr). }
  split.
  - revert text. induction secrets as [|x l IH]; intros text s Hs Hr; [by apply elem_of_nil in Hs|].
    apply Forall_cons in Hplain as [Hx Hl]. cbn [fold_left]. apply elem_of_cons in Hs as [->|Hs].
    + apply Hkeep; [done..|]. unfold step. rewrite Hr. cbn [negb]. exact (proj1 (redact_one text x x Hx Hr)).
    + exact (IH Hl _ _ Hs Hr).
  - clear Hkeep. induction secrets as [|x l IH]; intros Hno; [done|]. apply Forall_cons in Hplain as [Hx Hl].
    cbn [fold_left]. assert (Hstep : step text x = text).
    { unfold step. destruct (is_exact_redactable x) eqn:Hr; [|done]. cbn [negb].
      destruct (contains x text) eqn:Hc; [|done]. apply contains_occurs in Hc.
      destruct (Hno x); [by left|done..]. }
    rewrite Hstep. apply IH; [done|]. intros s Hs. apply Hno. by right.
Qed.

Lemma secrets_do_not_survive_witness :
  contains (txt "hunter2hunter2") (redact_exact (txt "a hunter2hunter2hunter2 b") [txt "hunter2hunter2"]) = false.
Proof.
  destruct (contains _ _) eqn:Hc; [|reflexivity]. exfalso. apply contains_occurs in Hc. revert Hc.
  apply (secrets_do_not_survive (txt "a hunter2hunter2hunter2 b") [txt "hunter2hunter2"]).
  - repeat constructor; vm_compute; set_solver.
  - by left.
  - reflexivity.
Defined.

(** The order can leave a piece of a longer secret in sight. *)
Lemma a_shorter_secret_first_leaves_the_rest :
  redact_exact (txt "key hunter2hunter2-live") [txt "hunter2hunter2"; txt "hunter2hunter2-live"] =
  txt "key [REDACTED]-live".
Proof. vm_compute. reflexivity. Qed.
