(* ===== verification/Compaction.v ===== *)
(** * Context compaction (crates/localpilot-harness/src/compaction.rs)

    A conversation over its budget loses its oldest exchanges, which a summary
    stands in for; one exchange too large is split at the start of an answer, and
    as a last resort outputs are cut.  Lengths are in bytes, cuts in characters,
    as in the source; the text of a JSON value is a parameter. *)

From Stdlib Require Import String.
From stdpp Require Import base list numbers.
From S2P Require Import Prelude Monitor Utf8 Chars Message.
From stdpp Require Import list.
#[local] Open Scope nat_scope.
#[local] Open Scope list_scope.

Definition SUMMARY_TITLE : Text := txt "Conversation summary for trimmed history:".
Definition TRUNCATED_OUTPUT_CHARS : nat := 240.
Definition TRUNCATION_NOTE : Text := LF :: txt "[output truncated during context compaction]".

(** ** Small helpers *)

Definition first_text (m : Message) : option Text :=
  head (omap (λ b, match b with BText t => Some t | _ => None end) (content m)).

Definition truncate (text : Text) (max_chars : nat) : Text :=
  take max_chars text ++ (if max_chars <? length text then txt "..." else []).

(** [BTreeMap::entry(k).or_default()] changed by [f], and [BTreeSet::insert]. *)
Fixpoint bt_entry {V} (k : Text) (f : option V → V) (m : list (Text * V)) : list (Text * V) :=
  match m with
  | [] => [(k, f None)]
  | (k', v) :: m' =>
      if bool_decide (k = k') then (k, f (Some v)) :: m'
      else if text_lt k k' then (k, f None) :: m
      else (k', v) :: bt_entry k f m'
  end.
Fixpoint bt_get {V} (k : Text) (m : list (Text * V)) : option V :=
  match m with
  | [] => None
  | (k', v) :: m => if bool_decide (k = k') then Some v else bt_get k m
  end.
Fixpoint bs_insert (k : Text) (s : list Text) : list Text :=
  match s with
  | [] => [k]
  | k' :: s' => if bool_decide (k = k') then s else if text_lt k k' then k :: s else k' :: bs_insert k s'
  end.

(** Keeps, from the right, the first [max] items whose key was not seen. *)
Fixpoint first_unique (key : Text → Text) (seen : list Text) (l : list Text) : list Text :=
  match l with
  | [] => []
  | x :: l => if bool_decide (key x ∈ seen) then first_unique key seen l
              else x :: first_unique key (key x :: seen) l
  end.
Definition bounded_unique (items : list Text) (max : nat) : list Text :=
  rev (take max (first_unique to_ascii_lowercase [] (rev items))).
Definition recency_unique (items : list Text) : list Text :=
  rev (first_unique id [] (rev items)).

(** ** Estimates *)

Inductive CompactionMode := Deterministic | SmartWithFallback.

Record CompactionMetadata := mkMeta {
  requested_mode : CompactionMode;
  used_mode : CompactionMode;
  cm_dropped_exchanges : nat;
  cm_kept_messages : nat;
  cm_dropped_messages : nat;
  digest_estimate_tokens : nat;
  fallback_reason : option Text;
  truncated_tool_results : nat;
}.
Record CompactionResult := mkResult {
  cr_messages : list Message;
  compacted : bool;
  cr_summary : option StructuredSummary;
  cr_metadata : CompactionMetadata;
}.
Record CompactionPlan := mkPlan {
  cp_result : CompactionResult;
  cp_dropped : list (list Message);
  cp_carried : list Text;
}.

Section compaction.
(** [Value::to_string]. *)
Context (json_text : Json → Text).

Definition block_chars (b : ContentBlock) : nat :=
  match b with
  | BText t | BReasoning t _ _ => utf8_len t
  | BToolUse call => utf8_len (tc_name call) + utf8_len (json_text (tc_input call))
  | BToolResult r => utf8_len (tr_output r) +
      match tr_image r with Some i => utf8_len (ti_data i) | None => 0 end
  | BImage _ data => utf8_len data
  end.
Definition message_chars (m : Message) : nat := sum_list_with block_chars (content m).
Definition estimate_tokens (ms : list Message) : nat := sum_list_with message_chars ms / 4.

(** A tool as a request advertises it. *)
Record ToolSpec := mkToolSpec { ts_name : Text; ts_description : Text; ts_input_schema : Json }.
Definition estimate_tool_spec_tokens (tools : list ToolSpec) : nat :=
  sum_list_with (λ t, utf8_len (ts_name t) + utf8_len (ts_description t)
    + utf8_len (json_text (ts_input_schema t))) tools / 4.

(** ** The digest of what is dropped *)

Record DigestBuckets := mkBuckets {
  bk_sections : SummarySectionKind → list Text;
  latest_user_intent : option Text;
  command_counts : list (Text * nat);
  file_paths : list Text;
  file_ops : list (Text * list Text);
  failures : list Text;
  stale : list Text;
}.
Definition no_buckets : DigestBuckets := mkBuckets (λ _, []) None [] [] [] [] [].

Definition push_section (k : SummarySectionKind) (t : Text) (b : DigestBuckets) : DigestBuckets :=
  mkBuckets (λ k', if bool_decide (k' = k) then bk_sections b k' ++ [t] else bk_sections b k')
    (latest_user_intent b) (command_counts b) (file_paths b) (file_ops b) (failures b) (stale b).
Definition set_intent (i : option Text) (b : DigestBuckets) : DigestBuckets :=
  mkBuckets (bk_sections b) i (command_counts b) (file_paths b) (file_ops b) (failures b) (stale b).
Definition count_command (name : Text) (b : DigestBuckets) : DigestBuckets :=
  mkBuckets (bk_sections b) (latest_user_intent b)
    (bt_entry name (λ c, S (default 0 c)) (command_counts b)) (file_paths b) (file_ops b)
    (failures b) (stale b).
Definition add_paths (ps : list Text) (b : DigestBuckets) : DigestBuckets :=
  mkBuckets (bk_sections b) (latest_user_intent b) (command_counts b) (file_paths b ++ ps)
    (file_ops b) (failures b) (stale b).
Definition add_op (path op : Text) (b : DigestBuckets) : DigestBuckets :=
  mkBuckets (bk_sections b) (latest_user_intent b) (command_counts b) (file_paths b)
    (bt_entry path (λ ops, bs_insert op (default [] ops)) (file_ops b)) (failures b) (stale b).
Definition add_failure (t : Text) (b : DigestBuckets) : DigestBuckets :=
  mkBuckets (bk_sections b) (latest_user_intent b) (command_counts b) (file_paths b) (file_ops b)
    (bs_insert t (failures b)) (stale b).
Definition add_stale (t : Text) (b : DigestBuckets) : DigestBuckets :=
  mkBuckets (bk_sections b) (latest_user_intent b) (command_counts b) (file_paths b) (file_ops b)
    (failures b) (bs_insert t (stale b)).

(** The characters trimmed off a token. *)
Definition token_edge (c : N) : bool :=
  existsb (N.eqb c) [44; 59; 58; 34; 39; 40; 41; 91; 93]%N.
Definition is_path_token (token : Text) : bool :=
  contains (txt "/") token || contains (txt "\") token
  || ends_with (txt ".rs") token || ends_with (txt ".toml") token
  || ends_with (txt ".md") token || ends_with (txt ".json") token.
Definition collect_text_paths (text : Text) (paths : list Text) : list Text :=
  fold_left (λ paths token,
    let token := trim_chars token_edge token in
    if is_path_token token then bs_insert (truncate token 160) paths else paths)
    (split_whitespace text) paths.

Definition path_key (key : Text) : bool :=
  existsb (λ k, bool_decide (key = k)) [txt "path"; txt "file"; txt "filename"; txt "target"].
Fixpoint collect_json_paths (v : Json) (paths : list Text) : list Text :=
  match v with
  | JString t => collect_text_paths t paths
  | JArray l => fold_left (λ paths v, collect_json_paths v paths) l paths
  | JObject m =>
      fold_left (λ paths '(key, v),
        let paths :=
          if path_key key
          then match v with JString t => collect_text_paths t paths | _ => paths end
          else paths in
        collect_json_paths v paths) m paths
  | _ => paths
  end.

Definition classify_file_op (tool_name : Text) : option Text :=
  let name := to_ascii_lowercase tool_name in
  if contains_any name (txt <$> ["delete"; "remove"; "unlink"; "rmdir"; "rm_"]%string)
  then Some (txt "deleted")
  else if contains_any name (txt <$> ["create"; "new_file"; "touch"; "mkdir"]%string)
  then Some (txt "created")
  else if contains_any name
    (txt <$> ["write"; "edit"; "modify"; "replace"; "patch"; "append"; "insert"; "apply"]%string)
  then Some (txt "modified")
  else if contains_any name (txt <$> ["read"; "cat"; "open"; "view"; "show"; "load"]%string)
  then Some (txt "read")
  else None.

(** [classify_text]. *)
Definition when (c : bool) (f : DigestBuckets → DigestBuckets) (b : DigestBuckets) : DigestBuckets :=
  if c then f b else b.
Definition classify_intent (trimmed lower : Text) (b : DigestBuckets) : DigestBuckets :=
  let b := set_intent (Some (truncate trimmed 120)) b in
  let b := when (contains_any lower (txt <$> ["prefer"; "always"; "never"; "constraint"; "require"]%string))
             (push_section Constraints (truncate trimmed 140)) b in
  when (contains_any lower (txt <$> ["next"; "todo"; "pending"; "after that"]%string))
    (push_section NextSteps (truncate trimmed 140)) b.
Definition classify_text (r : Role) (synthetic : bool) (text : Text) (b : DigestBuckets)
    : DigestBuckets :=
  let trimmed := trim text in
  match trimmed with
  | [] => b
  | _ =>
      let lower := to_ascii_lowercase trimmed in
      let b := when (bool_decide (r = RUser) && negb synthetic) (classify_intent trimmed lower) b in
      let b := when (contains_any lower (txt <$> ["decided"; "decision"; "use "; "switch to"; "settled"]%string))
                 (push_section Decisions (truncate trimmed 140)) b in
      let b := when (contains_any lower (txt <$> ["fixed"; "implemented"; "changed"; "added"; "completed"]%string))
                 (push_section Progress (truncate trimmed 140)) b in
      let b := when (contains_any lower (txt <$> ["blocked"; "risk"; "unknown"; "cannot"; "failed"]%string))
                 (if contains (txt "failed") lower || contains (txt "error") lower
                  then add_failure (truncate trimmed 140)
                  else push_section Risks (truncate trimmed 140)) b in
      let b := when (contains_any lower (txt <$> ["obsolete"; "stale"; "superseded"; "replaced"]%string))
                 (add_stale (truncate trimmed 140)) b in
      let b := match Chars.strip_prefix (txt "$ ") trimmed with
               | Some command => count_command (truncate command 120) b
               | None => b
               end in
      add_paths (collect_text_paths trimmed []) b
  end.

(** One block, and one message, of [semantic_digest]. *)
Definition digest_block (st : DigestBuckets * list SummarySource) (blk : ContentBlock)
    : DigestBuckets * list SummarySource :=
  let '(b, sources) := st in
  match blk with
  | BToolUse call =>
      let b := count_command (tc_name call) b in
      let sources := sources ++ [SummarySource_new SrcToolCall (tc_id call)] in
      let paths := collect_json_paths (tc_input call) [] in
      let b := match classify_file_op (tc_name call) with
               | Some op => fold_left (λ b path, add_op path op b) paths b
               | None => b
               end in
      (add_paths paths b, sources)
  | BToolResult r =>
      let b := when (result_is_error r) (add_failure (truncate (tr_output r) 120)) b in
      (b, sources ++ [SummarySource_new SrcToolResult (tr_id r)])
  | _ => st
  end.
Definition digest_message (st : DigestBuckets * list SummarySource) (m : Message)
    : DigestBuckets * list SummarySource :=
  let '(b, sources) := st in
  let b := match first_text m with
           | Some t => classify_text (role m) (is_synthetic m) t b
           | None => b
           end in
  fold_left digest_block (content m) (b, sources).
Definition digest_exchange (st : DigestBuckets * list SummarySource) (ix : nat * list Message)
    : DigestBuckets * list SummarySource :=
  let '(b, sources) := st in
  let range := txt "exchange-" ++ show_nat ix.1 in
  fold_left digest_message ix.2 (b, sources ++ [SummarySource_new MessageRange range]).

Record SemanticDigest := mkDigest {
  sd_entries : list Text;
  sd_sections : list SummarySection;
  sd_sources : list SummarySource;
}.

Definition ALL_SECTIONS : list SummarySectionKind :=
  [Goal; Constraints; Progress; Decisions; NextSteps; CriticalContext; RelevantFiles;
   CommandOutcomes; Risks; StaleOrSuperseded].

Definition command_item (c : Text * nat) : Text :=
  if 1 <? c.2 then c.1 ++ txt " used " ++ show_nat c.2 ++ txt " time(s)" else c.1 ++ txt " used".
Definition file_label (ops : list (Text * list Text)) (path : Text) : Text :=
  match bt_get path ops with
  | Some (o :: os) => Chars.join (txt "/") (o :: os) ++ txt " " ++ path
  | _ => path
  end.

Definition semantic_digest (dropped : list (list Message)) : SemanticDigest :=
  let '(b, sources) := fold_left digest_exchange (imap pair dropped) (no_buckets, []) in
  let b := match latest_user_intent b with
           | Some goal => set_intent None (push_section Goal goal b)
           | None => b
           end in
  let b := fold_left (λ b c, push_section CommandOutcomes (command_item c) b) (command_counts b) b in
  let paths := recency_unique (file_paths b) in
  let sources := sources ++ ((λ p, with_path (SummarySource_new FilePath p) p) <$> paths) in
  let b := fold_left (λ b p, push_section RelevantFiles (file_label (file_ops b) p) b) paths b in
  let b := fold_left (λ b f, push_section CommandOutcomes (txt "failure observed: " ++ f) b)
             (failures b) b in
  let b := fold_left (λ b t, push_section StaleOrSuperseded t b) (stale b) b in
  let entries := ALL_SECTIONS ≫= λ k,
    (λ item, section_label k ++ txt ": " ++ item) <$> bounded_unique (bk_sections b k) 4 in
  let sections := omap (λ k, match bk_sections b k with
    | [] => None
    | items => Some (mkSection k (bounded_unique items 8)) end) ALL_SECTIONS in
  mkDigest entries sections sources.

Definition summarize_exchange (exchange : list Message) (max_user_chars : nat) : option Text :=
  let user :=
    m ← List.find (λ m, bool_decide (role m = RUser) && negb (is_synthetic m)) exchange;
    t ← first_text m; Some (truncate t max_user_chars) in
  let tools := exchange ≫= λ m,
    omap (λ b, match b with BToolUse call => Some (tc_name call) | _ => None end) (content m) in
  match user, tools with
  | Some u, [] => Some (txt "user asked: " ++ u)
  | Some u, _ => Some (txt "user asked: " ++ u ++ txt "; tools used: " ++ Chars.join (txt ", ") tools)
  | None, [] => None
  | None, _ => Some (txt "tools used: " ++ Chars.join (txt ", ") tools)
  end.

Definition structured_summary_with (dropped : list (list Message)) (max_exchanges max_user_chars : nat)
    : option StructuredSummary :=
  match dropped with
  | [] => None
  | _ =>
      let recent := drop (length dropped - max_exchanges) dropped in
      Some (StructuredSummary_new SUMMARY_TITLE
              (omap (λ e, summarize_exchange e max_user_chars) recent))
  end.
Definition structured_summary (dropped : list (list Message)) : option StructuredSummary :=
  structured_summary_with dropped 4 120.

(** ** The plan *)

Definition build_messages (system : list Message) (summary : option StructuredSummary)
    (exchanges : list (list Message)) : list Message :=
  system ++ match summary with Some s => [Message_text RSystem (summary_render s)] | None => [] end
    ++ concat exchanges.

Definition is_summary_message (m : Message) : bool :=
  match first_text m with Some t => starts_with SUMMARY_TITLE t | None => false end.

(** The earlier summaries among the system messages, and the others. *)
Fixpoint trim_dashes (fuel : nat) (t : Text) : Text :=
  match fuel with
  | O => t
  | S fuel => match Chars.strip_prefix (txt "- ") t with Some t => trim_dashes fuel t | None => t end
  end.
Definition carried_of (m : Message) : list Text :=
  match first_text m with
  | Some t => (λ l, trim_dashes (length l) l) <$> drop 1 (lines t)
  | None => []
  end.

Definition MAX_ENTRIES : nat := 8.
Definition fold_carried (carried : list Text) (summary : option StructuredSummary)
    : option StructuredSummary :=
  match carried with
  | [] => summary
  | _ =>
      let es := carried ++ match summary with Some s => entries s | None => [] end in
      Some (StructuredSummary_new SUMMARY_TITLE (drop (length es - MAX_ENTRIES) es))
  end.

(** Starts a new exchange. *)
Definition opens_exchange (m : Message) : bool :=
  bool_decide (role m = RUser) && negb (is_synthetic m).
Definition exchange_step (exchanges : list (list Message)) (m : Message) : list (list Message) :=
  let exchanges := if opens_exchange m || bool_decide (exchanges = []) then exchanges ++ [[]]
                   else exchanges in
  match rev exchanges with
  | last :: before => rev before ++ [last ++ [m]]
  | [] => exchanges
  end.
Definition split_exchanges (body : list Message) : list (list Message) :=
  fold_left exchange_step body [].

Fixpoint drop_oldest (system : list Message) (exchanges dropped : list (list Message)) (limit : nat)
    : list (list Message) * list (list Message) :=
  match exchanges with
  | x :: ((_ :: _) as rest) =>
      if estimate_tokens (system ++ concat exchanges) <=? limit then (exchanges, dropped)
      else drop_oldest system rest (dropped ++ [x]) limit
  | _ => (exchanges, dropped)
  end.

Fixpoint drop_for_summary (system : list Message) (carried : list Text)
    (summary : option StructuredSummary) (exchanges dropped : list (list Message)) (limit : nat)
    : list (list Message) * list (list Message) * option StructuredSummary :=
  match exchanges with
  | x :: ((_ :: _) as rest) =>
      if estimate_tokens (build_messages system summary exchanges) <=? limit
      then (exchanges, dropped, summary)
      else
        let dropped := dropped ++ [x] in
        drop_for_summary system carried (fold_carried carried (structured_summary dropped)) rest
          dropped limit
  | _ => (exchanges, dropped, summary)
  end.

Fixpoint leading_users (ms : list Message) : nat :=
  match ms with
  | m :: ms => if bool_decide (role m = RUser) then S (leading_users ms) else 0
  | [] => 0
  end.
(** An answer that follows a tool or a user message may start the suffix. *)
Definition can_cut (exchange : list Message) (cut : nat) : bool :=
  match exchange !! cut, exchange !! (cut - 1) with
  | Some m, Some before =>
      bool_decide (role m = RAssistant)
      && (bool_decide (role before = RTool) || bool_decide (role before = RUser))
  | _, _ => false
  end.
Fixpoint try_cuts (system : list Message) (summary : option StructuredSummary)
    (exchange : list Message) (limit anchor : nat) (cuts : list nat)
    : option (list Message * list Message) :=
  match cuts with
  | [] => None
  | cut :: cuts =>
      if can_cut exchange cut then
        let suffix := take anchor exchange ++ drop cut exchange in
        if estimate_tokens (build_messages system summary [suffix]) <=? limit
        then Some (drop anchor (take cut exchange), suffix)
        else try_cuts system summary exchange limit anchor cuts
      else try_cuts system summary exchange limit anchor cuts
  end.
Definition split_oversized_exchange (system : list Message) (summary : option StructuredSummary)
    (exchange : list Message) (limit : nat) : option (list Message * list Message) :=
  match exchange with
  | m :: _ =>
      if bool_decide (role m = RUser) then
        let anchor := leading_users exchange in
        try_cuts system summary exchange limit anchor
          (seq (anchor + 1) (length exchange - (anchor + 1)))
      else None
  | [] => None
  end.

(** ** Outputs *)

Definition truncate_block (b : ContentBlock) : ContentBlock * nat :=
  match b with
  | BToolResult r =>
      if TRUNCATED_OUTPUT_CHARS <? length (tr_output r)
      then (BToolResult (mkToolResult (tr_id r)
              (truncate (tr_output r) TRUNCATED_OUTPUT_CHARS ++ TRUNCATION_NOTE)
              (tr_outcome r) (tr_image r)), 1)
      else (b, 0)
  | _ => (b, 0)
  end.
Definition truncate_message (m : Message) : Message * nat :=
  let bs := truncate_block <$> content m in
  (mkMessage (role m) bs.*1 (metadata m), sum_list bs.*2).
Fixpoint truncate_loop (done rest : list Message) (limit truncated : nat) : list Message * nat :=
  match rest with
  | [] => (done, truncated)
  | m :: rest' =>
      if estimate_tokens (done ++ rest) <=? limit then (done ++ rest, truncated)
      else let '(m, k) := truncate_message m in truncate_loop (done ++ [m]) rest' limit (truncated + k)
  end.
Definition truncate_oldest_tool_results (ms : list Message) (limit : nat) : list Message * nat :=
  truncate_loop [] ms limit 0.

(** ** The digest in the conversation *)

Fixpoint replace_summary (ms : list Message) (rendered : Text) : option (list Message) :=
  match ms with
  | [] => None
  | m :: ms =>
      if is_summary_message m then Some (Message_text RSystem rendered :: ms)
      else cons m <$> replace_summary ms rendered
  end.
Definition swap_summary (ms : list Message) (s : StructuredSummary) : option (list Message) :=
  replace_summary ms (summary_render s).

Definition PRIORITY : list SummarySectionKind :=
  [Goal; Constraints; Progress; Decisions; NextSteps; RelevantFiles; CommandOutcomes; Risks;
   StaleOrSuperseded; CriticalContext].
Definition prioritized_entries (digest : StructuredSummary) : list Text :=
  PRIORITY ≫= λ k, List.filter (λ s, bool_decide (sec_kind s = k)) (sections digest) ≫= section_lines.

Fixpoint inject_loop (fuel : nat) (ms : list Message) (title : Text) (candidates : list Text)
    (limit count : nat) : list Message :=
  match fuel with
  | O => ms
  | S fuel =>
      match count with
      | O => ms
      | _ =>
          match swap_summary ms (StructuredSummary_new title (take count candidates)) with
          | Some swapped =>
              if estimate_tokens swapped <=? limit then swapped
              else inject_loop fuel ms title candidates limit (count / 2)
          | None => inject_loop fuel ms title candidates limit (count / 2)
          end
      end
  end.
Definition inject_digest (ms : list Message) (digest : StructuredSummary) (limit : nat) : list Message :=
  let prioritized := prioritized_entries digest in
  let candidates := match prioritized with [] => entries digest | _ => prioritized end in
  inject_loop (length candidates) ms (title digest) candidates limit (length candidates).

Definition set_budget (b : SummaryBudget) (s : StructuredSummary) : StructuredSummary :=
  mkSummary (schema_version s) (title s) (entries s) (sections s) (sources s) b.

Definition pressure (tokens limit : nat) : option Text :=
  if limit <=? tokens then Some (txt "context budget pressure") else None.

Definition finalize_summary (summary : option StructuredSummary) (dropped : list (list Message))
    (output : list Message) (limit truncated : nat) : StructuredSummary :=
  let summary := match summary with Some s => s | None =>
    StructuredSummary_new SUMMARY_TITLE [txt "older exchanges were trimmed"] end in
  let carried := entries summary in
  let digest := semantic_digest dropped in
  let es := match sd_entries digest, carried with [], [] => carried | _, _ => carried ++ sd_entries digest end in
  let secs := sd_sections digest ++
    match carried with [] => [] | _ => [mkSection CriticalContext carried] end in
  let n := sum_list_with length dropped in
  mkSummary (schema_version summary) (title summary) es secs (sd_sources digest)
    (mkBudget (estimate_tokens output) (n + length output) (length output) n truncated
       (pressure (estimate_tokens output) limit)).

(** The smaller summaries tried before giving the summary up. *)
Definition LADDER : list (nat * nat) := [(4, 60); (2, 60); (1, 60); (1, 30)].
Fixpoint shrink_summary (system : list Message) (carried : list Text)
    (exchanges dropped : list (list Message)) (limit : nat) (ladder : list (nat * nat))
    (summary : option StructuredSummary) (out : list Message)
    : option StructuredSummary * list Message :=
  match ladder with
  | [] => (summary, out)
  | (max_exchanges, max_user_chars) :: ladder =>
      let summary := fold_carried carried (structured_summary_with dropped max_exchanges max_user_chars) in
      let out := build_messages system summary exchanges in
      if estimate_tokens out <=? limit then (summary, out)
      else shrink_summary system carried exchanges dropped limit ladder summary out
  end.
Definition fit_summary (system : list Message) (carried : list Text)
    (exchanges dropped : list (list Message)) (limit : nat) (summary : option StructuredSummary)
    : option StructuredSummary * list Message :=
  let out := build_messages system summary exchanges in
  if (estimate_tokens out <=? limit) || bool_decide (length dropped = 0) then (summary, out)
  else
    let '(summary, out) := shrink_summary system carried exchanges dropped limit LADDER summary out in
    if estimate_tokens out <=? limit then (summary, out) else (None, build_messages system None exchanges).

Fixpoint leading_system (ms : list Message) : nat :=
  match ms with
  | m :: ms => if bool_decide (role m = RSystem) then S (leading_system ms) else 0
  | [] => 0
  end.

(** What is kept: the exchanges left, the ones dropped, and the summary so far. *)
Definition select (system : list Message) (carried : list Text) (exchanges : list (list Message))
    (limit : nat) : list (list Message) * list (list Message) * option StructuredSummary :=
  let '(exchanges, dropped) := drop_oldest system exchanges [] limit in
  let summary := fold_carried carried (structured_summary dropped) in
  let '(exchanges, dropped, summary) := drop_for_summary system carried summary exchanges dropped limit in
  match exchanges with
  | [x] =>
      if estimate_tokens (build_messages system summary exchanges) <=? limit
      then (exchanges, dropped, summary)
      else match split_oversized_exchange system summary x limit with
      | Some (prefix, suffix) =>
          let dropped := dropped ++ [prefix] in
          ([suffix], dropped, fold_carried carried (structured_summary dropped))
      | None => (exchanges, dropped, summary)
      end
  | _ => (exchanges, dropped, summary)
  end.

Definition compact_plan (ms : list Message) (limit : nat) : CompactionPlan :=
  if estimate_tokens ms <=? limit then
    mkPlan (mkResult ms false None (mkMeta Deterministic Deterministic 0 (length ms) 0 0 None 0)) [] []
  else
    let system_count := leading_system ms in
    let leading := take system_count ms in
    let body := drop system_count ms in
    let carried := List.filter is_summary_message leading ≫= carried_of in
    let system := List.filter (λ m, negb (is_summary_message m)) leading in
    let '(exchanges, dropped, summary) := select system carried (split_exchanges body) limit in
    let '(summary, out) := fit_summary system carried exchanges dropped limit summary in
    let '(out, truncated) :=
      if estimate_tokens out <=? limit then (out, 0) else truncate_oldest_tool_results out limit in
    let dropped_messages := sum_list_with length dropped in
    let digest := finalize_summary
      (match summary with Some s => Some s | None => fold_carried carried None end)
      dropped out limit truncated in
    let out := inject_digest out digest limit in
    let final := estimate_tokens out in
    let b := budget digest in
    let digest := set_budget (mkBudget final (original_messages b) (b_kept_messages b)
      (b_dropped_messages b) (b_truncated_tool_results b) (pressure final limit)) digest in
    mkPlan
      (mkResult out true (Some digest)
         (mkMeta Deterministic Deterministic (length dropped)
            (sum_list_with length exchanges + length system) dropped_messages
            (utf8_len (summary_render digest) / 4) None truncated))
      dropped carried.

Definition compact_with_summary (ms : list Message) (limit : nat) : CompactionResult :=
  cp_result (compact_plan ms limit).
Definition compact (ms : list Message) (limit : nat) : list Message :=
  cr_messages (compact_with_summary ms limit).

(** ** The smart digest, and the system messages on the wire *)

Definition fall_back (r : CompactionResult) (why : Text) : CompactionResult :=
  let md := cr_metadata r in
  mkResult (cr_messages r) (compacted r) (cr_summary r)
    (mkMeta (requested_mode md) Deterministic (cm_dropped_exchanges md) (cm_kept_messages md)
       (cm_dropped_messages md) (digest_estimate_tokens md) (Some why) (truncated_tool_results md)).
Definition apply_smart_digest (r : CompactionResult) (dropped : list (list Message))
    (smart : StructuredSummary) (limit : nat) : CompactionResult :=
  match swap_summary (cr_messages r) smart with
  | None => fall_back r (txt "deterministic summary was dropped; smart digest not applied")
  | Some swapped =>
      let estimated := estimate_tokens swapped in
      if limit <? estimated then fall_back r (txt "smart summary exceeded budget")
      else
        let md := cr_metadata r in
        let n := sum_list_with length dropped in
        let smart := set_budget (mkBudget estimated (n + length swapped) (length swapped) n
          (truncated_tool_results md) None) smart in
        mkResult swapped (compacted r) (Some smart)
          (mkMeta (requested_mode md) SmartWithFallback (cm_dropped_exchanges md)
             (cm_kept_messages md) (cm_dropped_messages md) (utf8_len (summary_render smart) / 4)
             (fallback_reason md) (truncated_tool_results md))
  end.

Definition merge_step (out : list Message) (m : Message) : list Message :=
  match rev out with
  | last :: before =>
      if bool_decide (role last = RSystem) && bool_decide (role m = RSystem)
      then rev before ++ [mkMessage (role last) (content last ++ content m) (metadata last)]
      else out ++ [m]
  | [] => out ++ [m]
  end.
Definition merge_consecutive_system (ms : list Message) : list Message := fold_left merge_step ms [].
End compaction.
