(* ===== verification/CompactionProps.v ===== *)
(** * Compaction: tool calls keep their results, the request is kept *)

From Stdlib Require Import String.
From stdpp Require Import base list numbers sets.
From S2P Require Import Prelude Monitor Utf8 Chars Message Compaction.
From stdpp Require Import list.
#[local] Open Scope nat_scope.
#[local] Open Scope list_scope.

(** ** The protocol of a provider

    Every result answers a call of the answer before it, and every call is
    answered before anything else is said. *)

Definition uses (m : Message) : list ToolUseId :=
  omap (λ b, match b with BToolUse c => Some (tc_id c) | _ => None end) (content m).
Definition results (m : Message) : list ToolUseId :=
  omap (λ b, match b with BToolResult r => Some (tr_id r) | _ => None end) (content m).

(** The calls open after a message, if it may be said. *)
Definition say (open : list ToolUseId) (m : Message) : option (list ToolUseId) :=
  match role m with
  | RAssistant => if bool_decide (open = [] ∧ results m = []) then Some (uses m) else None
  | RTool =>
      if bool_decide (uses m = [] ∧ results m ⊆ open)
      then Some (List.filter (λ i, negb (bool_decide (i ∈ results m))) open) else None
  | _ => if bool_decide (open = [] ∧ uses m = [] ∧ results m = []) then Some [] else None
  end.
Fixpoint says (open : list ToolUseId) (ms : list Message) : option (list ToolUseId) :=
  match ms with
  | [] => Some open
  | m :: ms => open ← say open m; says open ms
  end.
Definition protocol (ms : list Message) : Prop := is_Some (says [] ms).

Lemma says_app open a b : says open (a ++ b) = (o ← says open a; says o b).
Proof.
  revert open. induction a as [|m a IH]; intros open; [done|]. cbn [says app].
  destruct (say open m); [apply IH|done].
Qed.

Lemma say_closed open m o : role m ≠ RTool → say open m = Some o → open = [].
Proof. unfold say. destruct (role m); try done; case_bool_decide; naive_solver. Qed.

(** A conversation may be entered at any message that is not a result. *)
Lemma says_enter a m b o :
  role m ≠ RTool → says [] (a ++ m :: b) = Some o → says [] a = Some [] ∧ says [] (m :: b) = Some o.
Proof.
  intros Hm. rewrite says_app. destruct (says [] a) as [op|]; [|done]. cbn [mbind option_bind].
  intros Hs. assert (op = []) as ->; [|done]. cbn in Hs. destruct (say op m) eqn:E; [|done].
  by eapply say_closed.
Qed.

Lemma says_join a b o : says [] a = Some [] → says [] b = Some o → says [] (a ++ b) = Some o.
Proof. intros Ha Hb. by rewrite says_app, Ha. Qed.

(** Messages that call and answer the same. *)
Definition alike (m m' : Message) : Prop :=
  role m' = role m ∧ uses m' = uses m ∧ results m' = results m.

Lemma says_alike open ms ms' : Forall2 alike ms ms' → says open ms' = says open ms.
Proof.
  intros H. revert open. induction H as [|m m' ms ms' (Hr & Hu & Hs) _ IH]; intros open; [done|].
  cbn [says]. assert (say open m' = say open m) as -> by (unfold say; by rewrite Hr, Hu, Hs).
  destruct (say open m); [apply IH|done].
Qed.

(** Messages with nothing to call or answer, as those of the system are. *)
Definition silent (m : Message) : Prop :=
  (role m = RSystem ∨ role m = RUser ∨ role m = RUserShell) ∧ uses m = [] ∧ results m = [].

Lemma says_silent ms : Forall silent ms → says [] ms = Some [].
Proof.
  induction 1 as [|m ms (Hr & Hu & Hs) _ IH]; [done|]. cbn [says]. unfold say. rewrite Hu, Hs.
  destruct Hr as [->|[->| ->]]; cbn; exact IH.
Qed.

Lemma said_silent ms o : 
  (∀ m, m ∈ ms → role m = RSystem ∨ role m = RUser) → says [] ms = Some o → Forall silent ms ∧ o = [].
Proof.
  revert o. induction ms as [|m ms IH]; intros o Hr; cbn [says]; [intros [= <-]; by constructor|].
  unfold say. assert (Hm : role m = RSystem ∨ role m = RUser) by (apply Hr; by left).
  intros Hs. assert (Hcase : uses m = [] ∧ results m = [] ∧ says [] ms = Some o).
  { destruct Hm as [Hm|Hm]; rewrite Hm in Hs; case_bool_decide as Hb; try done; naive_solver. }
  destruct Hcase as (Hu & Hres & Hs'). destruct (IH o) as [Hf ->]; [|done|].
  - intros x Hx. apply Hr. by right.
  - split; [|done]. constructor; [|done]. unfold silent. tauto.
Qed.

(** ** Exchanges *)

Lemma exchange_step_concat es m : concat (exchange_step es m) = concat es ++ [m].
Proof.
  unfold exchange_step.
  set (es' := if opens_exchange m || bool_decide (es = []) then es ++ [[]] else es).
  assert (Hes : concat es' = concat es ∧ es' ≠ []).
  { subst es'. case_bool_decide as He; destruct (opens_exchange m); cbn;
      rewrite ?concat_app; cbn; rewrite ?app_nil_r; split; try done; try by destruct es. }
  destruct Hes as [<- Hne]. destruct es' as [|last before _] using rev_ind; [done|].
  rewrite rev_unit, rev_involutive, !concat_app. cbn. by rewrite !app_nil_r, app_assoc.
Qed.

Lemma split_concat body : concat (split_exchanges body) = body.
Proof.
  unfold split_exchanges. assert (H : ∀ es, concat (fold_left exchange_step body es) = concat es ++ body).
  { induction body as [|m body IH]; intros es; cbn; [by rewrite app_nil_r|].
    rewrite IH, exchange_step_concat, <-app_assoc. done. }
  apply H.
Qed.

(** No exchange is empty; all but the first start with a request, and none has
    one further on. *)
Definition exchange_ok (first : bool) (x : list Message) : Prop :=
  match x with
  | [] => False
  | m :: rest => (first = true ∨ opens_exchange m = true) ∧ Forall (λ m, opens_exchange m = false) rest
  end.
Definition exchanges_ok (es : list (list Message)) : Prop :=
  match es with
  | [] => True
  | x :: es => exchange_ok true x ∧ Forall (exchange_ok false) es
  end.

Lemma exchange_ok_snoc first x m :
  exchange_ok first x → opens_exchange m = false → exchange_ok first (x ++ [m]).
Proof.
  destruct x as [|y x]; [done|]. cbn. intros [? Hx] Hm. split; [done|]. apply Forall_app.
  split; [done|]. by apply list.Forall_singleton.
Qed.

Lemma exchange_step_ok es m : exchanges_ok es → exchanges_ok (exchange_step es m).
Proof.
  intros Hes. unfold exchange_step. destruct es as [|x es]; cbn [orb].
  - rewrite bool_decide_eq_true_2, orb_true_r by done. cbn. split; [|done]. split; [by left|done].
  - rewrite bool_decide_eq_false_2, orb_false_r by done. destruct (opens_exchange m) eqn:Hm.
    + change ((x :: es) ++ [[]]) with (x :: es ++ [[]]). rewrite app_comm_cons, rev_unit, rev_involutive.
      destruct Hes as [Hx Hes]. cbn. split; [done|]. apply Forall_app. split; [done|].
      apply list.Forall_singleton. cbn. split; [by right|done].
    + destruct (rev (x :: es)) as [|last before] eqn:Hrev; [done|].
      assert (Hlist : x :: es = rev before ++ [last]) by (by rewrite <-(rev_involutive (x :: es)), Hrev).
      clear Hrev. destruct (rev before) as [|y ys]; injection Hlist as -> ->; destruct Hes as [Hx Hes]; cbn.
      * split; [by apply exchange_ok_snoc|done].
      * split; [done|]. apply Forall_app in Hes as [Hes Hl]. apply Forall_app. split; [done|].
        apply Forall_inv in Hl. constructor; [by apply exchange_ok_snoc|done].
Qed.

Lemma split_ok body : exchanges_ok (split_exchanges body).
Proof.
  unfold split_exchanges. assert (H : ∀ es, exchanges_ok es → exchanges_ok (fold_left exchange_step body es)).
  { induction body as [|m body IH]; intros es Hes; [done|]. cbn. by apply IH, exchange_step_ok. }
  by apply H.
Qed.

(** ** What is selected *)

Section compaction.
Context (json_text : Json → Text).
Abbreviation estimate := (estimate_tokens json_text).

Lemma drop_oldest_suffix system es d limit es' d' :
  drop_oldest json_text system es d limit = (es', d') →
  ∃ k, es' = drop k es ∧ d' = d ++ take k es ∧ (es ≠ [] → es' ≠ []).
Proof.
  revert d. induction es as [|x [|y es] IH]; intros d; cbn [drop_oldest].
  - intros [= <- <-]. exists 0. by rewrite app_nil_r.
  - intros [= <- <-]. exists 0. by rewrite app_nil_r.
  - destruct (_ <=? _); [intros [= <- <-]; exists 0; by rewrite app_nil_r|].
    intros (k & -> & -> & Hne)%IH. exists (S k). split_and!; [done|by rewrite <-app_assoc|].
    intros _. by apply Hne.
Qed.

Lemma drop_for_summary_suffix system carried s es d limit es' d' s' :
  drop_for_summary json_text system carried s es d limit = (es', d', s') →
  (∃ k, es' = drop k es ∧ d' = d ++ take k es ∧ (es ≠ [] → es' ≠ [])) ∧
  (estimate (build_messages system s' es') <= limit ∨ length es' <= 1).
Proof.
  revert s d. induction es as [|x [|y es] IH]; intros s d; cbn [drop_for_summary].
  - intros [= <- <- <-]. split; [exists 0; by rewrite app_nil_r|right; cbn; lia].
  - intros [= <- <- <-]. split; [exists 0; by rewrite app_nil_r|right; cbn; lia].
  - destruct (Nat.leb_spec (estimate (build_messages system s (x :: y :: es))) limit).
    + intros [= <- <- <-]. split; [exists 0; by rewrite app_nil_r|by left].
    + intros [(k & -> & -> & Hne) Hfit]%IH. split; [|done]. exists (S k).
      split_and!; [done|by rewrite <-app_assoc|]. intros _. by apply Hne.
Qed.

(** The split keeps the request and starts again at an answer. *)
Definition split_of (x x' : list Message) : Prop :=
  ∃ cut m rest, x' = take (leading_users x) x ++ drop cut x ∧ leading_users x < cut ∧
    drop cut x = m :: rest ∧ role m = RAssistant ∧ head x ≫= (λ m, Some (role m)) = Some RUser.

Lemma try_cuts_split system s x limit anchor cuts p x' :
  try_cuts json_text system s x limit anchor cuts = Some (p, x') →
  ∃ cut m rest, cut ∈ cuts ∧ x' = take anchor x ++ drop cut x ∧ drop cut x = m :: rest ∧
    role m = RAssistant ∧ estimate (build_messages system s [x']) <= limit.
Proof.
  induction cuts as [|cut cuts IH]; cbn [try_cuts]; [done|].
  assert (Hlater : try_cuts json_text system s x limit anchor cuts = Some (p, x') →
    ∃ cut0 m rest, cut0 ∈ cut :: cuts ∧ x' = take anchor x ++ drop cut0 x ∧ drop cut0 x = m :: rest ∧
    role m = RAssistant ∧ estimate (build_messages system s [x']) <= limit).
  { intros (c & m & rest & ? & ?)%IH. exists c, m, rest. split; [by right|done]. }
  unfold can_cut. destruct (x !! cut) as [m|] eqn:Hm; [|exact Hlater].
  destruct (x !! (cut - 1)) as [b|]; [|exact Hlater].
  case_bool_decide as Hr; cbn [andb]; [|exact Hlater].
  destruct (_ || _); [|exact Hlater].
  destruct (Nat.leb_spec (estimate (build_messages system s [take anchor x ++ drop cut x])) limit);
    [|exact Hlater].
  intros [= <- <-]. exists cut, m, (drop (S cut) x). split_and!; [by left|done| |done|done].
  by apply drop_S.
Qed.

Lemma split_oversized_exact system s x limit p x' :
  split_oversized_exchange json_text system s x limit = Some (p, x') →
  split_of x x' ∧ estimate (build_messages system s [x']) <= limit.
Proof.
  unfold split_oversized_exchange. destruct x as [|m x]; [done|]. case_bool_decide as Hr; [|done].
  intros (cut & a & rest & Hin & Hx & Hd & Ha & Hfit)%try_cuts_split. split; [|done].
  exists cut, a, rest. split_and!; [done| |done|done|cbn; by rewrite Hr]. apply elem_of_seq in Hin. lia.
Qed.

(** What [select] keeps of the exchanges: a suffix, or a split of the last. *)
Definition kept_of (es es' : list (list Message)) : Prop :=
  (∃ k, es' = drop k es) ∨ (∃ x x' k, drop k es = [x] ∧ es' = [x'] ∧ split_of x x').

Lemma select_kept system carried es limit es' d s :
  select json_text system carried es limit = (es', d, s) →
  kept_of es es' ∧ (es ≠ [] → es' ≠ []) ∧
  (limit < estimate (build_messages system s es') → length es' <= 1).
Proof.
  unfold select. destruct (drop_oldest json_text system es [] limit) as [es1 d1] eqn:H1.
  apply drop_oldest_suffix in H1 as (k1 & -> & -> & Hne1). cbn [app].
  destruct (drop_for_summary _ _ _ _ _ _ _) as [[es2 d2] s2] eqn:H2.
  apply drop_for_summary_suffix in H2 as [(k2 & -> & -> & Hne2) Hfit].
  rewrite drop_drop in *. set (r := drop (k1 + k2) es) in *.
  assert (Hdone : kept_of es r ∧ (es ≠ [] → r ≠ []) ∧
    (limit < estimate (build_messages system s2 r) → length r <= 1)).
  { split_and!; [left; by eexists|auto|lia]. }
  destruct r as [|x [|y r0]] eqn:Hr; [by intros [= <- <- <-]| |by intros [= <- <- <-]].
  destruct (Nat.leb_spec (estimate (build_messages system s2 [x])) limit) as [Hle|Hgt];
    [by intros [= <- <- <-]|].
  destruct (split_oversized_exchange json_text system s2 x limit) as [[p x']|] eqn:Hs; [|by intros [= <- <- <-]].
  apply split_oversized_exact in Hs as [Hs _]. intros [= <- <- <-]. split_and!; [|done|cbn; lia].
  right. by eexists x, x', _.
Qed.

(** The protocol holds of what is kept, and ends as it did. *)
Lemma take_leading_users x : ∀ m, m ∈ take (leading_users x) x → role m = RUser.
Proof.
  induction x as [|y x IH]; cbn; [by intros m ?%elem_of_nil|]. case_bool_decide as Hy; cbn; [|by intros m ?%elem_of_nil].
  intros m [->|Hm]%elem_of_cons; [done|by apply IH].
Qed.

Lemma split_says x x' o : split_of x x' → says [] x = Some o → says [] x' = Some o.
Proof.
  intros (cut & m & rest & -> & Hlt & Hd & Hm & _) Hx. rewrite Hd.
  rewrite <-(take_drop cut x), Hd in Hx. apply says_enter in Hx as [Hpre Hx]; [|by rewrite Hm].
  apply says_join; [|done]. assert (Ht : take cut x = take (leading_users x) x ++ drop (leading_users x) (take cut x)).
  { rewrite <-(take_drop (leading_users x) (take cut x)) at 1. rewrite take_take. by rewrite Nat.min_l by lia. }
  rewrite Ht, says_app in Hpre. destruct (says [] (take (leading_users x) x)) as [op|] eqn:Hop; [|done].
  apply said_silent in Hop as [_ ->]; [done|]. intros y Hy. right. by eapply take_leading_users.
Qed.

Lemma suffix_says es k o :
  exchanges_ok es → drop k es ≠ [] → says [] (concat es) = Some o → says [] (concat (drop k es)) = Some o.
Proof.
  intros Hok Hne Hs. destruct k as [|k]; [done|].
  rewrite <-(take_drop (S k) es), concat_app in Hs.
  destruct (drop (S k) es) as [|x r] eqn:Hd; [done|].
  assert (Hx : exchange_ok false x).
  { destruct es as [|y es]; [done|]. destruct Hok as [_ Hok]. cbn in Hd.
    apply (Forall_drop _ k) in Hok. rewrite Hd in Hok. by apply Forall_inv in Hok. }
  destruct x as [|m x]; [done|]. destruct Hx as [[?|Hm] _]; [done|].
  cbn [concat app] in *. apply says_enter in Hs as [_ Hs]; [done|].
  unfold opens_exchange in Hm. apply andb_true_iff in Hm as [Hm _]. apply bool_decide_eq_true in Hm. by rewrite Hm.
Qed.

Lemma kept_says es es' o :
  exchanges_ok es → kept_of es es' → (es ≠ [] → es' ≠ []) →
  says [] (concat es) = Some o → says [] (concat es') = Some o.
Proof.
  intros Hok Hk Hne Hs. destruct (decide (es = [])) as [->|Hes].
  - destruct Hk as [[k ->]|(x & x' & k & Hd & _)]; by destruct k.
  - destruct Hk as [[k ->]|(x & x' & k & Hd & -> & Hsp)].
    + apply suffix_says; auto.
    + assert (Hx : says [] (concat (drop k es)) = Some o) by (apply suffix_says; [done|by rewrite Hd|done]).
      rewrite Hd in Hx. cbn in *. rewrite app_nil_r in *. by eapply split_says.
Qed.

(** ** Outputs and the digest *)

Lemma truncate_blocks_omap {A} (f : ContentBlock → option A) bs :
  (∀ b, f (fst (truncate_block b)) = f b) → omap f (truncate_block <$> bs).*1 = omap f bs.
Proof.
  intros Hf. induction bs as [|b bs IH]; [done|].
  cbn [fmap list_fmap omap list_omap]. by rewrite Hf, IH.
Qed.

Lemma truncate_alike m : alike m (fst (truncate_message m)).
Proof.
  split_and!; [done|..]; apply truncate_blocks_omap; intros []; try done; unfold truncate_block;
    by destruct (TRUNCATED_OUTPUT_CHARS <? length (tr_output result)).
Qed.

Lemma truncate_request m : results m = [] → fst (truncate_message m) = m.
Proof.
  unfold truncate_message, results. destruct m as [r c md]. cbn. intros Hr. f_equal.
  induction c as [|b c IH]; [done|]. cbn in Hr |- *. destruct b; cbn in Hr |- *; rewrite ?IH by done; done.
Qed.

(** The outputs of a message that may still be cut. *)
Definition cut_short (m : Message) : Prop :=
  ∀ r, BToolResult r ∈ content m → length (tr_output r) <= 288.

Lemma truncate_cuts m : cut_short (fst (truncate_message m)).
Proof.
  intros r. unfold truncate_message. cbn. intros (x & Hb & (b & -> & _)%list_elem_of_fmap)%list_elem_of_fmap.
  unfold truncate_block in Hb. destruct b; try done. unfold TRUNCATED_OUTPUT_CHARS in Hb.
  destruct (Nat.ltb_spec 240 (length (tr_output result))); injection Hb as ->; cbn [tr_output]; [|lia].
  unfold truncate, TRUNCATION_NOTE. rewrite !length_app, length_take.
  destruct (240 <? length (tr_output result)); cbn [length]; change (length (txt "...")) with 3;
    change (length (txt "[output truncated during context compaction]")) with 44; lia.
Qed.

Definition truncated (m : Message) : Message := fst (truncate_message m).

Lemma truncate_loop_exact done_ rest limit n out k :
  truncate_loop json_text done_ rest limit n = (out, k) →
  ∃ j, out = done_ ++ (truncated <$> take j rest) ++ drop j rest ∧
    (estimate out <= limit ∨ j = length rest).
Proof.
  revert done_ n. induction rest as [|m rest IH]; intros done_ n; cbn [truncate_loop].
  - intros [= <- <-]. exists 0. split; [by rewrite !app_nil_r|by right].
  - destruct (Nat.leb_spec (estimate (done_ ++ m :: rest)) limit).
    + intros [= <- <-]. exists 0. split; [done|by left].
    + destruct (truncate_message m) as [m' k'] eqn:Hm. intros (j & -> & Hj)%IH. exists (S j). split.
      * cbn [take drop fmap list_fmap]. unfold truncated at 2. by rewrite Hm, <-app_assoc.
      * destruct Hj as [?| ->]; [by left|by right].
Qed.

Lemma truncated_some j ms : Forall2 (λ m m', m' = m ∨ m' = truncated m) ms ((truncated <$> take j ms) ++ drop j ms).
Proof.
  rewrite <-(take_drop j ms) at 1. apply Forall2_app.
  - apply Forall2_fmap_r, Forall_Forall2_diag, Forall_true. intros x. by right.
  - apply Forall_Forall2_diag, Forall_true. intros x. by left.
Qed.

(** [replace_summary] changes one message that is a summary. *)
Lemma replace_summary_exact ms t ms' :
  replace_summary ms t = Some ms' →
  ∃ a m b, ms = a ++ m :: b ∧ is_summary_message m = true ∧ ms' = a ++ Message_text RSystem t :: b.
Proof.
  revert ms'. induction ms as [|m ms IH]; intros ms'; cbn; [done|]. destruct (is_summary_message m) eqn:Hm.
  - intros [= <-]. by exists [], m, ms.
  - destruct (replace_summary ms t) as [r|]; [|done]. intros [= <-].
    destruct (IH _ eq_refl) as (a & x & b & -> & Hx & ->). by exists (m :: a), x, b.
Qed.

Lemma inject_exact ms digest limit :
  inject_digest json_text ms digest limit = ms ∨
  ∃ t, replace_summary ms t = Some (inject_digest json_text ms digest limit) ∧
    estimate (inject_digest json_text ms digest limit) <= limit.
Proof.
  unfold inject_digest. set (c := match prioritized_entries digest with [] => entries digest | _ => _ end).
  assert (Hgen : ∀ fuel n, let out := inject_loop json_text fuel ms (title digest) c limit n in
    out = ms ∨ ∃ t, replace_summary ms t = Some out ∧ estimate out <= limit); [|apply Hgen].
  induction fuel as [|fuel IH]; intros n; cbn [inject_loop]; [by left|].
  destruct n as [|n]; [by left|]. destruct (swap_summary ms _) as [sw|] eqn:Hsw; [|apply IH].
  destruct (Nat.leb_spec (estimate sw) limit); [|apply IH]. right. eexists. split; [exact Hsw|done].
Qed.

(** ** The plan as a whole *)

Definition leading_of (ms : list Message) : list Message := take (leading_system ms) ms.
Definition body_of (ms : list Message) : list Message := drop (leading_system ms) ms.
Definition system_of (ms : list Message) : list Message :=
  List.filter (λ m, negb (is_summary_message m)) (leading_of ms).

Lemma leading_roles ms m : m ∈ leading_of ms → role m = RSystem.
Proof.
  unfold leading_of. induction ms as [|x ms IH]; cbn; [by intros ?%elem_of_nil|].
  case_bool_decide as Hx; cbn; [|by intros ?%elem_of_nil]. intros [->|?]%elem_of_cons; auto.
Qed.

Lemma fit_summary_exact system carried es d limit s s' out :
  fit_summary json_text system carried es d limit s = (s', out) →
  out = build_messages system s' es ∧
  (limit < estimate out → limit < estimate (build_messages system s es)).
Proof.
  unfold fit_summary. destruct (Nat.leb_spec (estimate (build_messages system s es)) limit); cbn [orb].
  { intros [= <- <-]. done. }
  destruct (bool_decide _); [intros [= <- <-]; done|].
  assert (Hshrink : ∀ ladder s0 o0 s1 o1, o0 = build_messages system s0 es →
    shrink_summary json_text system carried es d limit ladder s0 o0 = (s1, o1) → o1 = build_messages system s1 es).
  { induction ladder as [|[a b] ladder IH]; intros s0 o0 s1 o1 Ho; cbn [shrink_summary].
    - intros [= <- <-]. done.
    - case_match; [intros [= <- <-]; done|]. by apply IH. }
  destruct (shrink_summary _ _ _ _ _ _ _ _ _) as [s1 o1] eqn:Hs. apply Hshrink in Hs; [|done].
  destruct (_ <=? _); intros [= <- <-]; done.
Qed.

(** What the plan did with a conversation over its budget: [es] are the
    exchanges kept, [s] the summary that stands in for the others. *)
Record outcome (ms : list Message) (limit : nat) (es : list (list Message))
    (s : option StructuredSummary) (sent : list Message) : Prop := {
  oc_kept : kept_of (split_exchanges (body_of ms)) es;
  oc_nonempty : split_exchanges (body_of ms) ≠ [] → es ≠ [];
  oc_sent : Forall2 (λ m m', m' = m ∨ m' = truncated m) (build_messages (system_of ms) s es) sent;
  oc_fits : estimate sent <= limit ∨ (length es <= 1 ∧ Forall cut_short sent);
}.

Lemma compact_outcome ms limit :
  limit < estimate ms → ∃ es s sent, outcome ms limit es s sent ∧
    (compact json_text ms limit = sent ∨
     ∃ t, replace_summary sent t = Some (compact json_text ms limit) ∧
       estimate (compact json_text ms limit) <= limit).
Proof.
  intros Hgt. unfold compact, compact_with_summary, compact_plan.
  rewrite (proj2 (Nat.leb_gt _ _) Hgt). fold (leading_of ms) (body_of ms) (system_of ms).
  destruct (select _ _ _ _ _) as [[es d] s] eqn:Hsel. apply select_kept in Hsel as (Hk & Hne & Hover).
  destruct (fit_summary _ _ _ _ _ _ _) as [s' out] eqn:Hfit. apply fit_summary_exact in Hfit as [-> Hover'].
  set (out := build_messages (system_of ms) s' es) in *.
  assert (Hsent : ∀ sent n, (if estimate out <=? limit then (out, 0) else truncate_oldest_tool_results json_text out limit)
    = (sent, n) → outcome ms limit es s' sent).
  { intros sent n. destruct (Nat.leb_spec (estimate out) limit) as [Hle|Hlt].
    - intros [= <- <-]. split; [done|done| |by left]. fold out.
      apply Forall_Forall2_diag, Forall_true. intros x. by left.
    - intros (j & -> & Hj)%truncate_loop_exact. cbn [app] in *. split; [done|done| |].
      + fold out. by apply truncated_some.
      + destruct Hj as [?| ->]; [by left|right]. split; [by apply Hover, Hover'|].
        rewrite take_ge, drop_ge, app_nil_r by lia. apply Forall_fmap, Forall_true. intros x. apply truncate_cuts. }
  destruct (if estimate out <=? limit then _ else _) as [sent n]. specialize (Hsent _ _ eq_refl).
  exists es, s', sent. split; [done|]. cbn [cr_messages cp_result].
  set (digest := finalize_summary _ _ _ _ _ _). destruct (inject_exact sent digest limit) as [->|?]; [by left|by right].
Qed.

Lemma kept_within es es' m : kept_of es es' → m ∈ concat es' → m ∈ concat es.
Proof.
  assert (Hd : ∀ k, m ∈ concat (drop k es) → m ∈ concat es).
  { intros k Hm. rewrite <-(take_drop k es), concat_app, elem_of_app. by right. }
  intros [[k ->]|(x & x' & k & Hx & -> & (cut & y & rest & -> & _))]; [by apply Hd|].
  intros Hm. apply (Hd k). rewrite Hx. cbn in *. rewrite app_nil_r in *.
  apply elem_of_app in Hm as [Hm|Hm]; [by eapply elem_of_take in Hm as (? & ? & _); eapply list_elem_of_lookup_2|].
  rewrite <-(take_drop cut x). apply elem_of_app. by right.
Qed.

Lemma truncated_summary m : is_summary_message (truncated m) = is_summary_message m.
Proof.
  unfold is_summary_message. assert (first_text (truncated m) = first_text m) as ->; [|done].
  unfold first_text. f_equal. apply truncate_blocks_omap. intros []; try done. unfold truncate_block.
  by destruct (TRUNCATED_OUTPUT_CHARS <? length (tr_output result)).
Qed.

Lemma system_silent ms o : says [] ms = Some o →
  Forall silent (system_of ms) ∧ says [] (body_of ms) = Some o.
Proof.
  rewrite <-(take_drop (leading_system ms) ms) at 1. fold (leading_of ms) (body_of ms). rewrite says_app.
  destruct (says [] (leading_of ms)) as [op|] eqn:Hl; [|done]. cbn. intros Hb.
  apply said_silent in Hl as [Hl ->]; [|intros m Hm; left; by eapply leading_roles]. split; [|done].
  unfold system_of. apply Forall_forall. intros m Hm%list_elem_of_In.
  apply List.filter_In in Hm as [Hm _]. rewrite Forall_forall in Hl. apply Hl. by apply list_elem_of_In.
Qed.

(** ** Messages that read like a summary

    The digest goes into the first message that reads like one.  A conversation
    is [plain] when its own messages that do are mere text. *)

Definition inert (m : Message) : Prop := role m ≠ RTool ∧ uses m = [] ∧ results m = [].
Definition plain (ms : list Message) : Prop := Forall (λ m, is_summary_message m = true → inert m) ms.

Lemma say_inert open m m' : inert m → inert m' → say open m' = say open m.
Proof.
  intros (Hr & Hu & Hs) (Hr' & Hu' & Hs'). unfold say. rewrite Hu, Hs, Hu', Hs'.
  destruct (role m), (role m'); try done; repeat case_bool_decide; naive_solver.
Qed.

Lemma system_inert t : inert (Message_text RSystem t).
Proof. by split. Qed.

Lemma truncated_inert m : inert m → inert (truncated m).
Proof. intros (Hr & Hu & Hs). destruct (truncate_alike m) as (Hr' & Hu' & Hs'). unfold inert, truncated. by rewrite Hr', Hu', Hs'. Qed.

Lemma plain_app a b : plain (a ++ b) ↔ plain a ∧ plain b.
Proof. apply Forall_app. Qed.

Lemma sent_plain ms limit es s sent : plain (body_of ms) → outcome ms limit es s sent → plain sent.
Proof.
  intros Hbody Ho. pose proof (oc_sent _ _ _ _ _ Ho) as Hs.
  assert (Hb : plain (build_messages (system_of ms) s es)).
  { unfold build_messages. rewrite !plain_app. split_and!.
    - apply list.Forall_forall. intros m Hm Hs'. unfold system_of in Hm.
      apply list_elem_of_In, List.filter_In in Hm as [_ Hm]. by rewrite Hs' in Hm.
    - destruct s; [|by constructor]. apply list.Forall_singleton. intros _. apply system_inert.
    - apply list.Forall_forall. intros m Hm. eapply kept_within in Hm; [|apply Ho].
      rewrite split_concat in Hm. unfold plain in Hbody. rewrite Forall_forall in Hbody. by apply Hbody. }
  clear Hbody Ho. induction Hs as [|m m' l l' Hm _ IH]; [constructor|].
  apply list.Forall_cons in Hb as [Hm0 Hb]. constructor; [|by apply IH].
  destruct Hm as [->| ->]; [done|]. rewrite truncated_summary. intros ?. by apply truncated_inert, Hm0.
Qed.

Lemma replace_summary_says ms t ms' open : 
  plain ms → replace_summary ms t = Some ms' → says open ms' = says open ms ∧ plain ms'.
Proof.
  intros Hp (a & m & b & -> & Hm & ->)%replace_summary_exact.
  apply plain_app in Hp as [Ha [Hin Hb]%list.Forall_cons]. split.
  - rewrite !says_app. destruct (says open a) as [o|]; [|done]. cbn [mbind option_bind says].
    by rewrite (say_inert o m (Message_text RSystem t) (Hin Hm) (system_inert t)).
  - apply plain_app. split; [done|]. constructor; [|done]. intros _. apply system_inert.
Qed.

Lemma compact_says ms limit o :
  plain ms → says [] ms = Some o →
  says [] (compact json_text ms limit) = Some o ∧ plain (compact json_text ms limit).
Proof.
  intros Hp Ho. destruct (le_lt_dec (estimate ms) limit) as [Hle|Hgt].
  { unfold compact, compact_with_summary, compact_plan. by rewrite (proj2 (Nat.leb_le _ _) Hle). }
  destruct (compact_outcome _ _ Hgt) as (es & s & sent & Hout & Hc).
  assert (Hbody : plain (body_of ms)).
  { rewrite <-(take_drop (leading_system ms) ms) in Hp. by apply plain_app in Hp as [_ ?]. }
  apply system_silent in Ho as [Hsys Hb].
  assert (Hsent : says [] sent = Some o).
  { rewrite (says_alike [] (build_messages (system_of ms) s es) sent); cycle 1.
    { eapply Forall2_impl; [apply Hout|]. intros m m' [->| ->]; [done|apply truncate_alike]. }
    unfold build_messages. apply says_join; [by apply says_silent|]. apply says_join.
    - destruct s; [|done]. apply says_silent, list.Forall_singleton. unfold silent. cbn. by split; [left|].
    - eapply kept_says; [apply split_ok|apply Hout|apply Hout|by rewrite split_concat]. }
  pose proof (sent_plain _ _ _ _ _ Hbody Hout) as Hplain.
  destruct Hc as [->|(t & Hr & _)]; [done|].
  destruct (replace_summary_says _ _ _ [] Hplain Hr) as [-> ?]. done.
Qed.

(** C10. Compaction never separates a call from its results: a conversation
    that a provider accepts (every result answers a call of the answer before
    it, every call is answered before anything else is said) is one it accepts
    after compaction, whatever the budget, when its messages that read like a
    summary neither call nor answer.  Dropping exchanges, splitting the last
    one, cutting outputs and putting the digest in all keep it. *)
Theorem compaction_keeps_the_protocol ms limit :
  protocol ms → plain ms → protocol (compact json_text ms limit).
Proof. intros [o Ho] Hp. exists o. by apply compact_says. Qed.

(** ** The current request *)

Lemma leading_before a m b : role m ≠ RSystem → leading_system (a ++ m :: b) <= length a.
Proof.
  intros Hm. induction a as [|x a IH]; cbn; case_bool_decide; [done|lia|cbn in IH; lia|lia].
Qed.

Lemma last_exchange pre x b : Forall (λ m, opens_exchange m = false) b →
  fold_left exchange_step b (pre ++ [x]) = pre ++ [x ++ b].
Proof.
  intros Hb. revert x. induction Hb as [|m b Hm _ IH]; intros x; cbn [fold_left]; [by rewrite app_nil_r|].
  assert (exchange_step (pre ++ [x]) m = pre ++ [x ++ [m]]) as ->; [|by rewrite IH, <-app_assoc].
  unfold exchange_step. rewrite Hm. rewrite bool_decide_eq_false_2 by (by destruct pre). cbn [orb].
  by rewrite rev_unit, rev_involutive.
Qed.

Lemma request_exchange a m b : opens_exchange m = true → Forall (λ m, opens_exchange m = false) b →
  ∃ pre, split_exchanges (a ++ m :: b) = pre ++ [m :: b].
Proof.
  intros Hm Hb. unfold split_exchanges. rewrite fold_left_app. cbn [fold_left].
  set (es := fold_left exchange_step a []). exists es.
  assert (exchange_step es m = es ++ [[m]]) as ->; [|by rewrite (last_exchange _ [m])].
  unfold exchange_step. rewrite Hm. cbn [orb]. by rewrite rev_unit, rev_involutive.
Qed.

Lemma kept_request pre m b es :
  opens_exchange m = true → kept_of (pre ++ [m :: b]) es → es ≠ [] → m ∈ concat es.
Proof.
  intros Hm Hk Hne. destruct Hk as [[k ->]|(x & x' & k & Hd & -> & (cut & y & rest & -> & _))].
  - destruct (le_lt_dec k (length pre)) as [Hle|Hgt].
    + rewrite drop_app_le, concat_app, elem_of_app by done. right. cbn. by left.
    + rewrite drop_ge in Hne by (rewrite length_app; cbn; lia). done.
  - assert (x = m :: b) as ->.
    { destruct (le_lt_dec k (length pre)) as [Hle|Hgt].
      - rewrite drop_app_le in Hd by done. destruct (drop k pre) as [|z [|]]; naive_solver.
      - rewrite drop_ge in Hd by (rewrite length_app; cbn; lia). done. }
    cbn [leading_users]. unfold opens_exchange in Hm. apply andb_true_iff in Hm as [Hm _].
    rewrite Hm. cbn. by left.
Qed.

(** The request being worked on survives: the last message that opens an
    exchange (a prompt of the user's that was not injected), when it carries no
    result and does not read like a summary, is sent unchanged whatever is
    dropped, split or cut to meet the budget. *)
Theorem compaction_keeps_the_request a m b limit :
  opens_exchange m = true → Forall (λ m, opens_exchange m = false) b →
  results m = [] → is_summary_message m = false →
  m ∈ compact json_text (a ++ m :: b) limit.
Proof.
  intros Hm Hb Hr Hs. set (ms := a ++ m :: b). destruct (le_lt_dec (estimate ms) limit) as [Hle|Hgt].
  { unfold compact, compact_with_summary, compact_plan. rewrite (proj2 (Nat.leb_le _ _) Hle). cbn.
    apply elem_of_app. right. by left. }
  destruct (compact_outcome _ _ Hgt) as (es & s & sent & Hout & Hc).
  assert (Hrole : role m ≠ RSystem).
  { unfold opens_exchange in Hm. apply andb_true_iff in Hm as [Hm _]. apply bool_decide_eq_true in Hm. by rewrite Hm. }
  assert (Hbody : ∃ a', body_of ms = a' ++ m :: b).
  { exists (drop (leading_system ms) a). unfold body_of. unfold ms at 2. apply drop_app_le. by apply leading_before. }
  destruct Hbody as [a' Hbody]. destruct (request_exchange a' m b Hm Hb) as [pre Hpre].
  pose proof (oc_kept _ _ _ _ _ Hout) as Hk. pose proof (oc_nonempty _ _ _ _ _ Hout) as Hne.
  rewrite Hbody, Hpre in Hk, Hne. assert (Hin : m ∈ concat es) by (eapply kept_request; [done..|]; apply Hne; by destruct pre).
  assert (Hsent : m ∈ sent).
  { assert (Hin' : m ∈ build_messages (system_of ms) s es) by (unfold build_messages; rewrite !elem_of_app; auto).
    apply list_elem_of_lookup in Hin' as [i Hi]. pose proof (oc_sent _ _ _ _ _ Hout) as Hf.
    destruct (Forall2_lookup_l _ _ _ _ _ Hf Hi) as (m' & Hm' & [->| ->]); [by eapply list_elem_of_lookup_2|].
    unfold truncated in Hm'. rewrite truncate_request in Hm' by done. by eapply list_elem_of_lookup_2. }
  destruct Hc as [->|(t & Hrep & _)]; [done|].
  destruct (replace_summary_exact _ _ _ Hrep) as (l & q & r & -> & Hq & ->).
  rewrite elem_of_app, elem_of_cons in Hsent |- *. destruct Hsent as [?|[->|?]]; [by left|congruence|by right; right].
Qed.

(** ** The budget *)

Definition openers (ms : list Message) : nat := length (filter (λ m, opens_exchange m = true) ms).

Lemma openers_app a b : openers (a ++ b) = openers a + openers b.
Proof. unfold openers. by rewrite list.filter_app, length_app. Qed.

Lemma no_openers ms : Forall (λ m, opens_exchange m = false) ms → openers ms = 0.
Proof.
  induction 1 as [|m ms Hm _ IH]; [done|]. unfold openers in *. rewrite filter_cons_False; [done|by rewrite Hm].
Qed.

Lemma openers_sublist a b : a `sublist_of` b → openers a <= openers b.
Proof.
  unfold openers. induction 1 as [|m a b _ IH|m a b _ IH]; rewrite ?filter_cons; [done|..];
    repeat case_decide; cbn; lia.
Qed.

Lemma exchange_openers first x : exchange_ok first x → openers x <= 1.
Proof.
  destruct x as [|m x]; [done|]. intros [_ Hx]. change (m :: x) with ([m] ++ x).
  rewrite openers_app, (no_openers x Hx). unfold openers. rewrite filter_cons. case_decide; cbn; lia.
Qed.

Lemma split_sublist x x' : split_of x x' → x' `sublist_of` x.
Proof.
  intros (cut & m & rest & -> & Hlt & _). generalize dependent (leading_users x). intros n Hlt.
  rewrite <-(take_drop n x) at 3. apply sublist_app; [done|].
  replace cut with (n + (cut - n)) by lia. rewrite <-drop_drop. apply sublist_drop.
Qed.

Lemma kept_openers es es' :
  exchanges_ok es → kept_of es es' → length es' <= 1 → openers (concat es') <= 1.
Proof.
  intros Hok Hk Hlen.
  assert (Hone : ∀ k x, drop k es = [x] → openers x <= 1).
  { intros k x Hd. assert (Hx : x ∈ es).
    { rewrite <-(take_drop k es), Hd, elem_of_app. right. by left. }
    destruct es as [|y es]; [by apply elem_of_nil in Hx|]. destruct Hok as [Hy Hok].
    apply elem_of_cons in Hx as [->|Hx]; [by eapply exchange_openers|].
    rewrite list.Forall_forall in Hok. eapply exchange_openers. by apply Hok. }
  destruct Hk as [[k ->]|(x & x' & k & Hd & -> & Hsp)].
  - destruct (drop k es) as [|x [|? ?]] eqn:Hd; cbn in *; [unfold openers; cbn; lia| |lia].
    rewrite app_nil_r. by eapply Hone.
  - cbn. rewrite app_nil_r. etrans; [by apply openers_sublist, split_sublist|by eapply Hone].
Qed.

Lemma openers_alike ms ms' :
  Forall2 (λ m m', m' = m ∨ m' = truncated m) ms ms' → openers ms' = openers ms.
Proof.
  unfold openers. induction 1 as [|m m' ms ms' Hm _ IH]; [done|].
  assert (He : opens_exchange m' = opens_exchange m) by (by destruct Hm as [->| ->]).
  rewrite !filter_cons, He. case_decide; cbn; by rewrite IH.
Qed.

Lemma system_openers ms s : openers (system_of ms ++
  match s with Some s => [Message_text RSystem (summary_render s)] | None => [] end) = 0.
Proof.
  rewrite openers_app. assert (openers (system_of ms) = 0) as ->; [|by destruct s].
  apply no_openers, list.Forall_forall. intros m Hm. unfold system_of in Hm.
  apply list_elem_of_In, List.filter_In in Hm as [Hm%list_elem_of_In _]. apply leading_roles in Hm.
  unfold opens_exchange. by rewrite Hm.
Qed.

(** C40. Compaction meets its budget or has nothing left to drop: a conversation
    within the budget is sent as it is; of one over it, what is sent is within
    the budget, unless it is down to one request at most and no output in it is
    longer than a cut one. *)
Theorem compaction_fits ms limit :
  if estimate ms <=? limit then compact json_text ms limit = ms
  else estimate (compact json_text ms limit) <= limit ∨
    (openers (compact json_text ms limit) <= 1 ∧ Forall cut_short (compact json_text ms limit)).
Proof.
  destruct (Nat.leb_spec (estimate ms) limit) as [Hle|Hgt].
  { unfold compact, compact_with_summary, compact_plan. by rewrite (proj2 (Nat.leb_le _ _) Hle). }
  destruct (compact_outcome _ _ Hgt) as (es & s & sent & Hout & [->|(t & _ & Hfit)]); [|by left].
  destruct (oc_fits _ _ _ _ _ Hout) as [Hfit|[Hlen Hcut]]; [by left|right]. split; [|done].
  rewrite (openers_alike _ _ (oc_sent _ _ _ _ _ Hout)). unfold build_messages.
  rewrite app_assoc, openers_app, system_openers.
  apply (kept_openers (split_exchanges (body_of ms))); [apply split_ok|apply Hout|done].
Qed.
End compaction.

(** ** Examples *)

Definition sample_json (_ : Json) : Text := txt "{}".
Definition sample_call : Message :=
  Message_new RAssistant [BToolUse (ToolCall_new (txt "c1") (txt "read_file") JNull)].
Definition sample_output (n : nat) : Message :=
  Message_new RTool [BToolResult (ToolResult_success (txt "c1") (replicate n 120%N))].
Definition sample_talk : list Message :=
  [Message_text RSystem (txt "be brief"); Message_text RUser (txt "read the first file");
   sample_call; sample_output 400; Message_text RAssistant (txt "done");
   Message_text RUser (txt "and now the second one"); sample_call; sample_output 30].

(** Dropping the first exchange is enough for a budget of eighty, and the
    summary of it is sent; for one of twenty even the summary is too much. *)
Example sample_compacted :
  length (compact sample_json sample_talk 80) = 5 ∧ length (compact sample_json sample_talk 20) = 4.
Proof. vm_compute. done. Qed.

(** An output a little over the cut gets longer by being cut. *)
Lemma cut_can_lengthen :
  let m := sample_output 241 in
  estimate_tokens sample_json [m] = 60 ∧ estimate_tokens sample_json [truncated m] = 72.
Proof. vm_compute. done. Qed.

Lemma compaction_keeps_the_protocol_witness :
  protocol sample_talk ∧ protocol (compact sample_json sample_talk 80).
Proof.
  assert (H : protocol sample_talk) by (by eexists).
  split; [exact H|]. apply (compaction_keeps_the_protocol sample_json sample_talk 80 H).
  unfold plain, sample_talk. repeat (constructor; [intros Hs; vm_compute in Hs; first [discriminate Hs|by split]|]).
  constructor.
Defined.

Lemma compaction_keeps_the_request_witness :
  Message_text RUser (txt "and now the second one") ∈ compact sample_json sample_talk 20.
Proof.
  apply (compaction_keeps_the_request sample_json (take 5 sample_talk) _ (drop 6 sample_talk) 20);
    [done|repeat constructor|done|done].
Defined.
