(* ===== verification/SessionParts.v ===== *)
(** * The pieces of a session's turn (crates/localpilot-harness/src/session.rs)

    The context budget and its calibration, soft interrupts,
    what is put into a request beside the history, the checks on tool calls and
    the texts a turn adds to the conversation.  [usize] has 64 bits. *)

From Stdlib Require Import String.
From stdpp Require Import base gmap list numbers.
From S2P Require Import Prelude Monitor Guards Utf8 Chars Message Json Provider Compaction.
From stdpp Require Import list.
#[local] Open Scope N_scope.
#[local] Open Scope list_scope.

(** ** Saturating products *)

Definition U128_MAX : N := 340282366920938463463374607431768211455.
Definition u128_saturate (n : N) : N := N.min n U128_MAX.

(** ** The context budget *)

Definition CONTEXT_RESERVE_TOKENS : N := 4096.
Definition CONTEXT_CALIBRATION_SAFETY_PERCENT : N := 5.
Definition FORCE_COMPACT_FLOOR : N := 4096.

Definition effective_context_limit (window : option N) (configured : N) (max_output : option N) : N :=
  match window with
  | Some window =>
      let reserve := default CONTEXT_RESERVE_TOKENS max_output in
      N.max (window - reserve) CONTEXT_RESERVE_TOKENS
  | None => configured
  end.

Record PromptTokenCalibration := mkCalibration { estimated : N; reported : N }.
Definition calibration_default : PromptTokenCalibration := mkCalibration 0 0.

Definition calibration_observe (c : PromptTokenCalibration) (estimated reported : N)
    : PromptTokenCalibration :=
  if (estimated =? 0) || (reported =? 0) then c else mkCalibration estimated (N.max reported estimated).

Definition calibrated_estimate (c : PromptTokenCalibration) (e : N) : N :=
  if estimated c =? 0 then e
  else
    let numerator := reported c in
    let denominator := estimated c in
    u64_saturate (u128_saturate (u128_saturate (e * numerator) + (denominator - 1)) / denominator).

Definition raw_budget (c : PromptTokenCalibration) (token_budget : N) : N :=
  let '(numerator, denominator) :=
    if estimated c =? 0 then (100 + CONTEXT_CALIBRATION_SAFETY_PERCENT, 100)
    else (u128_saturate (reported c * (100 + CONTEXT_CALIBRATION_SAFETY_PERCENT)),
          u128_saturate (estimated c * 100)) in
  u64_saturate (u128_saturate (token_budget * denominator) / numerator).

Record ContextExhaustion := mkExhaustion {
  prompt_tokens : N;
  ce_output_tokens : N;
  context_window : N;
  output_cap : N;
}.
Definition ContextExhaustion_classify (usage : TokenUsage) (context_window output_cap : option N)
    : option ContextExhaustion :=
  w ← context_window;
  cap ← output_cap;
  let prompt := effective_input_tokens usage in
  let output := output_tokens usage in
  let filled_window := w <=? u64_saturate (prompt + output) in
  let has_clear_output_headroom := u64_saturate (output * 2) <? cap in
  if (0 <? prompt) && filled_window && has_clear_output_headroom
  then Some (mkExhaustion prompt output w cap) else None.

(** ** Soft interrupts *)

Inductive SoftInterruptSource := SrcUser | SrcSystem | SrcBackgroundTask.
#[export] Instance SoftInterruptSource_eq_dec : EqDecision SoftInterruptSource.
Proof. solve_decision. Defined.
Definition interrupt_label (s : SoftInterruptSource) : option Text :=
  match s with
  | SrcUser => None
  | SrcSystem => Some (txt "system")
  | SrcBackgroundTask => Some (txt "background task")
  end.

Record SoftInterrupt := mkInterrupt { si_content : Text; si_source : SoftInterruptSource; urgent : bool }.
Definition into_message (i : SoftInterrupt) : Message :=
  Message_text RUser
    match interrupt_label (si_source i) with
    | Some label => txt "[" ++ label ++ txt "] " ++ si_content i
    | None => si_content i
    end.

(** The queue, as the gate it is made with answers now. *)
Definition push_interrupt (owned : bool) (q : list SoftInterrupt) (i : SoftInterrupt)
    : list SoftInterrupt * bool :=
  if owned then (q ++ [i], true) else (q, false).
Definition has_urgent (q : list SoftInterrupt) : bool := existsb urgent q.

Record SoftInterruptAdmission := mkAdmitted { adm_any : bool; adm_user : bool }.

(** ** Beside the history *)

Definition inject_turn_context (ms : list Message) (context : option Message) : list Message :=
  merge_consecutive_system
    match context with
    | None => ms
    | Some context =>
        match ms with
        | first :: rest =>
            if bool_decide (role first = RSystem) then first :: context :: rest
            else context :: first :: rest
        | [] => [context]
        end
    end.

(** The newest message that puts [prompt] as the user's own question. *)
Definition asks (prompt : Text) (m : Message) : bool :=
  bool_decide (role m = RUser) && negb (is_synthetic m)
  && bool_decide (head (content m) = Some (BText prompt)).
Definition beside (context : Text) (m : Message) : Message :=
  mkMessage (role m) (BText context :: content m) (metadata m).
Fixpoint update_first_match (p : Message → bool) (f : Message → Message) (ms : list Message)
    : option (list Message) :=
  match ms with
  | [] => None
  | m :: ms => if p m then Some (f m :: ms) else cons m <$> update_first_match p f ms
  end.
(** The messages, and whether the context was placed. *)
Definition inject_answer_context (ms : list Message) (context prompt : Text) : list Message * bool :=
  match context with
  | [] => (ms, true)
  | _ =>
      match update_first_match (asks prompt) (beside context) (rev ms) with
      | Some found => (rev found, true)
      | None => (ms, false)
      end
  end.
Definition append_to_system (ms : list Message) (text : Text) : list Message :=
  match ms with
  | first :: rest =>
      if bool_decide (role first = RSystem)
      then mkMessage RSystem (content first ++ [BText text]) (metadata first) :: rest
      else Message_new RSystem [BText text] :: ms
  | [] => [Message_new RSystem [BText text]]
  end.

Definition block_images (b : ContentBlock) : nat :=
  match b with
  | BImage _ _ => 1
  | BToolResult r => match tr_image r with Some _ => 1 | None => 0 end
  | _ => 0
  end.
Definition image_count (ms : list Message) : nat :=
  sum_list_with (λ m, sum_list_with block_images (content m)) ms.

(** [retain_mut] over one message, with the number still to remove. *)
Fixpoint retain_blocks (bs : list ContentBlock) (to_remove : nat) : list ContentBlock * nat :=
  match bs with
  | [] => ([], to_remove)
  | b :: bs =>
      match to_remove, b with
      | O, _ => let '(bs, n) := retain_blocks bs to_remove in (b :: bs, n)
      | S n, BImage _ _ => retain_blocks bs n
      | S n, BToolResult r =>
          match tr_image r with
          | Some _ =>
              let r := mkToolResult (tr_id r) (tr_output r ++ LF :: txt "[image omitted on retry]")
                         (tr_outcome r) None in
              let '(bs, n) := retain_blocks bs n in (BToolResult r :: bs, n)
          | None => let '(bs, n) := retain_blocks bs to_remove in (b :: bs, n)
          end
      | _, _ => let '(bs, n) := retain_blocks bs to_remove in (b :: bs, n)
      end
  end.
Fixpoint retain_messages (ms : list Message) (to_remove : nat) : list Message :=
  match ms with
  | [] => []
  | m :: ms =>
      let '(bs, n) := retain_blocks (content m) to_remove in
      mkMessage (role m) bs (metadata m) :: retain_messages ms n
  end.
Definition retain_latest_images (ms : list Message) (limit : nat) : list Message :=
  match (image_count ms - limit)%nat with
  | O => ms
  | to_remove =>
      List.filter (λ m, negb (bool_decide (content m = []))) (retain_messages ms to_remove)
  end.

(** ** Texts *)

Definition REPAIR_PROMPT : Text :=
  txt "Your previous response was unusable. Stop, and produce a clean, well-formed reply.".
Definition CHUNKED_WRITE_REPAIR_PROMPT : Text :=
  txt "Your previous file-write tool call was too large to parse as one call. Write the file in smaller pieces: create it with `write_file` containing the first section, then add each remaining section with `append_file`. Keep every individual call small.".

Definition one_of (name : Text) (names : list string) : bool :=
  existsb (λ n, bool_decide (name = txt n)) names.
Definition is_file_write_tool (name : Text) : bool :=
  one_of name ["write_file"; "append_file"; "edit_file"; "multi_edit"; "replace_in_file";
               "apply_patch"]%string.
Definition is_resumable_wait_tool (name : Text) : bool := one_of name ["run_background"; "swarm"]%string.

(** [NEED:] markers, three at most. *)
Definition marker_edge (c : N) : bool := (c =? 45) || (c =? 42) || (c =? 32).
Definition need_of (line : Text) : option Text :=
  let line := trim_start_chars marker_edge (trim line) in
  if eq_ignore_ascii_case (take 5 line) (txt "need:")
  then match trim (drop 5 line) with [] => None | need => Some need end
  else None.
Definition parse_need_markers (text : Text) : list Text := take 3 (omap need_of (lines text)).

Definition is_control (c : N) : bool := (c <? 32) || ((127 <=? c) && (c <? 160)).
Definition kept_control (c : N) : bool := (c =? 9) || (c =? 10) || (c =? 13).
Definition hex_digit (n : N) : N := if n <? 10 then 48 + n else 87 + n.
Definition escape_control (c : N) : Text :=
  if kept_control c then [c]
  else if is_control c then txt "\x" ++ [hex_digit (c / 16); hex_digit (c mod 16)]
  else [c].
Definition scrub_control_chars (text : Text) : option Text :=
  if negb (existsb (λ c, is_control c && negb (kept_control c)) text) then None
  else Some (text ≫= escape_control).
Definition trim_blank_boundary_lines (text : Text) : Text :=
  trim_chars (λ c, (c =? CR) || (c =? LF)) text.

Definition assistant_text_of (m : Message) : option Text :=
  let text := Chars.join [LF] (omap (λ b, match b with BText t => Some t | _ => None end) (content m)) in
  if is_blank text then None else Some text.

(** ** Tool calls *)

Definition call_error (c : StreamCall) : option Text :=
  if is_blank (sc_id c) then
    Some (txt "Tool call error: missing tool-call id. Retry with a valid id.")
  else if is_blank (sc_name c) then
    Some (txt "Tool call error: missing tool name. Retry with a registered tool name.")
  else if negb (is_object (sc_input c)) then
    Some (txt "Tool call error for " ++ sc_name c
          ++ txt ": input must be a JSON object matching the tool schema.")
  else None.
Definition invalid_tool_calls (calls : list StreamCall) : option Text := head (omap call_error calls).

Definition tool_error_message (id output : Text) : Message :=
  Message_new RTool [BToolResult (ToolResult_error id output)].

Definition message_is_error (m : Message) : bool :=
  existsb (λ b, match b with BToolResult r => result_is_error r | _ => false end) (content m).

Section texts.
(** [Value::to_string]; the first sixteen hexadecimal digits of a SHA-256. *)
Context (json_text : Json → Text) (short_fingerprint : Text → Text).

Definition resumable_wait_result (id name : Text) (input : Json) : Message :=
  Message_new RTool [BToolResult (ToolResult_success id
    (txt "Not an error: this `" ++ name ++ txt "` call was interrupted by a graceful shutdown before its wait completed. Nothing failed and nothing was left half-done. To resume, re-issue the identical call with this input: "
     ++ json_text input))].

(** Object members in the order of their keys, at every level. *)
Fixpoint sorted_json (v : Json) : Json :=
  match v with
  | JArray l => JArray (sorted_json <$> l)
  | JObject m => JObject (fold_left (λ acc '(k, v), bt_entry k (λ _, sorted_json v) acc) m [])
  | _ => v
  end.
Definition canonical_json (v : Json) : Text := json_text (sorted_json v).

Definition outcome_name (o : ToolOutcome) : Text :=
  match o with
  | OutcomeOk => txt "Ok"
  | ReportedFailure => txt "ReportedFailure"
  | Unusable => txt "Unusable"
  end.
Definition observed_output (text : Text) (r : ToolResult) : Text :=
  match tr_image r with
  | None => text ++ 0x1f :: txt "none"
  | Some i =>
      text ++ 0x1f :: txt "some" ++ 0x1e :: ti_media_type i ++ 0x1e :: short_fingerprint (ti_data i)
  end.
Definition observation_identity (r : ToolResult) : Text :=
  outcome_name (tr_outcome r) ++ 0x1f :: observed_output (tr_output r) r.

Definition same_error_hint (tool : Text) : Text :=
  LF :: LF :: txt "[recovery] `" ++ tool ++ txt "` has now failed the same way several times. Do not re-send the same call " ++ 0x2014 :: txt " change approach: for a multiline or heavily-quoted shell command, write the body to a script file (.py/.ps1/.sh) and run that file; if a required tool is missing, say so instead of working around it; otherwise read the relevant file or inputs before retrying.".
Definition same_failure_hint (tool : Text) : Text :=
  LF :: LF :: txt "[recovery] `" ++ tool ++ txt "` has now reported the same failure several times. Re-running it will not change the result: read the failing output above, change what produced it, and only then run it again.".
Definition repeated_observation_hint (count : nat) : Text :=
  LF :: LF :: txt "[repeated call] This call had the same input as the previous one and returned the same result (" ++ show_nat count ++ txt " times in a row). Repeating it will not change the outcome: change the input, take a different approach, or state what is blocking you. Another identical repeat stops the turn.".
Definition no_progress_hint : Text :=
  LF :: LF :: txt "[recovery] These tool calls are not making forward progress " ++ 0x2014 :: txt " the same calls keep returning the same results. Do not repeat them: either act on what you already have and answer, or change approach (read a different input, try a different tool, or state what is blocking you).".

(** ** Failures of one tool in a turn *)

Definition DEFAULT_TOOL_FAILURE_THRESHOLD : N := 6.
Definition UNPRODUCTIVE_CALL_LIMIT : nat := 12.
Definition record_failure (g : gmap Text N) (tool : Text) : gmap Text N * N :=
  let count := u32_add (default 0 (g !! tool)) 1 in (<[tool := count]> g, count).
Definition record_working (g : gmap Text N) (tool : Text) : gmap Text N := delete tool g.

(** ** Why a turn made no progress *)

Inductive NoProgressDiagnostic :=
  | DgStuckRepeat (tool : Text) (count : nat)
  | DgNoveltyDecay (window distinct : nat)
  | DgConsecutiveFailures (count : nat)
  | DgRepeatedObservation (tool outcome : Text) (count : nat) (call result : Text)
  | DgBackendUnavailable (tool backend : Text) (count : nat)
  | DgBackendUnavailableAttempt (tool backend : Text) (count : nat)
  | DgPermissionDenied (tool reason : Text) (count : nat).

Definition no_progress_diagnostic (signal : NoProgressSignal) (tool : Text)
    : option NoProgressDiagnostic :=
  match signal with
  | NoSignal => None
  | StuckRepeat count => Some (DgStuckRepeat tool count)
  | NoveltyDecay distinct window => Some (DgNoveltyDecay window distinct)
  end.

Definition quoted (t : Text) : Text := json_text (JString t).
Definition no_progress_detail (d : NoProgressDiagnostic) : Text :=
  match d with
  | DgPermissionDenied tool reason count =>
      txt "signal=permission_denied tool=" ++ quoted tool ++ txt " reason=" ++ quoted reason
      ++ txt " count=" ++ show_nat count
  | DgBackendUnavailableAttempt tool backend count =>
      txt "signal=backend_unavailable_attempt tool=" ++ quoted tool ++ txt " backend="
      ++ quoted backend ++ txt " count=" ++ show_nat count
  | DgStuckRepeat tool count =>
      txt "signal=stuck_repeat tool=" ++ quoted tool ++ txt " count=" ++ show_nat count
  | DgNoveltyDecay window distinct =>
      txt "signal=novelty_decay window=" ++ show_nat window ++ txt " distinct=" ++ show_nat distinct
  | DgConsecutiveFailures count => txt "signal=consecutive_failures count=" ++ show_nat count
  | DgRepeatedObservation tool outcome count call result =>
      txt "signal=repeated_observation tool=" ++ quoted tool ++ txt " outcome=" ++ outcome
      ++ txt " count=" ++ show_nat count ++ txt " call=" ++ call ++ txt " result=" ++ result
  | DgBackendUnavailable tool backend count =>
      txt "signal=backend_unavailable tool=" ++ quoted tool ++ txt " backend=" ++ quoted backend
      ++ txt " count=" ++ show_nat count
  end.
Definition no_progress_notice (d : NoProgressDiagnostic) : Text * Text :=
  let detail := no_progress_detail d in
  (txt "no forward progress this turn (" ++ detail ++ txt "); stopping instead of spinning", detail).
End texts.
