(* ===== verification/Flow.v ===== *)
(** * Stateful code with an early return

    A computation takes a state and either goes on with a value or ends the whole
    run with an exit, as [return] inside a loop body does.  [triple P c Q E] says
    what holds of the state when [c] goes on ([Q]) and when it ends the run
    ([E]); [tseq], [tstep] and [tvalue] run it through a body. *)

From stdpp Require Import base list.
From S2P Require Import Prelude.
#[local] Open Scope list_scope.

Inductive flow (S X A : Type) :=
  | Next (a : A) (s : S)
  | Ended (x : X) (s : S).
Arguments Next {S X A} a s.
Arguments Ended {S X A} x s.

Definition Flow (S X A : Type) : Type := S → flow S X A.

Section constructs.
Context {S X : Type}.

#[export] Instance flow_ret : MRet (Flow S X) := λ A a s, Next a s.
#[export] Instance flow_bind : MBind (Flow S X) := λ A B f c s,
  match c s with Next a s => f a s | Ended x s => Ended x s end.

Definition finish {A} (x : X) : Flow S X A := λ s, Ended x s.
Definition get {A} (f : S → A) : Flow S X A := λ s, Next (f s) s.
Definition modify (f : S → S) : Flow S X unit := λ s, Next tt (f s).
(** An answer that moves the state on. *)
Definition ask {A} (f : S → A * S) : Flow S X A := λ s, let '(a, s) := f s in Next a s.
Definition when_ (b : bool) (c : Flow S X unit) : Flow S X unit := if b then c else mret tt.
Fixpoint for_each {A} (f : A → Flow S X unit) (l : list A) : Flow S X unit :=
  match l with
  | [] => mret tt
  | a :: l => _ ← f a; for_each f l
  end.

(** ** What a computation guarantees *)

Definition triple {A} (P : S → Prop) (c : Flow S X A) (Q : A → S → Prop) (E : X → S → Prop) : Prop :=
  ∀ s, P s → match c s with Next a s => Q a s | Ended x s => E x s end.

Lemma triple_ret {A} P (a : A) E : triple P (mret a) (λ b s, b = a ∧ P s) E.
Proof. by intros s Hs. Qed.

Lemma triple_bind {A B} P (c : Flow S X A) (f : A → Flow S X B) Q R E :
  triple P c R E → (∀ a, triple (R a) (f a) Q E) → triple P (c ≫= f) Q E.
Proof.
  intros Hc Hf s Hs. specialize (Hc s Hs). unfold mbind, flow_bind. destruct (c s) as [a s'|x s']; [|done].
  by apply Hf.
Qed.

Lemma triple_pre {A} (P P' : S → Prop) (c : Flow S X A) Q E :
  triple P' c Q E → (∀ s, P s → P' s) → triple P c Q E.
Proof. intros Hc HP s Hs. by apply Hc, HP. Qed.

Lemma triple_post {A} P (c : Flow S X A) (Q Q' : A → S → Prop) (E E' : X → S → Prop) :
  triple P c Q' E' → (∀ a s, Q' a s → Q a s) → (∀ x s, E' x s → E x s) → triple P c Q E.
Proof. intros Hc HQ HE s Hs. specialize (Hc s Hs). destruct (c s); auto. Qed.

Lemma triple_finish {A} P (x : X) (Q : A → S → Prop) (E : X → S → Prop) :
  (∀ s, P s → E x s) → triple P (finish x) Q E.
Proof. intros H s Hs. by apply H. Qed.

Lemma triple_get {A} P (f : S → A) E : triple P (get f) (λ a s, a = f s ∧ P s) E.
Proof. by intros s Hs. Qed.

Lemma triple_modify P (f : S → S) (Q : unit → S → Prop) E :
  (∀ s, P s → Q tt (f s)) → triple P (modify f) Q E.
Proof. intros H s Hs. by apply H. Qed.

Lemma triple_ask {A} P (f : S → A * S) (Q : A → S → Prop) E :
  (∀ s, P s → Q (f s).1 (f s).2) → triple P (ask f) Q E.
Proof. intros H s Hs. specialize (H s Hs). unfold ask. by destruct (f s). Qed.

Lemma triple_pure {A} (phi : Prop) P (c : Flow S X A) Q E :
  (phi → triple P c Q E) → triple (λ s, phi ∧ P s) c Q E.
Proof. intros H s [Hphi Hs]. by apply H. Qed.

Lemma triple_when P (b : bool) (c : Flow S X unit) (Q : unit → S → Prop) E :
  (b = true → triple P c Q E) → (b = false → ∀ s, P s → Q tt s) → triple P (when_ b c) Q E.
Proof. intros Ht Hf. destruct b; [by apply Ht|]. intros s Hs. by apply Hf. Qed.

Lemma triple_for_each {A} (I : list A → S → Prop) (f : A → Flow S X unit) (l : list A) E :
  (∀ a l, triple (I (a :: l)) (f a) (λ _, I l) E) → triple (I l) (for_each f l) (λ _, I []) E.
Proof.
  intros Hf. induction l as [|a l IH]; [by intros s Hs|]. cbn. eapply triple_bind; [apply Hf|]. intros u. apply IH.
Qed.

(** Reading the state: what held of it then is still known later ... *)
Lemma triple_snapshot {A} P (f : S → Flow S X A) Q E :
  (∀ s, P s → triple P (f s) Q E) → triple P (get id ≫= f) Q E.
Proof. intros H s Hs. exact (H s Hs s Hs). Qed.
Lemma triple_reads {A B} P (g : S → B) (f : B → Flow S X A) Q E :
  (∀ b, triple P (f b) Q E) → triple P (get g ≫= f) Q E.
Proof. intros H s Hs. exact (H (g s) s Hs). Qed.
(** ... and the value read is the present one. *)
Lemma triple_read {A B} P (g : S → B) (f : B → Flow S X A) Q E :
  (∀ b, triple (λ s, g s = b ∧ P s) (f b) Q E) → triple P (get g ≫= f) Q E.
Proof. intros H s Hs. by apply (H (g s) s). Qed.

Lemma triple_if {A} P (b : bool) (c d : Flow S X A) Q E :
  (b = true → triple P c Q E) → (b = false → triple P d Q E) → triple P (if b then c else d) Q E.
Proof. by destruct b; auto. Qed.
Lemma triple_done P (Q : unit → S → Prop) E : (∀ s, P s → Q tt s) → triple P (mret tt) Q E.
Proof. intros H s Hs. by apply H. Qed.
Lemma triple_value {A} P (a : A) (Q : A → S → Prop) E : (∀ s, P s → Q a s) → triple P (mret a) Q E.
Proof. intros H s Hs. by apply H. Qed.

(** A value that is known to satisfy [phi], whatever the state. *)
Lemma triple_bind_pure {A B} P R (phi : A → Prop) (c : Flow S X A) (f : A → Flow S X B) Q E :
  triple P c (λ a s, phi a ∧ R s) E → (∀ a, phi a → triple R (f a) Q E) → triple P (c ≫= f) Q E.
Proof. intros Hc Hf. eapply triple_bind; [exact Hc|]. intros a. apply triple_pure, Hf. Qed.
End constructs.

(** The first computation of a body, by its own lemma or what is left to show of
    it; a value it is known to return. *)
Ltac tseq := eapply triple_bind; [|intros ?; cbn beta].
Ltac tstep lem := eapply triple_bind; [eapply lem; first [exact _|eassumption|idtac]|intros ?; cbn beta].
Ltac tvalue lem := eapply triple_bind_pure; [eapply lem; first [exact _|eassumption|idtac]|intros ? ?; cbn beta].
