(* ===== verification/TurnWire.v ===== *)
(** * What a request carries: the lemmas

    The texts added to the compacted history and the images left out of it keep
    every call with its results, and the image limit is met exactly. *)

From Stdlib Require Import String.
From stdpp Require Import base gmap list numbers.
From S2P Require Import Permission.
From S2P Require Import Prelude Chars Message Compaction CompactionProps SessionParts Flow Turn.
From stdpp Require Import list.
#[local] Open Scope nat_scope.
#[local] Open Scope list_scope.

(** Every call is answered. *)
Definition closed (ms : list Message) : Prop := says [] ms = Some [].

Lemma closed_silent ms m : closed ms → silent m → closed (ms ++ [m]).
Proof. intros Hms Hm. apply says_join; [done|]. by apply says_silent, list.Forall_singleton. Qed.

Lemma silent_user t : silent (Message_text RUser t).
Proof. split; [by right; left|done]. Qed.
Lemma silent_system t : silent (Message_text RSystem t).
Proof. split; [by left|done]. Qed.
Lemma silent_context t : silent (Message_new RSystem [BText t]).
Proof. split; [by left|done]. Qed.

(** ** Texts beside the history *)

Lemma say_merged open y m :
  role y = RSystem → role m = RSystem →
  say open (mkMessage (role y) (content y ++ content m) (metadata y)) = (o ← say open y; say o m).
Proof.
  intros Hy Hm. set (x := mkMessage _ _ _).
  assert (Hu : uses x = uses y ++ uses m) by apply omap_app.
  assert (Hs : results x = results y ++ results m) by apply omap_app.
  assert (Hr : role x = RSystem) by done. clearbody x. unfold say. rewrite Hu, Hs, Hr, Hy, Hm.
  destruct (decide (open = [] ∧ uses y = [] ∧ results y = [])) as [(-> & -> & ->)|Hn]; [done|].
  rewrite (bool_decide_eq_false_2 (open = [] ∧ uses y = [] ∧ results y = [])) by done.
  rewrite bool_decide_eq_false_2; [done|]. intros (Ho & [H1 _]%app_nil & [H2 _]%app_nil). by apply Hn.
Qed.

Lemma merge_step_says out m open : says open (merge_step out m) = says open (out ++ [m]).
Proof.
  unfold merge_step. destruct (rev out) as [|y before] eqn:Hr; [done|].
  apply (f_equal (@rev _)) in Hr. rewrite rev_involutive in Hr. cbn in Hr. subst out.
  case_bool_decide as Hy; [|done]. case_bool_decide as Hm; [|done]. cbn [andb].
  rewrite <-app_assoc, !says_app. destruct (says open (rev before)) as [o|]; [|done].
  cbn [mbind option_bind app says]. rewrite (say_merged o y m) by done.
  by destruct (say o y) as [o'|]; cbn [mbind option_bind]; [destruct (say o' m)|].
Qed.

Lemma merge_says ms open : says open (merge_consecutive_system ms) = says open ms.
Proof.
  unfold merge_consecutive_system. change ms with ([] ++ ms) at 2. generalize (@nil Message) as out.
  induction ms as [|m ms IH]; intros out; cbn [fold_left]; [by rewrite app_nil_r|].
  rewrite IH, says_app, merge_step_says, <-says_app, <-app_assoc. done.
Qed.

Lemma inject_turn_context_closed ms c :
  closed ms → (∀ m, c = Some m → silent m) → closed (inject_turn_context ms c).
Proof.
  intros Hms Hc. unfold inject_turn_context, closed. rewrite merge_says. destruct c as [c|]; [|done].
  specialize (Hc c eq_refl). assert (Hone : closed [c]) by (by apply says_silent, list.Forall_singleton).
  destruct ms as [|m ms]; [done|]. case_bool_decide as Hm.
  - change (m :: c :: ms) with ([m] ++ [c] ++ ms). change (m :: ms) with ([m] ++ ms) in Hms.
    unfold closed in *. rewrite says_app in Hms |- *. destruct (says [] [m]) as [o|] eqn:Ho; [|done].
    assert (o = []) as ->. { cbn in Ho. unfold say in Ho. rewrite Hm in Ho. case_bool_decide; naive_solver. }
    cbn [mbind option_bind] in *. rewrite says_app, Hone. done.
  - change (c :: m :: ms) with ([c] ++ m :: ms). by apply says_join.
Qed.

Lemma update_first_alike p f ms ms' :
  (∀ m, alike m (f m)) → update_first_match p f ms = Some ms' → Forall2 alike ms ms'.
Proof.
  intros Hf. revert ms'. induction ms as [|m ms IH]; intros ms'; cbn; [done|].
  assert (Hd : ∀ l, Forall2 alike l l) by (intros l; by apply Forall_Forall2_diag, Forall_true).
  destruct (p m); [intros [= <-]; by constructor|]. destruct (update_first_match p f ms); [|done].
  intros [= <-]. constructor; [done|by apply IH].
Qed.

Lemma inject_answer_context_says ms context prompt open :
  says open (fst (inject_answer_context ms context prompt)) = says open ms.
Proof.
  unfold inject_answer_context. destruct context as [|c context]; [done|].
  destruct (update_first_match _ _ _) as [found|] eqn:Hu; [|done]. cbn [fst].
  apply says_alike. rewrite <-(rev_involutive ms). apply update_first_alike in Hu; [|by intros m].
  rewrite (rev_alt (rev ms)), (rev_alt found). exact (Forall2_reverse _ _ _ Hu).
Qed.

Lemma append_to_system_closed ms t : closed ms → closed (append_to_system ms t).
Proof.
  intros Hms. unfold append_to_system. destruct ms as [|m ms]; [done|]. case_bool_decide as Hm.
  - unfold closed. rewrite (says_alike [] (m :: ms)); [done|]. constructor.
    + split_and!; [done|..]; unfold uses, results; cbn [content]; rewrite omap_app; cbn; by rewrite app_nil_r.
    + by apply Forall_Forall2_diag, Forall_true.
  - apply (says_join [_] (m :: ms)); [|done]. apply says_silent, list.Forall_singleton, silent_context.
Qed.

(** ** Images *)

Definition message_images (m : Message) : nat := sum_list_with block_images (content m).

Lemma retain_blocks_exact bs n bs' n' :
  retain_blocks bs n = (bs', n') →
  omap (λ b, match b with BToolUse c => Some (tc_id c) | _ => None end) bs'
    = omap (λ b, match b with BToolUse c => Some (tc_id c) | _ => None end) bs ∧
  omap (λ b, match b with BToolResult r => Some (tr_id r) | _ => None end) bs'
    = omap (λ b, match b with BToolResult r => Some (tr_id r) | _ => None end) bs ∧
  n' = n - sum_list_with block_images bs ∧
  sum_list_with block_images bs' = sum_list_with block_images bs - n.
Proof.
  revert n bs' n'. induction bs as [|b bs IH]; intros n bs' n'; cbn [retain_blocks].
  { intros [= <- <-]. split_and!; [done|done|cbn [sum_list_with]; lia|done]. }
  destruct n as [|n].
  { destruct (retain_blocks bs 0) as [bs1 n1] eqn:Hr. intros [= <- <-]. apply IH in Hr as (Hu & Hs & -> & Hi).
    destruct b; cbn [omap list_omap sum_list_with block_images]; rewrite ?Hu, ?Hs, ?Hi; split_and!; try done; rewrite ?Nat.sub_0_r; try done; lia. }
  destruct b as [| | |r|];
    try (destruct (retain_blocks bs (S n)) as [bs1 n1] eqn:Hr; intros [= <- <-];
         apply IH in Hr as (Hu & Hs & -> & Hi); cbn [omap list_omap sum_list_with block_images]; rewrite ?Hu, ?Hs, ?Hi; split_and!; try done; lia).
  - destruct (tr_image r) eqn:Himg.
    + destruct (retain_blocks bs n) as [bs1 n1] eqn:Hr. intros [= <- <-]. apply IH in Hr as (Hu & Hs & -> & Hi).
      cbn [omap list_omap sum_list_with block_images tr_id tr_image]. rewrite Hu, Hs, Hi, Himg. split_and!; try done; lia.
    + destruct (retain_blocks bs (S n)) as [bs1 n1] eqn:Hr. intros [= <- <-]. apply IH in Hr as (Hu & Hs & -> & Hi).
      cbn [omap list_omap sum_list_with block_images tr_id tr_image]. rewrite Hu, Hs, Hi, Himg. split_and!; try done; lia.
  - intros Hr. apply IH in Hr as (Hu & Hs & -> & Hi). cbn [omap list_omap sum_list_with block_images tr_id tr_image]. rewrite Hu, Hs, Hi. split_and!; try done; lia.
Qed.

Lemma retain_messages_alike ms n : Forall2 alike ms (retain_messages ms n).
Proof.
  revert n. induction ms as [|m ms IH]; intros n; cbn [retain_messages]; [constructor|].
  destruct (retain_blocks (content m) n) as [bs k] eqn:Hr. apply retain_blocks_exact in Hr as (Hu & Hs & _).
  constructor; [by split_and!|apply IH].
Qed.

Lemma retain_messages_images ms n : image_count (retain_messages ms n) = image_count ms - n.
Proof.
  unfold image_count. revert n. induction ms as [|m ms IH]; intros n; cbn [retain_messages]; [done|].
  destruct (retain_blocks (content m) n) as [bs k] eqn:Hr. apply retain_blocks_exact in Hr as (_ & _ & -> & Hi).
  cbn [sum_list_with content]. rewrite IH, Hi. lia.
Qed.

Lemma drop_empty_says ms open o :
  says open ms = Some o → says open (List.filter (λ m, negb (bool_decide (content m = []))) ms) = Some o.
Proof.
  revert open. induction ms as [|m ms IH]; intros open; [done|]. cbn [says List.filter].
  destruct (say open m) as [o'|] eqn:Hs; [|done]. cbn [mbind option_bind]. intros Ho.
  case_bool_decide as He; cbn [negb says]; [|rewrite Hs; by apply IH].
  assert (Hn : o' = open); [|subst; by apply IH].
  unfold say, uses, results in Hs. rewrite He in Hs. cbn in Hs.
  destruct (role m); case_bool_decide as Hb; try done; injection Hs as <-; try (by destruct Hb as [-> _]).
  clear. induction open as [|i open IH]; [done|]. cbn. by rewrite IH.
Qed.

Lemma retain_latest_images_closed ms limit : closed ms → closed (retain_latest_images ms limit).
Proof.
  intros Hms. unfold retain_latest_images. destruct (image_count ms - limit) as [|n]; [done|].
  apply drop_empty_says. by rewrite (says_alike [] ms) by apply retain_messages_alike.
Qed.

Lemma drop_empty_images ms : 
  image_count (List.filter (λ m, negb (bool_decide (content m = []))) ms) = image_count ms.
Proof.
  unfold image_count. induction ms as [|m ms IH]; [done|]. cbn [List.filter sum_list_with].
  case_bool_decide as He; cbn; rewrite IH; [by rewrite He|done].
Qed.

(** A request holds the newest images up to the limit: of more, exactly the
    limit is kept, and of no more than that, every one. *)
Theorem image_limit_is_met ms limit :
  image_count (retain_latest_images ms limit) = Nat.min (image_count ms) limit.
Proof.
  unfold retain_latest_images. destruct (image_count ms - limit) as [|n] eqn:Hn; [lia|].
  rewrite drop_empty_images, retain_messages_images. lia.
Qed.

(** ** The request *)

Lemma request_closed texts limit ms :
  closed ms → (∀ m, turn_context texts = Some m → silent m) → closed (request_messages texts limit ms).
Proof.
  intros Hms Hc. unfold request_messages.
  pose proof (inject_turn_context_closed ms _ Hms Hc) as H1.
  destruct (inject_answer_context (inject_turn_context ms (turn_context texts)) (answer_context texts)
    (prompt texts)) as [ms2 placed] eqn:H2.
  assert (Hms2 : closed ms2).
  { unfold closed. change ms2 with (fst (ms2, placed)). rewrite <-H2, inject_answer_context_says. done. }
  set (ms3 := match placed, question_fallback texts with false, Some text => _ | _, _ => _ end).
  assert (Hms3 : closed ms3).
  { subst ms3. destruct placed; [done|]. destruct (question_fallback texts); [by apply append_to_system_closed|done]. }
  destruct limit; [by apply retain_latest_images_closed|done].
Qed.
