(* ===== verification/TurnInv.v ===== *)
(** * What every part of a turn keeps

    One invariant of the state of a turn, and for each operation of Turn.v what
    it does to it: which calls of the last answer are still open, that the
    guards can name the reason they stop for, that the calls stay within the
    budget, that a projection is kept only of a history that can be sent. *)

From Stdlib Require Import String.
From stdpp Require Import base gmap list numbers.
From S2P Require Import Permission.
From S2P Require Import Prelude Monitor Guards Utf8 Chars Message Json Provider Compaction CompactionProps.
From S2P Require Import SessionParts Flow Turn TurnWire.
From stdpp Require Import list.
#[local] Open Scope nat_scope.
#[local] Open Scope list_scope.

Lemma silent_synthetic m why : silent m → silent (into_synthetic m why).
Proof. done. Qed.
Lemma silent_inert m : silent m → inert m.
Proof. intros (Hr & Hu & Hs). split_and!; try done. by destruct Hr as [->|[->| ->]]. Qed.

(** ** A stream, as it has been read so far *)

Definition text_of (polls : list Poll) : Text :=
  polls ≫= λ p, match p with PollEvent (Ok (TextDelta t)) => t | _ => [] end.
Definition calls_of (polls : list Poll) : list StreamCall :=
  omap (λ p, match p with PollEvent (Ok (EvToolCall c)) => Some c | _ => None end) polls.
(** An answer: its calls have different ids, and its text does not pass for a
    summary when there are any. *)
Definition well_formed (text : Text) (calls : list StreamCall) : Prop :=
  NoDup (sc_id <$> calls) ∧
  (calls ≠ [] → starts_with SUMMARY_TITLE (trim_blank_boundary_lines text) = false).
Definition orderly (polls : list Poll) : Prop :=
  ∀ k, well_formed (text_of (take k polls)) (calls_of (take k polls)).

(** ** What the turn relies on *)

Section invariant.
Context (json_text : Json → Text) (digest : Text → N) (digest_pair : Text → Text → N)
  (short_fingerprint : Text → Text) (redact : Text → Text).
Context {W : Type} `{H : Host W} (config : SessionConfig).
(** A property of the rest of the runtime, and the most a delegate may call. *)
Context (WI : W → Prop) (delegated : nat).
Abbreviation M := (Flow (Turn W) Exit).
Abbreviation T := (Turn W).

Definition keeps {A} (f : W → A * W) : Prop := ∀ w, WI w → WI (snd (f w)).
(** Everything keeps the property, the provider at least when it is sent a
    conversation in which every call is answered; its answers are well formed; a
    tool's result carries the id of its call. *)
Record contract : Prop := {
  k_cancelled : keeps cancelled;
  k_quiesce : keeps quiesce_requested;
  k_timed_out : keeps timed_out;
  k_backoff n : keeps (backoff_cancelled n);
  k_urgent : keeps urgent_queued;
  k_drain : keeps drain;
  k_message m : keeps (persist_message m);
  k_event : keeps persist_event;
  k_provider rq w : WI w → closed (rq_messages rq) → WI (snd (provider_stream rq w));
  k_polls rq w polls : WI w → closed (rq_messages rq) → fst (provider_stream rq w) = Ok polls → orderly polls;
  k_summarize d c : keeps (summarize d c);
  k_contribute t : keeps (contribute t);
  k_reveal t : keeps (reveal_for_request t);
  k_markers t : keeps (reveal_for_markers t);
  k_reresolution t : keeps (broker_reresolution t);
  k_note t w : WI w → WI (note_success t w);
  k_reply t : keeps (gate_final_reply t);
  k_verify b n : keeps (verify_before_done b n);
  k_unit_end : keeps take_unit_end;
  k_settled w : WI w → WI (unit_settled w);
  k_batch w : WI w → WI (batch_started w);
  k_steered w : WI w → WI (user_steered w);
  k_cut w : WI w → WI (user_cut_batch w);
  k_specs : keeps tool_specs;
  k_prepare t v : keeps (prepare_project_write t v);
  k_backends : keeps refresh_backend_availability;
  k_precondition t v : keeps (precondition_block t v);
  k_launch t v : keeps (check_before_launch_verdict t v);
  k_reserve t v : keeps (reserve_work_input t v);
  k_dispatch c : keeps (dispatch_detailed c);
  k_result c w d : fst (fst (dispatch_detailed c w)) = Some d → tr_id (td_result d) = tc_id c;
  k_delegated c w : snd (fst (dispatch_detailed c w)) <= delegated;
  k_elide c r : keeps (elide_seen_read c r);
}.
Context (K : contract).

(** ** The invariant *)

(** A guard that stops the turn can say why. *)
Definition diagnosed (b : Breakers) : Prop :=
  (∀ n, active (no_progress b) = StuckRepeat n →
     ∃ tool count, no_progress_dynamic b = Some (DgStuckRepeat tool count)) ∧
  (tripped_since_reset (no_progress b) = true → is_Some (no_progress_monotone b)).

(** [extra] more calls fit the budget, a delegate's last ones aside. *)
Definition within (extra : nat) (s : T) : Prop :=
  ∀ hard, hard_max (budget_controller config) = Some hard →
    turn_tool_calls s + extra <= hard + delegated.

Record safe (extra : nat) (open : list ToolUseId) (s : T) : Prop := {
  sf_world : WI (world s);
  sf_plain : plain (messages s);
  sf_said : protocol (messages s);
  sf_owned : is_owned (admission s) = true → says [] (messages s) = Some open;
  sf_admission : admission s = Owned ∨ admission s = Lost;
  sf_cache g l r : compaction_cache s = Some (g, l, r) → closed (cr_messages r);
  sf_diagnosed : diagnosed (breakers s);
  sf_within : within extra s;
}.
(** Known of the history even when the session was lost meanwhile. *)
Definition exact (extra : nat) (open : list ToolUseId) (s : T) : Prop :=
  safe extra open s ∧ says [] (messages s) = Some open.
Definition calm : T → Prop := exact 0 [].

(** After a last notice. *)
Definition noticed (ms : list Message) : Prop := ∃ pre m, ms = pre ++ [m] ∧ protocol pre ∧ silent m.
Record loose (s : T) : Prop := {
  lo_world : WI (world s);
  lo_said : protocol (messages s) ∨ noticed (messages s);
  lo_admission : admission s = Owned ∨ admission s = Lost;
  lo_within : within 0 s;
}.

Definition may_leave_open (r : StopReason) : bool :=
  match r with Cancelled | NoProgress | BudgetExceeded => true | _ => false end.
Definition ended (x : Exit) (s : T) : Prop :=
  match x with
  | Panicked => False
  | OutOfFuel => safe 0 [] s
  | Stopped r =>
      loose s ∧
      (r ≠ NoProgress → r ≠ BudgetExceeded → protocol (messages s)) ∧
      (may_leave_open r = false → is_owned (admission s) = true → closed (messages s))
  end.

(** ** Assertions that do not depend on what most operations change *)

Class Stable (P : T → Prop) : Prop := {
  st_world s : P s → WI (world s);
  st_set_world s w : P s → WI w → P (set_world w s);
  st_lost s : P s → P (set_admission Lost s);
  st_text s t : P s → P (set_assistant_text t s);
  st_flight s b : P s → P (set_in_flight b s);
  st_instructions s l : P s → P (set_instructions l s);
  st_recovery s r : P s → P (set_recovery r s);
  st_usage s c u : P s → P (set_usage c u s);
  st_retries s r : P s → P (set_retries r s);
}.
Class Guarded (P : T → Prop) : Prop := {
  gd_diagnosed s : P s → diagnosed (breakers s);
  gd_breakers s b : P s → diagnosed b → P (set_breakers b s);
}.

#[local] Instance safe_stable e o : Stable (safe e o).
Proof. split; [by intros s []|..]; intros s *; intros []; intros; split; cbn in *; by auto. Qed.
#[local] Instance safe_guarded e o : Guarded (safe e o).
Proof. split; [by intros s []|]. intros s b []; intros; split; cbn in *; by auto. Qed.
#[local] Instance exact_stable e o : Stable (exact e o).
Proof.
  split; intros s *; intros [Hs Ho]; intros; first [exact (sf_world _ _ _ Hs)|split; [|exact Ho]];
    [by apply st_set_world|by apply st_lost|by apply st_text|by apply st_flight|by apply st_instructions
    |by apply st_recovery|by apply st_usage|by apply st_retries].
Qed.
#[local] Instance exact_guarded e o : Guarded (exact e o).
Proof.
  split; [by intros s [[] _]|]. intros s b [Hs Ho] Hb. split; [by apply gd_breakers|exact Ho].
Qed.
#[local] Instance loose_stable : Stable loose.
Proof. split; [by intros s []|..]; intros s *; intros []; intros; split; cbn in *; by auto. Qed.

Abbreviation E := ended.
Abbreviation json := json_text.

#[local] Hint Extern 0 (Stable _) => exact _ : core.
#[local] Hint Extern 0 (Guarded _) => exact _ : core.

(** ** The world and the log *)

Lemma from_world_ok {A} P `{!Stable P} (f : W → A * W) : keeps f → triple P (from_world f) (λ _, P) E.
Proof.
  intros Hf. apply triple_ask. intros s Hs. pose proof (Hf (world s) (st_world s Hs)) as Hw.
  destruct (f (world s)) as [a w]. cbn in *. by apply st_set_world.
Qed.

(** What is known of the answer whatever the state. *)
Lemma from_world_says {A} P `{!Stable P} (f : W → A * W) (phi : A → Prop) :
  keeps f → (∀ w, WI w → phi (fst (f w))) → triple P (from_world f) (λ a s, phi a ∧ P s) E.
Proof.
  intros Hf Hphi. apply triple_ask. intros s Hs. pose proof (Hf (world s) (st_world s Hs)) as Hw.
  specialize (Hphi (world s) (st_world s Hs)). destruct (f (world s)) as [a w]. cbn in *.
  split; [done|by apply st_set_world].
Qed.

Lemma move_world_ok P `{!Stable P} (f : W → W) :
  (∀ w, WI w → WI (f w)) → triple P (move_world f) (λ _, P) E.
Proof. intros Hf. apply triple_modify. intros s Hs. apply st_set_world; [done|by apply Hf, st_world]. Qed.

Lemma lose_ownership_ok P `{!Stable P} : triple P lose_ownership (λ _, P) E.
Proof.
  apply triple_modify. intros s Hs. destruct (admission s); first [exact Hs|exact (st_lost s Hs)].
Qed.

Lemma record_event_ok P `{!Stable P} : triple P record_event (λ _, P) E.
Proof.
  apply triple_reads. intros [|]; [|by apply triple_done].
  eapply triple_bind; [apply from_world_ok; [done|apply (k_event K)]|]. intros [| |]; cbn beta;
    first [by apply lose_ownership_ok|by apply triple_done].
Qed.

Lemma record_events_ok P `{!Stable P} n : triple P (record_events n) (λ _, P) E.
Proof.
  induction n as [|n IH]; [by apply triple_done|]. eapply triple_bind; [by apply record_event_ok|]. done.
Qed.

Lemma from_recording_ok {A} P `{!Stable P} (f : W → (A * nat) * W) :
  keeps f → triple P (from_recording f) (λ _, P) E.
Proof.
  intros Hf. eapply triple_bind; [by apply from_world_ok|]. intros [a n]. cbn beta.
  eapply triple_bind; [by apply record_events_ok|]. intros []. by apply triple_value.
Qed.

(** ** The history *)

Lemma unowned_safe e o o' s : safe e o s → is_owned (admission s) = false → safe e o' s.
Proof. intros [] Hn. split; try done. by rewrite Hn. Qed.
Lemma owned_exact e o s : safe e o s → is_owned (admission s) = true → exact e o s.
Proof. intros Hs Ho. split; [done|]. by apply (sf_owned _ _ _ Hs). Qed.
Lemma closed_safe e s : safe e [] s → is_owned (admission s) = true → closed (messages s).
Proof. intros Hs. exact (sf_owned _ _ _ Hs). Qed.

(** An append: [R] is what is known once the session is seen to be owned. *)
Lemma append_ok P R Q (m : Message) `{!Stable R} :
  (∀ s, P s → is_owned (admission s) = false → Q s) →
  (∀ s, P s → is_owned (admission s) = true → R s) →
  (∀ s, R s → Q (set_messages (messages s ++ [m]) s)) →
  (∀ s, R s → is_owned (admission s) = false → Q s) →
  triple P (append m) (λ _, Q) E.
Proof.
  intros Hno Hyes Hnew Hlost. apply triple_read. intros s0.
  destruct (is_owned (admission s0)) eqn:Ho; cbn [negb]; cycle 1.
  { apply triple_done. intros s [Heq Hs]. cbn in Heq. subst s0. by apply Hno. }
  eapply (triple_pre _ R); [|intros s [Heq Hs]; cbn in Heq; subst s0; by apply Hyes].
  eapply triple_bind; [|intros []].
  { apply (triple_when _ _ _ (λ _, R)); [|done]. intros _. apply triple_modify. intros s. apply st_text. }
  eapply triple_bind; [apply from_world_ok; [done|apply (k_message K)]|]. intros p. cbn beta.
  assert (Hrec : triple R (record_event ;; modify (λ s, set_messages (messages s ++ [m]) s)) (λ _, Q) E).
  { eapply triple_bind; [by apply record_event_ok|]. intros []. by apply triple_modify. }
  destruct p; [exact Hrec| |exact Hrec].
  apply triple_modify. intros s Hs. destruct (admission s) eqn:Ha;
    (apply Hlost; [first [by apply st_lost|done]|by rewrite ?Ha]).
Qed.

Lemma exact_append e o o' m s :
  say o m = Some o' → (is_summary_message m = true → inert m) →
  exact e o s → exact e o' (set_messages (messages s ++ [m]) s).
Proof.
  intros Hm Hi [[] Ho]. assert (Hs : says [] (messages s ++ [m]) = Some o').
  { rewrite says_app, Ho. cbn. by rewrite Hm. }
  split; [|exact Hs]. split; cbn; try done; [|by exists o'].
  apply plain_app. split; [done|]. by apply list.Forall_singleton.
Qed.

Lemma append_says e o o' m :
  say o m = Some o' → (is_summary_message m = true → inert m) →
  triple (safe e o) (append m) (λ _, safe e o') E.
Proof.
  intros Hm Hi. apply (append_ok _ (exact e o)); [exact _| | |intros s Hs; by eapply proj1, exact_append|].
  - intros s Hs Hn. by eapply unowned_safe.
  - intros s. apply owned_exact.
  - intros s [Hs _] Hn. by eapply unowned_safe.
Qed.

(** Nothing is open when a text is added. *)
Class Quiet (P : T → Prop) : Prop :=
  quiet m : silent m → triple P (append m) (λ _, P) E.
#[local] Hint Extern 0 (Quiet _) => exact _ : core.
#[local] Instance safe_quiet e : Quiet (safe e []).
Proof.
  intros m Hm. apply append_says; [|intros _; by apply silent_inert].
  pose proof (says_silent [m]) as Hs. cbn in Hs. destruct (say [] m); [apply Hs|discriminate Hs];
    by apply list.Forall_singleton.
Qed.
#[local] Instance exact_quiet e : Quiet (exact e []).
Proof.
  intros m Hm. apply (append_ok _ (exact e [])); [exact _|done|done| |done].
  intros s Hs. apply (exact_append e [] []); [|intros _; by apply silent_inert|done].
  pose proof (says_silent [m]) as Hc. cbn in Hc. destruct (say [] m); [apply Hc|discriminate Hc];
    by apply list.Forall_singleton.
Qed.

Lemma safe_loose e o s : safe e o s → loose s.
Proof.
  intros []. split; [done|by left|done|]. intros hard Hh. specialize (sf_within0 hard Hh). lia.
Qed.

(** A last notice may come while calls are open. *)
Lemma append_notice e o m : silent m → triple (safe e o) (append m) (λ _, loose) E.
Proof.
  intros Hm. apply (append_ok _ (exact e o)); [exact _| | | |].
  - intros s Hs _. by eapply safe_loose.
  - intros s. apply owned_exact.
  - intros s [Hs Ho]. destruct (safe_loose _ _ _ Hs) as [Hw _ Ha Hin]. split; [done| |done|done].
    right. exists (messages s), m. split_and!; [done|by exists o|done].
  - intros s [Hs _] _. by eapply safe_loose.
Qed.

(** ** The end of a turn *)

Lemma stop_ok {A} P (r : StopReason) (Q : A → T → Prop) `{!Stable P} :
  (∀ s, P s → E (Stopped r) s) → triple P (stop r) Q E.
Proof.
  intros HE. unfold stop. eapply triple_bind; [apply (triple_modify _ _ (λ _, P)); intros s; apply st_flight|].
  intros ?. eapply triple_bind; [apply (triple_when _ _ _ (λ _, P)); [intros _; by apply record_event_ok|done]|].
  intros []. eapply triple_bind; [by apply record_event_ok|]. intros []. by apply triple_finish.
Qed.

Lemma ended_safe e r s : safe e [] s → E (Stopped r) s.
Proof.
  intros Hs. split_and!; [by eapply safe_loose|intros _ _; by eapply sf_said|].
  intros _. by eapply closed_safe.
Qed.
Lemma ended_exact e r s : exact e [] s → E (Stopped r) s.
Proof. intros [Hs _]. by eapply ended_safe. Qed.
Lemma ended_cancelled e o s : safe e o s → E (Stopped Cancelled) s.
Proof. intros Hs. split_and!; [by eapply safe_loose|intros _ _; by eapply sf_said|done]. Qed.
Lemma ended_loose r s : r = NoProgress ∨ r = BudgetExceeded → loose s → E (Stopped r) s.
Proof. intros [->| ->] Hs; by split_and!. Qed.

Lemma stop_no_progress_ok {A} e o d (Q : A → T → Prop) :
  triple (safe e o) (stop_no_progress json d) Q E.
Proof.
  eapply triple_bind; [apply append_notice, silent_synthetic, silent_user|]. intros ?; cbn beta.
  apply stop_ok; [exact _|]. intros s. apply ended_loose. by left.
Qed.

(** ** Interrupts and breakers *)

Lemma diagnosed_reset b : diagnosed
  (mkBreakers (breaker_reset (error_breaker b)) (guard_reset (repeat_guard b)) ∅ ∅
     (detector_reset (no_progress b)) None None 0).
Proof. by split. Qed.

Lemma reset_progress_breakers_ok P `{!Guarded P} : triple P reset_progress_breakers (λ _, P) E.
Proof. apply triple_modify. intros s Hs. apply gd_breakers; [done|apply diagnosed_reset]. Qed.

Lemma reset_when_ok P `{!Guarded P} b : triple P (when_ b reset_progress_breakers) (λ _, P) E.
Proof. apply triple_when; [intros _; by apply reset_progress_breakers_ok|done]. Qed.

Lemma admit_soft_interrupts_ok P `{!Stable P, !Quiet P} : triple P admit_soft_interrupts (λ _, P) E.
Proof.
  tseq; [apply from_world_ok; [done|apply (k_drain K)]|].
  apply (triple_bind _ _ _ _ (λ _, P)); [|intros ?; by apply triple_value].
  apply (triple_for_each (λ _, P)). intros i _. unfold admit_one.
  tseq; [apply (triple_when _ _ _ (λ _, P)); [intros _|done]|].
  { apply from_recording_ok; [done|apply (k_reveal K)]. }
  tseq; [apply (triple_modify _ _ (λ _, P)); intros s; apply st_instructions|].
  tseq; [by apply quiet, silent_user|]. by apply record_event_ok.
Qed.

(** ** Compaction of the live history *)

(** A projection that can be sent. *)
Definition sendable (r : CompactionResult) : Prop := closed (cr_messages r) ∧ plain (cr_messages r).

Lemma plan_sendable ms limit :
  closed ms → plain ms → sendable (with_mode config (cp_result (compact_plan json ms limit))).
Proof. intros Hc Hp. by apply (compact_says json ms limit []). Qed.
Lemma smart_sendable r dropped smart limit :
  sendable r → sendable (apply_smart_digest json r dropped smart limit).
Proof.
  intros [Hc Hp]. unfold apply_smart_digest. destruct (swap_summary _ _) as [ms|] eqn:Hs; [|done].
  destruct (limit <? estimate_tokens json ms); [done|].
  apply (replace_summary_says _ _ _ [] Hp) in Hs as [Hs ?]. split; [|done]. unfold closed in *. by rewrite <-Hc.
Qed.

Lemma compact_candidate_ok limit : triple (exact 0 []) (compact_candidate json config limit)
  (λ r s, sendable r ∧ exact 0 [] s) E.
Proof.
  apply triple_snapshot. intros s0 [Hs0 Hc0].
  pose proof (plan_sendable (messages s0) limit Hc0 (sf_plain _ _ _ Hs0)) as Hr.
  set (plan := compact_plan json (messages s0) limit) in *.
  apply triple_if; intros _; [by apply triple_value|]. apply triple_if; intros _; [by apply triple_value|].
  destruct (cp_dropped plan) as [|x dropped]; [by apply triple_value|].
  tseq; [apply from_world_ok; [exact _|apply (k_summarize K)]|].
  match goal with |- triple _ (match ?a with _ => _ end) _ _ => destruct a end; apply triple_value;
    intros s Hs; split; [by apply smart_sendable|done|done|done].
Qed.

Lemma record_compaction_ok P `{!Stable P} r : triple P (record_compaction r) (λ _, P) E.
Proof.
  tseq; [apply (triple_when _ _ _ (λ _, P)); [intros _; by apply record_event_ok|done]|].
  by apply record_event_ok.
Qed.

Lemma set_cache_exact e o c s :
  (∀ g l r, c = Some (g, l, r) → closed (cr_messages r)) → exact e o s → exact e o (set_cache c s).
Proof. intros Hc [[] Ho]. by split. Qed.

Lemma rebuild_projection_ok limit : triple (exact 0 []) (rebuild_projection json config limit)
  (λ r s, sendable r ∧ exact 0 [] s) E.
Proof.
  eapply triple_bind_pure; [apply compact_candidate_ok|]. intros r Hr. cbn beta.
  tseq; [apply (triple_when _ _ _ (λ _, exact 0 [])); [intros _; by apply record_compaction_ok|done]|].
  apply (triple_bind _ _ _ _ (λ _, exact 0 [])); [|intros ?; by apply triple_value].
  apply (triple_modify _ _ (λ _, exact 0 [])). intros s. apply set_cache_exact. by intros g l r' [= _ _ <-]; apply Hr.
Qed.

Lemma compacted_history_ok reserve : triple (exact 0 []) (compacted_history json config reserve)
  (λ r s, closed (cr_messages r) ∧ exact 0 [] s) E.
Proof.
  assert (Hre : ∀ limit, triple (exact 0 []) (rebuild_projection json config limit)
    (λ r s, closed (cr_messages r) ∧ exact 0 [] s) E).
  { intros limit. eapply triple_post; [apply rebuild_projection_ok| |done]. by intros r s [[? _] ?]. }
  apply triple_snapshot. intros s0 [Hs0 _]. destruct (compaction_cache s0) as [[[g l] r]|] eqn:Hc; [|apply Hre].
  apply triple_if; intros _; [|apply Hre]. apply triple_value. intros s Hs. split; [by eapply sf_cache|done].
Qed.

Lemma replace_history ms s : closed ms → plain ms → exact 0 [] s → exact 0 [] (set_messages ms s).
Proof. intros Hc Hp [[] Ho]. split; [split; try done; by exists []|done]. Qed.

Lemma shrink_for_overflow_ok : triple (exact 0 []) (shrink_for_overflow json config) (λ _, exact 0 []) E.
Proof.
  apply triple_snapshot. intros s0 _.
  eapply triple_bind_pure; [apply compact_candidate_ok|]. intros r [Hc Hp]. cbn beta.
  destruct (compacted r); [|by apply triple_value].
  tseq; [by apply record_compaction_ok|].
  tseq; [apply (triple_modify _ _ (λ _, exact 0 [])); intros s; by apply replace_history|].
  tseq; [apply (triple_modify _ _ (λ _, exact 0 [])); intros s; by apply set_cache_exact|].
  by apply triple_value.
Qed.

Lemma set_retries_ok P `{!Stable P} (f : Retries → Retries) :
  triple P (modify (λ s, set_retries (f (retries s)) s)) (λ _, P) E.
Proof. apply triple_modify. intros s. apply st_retries. Qed.

Lemma try_overflow_retry_ok n : triple (exact 0 []) (try_overflow_retry json config n) (λ _, exact 0 []) E.
Proof.
  apply triple_snapshot. intros s0 _. apply triple_if; intros _.
  - tseq; [by apply set_retries_ok|]. tseq; [apply shrink_for_overflow_ok|]. by apply triple_value.
  - apply triple_if; intros _; [|by apply triple_value]. tseq; [by apply set_retries_ok|]. by apply triple_value.
Qed.

Lemma try_context_exhaustion_retry_ok :
  triple (exact 0 []) (try_context_exhaustion_retry json config) (λ _, exact 0 []) E.
Proof.
  apply triple_snapshot. intros s0 _. apply triple_if; intros _; [by apply triple_value|].
  tseq; [apply shrink_for_overflow_ok|]. apply triple_if; intros _; [|by apply triple_value].
  tseq; [by apply set_retries_ok|]. by apply triple_value.
Qed.

(** ** The stream *)

Definition opened_well (r : result (list Poll) StreamOpen) : Prop := ∀ polls, r = Ok polls → orderly polls.

Lemma provider_stream_ok request :
  closed (rq_messages request) →
  triple (exact 0 []) (from_world (provider_stream request))
    (λ r s, (∀ polls, r = Ok polls → orderly polls) ∧ exact 0 [] s) E.
Proof.
  intros Hrq. apply triple_ask. intros s Hs. pose proof (st_world s Hs) as Hw.
  pose proof (k_provider K request (world s) Hw Hrq) as Hw'.
  pose proof (λ polls, k_polls K request (world s) polls Hw Hrq) as Hp.
  destruct (provider_stream request (world s)) as [r w]. cbn in *.
  split; [intros polls ->; by apply Hp|by apply st_set_world].
Qed.

Lemma open_failed_ok b (x : StreamOpen) :
  triple (exact 0 []) (when_ b record_event ;; mret (Err x)) (λ r s, opened_well r ∧ exact 0 [] s) E.
Proof.
  tseq; [apply (triple_when _ _ _ (λ _, exact 0 [])); [intros _; by apply record_event_ok|done]|].
  by apply triple_value.
Qed.

Lemma open_stream_ok request attempts :
  closed (rq_messages request) →
  triple (exact 0 []) (open_stream config request attempts) (λ r s, opened_well r ∧ exact 0 [] s) E.
Proof.
  intros Hrq. induction attempts as [|attempts IH]; cbn [open_stream];
    (eapply triple_bind_pure; [by apply provider_stream_ok|]); intros [polls|err] Hp; cbn beta iota;
    try (apply triple_value; intros s Hs; split; [by intros ? [= <-]; apply Hp|done]).
  - destruct (is_transient err); apply open_failed_ok.
  - destruct (is_transient err); [|apply open_failed_ok].
    tseq; [apply from_world_ok; [done|apply (k_backoff K)]|].
    apply triple_reads; intros g. apply triple_if; intros _; [by apply triple_value|exact IH].
Qed.

Lemma stream_error_ok err r : triple (exact 0 []) (stream_error err r)
  (λ r' s, (rs_text r' = rs_text r ∧ rs_calls r' = rs_calls r) ∧ exact 0 [] s) E.
Proof.
  tseq; [apply (triple_when _ _ _ (λ _, exact 0 [])); [intros _; by apply record_event_ok|done]|].
  destruct err; try (by apply triple_value).
  all: repeat (apply triple_if; intros _); first [by apply triple_value|idtac].
  all: apply stop_ok; [done|]; intros s; apply ended_exact.
Qed.

Lemma observe_usage_ok e u P `{!Stable P} : triple P (observe_usage e u) (λ _, P) E.
Proof.
  tseq; [apply (triple_modify _ _ (λ _, P)); intros s; apply st_usage|].
  tseq; [by apply record_event_ok|].
  apply triple_when; [intros _; apply triple_modify; intros s; apply st_usage|done].
Qed.

(** What has been read of [all], of which [rest] is still to come. *)
Definition so_far (all rest : list Poll) (r : Response) : Prop :=
  ∃ before, all = before ++ rest ∧ rs_text r = text_of before ∧ rs_calls r = calls_of before.

Lemma so_far_start all : so_far all all no_response.
Proof. by exists []. Qed.
Lemma so_far_next all p rest r r' :
  so_far all (p :: rest) r →
  rs_text r' = rs_text r ++ text_of [p] → rs_calls r' = rs_calls r ++ calls_of [p] →
  so_far all rest r'.
Proof.
  intros (before & -> & Ht & Hc) Ht' Hc'. exists (before ++ [p]).
  unfold text_of, calls_of in *. rewrite bind_app, omap_app, <-app_assoc. split_and!; [done|congruence..].
Qed.
Lemma so_far_well_formed all rest r :
  orderly all → so_far all rest r → well_formed (rs_text r) (rs_calls r).
Proof.
  intros Ho (before & -> & -> & ->). specialize (Ho (length before)). by rewrite take_app_length in Ho.
Qed.
Lemma so_far_same all p rest r r' :
  so_far all (p :: rest) r → text_of [p] = [] → calls_of [p] = [] →
  rs_text r' = rs_text r → rs_calls r' = rs_calls r → so_far all rest r'.
Proof. intros Hs Hp1 Hp2 Ht Hc. eapply so_far_next; [done|..]; by rewrite ?Hp1, ?Hp2, app_nil_r. Qed.

Lemma read_stream_ok all request_estimate polls r :
  orderly all → so_far all polls r →
  triple (exact 0 []) (read_stream request_estimate polls r)
    (λ r s, (∀ r', r = Some r' → well_formed (rs_text r') (rs_calls r')) ∧ exact 0 [] s) E.
Proof.
  intros Hall. revert r. induction polls as [|p polls IH]; intros r Hr; cbn [read_stream];
    apply triple_reads; intros a; destruct (token_cancelled a);
    try (apply stop_ok; [done|]; intros s; apply ended_exact).
  - apply triple_value. intros s Hs. split; [|done]. intros r' [= <-]. by apply (so_far_well_formed all []).
  - assert (Hret : ∀ rest r', so_far all rest r' → triple (exact 0 []) (mret (Some r'))
      (λ r s, (∀ r', r = Some r' → well_formed (rs_text r') (rs_calls r')) ∧ exact 0 [] s) E).
    { intros rest r' Hr'. apply triple_value. intros s Hs. split; [|done]. intros r2 [= <-].
      by eapply so_far_well_formed. }
    assert (Hsame : ∀ r', text_of [p] = [] → calls_of [p] = [] → rs_text r' = rs_text r →
      rs_calls r' = rs_calls r → so_far all polls r') by (intros; by eapply so_far_same).
    destruct p as [| | | |[[t|t|c|u| |cut|]|err]].
    all: try (apply stop_ok; [done|]; intros s; apply ended_exact).
    + tseq; [by apply admit_soft_interrupts_ok|]. tseq; [by apply reset_when_ok|]. by apply triple_value.
    + assert (Hn : so_far all polls (add_text t r)).
      { eapply so_far_next; [done|..]; cbn; by rewrite ?app_nil_r. }
      apply triple_if; intros _; [by eapply Hret|by apply IH].
    + by apply IH, Hsame.
    + apply IH. eapply so_far_next; [done|..]; cbn; by rewrite ?app_nil_r.
    + tseq; [by apply observe_usage_ok|]. by apply IH, Hsame.
    + by apply IH, Hsame.
    + by apply IH, Hsame.
    + by eapply Hret.
    + eapply triple_bind_pure; [apply stream_error_ok|]. intros r' [Ht Hc]. cbn beta.
      by eapply Hret, Hsame.
Qed.

(** ** The verification gate *)

Lemma settle_gate_ok host_unit P `{!Stable P, !Quiet P} :
  (∀ r s, P s → E (Stopped r) s) → triple P (settle_gate host_unit) (λ _, P) E.
Proof.
  intros HE. apply triple_snapshot. intros s0 _.
  tseq; [apply from_recording_ok; [done|apply (k_verify K)]|].
  tseq; [by apply set_retries_ok|].
  match goal with |- triple _ (match fst ?a with _ => _ end) _ _ => destruct (fst a) end.
  - apply stop_ok; [done|]. intros s. apply HE.
  - by apply quiet, silent_synthetic, silent_user.
  - tseq; [|apply stop_ok; [done|]; intros s; apply HE].
    apply quiet, silent_synthetic. destruct (contains _ _); [apply silent_system|apply silent_user].
  - apply stop_ok; [done|]. intros s. apply HE.
Qed.

Lemma settle_host_unit_ok P `{!Stable P, !Quiet P} :
  (∀ r s, P s → E (Stopped r) s) → triple P settle_host_unit (λ _, P) E.
Proof.
  intros HE. tseq; [by apply settle_gate_ok|]. apply move_world_ok; [done|apply (k_settled K)].
Qed.

(** ** After the stream *)

Lemma stop_exact {A} r (Q : A → T → Prop) : triple (exact 0 []) (stop r) Q E.
Proof. apply stop_ok; [done|]. intros s. apply ended_exact. Qed.
Lemma stop_when_ok b r : triple (exact 0 []) (when_ b (stop r)) (λ _, exact 0 []) E.
Proof. apply triple_when; [intros _; apply stop_exact|done]. Qed.

Lemma after_truncation_ok : triple (exact 0 []) (after_truncation config) (λ _, exact 0 []) E.
Proof.
  apply triple_snapshot. intros s0 _. apply triple_if; intros _; [|apply stop_exact].
  tseq; [by apply set_retries_ok|]. tseq; [apply from_world_ok; [done|apply (k_backoff K)]|].
  apply triple_reads; intros g. apply stop_when_ok.
Qed.

Lemma after_overflow_ok n : triple (exact 0 []) (after_overflow json config n) (λ _, exact 0 []) E.
Proof. tseq; [apply try_overflow_retry_ok|]. apply stop_when_ok. Qed.

Lemma after_output_limit_ok r : triple (exact 0 []) (after_output_limit json config r) (λ _, exact 0 []) E.
Proof.
  apply triple_snapshot. intros s0 _. destruct (ContextExhaustion_classify _ _ _).
  - tseq; [apply try_context_exhaustion_retry_ok|]. apply stop_when_ok.
  - apply triple_if; intros _; [|apply stop_exact].
    tseq; [by apply set_retries_ok|]. apply quiet, silent_synthetic, silent_user.
Qed.

Lemma recover_ok kind tool : triple (exact 0 []) (recover json config kind tool) (λ _, exact 0 []) E.
Proof.
  apply triple_snapshot. intros s0 _. destruct (record_bad_turn _ _) as [engine diagnostic].
  tseq; [apply (triple_modify _ _ (λ _, exact 0 [])); intros s; apply st_recovery|].
  tseq; [by apply record_event_ok|].
  assert (Hgo : triple (exact 0 [])
    (when_ (degenerate_kind kind && tools_enabled (retries s0))
       (modify (λ s, set_retries (tools_off (retries s)) s)) ;;
     when_ (existsb shrinks_input (rd_actions diagnostic)) (shrink_for_overflow json config ;; mret tt) ;;
     append (into_synthetic (Message_text RUser (repair_prompt diagnostic tool)) (txt "repair prompt")))
    (λ _, exact 0 []) E).
  { tseq; [apply (triple_when _ _ _ (λ _, exact 0 [])); [intros _; by apply set_retries_ok|done]|].
    tseq; [apply (triple_when _ _ _ (λ _, exact 0 [])); [intros _|done]|].
    { tseq; [apply shrink_for_overflow_ok|]. by apply triple_done. }
    apply quiet, silent_synthetic, silent_user. }
  destruct (health engine); [exact Hgo|exact Hgo|apply stop_exact].
Qed.

(** ** Recording an answer *)

Definition ids (calls : list StreamCall) : list ToolUseId := sc_id <$> calls.

Lemma assistant_uses reasoning text calls :
  uses (Message_new RAssistant (assistant_content reasoning text calls)) = ids calls ∧
  results (Message_new RAssistant (assistant_content reasoning text calls)) = [].
Proof.
  unfold uses, results, assistant_content. cbn [content Message_new].
  destruct (is_blank reasoning), (is_blank text); cbn [app omap list_omap];
    (split; [|induction calls as [|c calls IH]; [done|exact IH]]);
    (induction calls as [|c calls IH]; [done|cbn; f_equal; exact IH]).
Qed.

Lemma assistant_summary reasoning text calls :
  (calls ≠ [] → starts_with SUMMARY_TITLE text = false) →
  is_summary_message (Message_new RAssistant (assistant_content reasoning text calls)) = true →
  inert (Message_new RAssistant (assistant_content reasoning text calls)).
Proof.
  intros Ht Hs. destruct (assistant_uses reasoning text calls) as [Hu Hr].
  split; [done|]. rewrite Hu, Hr. split; [|done]. destruct calls as [|c calls]; [done|exfalso].
  specialize (Ht ltac:(done)). unfold is_summary_message, first_text in Hs. cbn [content Message_new] in Hs.
  unfold assistant_content in Hs.
  assert (Hn : omap (λ b, match b with BText t => Some t | _ => None end) (tool_use_block <$> c :: calls) = []).
  { generalize (c :: calls). intros l. induction l as [|x l IH]; [done|exact IH]. }
  rewrite !omap_app, Hn, app_nil_r in Hs.
  destruct (is_blank reasoning), (is_blank text); cbn [omap list_omap app head] in Hs; try done; by rewrite Ht in Hs.
Qed.

Lemma record_response_ok r calls :
  well_formed (rs_text r) calls →
  triple (exact 0 []) (record_response r calls) (λ _, safe 0 (ids calls)) E.
Proof.
  intros [_ Hsum].
  assert (Htext : triple (exact 0 [])
    (match calls with [] => from_world (gate_final_reply (trim_blank_boundary_lines (rs_text r)))
     | _ => mret (trim_blank_boundary_lines (rs_text r)) end)
    (λ t s, (calls ≠ [] → starts_with SUMMARY_TITLE t = false) ∧ exact 0 [] s) E).
  { destruct calls; [|by apply triple_value; split; [apply Hsum|]].
    eapply triple_post; [apply from_world_ok; [done|apply (k_reply K)]| |done]. by intros. }
  eapply triple_bind_pure; [exact Htext|]. intros t Ht. cbn beta.
  tseq; [apply from_recording_ok; [done|apply (k_markers K)]|].
  apply (triple_bind _ _ _ _ (λ _, safe 0 (ids calls))); [|intros ?; by apply triple_value].
  set (reasoning := trim_blank_boundary_lines (rs_reasoning r)).
  destruct (assistant_uses reasoning t calls) as [Hu Hr].
  apply triple_when; cycle 1.
  - intros Hz s [Hs _]. apply negb_false_iff, bool_decide_eq_true, length_zero_iff_nil in Hz.
    assert (ids calls = []) as ->; [|done]. rewrite <-Hu, Hz. done.
  - intros _. eapply triple_pre; [apply append_says with (o := [])|by intros s [? _]].
    + unfold say. cbn [role Message_new]. rewrite Hr, bool_decide_eq_true_2 by done. by rewrite Hu.
    + by apply assistant_summary.
Qed.

(** A result closes its call. *)
Lemma say_result i o r : tr_id r = i → i ∉ o →
  say (i :: o) (Message_new RTool [BToolResult r]) = Some o.
Proof.
  intros <- Hi. unfold say. cbn [role Message_new]. unfold uses, results. cbn [content omap list_omap].
  rewrite bool_decide_eq_true_2 by (split; [done|]; intros x ->%list_elem_of_singleton; by left).
  f_equal. cbn [List.filter]. rewrite bool_decide_eq_true_2 by by apply list_elem_of_singleton. cbn [negb].
  clear -Hi. induction o as [|x o IH]; [done|]. apply not_elem_of_cons in Hi as [Hx Hi]. cbn [List.filter].
  rewrite bool_decide_eq_false_2 by (intros ?%list_elem_of_singleton; congruence). cbn [negb]. by rewrite IH.
Qed.

Lemma answer_ok e c calls r :
  NoDup (ids (c :: calls)) → tr_id r = sc_id c →
  triple (safe e (ids (c :: calls))) (append (Message_new RTool [BToolResult r])) (λ _, safe e (ids calls)) E.
Proof.
  intros [Hi _]%NoDup_cons Hr. apply append_says; [by apply say_result|].
  intros Hs. unfold is_summary_message, first_text in Hs. discriminate Hs.
Qed.

Lemma skip_calls_ok e why calls :
  NoDup (ids calls) → triple (safe e (ids calls)) (skip_calls why calls) (λ _, safe e []) E.
Proof.
  induction calls as [|c calls IH]; intros Hd; [by apply triple_done|].
  tseq; [by apply answer_ok|]. apply IH. by apply NoDup_cons in Hd as [_ ?].
Qed.

(** ** The guards in front of a call *)

Lemma safe_weaken e e' o s : e' <= e → safe e o s → safe e' o s.
Proof. intros He []. split; try done. intros hard Hh. specialize (sf_within0 hard Hh). lia. Qed.

Lemma diagnosed_same b b' :
  active (no_progress b') = active (no_progress b) →
  tripped_since_reset (no_progress b') = tripped_since_reset (no_progress b) →
  no_progress_dynamic b' = no_progress_dynamic b → no_progress_monotone b' = no_progress_monotone b →
  diagnosed b → diagnosed b'.
Proof. unfold diagnosed. by intros -> -> -> ->. Qed.

Lemma degenerate_guard_ok e o : triple (safe e o) (degenerate_guard json config) (λ _, safe e o) E.
Proof.
  apply triple_read. intros s0. apply triple_if; intros _; [by apply triple_done; intros s [_ Hs]|].
  apply triple_if; intros _.
  { eapply triple_pre; [apply stop_no_progress_ok|by intros s [_ Hs]]. }
  apply triple_if; intros Hact; [|by apply triple_done; intros s [_ Hs]].
  destruct (consume_grace _) as [d granted] eqn:Hd.
  assert (Had : active d = active (no_progress (breakers s0)) ∧
    tripped_since_reset d = tripped_since_reset (no_progress (breakers s0))).
  { unfold consume_grace in Hd. by destruct (0 <? _); injection Hd as <- <-. }
  apply (triple_bind _ _ _ _ (λ _ s, diagnosed (breakers s0) ∧ safe e o s)).
  { apply triple_modify. intros s [Heq Hs]. cbn in Heq. subst s0. pose proof (gd_diagnosed s Hs) as Hdg.
    split; [done|]. apply gd_breakers; [done|]. by eapply diagnosed_same; [apply Had|apply Had|..]. }
  intros _. apply triple_pure. intros Hdg. destruct granted; [by apply triple_done|].
  destruct (active (no_progress (breakers s0))) as [|n|distinct w] eqn:Ha; [done| |apply stop_no_progress_ok].
  destruct (proj1 Hdg n Ha) as (tool & count & ->). apply stop_no_progress_ok.
Qed.

Lemma budget_guard_ok o :
  triple (safe 0 o) (budget_guard json config) (λ _, safe (S delegated) o) E.
Proof.
  apply triple_read. intros s0. destruct (budget_decide _ _ _) eqn:Hb.
  - apply triple_done. intros s [Heq Hs]. cbn in Heq. subst s0. destruct Hs. split; try done.
    intros hard Hh. unfold budget_decide in Hb. destruct (budget_controller config) as [|soft h]; [done|].
    injection Hh as <-. destruct (Nat.leb_spec h (turn_tool_calls s)); [done|]. lia.
  - intros s [Heq Hs]. cbn in Heq. subst s0. revert s Hs Hb. 
    assert (Hm : ∀ m, is_Some m → triple (safe 0 o)
      (match m with Some d => stop_no_progress json d | None => finish Panicked end)
      (λ _ : unit, safe (S delegated) o) E) by (intros m [d ->]; apply stop_no_progress_ok).
    intros s Hs Hb. apply Hm; [|done]. apply (gd_diagnosed s Hs).
    unfold budget_decide in Hb. destruct (budget_controller config); [done|].
    destruct (_ <=? _); [done|]. by destruct (tripped_since_reset _).
  - eapply (triple_pre _ (safe 0 o)); [|by intros s [_ Hs]].
    tseq; [apply append_notice, silent_synthetic, silent_user|].
    apply stop_ok; [exact _|]. intros s. apply ended_loose. by right.
Qed.

(** ** One call *)

Definition ran_for (i : ToolUseId) (r : option Ran) : Prop := ∀ ran, r = Some ran → tr_id (rn_result ran) = i.

Lemma launch_ok o c repaired : triple (safe delegated o) (launch c repaired)
  (λ r s, ran_for (sc_id c) r ∧ safe 0 o s) E.
Proof.
  assert (Hadd : ∀ n, n <= delegated → triple (safe delegated o)
    (modify (λ s : T, set_tool_calls (turn_tool_calls s + n) s)) (λ _, safe 0 o) E).
  { intros n Hn. apply triple_modify. intros s []. split; try done. intros hard Hh.
    specialize (sf_within0 hard Hh). cbn. lia. }
  apply triple_reads. intros [|]; [|by apply triple_value; intros s Hs; split; [|eapply safe_weaken; [|done]; lia]].
  eapply triple_bind_pure.
  { apply (from_world_says _ _ (λ a, (∀ d, fst a = Some d → tr_id (td_result d) = sc_id c) ∧ snd a <= delegated));
      [apply (k_dispatch K)|]. intros w _. split; [|apply (k_delegated K)].
    intros d Hd. by apply (k_result K) in Hd. }
  intros [[d|] n] [Hid Hn]; cbn [fst snd] in *.
  - tseq; [apply (triple_when _ _ _ (λ _, safe delegated o)); [intros _; by apply record_event_ok|done]|].
    tseq; [by apply Hadd|]. apply triple_value. intros s Hs. split; [|done]. intros ran [= <-]. by apply Hid.
  - tseq; [by apply Hadd|]. by apply triple_value.
Qed.

Lemma proceed_ok o c repaired readable : triple (safe delegated o) (proceed c repaired readable)
  (λ r s, ran_for (sc_id c) r ∧ safe 0 o s) E.
Proof.
  assert (Hw : ∀ s, safe delegated o s → safe 0 o s) by (intros s; apply safe_weaken; lia).
  unfold proceed. destruct readable as [message|].
  { apply triple_value. intros s Hs. split; [by intros ran [= <-]|by apply Hw]. }
  tseq; [apply from_world_ok; [done|apply (k_reserve K)]|].
  match goal with |- triple _ (match ?a with _ => _ end) _ _ => destruct a end; [|apply launch_ok].
  apply triple_value. intros s Hs. split; [by intros ran [= <-]|by apply Hw].
Qed.

Lemma run_gates_ok o c absent decision :
  triple (safe delegated o) (run_gates redact config c absent decision)
    (λ r s, ran_for (sc_id c) (snd r) ∧ safe 0 o s) E.
Proof.
  assert (Hw : ∀ s, safe delegated o s → safe 0 o s) by (intros s; apply safe_weaken; lia).
  apply triple_snapshot. intros s0 _. apply (triple_bind _ _ _ _ (λ _, safe delegated o)).
  { destruct absent; [by apply triple_value|]. apply triple_if; intros _; [by apply triple_value|].
    tseq; [apply from_world_ok; [done|apply (k_reresolution K)]|].
    tseq; [apply from_world_ok; [done|apply (k_precondition K)]|].
    tseq; [apply from_world_ok; [done|apply (k_launch K)]|]. by apply triple_value. }
  intros [message|reason|warn].
  - apply triple_reads. intros learning.
    tseq; [apply (triple_when _ _ _ (λ _, safe delegated o)); [intros _; by apply record_event_ok|done]|].
    apply triple_value. intros s Hs. split; [by intros ran [= <-]|by apply Hw].
  - apply triple_value. intros s Hs. split; [by intros ran [= <-]|by apply Hw].
  - eapply triple_bind_pure; [apply proceed_ok|]. intros ran Hran. by apply triple_value.
Qed.

(** ** After a call *)

Section judging.
Context (P : T → Prop) `{!Stable P, !Guarded P}.

(** Breakers that differ in what no diagnostic depends on. *)
Lemma set_breakers_ok (f : T → Breakers) :
  (∀ s, P s → diagnosed (f s)) → triple P (modify (λ s, set_breakers (f s) s)) (λ _, P) E.
Proof. intros Hf. apply triple_modify. intros s Hs. apply gd_breakers; [done|by apply Hf]. Qed.

Lemma watch_repeat_ok absent call result :
  triple P (watch_repeat digest config absent call result) (λ _, P) E.
Proof.
  apply triple_snapshot. intros s0 _.
  cbn zeta. destruct (match negb absent && _ with true => _ | false => _ end) as [g seen].
  apply (triple_bind _ _ _ _ (λ _, P)); [|intros _; by apply triple_value].
  apply set_breakers_ok. intros s Hs. by apply (diagnosed_same (breakers s)), gd_diagnosed.
Qed.

Lemma judge_failure_ok hint unusable name r :
  triple P (judge_failure hint unusable name r) (λ r', (λ s, tr_id r' = tr_id r ∧ P s)) E.
Proof.
  apply triple_snapshot. intros s0 Hs0. cbn zeta. destruct (breaker_observe _ _ _) as [e tripped].
  apply (triple_bind _ _ _ _ (λ _, P)).
  - apply (set_breakers_ok (λ _, _)). intros s _. by apply (diagnosed_same (breakers s0)), gd_diagnosed.
  - intros _. apply triple_value. intros s Hs. by destruct tripped.
Qed.

Lemma judge_success_ok name input r :
  triple P (judge_success json digest digest_pair short_fingerprint name input r)
    (λ r', (λ s, tr_id r' = tr_id r ∧ P s)) E.
Proof.
  tseq; [apply move_world_ok; [done|apply (k_note K)]|].
  apply triple_snapshot. intros s0 Hs0. pose proof (gd_diagnosed s0 Hs0) as [_ Hm].
  cbn zeta. destruct (detector_observe _ _ _ _ _) as [d crossed] eqn:Hd.
  apply (triple_bind _ _ _ _ (λ _, P)).
  - apply (set_breakers_ok (λ _, _)). intros s _. split; cbn [no_progress no_progress_dynamic no_progress_monotone].
    + intros n ->. by eexists _, _.
    + unfold detector_observe in Hd. destruct (evict _ _ _) as [reps rec]. injection Hd as <- _.
      cbn [tripped_since_reset active]. intros [Ht|Ht]%orb_true_iff.
      * destruct (Hm Ht) as [m ->]. by eexists.
      * destruct (no_progress_monotone _); [by eexists|]. cbn [default].
        destruct (if repeat_threshold _ <=? _ then _ else _); [done|by eexists..].
  - intros _. apply triple_value. intros s Hs. by destruct crossed.
Qed.

Lemma judge_ok name input r :
  triple P (judge json digest digest_pair short_fingerprint name input r)
    (λ r', (λ s, tr_id r' = tr_id r ∧ P s)) E.
Proof.
  unfold judge. destruct (tr_outcome r); [apply judge_success_ok|apply judge_failure_ok..].
Qed.

Lemma finish_result_ok c absent attempt_stop decision warn ran :
  triple P (finish_result json digest digest_pair short_fingerprint config c absent attempt_stop decision warn ran)
    (λ r s, tr_id (fst r) = tr_id (rn_result ran) ∧ P s) E.
Proof.
  unfold finish_result.
  tseq; [apply (triple_when _ _ _ (λ _, P)); [intros _; by apply record_event_ok|done]|].
  set (r0 := if rn_repaired ran then _ else _).
  assert (H0 : tr_id r0 = tr_id (rn_result ran)).
  { subst r0. destruct (rn_repaired ran); [|done]. by destruct decision as [[? ? [] ? ?]|]. }
  clearbody r0. set (r1 := match scrub_control_chars _ with Some _ => _ | None => _ end).
  assert (H1 : tr_id r1 = tr_id (rn_result ran)) by (subst r1; by destruct (scrub_control_chars _)).
  clearbody r1. clear r0 H0.
  tseq; [apply watch_repeat_ok|].
  eapply (triple_bind_pure _ _ (λ r, tr_id r = tr_id (rn_result ran))).
  { apply triple_if; intros _; [|by apply triple_value].
    tseq; [apply from_world_ok; [done|apply (k_elide K)]|]. by apply triple_value. }
  intros r2 H2. cbn beta. set (r3 := match warn with Some _ => _ | None => _ end).
  assert (H3 : tr_id r3 = tr_id (rn_result ran)) by (subst r3; by destruct warn).
  clearbody r3. eapply (triple_bind_pure _ _ (λ r, tr_id r = tr_id (rn_result ran))).
  { destruct absent; [by apply triple_value|].
    eapply triple_post; [apply judge_ok| |done]. intros r s [Hr Hs]. split; [congruence|done]. }
  intros r4 H4. cbn beta. apply triple_value. intros s Hs. split; [|done].
  destruct attempt_stop; [done|].
  match goal with |- context [match ?a with Guards.Fresh => _ | _ => _ end] => by destruct a end.
Qed.
End judging.

(** ** The batch *)

Lemma is_cancelled_ok P `{!Stable P} : triple P is_cancelled (λ _, P) E.
Proof.
  apply triple_reads; intros a. apply triple_if; intros _; [by apply triple_value|].
  apply from_world_ok; [done|apply (k_cancelled K)].
Qed.

Lemma quiesce_message_says running e c calls :
  NoDup (ids (c :: calls)) →
  triple (safe e (ids (c :: calls))) (append (quiesce_message json running c)) (λ _, safe e (ids calls)) E.
Proof.
  intros Hd. unfold quiesce_message, tool_error_message, resumable_wait_result.
  destruct running; cbn [andb]; [destruct (is_resumable_wait_tool _)|]; by apply answer_ok.
Qed.

Lemma quiesce_tool_batch_ok e calls (Q : unit → T → Prop) :
  NoDup (ids calls) → triple (safe e (ids calls)) (quiesce_tool_batch json calls) Q E.
Proof.
  intros Hd. apply (triple_bind _ _ _ _ (λ _, safe e [])).
  - destruct calls as [|c rest]; [by apply triple_done|].
    tseq; [by apply record_event_ok|]. tseq; [by apply quiesce_message_says|].
    apply NoDup_cons in Hd as [_ Hd].
    eapply (triple_pre _ (λ s, NoDup (ids rest) ∧ safe e (ids rest) s)); [|by intros s Hs].
    eapply triple_post; [apply (triple_for_each (λ l s, NoDup (ids l) ∧ safe e (ids l) s))| |done].
    + intros x l. apply triple_pure. intros Hx. tseq; [by apply record_event_ok|].
      eapply triple_post; [by apply quiesce_message_says| |done]. intros ? s Hs.
      by apply NoDup_cons in Hx as [_ Hx].
    + by intros ? s [_ Hs].
  - intros _. apply stop_ok; [done|]. intros s. apply ended_safe.
Qed.

Abbreviation run_call' := (run_call json digest digest_pair short_fingerprint redact config).
Abbreviation run_calls' := (run_calls json digest digest_pair short_fingerprint redact config).

Lemma set_unavailable_ok P `{!Guarded P} m : triple P (set_unavailable m) (λ _, P) E.
Proof.
  apply set_breakers_ok; [done|]. intros s Hs. by apply (diagnosed_same (breakers s)), gd_diagnosed.
Qed.

Lemma stop_safe {A} e r (Q : A → T → Prop) : triple (safe e []) (stop r) Q E.
Proof. apply stop_ok; [done|]. intros s. apply ended_safe. Qed.

(** Not run to its end: every call is answered, or the session was cancelled. *)
Lemma interrupted_ok e c rest (Q : unit → T → Prop) :
  NoDup (ids (c :: rest)) →
  triple (safe e (ids (c :: rest)))
    (q ← from_world quiesce_requested;
     if q : bool then quiesce_tool_batch json (c :: rest)
     else record_event ;;
          append (tool_error_message (sc_id c) (txt "cancelled by the user; execution aborted")) ;;
          stop Cancelled) Q E.
Proof.
  intros Hd. tseq; [apply from_world_ok; [done|apply (k_quiesce K)]|].
  apply triple_if; intros _; [by apply quiesce_tool_batch_ok|].
  tseq; [by apply record_event_ok|]. tseq; [by apply answer_ok|].
  apply stop_ok; [done|]. intros s. apply ended_cancelled.
Qed.

Lemma answered_ok e c rest diagnostic r :
  NoDup (ids (c :: rest)) → tr_id r = sc_id c →
  triple (safe e (ids (c :: rest)))
    (append (Message_new RTool [BToolResult r]) ;;
     match diagnostic with
     | Some d => skip_calls (skipped_reason d) rest ;; stop_no_progress json d
     | None => mret tt
     end) (λ _, safe e (ids rest)) E.
Proof.
  intros Hd Hr. tseq; [by apply answer_ok|]. apply NoDup_cons in Hd as [_ Hd].
  destruct diagnostic as [d|]; [|by apply triple_done]. tseq; [by apply skip_calls_ok|]. apply stop_no_progress_ok.
Qed.

Lemma count_call_ok o : triple (safe (S delegated) o)
  (modify (λ s : T, set_tool_calls (S (turn_tool_calls s)) s)) (λ _, safe delegated o) E.
Proof.
  apply triple_modify. intros s []. split; try done. intros hard Hh. specialize (sf_within0 hard Hh). cbn. lia.
Qed.

Lemma run_call_ok c rest :
  NoDup (ids (c :: rest)) →
  triple (safe (S delegated) (ids (c :: rest))) (run_call' c rest) (λ _, safe 0 (ids rest)) E.
Proof.
  intros Hd. unfold run_call.
  tseq; [apply count_call_ok|]. apply triple_snapshot. intros s0 _. cbn zeta.
  apply (triple_bind _ _ _ _ (λ _, safe delegated (ids (c :: rest)))).
  { apply triple_if; intros _; [|by apply triple_value]. apply from_world_ok; [done|apply (k_prepare K)]. }
  intros [created|error].
  2: { tseq; [by apply skip_calls_ok|]. tseq; [by apply is_cancelled_ok|]. apply stop_safe. }
  tseq; [by apply record_event_ok|].
  tseq; [apply (triple_when _ _ _ (λ _, safe delegated (ids (c :: rest)))); [intros _; by apply record_event_ok|done]|].
  tseq; [apply from_world_ok; [done|apply (k_backends K)]|].
  apply triple_snapshot. intros s1 _. cbn zeta. tseq; [by apply set_unavailable_ok|].
  eapply triple_bind_pure; [apply run_gates_ok|]. intros gates Hran. cbn beta.
  tseq; [apply (triple_when _ _ _ (λ _, safe 0 (ids (c :: rest)))); [intros _; by apply record_event_ok|done]|].
  destruct (snd gates) as [ran|] eqn:Hg; [|by apply interrupted_ok]. specialize (Hran ran Hg).
  tseq; [apply (triple_when _ _ _ (λ _, safe 0 (ids (c :: rest)))); [intros _; by apply record_event_ok|done]|].
  eapply triple_bind_pure; [by apply finish_result_ok|]. intros r Hr. cbn beta.
  tseq; [by apply record_event_ok|]. tseq; [by apply record_event_ok|].
  apply answered_ok; [done|]. by rewrite Hr.
Qed.

Lemma urgent_ok calls :
  NoDup (ids calls) →
  triple (safe 0 (ids calls))
    (skip_calls (txt "skipped: an urgent interrupt cut the tool batch short") calls ;;
     admission ← admit_soft_interrupts;
     when_ (adm_user admission) (move_world user_cut_batch ;; reset_progress_breakers)) (λ _, safe 0 []) E.
Proof.
  intros Hd. tseq; [by apply skip_calls_ok|]. tseq; [by apply admit_soft_interrupts_ok|].
  apply triple_when; [intros _|done].
  tseq; [apply move_world_ok; [done|apply (k_cut K)]|]. by apply reset_progress_breakers_ok.
Qed.

Lemma run_calls_ok calls :
  NoDup (ids calls) → triple (safe 0 (ids calls)) (run_calls' calls) (λ _, safe 0 []) E.
Proof.
  induction calls as [|c rest IH]; intros Hd; [by apply triple_done|]. cbn [run_calls].
  tseq; [apply from_world_ok; [done|apply (k_quiesce K)]|].
  apply triple_if; intros _; [by apply quiesce_tool_batch_ok|].
  tseq; [apply from_world_ok; [done|apply (k_urgent K)]|].
  apply triple_if; intros _; [by apply urgent_ok|].
  apply triple_snapshot. intros s0 _. apply triple_if; intros _; [by apply skip_calls_ok|].
  apply triple_if; intros _; [by apply skip_calls_ok|].
  tseq; [apply degenerate_guard_ok|]. tseq; [apply budget_guard_ok|].
  tseq; [by apply run_call_ok|]. apply IH. by apply NoDup_cons in Hd as [_ ?].
Qed.

(** ** An answer that is kept *)

Lemma well_formed_filter text calls f :
  well_formed text calls → well_formed text (List.filter f calls).
Proof.
  intros [Hd Ht]. split.
  - clear Ht. induction calls as [|c calls IH]; [done|]. apply NoDup_cons in Hd as [Hc Hd].
    cbn [List.filter]. destruct (f c); [|by apply IH]. apply NoDup_cons. split; [|by apply IH].
    intros (x & Hx & [Hin _]%list_elem_of_In%List.filter_In)%list_elem_of_fmap. apply Hc, list_elem_of_fmap.
    exists x. split; [done|]. by apply list_elem_of_In.
  - intros Hne. apply Ht. by intros ->.
Qed.

Lemma reject_calls_ok reason calls :
  NoDup (ids calls) → triple (safe 0 (ids calls)) (reject_calls reason calls) (λ _, safe 0 []) E.
Proof.
  intros Hd. tseq; [by apply skip_calls_ok|]. destruct calls; [|by apply triple_done].
  apply quiet, silent_synthetic, silent_user.
Qed.

Lemma final_answer_ok revealed : triple (safe 0 []) (final_answer revealed) (λ _, safe 0 []) E.
Proof.
  destruct revealed as [|t revealed]; [|apply quiet, silent_synthetic, silent_user].
  tseq; [by apply admit_soft_interrupts_ok|]. apply triple_if; intros _; [by apply reset_when_ok|].
  apply settle_gate_ok; [done|done|]. intros r s. apply ended_safe.
Qed.

(** The second look never finds anything. *)
Lemma invalid_none calls : invalid_tool_calls calls = None → calls ≠ [] →
  invalid_tool_calls calls = None ∧ ∃ c rest, calls = c :: rest.
Proof. intros Hn Hne. split; [done|]. destruct calls; [done|by eexists _, _]. Qed.

Abbreviation keep_response' := (keep_response json digest digest_pair short_fingerprint redact config).
Lemma keep_response_ok r :
  well_formed (rs_text r) (rs_calls r) → triple (exact 0 []) (keep_response' r) (λ _, safe 0 []) E.
Proof.
  intros Hw. tseq; [apply (triple_modify _ _ (λ _, exact 0 [])); intros s; apply st_recovery|]. cbn zeta.
  destruct (invalid_tool_calls (rs_calls r)) as [reason|] eqn:Hi.
  - set (calls := List.filter _ _). assert (Hf : well_formed (rs_text r) calls) by by apply well_formed_filter.
    tseq; [by apply record_response_ok|]. apply reject_calls_ok, Hf.
  - tseq; [by apply record_response_ok|]. destruct (rs_calls r) as [|c rest] eqn:Hc; [apply final_answer_ok|].
    rewrite Hi. tseq; [apply move_world_ok; [done|apply (k_batch K)]|]. apply run_calls_ok, Hw.
Qed.

Abbreviation after_stream' := (after_stream json digest digest_pair short_fingerprint redact config).
Lemma calm_after {A} (c : M A) : triple (exact 0 []) c (λ _, exact 0 []) E → triple (exact 0 []) c (λ _, safe 0 []) E.
Proof. intros Hc. eapply triple_post; [exact Hc|by intros a s [? _]|done]. Qed.

Lemma after_stream_ok n r :
  well_formed (rs_text r) (rs_calls r) → triple (exact 0 []) (after_stream' n r) (λ _, safe 0 []) E.
Proof.
  intros Hw. apply triple_if; intros _; [apply calm_after, after_truncation_ok|].
  apply triple_if; intros _; [apply calm_after, after_overflow_ok|].
  apply triple_if; intros _; [apply calm_after, after_output_limit_ok|].
  destruct (bad_output r); [apply calm_after, recover_ok|].
  apply triple_if; intros _; [apply stop_exact|by apply keep_response_ok].
Qed.

(** ** The loop *)

Definition texts_silent (texts : TurnTexts) : Prop := ∀ m, turn_context texts = Some m → silent m.

Lemma build_request_ok texts :
  texts_silent texts →
  triple (exact 0 []) (build_request json config texts) (λ rq s, closed (rq_messages rq) ∧ exact 0 [] s) E.
Proof.
  intros Ht. apply triple_snapshot. intros s0 _. apply (triple_bind _ _ _ _ (λ _, exact 0 [])).
  { apply triple_if; intros _; [apply from_world_ok; [done|apply (k_specs K)]|by apply triple_value]. }
  intros tools. eapply triple_bind_pure; [apply compacted_history_ok|]. intros projected Hp. cbn beta.
  apply triple_snapshot. intros s1 _. apply triple_if; intros _; [apply stop_exact|].
  apply triple_value. intros s Hs. split; [|done]. by apply request_closed.
Qed.

Abbreviation exchange' := (exchange json digest digest_pair short_fingerprint redact config).
Lemma exchange_ok request :
  closed (rq_messages request) → triple (exact 0 []) (exchange' request) (λ _, safe 0 []) E.
Proof.
  intros Hrq. unfold exchange. cbn zeta. tseq; [by apply record_event_ok|].
  eapply triple_bind_pure; [by apply open_stream_ok|]. intros opened Hp. cbn beta.
  destruct opened as [polls|[| |]]; [|apply stop_exact|apply stop_exact|apply calm_after, after_overflow_ok].
  eapply triple_bind_pure; [apply (read_stream_ok polls); [by apply Hp|apply so_far_start]|].
  intros response Hr. cbn beta. destruct response as [r|]; [|by apply triple_done; intros s [? _]].
  by apply after_stream_ok, Hr.
Qed.

Lemma not_cancelled_ok : triple (safe 0 []) (gone ← is_cancelled; when_ gone (stop Cancelled)) (λ _, exact 0 []) E.
Proof.
  apply (triple_bind _ _ _ _ (λ b s, (b = false → admission s ≠ Lost) ∧ safe 0 [] s)).
  - apply triple_read. intros a. apply triple_if; intros Ha; [by apply triple_value; intros s [_ Hs]|].
    apply triple_ask. intros s [Hs0 Hs]. cbn in *. pose proof (k_cancelled K (world s) (st_world s Hs)) as Hw.
    destruct (cancelled (world s)) as [b w]. cbn in *. split; [|by apply st_set_world].
    intros _ Hl. by rewrite <-Hs0, Hl in Ha.
  - intros b. apply triple_when; intros Hb.
    + eapply triple_pre; [apply stop_safe|by intros s [_ Hs]].
    + intros s [Hl Hs]. apply owned_exact; [done|].
      destruct (sf_admission _ _ _ Hs) as [-> | Hlost]; [done|by destruct (Hl Hb)].
Qed.

Abbreviation iteration' := (iteration json digest digest_pair short_fingerprint redact config).
Lemma bind_assoc {A B C} (c : M A) (f : A → M B) (g : B → M C) s :
  ((c ≫= f) ≫= g) s = (c ≫= λ a, f a ≫= g) s.
Proof. unfold mbind, flow_bind. by destruct (c s). Qed.

Lemma iteration_ok texts : texts_silent texts → triple (safe 0 []) (iteration' texts) (λ _, safe 0 []) E.
Proof.
  intros Ht.
  assert (Hrest : triple (exact 0 [])
    (q ← from_world quiesce_requested;
     when_ q (stop Quiesced) ;;
     late ← from_world timed_out;
     when_ late (stop TimedOut) ;;
     admission ← admit_soft_interrupts;
     when_ (adm_user admission) (move_world user_steered ;; reset_progress_breakers) ;;
     ended ← from_world take_unit_end;
     when_ ((ended : bool) && negb (adm_user admission)) settle_host_unit ;;
     request ← build_request json config texts;
     exchange' request) (λ _, safe 0 []) E).
  { tseq; [apply from_world_ok; [done|apply (k_quiesce K)]|]. tseq; [apply stop_when_ok|].
    tseq; [apply from_world_ok; [done|apply (k_timed_out K)]|]. tseq; [apply stop_when_ok|].
    tseq; [by apply admit_soft_interrupts_ok|].
    tseq; [apply (triple_when _ _ _ (λ _, exact 0 [])); [intros _|done]|].
    { tseq; [apply move_world_ok; [done|apply (k_steered K)]|]. by apply reset_progress_breakers_ok. }
    tseq; [apply from_world_ok; [done|apply (k_unit_end K)]|].
    tseq; [apply (triple_when _ _ _ (λ _, exact 0 [])); [intros _|done]|].
    { apply settle_host_unit_ok; [done|done|]. intros r s. apply ended_exact. }
    eapply triple_bind_pure; [by apply build_request_ok|]. intros request Hrq. by apply exchange_ok. }
  intros s Hs. pose proof (triple_bind _ _ _ _ _ _ not_cancelled_ok (λ _, Hrest) s Hs) as H'.
  rewrite bind_assoc in H'. exact H'.
Qed.

Lemma turn_loop_ok texts fuel (Q : unit → T → Prop) :
  texts_silent texts →
  triple (safe 0 []) (turn_loop json digest digest_pair short_fingerprint redact config texts fuel) Q E.
Proof.
  intros Ht. induction fuel as [|fuel IH]; [by apply triple_finish|]. tseq; [by apply iteration_ok|exact IH].
Qed.

(** ** The start *)

(** A session between two turns. *)
Record ready (s : T) : Prop := {
  rd_world : WI (world s);
  rd_plain : plain (messages s);
  rd_closed : closed (messages s);
  rd_cache g l r : compaction_cache s = Some (g, l, r) → closed (cr_messages r);
}.

Lemma turn_texts_silent user_input c profile : texts_silent (turn_texts config user_input c profile).
Proof.
  intros m. unfold turn_texts. destruct (placed_texts config c) as [retrieval question]. cbn [turn_context].
  case_match; [done|]. intros [= <-]. apply silent_context.
Qed.

Lemma start_turn_ok user_input attachments followup :
  silent (input_message user_input attachments) → (∀ f, followup = Some f → silent f) →
  triple (λ s, ready s ∧ admission s = Owned) (start_turn config user_input attachments followup)
    (λ texts s, texts_silent texts ∧ exact 0 [] s) E.
Proof.
  intros Hm Hf. unfold start_turn.
  tseq; [apply (triple_modify _ _ (λ _ s, ready s ∧ admission s = Owned ∧ diagnosed (breakers s)))|].
  { intros s [[] Ho]. by split_and!. }
  tseq; [apply (triple_modify _ _ (λ _ s, ready s ∧ admission s = Owned ∧ diagnosed (breakers s)))|].
  { intros s ([] & Ho & Hd). by split_and!. }
  tseq; [apply (triple_modify _ _ (λ _, exact 0 []))|].
  { intros s ([] & Ho & Hd). split; [split|]; try done; [by exists []|by left|]. intros hard Hh. cbn. lia. }
  tseq; [apply (triple_modify _ _ (λ _, exact 0 [])); intros s; apply st_text|].
  tseq; [apply (triple_modify _ _ (λ _, exact 0 [])); intros s; apply st_usage|].
  tseq; [apply from_world_ok; [done|apply (k_contribute K)]|].
  tseq; [apply (triple_when _ _ _ (λ _, exact 0 [])); [intros _; by apply record_event_ok|done]|].
  apply triple_reads. intros w. cbn zeta.
  tseq; [apply (triple_modify _ _ (λ _, exact 0 [])); intros s; apply st_instructions|].
  tseq; [by apply quiet|].
  apply (triple_bind _ _ _ _ (λ _, exact 0 [])).
  { destruct followup as [f|]; [|by apply triple_done].
    tseq; [apply (triple_modify _ _ (λ _, exact 0 [])); intros s; apply st_instructions|]. by apply quiet, Hf. }
  intros _. tseq; [apply from_recording_ok; [done|apply (k_reveal K)]|].
  tseq; [apply set_breakers_ok; [done|]|].
  { intros s Hs. by apply (diagnosed_same (breakers s)), gd_diagnosed. }
  tseq; [apply (triple_modify _ _ (λ _, exact 0 [])); intros s; apply st_retries|].
  apply triple_value. intros s Hs. split; [apply turn_texts_silent|done].
Qed.

(** ** What a turn guarantees *)

Abbreviation run_turn' := (run_turn json digest digest_pair short_fingerprint redact config).

Record outcome (x : Exit) (s : T) : Prop := {
  out_answered : x ≠ Panicked;
  out_world : WI (world s);
  out_within hard : hard_max (budget_controller config) = Some hard → admission s = Owned →
    turn_tool_calls s <= hard + delegated;
  out_said : protocol (messages s) ∨ noticed (messages s);
  out_closed r : x = Stopped r → r ≠ NotOwner → may_leave_open r = false → closed (messages s);
  out_lost : admission s ≠ Owned → x = Stopped NotOwner ∨ x = OutOfFuel;
}.

Lemma run_turn_outcome fuel user_input attachments followup s x s' :
  ready s → silent (input_message user_input attachments) → (∀ f, followup = Some f → silent f) →
  run_turn' fuel user_input attachments followup s = (x, s') → outcome x s'.
Proof.
  intros Hs Hm Hf. unfold run_turn.
  assert (Hbody : match run_turn_body json digest digest_pair short_fingerprint redact config fuel user_input
      attachments followup s with
    | Next _ _ => False
    | Ended x s1 => E x s1 ∨ (x = Stopped NotOwner ∧ s1 = s ∧ admission s ≠ Owned) end).
  { unfold run_turn_body, mbind, flow_bind, get, finish.
    destruct (is_owned (admission s)) eqn:Ho; cycle 1.
    { right. split_and!; [done|done|]. intros Ha. by rewrite Ha in Ho. }
    apply bool_decide_eq_true in Ho.
    pose proof (start_turn_ok _ _ _ Hm Hf s (conj Hs Ho)) as Hst.
    destruct (start_turn config user_input attachments followup s) as [texts s1|x1 s1]; [|by left].
    destruct Hst as [Ht [Hs1 _]]. pose proof (turn_loop_ok texts fuel (λ _ _, False) Ht s1 Hs1) as Hl.
    destruct (turn_loop _ _ _ _ _ _ _ _ _); [done|by left]. }
  destruct (run_turn_body _ _ _ _ _ _ _ _ _ _ _) as [u s1|x1 s1]; [done|]. intros [= <- <-].
  destruct Hbody as [He|(-> & -> & Hn)]; cycle 1.
  { assert (Hx : match admission s with Lost => Stopped NotOwner | _ => Stopped NotOwner end = Stopped NotOwner)
      by by destruct (admission s).
    destruct Hs. split; rewrite ?Hx; try done; [left; by exists []|by left]. }
  destruct x1 as [r| |]; [|done|].
  - destruct He as (Hl & Hp & Hc). destruct (lo_admission _ Hl) as [Ha|Ha]; rewrite Ha.
    + split; try done; [apply Hl|intros hard Hh _; pose proof (lo_within _ Hl hard Hh); lia|apply Hl|].
      intros r' [= ->] _ Hr. apply Hc; [done|]. by rewrite Ha.
    + split; try done; [apply Hl|by rewrite Ha|apply Hl|by intros r' [= <-]|by left].
  - cbn in He. split; try done; [apply He|intros hard Hh _; pose proof (sf_within _ _ _ He hard Hh); lia
      |left; apply He|by right].
Qed.
End invariant.
