(* ===== verification/TurnProps.v ===== *)
(** * A turn: what holds when it ends

    The claims about Turn.v.  The invariant behind them is in TurnInv.v; the
    host at the end answers from a script. *)

From Stdlib Require Import String.
From stdpp Require Import base gmap list numbers.
From S2P Require Import Permission.
From S2P Require Import Prelude Monitor Guards Utf8 Chars Message Json Provider Compaction CompactionProps.
From S2P Require Import SessionParts Flow Turn TurnWire TurnInv.
From stdpp Require Import list.
#[local] Open Scope nat_scope.
#[local] Open Scope list_scope.

(** ** The context budget *)

Section budget.
#[local] Open Scope N_scope.

(** What the calibration says fits, fits: an estimate within the raw budget
    is, once calibrated, within the token budget, whatever the last request
    reported, and for every budget of a machine word. *)
Theorem raw_budget_is_enough c b e :
  estimated c <= U64_MAX → reported c <= U64_MAX → e <= raw_budget c b → calibrated_estimate c e <= b.
Proof.
  intros He Hr. unfold raw_budget, calibrated_estimate, CONTEXT_CALIBRATION_SAFETY_PERCENT.
  assert (Hsat : ∀ n, u64_saturate n <= n ∧ u128_saturate n <= n)
    by (intros n; unfold u64_saturate, u128_saturate; split; apply N.le_min_l).
  destruct (N.eqb_spec (estimated c) 0) as [Hz|Hz].
  - intros Hb. destruct (Hsat (u128_saturate (b * 100) / (100 + 5))) as [H1 _].
    destruct (Hsat (b * 100)) as [_ H2].
    assert (u128_saturate (b * 100) / (100 + 5) <= b * 100 / (100 + 5)) by (apply N.Div0.div_le_mono; lia).
    assert (b * 100 / (100 + 5) <= b) by (apply N.Div0.div_le_upper_bound; lia). lia.
  - set (num := u128_saturate (reported c * (100 + 5))). set (den := u128_saturate (estimated c * 100)).
    assert (Hnum : num = reported c * 105).
    { subst num. unfold u128_saturate, U128_MAX, U64_MAX in *. lia. }
    intros Hb. assert (Hm : e * num <= b * den).
    { destruct (N.eq_dec num 0) as [->|Hn]; [lia|].
      destruct (Hsat (u128_saturate (b * den) / num)) as [H1 _]. destruct (Hsat (b * den)) as [_ H2].
      assert (e * num <= u128_saturate (b * den) / num * num) by (apply N.mul_le_mono_r; lia).
      pose proof (N.Div0.mul_div_le (u128_saturate (b * den)) num). lia. }
    assert (Hden : den <= estimated c * 100) by apply Hsat.
    assert (Hm2 : e * reported c <= b * estimated c).
    { assert (b * den <= b * (estimated c * 100)) by (apply N.mul_le_mono_l; lia). lia. }
    destruct (Hsat (u128_saturate (u128_saturate (e * reported c) + (estimated c - 1)) / estimated c)) as [H1 _].
    destruct (Hsat (u128_saturate (e * reported c) + (estimated c - 1))) as [_ H2].
    destruct (Hsat (e * reported c)) as [_ H3].
    etransitivity; [exact H1|]. etransitivity; [apply N.Div0.div_le_mono; exact H2|].
    etransitivity; [apply N.Div0.div_le_mono, N.add_le_mono_r; exact H3|].
    assert (e * reported c + (estimated c - 1) < estimated c * N.succ b) by lia.
    pose proof (N.Div0.div_lt_upper_bound _ _ _ H). lia.
Qed.
End budget.

Section claims.
Context (json_text : Json → Text) (digest : Text → N) (digest_pair : Text → Text → N)
  (short_fingerprint : Text → Text) (redact : Text → Text).
Context {W : Type} `{H : Host W} (config : SessionConfig).
Abbreviation run := (run_turn json_text digest digest_pair short_fingerprint redact config).

(** What is known of the rest of the runtime.  [contract known delegated] asks of
    it that it keeps what is known; of the provider that, when it is sent a
    conversation that answers its calls, its answer is orderly: the calls of one
    answer have different ids, and the text beside calls does not pass for a
    compaction summary; of a tool that its result carries the id of its call;
    of a delegate that it makes at most [delegated] calls.  The code relies on
    these and checks none.  [ready known s] asks that the session starts the turn
    with a history that answers every call it holds, which it does unless the
    last turn ended by a cancel or by a no-progress or budget stop that left
    calls open, and whose summaries, a cached one too, hold no calls. *)
Context (known : W → Prop).
Definition asked (user_input : Text) (attachments : list ContentBlock) (followup : option Message) : Prop :=
  silent (input_message user_input attachments) ∧ ∀ f, followup = Some f → silent f.

(** C11. A turn leaves a conversation that can go on.  Take a turn that starts on a
    history which answers every call it holds (so not one after a budget or
    no-progress stop that left calls open), with a provider whose answers are
    orderly (the calls of one answer have different ids, and text beside calls
    does not pass for a compaction summary; the code checks neither) and tools
    whose results carry the ids of their calls.  However else the provider, the
    tools, the store and the user behave, when it ends (but for a cancel, a
    no-progress or a budget stop, and a session that was lost) every call in the
    history is answered by exactly its own result before anything else is said.
    In those cases too nothing but the last message, the notice of the stop, may
    stand between a call and its result. *)
Theorem turn_answers_every_call delegated fuel user_input attachments followup s r s' :
  contract known delegated → ready known s → asked user_input attachments followup →
  run fuel user_input attachments followup s = (Stopped r, s') →
  (protocol (messages s') ∨ noticed (messages s')) ∧
  (r ∉ [Cancelled; NoProgress; BudgetExceeded; NotOwner] → closed (messages s')).
Proof.
  intros K Hs [Hm Hf] Hrun. pose proof (run_turn_outcome _ _ _ _ _ _ _ _ K _ _ _ _ _ _ _ Hs Hm Hf Hrun) as Ho.
  split; [apply Ho|]. intros Hr. apply (out_closed _ _ _ _ _ Ho r); [done|set_solver|].
  destruct r; try done; set_solver.
Qed.

(** C12. Every request a turn sends is a conversation a provider accepts.  When the
    turn starts on a history that answers every call it holds, the provider's
    answers to such conversations are orderly (the calls of one answer have
    different ids, and text beside calls does not pass for a compaction summary)
    and tools' results carry the ids of their calls, then, with [sent] any record
    of the requests that only the provider extends, by the one it is sent, all
    of them answer every call they hold, after compaction, the texts placed in
    them and the images left out.  A turn that starts after a budget or
    no-progress stop that left calls open is not covered. *)
Theorem turn_sends_answered_calls (sent : W → list ModelRequest) delegated fuel user_input attachments
    followup s x s' :
  contract (λ w, known w ∧ Forall (λ rq, closed (rq_messages rq)) (sent w)) delegated →
  ready (λ w, known w ∧ Forall (λ rq, closed (rq_messages rq)) (sent w)) s → asked user_input attachments followup →
  run fuel user_input attachments followup s = (x, s') →
  Forall (λ rq, closed (rq_messages rq)) (sent (world s')).
Proof.
  intros K Hs [Hm Hf] Hrun. apply (out_world _ _ _ _ _ (run_turn_outcome _ _ _ _ _ _ _ _ K _ _ _ _ _ _ _ Hs Hm Hf Hrun)).
Qed.

(** C32. The guards never reach their [unreachable!]: a stop for a stuck repeat
    always has the diagnostic of the call that caused it, and a budget stop for
    want of progress always has the first one since the reset.  Shown for turns
    that start on a history which answers every call it holds, with orderly
    answers of the provider (different ids for the calls of one answer, no text
    beside calls that passes for a compaction summary) and tools whose results
    carry the ids of their calls. *)
Theorem turn_never_panics delegated fuel user_input attachments followup s s' :
  contract known delegated → ready known s → asked user_input attachments followup →
  run fuel user_input attachments followup s ≠ (Panicked, s').
Proof.
  intros K Hs [Hm Hf] Hrun.
  exact (out_answered _ _ _ _ _ (run_turn_outcome _ _ _ _ _ _ _ _ K _ _ _ _ _ _ _ Hs Hm Hf Hrun) eq_refl).
Qed.

(** C33. A turn makes no more tool calls than its hard limit, a delegate's last
    ones aside: with delegates that make at most [delegated] calls each, the
    count never passes the limit by more than that, as long as the session is
    still this process's own when the turn ends.  Shown for turns that start on
    a history which answers every call it holds, with orderly answers of the
    provider (different ids for the calls of one answer, no text beside calls
    that passes for a compaction summary) and tools whose results carry the ids
    of their calls. *)
Theorem turn_stays_within_budget delegated fuel user_input attachments followup s x s' hard :
  contract known delegated → ready known s → asked user_input attachments followup →
  run fuel user_input attachments followup s = (x, s') → admission s' = Owned →
  hard_max (budget_controller config) = Some hard → turn_tool_calls s' <= hard + delegated.
Proof.
  intros K Hs [Hm Hf] Hrun Ha Hh.
  by apply (out_within _ _ _ _ _ (run_turn_outcome _ _ _ _ _ _ _ _ K _ _ _ _ _ _ _ Hs Hm Hf Hrun)).
Qed.

(** The blocks a role may carry. *)
Definition typed (m : Message) : Prop :=
  (uses m ≠ [] → role m = RAssistant) ∧ (results m ≠ [] → role m = RTool).

Lemma said_typed open ms o : says open ms = Some o → Forall typed ms.
Proof.
  revert open. induction ms as [|m ms IH]; intros open; cbn; [constructor|].
  destruct (say open m) as [o'|] eqn:Hs; [|done]. intros Ho. constructor; [|by eapply IH].
  unfold say in Hs. unfold typed. destruct (role m); case_bool_decide as Hb; try done;
    (split; intros Hne; [|]); naive_solver.
Qed.
Lemma silent_typed m : silent m → typed m.
Proof. intros (_ & Hu & Hr). by split. Qed.

(** C34. The history stays well typed: after a turn, whatever ended it, only the
    assistant's messages call tools and only tool messages carry results.  The
    turn starts on a history that answers every call it holds (so not one after
    a stop that left calls open), the provider's answers are orderly (different
    ids for the calls of one answer, no text beside calls that passes for a
    compaction summary), and tools' results carry the ids of their calls. *)
Theorem turn_history_is_typed delegated fuel user_input attachments followup s x s' :
  contract known delegated → ready known s → asked user_input attachments followup →
  run fuel user_input attachments followup s = (x, s') → Forall typed (messages s').
Proof.
  intros K Hs [Hm Hf] Hrun. pose proof (run_turn_outcome _ _ _ _ _ _ _ _ K _ _ _ _ _ _ _ Hs Hm Hf Hrun) as Ho.
  destruct (out_said _ _ _ _ _ Ho) as [[o Hp]|(pre & m & -> & [o Hp] & Hsil)]; [by eapply said_typed|].
  apply Forall_app. split; [by eapply said_typed|]. by apply list.Forall_singleton, silent_typed.
Qed.

(** ** A response with a malformed call *)

(** What a response may cost, and the counters that would stop the turn. *)
Definition cost (s : Turn W) : nat * RecoveryEngine * Breakers * Retries :=
  (turn_tool_calls s, recovery s, breakers s, retries s).
Definition free (k : nat * RecoveryEngine * Breakers * Retries) {A} (c : Flow (Turn W) Exit A) : Prop :=
  triple (λ s, cost s = k) c (λ _ s, cost s = k) (λ _ _, False).

Lemma free_bind k {A B} (c : Flow (Turn W) Exit A) (f : A → Flow (Turn W) Exit B) :
  free k c → (∀ a, free k (f a)) → free k (c ≫= f).
Proof. intros Hc Hf. eapply triple_bind; [exact Hc|]. intros a. apply Hf. Qed.
Lemma free_ret k {A} (a : A) : free k (mret a).
Proof. by intros s Hs. Qed.
Lemma free_modify k f : (∀ s, cost (f s) = cost s) → free k (modify f).
Proof. intros Hf s Hs. cbn. by rewrite Hf. Qed.
Lemma free_get k {A} (f : Turn W → A) : free k (get f).
Proof. by intros s Hs. Qed.
Lemma free_world k {A} (f : W → A * W) : free k (from_world f).
Proof. intros s Hs. unfold from_world, ask. by destruct (f (world s)). Qed.
Lemma free_when k b c : free k c → free k (when_ b c).
Proof. intros Hc. destruct b; [done|apply free_ret]. Qed.
Lemma free_lose k : free k lose_ownership.
Proof. apply free_modify. intros s. by destruct (admission s). Qed.
Lemma free_event k : free k record_event.
Proof.
  apply free_bind; [apply free_get|]. intros [|]; [|apply free_ret].
  apply free_bind; [apply free_world|]. intros [| |]; try apply free_ret. apply free_lose.
Qed.
Lemma free_recording k {A} (f : W → (A * nat) * W) : free k (from_recording f).
Proof.
  apply free_bind; [apply free_world|]. intros [a n]. apply free_bind; [|intros _; apply free_ret].
  induction n as [|n IH]; [apply free_ret|]. apply free_bind; [apply free_event|]. intros _. exact IH.
Qed.
Lemma free_append k m : free k (append m).
Proof.
  apply free_bind; [apply free_get|]. intros s. destruct (negb _); [apply free_ret|].
  apply free_bind; [apply free_when; by apply free_modify|]. intros _.
  apply free_bind; [apply free_world|].
  assert (Hn : free k (record_event ;; modify (λ s, set_messages (messages s ++ [m]) s))).
  { apply free_bind; [apply free_event|]. intros _. by apply free_modify. }
  intros [| |]; [exact Hn|apply free_lose|exact Hn].
Qed.
Lemma free_reject k reason calls : free k (reject_calls reason calls).
Proof.
  apply free_bind.
  - unfold skip_calls. induction calls as [|c calls IH]; [apply free_ret|].
    apply free_bind; [apply free_append|]. intros _. exact IH.
  - intros _. destruct calls; [apply free_append|apply free_ret].
Qed.
Lemma free_record k r calls : free k (record_response r calls).
Proof.
  apply free_bind; [destruct calls; [apply free_world|apply free_ret]|]. intros t.
  apply free_bind; [apply free_recording|]. intros revealed.
  apply free_bind; [apply free_when, free_append|]. intros _. apply free_ret.
Qed.

(** A response with a malformed call (a blank id, a blank name, arguments
    that are no object) never ends the turn and costs it nothing: it counts as a
    clean turn, no call is charged, no guard moves, no retry is used.  The
    recovery ladder for malformed calls is behind a second check that can no
    longer find one. *)
Theorem malformed_calls_are_free r reason s :
  invalid_tool_calls (rs_calls r) = Some reason →
  ∃ s', keep_response json_text digest digest_pair short_fingerprint redact config r s = Next tt s' ∧
    recovery s' = record_clean_turn (recovery s) ∧ turn_tool_calls s' = turn_tool_calls s ∧
    breakers s' = breakers s ∧ retries s' = retries s.
Proof.
  intros Hi. unfold keep_response. rewrite Hi. set (calls := List.filter _ _).
  set (k := (turn_tool_calls s, record_clean_turn (recovery s), breakers s, retries s)).
  set (s1 := set_recovery (record_clean_turn (recovery s)) s).
  assert (Hf : free k (revealed ← record_response r calls; reject_calls reason calls)).
  { apply free_bind; [apply free_record|]. intros _. apply free_reject. }
  specialize (Hf s1 eq_refl).
  change (∃ s', (revealed ← record_response r calls; reject_calls reason calls) s1 = Next tt s' ∧
    recovery s' = record_clean_turn (recovery s) ∧ turn_tool_calls s' = turn_tool_calls s ∧
    breakers s' = breakers s ∧ retries s' = retries s).
  destruct ((revealed ← record_response r calls; reject_calls reason calls) s1) as [[] s'|x s']; [|done].
  exists s'. unfold cost, k in Hf. by simplify_eq.
Qed.
End claims.

(** ** A host that answers from a script *)

Record Script := mkScript { replies : list (list Poll); requests : list ModelRequest }.

Definition idle {A} (a : A) (w : Script) : A * Script := (a, w).
#[local] Instance scripted : Host Script := {
  cancelled := idle false;
  quiesce_requested := idle false;
  timed_out := idle false;
  backoff_cancelled _ := idle false;
  urgent_queued := idle false;
  drain := idle [];
  persist_message _ := idle Stored;
  persist_event := idle Stored;
  max_context_tokens _ := None;
  max_output_tokens _ := None;
  provider_stream rq w :=
    match replies w with
    | reply :: replies => (Ok reply, mkScript replies (requests w ++ [rq]))
    | [] => (Err (Auth None), mkScript [] (requests w ++ [rq]))
    end;
  summarizer_active _ := false;
  summarize _ _ := idle (Err []);
  contribute _ := idle (mkContribution [] [] [] false);
  work_instruction _ := None;
  reveal_for_request _ := idle (tt, 0);
  reveal_for_markers _ := idle ([], 0);
  broker_advertises _ _ := true;
  broker_reresolution _ := idle None;
  learning_enabled _ := false;
  note_success _ w := w;
  gate_final_reply t := idle t;
  verify_before_done _ n := idle (Finalize, n, 0);
  unit_end_requested _ := false;
  take_unit_end := idle false;
  unit_settled w := w;
  rename_batch_refused _ := false;
  batch_started w := w;
  user_steered w := w;
  user_cut_batch w := w;
  tool_specs := idle [];
  tool_input_decision _ _ _ := None;
  prepare_project_write _ _ := idle (Ok false);
  refresh_backend_availability := idle [];
  accepts_images _ := true;
  precondition_block _ _ := idle None;
  check_before_launch_verdict _ _ := idle None;
  reserve_work_input _ _ := idle None;
  dispatch_detailed c := idle
    (Some (mkDispatched (ToolResult_success (tc_id c) (txt "fine")) None None), 0);
  elide_seen_read _ r := idle (tr_output r);
}.

Definition orderlyb (polls : list Poll) : bool :=
  forallb (λ k, bool_decide (NoDup (sc_id <$> calls_of (take k polls)))
    && (bool_decide (length (calls_of (take k polls)) = 0)
        || negb (starts_with SUMMARY_TITLE (trim_blank_boundary_lines (text_of (take k polls))))))
    (seq 0 (S (length polls))).

Lemma orderlyb_sound polls : orderlyb polls = true → orderly polls.
Proof.
  unfold orderlyb. rewrite forallb_forall. intros Hall k.
  assert (Hk : ∃ j, take k polls = take j polls ∧ j < S (length polls)).
  { destruct (le_lt_dec k (length polls)); [exists k; split; [done|lia]|].
    exists (length polls). rewrite !take_ge by lia. split; [done|lia]. }
  destruct Hk as (j & -> & Hj). specialize (Hall j). rewrite in_seq in Hall.
  specialize (Hall ltac:(lia)). apply andb_true_iff in Hall as [Hd Ht].
  apply bool_decide_eq_true in Hd. split; [done|]. intros Hne.
  apply orb_true_iff in Ht as [Ht|Ht]; [|by apply negb_true_iff].
  apply bool_decide_eq_true, length_zero_iff_nil in Ht. done.
Qed.

Definition orderly_script (w : Script) : Prop := Forall (λ r, orderlyb r = true) (replies w).
(** The requests sent so far, and a script of well-formed answers. *)
Definition said_well (w : Script) : Prop :=
  Forall (λ rq, closed (rq_messages rq)) (requests w) ∧ orderly_script w.

Lemma scripted_contract (WI : Script → Prop) :
  (∀ rq w, WI w → closed (rq_messages rq) → WI (snd (provider_stream rq w))) →
  (∀ w, WI w → orderly_script w) → contract WI 0.
Proof.
  intros Hp Ho. split; unfold keeps; try (by intros).
  - exact Hp.
  - intros rq w polls Hw _. cbn. destruct (replies w) as [|r rs] eqn:Hr; [done|]. intros [= <-].
    specialize (Ho w Hw). unfold orderly_script in Ho. rewrite Hr in Ho. apply list.Forall_cons in Ho as [Ho _].
    by apply orderlyb_sound.
  - intros c w d. cbn. by intros [= <-].
Qed.

Definition sample_config (max : option nat) : SessionConfig :=
  mkConfig false false 100000 0 Deterministic None max false false true false.
Definition no_failures : Breakers :=
  mkBreakers breaker_default guard_default ∅ ∅ detector_default None None 0.
Definition sample_session (script : list (list Poll)) : Turn Script :=
  mkTurn (mkScript script []) Owned [Message_text RSystem (txt "be brief")] 0 None false None []
    (engine_new budget_default) calibration_default TokenUsage_default 0 no_failures
    (mkRetries true false false None false 0 0).
Abbreviation sample_run max script :=
  (run_turn sample_json (λ t, N.of_nat (length t)) (λ a b, N.of_nat (length a + length b)) (λ t, t) (λ t, t)
    (sample_config max) 10 (txt "go") [] None (sample_session script)).

Definition call_to (name id : string) : Poll :=
  PollEvent (Ok (EvToolCall (mkStreamCall (txt id) (txt name) (JObject []) None))).
Definition say_text (t : string) : Poll := PollEvent (Ok (TextDelta (txt t))).
Definition sample_script : list (list Poll) :=
  [[say_text "two files"; call_to "read_file" "a"; call_to "list_files" "b"; PollEvent (Ok EvDone)];
   [say_text "all done"; PollEvent (Ok EvDone)]].
Definition answer_to (id : string) : Message :=
  Message_new RTool [BToolResult (ToolResult_success (txt id) (txt "fine"))].
Definition call_of (name id : string) : ContentBlock :=
  BToolUse (mkToolCall (txt id) (txt name) (JObject []) None).

(** Both calls of the first answer are run, and the second answer ends the turn. *)
Example sample_turn :
  fst (sample_run None sample_script) = Stopped Done ∧
  messages (snd (sample_run None sample_script)) =
    [Message_text RSystem (txt "be brief"); Message_text RUser (txt "go");
     Message_new RAssistant [BText (txt "two files"); call_of "read_file" "a"; call_of "list_files" "b"];
     answer_to "a"; answer_to "b"; Message_new RAssistant [BText (txt "all done")]].
Proof. vm_compute. done. Qed.

(** A stop at the budget leaves the second call without a result, and puts its
    notice in the way of one. *)
Lemma budget_stop_leaves_a_call_open :
  fst (sample_run (Some 1) sample_script) = Stopped BudgetExceeded ∧
  says [] (removelast (messages (snd (sample_run (Some 1) sample_script)))) = Some [txt "b"] ∧
  says [] (messages (snd (sample_run (Some 1) sample_script))) = None.
Proof. vm_compute. done. Qed.

(** ** The claims at this host *)

Lemma sample_ends max script x :
  fst (sample_run max script) = x → sample_run max script = (x, snd (sample_run max script)).
Proof. intros <-. apply surjective_pairing. Qed.
Lemma sample_done : fst (sample_run None sample_script) = Stopped Done.
Proof. vm_compute. reflexivity. Qed.
Lemma sample_stopped : fst (sample_run (Some 1) sample_script) = Stopped BudgetExceeded.
Proof. vm_compute. reflexivity. Qed.

Lemma scripted_known : contract orderly_script 0.
Proof.
  apply scripted_contract; [|done]. intros rq [[|r rs] log] Ho _; [done|].
  unfold orderly_script in *. cbn in *. by apply list.Forall_cons in Ho as [_ ?].
Qed.
Lemma scripted_said : contract (λ w, orderly_script w ∧ Forall (λ rq, closed (rq_messages rq)) (requests w)) 0.
Proof.
  apply scripted_contract; [|by intros w []]. intros rq [[|r rs] log] [Ho Hs] Hrq; unfold orderly_script in *;
    cbn in *; (split; [|by apply Forall_app; split; [|by apply list.Forall_singleton]]); [done|].
  by apply list.Forall_cons in Ho as [_ ?].
Qed.
Lemma sample_orderly : orderly_script (world (sample_session sample_script)).
Proof. unfold orderly_script. repeat constructor. Qed.
Lemma sample_ready (known : Script → Prop) :
  known (world (sample_session sample_script)) → ready known (sample_session sample_script).
Proof. intros Hk. by split; [|repeat constructor| |]. Qed.
Lemma sample_asked : asked (txt "go") [] None.
Proof. split; [apply silent_user|done]. Qed.

Lemma turn_answers_every_call_witness : closed (messages (snd (sample_run None sample_script))).
Proof.
  apply (turn_answers_every_call sample_json (λ t, N.of_nat (length t)) (λ a b, N.of_nat (length a + length b))
    (λ t, t) (λ t, t) (sample_config None) orderly_script 0 10 (txt "go") [] None
    (sample_session sample_script) Done).
  - exact scripted_known.
  - apply sample_ready, sample_orderly.
  - exact sample_asked.
  - exact (sample_ends _ _ _ sample_done).
  - intros Hin. by repeat (apply elem_of_cons in Hin as [Hin|Hin]; [done|]); apply elem_of_nil in Hin.
Defined.

Lemma turn_sends_answered_calls_witness :
  Forall (λ rq, closed (rq_messages rq)) (requests (world (snd (sample_run None sample_script)))).
Proof.
  apply (turn_sends_answered_calls sample_json (λ t, N.of_nat (length t))
    (λ a b, N.of_nat (length a + length b)) (λ t, t) (λ t, t) (sample_config None) orderly_script requests 0 10
    (txt "go") [] None (sample_session sample_script) (Stopped Done)).
  - exact scripted_said.
  - apply sample_ready. split; [exact sample_orderly|constructor].
  - exact sample_asked.
  - exact (sample_ends _ _ _ sample_done).
Defined.

Lemma turn_never_panics_witness : sample_run None sample_script ≠ (Panicked, sample_session []).
Proof.
  apply (turn_never_panics sample_json (λ t, N.of_nat (length t)) (λ a b, N.of_nat (length a + length b))
    (λ t, t) (λ t, t) (sample_config None) orderly_script 0 10 (txt "go") [] None (sample_session sample_script)).
  - exact scripted_known.
  - apply sample_ready, sample_orderly.
  - exact sample_asked.
Defined.

Lemma turn_stays_within_budget_witness : turn_tool_calls (snd (sample_run (Some 1) sample_script)) <= 1.
Proof.
  apply (turn_stays_within_budget sample_json (λ t, N.of_nat (length t)) (λ a b, N.of_nat (length a + length b))
    (λ t, t) (λ t, t) (sample_config (Some 1)) orderly_script 0 10 (txt "go") [] None
    (sample_session sample_script) (Stopped BudgetExceeded) _ 1).
  - exact scripted_known.
  - apply sample_ready, sample_orderly.
  - exact sample_asked.
  - exact (sample_ends _ _ _ sample_stopped).
  - vm_compute. reflexivity.
  - reflexivity.
Defined.

Lemma turn_history_is_typed_witness : Forall typed (messages (snd (sample_run (Some 1) sample_script))).
Proof.
  apply (turn_history_is_typed sample_json (λ t, N.of_nat (length t)) (λ a b, N.of_nat (length a + length b))
    (λ t, t) (λ t, t) (sample_config (Some 1)) orderly_script 0 10 (txt "go") [] None
    (sample_session sample_script) (Stopped BudgetExceeded)).
  - exact scripted_known.
  - apply sample_ready, sample_orderly.
  - exact sample_asked.
  - exact (sample_ends _ _ _ sample_stopped).
Defined.

Definition nameless : Response := add_call (mkStreamCall (txt "a") [] (JObject []) None) no_response.
Lemma malformed_calls_are_free_witness :
  ∃ s', keep_response sample_json (λ t, N.of_nat (length t)) (λ a b, N.of_nat (length a + length b))
      (λ t, t) (λ t, t) (sample_config None) nameless (sample_session []) = Next tt s' ∧
    recovery s' = record_clean_turn (recovery (sample_session [])) ∧
    turn_tool_calls s' = turn_tool_calls (sample_session []) ∧
    breakers s' = breakers (sample_session []) ∧ retries s' = retries (sample_session []).
Proof. eapply malformed_calls_are_free. vm_compute. reflexivity. Defined.

Lemma raw_budget_is_enough_witness :
  (calibrated_estimate (mkCalibration 1000 1500) 6349 <= 10000)%N.
Proof. apply raw_budget_is_enough; vm_compute; discriminate. Defined.
