(* ===== verification/Wire.v ===== *)
(** * A conversation as it is sent (localpilot-llm-openai/src/lib.rs and
    localpilot-llm-anthropic/src/lib.rs, [translate_messages])

    The history in the shape each provider takes: chat messages with one message
    per tool result for the OpenAI wire, alternating turns of blocks for the
    Anthropic one.  JSON is a value; the text of a call's arguments is the
    printer's, a parameter. *)

From Stdlib Require Import String.
From stdpp Require Import base list numbers gmap.
From S2P Require Import Prelude Monitor Utf8 Chars Message Json Compaction CompactionProps.
From S2P Require Import SessionParts Flow Turn TurnWire.
From stdpp Require Import list.
#[local] Open Scope nat_scope.
#[local] Open Scope list_scope.
#[local] Open Scope string_scope.

Definition data_url (media_type data : Text) : Text :=
  (txt "data:" ++ media_type ++ txt ";base64," ++ data)%list.

Module OpenAiWire.
Section translate.
(** [serde_json::to_string]. *)
Context (json_text : Json → Text).

Definition role_str (r : Role) : Text :=
  match r with
  | RSystem => txt "system"
  | RUser | RUserShell => txt "user"
  | RAssistant => txt "assistant"
  | RTool => txt "tool"
  end.

Definition image_part (media_type data : Text) : Json :=
  json_object [("type", json_string "image_url");
               ("image_url", json_object [("url", JString (data_url media_type data))])].

(** [Map::entry(key).or_insert]. *)
Definition or_insert (m : list (Text * Json)) (field : Text * Json) : list (Text * Json) :=
  match map_get (fst field) m with
  | Some _ => m
  | None => map_insert (fst field) (snd field) m
  end.
Definition tool_call (call : ToolCall) : Json :=
  let fields := match json_object
      [("id", JString (tc_id call)); ("type", json_string "function");
       ("function", json_object [("name", JString (tc_name call));
                                 ("arguments", JString (json_text (tc_input call)))])] with
    | JObject m => m
    | _ => []
    end in
  JObject (fold_left or_insert (default [] (tc_provider_metadata call ≫= as_object)) fields).

(** What the blocks of one message come to. *)
Record Gathered := mkGathered {
  text : Text;
  tool_calls : list Json;
  images : list Json;
  reasoning : option Text;
  reasoning_signature : option Text;
}.
Definition gather (g : Gathered) (b : ContentBlock) : Gathered :=
  match b with
  | BText t =>
      mkGathered (match text g with [] => t | _ => (text g ++ [LF] ++ t)%list end)
        (tool_calls g) (images g) (reasoning g) (reasoning_signature g)
  | BReasoning r signature _ => mkGathered (text g) (tool_calls g) (images g) (Some r) signature
  | BToolUse call =>
      mkGathered (text g) (tool_calls g ++ [tool_call call])%list (images g) (reasoning g) (reasoning_signature g)
  | BImage media_type data =>
      mkGathered (text g) (tool_calls g) (images g ++ [image_part media_type data])%list
        (reasoning g) (reasoning_signature g)
  | BToolResult _ => g
  end.

Definition set_field (k : string) (v : Json) (m : list (Text * Json)) : list (Text * Json) :=
  map_insert (txt k) v m.
Definition set_content (g : Gathered) (m : list (Text * Json)) : list (Text * Json) :=
  match images g, tool_calls g with
  | _ :: _, _ =>
      let parts := match text g with
                   | [] => images g
                   | t => json_object [("type", json_string "text"); ("text", JString t)] :: images g
                   end in
      set_field "content" (JArray parts) m
  | [], [] => set_field "content" (JString (text g)) m
  | [], _ =>
      set_field "tool_calls" (JArray (tool_calls g))
        (set_field "content" (match text g with [] => JNull | t => JString t end) m)
  end.
Definition set_some (k : string) (v : option Text) (m : list (Text * Json)) : list (Text * Json) :=
  match v with Some v => set_field k (JString v) m | None => m end.

Definition tool_reply (r : ToolResult) : Json :=
  json_object [("role", json_string "tool"); ("tool_call_id", JString (tr_id r));
               ("content", JString (tr_output r))].

Definition translate_message (m : Message) (role_override : option Text) (round_trip_reasoning : bool)
    : list Json :=
  match role m with
  | RTool => omap (λ b, match b with BToolResult r => Some (tool_reply r) | _ => None end) (content m)
  | _ =>
      let g := fold_left gather (content m) (mkGathered [] [] [] None None) in
      let obj := set_content g (set_field "role" (JString (default (role_str (role m)) role_override)) []) in
      [JObject (if round_trip_reasoning
                then set_some "reasoning_signature" (reasoning_signature g)
                       (set_some "reasoning_content" (reasoning g) obj)
                else obj)]
  end.

Definition result_images (m : Message) : list Json :=
  omap (λ b, match b with
             | BToolResult r => (λ i, image_part (ti_media_type i) (ti_data i)) <$> tr_image r
             | _ => None
             end) (content m).
Definition images_message (images : list Json) : list Json :=
  match images with
  | [] => []
  | _ => [json_object [("role", json_string "user"); ("content", JArray images)]]
  end.

(** The output, whether the leading run of system messages goes on, and the
    images of tool results still to be shown. *)
Record Translation := mkTranslation {
  out : list Json;
  in_leading_system : bool;
  tool_images : list Json;
}.
Definition translate_step (round_trip_reasoning : bool) (t : Translation) (m : Message) : Translation :=
  let is_tool := bool_decide (role m = RTool) in
  let is_system := bool_decide (role m = RSystem) in
  let out1 := if is_tool then out t else (out t ++ images_message (tool_images t))%list in
  let images1 := if is_tool then tool_images t else [] in
  let role_override := if is_system && negb (in_leading_system t) then Some (txt "user") else None in
  mkTranslation (out1 ++ translate_message m role_override round_trip_reasoning)%list
    (in_leading_system t && is_system)
    (if is_tool then images1 ++ result_images m else images1)%list.
Definition translate_messages (messages : list Message) (round_trip_reasoning : bool) : list Json :=
  let t := fold_left (translate_step round_trip_reasoning) messages (mkTranslation [] true []) in
  (out t ++ images_message (tool_images t))%list.
End translate.
End OpenAiWire.

Module AnthropicWire.

Definition anthropic_role (r : Role) : Text :=
  match r with RAssistant => txt "assistant" | _ => txt "user" end.

Definition image_source (media_type data : Text) : Json :=
  json_object [("type", json_string "image");
               ("source", json_object [("type", json_string "base64");
                                       ("media_type", JString media_type); ("data", JString data)])].
Definition translate_block (b : ContentBlock) : option Json :=
  match b with
  | BText t => Some (json_object [("type", json_string "text"); ("text", JString t)])
  | BReasoning t (Some signature) _ =>
      Some (json_object [("type", json_string "thinking"); ("thinking", JString t); ("signature", JString signature)])
  | BReasoning _ None _ => None
  | BToolUse call =>
      Some (json_object [("type", json_string "tool_use"); ("id", JString (tc_id call));
                         ("name", JString (tc_name call)); ("input", tc_input call)])
  | BToolResult r =>
      let content := match tr_image r with
                     | Some i => JArray [json_object [("type", json_string "text"); ("text", JString (tr_output r))];
                                         image_source (ti_media_type i) (ti_data i)]
                     | None => JString (tr_output r)
                     end in
      Some (json_object [("type", json_string "tool_result"); ("tool_use_id", JString (tr_id r));
                         ("content", content); ("is_error", JBool (result_is_error r))])
  | BImage media_type data => Some (image_source media_type data)
  end.
Definition translate_blocks (m : Message) : list Json := omap translate_block (content m).

Definition block_text (b : Json) : option Text :=
  if bool_decide (as_str (json_at b (txt "type")) = Some (txt "text"))
  then as_str (json_at b (txt "text")) else None.
(** Plain text where there is nothing else. *)
Definition anthropic_content (blocks : list Json) : Json :=
  match mapM block_text blocks with
  | Some parts => JString (Chars.join [LF] parts)
  | None => JArray blocks
  end.

Record Translation := mkTranslation {
  system : list Text;
  turns : list (Text * list Json);
  in_leading_system : bool;
}.
Definition add_turn (turns : list (Text * list Json)) (role : Text) (blocks : list Json)
    : list (Text * list Json) :=
  match blocks, rev turns with
  | [], _ => turns
  | _, (last_role, last_blocks) :: before =>
      if bool_decide (last_role = role)
      then (rev before ++ [(last_role, last_blocks ++ blocks)])%list
      else (turns ++ [(role, blocks)])%list
  | _, [] => [(role, blocks)]
  end.
Definition translate_step (t : Translation) (m : Message) : Translation :=
  if in_leading_system t && bool_decide (role m = RSystem) then
    mkTranslation (system t ++ omap (λ b, match b with BText t => Some t | _ => None end) (content m))%list
      (turns t) true
  else mkTranslation (system t) (add_turn (turns t) (anthropic_role (role m)) (translate_blocks m)) false.
Definition translate_messages (messages : list Message) : list Text * list Json :=
  let t := fold_left translate_step messages (mkTranslation [] [] true) in
  (system t, (λ '(role, blocks), json_object [("role", JString role); ("content", anthropic_content blocks)]) <$> turns t).
End AnthropicWire.

(** ** A conversation as it is sent: the theorems

    A history in which every call is answered stays one on both wires: read back
    from the JSON that is sent, every call is answered before anything else is
    said. *)

#[local] Open Scope nat_scope.
#[local] Open Scope list_scope.

(** The role of a message on a wire. *)
Definition wire_role (j : Json) : Text := default [] (as_str (json_at j (txt "role"))).

Lemma map_get_set_ne k k' v m :
  txt k ≠ txt k' → map_get (txt k) (OpenAiWire.set_field k' v m) = map_get (txt k) m.
Proof. apply map_get_insert_ne. Qed.
Lemma map_get_set k v m : map_get (txt k) (OpenAiWire.set_field k v m) = Some v.
Proof. apply map_get_insert. Qed.

(** ** The OpenAI wire *)

Module OpenAiSaid.
Import OpenAiWire.
Section said.
Context (json_text : Json → Text).

(** The ids of the calls of a message, and the id that one answers. *)
Definition wire_calls (j : Json) : list Text :=
  omap (λ c, as_str (json_at c (txt "id"))) (default [] (as_array (json_at j (txt "tool_calls")))).
Definition wire_answer (j : Json) : Text := default [] (as_str (json_at j (txt "tool_call_id"))).

Definition drop_id (i : Text) (open : list Text) : list Text := List.filter (λ x, negb (bool_decide (x = i))) open.
(** The calls open after a message of the wire, if it may be sent: a tool reply
    answers a call still open, and all else waits until none is. *)
Definition wire_say (open : list Text) (j : Json) : option (list Text) :=
  if bool_decide (wire_role j = txt "tool") then
    if bool_decide (wire_answer j ∈ open) then Some (drop_id (wire_answer j) open) else None
  else if bool_decide (open = []) then Some (wire_calls j) else None.
Fixpoint wire_says (open : list Text) (js : list Json) : option (list Text) :=
  match js with
  | [] => Some open
  | j :: js => o ← wire_say open j; wire_says o js
  end.
Lemma wire_says_app open a b : wire_says open (a ++ b) = (o ← wire_says open a; wire_says o b).
Proof.
  revert open. induction a as [|j a IH]; intros open; [done|]. cbn [wire_says app].
  destruct (wire_say open j); [apply IH|done].
Qed.

(** What the wire cannot carry: two results for one call in a message, and an
    image beside calls. *)
Definition images_of (m : Message) : list ContentBlock :=
  List.filter (λ b, match b with BImage _ _ => true | _ => false end) (content m).
Definition carriable (m : Message) : Prop := NoDup (results m) ∧ (uses m ≠ [] → images_of m = []).

(** Metadata never takes the place of a call's own fields. *)
Lemma or_insert_keeps k m fields v : map_get k m = Some v → map_get k (fold_left or_insert fields m) = Some v.
Proof.
  revert m. induction fields as [|[k' v'] fields IH]; intros m Hk; [done|]. cbn [fold_left]. apply IH.
  unfold or_insert. cbn [fst snd]. destruct (map_get k' m) eqn:Hk'; [done|].
  rewrite map_get_insert_ne; [done|]. intros ->. congruence.
Qed.
Lemma tool_call_id call : as_str (json_at (tool_call json_text call) (txt "id")) = Some (tc_id call).
Proof.
  unfold tool_call, json_at, json_get. cbv zeta.
  rewrite (or_insert_keeps _ _ _ (JString (tc_id call))); [done|]. vm_compute. reflexivity.
Qed.

Lemma gathered bs g :
  let g' := fold_left (gather json_text) bs g in
  tool_calls g' = tool_calls g ++ omap (λ b, match b with BToolUse c => Some (tool_call json_text c) | _ => None end) bs ∧
  length (images g') = length (images g) +
    length (List.filter (λ b, match b with BImage _ _ => true | _ => false end) bs).
Proof.
  revert g. induction bs as [|b bs IH]; intros g; cbn [fold_left]; [split; [by rewrite app_nil_r|cbn; lia]|].
  destruct (IH (gather json_text g b)) as [-> ->].
  destruct b; cbn [gather tool_calls images omap list_omap List.filter length]; rewrite ?length_app, <-?app_assoc;
    (split; [done|cbn; lia]).
Qed.

(** The object of a message that is no tool result. *)
Lemma said_object m o rt :
  role m ≠ RTool → (uses m ≠ [] → images_of m = []) →
  ∃ j, translate_message json_text m o rt = [j] ∧ wire_role j = default (role_str (role m)) o ∧ wire_calls j = uses m.
Proof.
  intros Hr Hi. unfold translate_message. destruct (gathered (content m) (mkGathered [] [] [] None None)) as [Hc Hg].
  cbv zeta in Hc, Hg. set (g := fold_left _ _ _) in *. cbn [tool_calls images length app] in Hc, Hg. rewrite Nat.add_0_l in Hg.
  set (obj := set_content g _).
  assert (Hrole : map_get (txt "role") obj = Some (JString (default (role_str (role m)) o)) ∧
    (default [] (map_get (txt "tool_calls") obj ≫= as_array)) = tool_calls g).
  { subst obj. unfold set_content. destruct (images g) as [|i rest] eqn:Him.
    - destruct (tool_calls g) as [|c cs]; rewrite ?map_get_set_ne, ?map_get_set by (vm_compute; congruence); [|done].
      split; [done|]. rewrite !map_get_set_ne by (vm_compute; congruence). done.
    - assert (Hu : uses m = []).
      { destruct (uses m) eqn:Hu; [done|]. unfold images_of in Hi. rewrite Hi in Hg by done. done. }
      assert (tool_calls g = []) as ->.
      { rewrite Hc. revert Hu. unfold uses. clear. induction (content m) as [|b bs IH]; [done|].
        destruct b; cbn; try done; apply IH. }
      rewrite !map_get_set_ne, map_get_set by (vm_compute; congruence). done. }
  destruct Hrole as [Hrole Hcalls].
  assert (Hsome : ∀ k k' v x, txt k ≠ txt k' → map_get (txt k) (set_some k' v x) = map_get (txt k) x).
  { intros k k' [v|] x Hne; [by apply map_get_set_ne|done]. }
  set (obj' := if rt then _ else obj).
  assert (Hobj : map_get (txt "role") obj' = map_get (txt "role") obj ∧
                 map_get (txt "tool_calls") obj' = map_get (txt "tool_calls") obj).
  { subst obj'. destruct rt; [|done]. rewrite !Hsome by (vm_compute; congruence). done. }
  clearbody obj obj'. destruct Hobj as [H1 H2].
  exists (JObject obj'). split; [by destruct (role m)|]. split.
  - unfold wire_role, json_at, json_get. by rewrite H1, Hrole.
  - unfold wire_calls.
    assert (default [] (as_array (json_at (JObject obj') (txt "tool_calls"))) = tool_calls g) as ->.
    { rewrite <-Hcalls. unfold json_at, json_get. rewrite H2. by destruct (map_get (txt "tool_calls") obj). }
    rewrite Hc. unfold uses. clear. induction (content m) as [|b bs IH]; [done|].
    destruct b; cbn [omap list_omap]; try exact IH. rewrite tool_call_id. f_equal. exact IH.
Qed.

Lemma said_reply r : wire_role (tool_reply r) = txt "tool" ∧ wire_answer (tool_reply r) = tr_id r.
Proof. by vm_compute. Qed.
Lemma said_images open js : open = [] → wire_says open (images_message js) = Some [].
Proof. intros ->. by destruct js. Qed.

(** Tool replies answer the open calls one by one. *)
Lemma said_replies bs open :
  let ids := omap (λ b, match b with BToolResult r => Some (tr_id r) | _ => None end) bs in
  NoDup ids → ids ⊆ open →
  wire_says open (omap (λ b, match b with BToolResult r => Some (tool_reply r) | _ => None end) bs) =
  Some (List.filter (λ i, negb (bool_decide (i ∈ ids))) open).
Proof.
  cbv zeta. revert open. induction bs as [|b bs IH]; intros open.
  - intros _ _. cbn. f_equal. induction open as [|i open IHo]; [done|]. cbn. by rewrite <-IHo.
  - destruct b; cbn [omap list_omap]; try apply IH. intros [Hn Hd]%list.NoDup_cons Hs. cbn [wire_says].
    unfold wire_say. destruct (said_reply result) as [-> ->].
    rewrite bool_decide_eq_true_2, bool_decide_eq_true_2 by (try done; apply Hs; by left). cbn [mbind option_bind].
    set (ids := omap _ bs) in *. rewrite IH; [|done|].
    + f_equal. unfold drop_id. clear. induction open as [|i open IHo]; [done|]. cbn [List.filter].
      destruct (decide (i = tr_id result)) as [->|Hne].
      * rewrite (bool_decide_eq_true_2 (_ = _)), (bool_decide_eq_true_2 (_ ∈ tr_id _ :: _)) by (try done; by left).
        exact IHo.
      * rewrite (bool_decide_eq_false_2 (i = _)) by done. cbn [negb List.filter].
        rewrite (bool_decide_ext (i ∈ tr_id result :: ids) (i ∈ ids)) by (rewrite elem_of_cons; tauto).
        destruct (negb _); [by rewrite IHo|exact IHo].
    + intros i Hi. unfold drop_id. apply list_elem_of_In, filter_In. split; [apply list_elem_of_In, Hs; by right|].
      apply negb_true_iff, bool_decide_eq_false_2. intros ->. done.
Qed.

Lemma said_step rt t m open0 open :
  carriable m → wire_says [] (out t) = Some open0 → say open0 m = Some open →
  wire_says [] (out (translate_step json_text rt t m)) = Some open.
Proof.
  intros [Hn Hi] Ho Hs. unfold translate_step. cbv zeta. cbn [out]. case_bool_decide as Hr.
  - rewrite wire_says_app, Ho. cbn [mbind option_bind]. unfold translate_message. rewrite Hr.
    unfold say in Hs. rewrite Hr in Hs. case_bool_decide as Hb; [|done]. destruct Hb as [_ Hb]. simplify_eq.
    by apply said_replies.
  - assert (open0 = []) as -> by (by eapply say_closed). rewrite !wire_says_app, Ho. cbn [mbind option_bind].
    rewrite said_images by done. cbn [mbind option_bind].
    set (o := if bool_decide _ && _ then _ else None).
    destruct (said_object m o rt Hr Hi) as (j & -> & Hj & Hu). cbn [wire_says]. unfold wire_say.
    rewrite Hj. rewrite bool_decide_eq_false_2.
    2: { subst o. destruct (role m); try done; cbn; try (vm_compute; congruence).
         case_match; vm_compute; congruence. }
    rewrite bool_decide_eq_true_2 by done. cbn [mbind option_bind]. rewrite Hu.
    clear -Hs Hr. unfold say in Hs. destruct (role m); [..|done|]; (case_bool_decide; [|done]); destruct_and?; congruence.
Qed.

Lemma said_all rt ms t open0 open :
  Forall carriable ms → wire_says [] (out t) = Some open0 → says open0 ms = Some open →
  wire_says [] (out (fold_left (translate_step json_text rt) ms t)) = Some open.
Proof.
  intros Hc. revert t open0. induction Hc as [|m ms Hm _ IH]; intros t open0 Ho; cbn [says fold_left]; [by intros [= <-]|].
  destruct (say open0 m) as [o|] eqn:Hs; [|done]. intros Hms. eapply IH; [|exact Hms]. by eapply said_step.
Qed.

(** ** System messages lead *)

Definition is_system (j : Json) : Prop := wire_role j = txt "system".
Definition system_leads (js : list Json) : Prop :=
  ∃ a b, js = a ++ b ∧ Forall is_system a ∧ Forall (λ j, ¬ is_system j) b.

Lemma leads_app js b : system_leads js → Forall (λ j, ¬ is_system j) b → system_leads (js ++ b).
Proof.
  intros (a & b0 & -> & Ha & Hb0) Hb. exists a, (b0 ++ b). rewrite <-app_assoc. split_and!; [done|done|].
  by apply list.Forall_app.
Qed.
Lemma images_no_system js : Forall (λ j, ¬ is_system j) (images_message js).
Proof. destruct js; [constructor|]. apply list.Forall_singleton. by vm_compute. Qed.

Record led (t : Translation) : Prop := {
  led_in : in_leading_system t = true → Forall is_system (out t) ∧ tool_images t = [];
  led_out : system_leads (out t);
}.
Lemma led_step rt t m : carriable m → led t → led (translate_step json_text rt t m).
Proof.
  intros [_ Hi] [Hin Hout]. unfold translate_step. cbv zeta. case_bool_decide as Hr.
  - rewrite (bool_decide_eq_false_2 (role m = RSystem)) by congruence. rewrite andb_false_r.
    split; [done|]. cbn [out]. apply leads_app; [done|]. unfold translate_message. rewrite Hr.
    apply list.Forall_forall. intros j (b & _ & Hb)%list_elem_of_omap. destruct b; simplify_eq. by vm_compute.
  - set (o := if bool_decide _ && _ then _ else None).
    destruct (said_object m o rt Hr Hi) as (j & -> & Hj & _).
    destruct (in_leading_system t && bool_decide (role m = RSystem)) eqn:Hl.
    + apply andb_true_iff in Hl as [Hl Hs]. apply bool_decide_eq_true in Hs. destruct (Hin Hl) as [Ha Hti].
      assert (Hsys : is_system j) by (unfold is_system; rewrite Hj; subst o; by rewrite Hs, Hl).
      cbn [out in_leading_system tool_images]. rewrite Hti. cbn [images_message]. rewrite app_nil_r.
      assert (Hall : Forall is_system (out t ++ [j])) by (apply list.Forall_app; split; [done|by apply list.Forall_singleton]).
      split; [done|]. exists (out t ++ [j]), []. rewrite app_nil_r. by split_and!.
    + split; [done|]. cbn [out]. apply leads_app; [apply leads_app; [done|apply images_no_system]|].
      apply list.Forall_singleton. unfold is_system. rewrite Hj. subst o. clear -Hl Hr.
      destruct (role m), (in_leading_system t); cbn in Hl |- *; try done; vm_compute; congruence.
Qed.
Lemma led_all rt ms t : Forall carriable ms → led t → led (fold_left (translate_step json_text rt) ms t).
Proof. intros H. revert t. induction H as [|m ms Hm _ IH]; intros t Ht; [done|]. by apply IH, led_step. Qed.
End said.
End OpenAiSaid.

(** C13. A closed history stays closed on the OpenAI wire.  When every call of the
    history is answered, no message has an image beside calls (whose calls this
    wire loses) and none brings two results with one id, then, read back from
    the JSON that is sent, each tool reply answers a call that is still open, no
    other message comes before all are answered, and none is left open, whatever
    images the results bring and whatever the calls' metadata holds; and the
    messages of the system role are those at its front. *)
Theorem openai_wire_answers_calls json_text ms round_trip_reasoning :
  closed ms → Forall OpenAiSaid.carriable ms →
  OpenAiSaid.wire_says [] (OpenAiWire.translate_messages json_text ms round_trip_reasoning) = Some [] ∧
  OpenAiSaid.system_leads (OpenAiWire.translate_messages json_text ms round_trip_reasoning).
Proof.
  intros Hc Hm. unfold OpenAiWire.translate_messages. split.
  - rewrite OpenAiSaid.wire_says_app, (OpenAiSaid.said_all json_text _ _ _ [] []) by done.
    cbn [mbind option_bind]. by apply OpenAiSaid.said_images.
  - apply OpenAiSaid.leads_app; [|apply OpenAiSaid.images_no_system].
    apply OpenAiSaid.led_all; [done|]. split; [done|]. by exists [], [].
Qed.

(** ** The Anthropic wire *)

Module AnthropicSaid.
Import AnthropicWire.

(** The calls and the answers among blocks, and among those of a message as it is
    sent. *)
Definition block_id (kind key : string) (b : Json) : option Text :=
  if bool_decide (as_str (json_at b (txt "type")) = Some (txt kind)) then as_str (json_at b (txt key)) else None.
Definition block_uses (bs : list Json) : list Text := omap (block_id "tool_use" "id") bs.
Definition block_answers (bs : list Json) : list Text := omap (block_id "tool_result" "tool_use_id") bs.
Definition wire_blocks (j : Json) : list Json := default [] (as_array (json_at j (txt "content"))).

(** A turn of the wire: an assistant speaks when nothing is open and answers
    nothing; a user's turn calls nothing and answers all that is open. *)
Definition wire_say (open : list Text) (j : Json) : option (list Text) :=
  let uses := block_uses (wire_blocks j) in
  let answers := block_answers (wire_blocks j) in
  if bool_decide (wire_role j = txt "assistant") then
    if bool_decide (open = [] ∧ answers = []) then Some uses else None
  else if bool_decide (uses = [] ∧ answers ⊆ open ∧ open ⊆ answers) then Some [] else None.
Fixpoint wire_says (open : list Text) (js : list Json) : option (list Text) :=
  match js with
  | [] => Some open
  | j :: js => o ← wire_say open j; wire_says o js
  end.
(** No two turns in a row are of one role. *)
Definition alternates (roles : list Text) : Prop := ∀ i r, roles !! i = Some r → roles !! S i ≠ Some r.

(** ** Turns *)

Definition turn_say (open : list Text) (t : Text * list Json) : option (list Text) :=
  let '(role, bs) := t in
  if bool_decide (role = txt "assistant") then
    if bool_decide (open = [] ∧ block_answers bs = []) then Some (block_uses bs) else None
  else if bool_decide (block_uses bs = [] ∧ block_answers bs ⊆ open)
    then Some (List.filter (λ i, negb (bool_decide (i ∈ block_answers bs))) open) else None.
Fixpoint turns_say (open : list Text) (ts : list (Text * list Json)) : option (list Text) :=
  match ts with
  | [] => Some open
  | t :: ts => o ← turn_say open t; turns_say o ts
  end.
Lemma turns_say_app open a b : turns_say open (a ++ b) = (o ← turns_say open a; turns_say o b).
Proof.
  revert open. induction a as [|t a IH]; intros open; [done|]. cbn [turns_say app].
  destruct (turn_say open t); [apply IH|done].
Qed.

Lemma uses_translated m : block_uses (translate_blocks m) = uses m ∧ block_answers (translate_blocks m) = results m.
Proof.
  unfold translate_blocks, uses, results, block_uses, block_answers.
  induction (content m) as [|b bs [IH1 IH2]]; [done|].
  destruct b as [t|t [sg|] md|c|r|mt d]; cbn [omap list_omap translate_block]; rewrite ?IH1, ?IH2; done.
Qed.

Definition ASSISTANT : Text := txt "assistant".
Lemma user_is_no_assistant : bool_decide (txt "user" = ASSISTANT) = false.
Proof. by vm_compute. Qed.
Lemma filter_none (open : list Text) : List.filter (λ i, negb (bool_decide (i ∈ @nil Text))) open = open.
Proof. induction open as [|i open IH]; [done|]. cbn. by rewrite IH. Qed.

Lemma said_turn open m o :
  say open m = Some o → turn_say open (anthropic_role (role m), translate_blocks m) = Some o.
Proof.
  unfold say, turn_say. destruct (uses_translated m) as [-> ->]. fold ASSISTANT.
  assert (Hsilent : (if bool_decide (open = [] ∧ uses m = [] ∧ results m = []) then Some [] else None) = Some o →
    (if bool_decide (txt "user" = ASSISTANT)
     then if bool_decide (open = [] ∧ results m = []) then Some (uses m) else None
     else if bool_decide (uses m = [] ∧ results m ⊆ open)
          then Some (List.filter (λ i, negb (bool_decide (i ∈ results m))) open) else None) = Some o).
  { rewrite user_is_no_assistant. case_bool_decide as Hb; [|done]. destruct Hb as (-> & -> & ->).
    by rewrite bool_decide_eq_true_2. }
  destruct (role m); cbn [anthropic_role]; [exact Hsilent|exact Hsilent|done| |exact Hsilent].
  by rewrite user_is_no_assistant.
Qed.
Lemma said_nothing open m o : translate_blocks m = [] → say open m = Some o → o = open.
Proof.
  intros Hb. destruct (uses_translated m) as [Hu Ha]. rewrite Hb in Hu, Ha. cbn in Hu, Ha.
  unfold say. rewrite <-Hu, <-Ha. destruct (role m); (case_bool_decide as Hc; [|done]); intros [= <-];
    [by destruct Hc as (-> & _)..|apply filter_none|by destruct Hc as (-> & _)].
Qed.

(** Blocks that join the last turn. *)
Lemma block_uses_app a b : block_uses (a ++ b) = block_uses a ++ block_uses b.
Proof. apply omap_app. Qed.
Lemma block_answers_app a b : block_answers (a ++ b) = block_answers a ++ block_answers b.
Proof. apply omap_app. Qed.
Lemma turn_joined role a b o1 o2 o3 :
  turn_say o1 (role, a) = Some o2 → turn_say o2 (role, b) = Some o3 → turn_say o1 (role, a ++ b) = Some o3.
Proof.
  unfold turn_say. rewrite block_uses_app, block_answers_app. destruct (bool_decide (role = _)).
  - case_bool_decide as H1; [|done]. destruct H1 as [-> ->]. intros [= <-].
    case_bool_decide as H2; [|done]. destruct H2 as [-> ->]. intros [= <-]. by rewrite bool_decide_eq_true_2.
  - case_bool_decide as H1; [|done]. destruct H1 as [-> Ha]. intros [= <-].
    case_bool_decide as H2; [|done]. destruct H2 as [-> Hb]. intros [= <-].
    rewrite bool_decide_eq_true_2.
    + f_equal. clear. induction o1 as [|i o1 IH]; [done|]. cbn [List.filter].
      destruct (bool_decide (i ∈ block_answers a)) eqn:Hi; cbn [negb].
      * apply bool_decide_eq_true in Hi. rewrite bool_decide_eq_true_2 by (apply elem_of_app; by left). exact IH.
      * apply bool_decide_eq_false in Hi. cbn [List.filter].
        rewrite (bool_decide_ext (i ∈ block_answers a ++ block_answers b) (i ∈ block_answers b))
          by (rewrite elem_of_app; tauto).
        destruct (negb _); [by rewrite IH|exact IH].
    + split; [done|]. intros i [Hi|Hi]%elem_of_app; [by apply Ha|].
      apply Hb, list_elem_of_In, filter_In in Hi as [Hi _]. by apply list_elem_of_In.
Qed.

(** What the turns are, so far. *)
Definition two_roles (t : Text * list Json) : Prop := fst t = ASSISTANT ∨ fst t = txt "user".
Record turning (open : list Text) (ts : list (Text * list Json)) : Prop := {
  tu_says : turns_say [] ts = Some open;
  tu_alternates : alternates (fst <$> ts);
  tu_roles : Forall two_roles ts;
}.
Lemma alternates_snoc rs r : alternates rs → last rs ≠ Some r → alternates (rs ++ [r]).
Proof.
  intros Ha Hl i x Hi Hs. assert (Hlt : S i < length (rs ++ [r])) by by eapply lookup_lt_Some.
  rewrite length_app in Hlt. cbn in Hlt. rewrite lookup_app_l in Hi by lia.
  destruct (decide (S i < length rs)); [rewrite lookup_app_l in Hs by lia; exact (Ha _ _ Hi Hs)|].
  rewrite lookup_app_r in Hs by lia. replace (S i - length rs) with 0 in Hs by lia. cbn in Hs. simplify_eq.
  apply Hl. rewrite last_lookup. by replace (pred (length rs)) with i by lia.
Qed.

Lemma add_turn_ok ts role bs open o :
  (role = ASSISTANT ∨ role = txt "user") → turning open ts → turn_say open (role, bs) = Some o →
  bs ≠ [] → turning o (add_turn ts role bs).
Proof.
  intros Hr [Hs Ha Htr] Ho Hbs. unfold add_turn. destruct bs as [|b bs]; [done|]. set (l := b :: bs) in *. clearbody l.
  destruct (rev ts) as [|[r lb] before] eqn:Hrev.
  - apply (f_equal (@rev _)) in Hrev. rewrite rev_involutive in Hrev. subst ts. cbn in Hs. simplify_eq.
    split; [cbn [turns_say]; by rewrite Ho|by intros [|i] x|by apply list.Forall_singleton].
  - apply (f_equal (@rev _)) in Hrev. rewrite rev_involutive in Hrev. cbn [rev] in Hrev. subst ts.
    set (ts := rev before) in *. clearbody ts.
    rewrite turns_say_app in Hs. destruct (turns_say [] ts) as [o1|] eqn:Ho1; [|done].
    cbn [mbind option_bind turns_say] in Hs. destruct (turn_say o1 (r, lb)) as [o2|] eqn:Ho2; [|done].
    cbn [mbind option_bind] in Hs. simplify_eq. rewrite fmap_app in Ha. case_bool_decide as Hrr; [subst r|].
    + split.
      * rewrite turns_say_app, Ho1. cbn [mbind option_bind turns_say]. by rewrite (turn_joined _ _ _ _ _ _ Ho2 Ho).
      * by rewrite fmap_app.
      * apply list.Forall_app in Htr as [Ht _]. apply list.Forall_app. split; [done|]. by apply list.Forall_singleton.
    + split.
      * rewrite !turns_say_app, Ho1. cbn [mbind option_bind turns_say]. rewrite Ho2. cbn [mbind option_bind]. by rewrite Ho.
      * rewrite fmap_app. apply alternates_snoc; [by rewrite fmap_app|]. rewrite fmap_app. change (fst <$> [(r, lb)]) with [r]. rewrite last_snoc. by intros [= Heq].
      * apply list.Forall_app. split; [done|]. by apply list.Forall_singleton.
Qed.

Lemma role_of m : anthropic_role (role m) = ASSISTANT ∨ anthropic_role (role m) = txt "user".
Proof. destruct (role m); [by right|by right|by left|by right|by right]. Qed.

Lemma turning_step t m open o :
  turning open (turns t) → say open m = Some o → turning o (turns (translate_step t m)).
Proof.
  intros Ht Hs. unfold translate_step. destruct (in_leading_system t && bool_decide (role m = RSystem)) eqn:Hl.
  - apply andb_true_iff in Hl as [_ Hr]. apply bool_decide_eq_true in Hr. cbn [turns].
    unfold say in Hs. rewrite Hr in Hs. case_bool_decide as Hb; [|done]. destruct Hb as (-> & _). by simplify_eq.
  - cbn [turns]. destruct (translate_blocks m) as [|b bs] eqn:Hb.
    + by rewrite (said_nothing _ _ _ Hb Hs).
    + eapply add_turn_ok; [apply role_of|done| |done]. rewrite <-Hb. by apply said_turn.
Qed.
Lemma turning_all ms t open o :
  turning open (turns t) → says open ms = Some o → turning o (turns (fold_left translate_step ms t)).
Proof.
  revert t open. induction ms as [|m ms IH]; intros t open Ht; cbn [says fold_left]; [by intros [= <-]|].
  destruct (say open m) as [o'|] eqn:Hs; [|done]. apply IH. by eapply turning_step.
Qed.

(** ** As sent *)

Definition as_sent (t : Text * list Json) : Json :=
  let '(role, blocks) := t in json_object [("role", JString role); ("content", anthropic_content blocks)]%string.

Lemma texts_have_no_ids bs parts :
  mapM block_text bs = Some parts → block_uses bs = [] ∧ block_answers bs = [].
Proof.
  intros H%mapM_Some. induction H as [|b t bs parts Hb _ [IH1 IH2]]; [done|].
  unfold block_uses, block_answers in *. cbn [omap list_omap]. unfold block_text in Hb.
  case_bool_decide as Ht; [|done]. unfold block_id. rewrite Ht.
  rewrite !bool_decide_eq_false_2 by (vm_compute; congruence). done.
Qed.
Lemma sent_blocks t :
  wire_role (as_sent t) = fst t ∧ block_uses (wire_blocks (as_sent t)) = block_uses (snd t) ∧
  block_answers (wire_blocks (as_sent t)) = block_answers (snd t).
Proof.
  destruct t as [role bs]. cbn [fst snd].
  assert (Hc : wire_blocks (as_sent (role, bs)) = default [] (as_array (anthropic_content bs))) by reflexivity.
  rewrite Hc. split; [reflexivity|]. unfold anthropic_content. destruct (mapM block_text bs) eqn:Hm; [|done].
  by destruct (texts_have_no_ids _ _ Hm) as [-> ->].
Qed.

Lemma strictly ts open :
  turns_say open ts = Some [] → alternates (fst <$> ts) → Forall two_roles ts →
  wire_says open (as_sent <$> ts) = Some [].
Proof.
  intros Hs Ha Hr. revert open Hs. induction Hr as [|t ts Ht Hts IH]; intros open Hs; [done|].
  cbn [fmap list_fmap wire_says turns_say] in *.
  assert (Ha' : alternates (fst <$> ts)) by (intros i x H1 H2; by apply (Ha (S i) x)).
  destruct (turn_say open t) as [o|] eqn:Ho; [|done]. cbn [mbind option_bind] in Hs.
  assert (wire_say open (as_sent t) = Some o) as ->; [|by apply IH].
  destruct (sent_blocks t) as (Hwr & Hwu & Hwa). unfold wire_say. rewrite Hwr, Hwu, Hwa. clear Hwr Hwu Hwa.
  destruct t as [role bs]. cbn [fst snd] in *. unfold turn_say in Ho. cbv zeta. case_bool_decide as Hra; [done|].
  case_bool_decide as Hb; [|done]. destruct Hb as [Hu Hb].
  assert (Hu' : role = txt "user") by (destruct Ht as [?|?]; [done|done]).
  assert (Hnil : o = []).
  { destruct Hts as [|t' ts Ht' _]; [cbn in Hs; congruence|]. assert (Ht1 : fst t' = ASSISTANT).
    { destruct Ht' as [|H]; [done|]. exfalso. apply (Ha 0 role); cbn; congruence. }
    cbn [turns_say] in Hs. destruct t' as [r' bs']. cbn in Ht1. subst r'. unfold turn_say in Hs.
    rewrite bool_decide_eq_true_2 in Hs by done. case_bool_decide as Hb'; [|done]. by destruct Hb'. }
  subst o. rewrite bool_decide_eq_true_2; [done|]. split_and!; [done|done|].
  intros i Hi. destruct (decide (i ∈ block_answers bs)) as [|Hn]; [done|]. exfalso.
  injection Ho as Ho. apply (not_elem_of_nil i). rewrite <-Ho. apply list_elem_of_In, filter_In.
  split; [by apply list_elem_of_In|]. by apply negb_true_iff, bool_decide_eq_false_2.
Qed.
End AnthropicSaid.

(** A closed history stays closed on the Anthropic wire: the turns alternate
    strictly between the two roles, and, read back from the JSON that is sent,
    every turn of the user answers all the calls of the assistant's turn before
    it and no others, and none is left open at the end. *)
Theorem anthropic_wire_answers_calls ms :
  closed ms →
  let sent := snd (AnthropicWire.translate_messages ms) in
  AnthropicSaid.wire_says [] sent = Some [] ∧ AnthropicSaid.alternates (wire_role <$> sent).
Proof.
  intros Hc. unfold AnthropicWire.translate_messages. cbv zeta. cbn [snd].
  set (t := fold_left _ _ _).
  assert (H : AnthropicSaid.turning [] (AnthropicWire.turns t)).
  { apply (AnthropicSaid.turning_all ms _ []); [|done]. split; [done|by intros i r|constructor]. }
  destruct H as [Hs Ha Hr]. change (λ '(role, blocks), _) with AnthropicSaid.as_sent. split; [by apply AnthropicSaid.strictly|].
  rewrite <-list_fmap_compose. erewrite list_fmap_ext; [exact Ha|].
  intros i x _. apply AnthropicSaid.sent_blocks.
Qed.

(** ** A sample conversation *)

Definition sample_call (id : string) : ContentBlock :=
  BToolUse (mkToolCall (txt id) (txt "read_file") (JObject []) (Some (json_object [("id", json_string "forged")]%string))).
Definition sample_result (id : string) (image : option ToolImage) : Message :=
  Message_new RTool [BToolResult (mkToolResult (txt id) (txt "fine") OutcomeOk image)].
Definition sample_history : list Message :=
  [Message_text RSystem (txt "be brief"); Message_text RUser (txt "look");
   Message_new RAssistant [BText (txt "two files"); sample_call "a"; sample_call "b"];
   sample_result "b" (Some (mkToolImage (txt "image/png") (txt "AA")));
   sample_result "a" None;
   Message_text RSystem (txt "a late note"); Message_text RUser (txt "and now?")].
Lemma sample_closed : closed sample_history.
Proof. vm_compute. reflexivity. Qed.
Lemma sample_carriable : Forall OpenAiSaid.carriable sample_history.
Proof.
  repeat (apply list.Forall_cons; split; [split; [repeat constructor; apply not_elem_of_nil|done]|]). constructor.
Qed.

Lemma openai_wire_answers_calls_witness :
  wire_role <$> OpenAiWire.translate_messages (λ _, txt "{}") sample_history false =
    txt <$> ["system"; "user"; "assistant"; "tool"; "tool"; "user"; "user"; "user"]%string ∧
  OpenAiSaid.wire_says [] (OpenAiWire.translate_messages (λ _, txt "{}") sample_history false) = Some [].
Proof.
  split; [vm_compute; reflexivity|].
  exact (proj1 (openai_wire_answers_calls (λ _, txt "{}") sample_history false sample_closed sample_carriable)).
Defined.
Lemma anthropic_wire_answers_calls_witness :
  wire_role <$> snd (AnthropicWire.translate_messages sample_history) =
    txt <$> ["user"; "assistant"; "user"]%string ∧
  AnthropicSaid.wire_says [] (snd (AnthropicWire.translate_messages sample_history)) = Some [].
Proof.
  split; [vm_compute; reflexivity|].
  exact (proj1 (anthropic_wire_answers_calls sample_history sample_closed)).
Defined.

(** An image beside calls takes their place: the calls are not sent, and the
    replies to them answer nothing. *)
Example image_beside_calls_loses_them :
  let ms := [Message_new RAssistant [sample_call "a"; BImage (txt "image/png") (txt "AA")]; sample_result "a" None] in
  closed ms ∧ OpenAiSaid.wire_says [] (OpenAiWire.translate_messages (λ _, txt "{}") ms false) = None.
Proof. split; vm_compute; reflexivity. Qed.
