(* ===== verification/Brief.v ===== *)
(** * The brief and its revision (localpilot-harness/src/brief.rs, binding.rs,
    error.rs)

    brief.md says what a project is to do: a name, a summary and lists under
    fixed headings, read leniently and written in one form.  A plan records the
    revision of the brief it was made for: the digest of a canonical form of the
    parsed brief.  The digest itself is a parameter. *)

From Stdlib Require Import String.
From stdpp Require Import base list numbers.
From S2P Require Import Prelude Monitor Utf8 Chars Message Json Fields.
From stdpp Require Import list.
#[local] Open Scope N_scope.
#[local] Open Scope list_scope.

(** workspace_state.rs: why a project cannot run its next step. *)
Inductive NotResumable :=
  | NoBrief
  | BriefBroken (detail : Text)
  | NoPlan
  | PlanBroken (detail : Text)
  | Unbound
  | StaleBinding (recorded current : Text)
  | BindingUnsupported (recorded : Text)
  | PlanFinished
  | OperationActive.

Inductive HarnessError :=
  | ProjectSetup (detail : Text)
  | MissingSection (document section : Text)
  | Malformed (document detail : Text)
  | Io (path source : Text)
  | ProviderFailed (detail : Text)
  | NotGitRepository
  | CannotResume (why : NotResumable).

(** [find_map] over the lines. *)
Definition first_found {A} (l : list (option A)) : option A := head (omap id l).
Definition title_after (text prefix : Text) : option Text :=
  title ← first_found ((λ line, trim <$> Chars.strip_prefix prefix (trim line)) <$> lines text);
  if bool_decide (title = []) then None else Some title.

(** ** Reading *)

Definition DOCUMENT : Text := txt "brief.md".
Record Brief := mkBrief {
  name : Text;
  summary : Text;
  requirements : list Text;
  constraints : list Text;
  non_goals : list Text;
  acceptance_criteria : list Text;
  risks : list Text;
}.

Definition Section_ : Type := Text * list Text.
Definition heading (line : Text) : option Text := Chars.strip_prefix (txt "## ") (trim line).
Definition section_line (sections : list Section_) (line : Text) : list Section_ :=
  match heading line, rev sections with
  | Some header, _ => sections ++ [(trim header, [])]
  | None, (header, body) :: before => rev before ++ [(header, body ++ [line])]
  | None, [] => sections
  end.
Definition split_sections (text : Text) : list Section_ := fold_left section_line (lines text) [].

Definition find_section (sections : list Section_) (name : Text) : option (list Text) :=
  snd <$> List.find (λ s, bool_decide (fst s = name)) sections.
Definition require (sections : list Section_) (name : Text) : result (list Text) HarnessError :=
  ok_or (find_section sections name) (MissingSection DOCUMENT name).
Definition optional (sections : list Section_) (name : Text) : list Text := default [] (find_section sections name).

Definition bullet (line : Text) : option Text :=
  let trimmed := trim line in
  trim <$> match Chars.strip_prefix (txt "- ") trimmed with
           | Some rest => Some rest
           | None => Chars.strip_prefix (txt "* ") trimmed
           end.
Definition bullet_items (ls : list Text) : list Text :=
  List.filter (λ item, negb (bool_decide (item = []))) (omap bullet ls).

Definition parse (text : Text) : result Brief HarnessError :=
  let text := replace [CR; LF] [LF] text in
  let? name := ok_or (title_after text (txt "# Brief:"))
                     (Malformed DOCUMENT (txt "missing '# Brief: <name>' title")) in
  let sections := split_sections text in
  let? summary := require sections (txt "Summary") in
  let? requirements := require sections (txt "Requirements") in
  let? constraints := require sections (txt "Constraints") in
  let? non_goals := require sections (txt "Non-Goals") in
  let? acceptance_criteria := require sections (txt "Acceptance Criteria") in
  let risks := optional sections (txt "Risks & Rollback") in
  Ok (mkBrief name (trim (Chars.join [LF] summary)) (bullet_items requirements) (bullet_items constraints)
        (bullet_items non_goals) (bullet_items acceptance_criteria) (bullet_items risks)).

Definition add_requirement (text : Text) (b : Brief) : Brief :=
  mkBrief (name b) (summary b) (requirements b ++ [text]) (constraints b) (non_goals b) (acceptance_criteria b) (risks b).

(** ** Writing *)

Definition render_list (header : Text) (items : list Text) : Text :=
  line (txt "## " ++ header) ++ line []
  ++ concat ((λ item, line (txt "- " ++ item)) <$> items) ++ line [].
Definition render (b : Brief) : Text :=
  line (txt "# Brief: " ++ name b) ++ line [] ++ line (txt "## Summary") ++ line []
  ++ (if bool_decide (summary b = []) then [] else line (summary b) ++ line [])
  ++ render_list (txt "Requirements") (requirements b)
  ++ render_list (txt "Constraints") (constraints b)
  ++ render_list (txt "Non-Goals") (non_goals b)
  ++ render_list (txt "Acceptance Criteria") (acceptance_criteria b)
  ++ (if bool_decide (risks b = []) then [] else render_list (txt "Risks & Rollback") (risks b)).

(** ** The revision of a brief *)

Definition TAG_V1 : Text := txt "sha256-v1".

(** [u64::to_be_bytes]. *)
Fixpoint be_bytes (width : nat) (n : N) : Bytes :=
  match width with O => [] | S w => (n / 256 ^ N.of_nat w) mod 256 :: be_bytes w n end.
Definition length_bytes (n : nat) : Bytes := be_bytes 8 (N.of_nat n).
Definition length_prefixed (bytes : Bytes) : Bytes := length_bytes (length bytes) ++ bytes.
Definition field (tag : Text) (items : list Text) : Bytes :=
  length_prefixed (encode tag) ++ length_bytes (length items)
  ++ concat ((λ item, length_prefixed (encode (trim item))) <$> items).
Definition canonical_v1 (b : Brief) : Bytes :=
  field (txt "name") [name b] ++ field (txt "summary") [summary b]
  ++ field (txt "requirements") (requirements b) ++ field (txt "constraints") (constraints b)
  ++ field (txt "non_goals") (non_goals b) ++ field (txt "acceptance_criteria") (acceptance_criteria b)
  ++ field (txt "risks") (risks b).

Inductive BindingSupport := Current | Stale | Unsupported.

Definition is_hex_digit (c : N) : bool := digit c || ((97 <=? c) && (c <=? 102)).
Definition classify (revision recorded : Text) : BindingSupport :=
  let recorded := trim recorded in
  match split_once (txt ":") recorded with
  | None => Unsupported
  | Some (tag, hash) =>
      if negb (bool_decide (tag = TAG_V1)) then Unsupported
      else if negb (utf8_len hash =? 64)%nat || negb (forallb is_hex_digit hash) then Unsupported
      else if bool_decide (recorded = revision) then Current
      else Stale
  end.

(** The digest of some bytes, as lower-case hexadecimal digits. *)
Class Digest := sha256 : Bytes → Text.
Definition revision_of `{Digest} (b : Brief) : Text := TAG_V1 ++ txt ":" ++ sha256 (canonical_v1 b).

(** ** A sample *)

Definition DESCRIBED : Text :=
  unlines (txt <$> ["# Brief: parser errors"; ""; "## Summary"; ""; "Name the line."; "Keep it small."; "";
    "## Requirements"; ""; "- Report the line"; "- Name the section"; ""; "## Constraints"; ""; "- No dependencies"; "";
    "## Non-Goals"; ""; ""; "## Acceptance Criteria"; ""; "- A bad file names its section"; ""]%string).
Definition SAMPLE : Brief :=
  mkBrief (txt "parser errors") (txt "Name the line." ++ [LF] ++ txt "Keep it small.")
    [txt "Report the line"; txt "Name the section"] [txt "No dependencies"] [] [txt "A bad file names its section"] [].
Example sample_is_read : parse DESCRIBED = Ok SAMPLE.
Proof. vm_compute. reflexivity. Qed.
Example sample_is_written : render SAMPLE = DESCRIBED.
Proof. vm_compute. reflexivity. Qed.
Example padded_brief_is_read : parse (replace [LF] [32; CR; LF] DESCRIBED) =
  Ok (mkBrief (name SAMPLE) (txt "Name the line. " ++ [LF] ++ txt "Keep it small.") (requirements SAMPLE)
        (constraints SAMPLE) [] (acceptance_criteria SAMPLE) []).
Proof. vm_compute. reflexivity. Qed.
Example missing_section : parse (txt "# Brief: x") = Err (MissingSection DOCUMENT (txt "Summary")).
Proof. vm_compute. reflexivity. Qed.
