(* ===== verification/BriefProps.v ===== *)
(** * The brief document and the canonical form of a brief

    What is written is read back, and the form that a revision digests tells
    briefs apart. *)

From Stdlib Require Import String.
From stdpp Require Import base sets list numbers.
From S2P Require Import Prelude Monitor Utf8 Chars Message Json Fields Brief.
From stdpp Require Import list.
#[local] Open Scope N_scope.
#[local] Open Scope list_scope.

(** ** Texts and their lines *)

Lemma trim_start_app a b :
  Monitor.trim_start (a ++ b) = if is_blank a then Monitor.trim_start b else Monitor.trim_start a ++ b.
Proof. induction a as [|c a IH]; [done|]. cbn. by destruct (is_whitespace c). Qed.
Lemma trim_snoc t c : is_whitespace c = true → trim (t ++ [c]) = trim t.
Proof.
  intros Hc. unfold trim. rewrite trim_start_app. destruct (is_blank t) eqn:Hb.
  - apply trim_start_blank in Hb. rewrite Hb. cbn. by rewrite Hc.
  - unfold trim_end. rewrite rev_app_distr. cbn. by rewrite Hc.
Qed.
Lemma trim_cons t c : is_whitespace c = true → trim (c :: t) = trim t.
Proof. intros Hc. unfold trim. cbn. by rewrite Hc. Qed.

(** A property of lines that spaces at their ends do not matter to. *)
Section spaces.
Context (P : Text → Prop) (Hl : ∀ c t, is_whitespace c = true → P (c :: t) ↔ P t)
        (Hr : ∀ c t, is_whitespace c = true → P (t ++ [c]) ↔ P t).

Lemma split_space_l s cur c : is_whitespace c = true →
  Forall P (split_on LF (c :: cur) s) ↔ Forall P (split_on LF cur s).
Proof.
  intros Hc. revert cur. induction s as [|d s IH]; intros cur; cbn [split_on].
  - by rewrite !list.Forall_singleton, Hl.
  - destruct (d =? LF); [by rewrite !list.Forall_cons, Hl|]. apply (IH (cur ++ [d])).
Qed.
Lemma split_space_r s cur c : is_whitespace c = true →
  Forall P (split_on LF cur (s ++ [c])) → Forall P (split_on LF cur s).
Proof.
  intros Hc. revert cur. induction s as [|d s IH]; intros cur; cbn [app split_on].
  - intros H. apply list.Forall_singleton. destruct (c =? LF); apply list.Forall_cons in H as [H _]; [done|by apply Hr in H].
  - destruct (d =? LF); [|by apply IH]. rewrite !list.Forall_cons. intros []. auto.
Qed.
Lemma split_trim_start s : Forall P (split_char LF s) → Forall P (split_char LF (Monitor.trim_start s)).
Proof.
  unfold split_char. induction s as [|c s IH]; [done|]. cbn [Monitor.trim_start]. destruct (is_whitespace c) eqn:Hc; [|done].
  intros H. apply IH. cbn [split_on] in H. destruct (c =? LF); [by apply list.Forall_cons in H as [_ H]|].
  by apply (split_space_l s [] c Hc).
Qed.
Lemma split_trim s : Forall P (split_char LF s) → Forall P (split_char LF (trim s)).
Proof.
  intros H%split_trim_start. unfold trim, trim_end.
  destruct (trim_start_suffix (rev (Monitor.trim_start s))) as (q & Hq & Hb).
  apply (f_equal (@rev N)) in Hq. rewrite rev_involutive, rev_app_distr in Hq. rewrite Hq in H. clear Hq.
  induction q as [|c q IH]; [by rewrite app_nil_r in H|]. cbn in Hb. apply andb_true_iff in Hb as [Hc Hb].
  apply IH; [|done]. cbn [rev] in H. rewrite app_assoc in H. by eapply split_space_r.
Qed.
End spaces.

Lemma split_join_lines sep ts : ts ≠ [] → Forall (λ t, sep ∉ t) ts → split_char sep (Chars.join [sep] ts) = ts.
Proof.
  intros Hne Hts. unfold split_char. induction Hts as [|t [|u ts] Ht Hts IH]; [done| |].
  - cbn [Chars.join]. rewrite <-(app_nil_r t) at 1. by rewrite split_on_app.
  - change (Chars.join [sep] (t :: u :: ts)) with (t ++ sep :: Chars.join [sep] (u :: ts)).
    rewrite split_on_app by done. cbn [split_on app]. by rewrite N.eqb_refl, IH.
Qed.
Lemma split_on_ne sep cur s : split_on sep cur s ≠ [].
Proof. revert cur. induction s as [|c s IH]; intros cur; cbn [split_on]; [done|]. by destruct (c =? sep). Qed.
Lemma join_split sep s cur : Chars.join [sep] (split_on sep cur s) = cur ++ s.
Proof.
  revert cur. induction s as [|c s IH]; intros cur; cbn [split_on]; [by rewrite app_nil_r|].
  destruct (N.eqb_spec c sep) as [->|]; [|by rewrite IH, <-app_assoc].
  specialize (IH []). destruct (split_on sep [] s) as [|t ts] eqn:Hs; [by apply split_on_ne in Hs|].
  change (cur ++ [sep] ++ Chars.join [sep] (t :: ts) = cur ++ sep :: s). by rewrite IH.
Qed.
Lemma unlines_split s cur : unlines (split_on LF cur s) = line (cur ++ s).
Proof.
  revert cur. induction s as [|c s IH]; intros cur; cbn [split_on]; [by rewrite unlines_cons, !app_nil_r|].
  destruct (N.eqb_spec c LF) as [->|]; [|by rewrite IH, <-app_assoc].
  rewrite unlines_cons, IH. unfold line. by rewrite <-!app_assoc.
Qed.


(** ** The document *)

Definition item_ok (t : Text) : Prop := tidy t ∧ t ≠ [].
(** A line of the summary that is read back as itself. *)
Definition summary_line (l : Text) : Prop := heading l = None ∧ list.last l ≠ Some CR.

(** The lists of a brief under their headings. *)
Definition lists (b : Brief) : list (string * list Text) :=
  [("Requirements", requirements b); ("Constraints", constraints b); ("Non-Goals", non_goals b);
   ("Acceptance Criteria", acceptance_criteria b)]%string
  ++ (if bool_decide (risks b = []) then [] else [("Risks & Rollback"%string, risks b)]).
Record brief_ok (b : Brief) : Prop := {
  name_ok : item_ok (name b);
  summary_ok : trimmed (summary b) ∧ Forall summary_line (split_char LF (summary b));
  lists_ok : Forall (Forall item_ok) [requirements b; constraints b; non_goals b; acceptance_criteria b; risks b];
}.

Definition list_body (items : list Text) : list Text := [] :: ((λ item, txt "- " ++ item) <$> items) ++ [[]].
Definition list_lines (l : string * list Text) : list Text := (txt "## " ++ txt l.1) :: list_body l.2.
Definition summary_body (s : Text) : list Text :=
  [] :: (if bool_decide (s = []) then [] else split_char LF s ++ [[]]).
Definition brief_lines (b : Brief) : list Text :=
  (txt "# Brief: " ++ name b) :: [] :: txt "## Summary" :: summary_body (summary b) ++ (lists b ≫= list_lines).

Lemma render_list_unlines h items : render_list (txt h) items = unlines (list_lines (h, items)).
Proof.
  unfold render_list, list_lines, list_body. rewrite !unlines_cons, unlines_app, unlines_cons. cbn [fst snd].
  rewrite app_nil_r. do 3 f_equal. induction items as [|i items IH]; [done|]. cbn [fmap list_fmap concat].
  by rewrite unlines_cons, <-IH.
Qed.
Lemma summary_unlines s :
  unlines (summary_body s) = line [] ++ (if bool_decide (s = []) then [] else line s ++ line []).
Proof.
  unfold summary_body, split_char. rewrite unlines_cons. case_bool_decide; [done|].
  by rewrite unlines_app, unlines_split.
Qed.
Lemma brief_unlines b : render b = unlines (brief_lines b).
Proof.
  unfold render, brief_lines, lists. rewrite !render_list_unlines, bind_app, !unlines_cons, !unlines_app, summary_unlines.
  cbn [mbind list_bind]. rewrite !unlines_app, <-!app_assoc. do 9 f_equal. case_bool_decide; [done|].
  cbn [mbind list_bind]. by rewrite app_nil_r.
Qed.

(** ** Its lines are clean *)

Lemma item_clean t : item_ok t → clean t.
Proof. intros [Ht _]. by apply tidy_clean. Qed.
#[local] Hint Resolve item_clean : clean.
Lemma split_no_feed s l : l ∈ split_char LF s → LF ∉ l.
Proof. intros Hl Hc. by destruct (split_elem _ _ _ _ Hl Hc) as [_ ?]. Qed.
Lemma summary_clean s : Forall summary_line (split_char LF s) → Forall clean (summary_body s).
Proof.
  intros Hs. constructor; [auto with clean|]. case_bool_decide; [constructor|]. apply list.Forall_app. split.
  - apply list.Forall_forall. intros l Hl. split; [by eapply split_no_feed|].
    by apply (proj1 (list.Forall_forall _ _) Hs l Hl).
  - constructor; [auto with clean|constructor].
Qed.
Lemma list_clean h items : clean (txt h) → Forall item_ok items → Forall clean (list_lines (h, items)).
Proof.
  intros Hh Hi. unfold list_lines, list_body. cbn [fst snd].
  rewrite !list.Forall_cons, list.Forall_app, list.Forall_fmap. split_and!; auto with clean.
  eapply list.Forall_impl; [exact Hi|]. intros i Hit. apply clean_app; auto with clean.
Qed.
Lemma lists_props b (P : string * list Text → Prop) :
  brief_ok b → (∀ h items, h ∈ ["Requirements"; "Constraints"; "Non-Goals"; "Acceptance Criteria"; "Risks & Rollback"]%string →
    Forall item_ok items → P (h, items)) → Forall P (lists b).
Proof.
  intros Hb HP. pose proof (lists_ok _ Hb) as Hl. rewrite !list.Forall_cons in Hl. destruct Hl as (H1 & H2 & H3 & H4 & H5 & _).
  unfold lists. rewrite list.Forall_app, !list.Forall_cons. split_and!; try case_bool_decide; try constructor;
    try apply HP; try done; try constructor; by apply (bool_decide_unpack _).
Qed.
Lemma brief_clean b : brief_ok b → Forall clean (brief_lines b).
Proof.
  intros Hb. pose proof (name_ok _ Hb). destruct (summary_ok _ Hb) as [_ Hs]. unfold brief_lines.
  rewrite !list.Forall_cons, list.Forall_app. split_and!; auto with clean; [by apply summary_clean|].
  apply list.Forall_bind. apply lists_props; [done|]. intros h items Hh Hi. apply list_clean; [|done].
  apply literal_clean. repeat (apply elem_of_cons in Hh as [->|Hh]; [by vm_compute|]). by apply not_elem_of_nil in Hh.
Qed.
Lemma brief_read_lines b : brief_ok b → lines (replace [CR; LF] [LF] (render b)) = brief_lines b.
Proof.
  intros Hb. pose proof (brief_clean b Hb) as Hc. rewrite brief_unlines, replace_crlf_free by by apply unlines_crlf_free.
  by apply lines_unlines.
Qed.

(** ** Its sections are read back *)

Lemma section_body body secs h b0 :
  Forall (λ l, heading l = None) body →
  fold_left section_line body (secs ++ [(h, b0)]) = secs ++ [(h, b0 ++ body)].
Proof.
  intros Hb. revert b0. induction Hb as [|l body Hl _ IH]; intros b0; cbn [fold_left]; [by rewrite app_nil_r|].
  unfold section_line at 2. rewrite Hl, rev_app_distr. cbn [rev app]. by rewrite rev_involutive, IH, <-app_assoc.
Qed.
Lemma section_heading l h secs : heading l = Some h → section_line secs l = secs ++ [(trim h, [])].
Proof. intros Hh. unfold section_line. by rewrite Hh. Qed.
Lemma item_line t : item_ok t → trimmed (txt "- " ++ t).
Proof. intros [[Ht _] Hne]. by apply (trimmed_lead 45 [32]). Qed.
Lemma list_body_plain items : Forall item_ok items → Forall (λ l, heading l = None) (list_body items).
Proof.
  intros Hi. unfold list_body. rewrite list.Forall_cons, list.Forall_app, list.Forall_fmap.
  split_and!; [done| |by constructor]. eapply list.Forall_impl; [exact Hi|]. intros t Ht%item_line.
  unfold heading, compose, trimmed in *. by rewrite Ht.
Qed.
(** The headings read as they are written. *)
Definition plain_heading (h : string) : bool := bool_decide (trim <$> heading (txt "## " ++ txt h) = Some (txt h)).
Lemma section_list h items secs : plain_heading h = true → Forall item_ok items →
  fold_left section_line (list_lines (h, items)) secs = secs ++ [(txt h, list_body items)].
Proof.
  intros Hh%bool_decide_eq_true Hi. unfold list_lines. cbn [fst snd fold_left].
  apply fmap_Some in Hh as (h' & Hh & Ht). rewrite (section_heading _ h'), <-Ht by done.
  by rewrite section_body by by apply list_body_plain.
Qed.
Lemma section_lists ls secs : Forall (λ l, plain_heading l.1 = true ∧ Forall item_ok l.2) ls →
  fold_left section_line (ls ≫= list_lines) secs = secs ++ ((λ l, (txt l.1, list_body l.2)) <$> ls).
Proof.
  intros Hl. revert secs. induction Hl as [|[h items] ls [Hh Hi] _ IH]; intros secs; [by rewrite app_nil_r|].
  cbn [mbind list_bind]. rewrite fold_left_app. rewrite section_list, IH by done. by rewrite <-app_assoc.
Qed.
Lemma summary_plain s : Forall summary_line (split_char LF s) → Forall (λ l, heading l = None) (summary_body s).
Proof.
  intros Hs. constructor; [done|]. case_bool_decide; [constructor|]. apply list.Forall_app. split; [|by constructor].
  eapply list.Forall_impl; [exact Hs|]. by intros l [? _].
Qed.
Definition sections_of (b : Brief) : list Section_ :=
  (txt "Summary", summary_body (summary b)) :: ((λ l, (txt l.1, list_body l.2)) <$> lists b).
Lemma brief_sections b : brief_ok b → fold_left section_line (brief_lines b) [] = sections_of b.
Proof.
  intros Hb. destruct (summary_ok _ Hb) as [_ Hs]. unfold brief_lines. cbn [fold_left].
  assert (Hname : heading (txt "# Brief: " ++ name b) = None).
  { unfold heading. destruct (name_ok _ Hb) as [[Ht _] Hne].
    assert (trim (txt "# Brief: " ++ name b) = txt "# Brief: " ++ name b) as ->; [|done].
    by apply (trimmed_lead 35 [32; 66; 114; 105; 101; 102; 58; 32]). }
  unfold section_line at 4. rewrite Hname. cbn [rev].
  change (section_line (section_line [] []) (txt "## Summary")) with ([] ++ [(txt "Summary", @nil Text)]).
  rewrite fold_left_app, section_body by by apply summary_plain. rewrite section_lists; [done|].
  apply lists_props; [done|]. intros h items Hh Hi. split; [|done].
  repeat (apply elem_of_cons in Hh as [->|Hh]; [by vm_compute|]). by apply not_elem_of_nil in Hh.
Qed.

(** ** Its values are read back *)

Lemma bullet_item t : item_ok t → bullet (txt "- " ++ t) = Some t.
Proof.
  intros Ht. pose proof (item_line t Ht) as Hl. destruct Ht as [[Ht _] _]. unfold bullet, trimmed in *.
  rewrite Hl. cbn [Chars.strip_prefix]. rewrite strip_prefix_app. cbn. by rewrite Ht.
Qed.
Lemma items_read items : Forall item_ok items → bullet_items (list_body items) = items.
Proof.
  intros Hi. unfold bullet_items, list_body. change (omap bullet ([] :: ?l)) with (omap bullet l).
  rewrite omap_app. change (omap bullet [[]]) with (@nil Text). rewrite app_nil_r.
  induction Hi as [|t items Ht _ IH]; [done|]. cbn [fmap list_fmap omap list_omap].
  rewrite bullet_item by done. cbn [List.filter]. rewrite bool_decide_eq_false_2 by apply Ht. cbn [negb]. by f_equal.
Qed.
Lemma summary_read s : trimmed s → trim (Chars.join [LF] (summary_body s)) = s.
Proof.
  intros Hs. unfold summary_body. case_bool_decide as He; [by subst|].
  assert (Hj : ∀ ts, ts ≠ [] → Chars.join [LF] ([] :: ts ++ [[]]) = LF :: Chars.join [LF] ts ++ [LF]).
  { intros [|t ts] Hne; [done|]. cbn [app]. change (Chars.join [LF] ([] :: ?l)) with (LF :: Chars.join [LF] l). f_equal.
    clear Hne. revert t. induction ts as [|u ts IH]; intros t; [done|].
    change (t ++ [LF] ++ Chars.join [LF] (u :: ts ++ [[]]) = (t ++ [LF] ++ Chars.join [LF] (u :: ts)) ++ [LF]).
    by rewrite IH, <-!app_assoc. }
  unfold split_char. rewrite Hj by apply split_on_ne. rewrite join_split. cbn [app].
  by rewrite trim_cons, trim_snoc.
Qed.
Lemma brief_title b : brief_ok b →
  first_found ((λ line, trim <$> Chars.strip_prefix (txt "# Brief:") (trim line)) <$> brief_lines b) = Some (name b).
Proof.
  intros Hb. destruct (name_ok _ Hb) as [[Ht _] Hne]. unfold brief_lines, first_found. cbn [fmap list_fmap omap list_omap id].
  assert (trim (txt "# Brief: " ++ name b) = txt "# Brief:" ++ 32 :: name b) as ->.
  { by apply (trimmed_lead 35 [32; 66; 114; 105; 101; 102; 58; 32]). }
  rewrite strip_prefix_app. cbn [fmap option_fmap option_map head]. by rewrite trim_space.
Qed.

Lemma written_brief_is_read b : brief_ok b → parse (render b) = Ok b.
Proof.
  intros Hb. pose proof (brief_read_lines b Hb) as Hl. unfold parse.
  assert (title_after (replace [CR; LF] [LF] (render b)) (txt "# Brief:") = Some (name b)) as ->.
  { unfold title_after. rewrite Hl, brief_title by done. cbn. by rewrite bool_decide_eq_false_2 by apply Hb. }
  unfold split_sections. rewrite Hl, brief_sections by done. cbn [ok_or].
  destruct (summary_ok _ Hb) as [Hs _]. pose proof (lists_ok _ Hb) as Hi. rewrite !list.Forall_cons in Hi.
  destruct Hi as (H1 & H2 & H3 & H4 & H5 & _).
  assert (Hf : find_section (sections_of b) (txt "Summary") = Some (summary_body (summary b)) ∧
    find_section (sections_of b) (txt "Requirements") = Some (list_body (requirements b)) ∧
    find_section (sections_of b) (txt "Constraints") = Some (list_body (constraints b)) ∧
    find_section (sections_of b) (txt "Non-Goals") = Some (list_body (non_goals b)) ∧
    find_section (sections_of b) (txt "Acceptance Criteria") = Some (list_body (acceptance_criteria b))) by done.
  unfold require. destruct Hf as (-> & -> & -> & -> & ->). cbn [ok_or]. rewrite !items_read, summary_read by done.
  assert (bullet_items (optional (sections_of b) (txt "Risks & Rollback")) = risks b) as ->.
  { unfold sections_of, lists. case_bool_decide as Hr; [by rewrite Hr|].
    change (bullet_items (list_body (risks b)) = risks b). by apply items_read. }
  by destruct b.
Qed.

(** ** What is read can be written *)

Lemma brief_title_ok text prefix t : title_after text prefix = Some t → item_ok t.
Proof.
  unfold title_after. destruct (first_found _) as [title|] eqn:Hf; [|done]. cbn [mbind option_bind].
  case_bool_decide as Hne; [done|]. intros [= <-]. split; [|done]. unfold first_found in Hf.
  apply head_Some_elem_of, list_elem_of_omap in Hf as (o & Ho & Hs). cbn in Hs. subst o.
  apply list_elem_of_fmap in Ho as (l & Ho & Hl). symmetry in Ho. apply fmap_Some in Ho as (r & Hr & ->).
  apply trim_tidy. intros H. apply lines_no_feed in Hl. apply Hl, trim_elem. apply strip_prefix_Some in Hr as ->.
  apply elem_of_app. by right.
Qed.
(** The lines of a section: lines of the text that are no headings. *)
Definition section_of (text : list Text) (s : Section_) : Prop :=
  Forall (λ l, l ∈ text ∧ heading l = None) s.2.
Lemma section_line_ok text secs l : l ∈ text → Forall (section_of text) secs → Forall (section_of text) (section_line secs l).
Proof.
  intros Hl Hs. unfold section_line. destruct (heading l) as [h|] eqn:Hh.
  - apply list.Forall_app. split; [done|]. by repeat constructor.
  - destruct (rev secs) as [|[h body] before] eqn:Hr; [done|].
    apply (f_equal (@rev Section_)) in Hr. rewrite rev_involutive in Hr. rewrite Hr in Hs.
    apply list.Forall_app in Hs as [Hb Hlast]. apply list.Forall_app. split; [done|].
    apply list.Forall_cons in Hlast as [Hlast _]. constructor; [|constructor]. apply list.Forall_app. split; [done|].
    by repeat constructor.
Qed.
Lemma section_lines_ok text ls secs : ls ⊆ text → Forall (section_of text) secs →
  Forall (section_of text) (fold_left section_line ls secs).
Proof.
  revert secs. induction ls as [|l ls IH]; intros secs Hin Hs; [done|]. cbn [fold_left].
  apply IH; [set_solver|]. apply section_line_ok; [set_solver|done].
Qed.
Lemma split_sections_ok text : Forall (section_of (lines text)) (split_sections text).
Proof. by apply section_lines_ok; [|constructor]. Qed.
Lemma found_section_ok text name body :
  find_section (split_sections text) name = Some body → Forall (λ l, (LF ∉ l) ∧ heading l = None) body.
Proof.
  unfold find_section. intros Hf. apply fmap_Some in Hf as (s & Hf & ->). apply find_some in Hf as [Hf%list_elem_of_In _].
  eapply list.Forall_impl; [exact (proj1 (list.Forall_forall _ _) (split_sections_ok text) _ Hf)|].
  intros l [Hl Hh]. split; [by eapply lines_no_feed|done].
Qed.
Lemma bullets_ok body : Forall (λ l, (LF ∉ l) ∧ heading l = None) body → Forall item_ok (bullet_items body).
Proof.
  intros Hb. apply list.Forall_forall. intros t Ht%list_elem_of_In.
  apply filter_In in Ht as [Ht%list_elem_of_In Hne]. apply negb_true_iff, bool_decide_eq_false in Hne. split; [|done].
  apply list_elem_of_omap in Ht as (l & Hl & Ht). unfold bullet in Ht. apply fmap_Some in Ht as (r & Hr & ->).
  apply trim_tidy. intros H. destruct (proj1 (list.Forall_forall _ _) Hb l Hl) as [Hlf _]. apply Hlf, trim_elem.
  destruct (Chars.strip_prefix (txt "- ") (trim l)) as [r'|] eqn:Hp; [injection Hr as ->; apply strip_prefix_Some in Hp as ->|
    apply strip_prefix_Some in Hr as ->]; apply elem_of_app; by right.
Qed.
Lemma heading_space_l c t : is_whitespace c = true → heading (c :: t) = None ↔ heading t = None.
Proof. intros Hc. unfold heading. by rewrite trim_cons. Qed.
Lemma heading_space_r c t : is_whitespace c = true → heading (t ++ [c]) = None ↔ heading t = None.
Proof. intros Hc. unfold heading. by rewrite trim_snoc. Qed.
Lemma summary_headless body : Forall (λ l, (LF ∉ l) ∧ heading l = None) body →
  Forall (λ l, heading l = None) (split_char LF (trim (Chars.join [LF] body))).
Proof.
  intros Hb. apply split_trim; [apply heading_space_l|apply heading_space_r|].
  destruct body as [|l body]; [by constructor|]. rewrite split_join_lines; [|done|].
  - eapply list.Forall_impl; [exact Hb|]. by intros ? [].
  - eapply list.Forall_impl; [exact Hb|]. by intros ? [].
Qed.

(** No line of a text ends in a carriage return. *)
Definition no_return (s : Text) : Prop := Forall (λ l, list.last l ≠ Some CR) (split_char LF s).

Lemma read_brief_can_be_written t b : parse t = Ok b → no_return (summary b) → brief_ok b.
Proof.
  unfold parse. cbv zeta. set (text := replace _ _ t). intros Hp Hr.
  destruct (title_after text (txt "# Brief:")) as [n|] eqn:Hn; [|done]. cbn [ok_or] in Hp. unfold require in Hp.
  repeat match type of Hp with context [find_section (split_sections text) ?h] =>
    let E := fresh "E" in destruct (find_section (split_sections text) h) eqn:E; [|done]; cbn [ok_or] in Hp;
    apply found_section_ok in E end.
  injection Hp as <-. cbn [summary] in Hr. constructor; cbn [name summary requirements constraints non_goals acceptance_criteria risks].
  - by eapply brief_title_ok.
  - split; [apply trim_trimmed|]. apply list.Forall_and. split; [by apply summary_headless|done].
  - rewrite !list.Forall_cons. split_and!; try by apply bullets_ok. 2: by constructor.
    unfold optional. destruct (find_section _ _) eqn:Hrisk; [|by constructor]. apply found_section_ok in Hrisk. by apply bullets_ok.
Qed.

(** ** The canonical form *)

Lemma be_bytes_length w n : length (be_bytes w n) = w.
Proof. induction w as [|w IH]; cbn [be_bytes length]; by f_equal. Qed.
Lemma be_bytes_inj w m n : be_bytes w m = be_bytes w n → m < 256 ^ N.of_nat w → n < 256 ^ N.of_nat w → m = n.
Proof.
  assert (Hmod : ∀ w, be_bytes w m = be_bytes w n → m mod 256 ^ N.of_nat w = n mod 256 ^ N.of_nat w).
  { clear w. induction w as [|w IH]; intros He; [cbn; by rewrite !N.mod_1_r|]. cbn [be_bytes] in He.
    injection He as Hd He%IH. rewrite Nnat.Nat2N.inj_succ, N.pow_succ_r by lia. set (p := 256 ^ N.of_nat w) in *.
    assert (p ≠ 0) by (apply N.pow_nonzero; lia).
    by rewrite (N.mul_comm 256), !N.Div0.mod_mul_r, Hd, He. }
  intros He%Hmod Hm Hn. by rewrite !N.mod_small in He.
Qed.
Definition U64_LIMIT : N := 256 ^ 8.
Definition fits {A} (l : list A) : Prop := N.of_nat (length l) < U64_LIMIT.
Lemma length_bytes_app_inj m n r s :
  N.of_nat m < U64_LIMIT → N.of_nat n < U64_LIMIT → length_bytes m ++ r = length_bytes n ++ s → m = n ∧ r = s.
Proof.
  intros Hm Hn He. apply app_inj_1 in He as [He Hr]; [|by unfold length_bytes; rewrite !be_bytes_length].
  apply be_bytes_inj in He; [|done|done]. split; [lia|done].
Qed.
Lemma length_prefixed_app_inj x y r s :
  fits x → fits y → length_prefixed x ++ r = length_prefixed y ++ s → x = y ∧ r = s.
Proof.
  intros Hx Hy He. unfold length_prefixed in He. rewrite <-!app_assoc in He.
  apply length_bytes_app_inj in He as [Hl He]; [|done|done]. by apply app_inj_1 in He.
Qed.

(** A text as the program holds it, short enough for its length to be written. *)
Definition text_ok (t : Text) : Prop := forallb is_scalar t = true ∧ fits (encode (trim t)).
Lemma trim_scalar t : forallb is_scalar t = true → forallb is_scalar (trim t) = true.
Proof.
  intros Ht. apply forallb_forall. intros c Hc. apply (proj1 (forallb_forall _ _) Ht).
  apply list_elem_of_In, trim_elem. by apply list_elem_of_In.
Qed.
Lemma encode_inj s t : forallb is_scalar s = true → forallb is_scalar t = true → encode s = encode t → s = t.
Proof. intros Hs%decode_encode Ht%decode_encode He. rewrite He in Hs. congruence. Qed.

Lemma items_app_inj xs ys r s : Forall text_ok xs → Forall text_ok ys → length xs = length ys →
  concat ((λ i, length_prefixed (encode (trim i))) <$> xs) ++ r = concat ((λ i, length_prefixed (encode (trim i))) <$> ys) ++ s →
  trim <$> xs = trim <$> ys ∧ r = s.
Proof.
  intros Hx. revert ys. induction Hx as [|x xs [Hsx Hfx] _ IH]; intros ys Hy Hl He.
  { destruct ys; [by split|done]. }
  destruct Hy as [|y ys [Hsy Hfy] Hy]; [done|]. cbn [fmap list_fmap concat] in *. rewrite <-!app_assoc in He.
  apply length_prefixed_app_inj in He as [Hxy He]; [|done|done].
  apply IH in He as [Hi Hr]; [|done|by injection Hl]. split; [|done].
  apply encode_inj in Hxy; [|by apply trim_scalar..]. by f_equal.
Qed.
Lemma field_app_inj tag xs ys r s : Forall text_ok xs → Forall text_ok ys → fits xs → fits ys →
  field tag xs ++ r = field tag ys ++ s → trim <$> xs = trim <$> ys ∧ r = s.
Proof.
  intros Hx Hy Hfx Hfy He. unfold field in He. rewrite <-!app_assoc in He. apply app_inv_head in He.
  apply length_bytes_app_inj in He as [Hl He]; [|done|done]. by apply items_app_inj.
Qed.

(** A brief with the spaces around its items taken off. *)
Definition tidied (b : Brief) : Brief :=
  mkBrief (trim (name b)) (trim (summary b)) (trim <$> requirements b) (trim <$> constraints b)
    (trim <$> non_goals b) (trim <$> acceptance_criteria b) (trim <$> risks b).
Definition fields (b : Brief) : list (list Text) :=
  [[name b]; [summary b]; requirements b; constraints b; non_goals b; acceptance_criteria b; risks b].
Definition held (b : Brief) : Prop := Forall (λ items, Forall text_ok items ∧ fits items) (fields b).

#[export] Instance fits_dec {A} (l : list A) : Decision (fits l).
Proof. unfold fits. apply _. Defined.
#[export] Instance text_ok_dec t : Decision (text_ok t).
Proof. unfold text_ok. apply _. Defined.
#[export] Instance held_dec b : Decision (held b).
Proof. unfold held. apply _. Defined.

Lemma field_tidied tag items : field tag (trim <$> items) = field tag items.
Proof.
  unfold field. rewrite length_fmap. do 3 f_equal. rewrite <-list_fmap_compose. apply list_fmap_ext.
  intros _ x _. unfold compose. pose proof (trim_trimmed x) as Hx. unfold trimmed in Hx. by rewrite Hx.
Qed.
Lemma canonical_tidied b : canonical_v1 (tidied b) = canonical_v1 b.
Proof.
  unfold canonical_v1, tidied. cbn [name summary requirements constraints non_goals acceptance_criteria risks].
  change [trim (name b)] with (trim <$> [name b]). change [trim (summary b)] with (trim <$> [summary b]).
  by rewrite !field_tidied.
Qed.
Lemma canonical_inj a b : held a → held b → canonical_v1 a = canonical_v1 b → tidied a = tidied b.
Proof.
  unfold held, fields. intros Ha Hb He.
  do 7 (apply list.Forall_cons in Ha as [[? ?] Ha]; apply list.Forall_cons in Hb as [[? ?] Hb]).
  unfold canonical_v1 in He. rewrite <-(app_nil_r (field (txt "risks") (risks a))), <-(app_nil_r (field (txt "risks") (risks b))) in He.
  do 6 (apply field_app_inj in He as [? He]; [|done..]). apply field_app_inj in He as [? _]; [|done..].
  repeat match goal with H : trim <$> [_] = _ |- _ => injection H as H end.
  unfold tidied. by f_equal.
Qed.

(** ** The revision *)

(** What the digest prints: sixty-four lower-case hexadecimal digits. *)
Definition hex64 (t : Text) : Prop := (utf8_len t =? 64)%nat = true ∧ forallb is_hex_digit t = true.
Lemma hex_plain c : is_hex_digit c = true → is_whitespace c = false.
Proof.
  unfold is_hex_digit, is_whitespace, digit. rewrite !orb_true_iff, !andb_true_iff, !N.leb_le. intros H.
  apply not_true_is_false. rewrite ?orb_true_iff, ?andb_true_iff, ?N.leb_le, ?N.eqb_eq. lia.
Qed.
Lemma written_revision_trimmed hash : hex64 hash → trim (TAG_V1 ++ txt ":" ++ hash) = TAG_V1 ++ txt ":" ++ hash.
Proof.
  intros [Hl Hh]. change (trimmed (TAG_V1 ++ txt ":" ++ hash)). apply trimmed_ends. split; [by intros c [= <-]|].
  intros c Hc. destruct hash as [|d hash]; [done|].
  assert (Hlast : list.last (d :: hash) = Some c).
  { rewrite <-Hc. symmetry. rewrite app_assoc. apply last_app_cons. }
  apply hex_plain. apply (proj1 (forallb_forall _ _) Hh). apply list_elem_of_In. by apply last_Some_elem_of.
Qed.
Lemma classify_written revision hash : hex64 hash →
  classify revision (TAG_V1 ++ txt ":" ++ hash) =
    if bool_decide (TAG_V1 ++ txt ":" ++ hash = revision) then Current else Stale.
Proof.
  intros Hh. unfold classify. rewrite written_revision_trimmed by done.
  change (split_once (txt ":") (TAG_V1 ++ txt ":" ++ hash)) with (split_once [58] (TAG_V1 ++ [58] ++ hash)).
  rewrite split_once_app by by apply (bool_decide_unpack _). destruct Hh as [-> ->]. by rewrite bool_decide_eq_true_2.
Qed.
Lemma classify_trimmed revision recorded : classify revision (trim recorded) = classify revision recorded.
Proof. unfold classify. pose proof (trim_trimmed recorded) as H. unfold trimmed in H. by rewrite H. Qed.
Lemma split_once_eq sep s a b : split_once sep s = Some (a, b) → s = a ++ sep ++ b.
Proof.
  revert a. induction s as [|c s IH]; intros a; cbn [split_once].
  - destruct (Chars.strip_prefix sep []) as [r|] eqn:Hr; [|done]. intros [= <- <-]. cbn [app]. by apply strip_prefix_Some in Hr.
  - destruct (Chars.strip_prefix sep (c :: s)) as [r|] eqn:Hr; [intros [= <- <-]; cbn [app]; by apply strip_prefix_Some in Hr|].
    destruct (split_once sep s) as [[a' b']|]; [|done]. cbn. intros [= <- <-]. by rewrite (IH a').
Qed.
Lemma classify_unwritten revision recorded :
  (∀ hash, hex64 hash → trim recorded ≠ TAG_V1 ++ txt ":" ++ hash) → classify revision recorded = Unsupported.
Proof.
  intros Hno. unfold classify. destruct (split_once (txt ":") (trim recorded)) as [[tag hash]|] eqn:Hs; [|done].
  apply split_once_eq in Hs. case_bool_decide as Ht; [|done]. cbn [negb]. subst tag.
  destruct (utf8_len hash =? 64)%nat eqn:Hl; [|done]. destruct (forallb is_hex_digit hash) eqn:Hh; [|done].
  by destruct (Hno hash).
Qed.

(** ** Claims *)

(** The brief on disk and the brief in memory are the same thing: what
    [parse] accepts (without a stray carriage return at the end of a line of the
    summary), with any requirements added to it since, is read back from its
    rendering as it is.  So writing a brief after adding a requirement loses and
    changes nothing, and its revision is that of the brief it was. *)
Theorem brief_document_is_faithful t b added :
  parse t = Ok b → no_return (summary b) → Forall item_ok added →
  let b' := fold_left (λ b r, add_requirement r b) added b in
  parse (render b') = Ok b' ∧ requirements b' = requirements b ++ added ∧ acceptance_criteria b' = acceptance_criteria b.
Proof.
  intros Hp Hr Ha. pose proof (read_brief_can_be_written t b Hp Hr) as Hb. cbv zeta. clear Hp Hr.
  revert b Hb. induction Ha as [|r added Hr _ IH]; intros b Hb; cbn [fold_left].
  - split_and!; [by apply written_brief_is_read|by rewrite app_nil_r|done].
  - destruct (IH (add_requirement r b)) as (? & Hreq & ?).
    + destruct Hb as [Hn Hs Hl]. constructor; [done|done|]. cbn. rewrite !list.Forall_cons in *.
      destruct Hl as (? & ?). split; [|done]. apply list.Forall_app. split; [done|by constructor].
    + split_and!; [done|rewrite Hreq; cbn [add_requirement requirements]; by rewrite <-app_assoc|done].
Qed.
Lemma brief_document_is_faithful_witness :
  let b' := fold_left (λ b r, add_requirement r b) [txt "Stay fast"] SAMPLE in
  parse (render b') = Ok b' ∧ requirements b' = requirements SAMPLE ++ [txt "Stay fast"] ∧
  acceptance_criteria b' = acceptance_criteria SAMPLE.
Proof.
  apply (brief_document_is_faithful DESCRIBED).
  - vm_compute. reflexivity.
  - apply (bool_decide_unpack _). vm_compute. exact I.
  - constructor; [|constructor]. split; [split; [by vm_compute|by apply (bool_decide_unpack _)]|done].
Defined.

(** The stray return is lost: a summary read with one comes back without. *)
Example stray_return_is_lost :
  (λ b, (summary b, match parse (render b) with Ok b' => summary b' | Err _ => [] end)) <$>
    match parse (replace (txt "line.") (txt "line." ++ [CR; CR; CR]) DESCRIBED) with Ok b => Some b | Err _ => None end =
  Some (txt "Name the line." ++ [CR; LF] ++ txt "Keep it small.", txt "Name the line." ++ [LF] ++ txt "Keep it small.").
Proof. vm_compute. reflexivity. Qed.

(** C25. A recorded revision says whether the requirements are the ones a plan was
    made for.  As long as the digest does not collide on the two briefs, the
    revision of one is current for another exactly when they are the same up to
    spaces around their items, and stale otherwise: no text of one field can pass
    for the structure of the form.  A value that this format did not write is
    neither. *)
Theorem revision_tells_briefs_apart `{Digest} a b recorded :
  held a → held b → (∀ bytes, hex64 (sha256 bytes)) →
  (sha256 (canonical_v1 a) = sha256 (canonical_v1 b) → canonical_v1 a = canonical_v1 b) →
  (classify (revision_of a) (revision_of b) = Current ↔ tidied a = tidied b) ∧
  (classify (revision_of a) (revision_of b) = Stale ↔ tidied a ≠ tidied b) ∧
  (classify (revision_of a) recorded = Current ↔ trim recorded = revision_of a) ∧
  ((∀ hash, hex64 hash → trim recorded ≠ TAG_V1 ++ txt ":" ++ hash) →
     classify (revision_of a) recorded = Unsupported).
Proof.
  intros Ha Hb Hhex Hcol.
  assert (Hsame : revision_of b = revision_of a ↔ tidied a = tidied b).
  { unfold revision_of. split.
    - intros He%app_inv_head%app_inv_head. apply canonical_inj; [done|done|]. by apply Hcol.
    - intros He. by rewrite <-(canonical_tidied b), <-He, canonical_tidied. }
  assert (Hab : classify (revision_of a) (revision_of b) = if bool_decide (revision_of b = revision_of a) then Current else Stale).
  { by apply classify_written. }
  split_and!; [rewrite Hab, <-Hsame; by case_bool_decide|rewrite Hab, <-Hsame; by case_bool_decide| |by apply classify_unwritten].
  split.
  - clear Hab. unfold classify. destruct (split_once _ _) as [[tag hash]|]; [|done]. destruct (negb _); [done|].
    destruct (_ || _); [done|]. by case_bool_decide.
  - intros He. rewrite <-classify_trimmed, He. unfold revision_of. rewrite classify_written by done.
    by rewrite bool_decide_eq_true_2.
Qed.

(** A digest for the witness: the bytes folded into sixty-four digits. *)
Definition hex_digit (n : N) : N := if n <? 10 then 48 + n else 87 + n.
Fixpoint hex_digits (width : nat) (n : N) : Text :=
  match width with O => [] | S w => hex_digit (n mod 16) :: hex_digits w (n / 16) end.
Definition folded : Digest := λ bytes, hex_digits 64 (fold_left (λ h b, h * 257 + b + 1) bytes 0).
Lemma hex_digits_hex w n : forallb is_hex_digit (hex_digits w n) = true ∧ utf8_len (hex_digits w n) = w.
Proof.
  revert n. induction w as [|w IH]; intros n; [done|]. cbn [hex_digits forallb]. destruct (IH (n / 16)) as [Hh Hl].
  assert (Hd : is_hex_digit (hex_digit (n mod 16)) = true ∧ hex_digit (n mod 16) < 128).
  { assert (Hn : n mod 16 < 16) by (apply N.mod_lt; lia). generalize dependent (n mod 16). intros d Hd.
    unfold hex_digit, is_hex_digit, digit. destruct (N.ltb_spec d 10); rewrite orb_true_iff, !andb_true_iff, !N.leb_le; lia. }
  destruct Hd as [Hd Hs]. rewrite Hh, Hd. split; [done|]. unfold utf8_len in *. rewrite encode_cons, length_app, Hl.
  unfold encode_char. by rewrite (proj2 (N.ltb_lt _ _) Hs).
Qed.
Lemma revision_tells_briefs_apart_witness :
  (classify (@revision_of folded SAMPLE) (@revision_of folded (add_requirement (txt "Stay fast") SAMPLE)) = Stale ↔
     tidied SAMPLE ≠ tidied (add_requirement (txt "Stay fast") SAMPLE)) ∧
  classify (@revision_of folded SAMPLE) (32 :: @revision_of folded SAMPLE) = Current.
Proof.
  assert (Hheld : ∀ l, l = SAMPLE ∨ l = add_requirement (txt "Stay fast") SAMPLE → held l).
  { intros l Hl. apply (bool_decide_unpack _). destruct Hl as [-> | ->]; vm_compute; exact I. }
  destruct (@revision_tells_briefs_apart folded SAMPLE (add_requirement (txt "Stay fast") SAMPLE) (32 :: @revision_of folded SAMPLE))
    as (_ & H2 & H3 & _).
  - apply Hheld. by left.
  - apply Hheld. by right.
  - intros bytes. destruct (hex_digits_hex 64 (fold_left (λ h b, h * 257 + b + 1) bytes 0)) as [H1 H2].
    split; [|done]. by apply Nat.eqb_eq.
  - intros Hs. vm_compute in Hs. discriminate.
  - split; [exact H2|]. apply H3. vm_compute. reflexivity.
Defined.
