(* ===== verification/Progress.v ===== *)
(** * The plan document (localpilot-harness/src/progress.rs)

    PROGRESS.md is the plan the step loop works from: a header and numbered
    steps with the evidence of the finished ones.  It is read leniently, since
    people edit it, and written back in one form. *)

From Stdlib Require Import String.
From stdpp Require Import base list numbers.
From S2P Require Import Prelude Monitor Utf8 Chars Message Json Fields Brief.
From stdpp Require Import list.
#[local] Open Scope N_scope.
#[local] Open Scope list_scope.

Definition DOCUMENT : Text := txt "PROGRESS.md".

Definition malformed_plan {A} (detail : Text) : result A HarnessError := Err (Malformed DOCUMENT detail).

(** granularity.rs *)
Record WorkScope := mkScope { files : N; regions : N; decisions : N; changed_lines : N }.

Inductive Verification :=
  | Command (command : Text)
  | NoVerification (reason : Text).

Record Step := mkStep {
  number : N;
  description : Text;
  done : bool;
  commit : option Text;
  attempts : N;
  sessions : list Text;
  covers : option (list N);
  verify : option Verification;
  depends : option (list N);
  scope : option WorkScope;
}.
Record Progress := mkProgress {
  name : Text;
  branch : Text;
  brief_binding : option Text;
  steps : list Step;
}.

(** A step as its line gives it, and the fields its lines of detail set. *)
Definition bare_step (number : N) (description : Text) (done : bool) : Step :=
  mkStep number description done None 0 [] None None None None.
Definition set_commit v s := mkStep (number s) (description s) (done s) v (attempts s) (sessions s) (covers s) (verify s) (depends s) (scope s).
Definition set_tries v s := mkStep (number s) (description s) (done s) (commit s) v (sessions s) (covers s) (verify s) (depends s) (scope s).
Definition set_sessions v s := mkStep (number s) (description s) (done s) (commit s) (attempts s) v (covers s) (verify s) (depends s) (scope s).
Definition set_covers v s := mkStep (number s) (description s) (done s) (commit s) (attempts s) (sessions s) v (verify s) (depends s) (scope s).
Definition set_verify v s := mkStep (number s) (description s) (done s) (commit s) (attempts s) (sessions s) (covers s) v (depends s) (scope s).
Definition set_depends v s := mkStep (number s) (description s) (done s) (commit s) (attempts s) (sessions s) (covers s) (verify s) v (scope s).
Definition set_scope v s := mkStep (number s) (description s) (done s) (commit s) (attempts s) (sessions s) (covers s) (verify s) (depends s) v.
Definition set_steps v p := mkProgress (name p) (branch p) (brief_binding p) v.

(** ** Reading *)

Definition push_new (l : list N) (n : N) : list N := if bool_decide (n ∈ l) then l else l ++ [n].

Definition ac_digits (allow_ac : bool) (part : Text) : Text :=
  match part with
  | a :: c :: rest => if allow_ac && eq_ignore_ascii_case [a; c] (txt "ac") then rest else part
  | _ => part
  end.
Definition NOT_A_LIST (allow_ac : bool) : Text :=
  if allow_ac then txt "a list of criterion numbers like 'AC1, AC3' or '1, 3'"
  else txt "a list of step numbers like '1, 2'".
Definition quoted (t : Text) : Text := txt "'" ++ t ++ txt "'".
Fixpoint number_list (allow_ac : bool) (value : Text) (parts : list Text) (out : list N)
    : result (list N) HarnessError :=
  match parts with
  | [] => Ok out
  | part :: parts =>
      let digits := ac_digits allow_ac (trim part) in
      if bool_decide (digits = []) || negb (forallb digit digits)
      then malformed_plan (quoted value ++ txt " is not " ++ NOT_A_LIST allow_ac)
      else match parse_usize digits with
           | None => malformed_plan (quoted value ++ txt " is not " ++ NOT_A_LIST allow_ac)
           | Some n =>
               if n =? 0 then malformed_plan (quoted value ++ txt " contains 0; numbering starts at 1")
               else number_list allow_ac value parts (push_new out n)
           end
  end.
Definition parse_numbers (value : Text) (allow_ac : bool) : result (list N) HarnessError :=
  let value := trim value in
  if eq_ignore_ascii_case value (txt "none") then Ok []
  else number_list allow_ac value (split_char COMMA value) [].

Definition LONG_DASH : N := 0x2014.
Definition strip_none_prefix (value : Text) : option Text :=
  match value with
  | a :: b :: c :: d :: tail =>
      if eq_ignore_ascii_case [a; b; c; d] (txt "none")
      then match first_found ((λ separator, Chars.strip_prefix separator tail) <$>
                  [txt " - "; [32; LONG_DASH; 32]; txt " -- "; txt ": "]) with
           | Some reason => Some reason
           | None => if is_blank tail then Some [] else None
           end
      else None
  | _ => None
  end.
Definition NO_REASON : Text := txt "'verify: none' needs a reason - write 'verify: none - <why>'".
Definition parse_verification (value : Text) : result Verification HarnessError :=
  let value := trim value in
  if bool_decide (value = []) then malformed_plan (txt "empty 'verify:' - name the check, or 'none - <why>'")
  else match strip_none_prefix value with
       | Some reason => if is_blank reason then malformed_plan NO_REASON else Ok (NoVerification (trim reason))
       | None => Ok (Command value)
       end.

Definition parse_meta_line (line : Text) : option (Text * Text) :=
  rest ← Chars.strip_prefix (txt "- ") line;
  '(key, value) ← split_once (txt ":") rest;
  Some (trim key, trim value).

Definition SCOPE_ERROR : Text :=
  txt "scope requires four nonnegative counts: files, regions, decisions (>0), changed_lines; regions must cover files".
Definition parse_scope (value : Text) : result WorkScope HarnessError :=
  match (λ part, parse_usize (trim part)) <$> split_char COMMA value with
  | [Some f; Some r; Some d; Some c] =>
      if (0 <? d) && (f <=? r) then Ok (mkScope f r d c) else malformed_plan SCOPE_ERROR
  | _ => malformed_plan SCOPE_ERROR
  end.

Definition parse_step_line (line : Text) : result (option Step) HarnessError :=
  match Chars.strip_prefix (txt "- [") line with
  | None | Some [] => Ok None
  | Some (mark :: after) =>
      if negb (bool_decide (mark ∈ txt "xX ")) then Ok None
      else
        let done := negb (mark =? 32) in
        let? after := ok_or (Chars.strip_prefix (txt "] ") after)
                            (Malformed DOCUMENT (txt "malformed step checkbox: " ++ line)) in
        let? parts := ok_or (split_once (txt ". ") after)
                            (Malformed DOCUMENT (txt "step missing 'N. description': " ++ line)) in
        let? number := ok_or (parse_usize (trim (fst parts)))
                             (Malformed DOCUMENT (txt "invalid step number " ++ quoted (fst parts))) in
        Ok (Some (bare_step number (trim (snd parts)) done))
  end.

(** What a line of detail does to the last step. *)
Definition set_meta (key value : Text) (last : Step) : result Step HarnessError :=
  if bool_decide (key = txt "commit") then Ok (set_commit (Some value) last)
  else if bool_decide (key = txt "attempts") then
    let? n := ok_or (parse_u32 value) (Malformed DOCUMENT (txt "invalid attempts value " ++ quoted value)) in
    Ok (set_tries n last)
  else if bool_decide (key = txt "sessions") then
    Ok (set_sessions (sessions last ++
          List.filter (λ id, negb (bool_decide (id = []))) (trim <$> split_char COMMA value)) last)
  else if bool_decide (key = txt "covers") then
    let? ns := parse_numbers value true in Ok (set_covers (Some ns) last)
  else if bool_decide (key = txt "depends") then
    let? ns := parse_numbers value false in Ok (set_depends (Some ns) last)
  else if bool_decide (key = txt "verify") then
    let? v := parse_verification value in Ok (set_verify (Some v) last)
  else if bool_decide (key = txt "scope") then
    let? v := parse_scope value in Ok (set_scope (Some v) last)
  else Ok last.

Definition parse_line (found : list Step) (line : Text) : result (list Step) HarnessError :=
  let trimmed := Monitor.trim_start line in
  let? parsed := parse_step_line trimmed in
  match parsed with
  | Some step =>
      if existsb (λ s, number s =? number step) found
      then malformed_plan (txt "duplicate step number " ++ show_N (number step))
      else Ok (found ++ [step])
  | None =>
      match parse_meta_line trimmed, rev found with
      | Some (key, value), last :: before =>
          let? last := set_meta key value last in Ok (rev before ++ [last])
      | _, _ => Ok found
      end
  end.
Fixpoint parse_lines (found : list Step) (ls : list Text) : result (list Step) HarnessError :=
  match ls with
  | [] => Ok found
  | line :: ls => let? found := parse_line found line in parse_lines found ls
  end.

Definition header (text : Text) : list Text :=
  take_while (λ line, negb (starts_with (txt "## ") (Monitor.trim_start line))) (lines text).
Definition bindings (text : Text) : list Text :=
  trim <$> omap (λ line, Chars.strip_prefix (txt "Brief:") (trim line)) (header text).
Definition binding_of (text : Text) : result (option Text) HarnessError :=
  match bindings text with
  | [] => Ok None
  | [[]] => malformed_plan (txt "empty 'Brief:' line; a binding records a brief revision")
  | [value] => Ok (Some value)
  | several => malformed_plan (show_nat (length several) ++ txt " 'Brief:' lines; a plan records exactly one brief revision")
  end.

Definition parse (text : Text) : result Progress HarnessError :=
  let text := replace [CR; LF] [LF] text in
  let? name := ok_or (title_after text (txt "# Progress:"))
                     (Malformed DOCUMENT (txt "missing '# Progress: <name>' title")) in
  let? branch := ok_or (title_after text (txt "Branch:")) (Malformed DOCUMENT (txt "missing 'Branch:' line")) in
  let? brief_binding := binding_of text in
  let? steps := parse_lines [] (lines text) in
  Ok (mkProgress name branch brief_binding steps).

(** ** Writing *)

Definition render_numbers (numbers : list N) (prefix : Text) : Text :=
  match numbers with
  | [] => txt "none"
  | _ => Chars.join (txt ", ") ((λ n, prefix ++ show_N n) <$> numbers)
  end.
Definition render_verification (v : Verification) : Text :=
  match v with Command command => command | NoVerification reason => txt "none - " ++ reason end.
Definition render_scope (s : WorkScope) : Text :=
  show_N (files s) ++ txt ", " ++ show_N (regions s) ++ txt ", " ++ show_N (decisions s) ++ txt ", "
  ++ show_N (changed_lines s).

(** A line of detail, when there is something to write. *)
Definition detail (key : string) (value : option Text) : Text :=
  match value with Some v => line (txt "  - " ++ txt key ++ txt ": " ++ v) | None => [] end.
Definition session_list (l : list Text) : option Text :=
  if bool_decide (l = []) then None else Some (Chars.join (txt ", ") l).
Definition render_step (s : Step) : Text :=
  line (txt "- [" ++ (if done s then txt "x" else txt " ") ++ txt "] " ++ show_N (number s) ++ txt ". " ++ description s)
  ++ (if done s then
        detail "commit" (commit s)
        ++ detail "attempts" (if 0 <? attempts s then Some (show_N (attempts s)) else None)
        ++ detail "sessions" (session_list (sessions s))
      else [])
  ++ detail "covers" ((λ ns, render_numbers ns (txt "AC")) <$> covers s)
  ++ detail "verify" (render_verification <$> verify s)
  ++ detail "scope" (render_scope <$> scope s)
  ++ detail "depends" ((λ ns, render_numbers ns []) <$> depends s).

Definition render (p : Progress) : Text :=
  line (txt "# Progress: " ++ name p) ++ line (txt "Branch: " ++ branch p)
  ++ (match brief_binding p with Some b => line (txt "Brief: " ++ b) | None => [] end)
  ++ line [] ++ line (txt "## Steps") ++ line []
  ++ concat (render_step <$> steps p).

(** ** Operations *)

Definition next_incomplete (p : Progress) : option Step := List.find (λ s, negb (done s)) (steps p).
Definition completed_count (p : Progress) : nat := length (List.filter done (steps p)).
Definition step_is_done (n : N) (p : Progress) : bool := existsb (λ s, (number s =? n) && done s) (steps p).
Definition bind_to_brief (revision : Text) (p : Progress) : Progress :=
  mkProgress (name p) (branch p) (Some revision) (steps p).

Definition highest (l : list Step) : N := fold_right (λ s m, N.max (number s) m) 0 l.
Definition append_step (description : Text) (p : Progress) : Progress * N :=
  let number := u64_add (highest (steps p)) 1 in
  (set_steps (steps p ++ [bare_step number description false]) p, number).

(** [iter_mut().find]: the first step of a number, changed; whether there is one. *)
Fixpoint update_step (n : N) (f : Step → Step) (l : list Step) : list Step * bool :=
  match l with
  | [] => ([], false)
  | s :: l => if number s =? n then (f s :: l, true) else let '(l, b) := update_step n f l in (s :: l, b)
  end.
Definition complete (commit : option Text) (attempts : N) (s : Step) : Step :=
  mkStep (number s) (description s) true commit attempts (sessions s) (covers s) (verify s) (depends s) (scope s).
Definition mark_complete (n : N) (commit : option Text) (attempts : N) (p : Progress) : Progress * bool :=
  let '(l, found) := update_step n (complete commit attempts) (steps p) in (set_steps l p, found).
Definition record_sessions (n : N) (sessions : list Text) (p : Progress) : Progress * bool :=
  let '(l, found) := update_step n (set_sessions sessions) (steps p) in (set_steps l p, found).

(** ** A sample *)

Definition nl (ls : list string) : Text := unlines (txt <$> ls).
Definition PLANNED : Text :=
  nl ["# Progress: parser errors"; "Branch: feature/parser-errors"; "Brief: r7"; ""; "## Steps"; "";
      "- [x] 1. Write a failing test"; "  - commit: abc1234"; "  - attempts: 1"; "  - sessions: s-1, s-2";
      "  - covers: AC1, AC3"; "  - verify: cargo test parser"; "  - scope: 1, 2, 1, 40"; "  - depends: none";
      "- [ ] 2. Implement it"; "  - covers: none"; "  - verify: none - documentation only"; "  - depends: 1"]%string.
Example planned_is_read :
  parse PLANNED =
  Ok (mkProgress (txt "parser errors") (txt "feature/parser-errors") (Some (txt "r7"))
    [mkStep 1 (txt "Write a failing test") true (Some (txt "abc1234")) 1 [txt "s-1"; txt "s-2"] (Some [1; 3])
       (Some (Command (txt "cargo test parser"))) (Some []) (Some (mkScope 1 2 1 40));
     mkStep 2 (txt "Implement it") false None 0 [] (Some []) (Some (NoVerification (txt "documentation only")))
       (Some [1]) None]).
Proof. vm_compute. reflexivity. Qed.
Example planned_is_written : render <$> (match parse PLANNED with Ok p => Some p | Err _ => None end) = Some PLANNED.
Proof. vm_compute. reflexivity. Qed.
Example edited_forms_are_read :
  (parse_numbers (txt " ac2 , AC2,3") true, parse_numbers (txt "AC1") false, is_ok (parse_verification (txt "NONE")),
   parse_verification (txt "None -- docs"), is_ok (parse_numbers (txt "C1") true), parse_usize (txt "+7")) =
  (Ok [2; 3], malformed_plan (txt "'AC1' is not a list of step numbers like '1, 2'"), false,
   Ok (NoVerification (txt "docs")), false, Some 7).
Proof. vm_compute. reflexivity. Qed.
