(* ===== verification/ProgressProps.v ===== *)
(** * The plan document: what is written is read back

    A document that can be read is written in one form, and that form gives the
    same plan back; the operations of the step loop keep a plan of that kind. *)

From Stdlib Require Import String.
From stdpp Require Import base list numbers.
From S2P Require Import Prelude Monitor Utf8 Chars Message Json Fields Brief Progress.
From stdpp Require Import list.
#[local] Open Scope N_scope.
#[local] Open Scope list_scope.

(** ** Plans that can be written *)

Definition numbers_ok (ns : list N) : Prop := NoDup ns ∧ Forall (λ n, 1 <= n <= U64_MAX) ns.
Definition verification_ok (v : Verification) : Prop :=
  match v with
  | Command c => tidy c ∧ c ≠ [] ∧ strip_none_prefix c = None
  | NoVerification r => tidy r ∧ is_blank r = false
  end.
Definition scope_ok (s : WorkScope) : Prop :=
  files s <= regions s ∧ regions s <= U64_MAX ∧ 0 < decisions s <= U64_MAX ∧ changed_lines s <= U64_MAX.
Definition session_ok (id : Text) : Prop := tidy id ∧ id ≠ [] ∧ (COMMA ∉ id).
Definition holds {A} (P : A → Prop) (o : option A) : Prop := ∀ a, o = Some a → P a.

Record step_ok (s : Step) : Prop := {
  number_fits : number s <= U64_MAX;
  description_tidy : tidy (description s);
  commit_tidy : holds tidy (commit s);
  attempts_fit : attempts s <= U32_MAX;
  sessions_ok : Forall session_ok (sessions s);
  covers_ok : holds numbers_ok (covers s);
  verify_ok : holds verification_ok (verify s);
  depends_ok : holds numbers_ok (depends s);
  scope_fits : holds scope_ok (scope s);
}.
Record progress_ok (p : Progress) : Prop := {
  name_ok : tidy (name p) ∧ name p ≠ [];
  branch_ok : tidy (branch p) ∧ branch p ≠ [];
  binding_ok : holds (λ b, tidy b ∧ b ≠ []) (brief_binding p);
  steps_ok : Forall step_ok (steps p);
  numbers_distinct : NoDup (number <$> steps p);
}.

(** The evidence of a step that is not done is not written. *)
Definition settle (s : Step) : Step :=
  if done s then s
  else mkStep (number s) (description s) false None 0 [] (covers s) (verify s) (depends s) (scope s).
Definition settled (p : Progress) : Progress := set_steps (settle <$> steps p) p.
Definition has_evidence (s : Step) : bool :=
  match commit s, attempts s, sessions s with None, 0, [] => false | _, _, _ => true end.

(** ** The lines of a document *)

Definition detail_lines (key : string) (value : option Text) : list Text :=
  match value with Some v => [txt "  - " ++ txt key ++ txt ": " ++ v] | None => [] end.
Definition step_line (s : Step) : Text :=
  txt "- [" ++ (if done s then txt "x" else txt " ") ++ txt "] " ++ show_N (number s) ++ txt ". " ++ description s.
Definition evidence_lines (s : Step) : list Text :=
  if done s then
    detail_lines "commit" (commit s)
    ++ detail_lines "attempts" (if 0 <? attempts s then Some (show_N (attempts s)) else None)
    ++ detail_lines "sessions" (session_list (sessions s))
  else [].
Definition planning_lines (s : Step) : list Text :=
  detail_lines "covers" ((λ ns, render_numbers ns (txt "AC")) <$> covers s)
  ++ detail_lines "verify" (render_verification <$> verify s)
  ++ detail_lines "scope" (render_scope <$> scope s)
  ++ detail_lines "depends" ((λ ns, render_numbers ns []) <$> depends s).
Definition step_lines (s : Step) : list Text := step_line s :: evidence_lines s ++ planning_lines s.
Definition header_lines (p : Progress) : list Text :=
  [txt "# Progress: " ++ name p; txt "Branch: " ++ branch p]
  ++ match brief_binding p with Some b => [txt "Brief: " ++ b] | None => [] end ++ [[]].
Definition body_lines (p : Progress) : list Text := [txt "## Steps"; []] ++ (steps p ≫= step_lines).

Lemma detail_unlines key v : detail key v = unlines (detail_lines key v).
Proof. destruct v; [|done]. cbn. by rewrite app_nil_r. Qed.
Lemma render_step_unlines s : render_step s = unlines (step_lines s).
Proof.
  unfold render_step, step_lines, evidence_lines, planning_lines. rewrite unlines_cons, !unlines_app, !detail_unlines.
  unfold step_line. destruct (done s); rewrite ?unlines_app; reflexivity.
Qed.
Lemma render_unlines p : render p = unlines (header_lines p ++ body_lines p).
Proof.
  assert (Hs : ∀ l, concat (render_step <$> l) = unlines (l ≫= step_lines)).
  { induction l as [|s l IH]; [done|]. cbn [fmap list_fmap concat mbind list_bind].
    by rewrite unlines_app, <-IH, render_step_unlines. }
  unfold render, header_lines, body_lines. rewrite Hs. change (unlines []) with (@nil N).
  destruct (brief_binding p); cbn [app]; rewrite !unlines_cons, ?app_nil_l; reflexivity.
Qed.

(** ** Its lines are clean *)

Lemma numbers_clean ns p : clean p → clean (render_numbers ns p).
Proof.
  intros Hp. destruct ns as [|n ns]; [by apply literal_clean|]. apply join_clean, list.Forall_fmap, list.Forall_forall.
  intros k _. apply clean_app; [done|apply show_clean].
Qed.
#[local] Hint Resolve numbers_clean : clean.

Lemma detail_clean key v : clean (txt key) → holds clean v → Forall clean (detail_lines key v).
Proof.
  intros Hk Hv. destruct v as [v|]; [|constructor]. apply list.Forall_singleton. specialize (Hv v eq_refl).
  auto 6 with clean.
Qed.
Lemma fmap_clean {A} (P : A → Prop) (f : A → Text) o : holds P o → (∀ a, P a → clean (f a)) → holds clean (f <$> o).
Proof. intros Ho Hf t Ht. destruct o as [a|]; [|done]. injection Ht as <-. by apply Hf, Ho. Qed.

Lemma sessions_clean l : Forall session_ok l → holds clean (session_list l).
Proof.
  intros Hl t Ht. unfold session_list in Ht. case_bool_decide; [done|]. apply (inj Some) in Ht as <-. apply join_clean. eapply list.Forall_impl; [exact Hl|].
  intros id [Hid _]. by apply tidy_clean.
Qed.
Lemma verification_clean v : verification_ok v → clean (render_verification v).
Proof. destruct v; intros [H _]; [by apply tidy_clean|]. cbn [render_verification]. auto with clean. Qed.
Lemma scope_clean v : clean (render_scope v).
Proof. unfold render_scope. auto 12 with clean. Qed.

Lemma step_lines_clean s : step_ok s → Forall clean (step_lines s).
Proof.
  intros Hs. unfold step_lines, evidence_lines, planning_lines. apply list.Forall_cons. split.
  - unfold step_line. pose proof (tidy_clean _ (description_tidy _ Hs)).
    apply clean_app; [auto with clean|]. apply clean_app; [destruct (done s); auto with clean|]. auto 8 with clean.
  - rewrite !list.Forall_app. split_and!.
    + destruct (done s); [|constructor]. rewrite !list.Forall_app. split_and!; apply detail_clean; auto with clean.
      * intros t Ht. apply tidy_clean. by apply (commit_tidy _ Hs).
      * intros t Ht. destruct (0 <? attempts s); [|done]. injection Ht as <-. apply show_clean.
      * apply sessions_clean, Hs.
    + apply detail_clean; [auto with clean|]. eapply fmap_clean; [apply (covers_ok _ Hs)|]. auto with clean.
    + apply detail_clean; [auto with clean|]. eapply fmap_clean; [apply (verify_ok _ Hs)|]. apply verification_clean.
    + apply detail_clean; [auto with clean|]. eapply fmap_clean; [apply (scope_fits _ Hs)|]. intros v _. apply scope_clean.
    + apply detail_clean; [auto with clean|]. eapply fmap_clean; [apply (depends_ok _ Hs)|]. auto with clean.
Qed.
Lemma document_clean p : progress_ok p → Forall clean (header_lines p ++ body_lines p).
Proof.
  intros Hp. unfold header_lines, body_lines. rewrite !list.Forall_app, !list.Forall_cons. split_and!.
  - apply clean_app; [auto with clean|]. apply tidy_clean, Hp.
  - apply clean_app; [auto with clean|]. apply tidy_clean, Hp.
  - constructor.
  - pose proof (binding_ok _ Hp) as Hb. destruct (brief_binding p) as [b|]; [|constructor].
    apply list.Forall_singleton, clean_app; [auto with clean|]. apply tidy_clean. by destruct (Hb b eq_refl).
  - by apply literal_clean.
  - constructor.
  - auto with clean.
  - by apply literal_clean.
  - constructor.
  - pose proof (steps_ok _ Hp) as Hs. induction Hs as [|s l Hs _ IH]; [constructor|].
    cbn [mbind list_bind]. apply list.Forall_app. split; [by apply step_lines_clean|done].
Qed.
Lemma document_lines p : progress_ok p →
  lines (replace [CR; LF] [LF] (render p)) = header_lines p ++ body_lines p.
Proof.
  intros Hp. pose proof (document_clean p Hp) as Hc. rewrite render_unlines, replace_crlf_free by by apply unlines_crlf_free.
  by apply lines_unlines.
Qed.

(** ** Values are read back *)

Lemma join_trimmed ts : Forall (λ t, trimmed t ∧ t ≠ []) ts → trimmed (Chars.join (txt ", ") ts) ∧ (ts ≠ [] → Chars.join (txt ", ") ts ≠ []).
Proof.
  induction 1 as [|t [|u ts] [Ht Hne] Hts IH]; [done|done|]. destruct IH as [IH1 IH2].
  change (Chars.join (txt ", ") (t :: u :: ts)) with (t ++ txt ", " ++ Chars.join (txt ", ") (u :: ts)).
  destruct t as [|c t]; [done|]. split; [|done]. rewrite app_assoc. cbn [app].
  apply trimmed_lead; [|done|by apply IH2]. by apply trimmed_ends in Ht as [Ht _]; apply Ht.
Qed.

Lemma session_list_read l : Forall session_ok l → l ≠ [] →
  trimmed (Chars.join (txt ", ") l) ∧
  List.filter (λ id, negb (bool_decide (id = []))) (trim <$> split_char COMMA (Chars.join (txt ", ") l)) = l.
Proof.
  intros Hl Hne. split.
  - apply join_trimmed. eapply list.Forall_impl; [exact Hl|]. by intros id ([H _] & ? & _).
  - destruct l as [|id l]; [done|]. rewrite split_char_join.
    + clear Hne. induction Hl as [|x xs (_ & Hx & _) _ IH]; [done|]. cbn [List.filter].
      rewrite bool_decide_eq_false_2 by done. cbn [negb]. by f_equal.
    + eapply list.Forall_impl; [exact Hl|]. by intros t ([? _] & _ & ?).
Qed.

Definition shown (p : Text) (n : N) : Text := p ++ show_N n.
Lemma shown_ok p n : p = [] ∨ p = txt "AC" → trimmed (shown p n) ∧ shown p n ≠ [] ∧ (COMMA ∉ shown p n).
Proof.
  destruct (show_N_tidy n) as ([Ht _] & Hc & _). destruct (show_N_spec n) as (_ & Hne & _). unfold shown.
  intros [->| ->]; [by cbn [app]|]. split_and!; [by apply (trimmed_lead 65 [67])|done|].
  apply not_elem_of_app. split; [by apply (bool_decide_unpack _)|done].
Qed.
Lemma ac_digits_shown (allow_ac : bool) n : ac_digits allow_ac (shown (if allow_ac then txt "AC" else []) n) = show_N n.
Proof. destruct allow_ac; [done|]. unfold shown, ac_digits. cbn [app]. by destruct (show_N n) as [|? [|? ?]]. Qed.

Lemma number_list_read (allow_ac : bool) value parts (ns out : list N) :
  trim <$> parts = (shown (if allow_ac then txt "AC" else []) <$> ns) →
  NoDup (out ++ ns) → Forall (λ n, 1 <= n <= U64_MAX) ns →
  number_list allow_ac value parts out = Ok (out ++ ns).
Proof.
  revert ns out. induction parts as [|part parts IH]; intros [|n ns] out Hp Hd Hn; try done; [by rewrite app_nil_r|].
  rewrite !fmap_cons in Hp. injection Hp as Hpart Hp. inversion_clear Hn as [|? ? [Hn1 Hn2] Hns].
  cbn [number_list]. rewrite Hpart, ac_digits_shown. destruct (show_N_spec n) as (Hdig & Hne & _).
  rewrite bool_decide_eq_false_2, Hdig by done. cbn [negb orb]. unfold parse_usize. rewrite parse_show by done.
  destruct (N.eqb_spec n 0); [lia|]. unfold push_new. rewrite bool_decide_eq_false_2.
  - rewrite (IH ns (out ++ [n])), <-app_assoc; [done|done| |done]. by rewrite <-app_assoc.
  - intros Hin. apply list.NoDup_app in Hd as (_ & Hd & _). apply (Hd n Hin). by left.
Qed.
Lemma numbers_read (allow_ac : bool) ns : numbers_ok ns →
  let t := render_numbers ns (if allow_ac then txt "AC" else []) in trimmed t ∧ parse_numbers t allow_ac = Ok ns.
Proof.
  intros [Hd Hn]. set (p := if allow_ac then txt "AC" else []).
  assert (Hp : p = [] ∨ p = txt "AC") by (destruct allow_ac; [by right|by left]).
  cbv zeta. destruct ns as [|n ns]; [by destruct allow_ac|].
  change (render_numbers (n :: ns) p) with (Chars.join (txt ", ") (shown p <$> n :: ns)).
  assert (Ht : trimmed (Chars.join (txt ", ") (shown p <$> n :: ns))).
  { apply join_trimmed, list.Forall_fmap, list.Forall_forall. intros k _. cbn. by destruct (shown_ok p k Hp) as (? & ? & _). }
  split; [done|]. unfold parse_numbers. unfold trimmed in Ht. rewrite Ht.
  assert (Hnone : eq_ignore_ascii_case (Chars.join (txt ", ") (shown p <$> n :: ns)) (txt "none") = false).
  { destruct (show_N_spec n) as (Hdig & Hne & _). apply bool_decide_eq_false. intros Heq.
    assert (Hh : head (to_ascii_lowercase (shown p n)) = Some 110).
    { apply (f_equal head) in Heq. cbn [fmap list_fmap] in Heq. destruct (shown_ok p n Hp) as (_ & Hsn & _).
      destruct (shown p n) as [|c t]; [done|]. destruct (shown p <$> ns); exact Heq. }
    unfold shown in Hh. destruct Hp as [Hp|Hp]; rewrite Hp in Hh; [|by vm_compute in Hh].
    cbn [app] in Hh. destruct (show_N n) as [|c t]; [done|]. cbn in Hh, Hdig. apply andb_true_iff in Hdig as [Hdig _].
    unfold lower_ascii in Hh. unfold digit in Hdig. apply andb_true_iff in Hdig as [_ Hdig%N.leb_le].
    destruct (_ && _) eqn:Hl in Hh; injection Hh as Hh; [|lia]. apply andb_true_iff in Hl as [Hl%N.leb_le _]. lia. }
  rewrite Hnone. rewrite (number_list_read _ _ _ (n :: ns)); [done| |done|done].
  rewrite fmap_cons. apply split_char_join. rewrite <-fmap_cons. apply list.Forall_fmap, list.Forall_forall.
  intros k _. cbn. by destruct (shown_ok p k Hp) as (? & _ & ?).
Qed.

Lemma verification_read v : verification_ok v →
  trimmed (render_verification v) ∧ parse_verification (render_verification v) = Ok v.
Proof.
  destruct v as [c|r]; cbn [verification_ok render_verification].
  - intros ([Ht _] & Hne & Hs). split; [done|]. unfold parse_verification. unfold trimmed in Ht. rewrite Ht.
    by rewrite bool_decide_eq_false_2, Hs.
  - intros ([Ht _] & Hb). assert (Hne : r ≠ []) by (by intros ->).
    assert (Ht' : trimmed (txt "none - " ++ r)) by (by apply (trimmed_lead 110 [111; 110; 101; 32; 45; 32])).
    split; [done|]. unfold parse_verification. unfold trimmed in Ht, Ht'. rewrite Ht', bool_decide_eq_false_2 by done.
    change (strip_none_prefix (txt "none - " ++ r)) with (Some r).
    cbv beta iota. by rewrite Hb, Ht.
Qed.
Lemma scope_read v : scope_ok v → trimmed (render_scope v) ∧ parse_scope (render_scope v) = Ok v.
Proof.
  intros (Hfr & Hr & Hd & Hc). destruct v as [f r d c]; cbn [files regions decisions changed_lines] in *.
  set (ts := [show_N f; show_N r; show_N d; show_N c]).
  assert (Hts : Forall (λ t, (COMMA ∉ t) ∧ trimmed t ∧ t ≠ []) ts).
  { subst ts. rewrite !list.Forall_cons. split_and!; try constructor; repeat split; try apply show_N_tidy; apply show_N_spec. }
  change (render_scope (mkScope f r d c)) with (Chars.join (txt ", ") ts). split.
  - apply join_trimmed. eapply list.Forall_impl; [exact Hts|]. by intros t (_ & ? & ?).
  - unfold parse_scope. assert (Hp : trim <$> split_char COMMA (Chars.join (txt ", ") ts) = ts).
    { apply split_char_join. eapply list.Forall_impl; [exact Hts|]. by intros t (? & ? & _). }
    rewrite (list_fmap_compose trim parse_usize), Hp. subst ts. cbn [fmap list_fmap]. unfold parse_usize.
    rewrite !parse_show by lia. by rewrite (proj2 (N.ltb_lt _ _)), (proj2 (N.leb_le _ _)) by lia.
Qed.

(** ** Lines are read back *)

(** A key of a line of detail. *)
Definition key_ok (key : string) : bool :=
  negb (bool_decide (head (txt key) = Some 91)) && negb (bool_decide (58 ∈ txt key)) && bool_decide (trim (txt key) = txt key).
Lemma read_detail found s s' key v rest :
  key_ok key = true →
  match v with Some t => trimmed t ∧ set_meta (txt key) t s = Ok s' | None => s' = s end →
  parse_lines (found ++ [s]) (detail_lines key v ++ rest) = parse_lines (found ++ [s']) rest.
Proof.
  intros Hk. destruct v as [t|]; [|by intros ->]. intros [Ht Hs]. cbn [detail_lines app parse_lines].
  unfold key_ok in Hk. rewrite !andb_true_iff, !negb_true_iff in Hk. destruct Hk as [[Hh Hc] Hk].
  apply bool_decide_eq_false in Hh, Hc. apply bool_decide_eq_true in Hk. unfold parse_line. cbv zeta.
  change (Monitor.trim_start (txt "  - " ++ txt key ++ txt ": " ++ t)) with (txt "- " ++ txt key ++ txt ": " ++ t).
  assert (Hstep : parse_step_line (txt "- " ++ txt key ++ txt ": " ++ t) = Ok None).
  { unfold parse_step_line. destruct (Chars.strip_prefix (txt "- [") _) as [r|] eqn:Hr; [|done].
    apply strip_prefix_Some in Hr. change (45 :: 32 :: txt key ++ txt ": " ++ t = 45 :: 32 :: 91 :: r) in Hr.
    injection Hr as Hr. destruct (txt key) as [|c k]; [done|]. cbn in Hr, Hh. congruence. }
  rewrite Hstep. unfold parse_meta_line. rewrite strip_prefix_app. cbn [mbind option_bind].
  change (txt ": " ++ t) with ((58 :: []) ++ 32 :: t). change (txt ":") with (58 :: @nil N).
  rewrite split_once_app by done. cbn [mbind option_bind]. rewrite Hk, trim_space by done.
  rewrite rev_app_distr. cbn [rev app]. by rewrite Hs, rev_involutive.
Qed.

Lemma read_step_line found s rest :
  step_ok s → number s ∉ (number <$> found) →
  parse_lines found (step_line s :: rest) =
    parse_lines (found ++ [bare_step (number s) (description s) (done s)]) rest.
Proof.
  intros Hs Hn. cbn [parse_lines]. unfold parse_line. cbv zeta.
  assert (Hd : trim (description s) = description s) by apply (description_tidy _ Hs).
  set (mark := if done s then 120 else 32). set (text := show_N (number s) ++ txt ". " ++ description s).
  replace (Monitor.trim_start (step_line s)) with (txt "- [" ++ mark :: txt "] " ++ text)
    by (unfold step_line, mark; by destruct (done s)).
  assert (Hp : parse_step_line (txt "- [" ++ mark :: txt "] " ++ text) =
               Ok (Some (bare_step (number s) (description s) (done s)))).
  { unfold parse_step_line. rewrite strip_prefix_app, bool_decide_eq_true_2
      by (apply (bool_decide_unpack _); unfold mark; by destruct (done s)).
    cbn [negb]. rewrite strip_prefix_app. cbn [ok_or]. unfold text.
    rewrite (split_once_app 46 [32]) by apply show_N_tidy. cbn [ok_or fst snd].
    assert (trim (show_N (number s)) = show_N (number s)) as -> by apply show_N_tidy.
    unfold parse_usize. rewrite parse_show, Hd by apply Hs. unfold mark. by destruct (done s). }
  rewrite Hp. cbn [number bare_step]. replace (existsb _ _) with false; [done|].
  symmetry. apply not_true_is_false. intros (s' & Hin & He%N.eqb_eq)%existsb_exists. apply Hn.
  apply list_elem_of_fmap. exists s'. by split; [|apply list_elem_of_In].
Qed.

(** ** Steps are read back *)

Lemma read_evidence found s rest :
  step_ok s → done s = true →
  parse_lines (found ++ [bare_step (number s) (description s) true]) (evidence_lines s ++ rest) =
    parse_lines (found ++ [mkStep (number s) (description s) true (commit s) (attempts s) (sessions s) None None None None]) rest.
Proof.
  intros Hs Hd. unfold evidence_lines. rewrite Hd, <-!app_assoc.
  rewrite (read_detail _ _ (set_commit (commit s) (bare_step (number s) (description s) true))); [|done|].
  2: { pose proof (commit_tidy _ Hs) as Hc. destruct (commit s) as [c|]; [|done]. split; [by apply Hc|done]. }
  rewrite (read_detail _ _ (set_tries (attempts s) (set_commit (commit s) (bare_step (number s) (description s) true)))); [|done|].
  2: { destruct (N.ltb_spec 0 (attempts s)) as [_|H0]; [|by replace (attempts s) with 0 by lia].
       split; [apply show_N_tidy|]. unfold set_meta.
       rewrite bool_decide_eq_false_2, bool_decide_eq_true_2 by done. unfold parse_u32.
       by rewrite parse_show by apply Hs. }
  rewrite (read_detail _ _ (mkStep (number s) (description s) true (commit s) (attempts s) (sessions s) None None None None)); [done|done|].
  unfold session_list. case_bool_decide as Hl; [by rewrite Hl|].
  destruct (session_list_read (sessions s) (sessions_ok _ Hs) Hl) as [Ht Hf]. split; [done|].
  unfold set_meta. rewrite 2!bool_decide_eq_false_2, bool_decide_eq_true_2 by done. by rewrite Hf.
Qed.

Lemma set_meta_covers v ns s : parse_numbers v true = Ok ns → set_meta (txt "covers") v s = Ok (set_covers (Some ns) s).
Proof. intros H. change (set_meta _ v s) with (let? ns := parse_numbers v true in Ok (set_covers (Some ns) s)). by rewrite H. Qed.
Lemma set_meta_depends v ns s : parse_numbers v false = Ok ns → set_meta (txt "depends") v s = Ok (set_depends (Some ns) s).
Proof. intros H. change (set_meta _ v s) with (let? ns := parse_numbers v false in Ok (set_depends (Some ns) s)). by rewrite H. Qed.
Lemma set_meta_verify v x s : parse_verification v = Ok x → set_meta (txt "verify") v s = Ok (set_verify (Some x) s).
Proof. intros H. change (set_meta _ v s) with (let? x := parse_verification v in Ok (set_verify (Some x) s)). by rewrite H. Qed.
Lemma set_meta_scope v x s : parse_scope v = Ok x → set_meta (txt "scope") v s = Ok (set_scope (Some x) s).
Proof. intros H. change (set_meta _ v s) with (let? x := parse_scope v in Ok (set_scope (Some x) s)). by rewrite H. Qed.

Lemma read_planning found s s0 rest :
  step_ok s → covers s0 = None → verify s0 = None → depends s0 = None → scope s0 = None →
  parse_lines (found ++ [s0]) (planning_lines s ++ rest) =
    parse_lines (found ++ [set_depends (depends s) (set_scope (scope s) (set_verify (verify s) (set_covers (covers s) s0)))]) rest.
Proof.
  intros Hs Hc0 Hv0 Hd0 Hp0. unfold planning_lines. rewrite <-!app_assoc.
  rewrite (read_detail _ _ (set_covers (covers s) s0)); [|done|].
  2: { pose proof (covers_ok _ Hs) as Hc. destruct (covers s) as [ns|]; [|destruct s0; cbn in *; by subst].
       destruct (numbers_read true ns (Hc ns eq_refl)) as [Ht Hr]. split; [exact Ht|by apply set_meta_covers]. }
  rewrite (read_detail _ _ (set_verify (verify s) (set_covers (covers s) s0))); [|done|].
  2: { pose proof (verify_ok _ Hs) as Hv. destruct (verify s) as [v|]; [|destruct s0; cbn in *; by subst].
       destruct (verification_read v (Hv v eq_refl)) as [Ht Hr]. split; [exact Ht|by apply set_meta_verify]. }
  rewrite (read_detail _ _ (set_scope (scope s) (set_verify (verify s) (set_covers (covers s) s0)))); [|done|].
  2: { pose proof (scope_fits _ Hs) as Hv. destruct (scope s) as [v|]; [|destruct s0; cbn in *; by subst].
       destruct (scope_read v (Hv v eq_refl)) as [Ht Hr]. split; [exact Ht|by apply set_meta_scope]. }
  rewrite (read_detail _ _ (set_depends (depends s) (set_scope (scope s) (set_verify (verify s) (set_covers (covers s) s0))))); [done|done|].
  pose proof (depends_ok _ Hs) as Hc. destruct (depends s) as [ns|]; [|destruct s0; cbn in *; by subst].
  destruct (numbers_read false ns (Hc ns eq_refl)) as [Ht Hr]. split; [exact Ht|by apply set_meta_depends].
Qed.

Lemma read_step found s rest :
  step_ok s → number s ∉ (number <$> found) →
  parse_lines found (step_lines s ++ rest) = parse_lines (found ++ [settle s]) rest.
Proof.
  intros Hs Hn. unfold step_lines. cbn [app]. rewrite read_step_line by done. rewrite <-app_assoc. unfold settle.
  destruct (done s) eqn:Hd.
  - rewrite read_evidence by done. rewrite read_planning by done. f_equal. f_equal. destruct s; cbn in *. by subst.
  - unfold evidence_lines. rewrite Hd. cbn [app]. by rewrite read_planning.
Qed.
Lemma settle_number s : number (settle s) = number s.
Proof. unfold settle. by destruct (done s). Qed.
Lemma read_steps l found :
  Forall step_ok l → NoDup ((number <$> found) ++ (number <$> l)) →
  parse_lines found (l ≫= step_lines) = Ok (found ++ (settle <$> l)).
Proof.
  intros Hl. revert found. induction Hl as [|s l Hs _ IH]; intros found Hd; [by rewrite app_nil_r|].
  cbn [mbind list_bind fmap list_fmap]. rewrite read_step; [|done|].
  - rewrite IH, <-app_assoc; [done|]. rewrite fmap_app, <-app_assoc. cbn [fmap list_fmap app]. by rewrite settle_number.
  - intros Hin. apply list.NoDup_app in Hd as (_ & Hd & _). apply (Hd _ Hin). by left.
Qed.

(** ** The header is read back *)

(** A line that is not a step adds nothing before the first step. *)
Lemma skip_line l rest :
  Chars.strip_prefix (txt "- [") (Monitor.trim_start l) = None → parse_lines [] (l :: rest) = parse_lines [] rest.
Proof.
  intros Hl. cbn [parse_lines]. unfold parse_line, parse_step_line. cbv zeta. rewrite Hl.
  by destruct (parse_meta_line _) as [[]|].
Qed.
Lemma skip_header p rest : parse_lines [] (header_lines p ++ txt "## Steps" :: [] :: rest) = parse_lines [] rest.
Proof.
  unfold header_lines. cbn [app]. rewrite 2!skip_line by done.
  destruct (brief_binding p) as [b|]; cbn [app]; [rewrite skip_line by done|]; by rewrite 3!skip_line by done.
Qed.

Lemma named_line lead t :
  match txt lead with c :: _ => is_whitespace c | [] => true end = false → tidy t → t ≠ [] →
  trim (txt lead ++ t) = txt lead ++ t.
Proof. intros Hc [Ht _] Hne. destruct (txt lead) as [|c p]; [done|]. by apply trimmed_lead. Qed.

Lemma read_name p rest : progress_ok p → first_found
  ((λ l, trim <$> Chars.strip_prefix (txt "# Progress:") (trim l)) <$> header_lines p ++ rest) = Some (name p).
Proof.
  intros Hp. destruct (name_ok _ Hp) as [Ht Hne]. unfold header_lines, first_found. rewrite <-!app_assoc.
  cbn [app fmap list_fmap]. rewrite (named_line "# Progress: ") by done.
  change (Chars.strip_prefix (txt "# Progress:") (txt "# Progress: " ++ name p)) with (Some (32 :: name p)).
  cbn [fmap option_fmap option_map]. rewrite trim_space; [done|apply Ht].
Qed.
Lemma read_branch p rest : progress_ok p → first_found
  ((λ l, trim <$> Chars.strip_prefix (txt "Branch:") (trim l)) <$> header_lines p ++ rest) = Some (branch p).
Proof.
  intros Hp. destruct (name_ok _ Hp) as [Hn Hnn], (branch_ok _ Hp) as [Ht Hne].
  unfold header_lines, first_found. rewrite <-!app_assoc. cbn [app fmap list_fmap].
  rewrite (named_line "# Progress: "), (named_line "Branch: ") by done.
  change (Chars.strip_prefix (txt "Branch:") (txt "Branch: " ++ branch p)) with (Some (32 :: branch p)).
  cbn [fmap option_fmap option_map]. rewrite trim_space; [done|apply Ht].
Qed.
Lemma header_taken p rest :
  take_while (λ l, negb (starts_with (txt "## ") (Monitor.trim_start l))) (header_lines p ++ txt "## Steps" :: rest) =
  header_lines p.
Proof. unfold header_lines. by destruct (brief_binding p). Qed.
Lemma read_binding p : progress_ok p →
  trim <$> omap (λ l, Chars.strip_prefix (txt "Brief:") (trim l)) (header_lines p) =
  match brief_binding p with Some b => [b] | None => [] end.
Proof.
  intros Hp. destruct (name_ok _ Hp) as [Hn Hnn], (branch_ok _ Hp) as [Ht Hne]. pose proof (binding_ok _ Hp) as Hb.
  unfold header_lines. rewrite !omap_app.
  assert (H2 : omap (λ l, Chars.strip_prefix (txt "Brief:") (trim l)) [txt "# Progress: " ++ name p; txt "Branch: " ++ branch p] = []).
  { cbn [omap list_omap]. by rewrite (named_line "# Progress: "), (named_line "Branch: "). }
  rewrite H2. destruct (brief_binding p) as [b|]; [|done]. destruct (Hb b eq_refl) as [Htb Hnb].
  assert (H1 : omap (λ l, Chars.strip_prefix (txt "Brief:") (trim l)) [txt "Brief: " ++ b] = [32 :: b]).
  { cbn [omap list_omap]. by rewrite (named_line "Brief: "). }
  rewrite H1. change (trim <$> [] ++ [32 :: b] ++ _) with [trim (32 :: b)]. by rewrite trim_space by apply Htb.
Qed.

Lemma written_is_read p : progress_ok p → parse (render p) = Ok (settled p).
Proof.
  intros Hp. pose proof (document_lines p Hp) as Hl. unfold parse. cbv zeta. revert Hl.
  generalize (replace [CR; LF] [LF] (render p)) as text. intros text Hl.
  unfold title_after, binding_of, bindings, header. rewrite Hl, read_name, read_branch by done.
  destruct (name_ok _ Hp) as [_ Hnn], (branch_ok _ Hp) as [_ Hbn]. cbn [mbind option_bind].
  rewrite !bool_decide_eq_false_2 by done. cbn [ok_or].
  change (body_lines p) with (txt "## Steps" :: [] :: (steps p ≫= step_lines)).
  rewrite header_taken, read_binding by done. rewrite skip_header, read_steps; [|apply Hp|apply Hp].
  unfold settled, set_steps. destruct (brief_binding p) as [b|] eqn:Hb; [|done].
  destruct (binding_ok _ Hp b Hb) as [_ Hne]. by destruct b.
Qed.

(** ** What is read can be written *)

(** [f x = Ok y] in a chain of early returns. *)
Ltac ok_step H := repeat match type of H with
  | match ?c with Ok _ => _ | Err _ => Err _ end = Ok _ => let E := fresh "E" in destruct c eqn:E; [|discriminate H]
  end.
Lemma ok_or_inv {A E} (o : option A) (e : E) a : ok_or o e = Ok a → o = Some a.
Proof. apply ok_or_Ok. Qed.

Lemma strip_prefix_elem p s r c : Chars.strip_prefix p s = Some r → c ∈ r → c ∈ s.
Proof. intros ->%strip_prefix_Some Hc. apply elem_of_app. by right. Qed.
Lemma trim_start_elem c s : c ∈ Monitor.trim_start s → c ∈ s.
Proof. intros Hc. destruct (trim_start_suffix s) as (p & Hp & _). rewrite Hp. apply elem_of_app. by right. Qed.

Lemma number_list_ok allow_ac value parts out ns :
  number_list allow_ac value parts out = Ok ns → numbers_ok out → numbers_ok ns.
Proof.
  revert out. induction parts as [|part parts IH]; intros out; cbn [number_list]; [by intros [= ->]|]. cbv zeta.
  destruct (_ || _); [done|]. destruct (parse_usize _) as [n|] eqn:Hn; [|done].
  destruct (N.eqb_spec n 0) as [|Hn0]; [done|]. intros Hr [Hd Hf]. apply (IH _ Hr). unfold push_new.
  case_bool_decide as Hin; [done|]. split.
  - apply list.NoDup_app. split_and!; [done| |by apply NoDup_singleton].
    intros k Hk ->%list_elem_of_singleton. done.
  - apply list.Forall_app. split; [done|]. apply list.Forall_singleton. apply parse_unsigned_bound in Hn. lia.
Qed.
Lemma parse_numbers_ok value allow_ac ns : parse_numbers value allow_ac = Ok ns → numbers_ok ns.
Proof.
  assert (Hnil : numbers_ok []) by by split; constructor. unfold parse_numbers.
  destruct (eq_ignore_ascii_case _ _); [by intros [= <-]|]. intros H. by apply number_list_ok in H.
Qed.
Lemma strip_none_elem v r c : strip_none_prefix v = Some r → c ∈ r → c ∈ v.
Proof.
  unfold strip_none_prefix. destruct v as [|x1 [|x2 [|x3 [|x4 tail]]]]; try done.
  destruct (eq_ignore_ascii_case _ _); [|done]. intros Hr Hc. do 4 (apply elem_of_cons; right).
  destruct (first_found _) as [r'|] eqn:Hf.
  - injection Hr as ->. unfold first_found in Hf. apply head_Some_elem_of in Hf.
    apply list_elem_of_omap in Hf as (o & Ho & Hs). cbn in Hs. subst o.
    apply list_elem_of_fmap in Ho as (sep & Ho & _). symmetry in Ho. by eapply strip_prefix_elem.
  - destruct (is_blank tail); [|done]. injection Hr as <-. by apply not_elem_of_nil in Hc.
Qed.
Lemma parse_verification_ok value v : LF ∉ value → parse_verification value = Ok v → verification_ok v.
Proof.
  intros Hl. unfold parse_verification. cbv zeta. case_bool_decide as Hne; [done|].
  pose proof (trim_tidy value Hl) as Ht. destruct (strip_none_prefix (trim value)) as [r|] eqn:Hs.
  - destruct (is_blank r) eqn:Hb; [done|]. intros [= <-].
    assert (Hr : LF ∉ r). { intros H. destruct Ht as [_ Ht]. apply Ht. by eapply strip_none_elem. }
    split; [by apply trim_tidy|]. rewrite blank_trimmed by apply trim_trimmed.
    rewrite trim_blank in Hb. done.
  - by intros [= <-].
Qed.
Lemma parse_scope_ok value v : parse_scope value = Ok v → scope_ok v.
Proof.
  unfold parse_scope. set (counts := (λ part, parse_usize (trim part)) <$> split_char COMMA value).
  assert (Hc : Forall (holds (λ n, n <= U64_MAX)) counts).
  { apply list.Forall_fmap, list.Forall_forall. intros part _ n Hn. by apply parse_unsigned_bound in Hn. }
  clearbody counts. destruct counts as [|[f|] [|[r|] [|[d|] [|[c|] [|? ?]]]]]; try done.
  destruct ((0 <? d) && (f <=? r)) eqn:Hb; [|done]. intros [= <-].
  apply andb_true_iff in Hb as [Hd%N.ltb_lt Hf%N.leb_le]. rewrite !list.Forall_cons in Hc.
  destruct Hc as (_ & Hr & Hd' & Hc & _). specialize (Hr r eq_refl). specialize (Hd' d eq_refl). specialize (Hc c eq_refl).
  by repeat split.
Qed.

Lemma parse_meta_elem l k v c : parse_meta_line l = Some (k, v) → c ∈ v → c ∈ l.
Proof.
  unfold parse_meta_line. destruct (Chars.strip_prefix _ l) as [rest|] eqn:Hp; [|done]. cbn [mbind option_bind].
  destruct (split_once _ rest) as [[a b]|] eqn:Hs; [|done]. intros [= <- <-] Hc.
  eapply strip_prefix_elem; [exact Hp|]. eapply split_once_elem; [exact Hs|]. right. by apply trim_elem.
Qed.
Lemma parse_meta_trimmed l k v : parse_meta_line l = Some (k, v) → trimmed v.
Proof.
  unfold parse_meta_line. destruct (Chars.strip_prefix _ l) as [rest|]; [|done]. cbn [mbind option_bind].
  destruct (split_once _ rest) as [[a b]|]; [|done]. intros [= <- <-]. apply trim_trimmed.
Qed.
Lemma parsed_step_ok l s : LF ∉ l → parse_step_line l = Ok (Some s) → step_ok s.
Proof.
  intros Hl. unfold parse_step_line. destruct (Chars.strip_prefix _ l) as [[|mark after]|] eqn:Hp; [done| |done].
  destruct (negb _); [done|]. intros H. ok_step H.
  apply ok_or_inv in E, E0, E1. injection H as <-. destruct a0 as [n b].
  assert (Hb : LF ∉ b).
  { intros Hb. apply Hl. eapply strip_prefix_elem; [exact Hp|]. apply elem_of_cons. right.
    eapply strip_prefix_elem; [exact E|]. eapply split_once_elem; [exact E0|by right]. }
  constructor; cbn; try done; [by apply parse_unsigned_bound in E1|by apply trim_tidy].
Qed.

Lemma set_meta_ok k v s s' :
  tidy v → step_ok s → set_meta k v s = Ok s' → step_ok s' ∧ number s' = number s.
Proof.
  intros Hv Hs. unfold set_meta. assert (Hsome : ∀ A (P : A → Prop) a, P a → holds P (Some a)) by by intros A P a Ha ? [= <-].
  repeat case_bool_decide.
  - intros [= <-]. destruct Hs. split; [constructor; cbn; auto|done].
  - intros Hr. ok_step Hr. apply ok_or_inv, parse_unsigned_bound in E. injection Hr as <-. destruct Hs. split; [constructor; cbn; auto|done].
  - intros [= <-]. split; [|done]. pose proof (sessions_ok _ Hs) as Ho. destruct Hs. constructor; cbn; auto.
    apply list.Forall_app. split; [done|]. apply list.Forall_forall. intros id Hid%list_elem_of_In.
    apply filter_In in Hid as [Hid%list_elem_of_In Hne]. apply negb_true_iff, bool_decide_eq_false in Hne.
    apply list_elem_of_fmap in Hid as (part & -> & Hp). split_and!; [apply trim_tidy| done|].
    + intros Hc. destruct Hv as [_ Hv]. apply Hv. by destruct (split_elem _ _ _ _ Hp Hc).
    + intros Hc. apply trim_elem in Hc. by destruct (split_elem _ _ _ _ Hp Hc).
  - intros Hr. ok_step Hr. apply parse_numbers_ok in E. injection Hr as <-. destruct Hs. split; [constructor; cbn; auto|done].
  - intros Hr. ok_step Hr. apply parse_numbers_ok in E. injection Hr as <-. destruct Hs. split; [constructor; cbn; auto|done].
  - intros Hr. ok_step Hr. apply parse_verification_ok in E; [|apply Hv]. injection Hr as <-. destruct Hs.
    split; [constructor; cbn; auto|done].
  - intros Hr. ok_step Hr. apply parse_scope_ok in E. injection Hr as <-. destruct Hs. split; [constructor; cbn; auto|done].
  - by intros [= <-].
Qed.

(** The steps found so far. *)
Definition found_ok (found : list Step) : Prop := Forall step_ok found ∧ NoDup (number <$> found).
Lemma parse_line_ok found l found' : LF ∉ l → found_ok found → parse_line found l = Ok found' → found_ok found'.
Proof.
  intros Hl [Hf Hd]. unfold parse_line. cbv zeta. assert (Hl' : LF ∉ Monitor.trim_start l) by (intros H; by apply trim_start_elem in H).
  generalize dependent (Monitor.trim_start l). intros t Ht H. ok_step H. destruct a as [s|].
  - destruct (existsb _ found) eqn:Hx; [done|]. injection H as <-. split.
    + apply list.Forall_app. split; [done|]. apply list.Forall_singleton. by eapply parsed_step_ok.
    + rewrite fmap_app. apply list.NoDup_app. split_and!; [done| |by apply NoDup_singleton].
      intros n Hn ->%list_elem_of_singleton. apply list_elem_of_fmap in Hn as (s' & Hs' & Hin).
      rewrite <-not_true_iff_false in Hx. apply Hx, existsb_exists. exists s'. split; [by apply list_elem_of_In|].
      apply N.eqb_eq. by symmetry.
  - destruct (parse_meta_line t) as [[k v]|] eqn:Hm; [|by injection H as <-].
    destruct (rev found) as [|last before] eqn:Hr; [by injection H as <-|]. ok_step H. injection H as <-.
    apply (f_equal (@rev Step)) in Hr. rewrite rev_involutive in Hr. cbn [rev] in Hr. subst found.
    apply list.Forall_app in Hf as [Hb Hlast]. apply list.Forall_cons in Hlast as [Hlast _].
    destruct (set_meta_ok k v last a) as [Ha Hn]; [|done|done|].
    { split; [by eapply parse_meta_trimmed|]. intros H. apply Ht. by eapply parse_meta_elem. }
    split; [by apply list.Forall_app; split; [|apply list.Forall_singleton]|].
    rewrite fmap_app in Hd |- *. cbn [fmap list_fmap] in *. by rewrite Hn.
Qed.
Lemma parse_lines_ok found ls found' :
  Forall (λ l, LF ∉ l) ls → found_ok found → parse_lines found ls = Ok found' → found_ok found'.
Proof.
  intros Hls. revert found. induction Hls as [|l ls Hl _ IH]; intros found Hf; cbn [parse_lines]; [by intros [= <-]|].
  intros H. ok_step H. eapply IH; [|exact H]. by eapply parse_line_ok.
Qed.
Lemma title_ok text prefix t : title_after text prefix = Some t → tidy t ∧ t ≠ [].
Proof.
  unfold title_after. destruct (first_found _) as [title|] eqn:Hf; [|done]. cbn [mbind option_bind].
  case_bool_decide as Hne; [done|]. intros [= <-]. split; [|done]. unfold first_found in Hf.
  apply head_Some_elem_of, list_elem_of_omap in Hf as (o & Ho & Hs). cbn in Hs. subst o.
  apply list_elem_of_fmap in Ho as (l & Ho & Hl). symmetry in Ho. apply fmap_Some in Ho as (r & Hr & ->).
  apply trim_tidy. intros H. apply lines_no_feed in Hl. apply Hl. apply trim_elem. by eapply strip_prefix_elem.
Qed.
Lemma take_while_elem {A} (p : A → bool) l a : a ∈ take_while p l → a ∈ l.
Proof.
  induction l as [|b l IH]; cbn [take_while]; [done|]. destruct (p b); [|by intros ?%not_elem_of_nil].
  rewrite !elem_of_cons. intros [->|H]; auto.
Qed.
Lemma bindings_ok text : Forall tidy (bindings text).
Proof.
  unfold bindings, header. apply list.Forall_fmap, list.Forall_forall. intros v Hv.
  apply list_elem_of_omap in Hv as (l & Hl & Hv). apply take_while_elem, lines_no_feed in Hl.
  apply trim_tidy. intros H. apply Hl, trim_elem. by eapply strip_prefix_elem.
Qed.

Lemma read_can_be_written t p : parse t = Ok p → progress_ok p.
Proof.
  unfold parse. cbv zeta. generalize (replace [CR; LF] [LF] t) as text. intros text H. ok_step H. injection H as <-.
  apply ok_or_inv, title_ok in E, E0. apply parse_lines_ok in E2 as [Hs Hd].
  - constructor; cbn; try done. unfold binding_of in E1. pose proof (bindings_ok text) as Hb.
    intros b ->. destruct (bindings text) as [|[|c v] [|? ?]]; try done. injection E1 as <-.
    by apply list.Forall_cons in Hb as [Hb _].
  - apply list.Forall_forall. intros l. apply lines_no_feed.
  - split; constructor.
Qed.

(** ** Edits *)

(** What the step loop and the commands do to a plan. *)
Inductive Edit :=
  | Append (description : Text)
  | Complete (n : N) (commit : option Text) (attempts : N)
  | Record_ (n : N) (ids : list Text)
  | Bind (revision : Text).
Definition edit (p : Progress) (e : Edit) : Progress :=
  match e with
  | Append d => fst (append_step d p)
  | Complete n c a => fst (mark_complete n c a p)
  | Record_ n ids => fst (record_sessions n ids p)
  | Bind r => bind_to_brief r p
  end.
(** Texts on one line, numbers that fit. *)
Definition edit_ok (e : Edit) : Prop :=
  match e with
  | Append d => tidy d
  | Complete _ c a => holds tidy c ∧ a <= U32_MAX
  | Record_ _ ids => Forall session_ok ids
  | Bind r => tidy r ∧ r ≠ []
  end.

Lemma highest_bound l s : s ∈ l → number s <= highest l.
Proof.
  induction l as [|a l IH]; [by intros ?%not_elem_of_nil|]. cbn [highest fold_right].
  intros [->|Hs]%elem_of_cons; [lia|]. specialize (IH Hs). unfold highest in IH. lia.
Qed.
Lemma highest_app l s : highest (l ++ [s]) = N.max (highest l) (number s).
Proof. unfold highest. induction l as [|a l IH]; cbn; [lia|]. rewrite IH. lia. Qed.
Lemma highest_numbers l l' : number <$> l = number <$> l' → highest l = highest l'.
Proof.
  unfold highest. revert l'. induction l as [|a l IH]; intros [|b l']; try done. cbn. intros [= -> H]. f_equal. by apply IH.
Qed.
Lemma update_first_spec n f l l' b :
  update_step n f l = (l', b) → (∀ s, number (f s) = number s) →
  number <$> l' = number <$> l ∧ (b = true ↔ n ∈ (number <$> l)) ∧
  Forall2 (λ s s', s' = s ∨ (number s = n ∧ s' = f s)) l l'.
Proof.
  intros Hu Hf. revert l' b Hu. induction l as [|s l IH]; intros l' b; cbn [update_step].
  - intros [= <- <-]. split_and!; [done|split; [done|by intros ?%not_elem_of_nil]|constructor].
  - destruct (N.eqb_spec (number s) n) as [<-|Hn].
    + intros [= <- <-]. cbn. rewrite Hf. split_and!; [done|split; [by left|done]|].
      constructor; [by right|]. clear. induction l; constructor; auto.
    + destruct (update_step n f l) as [l1 b1]. intros [= <- <-]. destruct (IH _ _ eq_refl) as (H1 & H2 & H3).
      cbn. rewrite H1, H2. split_and!; [done| |by constructor; [left|]].
      rewrite elem_of_cons. split; [by right|by intros [->|]].
Qed.

Lemma update_first_ok n f p :
  progress_ok p → (∀ s, number (f s) = number s) → (∀ s, step_ok s → step_ok (f s)) →
  progress_ok (set_steps (fst (update_step n f (steps p))) p) ∧
  highest (fst (update_step n f (steps p))) = highest (steps p).
Proof.
  intros Hp Hn Hf. destruct (update_step n f (steps p)) as [l b] eqn:Hu.
  destruct (update_first_spec _ _ _ _ _ Hu Hn) as (H1 & _ & H3). split; [|by apply highest_numbers].
  destruct Hp as [? ? ? Hs Hd]. constructor; cbn; [done..| |by rewrite H1].
  clear -H3 Hs Hf. induction H3 as [|s s' l l' Hss _ IH]; [constructor|]. apply list.Forall_cons in Hs as [Hs Hl].
  constructor; [|by apply IH]. destruct Hss as [->|[_ ->]]; auto.
Qed.
Lemma edit_keeps p e :
  progress_ok p → edit_ok e → highest (steps p) < U64_MAX →
  progress_ok (edit p e) ∧ highest (steps (edit p e)) <= highest (steps p) + 1.
Proof.
  intros Hp He Hh. destruct e as [d|n c a|n ids|r]; cbn [edit edit_ok] in *.
  - unfold append_step. cbn [fst set_steps steps]. rewrite u64_add_small by lia. rewrite highest_app. cbn [bare_step number].
    split; [|lia]. destruct Hp as [? ? ? Hs Hd]. constructor; cbn; [done..| |].
    + apply list.Forall_app. split; [done|]. apply list.Forall_singleton.
      constructor; cbn; try done. lia.
    + rewrite fmap_app. apply list.NoDup_app. split_and!; [done| |by apply NoDup_singleton].
      intros m Hm ->%list_elem_of_singleton. apply list_elem_of_fmap in Hm as (s & Hs1 & Hs2).
      apply highest_bound in Hs2. cbn in Hs1. lia.
  - unfold mark_complete. destruct He as [Hc Ha].
    destruct (update_first_ok n (complete c a) p Hp) as [H1 H2]; [done| |].
    { intros s Hs. destruct Hs. by constructor. }
    destruct (update_step _ _ _). cbn [fst set_steps steps] in *. rewrite H2. split; [done|lia].
  - unfold record_sessions. destruct (update_first_ok n (set_sessions ids) p Hp) as [H1 H2]; [done| |].
    { intros s Hs. destruct Hs. by constructor. }
    destruct (update_step _ _ _). cbn [fst set_steps steps] in *. rewrite H2. split; [done|lia].
  - cbn [bind_to_brief steps]. split; [|lia]. destruct Hp. constructor; cbn; try done. by intros b [= <-].
Qed.
Lemma edits_keep es p :
  progress_ok p → Forall edit_ok es → highest (steps p) + N.of_nat (length es) <= U64_MAX →
  progress_ok (fold_left edit es p).
Proof.
  intros Hp Hes. revert p Hp. induction Hes as [|e es He _ IH]; intros p Hp Hh; [done|]. cbn [fold_left length] in *.
  destruct (edit_keeps p e Hp He) as [H1 H2]; [lia|]. apply IH; [done|lia].
Qed.

Lemma settled_evidence p :
  forallb (λ s, done s || negb (has_evidence s)) (steps p) = true → settled p = p.
Proof.
  intros Hs. destruct p as [n b r l]. unfold settled, set_steps. cbn in *. f_equal.
  induction l as [|s l IH]; [done|]. cbn in Hs |- *. apply andb_true_iff in Hs as [Hs Hl]. rewrite (IH Hl). f_equal.
  unfold settle. destruct s as [? ? [] c a ss ? ? ? ?]; [done|]. cbn in *. unfold has_evidence in Hs. cbn in Hs.
  destruct c, a, ss; try done.
Qed.
Lemma render_settled p : render (settled p) = render p.
Proof.
  assert (Hs : render_step <$> (settle <$> steps p) = render_step <$> steps p).
  { rewrite <-list_fmap_compose. apply list_fmap_ext. intros i s _. unfold compose, settle, render_step.
    destruct (done s) eqn:Hd; cbn [done]; by rewrite ?Hd. }
  unfold render, settled, set_steps. cbn [name branch brief_binding steps]. by rewrite Hs.
Qed.

(** C26. The plan document loses nothing.  Take a document that can be read, edited
    as the step loop and the commands edit it, with texts on one line and without
    white space at their ends (an appended step given with a trailing space is
    read back without it), session ids that are not empty and hold no comma, a
    binding that is not empty, attempts that fit 32 bits, and while step numbers
    last.  Written, it is read back as the same plan, but for the evidence of
    steps that are not done, which is never written; and what is written does
    not change when it is read and written again. *)
Theorem plan_document_is_faithful t p es :
  parse t = Ok p → Forall edit_ok es → highest (steps p) + N.of_nat (length es) <= U64_MAX →
  let p' := fold_left edit es p in
  parse (render p') = Ok (settled p') ∧ render (settled p') = render p' ∧
  (forallb (λ s, done s || negb (has_evidence s)) (steps p') = true → settled p' = p').
Proof.
  intros Hp Hes Hh p'. split_and!; [|apply render_settled|apply settled_evidence].
  apply written_is_read, edits_keep; [by eapply read_can_be_written|done|done].
Qed.

Lemma plan_document_is_faithful_witness :
  let es := [Complete 2 (Some (txt "def5678")) 2; Record_ 2 [txt "s-9"]; Append (txt "Write it up"); Bind (txt "r8")] in
  ∃ p, parse PLANNED = Ok p ∧
  (let p' := fold_left edit es p in
   parse (render p') = Ok (settled p') ∧ render (settled p') = render p' ∧
   (forallb (λ s, done s || negb (has_evidence s)) (steps p') = true → settled p' = p')).
Proof.
  intros es. eexists. split; [vm_compute; reflexivity|]. apply (plan_document_is_faithful PLANNED).
  - vm_compute. reflexivity.
  - apply list.Forall_cons_2; [|apply list.Forall_cons_2; [|apply list.Forall_cons_2; [|apply list.Forall_cons_2; [|constructor]]]].
    + split; [|by vm_compute]. intros c [= <-]. split; [by vm_compute|by apply (bool_decide_unpack _)].
    + apply list.Forall_singleton. split_and!; [split; [by vm_compute|]|done|]; by apply (bool_decide_unpack _).
    + split; [by vm_compute|by apply (bool_decide_unpack _)].
    + split; [split; [by vm_compute|by apply (bool_decide_unpack _)]|done].
  - vm_compute. discriminate.
Defined.

(** The evidence of a step that was unticked by hand is lost on the next write. *)
Example unticked_evidence_is_lost :
  let t := nl ["# Progress: p"; "Branch: b"; ""; "## Steps"; ""; "- [ ] 1. Fix it"; "  - commit: abc1234"]%string in
  match parse t with
  | Ok p => (commit <$> steps p, option_map (λ p, commit <$> steps p) (match parse (render p) with Ok q => Some q | _ => None end))
  | Err _ => ([], None)
  end = ([Some (txt "abc1234")], Some [None]).
Proof. vm_compute. reflexivity. Qed.
