(* ===== verification/Reconcile.v ===== *)
(** * Finished work carried over a new plan (localpilot-harness/src/plan_reconcile.rs)

    A plan drafted anew replaces one whose finished steps have commits behind
    them.  Each finished step is matched to its counterpart in the draft and
    keeps its number, its words and its evidence; what cannot be matched is a
    conflict, and then nothing is written.  The lower case of a text is the
    standard library's; its Unicode tables are a parameter. *)

From Stdlib Require Import String.
From stdpp Require Import base list numbers.
From S2P Require Import Prelude Monitor Utf8 Chars Message Json Fields Brief Progress.
From stdpp Require Import list.
#[local] Open Scope N_scope.
#[local] Open Scope list_scope.

Inductive CreditReason :=
  | BriefChanged
  | BriefUnknown
  | Widened (was : list N).
Inductive ReconcileConflict :=
  | CompletedStepMissing (step : N) (description : Text) (commit : option Text)
  | AmbiguousMatch (description : Text) (candidates : list N)
  | IndistinctHistory (description : Text) (steps : list N)
  | CreditNotVerifiable (step : N) (description : Text) (criteria : list N) (reason : CreditReason)
  | CompletedDependsOnPending (step depends_on : N).

(** ** The words of a conflict *)

Definition join_numbers (numbers : list N) : Text := Chars.join (txt ", ") (show_N <$> numbers).
Definition join_criteria (numbers : list N) : Text := Chars.join (txt ", ") ((λ n, txt "AC" ++ show_N n) <$> numbers).
Definition reason_text (r : CreditReason) : Text :=
  match r with
  | BriefChanged =>
      txt "the brief has changed since that work was done, so those numbers are not the criteria it was checked against"
  | BriefUnknown =>
      txt "the previous plan names no brief revision, so what that work was checked against is unknown"
  | Widened [] => txt "it previously covered nothing"
  | Widened was => txt "it previously covered only " ++ join_criteria was
  end.
Definition conflict_text (c : ReconcileConflict) : Text :=
  match c with
  | CompletedStepMissing step description _ =>
      txt "step " ++ show_N step ++ txt " (" ++ description ++ txt ") is done, but the new plan does not contain it"
  | AmbiguousMatch description candidates =>
      txt "the new plan has " ++ show_nat (length candidates) ++ txt " steps worded " ++ quoted description
      ++ txt " (steps " ++ join_numbers candidates ++ txt "), so the completed work cannot be matched to one"
  | IndistinctHistory description steps =>
      txt "the previous plan has more than one completed step worded " ++ quoted description ++ txt " (steps "
      ++ join_numbers steps ++ txt "), so its evidence cannot be attributed"
  | CreditNotVerifiable step description criteria reason =>
      txt "step " ++ show_N step ++ txt " (" ++ description ++ txt ") is already done, and the new plan credits it with "
      ++ join_criteria criteria ++ txt " - " ++ reason_text reason
  | CompletedDependsOnPending step depends_on =>
      txt "step " ++ show_N step ++ txt " is done but the new plan says it depends on step " ++ show_N depends_on
      ++ txt ", which is not"
  end.

Section reconcile.
(** [str::to_lowercase]. *)
Context (to_lowercase : Text → Text).

Definition identity (description : Text) : Text :=
  to_lowercase (Chars.join [32] (split_whitespace description)).
Definition same_words (a b : Step) : bool := bool_decide (identity (description a) = identity (description b)).

(** ** Matching *)

Definition credit_problem (completed target : Step) (unverifiable : option CreditReason) : option CreditReason :=
  let claimed := default [] (covers target) in
  match claimed with
  | [] => None
  | _ =>
      match unverifiable with
      | Some reason => Some reason
      | None =>
          let was := default [] (covers completed) in
          if forallb (λ c, bool_decide (c ∈ was)) claimed then None else Some (Widened was)
      end
  end.

(** The steps with their positions. *)
Definition enumerate (l : list Step) : list (nat * Step) := imap pair l.

(** The finished steps that are carried, with the position of the counterpart
    in the draft, and the conflicts. *)
Definition Carried : Type := list (nat * Step).
Definition match_step (old new : list Step) (unverifiable : option CreditReason)
    (st : Carried * list ReconcileConflict) (completed : Step) : Carried * list ReconcileConflict :=
  let '(carried, conflicts) := st in
  let twins := number <$> List.filter (λ s, done s && same_words s completed) old in
  if (1 <? length twins)%nat
  then (carried, conflicts ++ [IndistinctHistory (description completed) twins])
  else
    match List.filter (λ e, same_words (snd e) completed) (enumerate new) with
    | [] => (carried, conflicts ++ [CompletedStepMissing (number completed) (description completed) (commit completed)])
    | [(index, target)] =>
        match credit_problem completed target unverifiable with
        | Some problem =>
            (carried, conflicts ++ [CreditNotVerifiable (number completed) (description completed)
                                      (default [] (covers target)) problem])
        | None => (carried ++ [(index, completed)], conflicts)
        end
    | several => (carried, conflicts ++ [AmbiguousMatch (description completed) ((λ e, number (snd e)) <$> several)])
    end.

(** ** The plan put together *)

(** The number of each step of the draft. *)
Definition carried_numbers (n : nat) (carried : Carried) : list (option N) :=
  fold_left (λ slots e, <[fst e := Some (number (snd e))]> slots) carried (replicate n None).
Fixpoint fill (next : N) (slots : list (option N)) : list (option N) :=
  match slots with
  | [] => []
  | Some n :: slots => Some n :: fill next slots
  | None :: slots => Some next :: fill (u64_add next 1) slots
  end.
Definition final_numbers (n : nat) (carried : Carried) : list (option N) :=
  fill (u64_add (highest (snd <$> carried)) 1) (carried_numbers n carried).

(** [Iterator::position]. *)
Fixpoint position (p : Step → bool) (l : list Step) : option nat :=
  match l with
  | [] => None
  | s :: l => if p s then Some O else S <$> position p l
  end.

Definition number_at (final : list (option N)) (index : nat) : option N := mjoin (final !! index).
Definition renumber_draft (new : list Step) (final : list (option N)) (numbers : list N) : list N :=
  (λ n, default n (position (λ s, number s =? n) new ≫= number_at final)) <$> numbers.
Definition renumber_old (old new : list Step) (final : list (option N)) (carried : Carried) (numbers : list N) : list N :=
  omap (λ n,
    referenced ← List.find (λ s, number s =? n) old;
    if done referenced
    then if existsb (λ e, number (snd e) =? number referenced) carried then Some (number referenced) else None
    else position (λ s, same_words s referenced) new ≫= number_at final) numbers.

(** A finished step as the new plan holds it. *)
Definition history_step (old new : list Step) (final : list (option N)) (carried : Carried) (completed : Step)
    : option Step :=
  '(index, _) ← List.find (λ e, number (snd e) =? number completed) carried;
  source ← new !! index;
  Some (mkStep (number completed) (description completed) true (commit completed) (attempts completed)
          (sessions completed) (covers source) (verify completed)
          (renumber_old old new final carried <$> depends completed) (scope completed)).
(** A step still to do. *)
Definition future_step (new : list Step) (final : list (option N)) (carried : Carried) (e : nat * Step) : option Step :=
  let '(index, s) := e in
  if existsb (λ c, (fst c =? index)%nat) carried then None
  else Some (mkStep (default (number s) (number_at final index)) (description s) (done s) (commit s) (attempts s)
               (sessions s) (covers s) (verify s) (renumber_draft new final <$> depends s) (scope s)).

Definition assemble (old new : Progress) (carried : Carried) : Progress :=
  let final := final_numbers (length (steps new)) carried in
  mkProgress (name new) (branch old) (brief_binding new)
    (omap (history_step (steps old) (steps new) final carried) (List.filter done (steps old))
     ++ omap (future_step (steps new) final carried) (enumerate (steps new))).

Definition check_order (reconciled : list Step) : list ReconcileConflict :=
  let pending := number <$> List.filter (λ s, negb (done s)) reconciled in
  List.filter done reconciled ≫= λ s,
    omap (λ d, if bool_decide (d ∈ pending) then Some (CompletedDependsOnPending (number s) d) else None)
      (default [] (depends s)).

Definition unverifiable_of (old : Progress) (brief_revision : Text) : option CreditReason :=
  match brief_binding old with
  | Some binding => if bool_decide (binding = brief_revision) then None else Some BriefChanged
  | None => Some BriefUnknown
  end.
Definition reconcile (old new : Progress) (brief_revision : Text) : result Progress (list ReconcileConflict) :=
  let unverifiable := unverifiable_of old brief_revision in
  match fold_left (match_step (steps old) (steps new) unverifiable) (List.filter done (steps old)) ([], []) with
  | (carried, []) =>
      let reconciled := assemble old new carried in
      match check_order (steps reconciled) with
      | [] => Ok reconciled
      | conflicts => Err conflicts
      end
  | (_, conflicts) => Err conflicts
  end.
End reconcile.

(** ** A sample *)

Definition done_step (n : N) (d c : string) (cov deps : list N) : Step :=
  mkStep n (txt d) true (Some (txt c)) 1 [] (Some cov) None (Some deps) None.
Definition todo_step (n : N) (d : string) (cov deps : list N) : Step :=
  mkStep n (txt d) false None 0 [] (Some cov) None (Some deps) None.
Definition OLD : Progress :=
  mkProgress (txt "p") (txt "work") (Some (txt "r7"))
    [done_step 1 "Lay the base" "aaa" [1; 2] []; done_step 4 "Build on it" "bbb" [3] [1]; todo_step 5 "Paint it" [] [4]].
Definition DRAFT : Progress :=
  mkProgress (txt "p2") (txt "other") (Some (txt "r7"))
    [todo_step 1 "Measure" [4] []; todo_step 2 "Build  ON it" [3] [3]; todo_step 3 "lay the base" [1] [];
     todo_step 4 "Paint it" [] [2; 1]].
Example sample_reconciled :
  (λ r, (λ s, (number s, default [] (covers s), default [] (depends s))) <$> steps r) <$>
    (match reconcile to_ascii_lowercase OLD DRAFT (txt "r7") with Ok r => Some r | Err _ => None end) =
  Some [(1, [1], []); (4, [3], [1]); (5, [4], []); (6, [], [4; 5])].
Proof. vm_compute. reflexivity. Qed.
