(* ===== verification/ReconcileProps.v ===== *)
(** * Carrying finished work over a new plan: what the new plan holds *)

From Stdlib Require Import String.
From stdpp Require Import base list sorting numbers.
From S2P Require Import Prelude Monitor Utf8 Chars Message Json Fields Brief Progress.
From S2P Require Import ProgressProps Reconcile.
From stdpp Require Import list.
#[local] Open Scope N_scope.
#[local] Open Scope list_scope.

Section props.
Context (to_lowercase : Text → Text).
Abbreviation same_words := (Reconcile.same_words to_lowercase).
Abbreviation match_step := (Reconcile.match_step to_lowercase).
Abbreviation reconcile := (Reconcile.reconcile to_lowercase).
Abbreviation assemble := (Reconcile.assemble to_lowercase).

(** ** What is promised *)

(** The draft's step at a position is the only one with the words of a finished
    step, and credits it with nothing it was not checked against. *)
Definition counterpart (new : list Step) (unverifiable : option CreditReason) (c : Step) (index : nat) (t : Step) : Prop :=
  new !! index = Some t ∧ same_words t c = true ∧
  (∀ j s, new !! j = Some s → same_words s c = true → j = index) ∧
  (default [] (covers t) = [] ∨ unverifiable = None ∧ default [] (covers t) ⊆ default [] (covers c)).
(** A finished step as the new plan has it: its own but for what it covers and
    for the steps it names. *)
Definition kept (c t s : Step) : Prop :=
  number s = number c ∧ description s = description c ∧ done s = true ∧ commit s = commit c ∧
  attempts s = attempts c ∧ sessions s = sessions c ∧ verify s = verify c ∧ scope s = scope c ∧ covers s = covers t.
(** Steps named in the draft, by their numbers in the new plan. *)
Definition moved (new : list Step) (place : nat → N) (numbers : list N) : list N :=
  (λ n, match position (λ s, number s =? n) new with Some j => place j | None => n end) <$> numbers.
(** A step of the draft as the new plan has it, where [place] gives the number
    of each step of the draft: it names the steps that the draft named. *)
Definition replaced (new : list Step) (place : nat → N) (i : nat) (d s : Step) : Prop :=
  number s = place i ∧ description s = description d ∧ done s = done d ∧ commit s = commit d ∧
  attempts s = attempts d ∧ sessions s = sessions d ∧ verify s = verify d ∧ scope s = scope d ∧ covers s = covers d ∧
  depends s = moved new place <$> depends d.

Record keeps_history (old new : Progress) (brief_revision : Text) (r : Progress) : Prop := {
  kept_name : name r = name new;
  kept_branch : branch r = branch old;
  kept_binding : brief_binding r = brief_binding new;
  (** The finished steps in their order, then the rest of the draft in its own. *)
  kept_parts : ∃ (history future : list Step) (index rest : list nat) (place : nat → N),
    steps r = history ++ future ∧
    Forall3 (λ c i s, ∃ t, counterpart (steps new) (unverifiable_of old brief_revision) c i t ∧
                           kept c t s ∧ place i = number c)
      (List.filter done (steps old)) index history ∧
    Forall2 (λ i s, ∃ d, steps new !! i = Some d ∧ replaced (steps new) place i d s) rest future ∧
    index ++ rest ≡ₚ seq 0 (length (steps new)) ∧ StronglySorted lt rest;
  kept_numbers : NoDup (number <$> steps r);
  (** No finished step waits for one that is not. *)
  kept_order : ∀ s ds d, s ∈ steps r → done s = true → depends s = Some ds → d ∈ ds →
    ∀ s', s' ∈ steps r → number s' = d → done s' = true;
}.

(** Why a refusal is right. *)
Definition justified (old new : Progress) (brief_revision : Text) (c : ReconcileConflict) : Prop :=
  match c with
  | CompletedStepMissing n d k =>
      ∃ s, s ∈ steps old ∧ done s = true ∧ number s = n ∧ description s = d ∧ commit s = k ∧
        ∀ t, t ∈ steps new → same_words t s = false
  | IndistinctHistory d twins =>
      ∃ s, s ∈ steps old ∧ done s = true ∧ description s = d ∧ (1 < length twins)%nat ∧
        twins = number <$> List.filter (λ t, done t && same_words t s) (steps old)
  | AmbiguousMatch d candidates =>
      ∃ s, s ∈ steps old ∧ done s = true ∧ description s = d ∧ (1 < length candidates)%nat ∧
        candidates = number <$> List.filter (λ t, same_words t s) (steps new)
  | CreditNotVerifiable n d criteria reason =>
      ∃ s t, s ∈ steps old ∧ done s = true ∧ number s = n ∧ description s = d ∧
        t ∈ steps new ∧ same_words t s = true ∧ criteria = default [] (covers t) ∧ criteria ≠ [] ∧
        match reason with
        | BriefChanged => ∃ b, brief_binding old = Some b ∧ b ≠ brief_revision
        | BriefUnknown => brief_binding old = None
        | Widened was => brief_binding old = Some brief_revision ∧ was = default [] (covers s) ∧ ¬ criteria ⊆ was
        end
  | CompletedDependsOnPending n d =>
      ∃ carried s s', s ∈ steps (assemble old new carried) ∧ s' ∈ steps (assemble old new carried) ∧
        done s = true ∧ number s = n ∧ d ∈ default [] (depends s) ∧ done s' = false ∧ number s' = d
  end.

(** ** Matching *)

Lemma elem_enumerate (l : list Step) i s : (i, s) ∈ enumerate l ↔ l !! i = Some s.
Proof.
  unfold enumerate. rewrite elem_of_lookup_imap. split; [by intros (j & y & [= -> ->] & H)|]. intros H. by exists i, s.
Qed.
Lemma filter_elem {A} (p : A → bool) l a : a ∈ List.filter p l ↔ a ∈ l ∧ p a = true.
Proof. by rewrite list_elem_of_In, filter_In, <-list_elem_of_In. Qed.
Lemma filter_enumerate p l : snd <$> List.filter (λ e, p (snd e)) (enumerate l) = List.filter p l.
Proof.
  unfold enumerate. assert (H : ∀ f : nat → Step → nat * Step, (∀ i s, snd (f i s) = s) →
            snd <$> List.filter (λ e, p (snd e)) (imap f l) = List.filter p l); [|by apply H].
  induction l as [|s l IH]; intros f Hf; [done|]. cbn [imap List.filter]. rewrite Hf.
  assert (Hr := IH (f ∘ S) ltac:(intros i t; apply Hf)). destruct (p s); cbn; rewrite ?Hf; by rewrite Hr.
Qed.
Lemma two_positions {A} (p : A → bool) l i j a b :
  l !! i = Some a → l !! j = Some b → (i < j)%nat → p a = true → p b = true → (2 <= length (List.filter p l))%nat.
Proof.
  intros Hi Hj Hij Ha Hb. rewrite <-(take_drop (S i) l), List.filter_app, length_app.
  assert (H1 : (1 <= length (List.filter p (take (S i) l)))%nat).
  { assert (Hin : a ∈ List.filter p (take (S i) l)).
    { apply filter_elem. split; [|done]. apply (list_elem_of_lookup_2 _ i). rewrite lookup_take_lt by lia. done. }
    destruct (List.filter p (take (S i) l)); [by apply not_elem_of_nil in Hin|cbn; lia]. }
  assert (H2 : (1 <= length (List.filter p (drop (S i) l)))%nat).
  { assert (Hin : b ∈ List.filter p (drop (S i) l)).
    { apply filter_elem. split; [|done]. apply (list_elem_of_lookup_2 _ (j - S i)). rewrite lookup_drop.
      by replace (S i + (j - S i))%nat with j by lia. }
    destruct (List.filter p (drop (S i) l)); [by apply not_elem_of_nil in Hin|cbn; lia]. }
  lia.
Qed.

Lemma credit_exact c t u :
  match credit_problem c t u with
  | None => default [] (covers t) = [] ∨ u = None ∧ default [] (covers t) ⊆ default [] (covers c)
  | Some r => default [] (covers t) ≠ [] ∧
      (u = Some r ∨ u = None ∧ r = Widened (default [] (covers c)) ∧ ¬ default [] (covers t) ⊆ default [] (covers c))
  end.
Proof.
  unfold credit_problem. cbv zeta. destruct (default [] (covers t)) as [|k ks]; [by left|].
  destruct u as [r|]; [split; [done|by left]|].
  set (was := default [] (covers c)). destruct (forallb _ _) eqn:Hf.
  - right. split; [done|]. intros x Hx%list_elem_of_In. rewrite forallb_forall in Hf. specialize (Hf x Hx).
    by apply bool_decide_eq_true in Hf.
  - split; [done|]. right. split_and!; [done..|]. intros Hsub. rewrite <-not_true_iff_false in Hf. apply Hf.
    apply forallb_forall. intros x Hx%list_elem_of_In. apply bool_decide_eq_true. by apply Hsub.
Qed.

(** What the loop has matched. *)
Definition matched (old new : list Step) (u : option CreditReason) (c : Step) (e : nat * Step) : Prop :=
  snd e = c ∧ (∃ t, counterpart new u c (fst e) t) ∧
  (length (List.filter (λ s, done s && same_words s c) old) <= 1)%nat.
Lemma matched_one old new rev ca co c :
  c ∈ steps old → done c = true →
  let u := unverifiable_of old rev in
  (∃ e, match_step (steps old) (steps new) u (ca, co) c = (ca ++ [e], co) ∧ matched (steps old) (steps new) u c e) ∨
  (∃ k, match_step (steps old) (steps new) u (ca, co) c = (ca, co ++ [k]) ∧ justified old new rev k ∧
     ∀ s d, k ≠ CompletedDependsOnPending s d).
Proof.
  intros Hc Hd u. unfold match_step. cbv zeta. rewrite length_fmap.
  destruct (Nat.ltb_spec 1 (length (List.filter (λ s, done s && same_words s c) (steps old)))) as [Ht|Ht].
  { right. eexists. split; [done|]. split; [|done]. exists c. by rewrite length_fmap. }
  pose proof (filter_enumerate (λ s, same_words s c) (steps new)) as Hsnd.
  assert (Hel : ∀ i t, (i, t) ∈ List.filter (λ e, same_words (snd e) c) (enumerate (steps new)) ↔
                       steps new !! i = Some t ∧ same_words t c = true).
  { intros i t. by rewrite filter_elem, elem_enumerate. }
  destruct (List.filter (λ e, same_words (snd e) c) (enumerate (steps new))) as [|[i t] [|e2 es]].
  - right. eexists. split; [done|]. split; [|done]. exists c. split_and!; [done..|]. intros t Ht'.
    apply not_true_is_false. intros Hw. apply list_elem_of_lookup in Ht' as [i Hi].
    apply (not_elem_of_nil (i, t)). by apply Hel.
  - destruct (Hel i t) as [Hit _]. specialize (Hit ltac:(by left)) as [Hi Hw].
    pose proof (credit_exact c t u) as Hcr. destruct (credit_problem c t u) as [r|].
    + right. eexists. split; [done|]. split; [|done]. exists c, t. destruct Hcr as [Hne Hr].
      split_and!; try done; [by eapply list_elem_of_lookup_2|].
      subst u. unfold unverifiable_of in Hr. destruct (brief_binding old) as [b|].
      * case_bool_decide as Hb; [subst b|]; destruct Hr as [Hr|(Hr & -> & Hs)]; try done.
        injection Hr as <-. by exists b.
      * destruct Hr as [Hr|[Hr _]]; [|done]. by injection Hr as <-.
    + left. eexists. split; [done|]. split_and!; [done| |done]. exists t. split_and!; [done|done| |done].
      intros j s Hj Hs. assert (Hin : (j, s) ∈ [(i, t)]) by by apply Hel. by apply list_elem_of_singleton in Hin as [= -> _].
  - right. eexists. split; [done|]. split; [|done]. exists c. rewrite <-Hsnd, length_fmap, <-list_fmap_compose. cbn [length].
    split_and!; try done; lia.
Qed.
Lemma matched_all old new rev l ca co ca' co' :
  Forall (λ c, c ∈ steps old ∧ done c = true) l →
  let u := unverifiable_of old rev in
  fold_left (match_step (steps old) (steps new) u) l (ca, co) = (ca', co') →
  ∃ es extra, ca' = ca ++ es ∧ co' = co ++ extra ∧ Forall (justified old new rev) extra ∧
    (extra = [] → Forall2 (matched (steps old) (steps new) u) l es).
Proof.
  intros Hl. cbv zeta. revert ca co. induction Hl as [|c l [Hc Hd] _ IH]; intros ca co; cbn [fold_left].
  - intros [= <- <-]. exists [], []. rewrite !app_nil_r. split_and!; try done; by constructor.
  - destruct (matched_one old new rev ca co c Hc Hd) as [(e & -> & He)|(k & -> & Hk & _)]; intros Hf;
      destruct (IH _ _ Hf) as (es & extra & -> & -> & Hj & Hm).
    + exists (e :: es), extra. rewrite <-app_assoc. split_and!; try done. intros H. constructor; [done|by apply Hm].
    + exists es, (k :: extra). rewrite <-app_assoc. split_and!; try done. by constructor.
Qed.
(** ** Numbers *)

Lemma carried_slots (ca : Carried) slots :
  NoDup (fst <$> ca) → Forall (λ e, fst e < length slots)%nat ca →
  let r := fold_left (λ slots e, <[fst e := Some (number (snd e))]> slots) ca slots in
  length r = length slots ∧ (∀ i, i ∉ (fst <$> ca) → r !! i = slots !! i) ∧
  (∀ i c, (i, c) ∈ ca → r !! i = Some (Some (number c))).
Proof.
  revert slots. induction ca as [|[i c] ca IH]; intros slots Hd Hl; cbn [fold_left fst snd].
  - split_and!; [done|done|]. by intros ? ? ?%not_elem_of_nil.
  - apply NoDup_cons in Hd as [Hi Hd]. apply list.Forall_cons in Hl as [Hlt Hl]. cbn in Hlt, Hi.
    destruct (IH (<[i:=Some (number c)]> slots) Hd) as (H1 & H2 & H3).
    { by rewrite length_insert. }
    rewrite length_insert in H1. split_and!; [done| |].
    + intros j Hj. apply not_elem_of_cons in Hj as [Hji Hj]. cbn in Hji. rewrite H2 by done.
      apply list_lookup_insert_ne. intros ->. by apply Hji.
    + intros j c' [[= -> ->]|Hin]%elem_of_cons; [|by apply H3]. rewrite H2 by done. by apply list_lookup_insert_eq.
Qed.

Definition is_open (o : option N) : bool := match o with None => true | Some _ => false end.
Definition opened (slots : list (option N)) : N := N.of_nat (length (List.filter is_open slots)).
Lemma opened_le slots : opened slots <= N.of_nat (length slots).
Proof. unfold opened. induction slots as [|o slots IH]; [done|]. cbn. destruct (is_open o); cbn [length]; lia. Qed.
Lemma fill_lookup slots next i o :
  next + N.of_nat (length slots) <= U64_MAX → slots !! i = Some o →
  fill next slots !! i = Some (Some (match o with Some n => n | None => next + opened (take i slots) end)).
Proof.
  revert next i. induction slots as [|s slots IH]; intros next i Hn; [done|]. cbn [length] in Hn.
  destruct i as [|i]; cbn [lookup list_lookup fill].
  - intros [= ->]. destruct o; [done|]. cbn. unfold opened. cbn. do 2 f_equal. lia.
  - intros Hi. destruct s as [n|]; cbn [fill lookup list_lookup take]; change (list_lookup i ?l) with (l !! i).
    + rewrite (IH next) by (done || lia). done.
    + rewrite u64_add_small by lia. rewrite (IH (next + 1)) by (done || lia). destruct o; [done|].
      unfold opened. cbn [List.filter is_open length]. do 2 f_equal. lia.
Qed.
Lemma opened_mono slots i j : (i < j)%nat → slots !! i = Some None → opened (take i slots) < opened (take j slots).
Proof.
  intros Hij Hi. rewrite <-(take_drop (S i) (take j slots)). rewrite take_take, Nat.min_l by lia.
  rewrite (take_S_r _ _ _ Hi). unfold opened. rewrite !List.filter_app, !length_app. cbn. lia.
Qed.

Definition uncarried (es : Carried) (i : nat) : bool := negb (existsb (λ c, (fst c =? i)%nat) es).
Lemma uncarried_exact es i : uncarried es i = true ↔ i ∉ (fst <$> es).
Proof.
  unfold uncarried. rewrite negb_true_iff, <-not_true_iff_false, existsb_exists. apply not_iff_compat.
  rewrite list_elem_of_fmap. split.
  - intros (e & He%list_elem_of_In & Hi%Nat.eqb_eq). by exists e.
  - intros (e & -> & He%list_elem_of_In). exists e. by rewrite Nat.eqb_refl.
Qed.
(** How many were chosen before each of those chosen. *)
Lemma filter_positions (p : nat → bool) n :
  (λ i, length (List.filter p (seq 0 i))) <$> List.filter p (seq 0 n) = seq 0 (length (List.filter p (seq 0 n))).
Proof.
  induction n as [|n IH]; [done|]. rewrite seq_S, List.filter_app, fmap_app, IH. cbn [Nat.add List.filter].
  destruct (p n); [|by rewrite !app_nil_r]. rewrite length_app. cbn [length fmap list_fmap]. by rewrite Nat.add_1_r, seq_S.
Qed.
Lemma opened_take (ca : Carried) slots i :
  (i <= length slots)%nat →
  (∀ j, (j < length slots)%nat → is_open (default None (slots !! j)) = uncarried ca j) →
  opened (take i slots) = N.of_nat (length (List.filter (uncarried ca) (seq 0 i))).
Proof.
  intros Hi Ho. unfold opened. f_equal. induction i as [|i IH]; [done|].
  destruct (lookup_lt_is_Some_2 slots i ltac:(lia)) as [o Hs]. rewrite (take_S_r _ _ _ Hs), seq_S, !List.filter_app, !length_app.
  rewrite IH by lia. f_equal. specialize (Ho i ltac:(lia)). rewrite Hs in Ho. cbn in Ho |- *. rewrite Ho. by destruct (uncarried ca i).
Qed.

(** What the numbering gives. *)
Record numbered (n : nat) (ca : Carried) (place : nat → N) : Prop := {
  num_at : ∀ i, (i < n)%nat → number_at (final_numbers n ca) i = Some (place i);
  num_carried : ∀ i c, (i, c) ∈ ca → place i = number c;
  num_fresh : ∀ i, (i < n)%nat → i ∉ (fst <$> ca) → highest (snd <$> ca) < place i;
  num_rising : ∀ i j, (i < j < n)%nat → i ∉ (fst <$> ca) → j ∉ (fst <$> ca) → place i < place j;
  num_exact : place <$> List.filter (uncarried ca) (seq 0 n) =
    (λ k, highest (snd <$> ca) + 1 + N.of_nat k) <$> seq 0 (length (List.filter (uncarried ca) (seq 0 n)));
}.
Lemma numbering n (ca : Carried) :
  NoDup (fst <$> ca) → Forall (λ e, fst e < n)%nat ca → highest (snd <$> ca) + 1 + N.of_nat n <= U64_MAX →
  ∃ place, numbered n ca place.
Proof.
  intros Hd Hl Hh. set (slots := carried_numbers n ca).
  destruct (carried_slots ca (replicate n None)) as (H1 & H2 & H3); [done|by rewrite length_replicate|].
  fold (carried_numbers n ca) in H1, H2, H3. fold slots in H1, H2, H3. rewrite length_replicate in H1.
  assert (Hopen : ∀ i, (i < n)%nat → i ∉ (fst <$> ca) → slots !! i = Some None).
  { intros i Hi Hn. rewrite H2 by done. by apply lookup_replicate_2. }
  exists (λ i, match slots !! i with Some (Some m) => m | _ => highest (snd <$> ca) + 1 + opened (take i slots) end).
  assert (Hfin : final_numbers n ca = fill (highest (snd <$> ca) + 1) slots).
  { unfold final_numbers. by rewrite u64_add_small by lia. }
  constructor.
  - intros i Hi. rewrite Hfin. unfold number_at. destruct (slots !! i) as [o|] eqn:Ho.
    + erewrite fill_lookup; [|rewrite H1; lia|exact Ho]. cbn. by destruct o.
    + apply lookup_ge_None in Ho. lia.
  - intros i c Hc. by rewrite (H3 _ _ Hc).
  - intros i Hi Hn. rewrite Hopen by done. lia.
  - intros i j Hij Hi Hj. rewrite !Hopen by (done || lia). pose proof (opened_mono slots i j) as Hm.
    rewrite Hopen in Hm by (done || lia). specialize (Hm ltac:(lia) eq_refl). lia.
  - rewrite <-filter_positions, <-list_fmap_compose. apply Forall_fmap_ext_1, list.Forall_forall.
    intros i [Hi Hu]%filter_elem. apply list_elem_of_In, in_seq in Hi. apply uncarried_exact in Hu as Hni. cbn.
    rewrite Hopen by (done || lia). rewrite (opened_take ca slots i); [done|lia|].
    intros j Hj. destruct (uncarried ca j) eqn:Huj.
    + apply uncarried_exact in Huj. rewrite Hopen by (done || lia). done.
    + rewrite <-not_true_iff_false, uncarried_exact in Huj. destruct (decide (j ∈ (fst <$> ca))) as [Hin|]; [|done].
      apply list_elem_of_fmap in Hin as ([j' c] & -> & Hin). cbn [fst]. by rewrite (H3 _ _ Hin).
Qed.
(** ** The plan put together *)

Lemma filter_filter {A} (p q : A → bool) l : List.filter (λ a, p a && q a) l = List.filter q (List.filter p l).
Proof. induction l as [|a l IH]; [done|]. cbn. destruct (p a); cbn; [destruct (q a)|]; by rewrite ?IH. Qed.
Lemma filter_sublist {A} (p : A → bool) l : List.filter p l `sublist_of` l.
Proof. induction l as [|a l IH]; [constructor|]. cbn. destruct (p a); by constructor. Qed.

Lemma matched_snd old new u l es : Forall2 (matched old new u) l es → snd <$> es = l.
Proof. induction 1 as [|c e l es [H _] _ IH]; [done|]. cbn. by rewrite H, IH. Qed.
Lemma finished_words old new u es i j a b :
  Forall2 (matched old new u) (List.filter done old) es →
  List.filter done old !! i = Some a → List.filter done old !! j = Some b → same_words a b = true → i = j.
Proof.
  intros Hm Hi Hj Hw. destruct (Forall2_lookup_l _ _ _ _ _ Hm Hi) as (e & _ & _ & _ & Htwins).
  rewrite filter_filter in Htwins. set (p := λ s, same_words s a) in Htwins.
  assert (p a = true ∧ p b = true) as [Hp Hp'].
  { unfold p, Reconcile.same_words in *. apply bool_decide_eq_true in Hw. split; by apply bool_decide_eq_true. }
  destruct (Nat.lt_trichotomy i j) as [Hij|[|Hij]]; [|done|].
  - pose proof (two_positions p _ _ _ _ _ Hi Hj Hij Hp Hp'). lia.
  - pose proof (two_positions p _ _ _ _ _ Hj Hi Hij Hp' Hp). lia.
Qed.
Lemma matched_distinct old new u es :
  Forall2 (matched old new u) (List.filter done old) es → NoDup (fst <$> es).
Proof.
  intros Hm. apply NoDup_alt. intros i j x Hi Hj. apply list_lookup_fmap_Some in Hi as ([x1 c1] & Hx1 & Hi), Hj as ([x2 c2] & Hx2 & Hj).
  cbn in Hx1, Hx2. subst x1 x2.
  destruct (Forall2_lookup_r _ _ _ _ _ Hm Hi) as (c & Hci & Hc & (t & Ht & Hw & _) & _).
  destruct (Forall2_lookup_r _ _ _ _ _ Hm Hj) as (c' & Hcj & Hc' & (t' & Ht' & Hw' & _) & _). cbn in *. subst c1 c2.
  rewrite Ht in Ht'. injection Ht' as <-. eapply finished_words; [exact Hm|exact Hci|exact Hcj|].
  unfold Reconcile.same_words in *. apply bool_decide_eq_true in Hw, Hw'. apply bool_decide_eq_true. congruence.
Qed.

Lemma find_by_number {B} (key : B → N) l e n :
  NoDup (key <$> l) → e ∈ l → key e = n → List.find (λ e, key e =? n) l = Some e.
Proof.
  intros Hd He Hn. destruct (List.find _ l) as [e'|] eqn:Hf.
  - apply find_some in Hf as [Hin Hk%N.eqb_eq]. apply list_elem_of_In in Hin. f_equal.
    apply list_elem_of_lookup in He as [i Hi], Hin as [j Hj].
    assert (i = j); [|congruence]. apply (proj1 (NoDup_alt _) Hd i j n); rewrite list_lookup_fmap, ?Hi, ?Hj; cbn; congruence.
  - apply list_elem_of_In in He. pose proof (find_none _ _ Hf _ He) as H. cbn in H. apply N.eqb_neq in H. congruence.
Qed.

Lemma history_kept old new u final (es es' : Carried) place l :
  NoDup (number <$> (snd <$> es)) → (∀ i c, (i, c) ∈ es → place i = number c) → es' ⊆ es →
  Forall (λ c, done c = true) l → Forall2 (matched old new u) l es' →
  Forall3 (λ c i s, ∃ t, counterpart new u c i t ∧ kept c t s ∧ place i = number c)
    l (fst <$> es') (omap (Reconcile.history_step to_lowercase old new final es) l).
Proof.
  intros Hd Hp. intros Hsub Hl Hm. revert Hsub Hl. induction Hm as [|c [i c'] l es' (Hc & (t & Ht) & _) _ IH]; intros Hsub Hl; [constructor|].
  cbn in Hc. subst c'. apply list.Forall_cons in Hl as [Hdc Hl].
  assert (Hin : (i, c) ∈ es) by (apply Hsub; by left).
  rewrite <-list_fmap_compose in Hd.
  assert (Hf : List.find (λ e, number (snd e) =? number c) es = Some (i, c)).
  { by apply (find_by_number (number ∘ snd)). }
  cbn [omap list_omap]. unfold history_step at 1. rewrite Hf. cbn [mbind option_bind]. cbn [fst] in Ht.
  pose proof Ht as (Hi & _). rewrite Hi. cbn [mbind option_bind fmap list_fmap fst]. constructor.
  - exists t. split_and!; [done| |by apply Hp]. by repeat split.
  - apply IH; [|done]. intros e He. apply Hsub. by right.
Qed.

Lemma position_lt p l j : position p l = Some j → (j < length l)%nat.
Proof.
  revert j. induction l as [|s l IH]; intros j; cbn [position]; [done|]. destruct (p s); [intros [= <-]; cbn; lia|].
  destruct (position p l) as [k|]; [|done]. intros [= <-]. specialize (IH k eq_refl). cbn. lia.
Qed.
Lemma future_replaced new es place :
  numbered (length new) es place →
  Forall2 (λ i s, ∃ d, new !! i = Some d ∧ replaced new place i d s)
    (List.filter (uncarried es) (seq 0 (length new)))
    (omap (future_step new (final_numbers (length new) es) es) (enumerate new)).
Proof.
  intros Hn. unfold enumerate.
  assert (Hgen : ∀ l k, (∀ i, l !! i = new !! (k + i)%nat) →
    Forall2 (λ i s, ∃ d, new !! i = Some d ∧ replaced new place i d s) (List.filter (uncarried es) (seq k (length l)))
      (omap (future_step new (final_numbers (length new) es) es) (imap (λ i s, ((k + i)%nat, s)) l))).
  2: { specialize (Hgen new 0%nat). apply Hgen. done. }
  induction l as [|d l IH]; intros k Hl; [constructor|]. cbn [length seq List.filter imap omap list_omap].
  assert (Hrest := IH (S k) ltac:(intros i; transitivity ((d :: l) !! S i); [done|rewrite Hl; f_equal; lia])).
  assert (Hext : imap ((λ i s, ((k + i)%nat, s)) ∘ S) l = imap (λ i s, ((S k + i)%nat, s)) l).
  { apply imap_ext. intros i x _. cbn. f_equal. lia. }
  rewrite Hext. rewrite Nat.add_0_r. unfold future_step at 1. unfold uncarried at 1.
  specialize (Hl 0%nat). rewrite Nat.add_0_r in Hl. symmetry in Hl. change ((d :: l) !! 0%nat) with (Some d) in Hl.
  destruct (existsb _ es); cbn [negb]; [done|]. constructor; [|done]. exists d. split; [done|].
  assert (Hk : (k < length new)%nat) by (by eapply lookup_lt_Some).
  split; cbn; [by rewrite (num_at _ _ _ Hn)|]. split_and!; try done. destruct (depends d) as [ns|]; [|done]. cbn. f_equal.
  unfold renumber_draft, moved. apply list_fmap_ext. intros i n _. destruct (position _ new) as [j|] eqn:Hj; [|done].
  cbn [mbind option_bind]. by rewrite (num_at _ _ _ Hn) by by eapply position_lt.
Qed.

Lemma filter_seq_sorted p k n : StronglySorted lt (List.filter p (seq k n)).
Proof.
  revert k. induction n as [|n IH]; intros k; cbn; [constructor|]. destruct (p k); [|done]. constructor; [done|].
  apply list.Forall_forall. intros i [Hi _]%filter_elem. apply list_elem_of_In, in_seq in Hi. lia.
Qed.
Lemma places_cover es n : NoDup (fst <$> es) → Forall (λ e, fst e < n)%nat es →
  (fst <$> es) ++ List.filter (uncarried es) (seq 0 n) ≡ₚ seq 0 n.
Proof.
  intros Hd Hl. apply NoDup_Permutation; [| |].
  - apply list.NoDup_app. split_and!; [done| |].
    + intros i Hi [_ Hu]%filter_elem. by apply uncarried_exact in Hu.
    + eapply sublist_NoDup; [|apply filter_sublist]. apply NoDup_ListNoDup, seq_NoDup.
  - apply NoDup_ListNoDup, seq_NoDup.
  - intros i. rewrite elem_of_app, filter_elem, uncarried_exact. split.
    + intros [Hi|[Hi _]]; [|done]. apply list_elem_of_fmap in Hi as (e & -> & He).
      rewrite list.Forall_forall in Hl. apply list_elem_of_In, in_seq. specialize (Hl e He). lia.
    + intros Hi. destruct (decide (i ∈ (fst <$> es))); [by left|by right].
Qed.
Lemma history_numbers u new place l ks ss :
  Forall3 (λ c (i : nat) s, ∃ t, counterpart new u c i t ∧ kept c t s ∧ place i = number c) l ks ss →
  number <$> ss = number <$> l.
Proof. induction 1 as [|c i s l ks ss (t & _ & (Hn & _) & _) _ IH]; [done|]. cbn. by rewrite Hn, IH. Qed.
Lemma future_numbers new place ks ss :
  Forall2 (λ i s, ∃ d, new !! i = Some d ∧ replaced new place i d s) ks ss → number <$> ss = place <$> ks.
Proof. induction 1 as [|i s ks ss (d & _ & Hn & _) _ IH]; [done|]. cbn. by rewrite Hn, IH. Qed.
Lemma highest_sublist l k : l ⊆ k → highest l <= highest k.
Proof.
  induction l as [|s l IH]; intros Hs; [cbn; lia|]. cbn [highest fold_right].
  assert (Hl : highest l <= highest k) by (apply IH; intros x Hx; apply Hs; by right).
  pose proof (highest_bound k s ltac:(apply Hs; by left)). unfold highest in *. lia.
Qed.
Lemma rising_NoDup (place : nat → N) ks :
  StronglySorted lt ks → (∀ i j, i ∈ ks → j ∈ ks → (i < j)%nat → place i < place j) → NoDup (place <$> ks).
Proof.
  induction 1 as [|i ks Hs IH Hi]; intros Hp; [constructor|]. cbn. apply NoDup_cons. split.
  - intros (j & Hij & Hj)%list_elem_of_fmap. rewrite list.Forall_forall in Hi.
    pose proof (Hp i j ltac:(by left) ltac:(by right) (Hi j Hj)). lia.
  - apply IH. intros a b Ha Hb. apply Hp; by right.
Qed.

(** The order of the finished steps, as it was checked. *)
Lemma check_order_justified r s d :
  CompletedDependsOnPending s d ∈ check_order r →
  ∃ a b, a ∈ r ∧ b ∈ r ∧ done a = true ∧ number a = s ∧ d ∈ default [] (depends a) ∧ done b = false ∧ number b = d.
Proof.
  unfold check_order. cbv zeta. intros (a & Hk & [Ha Hd]%filter_elem)%list_elem_of_bind.
  apply list_elem_of_omap in Hk as (x & Hx & Hk). case_bool_decide as Hp; [|done]. injection Hk as <- <-.
  apply list_elem_of_fmap in Hp as (b & -> & [Hb Hn%negb_true_iff]%filter_elem). by exists a, b.
Qed.
Lemma check_order_only r k : k ∈ check_order r → ∃ s d, k = CompletedDependsOnPending s d.
Proof.
  unfold check_order. cbv zeta. intros (a & Hk & _)%list_elem_of_bind.
  apply list_elem_of_omap in Hk as (x & _ & Hk). case_bool_decide; [|done]. injection Hk as <-. by eexists _, _.
Qed.
Lemma check_order_passed r s ds d :
  check_order r = [] → s ∈ r → done s = true → depends s = Some ds → d ∈ ds →
  ∀ s', s' ∈ r → number s' = d → done s' = true.
Proof.
  intros Hc Hs Hd Hds Hin s' Hs' Hn. apply not_false_is_true. intros Hf.
  apply (not_elem_of_nil (CompletedDependsOnPending (number s) d)). rewrite <-Hc. unfold check_order. cbv zeta.
  apply list_elem_of_bind. exists s. split; [|by apply filter_elem]. apply list_elem_of_omap. exists d.
  rewrite Hds. split; [done|]. rewrite bool_decide_eq_true_2; [done|].
  apply list_elem_of_fmap. exists s'. split; [done|]. apply filter_elem. by rewrite Hf.
Qed.

(** A reconciled plan, with the matching and the numbering it was put together
    from. *)
Record put_together (old new : Progress) (u : option CreditReason) (es : Carried) (place : nat → N) (r : Progress) : Prop := {
  put_matched : Forall2 (matched (steps old) (steps new) u) (List.filter done (steps old)) es;
  put_numbered : numbered (length (steps new)) es place;
  put_indices : NoDup (fst <$> es) ∧ Forall (λ e, fst e < length (steps new))%nat es;
  put_plan : r = assemble old new es;
  put_order : check_order (steps r) = [];
}.
Lemma finished_distinct old : NoDup (number <$> steps old) → NoDup (number <$> List.filter done (steps old)).
Proof. intros Hd. eapply sublist_NoDup; [exact Hd|]. apply fmap_sublist, filter_sublist. Qed.
Lemma finished_highest old : highest (List.filter done (steps old)) <= highest (steps old).
Proof. apply highest_sublist. by intros c [? _]%filter_elem. Qed.

Lemma reconcile_outcome old new brief_revision :
  highest (steps old) + 1 + N.of_nat (length (steps new)) <= U64_MAX →
  match reconcile old new brief_revision with
  | Ok r => ∃ es place, put_together old new (unverifiable_of old brief_revision) es place r
  | Err conflicts => conflicts ≠ [] ∧ Forall (justified old new brief_revision) conflicts
  end.
Proof.
  intros Hh. unfold Reconcile.reconcile. cbv zeta. set (finished := List.filter done (steps old)).
  destruct (fold_left (match_step (steps old) (steps new) (unverifiable_of old brief_revision)) finished ([], []))
    as [es conflicts] eqn:Hf.
  assert (Hfin : Forall (λ c, c ∈ steps old ∧ done c = true) finished).
  { apply list.Forall_forall. intros c Hc. by apply filter_elem. }
  destruct (matched_all old new brief_revision finished [] [] es conflicts Hfin Hf) as (es' & extra & -> & -> & Hj & Hm).
  cbn [app]. destruct extra as [|k extra]; [|by split]. specialize (Hm eq_refl).
  destruct (check_order _) as [|k ks] eqn:Hc.
  2: { split; [done|]. apply list.Forall_forall. intros c Hin. rewrite <-Hc in Hin.
       destruct (check_order_only _ _ Hin) as (s & d & ->). apply check_order_justified in Hin as (a & b & H). by exists es', a, b. }
  pose proof (matched_snd _ _ _ _ _ Hm) as Hsnd. pose proof (matched_distinct _ _ _ _ Hm) as Hdist.
  assert (Hlt : Forall (λ e, fst e < length (steps new))%nat es').
  { apply list.Forall_forall. intros e He. apply list_elem_of_lookup in He as [i Hi].
    destruct (Forall2_lookup_r _ _ _ _ _ Hm Hi) as (c & _ & _ & (t & Ht & _) & _). by eapply lookup_lt_Some. }
  destruct (numbering (length (steps new)) es' Hdist Hlt) as [place Hplace].
  { rewrite Hsnd. pose proof (finished_highest old). fold finished in H. lia. }
  by exists es', place.
Qed.

Section parts.
Context (old new : Progress) (u : option CreditReason) (es : Carried) (place : nat → N) (r : Progress).
Context (Hold : NoDup (number <$> steps old)) (Hr : put_together old new u es place r).
Let final := final_numbers (length (steps new)) es.
Definition history : list Step :=
  omap (Reconcile.history_step to_lowercase (steps old) (steps new) final es) (List.filter done (steps old)).
Definition future : list Step := omap (future_step (steps new) final es) (enumerate (steps new)).
Definition rest : list nat := List.filter (uncarried es) (seq 0 (length (steps new))).

Lemma carried_finished : snd <$> es = List.filter done (steps old).
Proof. eapply matched_snd, Hr. Qed.
Lemma parts_steps : steps r = history ++ future.
Proof. by rewrite (put_plan _ _ _ _ _ _ Hr). Qed.
Lemma parts_history : Forall3 (λ c i s, ∃ t, counterpart (steps new) u c i t ∧ kept c t s ∧ place i = number c)
  (List.filter done (steps old)) (fst <$> es) history.
Proof.
  apply history_kept; [|apply (num_carried _ _ _ (put_numbered _ _ _ _ _ _ Hr))|done| |apply Hr].
  - rewrite carried_finished. by apply finished_distinct.
  - apply list.Forall_forall. by intros c [_ ?]%filter_elem.
Qed.
Lemma parts_future : Forall2 (λ i s, ∃ d, steps new !! i = Some d ∧ replaced (steps new) place i d s) rest future.
Proof. apply future_replaced, Hr. Qed.
Lemma rest_exact i : i ∈ rest ↔ (i < length (steps new))%nat ∧ i ∉ (fst <$> es).
Proof. unfold rest. rewrite filter_elem, uncarried_exact, list_elem_of_In, in_seq. intuition lia. Qed.
Lemma parts_numbers : number <$> steps r = (number <$> List.filter done (steps old)) ++ (place <$> rest).
Proof.
  rewrite parts_steps, fmap_app. by rewrite (history_numbers _ _ _ _ _ _ parts_history), (future_numbers _ _ _ _ parts_future).
Qed.
Lemma parts_distinct : NoDup (number <$> steps r).
Proof.
  rewrite parts_numbers. pose proof (put_numbered _ _ _ _ _ _ Hr) as Hp. apply list.NoDup_app. split_and!.
  - by apply finished_distinct.
  - intros n (c & -> & Hc)%list_elem_of_fmap (i & Hn & [Hi Hni]%rest_exact)%list_elem_of_fmap.
    pose proof (num_fresh _ _ _ Hp i Hi Hni) as Hfr. rewrite carried_finished in Hfr.
    pose proof (highest_bound _ _ Hc). lia.
  - apply rising_NoDup; [apply filter_seq_sorted|]. intros i j [Hi Hni]%rest_exact [Hj Hnj]%rest_exact Hij.
    by apply (num_rising _ _ _ Hp).
Qed.
End parts.

Lemma reconcile_exact old new brief_revision :
  NoDup (number <$> steps old) →
  highest (steps old) + 1 + N.of_nat (length (steps new)) <= U64_MAX →
  match reconcile old new brief_revision with
  | Ok r => keeps_history old new brief_revision r
  | Err conflicts => conflicts ≠ [] ∧ Forall (justified old new brief_revision) conflicts
  end.
Proof.
  intros Hd Hh. pose proof (reconcile_outcome old new brief_revision Hh) as Ho.
  destruct (reconcile old new brief_revision) as [r|cs]; [|done]. destruct Ho as (es & place & Hr).
  pose proof Hr as [_ _ [Hdist Hlt] -> Hc]. constructor; [done|done|done| | |by intros s ds d; apply check_order_passed].
  - eexists _, _, (fst <$> es), (rest new es), place. split_and!; [by eapply parts_steps|by eapply parts_history|by eapply parts_future| |].
    + by apply places_cover.
    + apply filter_seq_sorted.
  - by eapply parts_distinct.
Qed.

(** C23. Finished work survives a new plan.  Take a saved plan with distinct step
    numbers, and room for the new ones.  Where the two can be reconciled, the
    new plan starts with the finished steps of the old one, each at its own
    number, with its own words, commit, attempts, sessions and check, matched to
    the only step of the draft with those words and credited with no criterion
    it was not checked against; the rest of the draft follows in its order, and
    a dependency on a step of the draft still names that step, at its new number
    (one on a number that the draft does not have is left as written, and may
    then name a step nobody meant); no number is used twice, and no finished
    step waits for one that is not.  Otherwise nothing is written, and each
    conflict that is reported is one. *)
Theorem finished_work_is_kept old new brief_revision :
  NoDup (number <$> steps old) →
  highest (steps old) + 1 + N.of_nat (length (steps new)) <= U64_MAX →
  match reconcile old new brief_revision with
  | Ok r => keeps_history old new brief_revision r
  | Err conflicts => conflicts ≠ [] ∧ Forall (justified old new brief_revision) conflicts
  end.
Proof. apply reconcile_exact. Qed.
End props.

Lemma finished_work_is_kept_witness :
  ∃ r, Reconcile.reconcile to_ascii_lowercase OLD DRAFT (txt "r7") = Ok r ∧
       keeps_history to_ascii_lowercase OLD DRAFT (txt "r7") r.
Proof.
  assert (H := finished_work_is_kept to_ascii_lowercase OLD DRAFT (txt "r7")
    ltac:(by apply (bool_decide_unpack _); vm_compute) ltac:(by vm_compute)).
  destruct (Reconcile.reconcile _ _ _ _) as [r|cs] eqn:Hr; [by exists r|]. by vm_compute in Hr.
Defined.

(** A draft that marks a step as done itself is not held back: the step is new,
    has no evidence, and counts as finished in the plan. *)
Example drafted_done_steps_pass :
  let draft := mkProgress (txt "p2") (txt "b") (Some (txt "r7"))
    [todo_step 1 "Lay the base" [] []; todo_step 2 "Build on it" [] []; set_commit None (done_step 3 "Ship it" "" [9] [])] in
  (λ r, (λ s, (number s, done s, commit s)) <$> steps r) <$>
    (match Reconcile.reconcile to_ascii_lowercase OLD draft (txt "r7") with Ok r => Some r | Err _ => None end) =
  Some [(1, true, Some (txt "aaa")); (4, true, Some (txt "bbb")); (5, true, None)].
Proof. vm_compute. reflexivity. Qed.

(** ** Reconciling again changes nothing

    Approval reconciles the drafted plan once more with the saved one and takes
    it only when nothing moves (approve_plan in plan_draft.rs).  A plan that
    came from reconciling passes. *)

(** ** Lists *)

Lemma omap_all {A B} (f : A → option B) (l : list A) (k : list B) :
  length k = length l → (∀ i x, l !! i = Some x → f x = k !! i) → omap f l = k.
Proof.
  revert k. induction l as [|a l IH]; intros [|b k] Hl Hf; try done. cbn [omap list_omap].
  rewrite (Hf 0%nat a eq_refl). cbn. f_equal. apply IH; [by injection Hl|]. intros i x Hi. by apply (Hf (S i)).
Qed.
Lemma omap_lookup_all {A B} (f : A → option B) (l : list A) i x :
  (∀ x, x ∈ l → is_Some (f x)) → l !! i = Some x → omap f l !! i = f x.
Proof.
  revert i. induction l as [|a l IH]; intros i Hs Hi; [done|]. cbn [omap list_omap].
  destruct (Hs a ltac:(by left)) as [b Hb]. rewrite Hb. destruct i as [|i]; [by injection Hi as ->|].
  apply IH; [|done]. intros y Hy. apply Hs. by right.
Qed.
Lemma position_find p l (final : list (option N)) :
  (∀ i s, l !! i = Some s → number_at final i = Some (number s)) →
  position p l ≫= number_at final = number <$> List.find p l.
Proof.
  intros Hf. assert (Hgen : ∀ l k, (∀ i s, l !! i = Some s → number_at final (k + i) = Some (number s)) →
    ((λ j, (k + j)%nat) <$> position p l) ≫= number_at final = number <$> List.find p l).
  2: { specialize (Hgen l 0%nat Hf). destruct (position p l); exact Hgen. }
  clear l Hf. induction l as [|s l IH]; intros k Hl; [done|]. cbn [position List.find]. destruct (p s) eqn:Hp.
  - apply (Hl 0%nat s eq_refl).
  - rewrite <-(IH (S k)).
    + destruct (position p l) as [j|]; [|done]. cbn. by rewrite Nat.add_succ_r.
    + intros i x Hi. rewrite <-(Hl (S i) x Hi). f_equal. lia.
Qed.
Lemma find_app {A} (p : A → bool) a b :
  List.find p (a ++ b) = match List.find p a with Some x => Some x | None => List.find p b end.
Proof. induction a as [|x a IH]; [done|]. cbn. by destruct (p x). Qed.
Lemma find_ext_elem {A} (p q : A → bool) l : (∀ x, x ∈ l → p x = q x) → List.find p l = List.find q l.
Proof.
  induction l as [|a l IH]; intros H; [done|]. cbn. rewrite (H a) by by left. rewrite IH; [done|].
  intros x Hx. apply H. by right.
Qed.

Lemma position_spec p l :
  match position p l with
  | Some j => (∃ d, l !! j = Some d ∧ p d = true) ∧ ∀ i d, (i < j)%nat → l !! i = Some d → p d = false
  | None => ∀ d, d ∈ l → p d = false
  end.
Proof.
  induction l as [|s l IH]; cbn [position]; [by intros d ?%not_elem_of_nil|]. destruct (p s) eqn:Hp.
  - split; [by exists s|]. intros i d Hi. lia.
  - destruct (position p l) as [j|]; cbn [fmap option_fmap option_map].
    + destruct IH as [(d & Hd & Hpd) Hf]. split; [by exists d|]. intros [|i] e Hi He; [by injection He as <-|].
      apply (Hf i); [lia|done].
    + intros d [->|Hd]%elem_of_cons; [done|by apply IH].
Qed.
Lemma find_none_elem {A} (p : A → bool) l : (∀ a, a ∈ l → p a = false) → List.find p l = None.
Proof.
  intros H. destruct (List.find p l) as [a|] eqn:Hf; [|done]. apply find_some in Hf as [Hin Hp].
  apply list_elem_of_In in Hin. by rewrite H in Hp.
Qed.

Section again.
Context (to_lowercase : Text → Text).
Abbreviation same_words := (Reconcile.same_words to_lowercase).
Abbreviation match_step := (Reconcile.match_step to_lowercase).
Abbreviation reconcile := (Reconcile.reconcile to_lowercase).
Abbreviation assemble := (Reconcile.assemble to_lowercase).

Context (old new : Progress) (rev : Text) (es : Carried) (place : nat → N) (r : Progress).
Let u := unverifiable_of old rev.
Context (Hold : NoDup (number <$> steps old)) (Hr : put_together to_lowercase old new u es place r).
Let finished := List.filter done (steps old).
Let final := final_numbers (length (steps new)) es.
Let past := history to_lowercase old new es.
Let ahead := future new es.

Lemma same_words_of a b c : description a = description b → same_words a c = same_words b c.
Proof. unfold Reconcile.same_words. by intros ->. Qed.
Lemma same_words_trans a b c : same_words a c = true → same_words b c = true → same_words a b = true.
Proof. unfold Reconcile.same_words. rewrite !bool_decide_eq_true. congruence. Qed.
Lemma same_words_sym a b : same_words a b = same_words b a.
Proof. unfold Reconcile.same_words. apply bool_decide_ext. split; congruence. Qed.

Lemma past_at k c : finished !! k = Some c →
  ∃ i t s, (fst <$> es) !! k = Some i ∧ past !! k = Some s ∧ counterpart to_lowercase (steps new) u c i t ∧ kept c t s.
Proof.
  intros Hk. destruct (Forall3_lookup_l _ _ _ _ _ _ (parts_history _ _ _ _ _ _ _ Hold Hr) Hk) as (i & s & Hi & Hs & t & Ht & Hkept & _).
  by exists i, t, s.
Qed.
Lemma past_length : length past = length finished.
Proof.
  pose proof (parts_history _ _ _ _ _ _ _ Hold Hr) as H. apply Forall3_length_lr in H. by symmetry.
Qed.
Lemma steps_r : steps r = past ++ ahead.
Proof. by eapply parts_steps. Qed.

(** Only its own step has the words of a finished step. *)
Lemma words_once j s k c :
  steps r !! j = Some s → finished !! k = Some c → same_words s c = true → j = k.
Proof.
  intros Hj Hk Hw. rewrite steps_r in Hj. apply lookup_app_Some in Hj as [Hj|[Hlen Hj]].
  - assert (Hlt : (j < length finished)%nat) by (rewrite <-past_length; by eapply lookup_lt_Some).
    destruct (lookup_lt_is_Some_2 _ _ Hlt) as [c' Hc']. destruct (past_at _ _ Hc') as (i & t & s' & _ & Hs' & _ & Hkept).
    rewrite Hs' in Hj. injection Hj as ->. destruct Hkept as (_ & Hd & _).
    eapply (finished_words _ _ _ _ _ _ _ _ _ (put_matched _ _ _ _ _ _ _ Hr)); [exact Hc'|exact Hk|].
    by rewrite <-(same_words_of s c').
  - destruct (Forall2_lookup_r _ _ _ _ _ (parts_future _ _ _ _ _ _ _ Hr) Hj) as (i & Hi & d & Hd & _ & Hdesc & _).
    destruct (past_at _ _ Hk) as (ic & t & sc & Hic & _ & (_ & _ & Honly & _) & _).
    assert (i = ic) as ->.
    { eapply Honly; [exact Hd|]. by rewrite <-(same_words_of s d). }
    apply list_elem_of_lookup_2 in Hi, Hic. apply rest_exact in Hi as [_ Hi]. done.
Qed.
Lemma past_in_r k s : past !! k = Some s → steps r !! k = Some s.
Proof. intros Hs. rewrite steps_r. by apply lookup_app_l_Some. Qed.

Lemma no_conflict k : justified to_lowercase old r rev k → (∀ s d, k ≠ CompletedDependsOnPending s d) → False.
Proof.
  assert (Hpos : ∀ s, s ∈ steps old → done s = true → ∃ k, finished !! k = Some s).
  { intros s Hs Hd. apply list_elem_of_lookup, filter_elem. done. }
  intros Hj Hne. destruct k as [n d c|d cand|d tw|n d crit reason|]; cbn in Hj; [| | | |by eapply Hne].
  - destruct Hj as (s & Hs & Hd & _ & _ & _ & Hno). destruct (Hpos s Hs Hd) as [k Hk].
    destruct (past_at _ _ Hk) as (_ & t & s' & _ & Hs' & _ & (_ & Hdesc & _)).
    apply past_in_r, list_elem_of_lookup_2 in Hs'. specialize (Hno s' Hs'). rewrite (same_words_of s' s) in Hno by done.
    unfold Reconcile.same_words in Hno. by rewrite bool_decide_eq_true_2 in Hno.
  - destruct Hj as (s & Hs & Hd & _ & Hlen & ->). destruct (Hpos s Hs Hd) as [k Hk]. rewrite length_fmap in Hlen.
    rewrite <-(filter_enumerate (λ t, same_words t s)), length_fmap in Hlen.
    destruct (List.filter _ (enumerate (steps r))) as [|[a x] [|[b y] rest]] eqn:Hf; [cbn in Hlen; lia|cbn in Hlen; lia|].
    assert (Hel : ∀ i t, (i, t) ∈ (a, x) :: (b, y) :: rest → i = k).
    { intros i t Hin. rewrite <-Hf in Hin. apply filter_elem in Hin as [Hin Hw]. apply elem_enumerate in Hin. by eapply words_once. }
    assert (a = k) as -> by (eapply Hel; by left). assert (b = k) as -> by (eapply Hel; right; by left).
    assert (Hnd : NoDup (fst <$> List.filter (λ e, same_words (snd e) s) (enumerate (steps r)))).
    { eapply sublist_NoDup; [|apply fmap_sublist, filter_sublist]. apply NoDup_alt. intros i j z Hi Hj.
      unfold enumerate in *. apply list_lookup_fmap_Some in Hi as (e & -> & Hi), Hj as (e' & Hz & Hj).
      apply list_lookup_imap_Some in Hi as (? & ? & ->), Hj as (? & ? & ->). done. }
    rewrite Hf in Hnd. cbn in Hnd. apply NoDup_cons in Hnd as [Hnin _]. apply Hnin. by left.
  - destruct Hj as (s & Hs & Hd & _ & Hlen & ->). destruct (Hpos s Hs Hd) as [k Hk].
    destruct (Forall2_lookup_l _ _ _ _ _ (put_matched _ _ _ _ _ _ _ Hr) Hk) as (e & _ & _ & _ & Htw).
    rewrite length_fmap in Hlen. lia.
  - destruct Hj as (s & t & Hs & Hd & _ & _ & Ht & Hw & -> & Hcrit & Hreason). destruct (Hpos s Hs Hd) as [k Hk].
    apply list_elem_of_lookup in Ht as [j Hj]. assert (j = k) as -> by by eapply words_once.
    destruct (past_at _ _ Hk) as (_ & t' & s' & _ & Hs' & (_ & _ & _ & Hcov) & Hkept).
    apply past_in_r in Hs'. rewrite Hj in Hs'. injection Hs' as ->.
    destruct Hkept as (_ & _ & _ & _ & _ & _ & _ & _ & Hce). rewrite Hce in *. destruct Hcov as [|[Hu Hsub]]; [done|].
    unfold u, unverifiable_of in Hu. destruct reason as [| |was].
    + destruct Hreason as (b & Hb & Hbr). rewrite Hb in Hu. by rewrite bool_decide_eq_false_2 in Hu.
    + by rewrite Hreason in Hu.
    + destruct Hreason as (_ & -> & Hns). done.
Qed.
Lemma matched_again ca k c : finished !! k = Some c →
  match_step (steps old) (steps r) u (ca, []) c = (ca ++ [(k, c)], []).
Proof.
  intros Hk. pose proof (list_elem_of_lookup_2 _ _ _ Hk) as [Hc Hd]%filter_elem.
  destruct (matched_one to_lowercase old r rev ca [] c Hc Hd) as [([j c'] & Hm & Hc' & (t & Hj & Hw & _) & _)|(x & _ & Hx & Hne)].
  - cbn in Hc', Hj. subst c'. unfold u. rewrite Hm. assert (j = k) as -> by by eapply words_once. done.
  - by destruct (no_conflict x Hx Hne).
Qed.
Lemma matching_again :
  fold_left (match_step (steps old) (steps r) u) finished ([], []) = (enumerate finished, []).
Proof.
  assert (Hgen : ∀ l ca k, (∀ i, l !! i = finished !! (k + i)%nat) →
    fold_left (match_step (steps old) (steps r) u) l (ca, []) = (ca ++ imap (λ i c, ((k + i)%nat, c)) l, [])).
  2: { by apply (Hgen finished [] 0%nat). }
  induction l as [|c l IH]; intros ca k Hl; cbn [fold_left imap]; [by rewrite app_nil_r|].
  rewrite (matched_again ca k c).
  - rewrite (IH _ (S k)).
    + rewrite <-app_assoc. cbn [app]. rewrite Nat.add_0_r. do 3 f_equal. apply imap_ext. intros i x _. cbn. f_equal. lia.
    + intros i. transitivity ((c :: l) !! S i); [done|]. rewrite Hl. f_equal. lia.
  - rewrite <-(Nat.add_0_r k). by rewrite <-Hl.
Qed.

(** ** The same numbers *)

Let n := length (steps r).
Let es2 := enumerate finished.
Let final2 := final_numbers n es2.
Context (Hroom : highest (steps old) + 1 + N.of_nat (length (steps new)) <= U64_MAX).

Lemma enumerate_fst (l : list Step) : fst <$> enumerate l = seq 0 (length l).
Proof.
  unfold enumerate. apply list_eq. intros i. rewrite list_lookup_fmap, list_lookup_imap.
  destruct (l !! i) as [s|] eqn:Hs; cbn.
  - symmetry. apply lookup_seq. split; [lia|]. by eapply lookup_lt_Some.
  - symmetry. apply lookup_ge_None. rewrite length_seq. by apply lookup_ge_None.
Qed.
Lemma enumerate_snd (l : list Step) : snd <$> enumerate l = l.
Proof.
  unfold enumerate. apply list_eq. intros i. rewrite list_lookup_fmap, list_lookup_imap. by destruct (l !! i).
Qed.
Lemma parts_count : (length finished + length ahead)%nat = n ∧ length (rest new es) = length ahead ∧ n = length (steps new).
Proof.
  pose proof (Forall2_length _ _ _ (parts_future _ _ _ _ _ _ _ Hr)) as Hf. split_and!; [|done|].
  - unfold n. rewrite steps_r, length_app, past_length. done.
  - unfold n. rewrite steps_r, length_app, past_length. destruct (put_indices _ _ _ _ _ _ _ Hr) as [Hd Hl].
    pose proof (Permutation_length (places_cover es (length (steps new)) Hd Hl)) as Hp.
    rewrite length_app, length_fmap, length_seq in Hp. unfold rest in Hf.
    assert (He : length es = length finished).
    { pose proof (carried_finished _ _ _ _ _ _ _ Hr) as Hs. apply (f_equal length) in Hs. by rewrite length_fmap in Hs. }
    fold ahead in Hf. lia.
Qed.
Lemma uncarried_again i : uncarried es2 i = negb (i <? length finished)%nat.
Proof.
  apply eq_true_iff_eq. rewrite uncarried_exact, negb_true_iff, Nat.ltb_ge. unfold es2. rewrite enumerate_fst.
  rewrite list_elem_of_In, in_seq. lia.
Qed.
Lemma filter_later m k : List.filter (λ i, negb (i <? m)%nat) (seq 0 (m + k)) = seq m k.
Proof.
  rewrite seq_app, List.filter_app. cbn [Nat.add]. replace (List.filter _ (seq 0 m)) with (@nil nat).
  - cbn [app]. apply forallb_filter_id, forallb_forall. intros i [Hi _]%in_seq. apply negb_true_iff, Nat.ltb_ge. lia.
  - symmetry. assert (H : ∀ i, i ∈ List.filter (λ i, negb (i <? m)%nat) (seq 0 m) → False).
    { intros i [Hi Hn]%filter_elem. apply list_elem_of_In, in_seq in Hi. apply negb_true_iff, Nat.ltb_ge in Hn. lia. }
    destruct (List.filter (λ i, negb (i <? m)%nat) (seq 0 m)) as [|i l]; [done|]. destruct (H i). by left.
Qed.
Lemma numbers_again i s : steps r !! i = Some s → number_at final2 i = Some (number s).
Proof.
  intros Hi. destruct parts_count as (Hn & Hrest & Hnn).
  assert (Hlt : (i < n)%nat) by (by eapply lookup_lt_Some).
  destruct (numbering n es2) as [place2 Hp].
  - unfold es2. rewrite enumerate_fst. apply NoDup_ListNoDup, seq_NoDup.
  - apply list.Forall_forall. intros [j c] Hj. apply elem_enumerate, lookup_lt_Some in Hj. cbn. unfold finished in *. lia.
  - unfold es2. rewrite enumerate_snd. pose proof (finished_highest old). fold finished in H. lia.
  - unfold final2. rewrite (num_at _ _ _ Hp) by done. f_equal. rewrite steps_r in Hi.
    apply lookup_app_Some in Hi as [Hi|[Hlen Hi]].
    + assert (Hlf : (i < length finished)%nat) by (rewrite <-past_length; by eapply lookup_lt_Some).
      destruct (lookup_lt_is_Some_2 _ _ Hlf) as [c Hc]. destruct (past_at _ _ Hc) as (_ & t & s' & _ & Hs' & _ & (Hnum & _)).
      rewrite Hs' in Hi. injection Hi as ->. rewrite Hnum. apply (num_carried _ _ _ Hp). by apply elem_enumerate.
    + pose proof (num_exact _ _ _ Hp) as H2. pose proof (num_exact _ _ _ (put_numbered _ _ _ _ _ _ _ Hr)) as H1.
      fold (rest new es) in H1. rewrite (carried_finished _ _ _ _ _ _ _ Hr) in H1.
      rewrite (filter_ext _ _ uncarried_again) in H2. rewrite <-Hn, filter_later, length_seq in H2.
      unfold es2 in H2 at 1. rewrite enumerate_snd in H2. rewrite Hrest in H1.
      pose proof (future_numbers _ _ _ _ (parts_future _ _ _ _ _ _ _ Hr)) as H3. fold ahead in H3.
      assert (H4 : number <$> ahead = place2 <$> seq (length finished) (length ahead)) by (rewrite H3, H1, H2; done).
      rewrite past_length in Hi, Hlen. assert (H5 := f_equal (λ l, l !! (i - length finished)%nat) H4). cbn in H5.
      rewrite !list_lookup_fmap, Hi in H5. rewrite lookup_seq_lt in H5 by lia. cbn in H5. injection H5 as ->.
      f_equal. lia.
Qed.
(** ** The same plan *)

Lemma draft_numbers_again ns : renumber_draft (steps r) final2 ns = ns.
Proof.
  unfold renumber_draft. rewrite <-(list_fmap_id ns) at 2. apply list_fmap_ext. intros _ k _.
  rewrite (position_find _ _ _ numbers_again). destruct (List.find _ (steps r)) as [s|] eqn:Hf; [|done].
  apply find_some in Hf as [_ Hk%N.eqb_eq]. done.
Qed.
Lemma carried_again x : existsb (λ e, number (snd e) =? x) es2 = existsb (λ e, number (snd e) =? x) es.
Proof.
  assert (H : ∀ l : Carried, existsb (λ e, number (snd e) =? x) l = existsb (λ s, number s =? x) (snd <$> l)).
  { induction l as [|e l IH]; [done|]. cbn. by rewrite IH. }
  rewrite !H. unfold es2. rewrite enumerate_snd. by rewrite (carried_finished _ _ _ _ _ _ _ Hr).
Qed.

Section words.
Context (ref : Step).
Let p (s : Step) : bool := same_words s ref.

(** A finished step with these words stands at the position of the draft's. *)
Lemma past_words k s : past !! k = Some s → p s = true →
  ∃ c i t, finished !! k = Some c ∧ (i, c) ∈ es ∧ p c = true ∧ counterpart to_lowercase (steps new) u c i t ∧ number s = place i.
Proof.
  intros Hs Hp. assert (Hlt : (k < length finished)%nat) by (rewrite <-past_length; by eapply lookup_lt_Some).
  destruct (lookup_lt_is_Some_2 _ _ Hlt) as [c Hc].
  destruct (Forall3_lookup_l _ _ _ _ _ _ (parts_history _ _ _ _ _ _ _ Hold Hr) Hc) as (i & s' & Hi & Hs' & t & Ht & (Hn & Hd & _) & Hpl).
  unfold past in Hs. rewrite Hs' in Hs. injection Hs as ->. exists c, i, t. split_and!; [done| | |done|congruence].
  - apply list_lookup_fmap_Some in Hi as ([i' c'] & -> & He). cbn.
    destruct (Forall2_lookup_r _ _ _ _ _ (put_matched _ _ _ _ _ _ _ Hr) He) as (c2 & Hc2 & Hcc & _). cbn in Hcc.
    fold finished in Hc2. rewrite Hc in Hc2. injection Hc2 as ->. subst c'. by eapply list_elem_of_lookup_2.
  - unfold p. by rewrite <-(same_words_of s c).
Qed.
Lemma ahead_words j d : j ∈ rest new es → steps new !! j = Some d → p d = true →
  (∀ i e, (i < j)%nat → steps new !! i = Some e → p e = false) →
  ∃ s, List.find p ahead = Some s ∧ number s = place j.
Proof.
  intros Hj Hd Hp Hfirst. pose proof (parts_future _ _ _ _ _ _ _ Hr) as Hf.
  assert (Hs : StronglySorted lt (rest new es)) by apply filter_seq_sorted. fold ahead in Hf.
  induction Hf as [|i s is' ss (e & He & Hn & Hdesc & _) _ IH]; [by apply not_elem_of_nil in Hj|].
  apply StronglySorted_inv in Hs as [Hs Hi]. cbn [List.find].
  assert (Hpe : p s = p e) by by apply same_words_of. rewrite Hpe. apply elem_of_cons in Hj as [->|Hj].
  - rewrite He in Hd. injection Hd as ->. rewrite Hp. by exists s.
  - rewrite list.Forall_forall in Hi. rewrite (Hfirst i e (Hi j Hj) He). by apply IH.
Qed.
Lemma words_again : position p (steps new) ≫= number_at final = number <$> List.find p (steps r).
Proof.
  rewrite steps_r, find_app. pose proof (position_spec p (steps new)) as Hpos.
  assert (Hpast : ∀ s, s ∈ past → p s = true → ∃ c i t, (i, c) ∈ es ∧ p c = true ∧
                    counterpart to_lowercase (steps new) u c i t ∧ number s = place i).
  { intros s [k Hk]%list_elem_of_lookup Hp. destruct (past_words k s Hk Hp) as (c & i & t & _ & H). by exists c, i, t. }
  destruct (position p (steps new)) as [j|].
  - destruct Hpos as [(d & Hd & Hp) Hfirst]. assert (Hlt : (j < length (steps new))%nat) by (by eapply lookup_lt_Some).
    cbn [mbind option_bind]. unfold final. rewrite (num_at _ _ _ (put_numbered _ _ _ _ _ _ _ Hr)) by done.
    destruct (List.find p past) as [s|] eqn:Hf; cbn [fmap option_fmap option_map].
    + apply find_some in Hf as [Hs Hps]. apply list_elem_of_In in Hs.
      destruct (Hpast s Hs Hps) as (c & i & t & _ & Hpc & (_ & _ & Honly & _) & ->). do 2 f_equal.
      eapply Honly; [exact Hd|]. exact (same_words_trans _ _ _ Hp Hpc).
    + assert (Hj : j ∈ rest new es).
      { apply rest_exact. split; [done|]. intros ([i c] & -> & He)%list_elem_of_fmap. cbn in Hd.
        apply list_elem_of_lookup in He as [k Hk].
        destruct (Forall2_lookup_r _ _ _ _ _ (put_matched _ _ _ _ _ _ _ Hr) Hk) as (c' & Hc' & Hcc & (t & Ht & Hw & _) & _).
        cbn in Hcc, Ht. subst c'. destruct (past_at _ _ Hc') as (_ & _ & s & _ & Hs & _ & (_ & Hdesc & _)).
        apply list_elem_of_lookup_2, list_elem_of_In in Hs. pose proof (find_none _ _ Hf s Hs) as Hn. cbn in Hn.
        unfold p in Hn. rewrite (same_words_of s c) in Hn by done. rewrite Hd in Ht. injection Ht as <-.
        rewrite (same_words_trans c ref d) in Hn; [done| |].
        - by rewrite same_words_sym.
        - by rewrite same_words_sym. }
      destruct (ahead_words j d Hj Hd Hp Hfirst) as (s & Hs2 & Hn2). rewrite Hs2. cbn [fmap option_fmap option_map]. by rewrite Hn2.
  - cbn [mbind option_bind]. rewrite find_none_elem.
    + rewrite find_none_elem; [done|]. intros s [k Hk]%list_elem_of_lookup.
      destruct (Forall2_lookup_r _ _ _ _ _ (parts_future _ _ _ _ _ _ _ Hr) Hk) as (i & _ & d & Hd & _ & Hdesc & _).
      unfold p. rewrite (same_words_of s d) by done. by apply Hpos, (list_elem_of_lookup_2 _ i).
    + intros s Hs. destruct (p s) eqn:Hp; [|done]. destruct (Hpast s Hs Hp) as (c & i & t & _ & Hpc & (Ht & Hw & _) & _).
      assert (Hpt : p t = true) by (by eapply same_words_trans; [exact Hw|rewrite same_words_sym]).
      rewrite Hpos in Hpt; [done|]. by eapply list_elem_of_lookup_2.
Qed.
End words.
Lemma old_numbers_again ns :
  renumber_old to_lowercase (steps old) (steps r) final2 es2 ns = renumber_old to_lowercase (steps old) (steps new) final es ns.
Proof.
  unfold renumber_old. induction ns as [|k ns IH]; [done|]. cbn [omap list_omap]. rewrite IH.
  destruct (List.find (λ s, number s =? k) (steps old)) as [ref|]; [|done]. cbn [mbind option_bind].
  rewrite carried_again. by rewrite (words_again ref), <-(position_find _ _ _ numbers_again).
Qed.
Lemma past_again : omap (Reconcile.history_step to_lowercase (steps old) (steps r) final2 es2) finished = past.
Proof.
  apply omap_all; [apply past_length|]. intros k c Hk.
  destruct (past_at k c Hk) as (i & t & s & Hi & Hs & (Ht & _) & Hkept). rewrite Hs.
  assert (Hone : Reconcile.history_step to_lowercase (steps old) (steps new) final es c = Some s).
  { rewrite <-Hs. unfold past, history. symmetry. apply omap_lookup_all; [|done]. intros x Hx.
    apply list_elem_of_lookup in Hx as [kx Hkx]. destruct (past_at kx x Hkx) as (ix & tx & sx & Hix & _ & (Htx & _) & _).
    unfold Reconcile.history_step. apply list_lookup_fmap_Some in Hix as ([i' c'] & Hi' & He). cbn in Hi'. subst i'.
    destruct (Forall2_lookup_r _ _ _ _ _ (put_matched _ _ _ _ _ _ _ Hr) He) as (c2 & Hc2 & Hcc & _). cbn in Hcc.
    pose proof (eq_trans (eq_sym Hkx) Hc2) as Hx. injection Hx as ->. subst c'.
    assert (Hfind : List.find (λ e, number (snd e) =? number c2) es = Some (ix, c2)).
    { apply (find_by_number (number ∘ snd)); [|by eapply list_elem_of_lookup_2|done].
      rewrite list_fmap_compose, (carried_finished _ _ _ _ _ _ _ Hr). by apply finished_distinct. }
    rewrite Hfind. cbn [mbind option_bind]. by rewrite Htx. }
  unfold Reconcile.history_step in Hone |- *.
  assert (Hfind : List.find (λ e, number (snd e) =? number c) es2 = Some (k, c)).
  { apply (find_by_number (number ∘ snd)); [|by apply elem_enumerate|done].
    rewrite list_fmap_compose. unfold es2. rewrite enumerate_snd. by apply finished_distinct. }
  rewrite Hfind.
  cbn [mbind option_bind]. rewrite (past_in_r k s Hs). cbn [mbind option_bind].
  destruct (List.find _ es) as [[i' c']|]; [|done]. cbn [mbind option_bind] in Hone.
  destruct (steps new !! i') as [t'|]; [|done]. cbn [mbind option_bind] in Hone. injection Hone as <-. cbn [covers].
  do 2 f_equal. destruct (depends c) as [ns|]; [|done]. cbn. f_equal. apply old_numbers_again.
Qed.
Lemma ahead_again : omap (future_step (steps r) final2 es2) (enumerate (steps r)) = ahead.
Proof.
  assert (Hcarried : ∀ i, existsb (λ c, (fst c =? i)%nat) es2 = (i <? length finished)%nat).
  { intros i. pose proof (uncarried_again i) as H. unfold uncarried in H. by destruct (existsb _ _), (_ <? _)%nat. }
  assert (Hstep : ∀ i s, steps r !! i = Some s →
            future_step (steps r) final2 es2 (i, s) = if (i <? length finished)%nat then None else Some s).
  { intros i s Hi. unfold future_step. rewrite Hcarried. destruct (i <? length finished)%nat; [done|].
    rewrite (numbers_again _ _ Hi). cbn [default]. f_equal. destruct s as [a1 a2 a3 a4 a5 a6 a7 a8 ds a10]. cbn. f_equal.
    destruct ds as [ns|]; [|done]. cbn. by rewrite draft_numbers_again. }
  unfold enumerate. rewrite steps_r, imap_app, omap_app.
  assert (H1 : omap (future_step (past ++ ahead) final2 es2) (imap pair past) = []).
  { rewrite <-steps_r. assert (Hall : ∀ e, e ∈ imap pair past → future_step (steps r) final2 es2 e = None).
    { intros [i s] He. apply elem_of_lookup_imap in He as (j & y & [= -> ->] & Hj).
      rewrite (Hstep _ _ (past_in_r _ _ Hj)). pose proof (lookup_lt_Some _ _ _ Hj) as Hlt. rewrite past_length in Hlt.
      by rewrite (proj2 (Nat.ltb_lt _ _) Hlt). }
    clear -Hall. induction (imap pair past) as [|e l IH]; [done|]. cbn [omap list_omap]. rewrite Hall by by left.
    apply IH. intros x Hx. apply Hall. by right. }
  rewrite H1. cbn [app]. rewrite <-steps_r. apply omap_all; [by rewrite length_imap|].
  intros i e He. apply list_lookup_imap_Some in He as (s & Hs & ->). rewrite past_length.
  rewrite Hs. assert (Hin : steps r !! (length finished + i)%nat = Some s).
  { rewrite steps_r, <-past_length. by rewrite lookup_app_r, Nat.add_sub' by lia. }
  rewrite (Hstep _ _ Hin). by rewrite (proj2 (Nat.ltb_ge _ _)) by lia.
Qed.

Lemma reconciled_again : reconcile old r rev = Ok r.
Proof.
  unfold Reconcile.reconcile. cbv zeta. fold u finished. rewrite matching_again.
  assert (Hsame : assemble old r (enumerate finished) = r).
  { pose proof (put_plan _ _ _ _ _ _ _ Hr) as Hplan.
    assert (Hf : name r = name new ∧ branch r = branch old ∧ brief_binding r = brief_binding new) by by rewrite Hplan.
    destruct Hf as (_ & Hbranch & _). unfold Reconcile.assemble. fold finished n es2 final2.
    rewrite past_again, ahead_again, <-steps_r, <-Hbranch. by destruct r. }
  rewrite Hsame. by rewrite (put_order _ _ _ _ _ _ _ Hr).
Qed.
End again.

(** Reconciling is settled by doing it once: a plan that came from
    reconciling a draft with the finished work comes out of a second time
    unchanged, so the check that approval makes before it writes a plan (the
    saved plan reconciled with the one to be approved gives that one) passes for
    it, and with it every finished step's number, words and evidence. *)
Theorem reconciled_plans_are_approved to_lowercase old new brief_revision r :
  NoDup (number <$> steps old) →
  highest (steps old) + 1 + N.of_nat (length (steps new)) <= U64_MAX →
  Reconcile.reconcile to_lowercase old new brief_revision = Ok r →
  Reconcile.reconcile to_lowercase old r brief_revision = Ok r.
Proof.
  intros Hd Hh Hr. pose proof (reconcile_outcome to_lowercase old new brief_revision Hh) as Ho. rewrite Hr in Ho.
  destruct Ho as (es & place & Hput). by eapply reconciled_again.
Qed.

Lemma reconciled_plans_are_approved_witness :
  ∃ r, Reconcile.reconcile to_ascii_lowercase OLD DRAFT (txt "r7") = Ok r ∧ steps r ≠ steps DRAFT ∧
       Reconcile.reconcile to_ascii_lowercase OLD r (txt "r7") = Ok r.
Proof.
  eexists. split; [vm_compute; reflexivity|]. split; [done|].
  apply (reconciled_plans_are_approved to_ascii_lowercase OLD DRAFT).
  - by apply (bool_decide_unpack _); vm_compute.
  - by vm_compute.
  - vm_compute. reflexivity.
Defined.
