(* ===== verification/Granularity.v ===== *)
(** * How much a unit of work may change (localpilot-harness/src/granularity.rs;
    GranularityConfig of localpilot-config/src/schema.rs)

    The size of a unit follows from the room in the context and from what the
    session has shown of the model; configuration and the step's own scope only
    tighten it. *)

From Stdlib Require Import String.
From stdpp Require Import base list numbers.
From S2P Require Import Prelude Monitor Utf8 Chars Message Json Fields Brief Progress.
From stdpp Require Import list.
#[local] Open Scope N_scope.
#[local] Open Scope list_scope.

Inductive ContextProvenance := RuntimeUsage | ResolvedBudget | CallerSupplied | UnknownContext.
Inductive CapabilityProvenance := UnknownCapability | SessionObservations | RejectedObservation.
Inductive Reliability := UnknownReliability | Weak | Strong | MalformedInput.
#[export] Instance provenance_eq_dec : EqDecision ContextProvenance.
Proof. solve_decision. Defined.
#[export] Instance reliability_eq_dec : EqDecision Reliability.
Proof. solve_decision. Defined.

Record ContextCapacity := mkCapacity { used : N; limit : N; provenance : ContextProvenance }.

(** ** What the session has shown *)

Record CapabilityEvidence := mkEvidence {
  valid_successes : N;
  verified_units : N;
  malformed : bool;
  failures : N;
  last_input_valid : bool;
}.
Definition evidence_default : CapabilityEvidence := mkEvidence 0 0 false 0 false.

Definition observe_input (valid : bool) (e : CapabilityEvidence) : CapabilityEvidence :=
  mkEvidence (valid_successes e) (verified_units e) (malformed e || negb valid) (failures e) valid.
Definition observe_outcome (success : bool) (e : CapabilityEvidence) : CapabilityEvidence :=
  if success && last_input_valid e
  then mkEvidence (u64_sat_add (valid_successes e) 1) (verified_units e) (malformed e) (failures e) (last_input_valid e)
  else if negb success
  then mkEvidence (valid_successes e) (verified_units e) (malformed e) (u64_sat_add (failures e) 1) (last_input_valid e)
  else e.
Definition observe_tool_outcome (outcome : ToolOutcome) (attributable : bool) (e : CapabilityEvidence)
    : CapabilityEvidence :=
  if attributable
  then match outcome with
       | OutcomeOk => observe_outcome true e
       | Unusable => observe_outcome false e
       | ReportedFailure => e
       end
  else e.
Definition observe_verification (e : CapabilityEvidence) : CapabilityEvidence :=
  mkEvidence (valid_successes e) (u64_sat_add (verified_units e) 1) (malformed e) (failures e) (last_input_valid e).
Definition reliability_of (e : CapabilityEvidence) : Reliability :=
  if malformed e then MalformedInput
  else if negb (failures e =? 0) then Weak
  else if (8 <=? valid_successes e) && (2 <=? verified_units e) then Strong
  else UnknownReliability.

(** ** The profile *)

Inductive WorkLimitMode := Automatic | Wide | VeryWide | Off.
Record GranularityConfig := mkCaps {
  mode : WorkLimitMode;
  cap_files : option N;
  cap_regions : option N;
  cap_read_lines : option N;
  cap_changed_lines : option N;
  cap_decisions : option N;
}.

Record WorkProfile := mkProfile {
  context_provenance : ContextProvenance;
  capability_provenance : CapabilityProvenance;
  max_files : N;
  max_regions : N;
  max_read_lines : N;
  max_changed_lines : N;
  max_new_file_lines : N;
  max_decisions : N;
  max_output_bytes : N;
  stop_after_checkpoint : bool;
  reliability : Reliability;
  constrained_context : bool;
}.

(** A cap of the user's; zero counts as one. *)
Definition with_cap (bound : N) (cap : option N) : N :=
  match cap with Some cap => N.min bound (N.max cap 1) | None => bound end.
Definition tighten_caps (caps : GranularityConfig) (p : WorkProfile) : WorkProfile :=
  mkProfile (context_provenance p) (capability_provenance p) (with_cap (max_files p) (cap_files caps))
    (with_cap (max_regions p) (cap_regions caps)) (with_cap (max_read_lines p) (cap_read_lines caps))
    (with_cap (max_changed_lines p) (cap_changed_lines caps)) (with_cap (max_new_file_lines p) (cap_changed_lines caps))
    (with_cap (max_decisions p) (cap_decisions caps)) (max_output_bytes p) (stop_after_checkpoint p) (reliability p)
    (constrained_context p).
Definition bound_to_scope (scope : WorkScope) (p : WorkProfile) : WorkProfile :=
  mkProfile (context_provenance p) (capability_provenance p) (N.min (max_files p) (files scope))
    (N.min (max_regions p) (regions scope)) (max_read_lines p) (N.min (max_changed_lines p) (changed_lines scope))
    (max_new_file_lines p) (N.min (max_decisions p) (decisions scope)) (max_output_bytes p) (stop_after_checkpoint p)
    (reliability p) (constrained_context p).
Definition tighten (next p : WorkProfile) : WorkProfile :=
  let weaker := negb (bool_decide (reliability next = Strong)) in
  mkProfile (context_provenance p) (if weaker then capability_provenance next else capability_provenance p)
    (N.min (max_files p) (max_files next)) (N.min (max_regions p) (max_regions next))
    (N.min (max_read_lines p) (max_read_lines next)) (N.min (max_changed_lines p) (max_changed_lines next))
    (N.min (max_new_file_lines p) (max_new_file_lines next)) (N.min (max_decisions p) (max_decisions next))
    (N.min (max_output_bytes p) (max_output_bytes next)) (stop_after_checkpoint p || stop_after_checkpoint next)
    (if weaker then reliability next else reliability p) (constrained_context p || constrained_context next).

(** The pressure test multiplies with saturation. *)
Definition is_small (c : ContextCapacity) : bool :=
  bool_decide (provenance c = UnknownContext) || (limit c <? 32000) || (u64_sat_mul (limit c) 7 / 10 <=? used c).
Definition fixed_limits (m : WorkLimitMode) : option (N * N * N) :=
  match m with
  | Wide => Some (10, 40, 2000)
  | VeryWide => Some (50, 200, 10000)
  | Automatic | Off => None
  end.
Definition base_profile (c : ContextCapacity) (r : Reliability) : WorkProfile :=
  let small := is_small c in
  let strong := bool_decide (r = Strong) in
  mkProfile
    (if limit c =? 0 then UnknownContext else provenance c)
    (match r with
     | UnknownReliability => UnknownCapability
     | MalformedInput => RejectedObservation
     | Weak | Strong => SessionObservations
     end)
    (if small || negb strong then 1 else 3)
    (if strong then (if small then 2 else 4) else 1)
    (if small then 80 else 200) (if small then 80 else 200) (if small then 200 else 600)
    (if strong then 2 else 1) (if small then 4 * 1024 else 12 * 1024) (small || negb strong) r small.
Definition fix_limits (m : WorkLimitMode) (p : WorkProfile) : WorkProfile :=
  match fixed_limits m with
  | Some (files, regions, lines) =>
      mkProfile (context_provenance p) (capability_provenance p) files regions (max_read_lines p) lines lines
        (max_decisions p) (max_output_bytes p) (stop_after_checkpoint p) (reliability p) (constrained_context p)
  | None => p
  end.
Definition resolve_profile (c : ContextCapacity) (r : Reliability) (caps : GranularityConfig) : WorkProfile :=
  tighten_caps caps (fix_limits (mode caps) (base_profile c r)).

Definition accepts (p : WorkProfile) (s : WorkScope) : bool :=
  (files s <=? max_files p) && (regions s <=? max_regions p) && (decisions s <=? max_decisions p)
  && (changed_lines s <=? max_changed_lines p) && (files s <=? regions s) && (0 <? decisions s).

Definition instruction (p : WorkProfile) : Text :=
  txt "Work unit: change at most " ++ show_N (max_files p) ++ txt " files, " ++ show_N (max_regions p)
  ++ txt " regions, " ++ show_N (max_decisions p) ++ txt " decisions and " ++ show_N (max_changed_lines p)
  ++ txt " lines; read at most " ++ show_N (max_read_lines p)
  ++ txt " lines at a time; a new file may be up to " ++ show_N (max_new_file_lines p)
  ++ txt " lines; prefer exact edits to rewriting large files, and use replace_in_file only for one exact block (regex false, all false). These limits also apply through shell and MCP commands, and compaction does not reset them. Verify the unit with the smallest relevant check, keeping every acceptance criterion and required quality gate."
  ++ (if stop_after_checkpoint p
      then txt " Then stop at that verified checkpoint and describe the next action."
      else []).

Definition NO_CAPS (m : WorkLimitMode) : GranularityConfig := mkCaps m None None None None None.
Example profiles :
  ((λ p, (max_files p, max_regions p, max_changed_lines p, stop_after_checkpoint p)) <$>
    [resolve_profile (mkCapacity 0 8000 CallerSupplied) UnknownReliability (NO_CAPS Automatic);
     resolve_profile (mkCapacity 0 64000 ResolvedBudget) Strong (NO_CAPS Automatic);
     resolve_profile (mkCapacity 44800 64000 ResolvedBudget) Strong (NO_CAPS Automatic);
     resolve_profile (mkCapacity 0 64000 ResolvedBudget) Weak (NO_CAPS VeryWide)]) =
  [(1, 1, 80, true); (3, 4, 200, false); (1, 2, 80, true); (50, 200, 10000, true)].
Proof. vm_compute. reflexivity. Qed.
