(* ===== verification/PlanReview.v ===== *)
(** * When a plan may be approved (localpilot-harness/src/plan_review.rs)

    A draft is checked against the brief it would be bound to: every step still
    to do says what it covers, how it is verified and what it waits for, every
    criterion has an owner, and dependencies point backwards.  Whether a command
    can be started on this host is a parameter. *)

From Stdlib Require Import String.
From stdpp Require Import base list numbers.
From S2P Require Import Prelude Monitor Utf8 Chars Message Json Fields Brief Progress Granularity.
From stdpp Require Import list.
#[local] Open Scope N_scope.
#[local] Open Scope list_scope.

Inductive PlanDefect :=
  | WorkEnvelope (step : N) (detail : Text)
  | MissingScope (step : N) (example : Text)
  | MissingMetadata (step : N) (field : Text)
  | UnknownCriterion (step criterion criteria : N)
  | OrphanCriterion (criterion : N) (text : Text)
  | UnknownDependency (step depends_on : N)
  | ForwardDependency (step depends_on : N)
  | UnrunnableVerify (step : N) (command reason : Text).

Definition defect_text (d : PlanDefect) : Text :=
  match d with
  | WorkEnvelope step detail =>
      txt "step " ++ show_N step ++ txt ": " ++ detail
      ++ txt "; split it while preserving acceptance coverage and dependency order"
  | MissingScope step example =>
      txt "step " ++ show_N step
      ++ txt " has no scope line; add one as its own indented line under the step, four integers for files, regions, decisions, changed_lines, for example `"
      ++ example ++ txt "`"
  | MissingMetadata step field =>
      txt "step " ++ show_N step ++ txt " does not say " ++ quoted field
      ++ txt "; an approved plan states all three of covers, verify and depends"
  | UnknownCriterion step criterion criteria =>
      txt "step " ++ show_N step ++ txt " covers AC" ++ show_N criterion ++ txt ", but the brief has " ++ show_N criteria
      ++ txt " acceptance criteria"
  | OrphanCriterion criterion text =>
      txt "no step covers AC" ++ show_N criterion ++ txt " (" ++ text ++ txt "); every acceptance criterion needs an owner"
  | UnknownDependency step depends_on =>
      txt "step " ++ show_N step ++ txt " depends on step " ++ show_N depends_on ++ txt ", which does not exist"
  | ForwardDependency step depends_on =>
      txt "step " ++ show_N step ++ txt " depends on step " ++ show_N depends_on ++ txt ", which does not come before it"
  | UnrunnableVerify step command reason =>
      txt "step " ++ show_N step ++ txt ": the verify command " ++ quoted command ++ txt " cannot run, because " ++ reason
      ++ txt "; write a program that exists on this host with plain arguments, or 'verify: none - <why>'"
  end.

(** ** Scope *)

Definition scope_line_example (p : WorkProfile) : Text :=
  txt "  - scope: 1, 1, 1, " ++ show_N (N.min (max_changed_lines p) 80).
Definition over (name : Text) (declared allowed : N) : list Text :=
  if allowed <? declared
  then [show_N declared ++ txt " " ++ name ++ txt " (at most " ++ show_N allowed ++ txt ")"]
  else [].
Definition oversized_detail (s : WorkScope) (p : WorkProfile) : Text :=
  txt "declares too much for one unit: "
  ++ Chars.join (txt ", ")
       (over (txt "files") (files s) (max_files p) ++ over (txt "regions") (regions s) (max_regions p)
        ++ over (txt "decisions") (decisions s) (max_decisions p)
        ++ over (txt "changed lines") (changed_lines s) (max_changed_lines p)).

Definition verdict (defects : list PlanDefect) : result unit (list PlanDefect) :=
  match defects with [] => Ok tt | _ => Err defects end.

Definition scope_defect (p : WorkProfile) (s : Step) : option PlanDefect :=
  match scope s with
  | Some w => if accepts p w then None else Some (WorkEnvelope (number s) (oversized_detail w p))
  | None => Some (MissingScope (number s) (scope_line_example p))
  end.
Definition to_do (p : Progress) : list Step := List.filter (λ s, negb (done s)) (steps p).
Definition validate_work_scope (p : Progress) (profile : WorkProfile) : result unit (list PlanDefect) :=
  verdict (omap (scope_defect profile) (to_do p)).

(** [verify_target::unrunnable_verify_reason] looks programs up on the host. *)
Definition unrunnable_verify_defects (unrunnable_verify_reason : Text → option Text) (p : Progress) : list PlanDefect :=
  omap (λ s, match verify s with
             | Some (Command command) => UnrunnableVerify (number s) command <$> unrunnable_verify_reason command
             | _ => None
             end) (to_do p).

(** ** Approval *)

Definition check_metadata (s : Step) : list PlanDefect :=
  if done s then []
  else
    let missing {A} (o : option A) (field : string) :=
      match o with None => [MissingMetadata (number s) (txt field)] | Some _ => [] end in
    missing (covers s) "covers"%string ++ missing (verify s) "verify"%string ++ missing (depends s) "depends"%string.

Definition cover_step (step criteria : N) (st : list bool * list PlanDefect) (criterion : N) : list bool * list PlanDefect :=
  let '(owned, defects) := st in
  if (criterion =? 0) || (criteria <? criterion)
  then (owned, defects ++ [UnknownCriterion step criterion criteria])
  else (<[N.to_nat (criterion - 1) := true]> owned, defects).
Definition dependency_defects (numbers : list N) (step : N) (dependency : N) : list PlanDefect :=
  if negb (bool_decide (dependency ∈ numbers)) then [UnknownDependency step dependency]
  else if step <=? dependency then [ForwardDependency step dependency]
  else [].
Definition approve_step (criteria : N) (numbers : list N) (st : list bool * list PlanDefect) (s : Step)
    : list bool * list PlanDefect :=
  let '(owned, defects) := st in
  let '(owned, defects) :=
    fold_left (cover_step (number s) criteria) (default [] (covers s)) (owned, defects ++ check_metadata s) in
  (owned, defects ++ (default [] (depends s) ≫= dependency_defects numbers (number s))).

Fixpoint orphans (criterion : N) (owned : list bool) (texts : list Text) : list PlanDefect :=
  match owned, texts with
  | is_owned :: owned, text :: texts =>
      (if is_owned then [] else [OrphanCriterion criterion text]) ++ orphans (criterion + 1) owned texts
  | _, _ => []
  end.

Definition validate_for_approval (p : Progress) (b : Brief) : result unit (list PlanDefect) :=
  let criteria := N.of_nat (length (acceptance_criteria b)) in
  let numbers := number <$> steps p in
  let '(owned, defects) :=
    fold_left (approve_step criteria numbers) (steps p) (replicate (length (acceptance_criteria b)) false, []) in
  verdict (defects ++ orphans 1 owned (acceptance_criteria b)).

(** ** What a reviewer is shown *)

Definition numbered_criteria (b : Brief) : list (N * Text) :=
  imap (λ i text, (N.of_nat i + 1, text)) (acceptance_criteria b).
Definition owns (criterion : N) (s : Step) : bool := bool_decide (criterion ∈ default [] (covers s)).
Definition coverage (p : Progress) (b : Brief) : list (N * Text * list N) :=
  (λ e, (e, number <$> List.filter (owns (fst e)) (steps p))) <$> numbered_criteria b.

Definition verification_text (s : Step) : Text :=
  match verify s with
  | Some (Command command) => command
  | Some (NoVerification reason) => txt "nothing to run - " ++ reason
  | None =>
      if done s then txt "historical verification not recorded; this step will not run again"
      else txt "not stated"
  end.

(** ** A sample *)

Definition TWO_CRITERIA : Brief := mkBrief (txt "thing") (txt "Do it.") [] [] [] [txt "It parses"; txt "It refuses"] [].
Definition planned (n : N) (d : string) (cov deps : list N) : Step :=
  mkStep n (txt d) false None 0 [] (Some cov) (Some (Command (txt "cargo test"))) (Some deps) None.
Definition WHOLE : Progress :=
  mkProgress (txt "thing") (txt "work") None [planned 1 "Parse" [1] []; planned 2 "Refuse" [2] [1]].
Example whole_plan_passes : validate_for_approval WHOLE TWO_CRITERIA = Ok tt.
Proof. vm_compute. reflexivity. Qed.
Example every_defect_is_named :
  validate_for_approval
    (mkProgress (txt "thing") (txt "work") None
       [planned 1 "Parse" [3] [2]; planned 2 "Refuse" [2] [7]; bare_step 3 (txt "Later") false]) TWO_CRITERIA =
  Err [UnknownCriterion 1 3 2; ForwardDependency 1 2; UnknownDependency 2 7; MissingMetadata 3 (txt "covers");
       MissingMetadata 3 (txt "verify"); MissingMetadata 3 (txt "depends"); OrphanCriterion 1 (txt "It parses")].
Proof. vm_compute. reflexivity. Qed.
