(* ===== verification/PlanReviewProps.v ===== *)
(** * What approval of a plan means

    The defects that are reported are exactly those there are, and a plan that
    passes and lists its steps in order is worked in an order that respects its
    dependencies. *)

From Stdlib Require Import String.
From stdpp Require Import base sets list sorting relations numbers.
From S2P Require Import Prelude Monitor Utf8 Chars Message Json Fields Brief Progress Granularity PlanReview.
From stdpp Require Import list.
#[local] Open Scope N_scope.
#[local] Open Scope list_scope.

(** ** What a defect says *)

Definition silent (s : Step) (field : Text) : Prop :=
  (covers s = None ∧ field = txt "covers") ∨ (verify s = None ∧ field = txt "verify") ∨
  (depends s = None ∧ field = txt "depends").
Definition covered (s : Step) : list N := default [] (covers s).
Definition waits_for (s : Step) : list N := default [] (depends s).
Definition criteria_of (b : Brief) : N := N.of_nat (length (acceptance_criteria b)).

(** A defect of one step, for a brief with that many criteria. *)
Definition step_defect (criteria : N) (numbers : list N) (s : Step) (d : PlanDefect) : Prop :=
  match d with
  | MissingMetadata n field => n = number s ∧ done s = false ∧ silent s field
  | UnknownCriterion n c k => n = number s ∧ k = criteria ∧ c ∈ covered s ∧ (c = 0 ∨ criteria < c)
  | UnknownDependency n m => n = number s ∧ m ∈ waits_for s ∧ (m ∉ numbers)
  | ForwardDependency n m => n = number s ∧ m ∈ waits_for s ∧ m ∈ numbers ∧ n <= m
  | _ => False
  end.
Definition is_defect (p : Progress) (b : Brief) (d : PlanDefect) : Prop :=
  match d with
  | OrphanCriterion c text =>
      1 <= c ∧ acceptance_criteria b !! N.to_nat (c - 1) = Some text ∧ ∀ s, s ∈ steps p → c ∉ covered s
  | _ => ∃ s, s ∈ steps p ∧ step_defect (criteria_of b) (number <$> steps p) s d
  end.

(** ** The defects of a step *)

Lemma metadata_defects criteria numbers s d :
  d ∈ check_metadata s ↔ ∃ f, d = MissingMetadata (number s) f ∧ step_defect criteria numbers s d.
Proof.
  unfold check_metadata, step_defect, silent. destruct (done s).
  - split; [by intros ?%not_elem_of_nil|]. intros (f & -> & _ & ? & _). done.
  - rewrite !elem_of_app. split.
    + intros [H|[H|H]]; [destruct (covers s) eqn:E|destruct (verify s) eqn:E|destruct (depends s) eqn:E];
        try (by apply not_elem_of_nil in H); apply list_elem_of_singleton in H as ->; eexists; naive_solver.
    + intros (f & -> & _ & _ & H). destruct H as [[-> ->]|[[-> ->]|[-> ->]]]; rewrite !list_elem_of_singleton; tauto.
Qed.
Lemma dependency_defect criteria numbers s d :
  d ∈ (waits_for s ≫= dependency_defects numbers (number s)) ↔
  (∃ m, d = UnknownDependency (number s) m ∨ d = ForwardDependency (number s) m) ∧ step_defect criteria numbers s d.
Proof.
  rewrite list_elem_of_bind. unfold dependency_defects. split.
  - intros (m & Hd & Hm). case_bool_decide; cbn [negb] in Hd.
    + destruct (N.leb_spec (number s) m); [|by apply not_elem_of_nil in Hd].
      apply list_elem_of_singleton in Hd as ->. cbn. naive_solver.
    + apply list_elem_of_singleton in Hd as ->. cbn. naive_solver.
  - intros [[m [-> | ->]] Hs]; cbn in Hs; exists m.
    + destruct Hs as (_ & Hm & Hn). rewrite bool_decide_eq_false_2 by done. split; [by apply list_elem_of_singleton|done].
    + destruct Hs as (_ & Hm & Hn & Hle). rewrite bool_decide_eq_true_2 by done. cbn [negb].
      rewrite (proj2 (N.leb_le _ _) Hle). split; [by apply list_elem_of_singleton|done].
Qed.

(** Which criteria are owned: the flags after some numbers were covered. *)
Definition marks (criteria : N) (cs : list N) (owned : list bool) : list bool :=
  fold_left (λ owned c, if (c =? 0) || (criteria <? c) then owned else <[N.to_nat (c - 1) := true]> owned) cs owned.
Lemma cover_fold n criteria cs owned ds :
  fold_left (cover_step n criteria) cs (owned, ds) =
    (marks criteria cs owned,
     ds ++ ((λ c, UnknownCriterion n c criteria) <$> List.filter (λ c, (c =? 0) || (criteria <? c)) cs)).
Proof.
  revert owned ds. induction cs as [|c cs IH]; intros owned ds; cbn [fold_left marks List.filter]; [by rewrite app_nil_r|].
  change (marks criteria (c :: cs) owned)
    with (marks criteria cs (if (c =? 0) || (criteria <? c) then owned else <[N.to_nat (c - 1) := true]> owned)).
  unfold cover_step at 2. destruct (_ || _); rewrite IH; [|done]. by rewrite <-app_assoc.
Qed.
Definition defects_of (criteria : N) (numbers : list N) (s : Step) : list PlanDefect :=
  check_metadata s
  ++ ((λ c, UnknownCriterion (number s) c criteria) <$> List.filter (λ c, (c =? 0) || (criteria <? c)) (covered s))
  ++ (waits_for s ≫= dependency_defects numbers (number s)).
Lemma approve_fold criteria numbers l owned ds :
  fold_left (approve_step criteria numbers) l (owned, ds) =
    (marks criteria (l ≫= covered) owned, ds ++ (l ≫= defects_of criteria numbers)).
Proof.
  revert owned ds. induction l as [|s l IH]; intros owned ds; cbn [fold_left]; [by rewrite app_nil_r|].
  unfold approve_step at 2. rewrite cover_fold, IH. cbn [mbind list_bind]. f_equal.
  - unfold marks. by rewrite fold_left_app.
  - unfold defects_of. by rewrite <-!app_assoc.
Qed.
Lemma step_defects criteria numbers s d :
  d ∈ defects_of criteria numbers s ↔ step_defect criteria numbers s d.
Proof.
  unfold defects_of. rewrite !elem_of_app, (metadata_defects criteria numbers), (dependency_defect criteria numbers).
  assert (Hc : d ∈ ((λ c, UnknownCriterion (number s) c criteria) <$> List.filter (λ c, (c =? 0) || (criteria <? c)) (covered s)) ↔
    (∃ c, d = UnknownCriterion (number s) c criteria) ∧ step_defect criteria numbers s d).
  { rewrite list_elem_of_fmap. split.
    - intros (c & -> & Hc). apply list_elem_of_In, filter_In in Hc as [Hc%list_elem_of_In Hb].
      apply orb_true_iff in Hb as [Hb%N.eqb_eq|Hb%N.ltb_lt]; cbn; naive_solver.
    - intros [[c ->] (_ & _ & Hc & Hb)]. exists c. split; [done|]. apply list_elem_of_In, filter_In.
      split; [by apply list_elem_of_In|]. rewrite orb_true_iff, N.eqb_eq, N.ltb_lt. tauto. }
  rewrite Hc. split; [naive_solver|]. intros H. destruct d; cbn in H |- *; try done; destruct H as (-> & H); eauto 8.
  destruct H as (-> & H). eauto 8.
Qed.

(** ** The criteria without an owner *)

Lemma marks_length criteria cs owned : length (marks criteria cs owned) = length owned.
Proof.
  revert owned. induction cs as [|c cs IH]; intros owned; [done|]. unfold marks in *. cbn [fold_left].
  destruct (_ || _); rewrite IH; [done|apply length_insert].
Qed.
Lemma marks_lookup criteria cs owned i : (i < length owned)%nat → N.of_nat (length owned) = criteria →
  marks criteria cs owned !! i = Some true ↔ owned !! i = Some true ∨ N.of_nat i + 1 ∈ cs.
Proof.
  revert owned. induction cs as [|c cs IH]; intros owned Hi Hl.
  { cbn. split; [by left|]. intros [?|?%not_elem_of_nil]; done. }
  unfold marks. cbn [fold_left]. fold (marks criteria cs).
  destruct ((c =? 0) || (criteria <? c)) eqn:Hc.
  - change (marks criteria cs owned !! i = Some true ↔ owned !! i = Some true ∨ N.of_nat i + 1 ∈ c :: cs).
    rewrite IH, elem_of_cons by done. apply orb_true_iff in Hc as [Hc%N.eqb_eq|Hc%N.ltb_lt]; split; intros [?|?]; auto.
    + destruct_or!; [lia|by right].
    + destruct_or!; [lia|by right].
  - change (marks criteria cs (<[N.to_nat (c - 1) := true]> owned) !! i = Some true ↔
            owned !! i = Some true ∨ N.of_nat i + 1 ∈ c :: cs).
    apply orb_false_iff in Hc as [Hc%N.eqb_neq Hc'%N.ltb_ge].
    rewrite IH by (by rewrite length_insert). rewrite elem_of_cons.
    destruct (decide (N.to_nat (c - 1) = i)) as [<-|Hne].
    + rewrite list_lookup_insert_eq by done. split; [|by left]. intros _. right. left. lia.
    + rewrite list_lookup_insert_ne by done. split; [tauto|]. intros [?|[?|?]]; [by left|lia|by right].
Qed.
Lemma orphan_defects k owned texts d : length owned = length texts →
  d ∈ orphans k owned texts ↔
  ∃ i t, d = OrphanCriterion (k + N.of_nat i) t ∧ texts !! i = Some t ∧ owned !! i = Some false.
Proof.
  revert k texts. induction owned as [|o owned IH]; intros k [|t texts] Hl; try done; cbn [orphans].
  { split; [by intros ?%not_elem_of_nil|]. by intros (i & t & _ & ? & _). }
  rewrite elem_of_app, IH by (by injection Hl). split.
  - intros [H|(i & u & -> & Ht & Ho)].
    + destruct o; [by apply not_elem_of_nil in H|]. apply list_elem_of_singleton in H as ->. exists O, t.
      by rewrite N.add_0_r.
    + exists (S i), u. split; [f_equal; lia|done].
  - intros ([|i] & u & -> & Ht & Ho); cbn in Ht, Ho.
    + left. injection Ht as ->. injection Ho as ->. rewrite N.add_0_r. by apply list_elem_of_singleton.
    + right. exists i, u. split; [f_equal; lia|done].
Qed.

(** The list that [validate_for_approval] returns. *)
Definition approval_defects (p : Progress) (b : Brief) : list PlanDefect :=
  let '(owned, defects) :=
    fold_left (approve_step (criteria_of b) (number <$> steps p)) (steps p)
      (replicate (length (acceptance_criteria b)) false, []) in
  defects ++ orphans 1 owned (acceptance_criteria b).
Lemma validate_verdict p b : validate_for_approval p b = verdict (approval_defects p b).
Proof.
  unfold validate_for_approval, approval_defects. cbv zeta. unfold criteria_of. by destruct (fold_left _ _ _).
Qed.
Lemma approval_defects_exact p b d : d ∈ approval_defects p b ↔ is_defect p b d.
Proof.
  unfold approval_defects. rewrite approve_fold, elem_of_app, app_nil_l, list_elem_of_bind.
  rewrite orphan_defects by by rewrite marks_length, length_replicate.
  set (n := length (acceptance_criteria b)).
  assert (Hown : ∀ i, (i < n)%nat →
    marks (criteria_of b) (steps p ≫= covered) (replicate n false) !! i = Some false ↔
    ∀ s, s ∈ steps p → N.of_nat i + 1 ∉ covered s).
  { intros i Hi. pose proof (marks_lookup (criteria_of b) (steps p ≫= covered) (replicate n false) i) as Hm.
    rewrite length_replicate in Hm. specialize (Hm Hi eq_refl). rewrite lookup_replicate in Hm.
    destruct (lookup_lt_is_Some_2 (marks (criteria_of b) (steps p ≫= covered) (replicate n false)) i) as [o Ho];
      [by rewrite marks_length, length_replicate|]. rewrite Ho in Hm |- *. rewrite list_elem_of_bind in Hm. split.
    - intros [= ->] s Hs Hc. destruct Hm as [_ Hm]. by discriminate Hm; right; eauto.
    - intros Hno. destruct o; [|done]. destruct Hm as [[[]|(s & Hc & Hs)] _]; [done|done|]. by destruct (Hno s Hs). }
  split.
  - intros [(s & Hd & Hs)|(i & t & -> & Ht & Ho)].
    + apply step_defects in Hd. unfold is_defect. destruct d; try by exists s. done.
    + pose proof (lookup_lt_Some _ _ _ Ht). cbn. split_and!; [lia|by replace (N.to_nat (1 + N.of_nat i - 1)) with i by lia|].
      rewrite N.add_comm. by apply Hown.
  - intros Hd. destruct d; cbn in Hd; try (destruct Hd as (s & Hs & Hd); left; exists s; split; [by apply step_defects|done]).
    destruct Hd as (Hc & Ht & Hno). right. exists (N.to_nat (criterion - 1)), text. pose proof (lookup_lt_Some _ _ _ Ht).
    split_and!; [f_equal; lia|done|]. apply Hown; [done|]. by replace (N.of_nat (N.to_nat (criterion - 1)) + 1) with criterion by lia.
Qed.

(** A plan with nothing to report. *)
Record fit (p : Progress) (b : Brief) : Prop := {
  fit_stated : ∀ s, s ∈ steps p → done s = false → covers s ≠ None ∧ verify s ≠ None ∧ depends s ≠ None;
  fit_covers : ∀ s c, s ∈ steps p → c ∈ covered s → 1 <= c <= criteria_of b;
  fit_owned : ∀ c, 1 <= c <= criteria_of b → ∃ s, s ∈ steps p ∧ c ∈ covered s;
  fit_order : ∀ s d, s ∈ steps p → d ∈ waits_for s → d < number s ∧ ∃ t, t ∈ steps p ∧ number t = d;
}.
Lemma no_defect_fit p b : (∀ d, ¬ is_defect p b d) ↔ fit p b.
Proof.
  split.
  - intros Hno. constructor.
    + intros s Hs Hd. split_and!; intros He; eapply (Hno (MissingMetadata (number s) _)); exists s; (split; [done|]);
        (split; [done|]); (split; [done|]); unfold silent; eauto.
    + intros s c Hs Hc. destruct (decide (c = 0 ∨ criteria_of b < c)) as [H|H]; [|lia].
      destruct (Hno (UnknownCriterion (number s) c (criteria_of b))). by exists s.
    + intros c Hc. destruct (decide (Exists (λ s, c ∈ covered s) (steps p))) as [He|He]; [by apply Exists_exists in He|].
      destruct (lookup_lt_is_Some_2 (acceptance_criteria b) (N.to_nat (c - 1))) as [t Ht]; [unfold criteria_of in Hc; lia|].
      destruct (Hno (OrphanCriterion c t)). cbn. split_and!; [lia|done|]. intros s Hs Hin. apply He, Exists_exists. eauto.
    + intros s d Hs Hd. destruct (decide (d ∈ number <$> steps p)) as [Hin|Hin].
      * split; [|by apply list_elem_of_fmap in Hin as (t & -> & Ht); eauto].
        destruct (N.lt_ge_cases d (number s)) as [|Hle]; [done|]. destruct (Hno (ForwardDependency (number s) d)). by exists s.
      * destruct (Hno (UnknownDependency (number s) d)). by exists s.
  - intros [Hst Hcov Hown Hord] d Hd.
    destruct d; cbn in Hd; [destruct Hd as (s & Hs & Hd); cbn in Hd..| | | |]; try done.
    + destruct Hd as (_ & Hd & Hsil). destruct (Hst s Hs Hd) as (? & ? & ?). unfold silent in Hsil. naive_solver.
    + destruct Hd as (_ & _ & Hc & Hb). apply Hcov in Hc; [lia|done].
    + destruct Hd as (Hc & Ht & Hno). apply lookup_lt_Some in Ht.
      destruct (Hown criterion) as (s & Hs & Hin); [unfold criteria_of; lia|]. by destruct (Hno s Hs).
    + destruct Hd as (s & Hs & _ & Hw & Hn). apply Hn. destruct (Hord s _ Hs Hw) as (_ & t & Ht & <-). by apply list_elem_of_fmap_2.
    + destruct Hd as (s & Hs & -> & Hw & _ & Hle). destruct (Hord s _ Hs Hw) as [? _]. lia.
    + by destruct Hd as (s & _ & []).
Qed.
Lemma validate_fit p b : validate_for_approval p b = Ok tt ↔ fit p b.
Proof.
  rewrite validate_verdict, <-no_defect_fit. unfold verdict. split.
  - intros Hv d Hd. apply approval_defects_exact in Hd. destruct (approval_defects p b); [by apply not_elem_of_nil in Hd|done].
  - intros Hno. destruct (approval_defects p b) as [|d ds] eqn:Hd; [done|]. destruct (Hno d).
    apply approval_defects_exact. rewrite Hd. by left.
Qed.

(** ** Working a plan *)

(** The step loop does the first step that is not done and marks it. *)
Inductive work : Progress → Progress → Prop :=
  | work_step p s commit attempts :
      next_incomplete p = Some s → work p (fst (mark_complete (number s) commit attempts p)).

(** What the work keeps: the plan fits its brief, its numbers are distinct, and
    what is left to do is listed in the order of the numbers. *)
Record ordered (p : Progress) (b : Brief) : Prop := {
  ordered_fit : fit p b;
  ordered_numbers : NoDup (number <$> steps p);
  ordered_list : StronglySorted N.lt (number <$> to_do p);
}.

Lemma find_split (l : list Step) s : List.find (λ s, negb (done s)) l = Some s →
  ∃ before after, l = before ++ s :: after ∧ done s = false ∧ Forall (λ t, done t = true) before.
Proof.
  induction l as [|t l IH]; [done|]. cbn. destruct (done t) eqn:Ht; cbn [negb].
  - intros Hf. destruct (IH Hf) as (before & after & -> & Hd & Hb). exists (t :: before), after. by repeat constructor.
  - intros [= <-]. by exists [], l.
Qed.
Lemma filter_all_done l : Forall (λ t, done t = true) l → List.filter (λ s, negb (done s)) l = [].
Proof. induction 1 as [|t l Ht _ IH]; [done|]. cbn. by rewrite Ht. Qed.
Lemma to_do_split p before s after : steps p = before ++ s :: after → done s = false → Forall (λ t, done t = true) before →
  to_do p = s :: List.filter (λ s, negb (done s)) after.
Proof. intros Hs Hd Hb. unfold to_do. rewrite Hs, List.filter_app, filter_all_done by done. cbn. by rewrite Hd. Qed.
Lemma mark_split p before s after commit attempts :
  NoDup (number <$> steps p) → steps p = before ++ s :: after →
  steps (fst (mark_complete (number s) commit attempts p)) = before ++ complete commit attempts s :: after.
Proof.
  intros Hd Hs. unfold mark_complete.
  assert (Hu : update_step (number s) (complete commit attempts) (steps p) = (before ++ complete commit attempts s :: after, true)).
  2: { by rewrite Hu. }
  rewrite Hs in Hd |- *. clear Hs. induction before as [|t before IH]; cbn [app update_step].
  - by rewrite N.eqb_refl.
  - rewrite fmap_app in Hd. apply NoDup_cons in Hd as [Hn Hd]. destruct (N.eqb_spec (number t) (number s)) as [He|_].
    + destruct Hn. rewrite He. apply elem_of_app. right. by left.
    + rewrite IH; [done|]. by rewrite fmap_app.
Qed.
Lemma in_order_done p b s d : ordered p b → next_incomplete p = Some s → d ∈ waits_for s → step_is_done d p = true.
Proof.
  intros [Hf _ Hl] Hn Hd. apply find_split in Hn as (before & after & Hs & Hsd & Hb).
  destruct (fit_order _ _ Hf s d) as (Hlt & t & Ht & Hnum); [rewrite Hs; apply elem_of_app; right; by left|done|].
  rewrite (to_do_split p before s after) in Hl by done. cbn [fmap list_fmap] in Hl. apply StronglySorted_inv in Hl as [_ Hl].
  unfold step_is_done. apply existsb_exists. exists t. split; [by apply list_elem_of_In|].
  rewrite Hnum, N.eqb_refl. cbn [andb]. destruct (done t) eqn:Htd; [done|]. exfalso.
  rewrite Hs in Ht. apply elem_of_app in Ht as [Ht|[->|Ht]%elem_of_cons].
  - by rewrite (proj1 (list.Forall_forall _ _) Hb t Ht) in Htd.
  - lia.
  - assert (Hin : d ∈ number <$> List.filter (λ s, negb (done s)) after).
    { rewrite <-Hnum. apply list_elem_of_fmap_2, list_elem_of_In, filter_In. rewrite Htd. by rewrite <-list_elem_of_In. }
    pose proof (proj1 (list.Forall_forall _ _) Hl d Hin). cbn in *. lia.
Qed.

Definition same_plan (s t : Step) : Prop :=
  number t = number s ∧ covers t = covers s ∧ verify t = verify s ∧ depends t = depends s ∧ (done s = true → done t = true).
Lemma fit_kept p p' b : fit p b → Forall2 same_plan (steps p) (steps p') → fit p' b.
Proof.
  intros [Hst Hcov Hown Hord] H.
  assert (Hback : ∀ t, t ∈ steps p' → ∃ s, s ∈ steps p ∧ same_plan s t).
  { intros t [i Hi]%list_elem_of_lookup. destruct (Forall2_lookup_r _ _ _ _ _ H Hi) as (s & Hs & ?).
    exists s. split; [by eapply list_elem_of_lookup_2|done]. }
  assert (Hforth : ∀ s, s ∈ steps p → ∃ t, t ∈ steps p' ∧ same_plan s t).
  { intros s [i Hi]%list_elem_of_lookup. destruct (Forall2_lookup_l _ _ _ _ _ H Hi) as (t & Ht & ?).
    exists t. split; [by eapply list_elem_of_lookup_2|done]. }
  unfold covered, waits_for in *. constructor; unfold covered, waits_for.
  - intros t Ht Hd. destruct (Hback t Ht) as (s & Hs & _ & -> & -> & -> & Hdone). apply Hst; [done|].
    destruct (done s); [|done]. by rewrite Hdone in Hd.
  - intros t c Ht. destruct (Hback t Ht) as (s & Hs & _ & -> & _). by apply Hcov.
  - intros c Hc. destruct (Hown c Hc) as (s & Hs & Hin). destruct (Hforth s Hs) as (t & Ht & _ & Hct & _).
    exists t. by rewrite Hct.
  - intros t d Ht. destruct (Hback t Ht) as (s & Hs & Hn & _ & _ & Hdep & _). rewrite Hdep, Hn. intros Hd.
    destruct (Hord s d Hs Hd) as (Hlt & u & Hu & <-). split; [done|]. destruct (Hforth u Hu) as (v & Hv & Hvn & _). by exists v.
Qed.
Lemma work_ordered p p' b : ordered p b → work p p' → ordered p' b ∧ length (to_do p) = S (length (to_do p')).
Proof.
  intros [Hf Hd Hl] Hw. destruct Hw as [p s commit attempts Hn]. apply find_split in Hn as (before & after & Hs & Hsd & Hb).
  pose proof (mark_split p before s after commit attempts Hd Hs) as Hm.
  set (p' := fst (mark_complete (number s) commit attempts p)) in *.
  assert (Hsame : Forall2 same_plan (steps p) (steps p')).
  { rewrite Hs, Hm. apply Forall2_app; [|constructor]; [|by repeat split|].
    - apply Forall_Forall2_diag, list.Forall_forall. by repeat split.
    - apply Forall_Forall2_diag, list.Forall_forall. by repeat split. }
  assert (Hto : to_do p' = List.filter (λ s, negb (done s)) after).
  { unfold to_do. rewrite Hm, List.filter_app, filter_all_done by done. done. }
  rewrite (to_do_split p before s after Hs Hsd Hb) in Hl |- *. split; [|by rewrite Hto]. constructor.
  - by eapply fit_kept.
  - replace (number <$> steps p') with (number <$> steps p); [done|]. by rewrite Hs, Hm, !fmap_app.
  - rewrite Hto. by apply StronglySorted_inv in Hl as [Hl _].
Qed.

(** ** Claims *)

(** C16. Approval is exact and what it approves can be worked in order.  Any plan
    is approved exactly when it fits the brief, and the defects reported of any
    other are all there are, at least one: a step to do that leaves one of its
    three fields unsaid, a criterion of the brief that no step covers or a
    covered one that the brief does not have, a dependency that does not exist
    or does not come before.  An approved plan whose numbers are distinct and
    whose steps to do are listed by number is then worked so that each step
    finds all it depends on done, whatever is recorded of the steps on the way,
    and after as many steps as were left nothing is. *)
Theorem approved_plans_run_in_order p b :
  (validate_for_approval p b = Ok tt ↔ fit p b) ∧
  match validate_for_approval p b with
  | Ok _ =>
      NoDup (number <$> steps p) → StronglySorted N.lt (number <$> to_do p) →
      ∀ n p', nsteps work n p p' →
        (∀ s d, next_incomplete p' = Some s → d ∈ waits_for s → step_is_done d p' = true) ∧
        (n <= length (to_do p))%nat ∧ (next_incomplete p' = None ↔ n = length (to_do p))
  | Err defects => defects ≠ [] ∧ ∀ d, d ∈ defects ↔ is_defect p b d
  end.
Proof.
  split; [apply validate_fit|]. destruct (validate_for_approval p b) as [[]|ds] eqn:Hv.
  - intros Hd Hl n p' Hn. apply validate_fit in Hv.
    assert (Ho : ordered p' b ∧ (n + length (to_do p') = length (to_do p))%nat).
    { assert (Hp : ordered p b) by done. clear Hd Hl Hv. induction Hn as [p|n p q p' Hw _ IH]; [done|].
      destruct (work_ordered p q b Hp Hw) as [Hq Hlen]. destruct (IH Hq) as [? ?]. split; [done|lia]. }
    destruct Ho as [Ho Hlen]. split_and!; [by intros s d; apply in_order_done with b|lia|].
    unfold next_incomplete. assert (Hnone : List.find (λ s, negb (done s)) (steps p') = None ↔ to_do p' = []).
    { unfold to_do. induction (steps p') as [|s l IH]; [done|]. cbn. by destruct (done s). }
    rewrite Hnone. destruct (to_do p'); cbn in Hlen; [split; intros _; [lia|done]|split; [done|intros; lia]].
  - rewrite validate_verdict in Hv. unfold verdict in Hv. destruct (approval_defects p b) as [|d0 ds0] eqn:He; [done|].
    injection Hv as <-. split; [done|]. intros d. rewrite <-He. apply approval_defects_exact.
Qed.
Lemma approved_plans_run_in_order_witness :
  let after := fst (mark_complete 1 None 1 WHOLE) in
  next_incomplete after = Some (planned 2 "Refuse" [2] [1]) ∧ step_is_done 1 after = true ∧ next_incomplete after ≠ None.
Proof.
  destruct (approved_plans_run_in_order WHOLE TWO_CRITERIA) as [_ H]. rewrite whole_plan_passes in H.
  specialize (H ltac:(by apply (bool_decide_unpack _)) ltac:(by repeat constructor)). intros after.
  assert (Hnext : next_incomplete after = Some (planned 2 "Refuse" [2] [1])) by (vm_compute; reflexivity).
  destruct (H 1%nat after) as (Hdone & _ & Hend).
  { apply nsteps_once. apply (work_step WHOLE (planned 1 "Parse" [1] []) None 1). reflexivity. }
  split; [done|]. split; [|by rewrite Hnext].
  apply (Hdone (planned 2 "Refuse" [2] [1])); [done|]. vm_compute. constructor.
Defined.

(** The order in which a document lists its steps is not looked at: a step that
    waits for another can be listed before it, is approved, and is worked first. *)
Example listed_before_its_dependency :
  let p := mkProgress (txt "thing") (txt "work") None [planned 2 "Refuse" [2] [1]; planned 1 "Parse" [1] []] in
  (validate_for_approval p TWO_CRITERIA, option_map number (next_incomplete p), step_is_done 1 p) = (Ok tt, Some 2, false).
Proof. vm_compute. reflexivity. Qed.
