(* ===== verification/Project.v ===== *)
(** * The state of a project and the approval of its plan
    (localpilot-harness/src/workspace_state.rs, persist_approved_plan of
    plan_draft.rs, project_start.rs, init_git_workspace of resume.rs; feature of
    localpilot-cli/src/harness_cmd.rs)

    brief.md and PROGRESS.md lie in one directory of a file map.  Looking at them
    tells what can be done next; approval, adoption and a new feature are the
    operations that write the plan.  A run may first need a git repository.  The
    process may die at every state of a trace. *)

From Stdlib Require Import String.
From stdpp Require Import base gmap list numbers.
From S2P Require Import Prelude Monitor Utf8 Chars Ownership Files Message Json Fields Granularity Reconcile Brief Progress PlanReview.
From stdpp Require Import list.
#[local] Open Scope N_scope.
#[local] Open Scope list_scope.

#[export] Instance verification_eq_dec : EqDecision Verification.
Proof. solve_decision. Defined.
#[export] Instance scope_eq_dec : EqDecision WorkScope.
Proof. solve_decision. Defined.
#[export] Instance step_eq_dec : EqDecision Step.
Proof. solve_decision. Defined.
#[export] Instance plan_eq_dec : EqDecision Progress.
Proof. solve_decision. Defined.

(** ** The words of an error *)

Definition not_resumable_text (e : NotResumable) : Text :=
  match e with
  | Brief.NoBrief => txt "brief.md not found"
  | BriefBroken detail => txt "brief.md cannot be used: " ++ detail
  | NoPlan => txt "PROGRESS.md not found"
  | PlanBroken detail => txt "PROGRESS.md cannot be used: " ++ detail
  | Unbound => txt "PROGRESS.md records no brief revision"
  | StaleBinding recorded current =>
      txt "PROGRESS.md was built against brief revision " ++ recorded ++ txt ", but brief.md is now " ++ current
  | BindingUnsupported recorded =>
      txt "PROGRESS.md records a brief binding this build does not understand (" ++ recorded ++ txt ")"
  | PlanFinished => txt "every step in PROGRESS.md is already done"
  | OperationActive => txt "a harness operation is already running"
  end.
Definition error_text (e : HarnessError) : Text :=
  match e with
  | ProjectSetup detail => txt "project setup: " ++ detail
  | MissingSection document section => document ++ txt " is missing the required section: " ++ section
  | Malformed document detail => document ++ txt " is malformed: " ++ detail
  | Io path source => path ++ txt ": " ++ source
  | ProviderFailed detail => txt "provider error: " ++ detail
  | NotGitRepository =>
      txt "this folder is not a git repository, and the harness needs one to size and checkpoint steps; confirm creating it in the interactive harness, or run `localpilot init --git` here"
  | CannotResume why => not_resumable_text why
  end.

(** ** What is running *)

Inductive OperationLiveness := NotRunning | Running.
Inductive InterruptedRun := QuotaPause.
Inductive OperationState := Idle | Active | Interrupted (run : InterruptedRun).
Definition operation_state (liveness : OperationLiveness) (interrupted : option InterruptedRun) : OperationState :=
  match liveness, interrupted with
  | Running, _ => Active
  | NotRunning, Some run => Interrupted run
  | NotRunning, None => Idle
  end.

(** ** The documents *)

Inductive DocumentState :=
  | NoBrief
  | BriefUnreadable (error : HarnessError)
  | BriefMalformed (error : HarnessError)
  | BriefOnly (brief : Brief)
  | PlanUnreadable (brief : Brief) (error : HarnessError)
  | PlanMalformed (brief : Brief) (error : HarnessError)
  | PlanUnbound (brief : Brief) (progress : Progress)
  | PlanStale (brief : Brief) (progress : Progress) (recorded current : Text)
  | PlanBindingUnsupported (brief : Brief) (progress : Progress) (recorded : Text)
  | PlanReady (brief : Brief) (progress : Progress)
  | PlanComplete (brief : Brief) (progress : Progress).
Record WorkspaceState := mkState { documents : DocumentState; operation : OperationState }.

Definition state_brief (d : DocumentState) : option Brief :=
  match d with
  | NoBrief | BriefUnreadable _ | BriefMalformed _ => None
  | BriefOnly b | PlanUnreadable b _ | PlanMalformed b _ | PlanUnbound b _ | PlanStale b _ _ _
  | PlanBindingUnsupported b _ _ | PlanReady b _ | PlanComplete b _ => Some b
  end.
Definition state_progress (d : DocumentState) : option Progress :=
  match d with
  | NoBrief | BriefUnreadable _ | BriefMalformed _ | BriefOnly _ | PlanUnreadable _ _ | PlanMalformed _ _ => None
  | PlanUnbound _ p | PlanStale _ p _ _ | PlanBindingUnsupported _ p _ | PlanReady _ p | PlanComplete _ p => Some p
  end.

Definition resumable (state : WorkspaceState) : result Progress NotResumable :=
  match operation state with
  | Active => Err OperationActive
  | _ =>
      match documents state with
      | NoBrief => Err Brief.NoBrief
      | BriefUnreadable error | BriefMalformed error => Err (BriefBroken (error_text error))
      | BriefOnly _ => Err NoPlan
      | PlanUnreadable _ error | PlanMalformed _ error => Err (PlanBroken (error_text error))
      | PlanUnbound _ _ => Err Unbound
      | PlanBindingUnsupported _ _ recorded => Err (BindingUnsupported recorded)
      | PlanStale _ _ recorded current => Err (StaleBinding recorded current)
      | PlanComplete _ _ => Err PlanFinished
      | PlanReady _ progress => Ok progress
      end
  end.

(** The plan of a draft and what it was drafted for. *)
Record PlanDraft := mkDraft {
  progress : Progress;
  brief_revision : Text;
  repo_summary : Text;
  revisions : N;
  work_profile : option WorkProfile;
}.
Inductive PlanApproval :=
  | SourceChanged (document : Text)
  | HistoryChanged
  | NotSatisfied (defects : list PlanDefect)
  | NotWritten (error : HarnessError).
Inductive AdoptError :=
  | NotAdoptable (reason : Text)
  | Write (error : HarnessError).

(** Whether a finished step is one that was recorded. *)
Definition recorded_as (s recorded : Step) : bool :=
  done recorded
  && bool_decide (number recorded = number s ∧ description recorded = description s ∧ commit recorded = commit s ∧
                  attempts recorded = attempts s ∧ sessions recorded = sessions s ∧ verify recorded = verify s).
Definition invents_history (saved : option Progress) (draft : Progress) : bool :=
  existsb (λ s, done s && negb (match saved with Some saved => existsb (recorded_as s) (steps saved) | None => false end))
    (steps draft).

Section project.
Context {D : Type} `{Countable D} `{Digest} (to_lowercase : Text → Text) (root : D).
Abbreviation Path := (D * Text)%type.
Abbreviation Files := (gmap Path Bytes).

Definition brief_path : Path := (root, Brief.DOCUMENT).
Definition plan_path : Path := (root, DOCUMENT).

(** ** Looking *)

(** What the system lets be read. *)
Record ReadIo := mkReadIo { reads_brief : bool; reads_plan : bool }.
(** The system's words for a failed read or write are left out. *)
Definition io (path : Path) : HarnessError := Io (snd path) [].

Inductive Read := Absent | ReadText (text : Text) | Failed (error : HarnessError).
Definition read_document (fs : Files) (can_read : bool) (path : Path) : Read :=
  match fs !! path with
  | None => Absent
  | Some bytes =>
      if negb can_read then Failed (io path)
      else match decode bytes with Some text => ReadText text | None => Failed (io path) end
  end.

Definition inspect_documents (fs : Files) (r : ReadIo) : DocumentState :=
  match read_document fs (reads_brief r) brief_path with
  | Absent => NoBrief
  | Failed error => BriefUnreadable error
  | ReadText text =>
      match Brief.parse text with
      | Err error => BriefMalformed error
      | Ok brief =>
          match read_document fs (reads_plan r) plan_path with
          | Absent => BriefOnly brief
          | Failed error => PlanUnreadable brief error
          | ReadText text =>
              match parse text with
              | Err error => PlanMalformed brief error
              | Ok progress =>
                  match brief_binding progress with
                  | None => PlanUnbound brief progress
                  | Some recorded =>
                      match classify (revision_of brief) recorded with
                      | Unsupported => PlanBindingUnsupported brief progress recorded
                      | Stale => PlanStale brief progress recorded (revision_of brief)
                      | Current =>
                          match next_incomplete progress with
                          | None => PlanComplete brief progress
                          | Some _ => PlanReady brief progress
                          end
                      end
                  end
              end
          end
      end
  end.
Definition inspect (fs : Files) (r : ReadIo) (liveness : OperationLiveness) (interrupted : option InterruptedRun)
    : WorkspaceState :=
  mkState (inspect_documents fs r) (operation_state liveness interrupted).

(** ** Approval *)

Definition read_saved (fs : Files) (r : ReadIo) : result (option Progress) PlanApproval :=
  match read_document fs (reads_plan r) plan_path with
  | Absent => Ok None
  | Failed error => Err (NotWritten error)
  | ReadText text => match parse text with Ok p => Ok (Some p) | Err error => Err (NotWritten error) end
  end.
Definition read_brief (fs : Files) (r : ReadIo) : result Brief PlanApproval :=
  match read_document fs (reads_brief r) brief_path with
  | Absent => Err (NotWritten (io brief_path))
  | Failed error => Err (NotWritten error)
  | ReadText text => match Brief.parse text with Ok b => Ok b | Err error => Err (NotWritten error) end
  end.
Definition check_history (saved : option Progress) (draft : PlanDraft) : result unit PlanApproval :=
  if invents_history saved (progress draft) then Err HistoryChanged
  else match saved with
       | Some saved =>
           if existsb done (steps saved)
           then match reconcile to_lowercase saved (progress draft) (brief_revision draft) with
                | Err _ => Err HistoryChanged
                | Ok reconciled => if bool_decide (reconciled = progress draft) then Ok tt else Err HistoryChanged
                end
           else Ok tt
       | None => Ok tt
       end.
Definition satisfied (r : result unit (list PlanDefect)) : result unit PlanApproval :=
  match r with Ok _ => Ok tt | Err defects => Err (NotSatisfied defects) end.

(** The checks, in order; the text to write. *)
Definition approve_draft (fs : Files) (r : ReadIo) (draft : PlanDraft) (brief : Brief) (expected : option Progress)
    : result Text PlanApproval :=
  if negb (bool_decide (revision_of brief = brief_revision draft)) then Err (SourceChanged Brief.DOCUMENT)
  else
    let? current_brief := read_brief fs r in
    if negb (bool_decide (revision_of current_brief = brief_revision draft)) then Err (SourceChanged Brief.DOCUMENT)
    else
      let? saved := read_saved fs r in
      if negb (bool_decide (saved = expected)) then Err (SourceChanged DOCUMENT)
      else
        let? _ := check_history saved draft in
        let? _ := satisfied (validate_for_approval (progress draft) brief) in
        let? _ := match work_profile draft with
                  | Some profile => satisfied (validate_work_scope (progress draft) profile)
                  | None => Ok tt
                  end in
        Ok (render (bind_to_brief (brief_revision draft) (progress draft))).
Definition persist_approved_plan (fs : Files) (r : ReadIo) (w : WriteIo) (draft : PlanDraft) (brief : Brief)
    (expected : option Progress) (pid counter : N) : list Files * N * result unit PlanApproval :=
  match approve_draft fs r draft brief expected with
  | Err e => ([fs], counter, Err e)
  | Ok text =>
      let '(trace, counter, written) := atomic_write fs w plan_path (encode text) pid counter in
      (trace, counter, match written with Ok _ => Ok tt | Err _ => Err (NotWritten (io plan_path)) end)
  end.

(** ** Adoption *)

(** [std::fs::write]: the file is emptied, then written. *)
Record PlainIo := mkPlainIo { opens : bool; cut : option nat }.
Definition plain_write (fs : Files) (w : PlainIo) (path : Path) (bytes : Bytes) : list Files * bool :=
  if negb (opens w) then ([fs], false)
  else match cut w with
       | Some n => ([<[path := take n bytes]> fs; <[path := []]> fs; fs], false)
       | None => ([<[path := bytes]> fs; <[path := []]> fs; fs], true)
       end.

Definition adoptable (d : DocumentState) : result (Brief * Progress) Text :=
  match d with
  | PlanUnbound brief progress => Ok (brief, progress)
  | PlanReady _ progress | PlanComplete _ progress =>
      Err (txt "PROGRESS.md is already bound to this brief (" ++ default [] (brief_binding progress) ++ txt ")")
  | PlanBindingUnsupported _ _ recorded =>
      Err (txt "PROGRESS.md records a brief binding this build does not understand (" ++ recorded
           ++ txt "); it was written by a different version of LocalPilot. Update LocalPilot, or replan, rather than overwriting a binding whose meaning is unknown")
  | PlanStale _ _ _ _ =>
      Err (txt "PROGRESS.md was built against a different revision of brief.md; replan instead of adopting, so a superseded plan is not declared current")
  | NoBrief | BriefUnreadable _ => Err (txt "brief.md is missing or unreadable")
  | BriefMalformed _ => Err (txt "brief.md is malformed; fix it before adopting a plan against it")
  | BriefOnly _ => Err (txt "there is no PROGRESS.md to adopt")
  | PlanUnreadable _ _ | PlanMalformed _ _ => Err (txt "PROGRESS.md is unreadable or malformed")
  end.
Definition adopt_plan (fs : Files) (r : ReadIo) (w : PlainIo) : list Files * result Text AdoptError :=
  match adoptable (documents (inspect fs r NotRunning None)) with
  | Err reason => ([fs], Err (NotAdoptable reason))
  | Ok (brief, progress) =>
      let revision := revision_of brief in
      let '(trace, written) := plain_write fs w plan_path (encode (render (bind_to_brief revision progress))) in
      (trace, if written then Ok revision else Err (Write (io plan_path)))
  end.
(** ** A new feature *)

Definition extendable (d : DocumentState) : option (Brief * Progress) :=
  match d with PlanReady brief progress | PlanComplete brief progress => Some (brief, progress) | _ => None end.
Definition extended_brief (description : Text) (brief : Brief) : Brief := add_requirement description brief.
Definition extended_plan (description : Text) (brief : Brief) (progress : Progress) : Progress :=
  bind_to_brief (revision_of (extended_brief description brief))
    (append_step (txt "Implement: " ++ description) progress).1.
(** The plan is written first, the brief only when the plan was. *)
Definition feature (fs : Files) (r : ReadIo) (plan_io brief_io : PlainIo) (description : Text) : list Files * bool :=
  match extendable (documents (inspect fs r NotRunning None)) with
  | None => ([fs], false)
  | Some (brief, progress) =>
      let '(trace, written) := plain_write fs plan_io plan_path (encode (render (extended_plan description brief progress))) in
      if negb written then (trace, false)
      else
        let '(more, written) :=
          plain_write (default fs (head trace)) brief_io brief_path (encode (Brief.render (extended_brief description brief))) in
        (more ++ tail trace, written)
  end.

(** ** A repository to run in *)

Definition HARNESS_LOCAL_PATHS : list Text :=
  [txt ".localpilot/"; txt ".localpilot.toml"; txt ".localmind/"; txt ".localmind.toml"].

Inductive EntryKind := IsDir | IsFile | IsSymlink | IsOther.
(** What looking at the project and asking git tells, nothing being written: the
    entries of the project's directory, a name being absent when it is not
    Unicode; the top level of the repository around it ([Some None] when a path
    cannot be resolved), as whether it is the project; whether HEAD can be
    resolved, which branch it names, whether that branch exists and whether
    anything is staged; and, for a project in no repository, whether there is a
    .git above it and whether git then answers at all. *)
Record Inspection := mkInspection {
  dir_entries : option (list (option (option Text * EntryKind)));
  top_level : option (option bool);
  head_found : bool;
  head_branch : bool;
  branch_exists : option bool;
  anything_staged : option bool;
  git_above : bool;
  top_level_again : bool;
  git_version : bool;
}.
Definition local_state (name : option Text) (kind : EntryKind) : bool :=
  match name, kind with
  | Some name, IsDir => bool_decide (name ∈ [txt ".git"; txt ".localpilot"; txt ".localmind"])
  | Some name, IsFile => bool_decide (name ∈ [txt ".localpilot.toml"; txt ".localmind.toml"])
  | _, _ => false
  end.
Fixpoint effectively_empty (entries : list (option (option Text * EntryKind))) : option bool :=
  match entries with
  | [] => Some true
  | None :: _ => None
  | Some (name, kind) :: entries => if local_state name kind then effectively_empty entries else Some false
  end.
Definition needs_baseline (i : Inspection) : option bool :=
  match dir_entries i ≫= effectively_empty with
  | None => None
  | Some false => Some false
  | Some true =>
      match top_level i with
      | Some None => None
      | Some (Some is_root) =>
          if negb is_root || head_found i then Some false
          else if negb (head_branch i) then None
          else match branch_exists i, anything_staged i with
               | Some false, Some false => Some true
               | _, _ => None
               end
      | None => if (if git_above i then top_level_again i else git_version i) then Some true else None
      end
  end.

(** Git, as one command meets it: what it tells before and after permission,
    whether the project is inside a work tree and has a .git; what creating a
    repository and an empty commit do to the files, and whether they succeed;
    where the local exclude file is, whether it or its directory is a symbolic
    link, can be made, read and written. *)
Record Git := mkGit {
  inspected : Inspection;
  inspected_again : Inspection;
  in_work_tree : bool;
  has_dot_git : bool;
  git_init : Files → Files * bool;
  exclude_path : Files → option Path;
  exclude_linked : bool;
  exclude_dir_made : bool;
  exclude_readable : bool;
  exclude_io : PlainIo;
  git_commit : Files → Files * bool;
}.
Definition exclude_entry (text entry : Text) : Text :=
  if existsb (λ line, bool_decide (trim line = entry)) (lines text) then text
  else (match list.last text with None => text | Some c => if c =? LF then text else text ++ [LF] end) ++ entry ++ [LF].
Definition read_exclude (g : Git) (fs : Files) (path : Path) : option Text :=
  match fs !! path with
  | None => Some []
  | Some bytes => if exclude_readable g then decode bytes else None
  end.
(** [checked]: links and unreadable files are refused, not ignored. *)
Definition exclude_local_paths (checked : bool) (g : Git) (fs : Files) : Files * bool :=
  match exclude_path g fs with
  | None => (fs, false)
  | Some path =>
      if checked && exclude_linked g || negb (exclude_dir_made g) then (fs, false)
      else match (if checked then read_exclude g fs path else Some (default [] (read_exclude g fs path))) with
           | None => (fs, false)
           | Some text =>
               let '(trace, written) :=
                 plain_write fs (exclude_io g) path (encode (fold_left exclude_entry HARNESS_LOCAL_PATHS text)) in
               (default fs (head trace), written)
           end
  end.
(** [None]: it failed, and what was done so far stays done. *)
Definition initialize (g : Git) (fs : Files) : Files * option bool :=
  match needs_baseline (inspected_again g) with
  | None => (fs, None)
  | Some false => (fs, Some false)
  | Some true =>
      let '(fs, made) := if has_dot_git g then (fs, true) else git_init g fs in
      if negb made then (fs, None)
      else
        let '(fs, excluded) := exclude_local_paths true g fs in
        if negb excluded then (fs, None)
        else let '(fs, committed) := git_commit g fs in (fs, if committed then Some true else None)
  end.
Definition init_git_workspace (g : Git) (fs : Files) : Files * option bool :=
  match needs_baseline (inspected g) with
  | None => (fs, None)
  | Some true => initialize g fs
  | Some false =>
      if in_work_tree g then (fs, Some false)
      else
        let '(fs, made) := git_init g fs in
        if negb made then (fs, None)
        else let '(fs, excluded) := exclude_local_paths false g fs in (fs, if excluded then Some true else None)
  end.

(** Git's own files are not among those that lie in the project's directory
    itself. *)
Definition keeps_project (g : Git) : Prop :=
  (∀ fs name, (git_init g fs).1 !! (root, name) = fs !! (root, name)) ∧
  (∀ fs name, (git_commit g fs).1 !! (root, name) = fs !! (root, name)) ∧
  (∀ fs path, exclude_path g fs = Some path → fst path ≠ root).
End project.
