(* ===== verification/ProjectProps.v ===== *)
(** * What the project's documents may become

    An approved plan is written whole or not at all, keeps the finished work, and
    is what is found when the project is looked at next. *)

From Stdlib Require Import String.
From stdpp Require Import base gmap list sorting numbers.
From S2P Require Import Prelude Monitor Utf8 Chars Ownership Files Message Json Fields Granularity Reconcile Brief BriefProps.
From S2P Require Import Progress ProgressProps ReconcileProps PlanReview PlanReviewProps Project.
From stdpp Require Import list.
#[local] Open Scope N_scope.
#[local] Open Scope list_scope.

Section project.
Context {D : Type} `{Countable D} `{Digest} (to_lowercase : Text → Text) (root : D).
Abbreviation Files := (gmap (D * Text) Bytes).
Abbreviation plan_path := (Project.plan_path root).
Abbreviation brief_path := (Project.brief_path root).
Abbreviation persist_approved_plan := (Project.persist_approved_plan to_lowercase root).
Abbreviation approve_draft := (Project.approve_draft to_lowercase root).
Abbreviation inspect_documents := (Project.inspect_documents root).

Lemma paths_differ : brief_path ≠ plan_path.
Proof. by intros [= ?]. Qed.

(** ** The checks *)

Lemma check_history_passed saved (draft : PlanDraft) :
  check_history to_lowercase saved draft = Ok tt →
  (∀ s, s ∈ steps (progress draft) → done s = true →
     ∃ old t, saved = Some old ∧ t ∈ steps old ∧ recorded_as s t = true) ∧
  (∀ old, saved = Some old → existsb done (steps old) = true →
     reconcile to_lowercase old (progress draft) (brief_revision draft) = Ok (progress draft)).
Proof.
  unfold check_history. destruct (invents_history _ _) eqn:Hi; [done|]. intros Hc. split.
  - intros s Hs Hd. unfold invents_history in Hi. rewrite <-not_true_iff_false, existsb_exists in Hi.
    assert (Hb : ∀ b, (b = false → False) → b = true) by (by intros []; auto).
    destruct saved as [old|].
    + destruct (existsb (recorded_as s) (steps old)) eqn:He.
      * apply existsb_exists in He as (t & Ht%list_elem_of_In & Hr). eauto.
      * destruct Hi. exists s. rewrite Hd, He. split; [by apply list_elem_of_In|done].
    + destruct Hi. exists s. rewrite Hd. split; [by apply list_elem_of_In|done].
  - intros old -> He. rewrite He in Hc. destruct (reconcile _ _ _ _) as [p|]; [|done].
    case_bool_decide as Hp; [by f_equal|done].
Qed.

(** What passed when a plan is approved. *)
Record approved (fs : Files) (r : ReadIo) (draft : PlanDraft) (brief : Brief) (expected : option Progress)
    (text : Text) : Prop := {
  approved_text : text = render (bind_to_brief (brief_revision draft) (progress draft));
  approved_brief : ∃ current, read_brief root fs r = Ok current ∧ revision_of current = brief_revision draft;
  approved_saved : read_saved root fs r = Ok expected;
  approved_history : check_history to_lowercase expected draft = Ok tt;
  approved_fit : fit (progress draft) brief;
  approved_scope : ∀ profile, work_profile draft = Some profile → validate_work_scope (progress draft) profile = Ok tt;
}.
Lemma approve_passed fs r draft brief expected text :
  approve_draft fs r draft brief expected = Ok text → approved fs r draft brief expected text.
Proof.
  unfold Project.approve_draft. destruct (negb (bool_decide (revision_of brief = _))); [done|].
  destruct (read_brief root fs r) as [current|] eqn:Hb; [|done].
  case_bool_decide as Hr; cbn [negb]; [|done].
  destruct (read_saved root fs r) as [saved|] eqn:Hs; [|done]. case_bool_decide as He; cbn [negb]; [|done]. subst saved.
  destruct (check_history _ _ _) as [[]|] eqn:Hh; [|done].
  destruct (validate_for_approval _ _) as [[]|] eqn:Hv; [|done]. cbn [satisfied].
  destruct (work_profile draft) as [profile|] eqn:Hw.
  - destruct (validate_work_scope _ _) as [[]|] eqn:Hsc; [|done]. intros [= <-].
    constructor; [done|by exists current|done|done|by apply validate_fit|]. rewrite Hw. by intros ? [= <-].
  - intros [= <-]. constructor; [done|by exists current|done|done|by apply validate_fit|]. by rewrite Hw.
Qed.
Lemma work_scope_passed p profile : validate_work_scope p profile = Ok tt →
  ∀ s, s ∈ to_do p → ∃ w, scope s = Some w ∧ accepts profile w = true.
Proof.
  unfold validate_work_scope, verdict. destruct (omap _ _) eqn:Ho; [|done]. intros _ s Hs.
  assert (Hd : scope_defect profile s = None).
  { destruct (scope_defect profile s) as [d|] eqn:Hd; [|done]. exfalso. apply (not_elem_of_nil d). rewrite <-Ho.
    apply list_elem_of_omap. eauto. }
  unfold scope_defect in Hd. destruct (scope s) as [w|]; [|done]. exists w. split; [done|]. by destruct (accepts profile w).
Qed.

(** ** What is kept *)

Lemma finished_kept old (draft : PlanDraft) :
  NoDup (number <$> steps old) → highest (steps old) + 1 + N.of_nat (length (steps (progress draft))) <= U64_MAX →
  check_history to_lowercase (Some old) draft = Ok tt →
  ∀ t, t ∈ steps old → done t = true → ∃ s, s ∈ steps (progress draft) ∧ recorded_as s t = true.
Proof.
  intros Hn Hh Hc t Ht Hd. apply check_history_passed in Hc as [_ Hc].
  specialize (Hc old eq_refl ltac:(apply existsb_exists; exists t; split; [by apply list_elem_of_In|done])).
  pose proof (reconcile_exact to_lowercase old (progress draft) (brief_revision draft) Hn Hh) as Hr. rewrite Hc in Hr.
  destruct (kept_parts _ _ _ _ _ Hr) as (history & future & index & rest & place & Hs & Hf & _).
  assert (Hin : t ∈ List.filter done (steps old)) by (apply list_elem_of_In, filter_In; by rewrite <-list_elem_of_In).
  apply list_elem_of_lookup in Hin as [i Hi]. destruct (Forall3_lookup_l _ _ _ _ _ _ Hf Hi) as (j & s & _ & Hsi & u & _ & Hk & _).
  exists s. split; [rewrite Hs; apply elem_of_app; left; by eapply list_elem_of_lookup_2|].
  unfold recorded_as. rewrite Hd. apply bool_decide_eq_true. destruct Hk as (? & ? & _ & ? & ? & ? & ? & _). by split_and!.
Qed.

(** ** What is found next *)

Lemma read_brief_again (fs : Files) r current bytes : read_brief root fs r = Ok current →
  ∀ can_read, can_read = true →
  match read_document (<[plan_path := bytes]> fs) can_read brief_path with
  | ReadText text => Brief.parse text = Ok current
  | _ => False
  end.
Proof.
  intros Hb can_read ->. unfold read_brief, read_document in *. pose proof paths_differ.
  rewrite lookup_insert_ne by done. destruct (fs !! brief_path) as [b|]; [|done]. cbn [negb].
  destruct (reads_brief r); [|done]. cbn [negb] in Hb. destruct (decode b) as [text|]; [|done].
  by destruct (Brief.parse text); [injection Hb as ->|].
Qed.
Lemma bound_ok p revision : progress_ok p → (tidy revision ∧ revision ≠ []) → progress_ok (bind_to_brief revision p).
Proof. intros [? ? ? ? ?] Hr. constructor; cbn; try done. by intros b [= <-]. Qed.
Lemma revision_written b : (∀ bytes, hex64 (sha256 bytes)) → tidy (revision_of b) ∧ revision_of b ≠ [].
Proof.
  intros Hhex. split; [|done]. split; [by apply written_revision_trimmed|]. unfold revision_of.
  rewrite !not_elem_of_app. split_and!; [by apply (bool_decide_unpack _)..|]. intros Hin.
  destruct (Hhex (canonical_v1 b)) as [_ Hh]. apply list_elem_of_In in Hin.
  apply (proj1 (forallb_forall _ _) Hh) in Hin. by vm_compute in Hin.
Qed.
(** What is found in a directory with a brief and a plan bound to it. *)
Lemma found_bound (fs : Files) r r' current p :
  (∀ bytes, hex64 (sha256 bytes)) → progress_ok p → read_brief root fs r = Ok current →
  let bound := bind_to_brief (revision_of current) p in
  forallb is_scalar (render bound) = true → reads_brief r' = true → reads_plan r' = true →
  inspect_documents (<[plan_path := encode (render bound)]> fs) r' =
    match next_incomplete (settled bound) with
    | Some _ => PlanReady current (settled bound)
    | None => PlanComplete current (settled bound)
    end.
Proof.
  intros Hhex Hp Hb bound Hsc Hrb Hrp. unfold Project.inspect_documents.
  pose proof (read_brief_again fs r current (encode (render bound)) Hb _ Hrb) as Ht.
  destruct (read_document _ (reads_brief r') _) as [|text|]; [done| |done]. rewrite Ht. unfold read_document.
  rewrite lookup_insert_eq, Hrp, decode_encode by done. cbn [negb].
  rewrite written_is_read by by apply bound_ok, revision_written. cbn [settled set_steps brief_binding bound bind_to_brief].
  unfold revision_of. rewrite classify_written, bool_decide_eq_true_2 by done. by destruct (next_incomplete _).
Qed.

Lemma approval_outcome (fs : Files) r w draft brief expected pid counter :
  (∀ bytes, hex64 (sha256 bytes)) → progress_ok (progress draft) →
  (∀ old, expected = Some old → highest (steps old) + 1 + N.of_nat (length (steps (progress draft))) <= U64_MAX) →
  let bound := bind_to_brief (brief_revision draft) (progress draft) in
  forallb is_scalar (render bound) = true →
  let '(trace, _, res) := persist_approved_plan fs r w draft brief expected pid counter in
  Forall (intact fs plan_path (encode (render bound))) trace ∧
  ∃ final before, trace = final :: before ∧
  match res with
  | Err _ => final !! plan_path = fs !! plan_path ∧ (wi_unlink w = true → final = fs)
  | Ok _ =>
      fit (progress draft) brief ∧
      (∀ profile s, work_profile draft = Some profile → s ∈ to_do (progress draft) →
         ∃ size, scope s = Some size ∧ accepts profile size = true) ∧
      (∀ s, s ∈ steps (progress draft) → done s = true →
         ∃ old t, expected = Some old ∧ t ∈ steps old ∧ recorded_as s t = true) ∧
      (∀ old t, expected = Some old → t ∈ steps old → done t = true →
         ∃ s, s ∈ steps (progress draft) ∧ recorded_as s t = true) ∧
      ∃ current, read_brief root fs r = Ok current ∧ revision_of current = brief_revision draft ∧
        ∀ r', reads_brief r' = true → reads_plan r' = true →
          inspect_documents final r' =
            match next_incomplete (settled bound) with
            | Some _ => PlanReady current (settled bound)
            | None => PlanComplete current (settled bound)
            end
  end.
Proof.
  intros Hhex Hp Hh bound Hsc. unfold Project.persist_approved_plan.
  destruct (approve_draft fs r draft brief expected) as [text|e] eqn:Ha.
  2: { split; [constructor; [apply intact_refl|constructor]|]. by exists fs, []. }
  apply approve_passed in Ha as [-> (current & Hb & Hrev) Hsaved Hhist Hfit Hscope].
  pose proof (atomic_write_outcome fs w plan_path (encode (render bound)) pid counter) as Ho. fold bound.
  destruct (atomic_write _ _ _ _ _ _) as [[trace c] res]. destruct Ho as [Htrace (final & before & -> & Hres)].
  split; [done|]. exists final, before. split; [done|]. destruct res as [[]|e]; [|done]. subst final.
  split_and!; [done|intros profile s Hw; by apply work_scope_passed, Hscope|by apply check_history_passed in Hhist as [? _]| |].
  - intros old t -> Ht Hd. eapply finished_kept; [|by apply Hh|done|done|done].
    unfold read_saved in Hsaved. destruct (read_document _ _ _) as [|text|]; [done| |done].
    destruct (parse text) as [p|] eqn:Hparse; [|done]. injection Hsaved as ->. by apply read_can_be_written in Hparse as [].
  - exists current. split_and!; [done|done|]. intros r' Hrb Hrp. subst bound. rewrite <-Hrev in *. by apply found_bound with r.
Qed.

Lemma resume_exact (fs : Files) r liveness interrupted p :
  (∀ bytes, hex64 (sha256 bytes)) →
  resumable (inspect root fs r liveness interrupted) = Ok p ↔
  liveness = NotRunning ∧
  ∃ brief, read_brief root fs r = Ok brief ∧ read_saved root fs r = Ok (Some p) ∧
    trim <$> brief_binding p = Some (revision_of brief) ∧ ∃ s, next_incomplete p = Some s.
Proof.
  clear to_lowercase. intros Hhex. unfold inspect, resumable. cbn [operation documents].
  assert (Hcur : ∀ brief recorded, classify (revision_of brief) recorded = Current ↔ trim recorded = revision_of brief).
  { intros brief recorded. split.
    - unfold classify. destruct (split_once _ _) as [[tag hash]|]; [|done]. destruct (negb _); [done|].
      destruct (_ || _); [done|]. by case_bool_decide.
    - intros He. rewrite <-classify_trimmed, He. unfold revision_of. by rewrite classify_written, bool_decide_eq_true_2. }
  assert (Hdoc : (∃ brief, inspect_documents fs r = PlanReady brief p) ↔
    ∃ brief, read_brief root fs r = Ok brief ∧ read_saved root fs r = Ok (Some p) ∧
      trim <$> brief_binding p = Some (revision_of brief) ∧ ∃ s, next_incomplete p = Some s).
  { apply exist_proper. intros brief. unfold Project.inspect_documents, read_brief, read_saved.
    destruct (read_document fs (reads_brief r) _) as [|text|]; [naive_solver| |naive_solver].
    destruct (Brief.parse text) as [b|]; [|naive_solver].
    destruct (read_document fs (reads_plan r) _) as [|text'|]; [naive_solver| |naive_solver].
    destruct (parse text') as [q|]; [|naive_solver].
    destruct (brief_binding q) as [recorded|] eqn:Hq.
    2: { split; [done|]. intros (_ & [= <-] & Hb & _). by rewrite Hq in Hb. }
    pose proof (Hcur b recorded) as Hc. destruct (classify (revision_of b) recorded).
    - destruct (next_incomplete q) as [s|] eqn:Hn; split.
      + intros [= <- <-]. rewrite Hq. split_and!; [done|done| |eauto]. cbn. f_equal. by apply Hc.
      + intros ([= <-] & [= <-] & _). done.
      + done.
      + intros (_ & [= <-] & _ & s & Hs). congruence.
    - split; [done|]. intros ([= <-] & [= <-] & Hb & _). rewrite Hq in Hb. injection Hb as Hb. by apply Hc in Hb.
    - split; [done|]. intros ([= <-] & [= <-] & Hb & _). rewrite Hq in Hb. injection Hb as Hb. by apply Hc in Hb. }
  rewrite <-Hdoc. destruct liveness; [|by split; [|intros [? _]]].
  destruct interrupted as [run|]; cbn [operation_state]; destruct (inspect_documents fs r); naive_solver.
Qed.

(** ** Claims *)

(** C15. Approving a plan is sound.  Take a plan that can be written (as every plan
    read from a file or from the model's reply can: one-line trimmed texts,
    numbers that fit, different step numbers, no step that waits for a step 0,
    which reconciliation can produce) with room for its numbers.  At every point
    at which the process may die, PROGRESS.md holds its old content or the whole
    new plan, and no other file is touched.  On success the plan fits the brief,
    within its work profile if it has one; it marks no step as done that the
    saved plan did not record with the same number, words, commit, attempts,
    sessions and check, and leaves out none that was recorded; and whoever looks
    at the project next finds that plan, bound to the brief on disk, ready to run
    or complete; of a step not done, recorded commit, attempts and sessions are
    not kept.  On an error PROGRESS.md is as it was. *)
Theorem approval_is_sound (fs : Files) r w draft brief expected pid counter :
  (∀ bytes, hex64 (sha256 bytes)) → progress_ok (progress draft) →
  (∀ old, expected = Some old → highest (steps old) + 1 + N.of_nat (length (steps (progress draft))) <= U64_MAX) →
  let bound := bind_to_brief (brief_revision draft) (progress draft) in
  forallb is_scalar (render bound) = true →
  let '(trace, _, res) := persist_approved_plan fs r w draft brief expected pid counter in
  Forall (intact fs plan_path (encode (render bound))) trace ∧
  ∃ final before, trace = final :: before ∧
  match res with
  | Err _ => final !! plan_path = fs !! plan_path ∧ (wi_unlink w = true → final = fs)
  | Ok _ =>
      fit (progress draft) brief ∧
      (∀ profile s, work_profile draft = Some profile → s ∈ to_do (progress draft) →
         ∃ size, scope s = Some size ∧ accepts profile size = true) ∧
      (∀ s, s ∈ steps (progress draft) → done s = true →
         ∃ old t, expected = Some old ∧ t ∈ steps old ∧ recorded_as s t = true) ∧
      (∀ old t, expected = Some old → t ∈ steps old → done t = true →
         ∃ s, s ∈ steps (progress draft) ∧ recorded_as s t = true) ∧
      ∃ current, read_brief root fs r = Ok current ∧ revision_of current = brief_revision draft ∧
        ∀ r', reads_brief r' = true → reads_plan r' = true →
          inspect_documents final r' =
            match next_incomplete (settled bound) with
            | Some _ => PlanReady current (settled bound)
            | None => PlanComplete current (settled bound)
            end
  end.
Proof. apply approval_outcome. Qed.

(** C24. One gate decides whether the next step may run.  A plan is handed out
    exactly when nothing else is running, brief.md and PROGRESS.md can be read,
    the plan records the revision of that very brief, and some step is left to
    do; the plan handed out is the one on disk. *)
Theorem resume_gate_is_exact (fs : Files) r liveness interrupted p :
  (∀ bytes, hex64 (sha256 bytes)) →
  resumable (inspect root fs r liveness interrupted) = Ok p ↔
  liveness = NotRunning ∧
  ∃ brief, read_brief root fs r = Ok brief ∧ read_saved root fs r = Ok (Some p) ∧
    trim <$> brief_binding p = Some (revision_of brief) ∧ ∃ s, next_incomplete p = Some s.
Proof. apply resume_exact. Qed.

(** ** Adoption *)

(** Adopting writes only a plan that was bound to nothing, and what is found next
    is that plan bound to the brief on disk. *)
Lemma adoption_binds (fs : Files) r w :
  (∀ bytes, hex64 (sha256 bytes)) →
  let '(trace, res) := adopt_plan root fs r w in
  match res with
  | Ok revision =>
      ∃ brief p, inspect_documents fs r = PlanUnbound brief p ∧ revision = revision_of brief ∧
        (forallb is_scalar (render (bind_to_brief revision p)) = true →
         ∀ r', reads_brief r' = true → reads_plan r' = true →
           ∃ final before, trace = final :: before ∧
             state_progress (inspect_documents final r') = Some (settled (bind_to_brief revision p)))
  | Err (NotAdoptable _) => trace = [fs]
  | Err (Write _) => True
  end.
Proof.
  intros Hhex. unfold adopt_plan. cbn [inspect documents]. destruct (adoptable _) as [[brief p]|] eqn:Ha; [|done].
  unfold adoptable in Ha. destruct (inspect_documents fs r) eqn:Hi; try done. injection Ha as -> ->.
  unfold plain_write. destruct (opens w); cbn [negb]; [|done]. destruct (cut w); [done|].
  exists brief, p. split_and!; [done|done|]. intros Hsc r' Hrb Hrp. eexists _, _. split; [done|].
  unfold Project.inspect_documents in Hi. assert (Hb : read_brief root fs r = Ok brief ∧ progress_ok p).
  { unfold read_brief. destruct (read_document fs (reads_brief r) _) as [|text|]; [done| |done].
    destruct (Brief.parse text) as [b|]; [|done].
    destruct (read_document fs (reads_plan r) _) as [|text'|]; [done| |done].
    destruct (parse text') as [q|] eqn:Hq; [|done]. apply read_can_be_written in Hq.
    destruct (brief_binding q) as [recorded|]; [|by injection Hi as -> ->].
    destruct (classify _ _); [by destruct (next_incomplete q)|done|done]. }
  destruct Hb as [Hb Hp]. rewrite (found_bound fs r r' brief p) by done. by destruct (next_incomplete _).
Qed.
(** ** What a new feature and a new repository write *)

Lemma plain_outcome fs w (path : D * Text) bytes :
  ∃ st rest, (plain_write fs w path bytes).1 = st :: rest ∧ (∀ q, q ≠ path → st !! q = fs !! q) ∧
    ((plain_write fs w path bytes).2 = true → st = <[path := bytes]> fs).
Proof.
  unfold plain_write. destruct (opens w); cbn [negb]; [|by eexists _, _].
  destruct (cut w) as [n|]; eexists _, _; (split; [done|]); (split; [|done]); intros q Hq; by rewrite lookup_insert_ne.
Qed.
Lemma feature_outcome fs r io io' description brief p :
  extendable (inspect_documents fs r) = Some (brief, p) →
  ∃ st rest, (feature root fs r io io' description).1 = st :: rest ∧
    (∀ q, q ≠ plan_path → q ≠ brief_path → st !! q = fs !! q) ∧
    (st !! brief_path = fs !! brief_path ∨
     st !! plan_path = Some (encode (render (extended_plan description brief p)))) ∧
    ((feature root fs r io io' description).2 = true →
     st !! plan_path = Some (encode (render (extended_plan description brief p))) ∧
     st !! brief_path = Some (encode (Brief.render (extended_brief description brief)))).
Proof.
  intros He. unfold feature. cbn [inspect documents]. rewrite He.
  set (plan := encode _). set (text := encode (Brief.render _)).
  assert (Hpb : brief_path ≠ plan_path) by (intros [= ?]; done).
  pose proof (plain_outcome fs io plan_path plan) as (st & rest & Ht & Hst & Hw).
  destruct (plain_write fs io _ _) as [trace written]. cbn [fst snd] in *. subst trace.
  destruct written; cbn [negb head default from_option id].
  2: { exists st, rest. split_and!; [done| |left; by apply Hst|done]. intros q Hq _. by apply Hst. }
  pose proof (plain_outcome st io' brief_path text) as (st' & rest' & Ht & Hst' & Hw').
  specialize (Hw eq_refl). destruct (plain_write st io' _ _) as [more written]. cbn [fst snd] in *. subst more.
  assert (Hplan : st' !! plan_path = Some plan) by (rewrite Hst' by done; subst st; by rewrite lookup_insert_eq).
  eexists st', _. split_and!; [done| |by right|].
  - intros q Hq Hb. rewrite Hst' by done. by apply Hst.
  - intros ->. split; [done|]. rewrite (Hw' eq_refl). by rewrite lookup_insert_eq.
Qed.
Lemma exclude_keeps checked (g : Git) fs name : keeps_project root g →
  (exclude_local_paths checked g fs).1 !! (root, name) = fs !! (root, name).
Proof.
  intros (_ & _ & Hp). unfold exclude_local_paths. destruct (exclude_path g fs) as [path|] eqn:He; [|done].
  destruct (_ || _); [done|]. destruct (if checked then _ else _) as [text|]; [|done].
  set (bytes := encode _). pose proof (plain_outcome fs (exclude_io g) path bytes) as (st & rest & Ht & Hst & _).
  destruct (plain_write _ _ _ _) as [trace written]. cbn [fst] in Ht. subst trace. cbn. apply Hst.
  intros <-. by apply (Hp fs _ He).
Qed.
Lemma initialize_keeps (g : Git) fs name : keeps_project root g →
  (initialize g fs).1 !! (root, name) = fs !! (root, name).
Proof.
  intros Hk. unfold initialize. destruct (needs_baseline _) as [[]|]; try done.
  pose proof Hk as (Hi & Hc & _).
  assert (Hmade : (if has_dot_git g then (fs, true) else git_init g fs).1 !! (root, name) = fs !! (root, name))
    by (destruct (has_dot_git g); [done|apply Hi]).
  destruct (if has_dot_git g then _ else _) as [fs1 made]. cbn [fst] in Hmade. rewrite <-Hmade.
  destruct made; cbn [negb]; [|done]. pose proof (exclude_keeps true g fs1 name Hk) as He.
  destruct (exclude_local_paths _ _ _) as [fs2 excluded]. cbn [fst] in He. rewrite <-He.
  destruct excluded; cbn [negb]; [|done]. rewrite <-(Hc fs2 name). by destruct (git_commit g fs2).
Qed.
Lemma init_git_keeps (g : Git) fs name : keeps_project root g →
  (init_git_workspace g fs).1 !! (root, name) = fs !! (root, name).
Proof.
  intros Hk. unfold init_git_workspace. destruct (needs_baseline _) as [[]|]; [by apply initialize_keeps| |done].
  destruct (in_work_tree g); [done|]. rewrite <-(proj1 Hk fs name). destruct (git_init g fs) as [fs1 made]. cbn [fst].
  destruct made; cbn [negb]; [|done]. rewrite <-(exclude_keeps false g fs1 name Hk).
  by destruct (exclude_local_paths _ _ _).
Qed.
End project.

(** ** A project *)

#[local] Existing Instance folded.
Lemma folded_hex bytes : hex64 (sha256 bytes).
Proof.
  destruct (hex_digits_hex 64 (fold_left (λ h b, h * 257 + b + 1) bytes 0)) as [H1 H2].
  split; [by apply Nat.eqb_eq|done].
Qed.
Definition laid : Step :=
  mkStep 1 (txt "Lay the base") true (Some (txt "abc1234")) 1 [txt "s-1"] (Some []) None (Some []) None.
Definition SAVED : Progress :=
  mkProgress (txt "parser errors") (txt "work") (Some (revision_of SAMPLE)) [laid; planned 2 "Paint it" [1] [1]].
Definition DRAFTED : Progress :=
  mkProgress (txt "parser errors") (txt "work") (Some (revision_of SAMPLE)) [laid; planned 2 "Name the section" [1] [1]].
Definition REVIEWED : PlanDraft := mkDraft DRAFTED (revision_of SAMPLE) [] 1 None.
Definition ON_DISK : gmap (unit * Text) Bytes :=
  <[(tt, Brief.DOCUMENT) := encode DESCRIBED]> (<[(tt, DOCUMENT) := encode (render SAVED)]> ∅).
Definition healthy : WriteIo := mkWriteIo true (λ _, true) None true (λ _, Renamed) true.
Lemma drafted_ok : progress_ok DRAFTED.
Proof. apply (read_can_be_written (render DRAFTED)). vm_compute. reflexivity. Qed.

Lemma approval_is_sound_witness :
  ∃ final before, Project.persist_approved_plan to_ascii_lowercase tt ON_DISK (mkReadIo true true) healthy REVIEWED SAMPLE
      (Some SAVED) 7 0 = (final :: before, 1, Ok tt) ∧
    Project.inspect_documents tt final (mkReadIo true true) = PlanReady SAMPLE DRAFTED.
Proof.
  pose proof (approval_is_sound to_ascii_lowercase tt ON_DISK (mkReadIo true true) healthy REVIEWED SAMPLE (Some SAVED) 7 0
    folded_hex drafted_ok ltac:(intros old [= <-]; vm_compute; discriminate) ltac:(vm_compute; reflexivity)) as H.
  assert (Hr : snd (fst (Project.persist_approved_plan to_ascii_lowercase tt ON_DISK (mkReadIo true true) healthy REVIEWED SAMPLE
    (Some SAVED) 7 0)) = 1 ∧ snd (Project.persist_approved_plan to_ascii_lowercase tt ON_DISK (mkReadIo true true) healthy REVIEWED SAMPLE
    (Some SAVED) 7 0) = Ok tt) by (split; vm_compute; reflexivity).
  destruct (Project.persist_approved_plan _ _ _ _ _ _ _ _ _ _) as [[trace c] res]. cbn [fst snd] in Hr. destruct Hr as [-> ->].
  destruct H as (_ & final & before & -> & _ & _ & _ & _ & current & Hc & _ & Hi). exists final, before. split; [done|].
  rewrite Hi by done. assert (Hcur : read_brief tt ON_DISK (mkReadIo true true) = Ok SAMPLE) by (vm_compute; reflexivity).
  rewrite Hcur in Hc. injection Hc as <-. vm_compute. reflexivity.
Defined.

Lemma resume_gate_is_exact_witness :
  resumable (inspect tt ON_DISK (mkReadIo true true) NotRunning (Some QuotaPause)) = Ok SAVED.
Proof.
  apply (resume_gate_is_exact tt ON_DISK (mkReadIo true true) NotRunning (Some QuotaPause) SAVED folded_hex).
  split; [done|]. exists SAMPLE. split_and!; [vm_compute; reflexivity|vm_compute; reflexivity|vm_compute; reflexivity|].
  eexists. vm_compute. reflexivity.
Defined.

(** Adoption empties the plan before it writes it, so one that is cut short
    leaves half a plan behind: here the plan is gone and its finished step with it. *)
Example cut_adoption_loses_the_plan :
  let unbound := mkProgress (name SAVED) (branch SAVED) None (steps SAVED) in
  let fs : gmap (unit * Text) Bytes :=
    <[(tt, Brief.DOCUMENT) := encode DESCRIBED]> (<[(tt, DOCUMENT) := encode (render unbound)]> ∅) in
  match adopt_plan tt fs (mkReadIo true true) (mkPlainIo true (Some 30%nat)) with
  | (after :: _, Err _) => Project.inspect_documents tt after (mkReadIo true true)
  | _ => NoBrief
  end = PlanMalformed SAMPLE (Malformed DOCUMENT (txt "missing 'Branch:' line")).
Proof. vm_compute. reflexivity. Qed.
