(* ===== verification/Drafting.v ===== *)
(** * Asking the model for a plan (localpilot-harness: planning.rs, plan_draft.rs)

    A document is asked for until it can be read, up to a cap; a plan that can be
    read but not be approved is sent back with its defects, within a second cap.
    Drafting writes nothing.  The provider is a class over a state of its own;
    the answer to a request is the events of a stream that ends.  Whether a
    command can be started on this host is a parameter, and the host is Linux. *)

From Stdlib Require Import String.
From stdpp Require Import base list numbers sets.
From S2P Require Import Prelude Monitor Utf8 Chars Message Json Provider Fields Granularity Brief Progress.
From S2P Require Import PlanReview Project.
From stdpp Require Import list.
#[local] Open Scope N_scope.
#[local] Open Scope list_scope.

(** ** Texts *)

Definition PLANNER_PROMPT : Text :=
  Chars.join [LF]
    [txt "You are the planning assistant for a software project. Given a project brief and a short repository summary, produce an ordered, test-first implementation plan.";
     [];
     txt "Respond with ONLY a Markdown document in exactly this shape, and nothing else:";
     [];
     txt "# Progress: <short name>";
     txt "Branch: feature/<kebab-name>";
     [];
     txt "## Steps";
     [];
     txt "- [ ] 1. <small, verifiable step>";
     txt "  - covers: AC1, AC2";
     txt "  - verify: <the smallest command that shows this step works>";
     txt "  - depends: none";
     txt "- [ ] 2. <next step>";
     txt "  - covers: none";
     txt "  - verify: none - <why nothing executable applies>";
     txt "  - depends: 1";
     [];
     txt "Each step must be small enough to complete and verify in one sitting, ordered so that tests come before the implementation they cover. Number steps from 1 with no gaps.";
     [];
     txt "Every step carries all three metadata lines.";
     txt "- covers: the acceptance criteria this step satisfies, numbered from 1 in the order they appear in the brief, written AC1, AC2; or 'none' when the step supports the work without satisfying a criterion by itself. Every criterion in the brief must be covered by at least one step, and no step may name a criterion the brief does not have.";
     txt "- verify: the smallest command that shows the step works; or 'none - <reason>' when nothing executable applies. A bare 'none' is not accepted - say why.";
     txt "- depends: the numbers of steps that must come first, or 'none'. A dependency may only name an earlier step.";
     [];
     txt "Study the repository summary before writing steps. Where existing code already covers part of the work, prefer a step that extends or reuses it, naming that module, type, or function in the step, over adding parallel code; add new code only where nothing existing fits.";
     txt "Name the expected files or code regions in each step's description when they are known from the repository summary. When they are unknown, state what must be inspected to locate them rather than inventing a path.";
     [];
     txt "The steps together must satisfy every acceptance criterion in the brief; do not leave a criterion unaddressed."].
Definition REVISE_PROMPT : Text :=
  Chars.join [LF]
    [txt "You are revising an implementation plan. You are given the current plan and one instruction describing what to change.";
     [];
     txt "Apply exactly that instruction. Leave every step the instruction does not mention exactly as it is " ++ [LONG_DASH] ++ txt " same wording, same order, same numbering, same metadata. Do not renumber steps that did not change, and do not drop the covers, verify or depends lines of steps you are not changing.";
     [];
     txt "Respond with ONLY the complete revised Markdown plan, in the same shape as the one you were given, and nothing else."].
Definition REPLAN_PROMPT : Text :=
  Chars.join [LF]
    [txt "You are replanning a software project. The brief has changed, or the existing plan was rejected. Some steps are already finished and committed.";
     [];
     txt "Reproduce every finished step first, in the order given, with its wording character for character. Do not reword, merge, split or reorder them " ++ [LONG_DASH] ++ txt " their wording is how the finished work is recognised, and changing it loses the commit behind it. Then plan the remaining work as new steps after them, numbering the whole plan from 1 with no gaps.";
     [];
     txt "Do not credit a finished step with an acceptance criterion it does not already carry. The brief has moved; those commits were never checked against the new criteria, and claiming otherwise is the one thing a replan must never do. Where changed criteria need work that a finished step appears to cover, write a new step for it.";
     [];
     txt "Respond with ONLY the complete Markdown plan, in the shape you were given, and nothing else."].
Definition planner_host_section : Text :=
  txt "Host: Linux. A verify: command is run directly and split on spaces, not through a shell: write a program that exists on this host followed by plain arguments, bare, with no backticks, quotes, pipes, && or redirects, for example: grep -q Hello index.html".
Definition with_host (prompt : Text) : Text := prompt ++ [LF; LF] ++ planner_host_section.

Definition scope_addendum (p : WorkProfile) (tail : Text) : Message :=
  Message_text RSystem
    (Chars.join [LF]
       [instruction p;
        [];
        txt "Because work is sized in advance, a step gains a fourth metadata line, and this overrides 'all three metadata lines'. Every step that is not finished carries a scope line of its own, indented like the other metadata lines, between verify and depends:";
        [];
        txt "- [ ] 1. <small, verifiable step>";
        txt "  - covers: AC1";
        txt "  - verify: <command>";
        scope_line_example p;
        txt "  - depends: none";
        [];
        txt "A scope is four integers separated by commas: files, regions, decisions, changed_lines. Decisions is at least 1, and regions is at least files. A step may touch at most "
        ++ show_N (max_files p) ++ txt " files, " ++ show_N (max_regions p) ++ txt " regions, " ++ show_N (max_decisions p)
        ++ txt " decisions and " ++ show_N (max_changed_lines p)
        ++ txt " changed lines. Split anything larger into several steps, keeping every acceptance criterion covered and every dependency pointing at an earlier step.";
        tail]).

Definition render_completed (s : Step) : Text :=
  txt "- [x] " ++ show_N (number s) ++ txt ". " ++ description s ++ [LF]
  ++ match covers s with
     | None => line (txt "  - covers: not stated")
     | Some [] => line (txt "  - covers: none")
     | Some covers => line (txt "  - covers: " ++ Chars.join (txt ", ") ((λ n, txt "AC" ++ show_N n) <$> covers))
     end.

(** ** Data *)

(** The conversation so far, without tools. *)
Record ModelRequest := mkModelRequest { rq_model : Text; rq_messages : list Message }.
(** What a request is answered with: no stream, or the events of one. *)
Abbreviation Answer := (result (list (result ModelEvent ProviderError)) ProviderError).
Class ModelProvider (W : Type) := stream : ModelRequest → W → Answer * W.

(** The attempt a failure can repeat. *)
Inductive PlanRetry :=
  | RetryDraft (brief : Brief) (brief_revision repo_summary : Text) (work_profile : option WorkProfile)
  | RetryReplan (brief : Brief) (brief_revision repo_summary : Text) (work_profile : option WorkProfile)
      (completed : list Step)
  | RetryRevise (draft : PlanDraft) (instruction : Text).

Definition MAX_ATTEMPTS : nat := 3.
Definition PLAN_REPAIRS : nat := 2.

(** ** One answer *)

Fixpoint collect (text : Text) (events : list (result ModelEvent ProviderError)) : result Text HarnessError :=
  match events with
  | [] => Ok text
  | Err e :: _ => Err (ProviderFailed (provider_error_text e))
  | Ok (TextDelta delta) :: events => collect (text ++ delta) events
  | Ok EvDone :: _ => Ok text
  | Ok _ :: events => collect text events
  end.
Definition answer_text (a : Answer) : result Text HarnessError :=
  match a with Err e => Err (ProviderFailed (provider_error_text e)) | Ok events => collect [] events end.

(** ** A document that can be read *)

Definition not_valid (e : HarnessError) : Message :=
  Message_text RUser
    (txt "That document was not valid: " ++ error_text e
     ++ txt ". Reply again with ONLY the corrected Markdown in the required shape.").
Definition out_of_attempts (document last_error : Text) : HarnessError :=
  ProviderFailed (txt "model did not produce a valid " ++ document ++ txt " after " ++ show_nat MAX_ATTEMPTS
                  ++ txt " attempts: " ++ last_error).

Section provider.
Context {W : Type} `{ModelProvider W} (model : Text).

Definition complete_text (messages : list Message) (w : W) : result Text HarnessError * W :=
  let '(answer, w) := stream (mkModelRequest model messages) w in (answer_text answer, w).

Section generate.
Context {T : Type} (document : Text) (parse : Text → result T HarnessError).
Fixpoint attempt (n : nat) (last_error : Text) (messages : list Message) (w : W) : result T HarnessError * W :=
  match n with
  | O => (Err (out_of_attempts document last_error), w)
  | S n =>
      let '(reply, w) := complete_text messages w in
      match reply with
      | Err e => (Err e, w)
      | Ok text =>
          match parse text with
          | Ok value => (Ok value, w)
          | Err e => attempt n (error_text e) (messages ++ [Message_text RAssistant text; not_valid e]) w
          end
      end
  end.
Definition generate (messages : list Message) (w : W) : result T HarnessError * W := attempt MAX_ATTEMPTS [] messages w.
End generate.

(** ** A plan that can be approved *)

Context (unrunnable_verify_reason : Text → option Text).

Definition defects_of (r : result unit (list PlanDefect)) : list PlanDefect :=
  match r with Ok _ => [] | Err defects => defects end.
Definition repairable_defects (plan : Progress) (profile : WorkProfile) (brief : option Brief) : list PlanDefect :=
  match brief with Some brief => defects_of (validate_for_approval plan brief) | None => [] end
  ++ defects_of (validate_work_scope plan profile)
  ++ unrunnable_verify_defects unrunnable_verify_reason plan.

Definition cannot_be_approved (defects : list PlanDefect) : Message :=
  Message_text RUser
    (txt "That plan cannot be approved yet:" ++ [LF]
     ++ Chars.join [LF] ((λ d, txt "- " ++ defect_text d) <$> defects) ++ [LF; LF]
     ++ txt "Reply again with ONLY the complete corrected Markdown plan. Fix exactly these defects: give every acceptance criterion at least one step that covers it, add or correct scope lines, and split any oversized step into several, renumbering from 1 with no gaps. Rewrite any verify command that cannot run so that it is a program that exists on this host with plain arguments, or 'verify: none - <why>'. Keep every dependency pointing at an earlier step, and leave everything else as it is.").

Fixpoint repair (n : nat) (profile : WorkProfile) (brief : option Brief) (messages : list Message) (progress : Progress)
    (w : W) : Progress * W :=
  match n with
  | O => (progress, w)
  | S n =>
      match repairable_defects progress profile brief with
      | [] => (progress, w)
      | defects =>
          let messages := messages ++ [Message_text RAssistant (render progress); cannot_be_approved defects] in
          let '(next, w) := generate DOCUMENT parse messages w in
          match next with
          | Ok next => repair n profile brief messages next w
          | Err _ => (progress, w)
          end
      end
  end.
Definition generate_fitted (seed : list Message) (work_profile : option WorkProfile) (brief : option Brief) (w : W)
    : result Progress HarnessError * W :=
  let '(first, w) := generate DOCUMENT parse seed w in
  match first with
  | Err e => (Err e, w)
  | Ok progress =>
      match work_profile with
      | None => (Ok progress, w)
      | Some profile => let '(progress, w) := repair PLAN_REPAIRS profile brief seed progress w in (Ok progress, w)
      end
  end.

(** ** What is asked *)

Definition addendum (work_profile : option WorkProfile) (tail : Text) : list Message :=
  match work_profile with Some profile => [scope_addendum profile tail] | None => [] end.
Definition project_text (brief : Brief) (repo_summary : Text) : Text :=
  txt "Project brief:" ++ [LF; LF] ++ Brief.render brief ++ [LF; LF] ++ txt "Repository summary:" ++ [LF; LF] ++ repo_summary.
Definition draft_seed (brief : Brief) (repo_summary : Text) (work_profile : option WorkProfile) : list Message :=
  [Message_text RSystem (with_host PLANNER_PROMPT)] ++ addendum work_profile []
  ++ [Message_text RUser (project_text brief repo_summary)].
Definition finished_text (completed : list Step) : Text :=
  match completed with
  | [] => txt "None; nothing has been completed yet."
  | _ => concat (render_completed <$> completed)
  end.
Definition replan_seed (brief : Brief) (repo_summary : Text) (completed : list Step) (work_profile : option WorkProfile)
    : list Message :=
  [Message_text RSystem (with_host PLANNER_PROMPT); Message_text RSystem REPLAN_PROMPT]
  ++ addendum work_profile (line (txt "Finished steps are reproduced exactly as given and carry no scope line."))
  ++ [Message_text RUser
        (project_text brief repo_summary ++ [LF; LF] ++ txt "Finished steps, to reproduce verbatim:" ++ [LF; LF]
         ++ finished_text completed)].
Definition revise_seed (draft : PlanDraft) (instruction : Text) : list Message :=
  [Message_text RSystem (with_host REVISE_PROMPT)]
  ++ addendum (work_profile draft)
       (line (txt "Keep the scope line of every step you are not changing. Give a scope line to any step that lacks one and to every step you add."))
  ++ [Message_text RUser
        (txt "Current plan:" ++ [LF; LF] ++ render (progress draft) ++ [LF; LF] ++ txt "Instruction:" ++ [LF; LF]
         ++ instruction)].

(** ** The operations *)

Definition drafted (brief_revision repo_summary : Text) (revisions : N) (work_profile : option WorkProfile)
    (fitted : result Progress HarnessError * W) : result PlanDraft HarnessError * W :=
  let '(progress, w) := fitted in
  (let? progress := progress in
   Ok (mkDraft (bind_to_brief brief_revision progress) brief_revision repo_summary revisions work_profile), w).

Definition draft_plan_with_profile (brief : Brief) (brief_revision repo_summary : Text) (work_profile : option WorkProfile)
    (w : W) : result PlanDraft HarnessError * W :=
  drafted brief_revision repo_summary 0 work_profile
    (generate_fitted (draft_seed brief repo_summary work_profile) work_profile (Some brief) w).
Definition draft_plan (brief : Brief) (brief_revision repo_summary : Text) (w : W) : result PlanDraft HarnessError * W :=
  draft_plan_with_profile brief brief_revision repo_summary None w.
Definition draft_replan_with_profile (brief : Brief) (brief_revision repo_summary : Text) (completed : list Step)
    (work_profile : option WorkProfile) (w : W) : result PlanDraft HarnessError * W :=
  drafted brief_revision repo_summary 0 work_profile
    (generate_fitted (replan_seed brief repo_summary completed work_profile) work_profile None w).
Definition draft_replan (brief : Brief) (brief_revision repo_summary : Text) (completed : list Step) (w : W)
    : result PlanDraft HarnessError * W :=
  draft_replan_with_profile brief brief_revision repo_summary completed None w.
Definition revise_plan (draft : PlanDraft) (instruction : Text) (w : W) : result PlanDraft HarnessError * W :=
  drafted (brief_revision draft) (repo_summary draft) (u64_add (revisions draft) 1) (work_profile draft)
    (generate_fitted (revise_seed draft instruction) (work_profile draft) None w).
Definition run_plan `{Digest} (brief : Brief) (repo_summary : Text) (w : W) : result Progress HarnessError * W :=
  let '(draft, w) := draft_plan brief (revision_of brief) repo_summary w in
  (let? draft := draft in Ok (progress draft), w).

(** The one place that runs an attempt, the first time and again. *)
Definition run_attempt (retry : PlanRetry) (w : W) : result PlanDraft HarnessError * W :=
  match retry with
  | RetryDraft brief brief_revision repo_summary work_profile =>
      draft_plan_with_profile brief brief_revision repo_summary work_profile w
  | RetryReplan brief brief_revision repo_summary work_profile completed =>
      draft_replan_with_profile brief brief_revision repo_summary completed work_profile w
  | RetryRevise draft instruction => revise_plan draft instruction w
  end.
End provider.

(** ** The provider, listened to *)

(** Every request is written down with its answer. *)
Abbreviation Entry := (ModelRequest * Answer)%type.
#[export] Instance recorded `{ModelProvider W} : ModelProvider (list Entry * W) := λ r s,
  let '(log, w) := s in let '(a, w) := stream r w in (a, (log ++ [(r, a)], w)).

(** The run that is written down is the run, and what it adds satisfies [post]. *)
Definition listened {W A} (log : list Entry) (heard : A * (list Entry * W)) (run : A * W) (post : list Entry → A → Prop) : Prop :=
  ∃ more, heard = (run.1, (log ++ more, run.2)) ∧ post more run.1.

Definition answered (e : Entry) : option Text := match answer_text (snd e) with Ok text => Some text | Err _ => None end.
(** The document an answer holds, when it holds one that can be read. *)
Definition readable {T} (parse : Text → result T HarnessError) (e : Entry) : option T :=
  text ← answered e; match parse text with Ok value => Some value | Err _ => None end.
(** The provider broke off. *)
Definition broke_off (e : Entry) : Prop := answered e = None.
Definition asks_for (model : Text) (seed : list Message) (e : Entry) : Prop :=
  rq_model (fst e) = model ∧ seed `prefix_of` rq_messages (fst e).

Section theorems.
Context {W : Type} `{ModelProvider W} (model : Text).

Section documents.
Context {T : Type} (document : Text) (parse : Text → result T HarnessError).

(** What asking for a document at most [n] times leaves behind. *)
Definition asking (n : nat) (seed : list Message) (more : list Entry) (r : result T HarnessError) : Prop :=
  (length more <= n)%nat ∧ Forall (asks_for model seed) more ∧
  match r with
  | Ok value => ∃ before e, more = before ++ [e] ∧ readable parse e = Some value ∧ Forall (λ e, readable parse e = None) before
  | Err _ => Forall (λ e, readable parse e = None) more ∧ (length more = n ∨ ∃ before e, more = before ++ [e] ∧ broke_off e)
  end.

Lemma attempt_listened n last_error seed log w :
  listened log (attempt model document parse n last_error seed (log, w)) (attempt model document parse n last_error seed w)
    (asking n seed).
Proof.
  revert last_error seed log w. induction n as [|n IH]; intros last_error seed log w.
  { exists []. cbn [fst snd attempt]. rewrite app_nil_r. split; [done|]. split_and!; [cbn; lia|done|constructor|by left]. }
  cbn [attempt]. unfold complete_text. cbn [stream recorded].
  destruct (stream (mkModelRequest model seed) w) as [a w'] eqn:Hs.
  pose (e := (mkModelRequest model seed, a)).
  assert (Hask : asks_for model seed e) by done.
  destruct (answer_text a) as [text|err] eqn:Ha.
  2: { exists [e]. split; [done|]. split_and!; [cbn; lia|by constructor|].
       assert (Hn : answered e = None) by (unfold answered; cbn; by rewrite Ha).
       split; [constructor; [by unfold readable; rewrite Hn|constructor]|]. right. by exists [], e. }
  assert (Ht : answered e = Some text) by (unfold answered; cbn; by rewrite Ha).
  destruct (parse text) as [value|err] eqn:Hp.
  { exists [e]. split; [done|]. split_and!; [cbn; lia|by constructor|]. exists [], e. split_and!; [done| |constructor].
    unfold readable. rewrite Ht. cbn. by rewrite Hp. }
  set (seed' := seed ++ _).
  destruct (IH (error_text err) seed' (log ++ [e]) w') as (more & Hrun & Hlen & Hall & Hpost).
  exists (e :: more). change (mkModelRequest model seed, a) with e. rewrite Hrun, <-app_assoc. split; [done|].
  split_and!; [cbn; lia| |].
  - constructor; [done|]. eapply Forall_impl; [done|]. intros x [? Hpre]. split; [done|].
    etrans; [|done]. by apply prefix_app_r.
  - assert (Hr : readable parse e = None) by (unfold readable; rewrite Ht; cbn; by rewrite Hp).
    destruct (attempt _ _ _ _ _ _ _).1 as [value|err'].
    + destruct Hpost as (before & e' & -> & ? & ?). exists (e :: before), e'. split_and!; [done|done|by constructor].
    + destruct Hpost as [? [?|(before & e' & -> & ?)]]; (split; [by constructor|]); [left; cbn; lia|].
      right. by exists (e :: before), e'.
Qed.
End documents.

Context (unrunnable_verify_reason : Text → option Text).
Abbreviation defects := (repairable_defects unrunnable_verify_reason).

(** The plans among the answers. *)
Definition plans (log : list Entry) : list Progress := omap (readable parse) log.
Lemma plans_none log : Forall (λ e, readable parse e = None) log → plans log = [].
Proof. unfold plans. induction 1 as [|e log He _ IH]; [done|]. cbn. by rewrite He. Qed.
Lemma plans_one before e p : Forall (λ e, readable parse e = None) before → readable parse e = Some p → plans (before ++ [e]) = [p].
Proof. intros Hb He. unfold plans. rewrite omap_app. fold (plans before). rewrite plans_none by done. cbn. by rewrite He. Qed.
Lemma plans_app l1 l2 : plans (l1 ++ l2) = plans l1 ++ plans l2.
Proof. apply omap_app. Qed.

Definition ends_unread (log : list Entry) : Prop := ∃ before e, log = before ++ [e] ∧ readable parse e = None.
Lemma asking_failed n seed more err : asking parse (S n) seed more (Err err) → ends_unread more.
Proof.
  intros (_ & _ & Hnone & [Hlen|(before & e & -> & Hb)]).
  - destruct more as [|e more _] using rev_ind; [done|]. exists more, e. split; [done|].
    by apply Forall_app in Hnone as [_ [? _]%list.Forall_cons].
  - exists before, e. split; [done|]. unfold readable. by rewrite Hb.
Qed.

Lemma asks_longer seed tail more : Forall (asks_for model (seed ++ tail)) more → Forall (asks_for model seed) more.
Proof. intros Hall. eapply Forall_impl; [done|]. intros e [? ?]. split; [done|]. etrans; [|done]. by apply prefix_app_r. Qed.

(** A plan went back to the model, with what is wrong with it. *)
Definition sent_back (profile : WorkProfile) (brief : option Brief) (log : list Entry) (p : Progress) : Prop :=
  ∃ e before, e ∈ log ∧
    before ++ [Message_text RAssistant (render p); cannot_be_approved (defects p profile brief)] `prefix_of` rq_messages (fst e).
Definition flawed (profile : WorkProfile) (brief : option Brief) (log : list Entry) (p : Progress) : Prop :=
  defects p profile brief ≠ [] ∧ sent_back profile brief log p.
Lemma flawed_in profile brief log log' l : log ⊆ log' → Forall (flawed profile brief log) l → Forall (flawed profile brief log') l.
Proof. intros Hin Hl. eapply Forall_impl; [done|]. intros p (Hd & e & before & He & ?). split; [done|]. exists e, before. auto. Qed.

(** What sending plans back at most [n] times leaves behind. *)
Definition repairing (n : nat) (profile : WorkProfile) (brief : option Brief) (seed : list Message) (first : Progress)
    (more : list Entry) (final : Progress) : Prop :=
  (length more <= MAX_ATTEMPTS * n)%nat ∧ Forall (asks_for model seed) more ∧ (length (plans more) <= n)%nat ∧
  (∃ earlier, first :: plans more = earlier ++ [final] ∧ Forall (flawed profile brief more) earlier) ∧
  (defects final profile brief = [] ∨ length (plans more) = n ∨ ends_unread more).

Lemma repair_listened n profile brief seed first log w :
  listened log (repair model unrunnable_verify_reason n profile brief seed first (log, w))
    (repair model unrunnable_verify_reason n profile brief seed first w) (repairing n profile brief seed first).
Proof.
  revert seed first log w. induction n as [|n IH]; intros seed first log w.
  { exists []. cbn [repair fst snd]. rewrite app_nil_r. split; [done|].
    split_and!; [cbn; lia|done|done|by exists []|by right; left]. }
  cbn [repair]. destruct (defects first profile brief) as [|d ds] eqn:Hd.
  { exists []. cbn [fst snd]. rewrite app_nil_r. split; [done|].
    split_and!; [cbn; lia|done|cbn; lia|by exists []|by left]. }
  set (seed' := seed ++ _).
  destruct (attempt_listened DOCUMENT parse MAX_ATTEMPTS [] seed' log w) as (more & Hrun & Hask).
  unfold generate. rewrite Hrun. destruct (attempt _ _ _ _ _ _ w) as [[next|err] w'] eqn:Ha; cbn [fst snd] in *.
  2: { pose proof (asking_failed _ _ _ _ Hask) as Hend. destruct Hask as (Hlen & Hall & Hnone & _). exists more.
       split; [done|]. unfold repairing. rewrite plans_none by done.
       split_and!; [unfold MAX_ATTEMPTS in *; lia|by eapply asks_longer|cbn; lia|by exists []|by right; right]. }
  destruct Hask as (Hlen & Hall & before & e & -> & He & Hbefore).
  destruct (IH seed' next (log ++ before ++ [e]) w') as (more & Hrun' & Hlen' & Hall' & Hcount & (earlier & Hplans & Hflawed) & Hend).
  exists ((before ++ [e]) ++ more). rewrite Hrun', <-app_assoc. split; [done|].
  unfold repairing. rewrite plans_app, plans_one with (p := next) by done.
  split_and!.
  - rewrite (length_app (before ++ [e])). unfold MAX_ATTEMPTS in *. lia.
  - apply Forall_app. split; by eapply asks_longer.
  - cbn. lia.
  - exists (first :: earlier). cbn. rewrite Hplans. split; [done|].
    constructor; [|eapply flawed_in; [|done]; set_solver]. split; [by rewrite Hd|].
    exists e, seed. split; [set_solver|]. rewrite Hd. apply Forall_app in Hall as [_ [[_ ?] _]%list.Forall_cons]. done.
  - destruct Hend as [?|[?|(b & x & -> & ?)]]; [by left|right; left; cbn; lia|].
    right. right. exists ((before ++ [e]) ++ b), x. by rewrite app_assoc.
Qed.

(** The plans a fitted answer may take: the first and its repairs. *)
Definition most_plans (work_profile : option WorkProfile) : nat :=
  match work_profile with Some _ => 1 + PLAN_REPAIRS | None => 1 end.
Definition fitting (seed : list Message) (work_profile : option WorkProfile) (brief : option Brief) (more : list Entry)
    (r : result Progress HarnessError) : Prop :=
  (1 <= length more <= MAX_ATTEMPTS * most_plans work_profile)%nat ∧ Forall (asks_for model seed) more ∧
  match r with
  | Err _ => plans more = [] ∧ (length more = MAX_ATTEMPTS ∨ ∃ before e, more = before ++ [e] ∧ broke_off e)
  | Ok final =>
      (length (plans more) <= most_plans work_profile)%nat ∧
      ∃ earlier, plans more = earlier ++ [final] ∧
        ∀ profile, work_profile = Some profile →
          Forall (flawed profile brief more) earlier ∧
          (defects final profile brief = [] ∨ length (plans more) = most_plans work_profile ∨ ends_unread more)
  end.
Lemma fitted_listened seed work_profile brief log w :
  listened log (generate_fitted model unrunnable_verify_reason seed work_profile brief (log, w))
    (generate_fitted model unrunnable_verify_reason seed work_profile brief w) (fitting seed work_profile brief).
Proof.
  unfold generate_fitted, generate.
  destruct (attempt_listened DOCUMENT parse MAX_ATTEMPTS [] seed log w) as (more & Hrun & Hask). rewrite Hrun.
  destruct (attempt _ _ _ _ _ _ w) as [[first|err] w'] eqn:Ha; cbn [fst snd] in *.
  2: { exists more. split; [done|]. pose proof (asking_failed _ _ _ _ Hask) as (before & e & -> & _).
       destruct Hask as (Hlen & Hall & Hnone & Hend). split; [|split; [done|split; [by apply plans_none|done]]]. split; [rewrite length_app; cbn; lia|].
       destruct work_profile; unfold MAX_ATTEMPTS, most_plans, PLAN_REPAIRS in *; lia. }
  destruct Hask as (Hlen & Hall & before & e & -> & He & Hbefore). rewrite length_app in Hlen. unfold MAX_ATTEMPTS in Hlen. cbn in Hlen.
  pose proof (plans_one _ _ _ Hbefore He) as Hplans.
  destruct work_profile as [profile|].
  2: { exists (before ++ [e]). split; [done|]. unfold fitting. rewrite Hplans, length_app.
       split_and!; [cbn; lia|cbn; lia|done|]. split; [cbn; lia|]. exists []. by split. }
  destruct (repair_listened PLAN_REPAIRS profile brief seed first (log ++ before ++ [e]) w')
    as (more & Hrun' & Hlen' & Hall' & Hcount & (earlier & Hsplit & Hflawed) & Hend).
  rewrite Hrun'. destruct (repair _ _ _ _ _ _ _ w') as [final w''] eqn:Hr. cbn [fst snd] in *.
  exists ((before ++ [e]) ++ more). rewrite <-app_assoc. split; [done|].
  unfold fitting. rewrite plans_app, Hplans. cbn [app]. rewrite Hsplit.
  unfold MAX_ATTEMPTS, PLAN_REPAIRS in *. cbn [most_plans].
  split_and!; [rewrite !length_app; cbn; lia|rewrite !length_app; cbn in *; lia|by apply Forall_app|]. split.
  - rewrite <-Hsplit. change (S (length (plans more)) <= 3)%nat. lia.
  - exists earlier. split; [done|]. intros ? [= <-]. split; [eapply flawed_in; [|done]; set_solver|]. rewrite <-Hsplit.
    destruct Hend as [?|[Hn|(b & x & -> & ?)]]; [by left|right; left; by f_equal/=|].
    right. right. exists ((before ++ [e]) ++ b), x. by rewrite app_assoc.
Qed.

(** ** An attempt *)

Definition attempt_seed (retry : PlanRetry) : list Message :=
  match retry with
  | RetryDraft brief _ repo_summary work_profile => draft_seed brief repo_summary work_profile
  | RetryReplan brief _ repo_summary work_profile completed => replan_seed brief repo_summary completed work_profile
  | RetryRevise draft instruction => revise_seed draft instruction
  end.
Definition attempt_profile (retry : PlanRetry) : option WorkProfile :=
  match retry with
  | RetryDraft _ _ _ work_profile | RetryReplan _ _ _ work_profile _ => work_profile
  | RetryRevise draft _ => work_profile draft
  end.
(** A brief is judged against only in a first draft. *)
Definition attempt_brief (retry : PlanRetry) : option Brief :=
  match retry with RetryDraft brief _ _ _ => Some brief | _ => None end.
(** What the draft of an attempt carries besides its plan. *)
Definition carries (retry : PlanRetry) (d : PlanDraft) : Prop :=
  work_profile d = attempt_profile retry ∧
  match retry with
  | RetryDraft _ revision summary _ | RetryReplan _ revision summary _ _ =>
      brief_revision d = revision ∧ repo_summary d = summary ∧ revisions d = 0
  | RetryRevise draft _ =>
      brief_revision d = brief_revision draft ∧ repo_summary d = repo_summary draft ∧
      revisions d = u64_add (revisions draft) 1
  end.
Definition attempting (retry : PlanRetry) (more : list Entry) (r : result PlanDraft HarnessError) : Prop :=
  match r with
  | Err e => fitting (attempt_seed retry) (attempt_profile retry) (attempt_brief retry) more (Err e)
  | Ok d =>
      carries retry d ∧
      ∃ plan, progress d = bind_to_brief (brief_revision d) plan ∧
        fitting (attempt_seed retry) (attempt_profile retry) (attempt_brief retry) more (Ok plan)
  end.
Lemma run_listened retry log w :
  listened log (run_attempt model unrunnable_verify_reason retry (log, w))
    (run_attempt model unrunnable_verify_reason retry w) (attempting retry).
Proof.
  pose proof (fitted_listened (attempt_seed retry) (attempt_profile retry) (attempt_brief retry) log w)
    as (more & Hrun & Hfit).
  exists more. destruct retry; unfold run_attempt, draft_plan_with_profile, draft_replan_with_profile, revise_plan, drafted;
    cbn [attempt_seed attempt_profile attempt_brief] in *; rewrite Hrun;
    destruct (generate_fitted _ _ _ _ _ w) as [[plan|e] w']; cbn [fst snd] in *; (split; [done|]); try done;
    (split; [done|]); by exists plan.
Qed.

(** ** Claims *)

(** C21. An attempt to draft, redraft or revise a plan always comes to an end, with
    few calls.  Every attempt makes at least one request and at most three for
    each plan it may take: one plan, or three when a work profile applies.
    Every request names the session's model and starts with the messages of
    that very attempt, so no retry and no repair loses the brief, the plan under
    revision or the instruction.  Writing the requests down changes nothing. *)
Theorem drafting_is_bounded retry w :
  let run := run_attempt model unrunnable_verify_reason retry w in
  ∃ log, run_attempt model unrunnable_verify_reason retry ([], w) = (run.1, (log, run.2)) ∧
    (1 <= length log <= MAX_ATTEMPTS * most_plans (attempt_profile retry))%nat ∧
    (MAX_ATTEMPTS * most_plans (attempt_profile retry) <= 9)%nat ∧
    Forall (asks_for model (attempt_seed retry)) log.
Proof.
  intros run. destruct (run_listened retry [] w) as (log & Hrun & Hpost). exists log. split; [done|].
  assert (Hmost : (MAX_ATTEMPTS * most_plans (attempt_profile retry) <= 9)%nat) by (destruct (attempt_profile retry); cbn; lia).
  unfold attempting in Hpost. destruct (run_attempt _ _ _ w).1 as [d|e].
  - destruct Hpost as (_ & plan & _ & Hlen & Hall & _). done.
  - destruct Hpost as (Hlen & Hall & _). done.
Qed.

(** C20. A draft holds the last plan the model sent that could be read, bound to
    the brief revision of its attempt, and carries that attempt's summary and
    work profile.  Without a work profile it is the only one.  With one, every
    plan before it, two at most, had defects of the kinds that are repaired (in
    a first draft what approval would find against the brief, in any attempt a
    step outside the work profile or a command that cannot be run here), and was
    sent back word for word with all of them; and it has such defects itself
    only when the repairs are used up or the last answer could not be read: a
    repair never loses a plan that was usable.  An attempt fails only when no
    answer held a plan, after three answers or when the provider broke off. *)
Theorem drafts_hold_the_last_plan retry w :
  let '(r, (log, _)) := run_attempt model unrunnable_verify_reason retry ([], w) in
  match r with
  | Ok d =>
      carries retry d ∧
      (length (plans log) <= most_plans (attempt_profile retry))%nat ∧
      ∃ earlier plan, plans log = earlier ++ [plan] ∧ progress d = bind_to_brief (brief_revision d) plan ∧
        ∀ profile, work_profile d = Some profile →
          Forall (flawed profile (attempt_brief retry) log) earlier ∧
          (defects plan profile (attempt_brief retry) = [] ∨ length (plans log) = 3%nat ∨ ends_unread log)
  | Err _ => plans log = [] ∧ (length log = 3%nat ∨ ∃ before e, log = before ++ [e] ∧ broke_off e)
  end.
Proof.
  destruct (run_listened retry [] w) as (log & Hrun & Hpost). rewrite Hrun. cbn [app].
  unfold attempting in Hpost. destruct (run_attempt _ _ _ w).1 as [d|e]; [|by destruct Hpost as (_ & _ & Hpost)].
  destruct Hpost as (Hcarries & plan & Hbound & _ & _ & Hmost & earlier & Hplans & Hprofile).
  split; [done|]. split; [done|]. exists earlier, plan. split; [done|]. split; [done|].
  destruct Hcarries as [Hw _]. rewrite Hw. intros profile Hp. rewrite Hp in *. by apply Hprofile.
Qed.
End theorems.
