(* ===== verification/Intake.v ===== *)
(** * From an idea to an approved brief (localpilot-harness: guidance.rs, intake.rs)

    The model is asked which decisions an idea leaves open; when too few are
    settled, the user is asked about them first.  Then a brief is drafted, revised
    in conversation, and written only when it is approved, with a line in the
    intake log.  Reading the assessment's JSON and printing the log's are
    parameters. *)

From Stdlib Require Import String SpecFloat.
From stdpp Require Import base gmap list numbers.
From S2P Require Import F32.
From S2P Require Import Prelude Monitor Utf8 Chars Ownership Files Message Json Provider Fields Brief Progress.
From S2P Require Import PlanReview BriefProps Project ProjectProps Drafting.
From stdpp Require Import list.
#[local] Open Scope N_scope.
#[local] Open Scope list_scope.

(** ** Texts *)

(** A text with [`] for the quotation mark. *)
Definition quoted_txt (s : string) : Text := (λ c, if c =? 96 then 34 else c) <$> txt s.

Definition GUIDANCE_PROMPT : Text :=
  Chars.join [LF]
    [quoted_txt "You are the guidance auditor for a software project intake. Before a brief is written from the user's idea, identify the idea's decision axes: the small set of product decisions that would materially change what gets built. Find the axes that matter for THIS idea " ++ [LONG_DASH] ++ quoted_txt " scope boundaries, platform or runtime, interaction model, data handling, and the like are only examples of where to look, not a list to copy.";
     [];
     quoted_txt "Respond with ONLY a JSON object in exactly this shape, and nothing else:";
     [];
     quoted_txt "{";
     quoted_txt "`axes`: [";
     quoted_txt "{";
     quoted_txt "`axis`: `<short name of the decision>`,";
     quoted_txt "`resolved`: true,";
     quoted_txt "`evidence`: `<the idea's own words that settle it, quoted verbatim>`,";
     quoted_txt "`question`: ``";
     quoted_txt "},";
     quoted_txt "{";
     quoted_txt "`axis`: `<short name of the decision>`,";
     quoted_txt "`resolved`: false,";
     quoted_txt "`evidence`: `not specified`,";
     quoted_txt "`question`: `<one concrete question whose answer settles this axis>`";
     quoted_txt "}";
     quoted_txt "]";
     quoted_txt "}";
     [];
     quoted_txt "Rules: an axis counts as resolved only when the idea's own words settle it " ++ [LONG_DASH] ++ quoted_txt " quote those words verbatim in evidence. When the idea does not settle an axis, resolved is false, evidence is `not specified`, and question asks for exactly the missing decision. List the most consequential axes first. A trivial or fully specified idea may have few axes or none; never invent filler axes."].
Definition INTAKE_PROMPT : Text :=
  Chars.join [LF]
    [txt "You are the intake assistant for a software project. Turn the user's rough idea into a precise project brief.";
     [];
     txt "Respond with ONLY a Markdown document in exactly this shape, with these headings, and nothing else:";
     [];
     txt "# Brief: <short name>";
     [];
     txt "## Summary";
     txt "<one short paragraph>";
     [];
     txt "## Requirements";
     txt "- <requirement>";
     [];
     txt "## Constraints";
     txt "- <constraint>";
     [];
     txt "## Non-Goals";
     txt "- <thing explicitly out of scope>";
     [];
     txt "## Acceptance Criteria";
     txt "- <observable, testable criterion>";
     [];
     txt "## Risks & Rollback";
     txt "- <what could go wrong once this ships, and how it is undone: revert, feature flag, config switch, or migration down>";
     [];
     txt "Be concrete and testable. Prefer fewer, sharper items over many vague ones."].
Definition REVISE_PROMPT : Text :=
  Chars.join [LF]
    [txt "You are revising an existing project brief. You are given the current brief and one instruction describing what to change.";
     [];
     txt "Apply exactly that instruction. Leave everything the instruction does not mention exactly as it is " ++ [LONG_DASH] ++ txt " same wording, same order, same items. Do not add requirements, criteria, or risks that were not asked for, and do not tidy or reword sections you were not asked to change.";
     [];
     txt "Respond with ONLY the complete revised Markdown brief, in the same shape as the one you were given, and nothing else."].

(** ** The decisions of an idea (guidance.rs) *)

Record DecisionAxis := mkAxis { axis : Text; resolved : bool; evidence : Text; question : Text }.
Record GuidanceAssessment := mkAssessment { axes : list DecisionAxis; score : f32 }.
Definition open_axes (a : GuidanceAssessment) : list DecisionAxis := List.filter (λ x, negb (resolved x)) (axes a).

(** [as f32] of a count: the nearest float. *)
Definition count_f32 (n : nat) : f32 := f32_of_decimal false (N.of_nat n) 0.
Definition guidance_score (axes : list DecisionAxis) : f32 :=
  match axes with
  | [] => f32_1
  | _ => f32_div (count_f32 (length (List.filter resolved axes))) (count_f32 (length axes))
  end.

Definition strip_suffix (p s : Text) : option Text := option_map (@rev N) (Chars.strip_prefix (rev p) (rev s)).
Definition FENCE : Text := txt "```".
Definition strip_code_fence (text : Text) : Text :=
  match Chars.strip_prefix FENCE text with
  | None => text
  | Some rest =>
      match b ← split_once [LF] rest; strip_suffix FENCE (trim_end (snd b)) with
      | None => text
      | Some stripped => trim stripped
      end
  end.

(** ** Data (intake.rs) *)

Record GuidanceParams := mkGate { gate_threshold : f32; gate_max_questions : N }.
Record GuidanceRecord := mkGuidance {
  gr_score : option f32;
  gr_threshold : option f32;
  gr_axes : list DecisionAxis;
  gr_questions : option (list Text);
  gr_answers : list (Text * Text);
  gr_assumed_judgment : bool;
  gr_clarified : bool;
  gr_rescore : option f32;
}.
Definition guidance_none : GuidanceRecord := mkGuidance None None [] None [] false false None.
Definition guidance_reported (score threshold : f32) (axes : list DecisionAxis) (questions : list Text) : GuidanceRecord :=
  mkGuidance (Some score) (Some (f32_clamp threshold f32_0 f32_1)) axes (Some questions) [] false false None.

Record BriefDraft := mkBriefDraft {
  bd_brief : Brief;
  bd_idea : Text;
  bd_model_input : Text;
  bd_guidance : GuidanceRecord;
  bd_revisions : N;
}.
Inductive DraftOutcome :=
  | Drafted (draft : BriefDraft)
  | NeedsGuidance (assessment : GuidanceAssessment) (open : list DecisionAxis) (questions : list Text).

Inductive RetryTarget :=
  | TargetDraft (idea : Text)
  | TargetClarified (idea : Text) (threshold : f32) (assessment : GuidanceAssessment) (questions : list Text)
      (answers : list (Text * Text))
  | TargetRevision (draft : BriefDraft) (instruction : Text).
Inductive BriefStage :=
  | AwaitingIdea
  | Clarifying (idea : Text) (threshold : f32) (assessment : GuidanceAssessment) (questions : list Text)
      (pending : list DecisionAxis) (answers : list (Text * Text))
  | GeneratingBrief
  | ReviewingBrief (draft : BriefDraft)
  | RevisingBrief (draft : BriefDraft)
  | BriefFailure (retry : RetryTarget) (detail : Text).

Inductive StageOutcome := Approved | Rejected | Cancelled | Superseded.
Definition outcome_reason (o : StageOutcome) (subject : Text) : Text :=
  match o with
  | Approved => txt "the " ++ subject ++ txt " was approved"
  | Rejected => txt "the draft was rejected"
  | Cancelled => txt "the " ++ subject ++ txt " conversation was cancelled"
  | Superseded => txt "a newer " ++ subject ++ txt " conversation replaced this one"
  end.

Definition question_for (a : DecisionAxis) : Text :=
  match trim (question a) with
  | [] => txt "What should be decided about: " ++ axis a ++ txt "?"
  | _ => question a
  end.

(** ** Drafting *)

Section provider.
Context {W : Type} `{ModelProvider W} (model : Text).
(** [serde_json::from_str] of the reply's envelope. *)
Context (axes_from_json : Text → result (list DecisionAxis) Text).

Definition parse_axes (text : Text) : result (list DecisionAxis) HarnessError :=
  match axes_from_json (strip_code_fence (trim text)) with
  | Ok axes => Ok axes
  | Err err =>
      Err (Malformed (txt "guidance assessment") (quoted_txt "expected a JSON object with an `axes` array: " ++ err))
  end.
Definition assess_guidance (idea : Text) (w : W) : result GuidanceAssessment HarnessError * W :=
  let seed := [Message_text RSystem GUIDANCE_PROMPT; Message_text RUser idea] in
  let '(axes, w) := generate model (txt "guidance assessment") parse_axes seed w in
  (let? axes := axes in Ok (mkAssessment axes (guidance_score axes)), w).

Definition intake_seed (idea : Text) : list Message := [Message_text RSystem INTAKE_PROMPT; Message_text RUser idea].
Definition run_intake (idea : Text) (w : W) : result Brief HarnessError * W :=
  generate model Brief.DOCUMENT Brief.parse (intake_seed idea) w.

(** A draft from an idea as it is. *)
Definition draft_from (idea : Text) (guidance : GuidanceRecord) (w : W) : result DraftOutcome HarnessError * W :=
  let '(brief, w) := run_intake idea w in
  (let? brief := brief in Ok (Drafted (mkBriefDraft brief idea idea guidance 0)), w).
Definition draft_brief (idea : Text) (gate : option GuidanceParams) (w : W) : result DraftOutcome HarnessError * W :=
  match gate with
  | None => draft_from idea guidance_none w
  | Some gate =>
      let threshold := f32_clamp (gate_threshold gate) f32_0 f32_1 in
      let '(assessment, w) := assess_guidance idea w in
      match assessment with
      | Err e => (Err e, w)
      | Ok assessment =>
          if f32_leb threshold (score assessment)
          then draft_from idea
                 (mkGuidance (Some (score assessment)) (Some threshold) (axes assessment) None [] false false None) w
          else
            let open := take (N.to_nat (N.max (gate_max_questions gate) 1)) (open_axes assessment) in
            (Ok (NeedsGuidance assessment open (question_for <$> open)), w)
      end
  end.

Definition folded_idea (idea : Text) (answers : list (Text * Text)) : Text :=
  idea ++ [LF; LF] ++ txt "Decisions provided by the user:" ++ [LF]
  ++ Chars.join [LF] ((λ '(axis, answer), txt "- " ++ axis ++ txt ": " ++ answer) <$> answers).
Definition draft_with_answers (idea : Text) (threshold : f32) (assessment : GuidanceAssessment) (questions : list Text)
    (answers : list (Text * Text)) (clarified : bool) (w : W) : result BriefDraft HarnessError * W :=
  let '(input, w) :=
    match answers with
    | [] => (Ok (idea, None, true), w)
    | _ =>
        let folded := folded_idea idea answers in
        let '(second, w) := assess_guidance folded w in
        (let? second := second in Ok (folded, Some (score second), false), w)
    end in
  match input with
  | Err e => (Err e, w)
  | Ok (brief_idea, rescore, assumed) =>
      let '(brief, w) := run_intake brief_idea w in
      (let? brief := brief in
       Ok (mkBriefDraft brief idea brief_idea
             (mkGuidance (Some (score assessment)) (Some (f32_clamp threshold f32_0 f32_1)) (axes assessment)
                (Some questions) answers assumed clarified rescore) 0), w)
  end.

Definition brief_revise_seed (draft : BriefDraft) (instruction : Text) : list Message :=
  [Message_text RSystem REVISE_PROMPT;
   Message_text RUser (txt "Current brief:" ++ [LF; LF] ++ Brief.render (bd_brief draft) ++ [LF; LF]
                       ++ txt "Instruction:" ++ [LF; LF] ++ instruction)].
Definition revise_brief (draft : BriefDraft) (instruction : Text) (w : W) : result BriefDraft HarnessError * W :=
  let '(brief, w) := generate model Brief.DOCUMENT Brief.parse (brief_revise_seed draft instruction) w in
  (let? brief := brief in
   Ok (mkBriefDraft brief (bd_idea draft) (bd_model_input draft) (bd_guidance draft) (u64_add (bd_revisions draft) 1)), w).
End provider.

(** ** The record of the log *)

Section log.
(** The number a float is written as. *)
Context (json_f32 : f32 → Json).
Definition field (key : string) (value : Json) : string * Json := (key, value).
Definition axis_json (a : DecisionAxis) : Json :=
  json_object [field "axis" (JString (axis a)); field "resolved" (JBool (resolved a));
               field "evidence" (JString (evidence a)); field "question" (JString (question a))].
Definition when {A} (o : option A) (fields : A → list (string * Json)) : list (string * Json) :=
  match o with Some a => fields a | None => [] end.
Definition guidance_json (g : GuidanceRecord) : option Json :=
  score ← gr_score g; threshold ← gr_threshold g;
  Some (json_object
    ([field "score" (json_f32 score); field "threshold" (json_f32 threshold);
      field "axes" (JArray (axis_json <$> gr_axes g))]
     ++ when (gr_questions g) (λ qs, [field "questions" (JArray (JString <$> qs))])
     ++ (if gr_clarified g || negb (bool_decide (gr_answers g = []))
         then [field "answers" (JArray ((λ '(axis, answer),
                 json_object [field "axis" (JString axis); field "answer" (JString answer)]) <$> gr_answers g))]
         else [])
     ++ (if gr_assumed_judgment g then [field "assumed_judgment" (JBool true)] else [])
     ++ when (gr_rescore g) (λ rescore, [field "rescore" (json_f32 rescore)]))).
Definition intake_record (d : BriefDraft) : Json :=
  json_object
    ([field "idea" (JString (bd_idea d)); field "name" (JString (Brief.name (bd_brief d)))]
     ++ when (guidance_json (bd_guidance d)) (λ guidance, [field "guidance" guidance])).
End log.

(** ** Approval *)

Inductive Approval :=
  | BriefNotWritten (error : HarnessError)
  | RecordNotAppended (error : HarnessError).

Section project.
Context {D : Type} `{Countable D} (root localpilot_dir : D).
Abbreviation Path := (D * Text)%type.
Abbreviation Files := (gmap Path Bytes).
(** [serde_json::to_string]. *)
Context (json_f32 : f32 → Json) (json_text : Json → Text).

Definition intake_path : Path := (localpilot_dir, txt "intake.jsonl").
(** The answers to making the directory, opening the log, and how much of the line
    reaches it. *)
Record RecordIo := mkRecordIo { ri_mkdir : bool; ri_open : bool; ri_cut : option nat }.
Definition append_intake_record (fs : Files) (w : RecordIo) (record : Json) : list Files * result unit HarnessError :=
  if negb (ri_mkdir w && ri_open w) then ([fs], Err (io intake_path))
  else
    let old := default [] (fs !! intake_path) in
    let bytes := encode (json_text record ++ [LF]) in
    match ri_cut w with
    | Some n => ([<[intake_path := old ++ take n bytes]> fs; <[intake_path := old]> fs; fs], Err (io intake_path))
    | None => ([<[intake_path := old ++ bytes]> fs; <[intake_path := old]> fs; fs], Ok tt)
    end.

Definition persist_approved (fs : Files) (w : WriteIo) (wr : RecordIo) (draft : BriefDraft) (pid counter : N)
    : list Files * N * result unit Approval :=
  let '(trace, counter, written) :=
    atomic_write fs w (brief_path root) (encode (Brief.render (bd_brief draft))) pid counter in
  match written with
  | Err _ => (trace, counter, Err (BriefNotWritten (io (brief_path root))))
  | Ok _ =>
      let '(more, appended) := append_intake_record (default fs (head trace)) wr (intake_record json_f32 draft) in
      (more ++ trace, counter, match appended with Ok _ => Ok tt | Err e => Err (RecordNotAppended e) end)
  end.
End project.

(** ** What a gate asks *)

Lemma question_not_blank a : is_blank (question_for a) = false.
Proof.
  unfold question_for. destruct (trim (question a)) as [|c q] eqn:Hq; [reflexivity|].
  rewrite trim_blank, Hq. by apply bool_decide_eq_false.
Qed.

(** Every decision settled is a score of one.  The counts of a reply are small;
    up to a thousand are looked at. *)
Definition is_one (f : f32) : bool :=
  match f with S754_finite false m e => (m =? 8388608)%positive && (e =? -23)%Z | _ => false end.
Lemma is_one_spec f : is_one f = true → f = f32_1.
Proof. destruct f as [| | |[] m e]; try done. intros [->%Pos.eqb_eq ->%Z.eqb_eq]%andb_true_iff. reflexivity. Qed.
Definition TRIED : nat := 1000.
Lemma settled_score l : (length l <= TRIED)%nat → List.filter (λ x, negb (resolved x)) l = [] → guidance_score l = f32_1.
Proof.
  intros Hl Hall. destruct l as [|a l]; [done|]. unfold guidance_score.
  assert (Hf : List.filter resolved (a :: l) = a :: l).
  { revert Hall. clear Hl. induction (a :: l) as [|b l' IH]; [done|]. cbn. destruct (resolved b); cbn; [|done].
    intros Hn. by rewrite IH. }
  rewrite Hf. cbn [length]. set (n := length l) in *.
  assert (Hone : forallb (λ k, is_one (f32_div (count_f32 (S k)) (count_f32 (S k)))) (seq 0 TRIED) = true)
    by (vm_compute; reflexivity).
  pose proof (proj1 (forallb_forall _ _) Hone n) as Hn. apply is_one_spec, Hn.
  apply in_seq. cbn [length] in Hl. lia.
Qed.

Lemma compare_above f : SFcompare f32_1 f ≠ None → SFcompare f32_1 f ≠ Some Lt → f32_leb f f32_1 = true.
Proof.
  change f32_1 with (S754_finite false 8388608 (-23)). unfold f32_leb, SFleb, SFcompare.
  destruct f as [[]|[]| |[] m e]; try done. intros _.
  rewrite (Z.compare_antisym e (-23)). set (p := 8388608%positive).
  destruct (e ?= -23)%Z; cbn [CompOpp]; try done.
  pose proof (Pos.compare_cont_antisym p m Eq) as Hopp. cbn [CompOpp] in Hopp. rewrite <-Hopp.
  by destruct (PosDef.Pos.compare_cont Eq p m).
Qed.

(** The threshold that is applied, of a limit that is a number. *)
Lemma clamped_below_one t : f32_is_nan t = false → f32_leb (f32_clamp t f32_0 f32_1) f32_1 = true.
Proof.
  intros Hn. unfold f32_clamp. destruct (f32_ltb t f32_0); [reflexivity|]. destruct (f32_ltb f32_1 t) eqn:Hlt; [reflexivity|].
  unfold f32_ltb, SFltb in Hlt. apply compare_above.
  - change f32_1 with (S754_finite false 8388608 (-23)). by destruct t as [[]|[]| |[] m e].
  - intros Hc. by rewrite Hc in Hlt.
Qed.

Section gate.
Context {W : Type} `{ModelProvider W} (model : Text) (axes_from_json : Text → result (list DecisionAxis) Text).

(** What is generated was read from an answer. *)
Lemma generate_read {T} document (parse : Text → result T HarnessError) seed w value w' :
  generate model document parse seed w = (Ok value, w') → ∃ text, parse text = Ok value.
Proof.
  unfold generate. generalize ([] : Text). revert seed w. induction MAX_ATTEMPTS as [|n IH]; intros seed w last; [done|].
  cbn [attempt]. destruct (complete_text model seed w) as [[text|e] w1]; [|done].
  destruct (parse text) as [v|e] eqn:Hp; [|apply IH]. intros [= <- <-]. by exists text.
Qed.
Lemma open_axes_open a : Forall (λ x, resolved x = false) (open_axes a).
Proof.
  apply list.Forall_forall. intros x Hx. unfold open_axes in Hx. apply list_elem_of_In, filter_In in Hx as [_ Hx].
  by apply negb_true_iff.
Qed.

Definition guidance_seed (idea : Text) : list Message := [Message_text RSystem GUIDANCE_PROMPT; Message_text RUser idea].
(** Requests that all start with [seed], of whose answers the last is the only one
    that could be read, as [value]. *)
Definition heard {T} (parse : Text → result T HarnessError) (seed : list Message) (log : list Entry) (value : T) : Prop :=
  Forall (asks_for model seed) log ∧
  ∃ before e, log = before ++ [e] ∧ readable parse e = Some value ∧ Forall (λ e, readable parse e = None) before.
(** Requests that all start with [seed] and none of whose answers could be read. *)
Definition unheard {T} (parse : Text → result T HarnessError) (seed : list Message) (log : list Entry) : Prop :=
  Forall (asks_for model seed) log ∧ Forall (λ e, readable parse e = None) log.
Lemma generate_listened {T} document (parse : Text → result T HarnessError) seed log w :
  ∃ more, generate model document parse seed (log, w) =
    ((generate model document parse seed w).1, (log ++ more, (generate model document parse seed w).2)) ∧
    match (generate model document parse seed w).1 with
    | Ok value => heard parse seed more value
    | Err _ => unheard parse seed more
    end.
Proof.
  destruct (attempt_listened model document parse MAX_ATTEMPTS [] seed log w) as (more & Hrun & _ & Hall & Hpost).
  exists more. split; [exact Hrun|]. unfold generate. by destruct (attempt _ _ _ _ _ _ w).1; [|destruct Hpost].
Qed.
Abbreviation parse_axes := (Intake.parse_axes axes_from_json).

(** C22. The guidance gate asks exactly when an idea settles too little, and asks
    well.  The model is first sent the idea to assess, and the decisions are those
    its last such answer lists, the first that could be read; the score is
    computed from them, never taken from the reply.  At or above the threshold,
    clamped to the unit interval, the idea is sent as the user gave it to be
    drafted, the brief is the one the last answer holds, and the record says
    nothing was asked.  Below it no draft is asked for: the questions are about
    decisions listed as open, the first of them in the model's order, no more
    than the limit (a limit of zero counts as one), none is blank, and there is
    at least one, for a threshold that is a number and a reply of at most a
    thousand decisions.  It fails only when no answer to the assessment, or
    above the threshold to the drafting, could be read. *)
Theorem gate_asks_what_is_open idea gate w :
  let threshold := f32_clamp (gate_threshold gate) f32_0 f32_1 in
  let '(outcome, (log, _)) := draft_brief model axes_from_json idea (Some gate) ([], w) in
  match outcome with
  | Ok (Drafted d) =>
      ∃ assessing drafting listed, log = assessing ++ drafting ∧ heard parse_axes (guidance_seed idea) assessing listed ∧
        f32_leb threshold (guidance_score listed) = true ∧
        heard Brief.parse (intake_seed idea) drafting (bd_brief d) ∧ bd_idea d = idea ∧ bd_model_input d = idea ∧
        bd_guidance d = mkGuidance (Some (guidance_score listed)) (Some threshold) listed None [] false false None
  | Ok (NeedsGuidance a open questions) =>
      heard parse_axes (guidance_seed idea) log (axes a) ∧
      score a = guidance_score (axes a) ∧ f32_leb threshold (score a) = false ∧
      open `prefix_of` open_axes a ∧ Forall (λ x, resolved x = false) open ∧
      length open = Nat.min (N.to_nat (N.max (gate_max_questions gate) 1)) (length (open_axes a)) ∧
      questions = question_for <$> open ∧ Forall (λ q, is_blank q = false) questions ∧
      (f32_is_nan (gate_threshold gate) = false → (length (axes a) <= TRIED)%nat → questions ≠ [])
  | Err _ =>
      unheard parse_axes (guidance_seed idea) log ∨
      ∃ assessing drafting listed, log = assessing ++ drafting ∧ heard parse_axes (guidance_seed idea) assessing listed ∧
        f32_leb threshold (guidance_score listed) = true ∧ unheard Brief.parse (intake_seed idea) drafting
  end.
Proof.
  intros threshold. unfold draft_brief, assess_guidance. fold threshold (guidance_seed idea).
  destruct (generate_listened (txt "guidance assessment") parse_axes (guidance_seed idea) [] w) as (asked & Hrun & Hasked).
  rewrite Hrun. cbn [app]. destruct (generate _ _ _ _ w) as [[listed|e] w1]; cbn [fst snd] in *; [|by left].
  cbn [score axes]. destruct (f32_leb threshold (guidance_score listed)) eqn:Hs.
  { unfold draft_from, run_intake.
    destruct (generate_listened Brief.DOCUMENT Brief.parse (intake_seed idea) asked w1) as (drafting & Hrun1 & Hdrafted).
    rewrite Hrun1. destruct (generate _ _ _ _ w1) as [[b|e] w2]; cbn [fst snd] in *; [|right];
      exists asked, drafting, listed; by split_and!. }
  set (k := N.to_nat (N.max (gate_max_questions gate) 1)). split_and!; [done|done|done|..].
  - exists (drop k (open_axes (mkAssessment listed (guidance_score listed)))). by rewrite take_drop.
  - apply Forall_take, open_axes_open.
  - by rewrite length_take.
  - done.
  - apply list.Forall_fmap. apply list.Forall_forall. intros x _. apply question_not_blank.
  - intros Hnan Hlen Hnone. apply fmap_nil_inv in Hnone. set (a := mkAssessment _ _) in *.
    assert (Hopen : open_axes a = []). { destruct (open_axes a) as [|x l]; [done|]. subst k. destruct (N.to_nat _) eqn:Hk; [lia|done]. }
    rewrite (settled_score listed Hlen Hopen) in Hs. subst threshold. by rewrite clamped_below_one in Hs.
Qed.
End gate.

(** ** What approval does to the project *)

Section approval.
Context {D : Type} `{Countable D} `{Digest} (root localpilot_dir : D).
Context (json_f32 : f32 → Json) (json_text : Json → Text).
Abbreviation Files := (gmap (D * Text) Bytes).
Abbreviation brief_path := (Project.brief_path root).
Abbreviation intake_path := (Intake.intake_path localpilot_dir).

(** A whole-file write leaves the other directories alone. *)
Lemma atomic_write_elsewhere (fs : Files) io path bytes pid counter :
  Forall (λ st, ∀ q, q.1 ≠ path.1 → st !! q = fs !! q) (atomic_write fs io path bytes pid counter).1.1.
Proof.
  unfold atomic_write, atomic_write_if. destruct (negb (wi_mkdir io)); [by repeat constructor|].
  destruct (create_temp _ fs io path pid counter) as [c [tmp|e]] eqn:Ht; [|by repeat constructor].
  apply create_temp_new in Ht as (_ & n & ->). cbv zeta. set (tmp := temp_name path pid n).
  set (keeps := λ st : Files, ∀ q, q.1 ≠ path.1 → st !! q = fs !! q).
  assert (Htmp : ∀ q, q.1 ≠ path.1 → tmp ≠ q) by (by intros q Hq <-).
  assert (Hpath : ∀ q, q.1 ≠ path.1 → path ≠ q) by (by intros q Hq <-).
  assert (Hfs : keeps fs) by done.
  assert (Hadd : ∀ b, keeps (<[tmp := b]> fs)) by (intros b q Hq; by rewrite lookup_insert_ne by auto).
  assert (Hdel : ∀ b, keeps (delete tmp (<[tmp := b]> fs)))
    by (intros b q Hq; by rewrite lookup_delete_ne, lookup_insert_ne by auto).
  assert (Hput : ∀ b, keeps (delete tmp (<[path := b]> fs)))
    by (intros b q Hq; by rewrite lookup_delete_ne, lookup_insert_ne by auto).
  destruct (_ || _); [|destruct (rename_retrying _ _ _ _) as [[|]|e]]; destruct (wi_unlink io); repeat constructor; auto.
Qed.

Lemma read_written_brief (fs : Files) b r : brief_ok b → forallb is_scalar (Brief.render b) = true →
  fs !! brief_path = Some (encode (Brief.render b)) → reads_brief r = true → read_brief root fs r = Ok b.
Proof.
  intros Hb Hs Hf Hr. unfold read_brief, read_document. rewrite Hf, Hr. cbn [negb].
  by rewrite decode_encode, written_brief_is_read by done.
Qed.

(** The log after one record was appended: as it was, or longer by the beginning
    of the record. *)
Definition log_text (st : Files) : Bytes := default [] (st !! intake_path).
Definition longer_by (fs st : Files) (m : Bytes) : Prop := st = fs ∨ st = <[intake_path := log_text fs ++ m]> fs.
Lemma record_outcome (fs : Files) wr record :
  let bytes := encode (json_text record ++ [LF]) in
  let '(trace, res) := append_intake_record localpilot_dir json_text fs wr record in
  Forall (λ st, ∃ m, m `prefix_of` bytes ∧ longer_by fs st m) trace ∧
  ∃ final before, trace = final :: before ∧ (res = Ok tt → final = <[intake_path := log_text fs ++ bytes]> fs).
Proof.
  intros bytes. unfold append_intake_record. fold bytes (log_text fs).
  assert (Hfs : ∃ m, m `prefix_of` bytes ∧ longer_by fs fs m) by (exists []; split; [apply prefix_nil|by left]).
  assert (Hm : ∀ m, m `prefix_of` bytes → ∃ m', m' `prefix_of` bytes ∧ longer_by fs (<[intake_path := log_text fs ++ m]> fs) m').
  { intros m Hm. exists m. split; [done|by right]. }
  pose proof (Hm [] (prefix_nil _)) as Hopened. rewrite app_nil_r in Hopened.
  destruct (negb _); [split; [by constructor|by eexists _, _]|].
  destruct (ri_cut wr) as [n|]; (split; [repeat (apply list.Forall_cons; split); try done; apply Hm|by eexists _, _]).
  - apply prefix_take.
  - done.
Qed.

(** What is found in a project whose brief.md was just written. *)
Lemma found_after_writing (fs final : Files) b r : (∀ bytes, hex64 (sha256 bytes)) → brief_ok b →
  forallb is_scalar (Brief.render b) = true → final !! brief_path = Some (encode (Brief.render b)) →
  final !! plan_path root = fs !! plan_path root → reads_brief r = true →
  read_brief root final r = Ok b ∧
  ∀ liveness interrupted p, resumable (inspect root final r liveness interrupted) = Ok p →
    read_saved root fs r = Ok (Some p) ∧ trim <$> brief_binding p = Some (revision_of b).
Proof.
  intros Hhex Hb Hs Hbrief Hplan Hr. pose proof (read_written_brief final b r Hb Hs Hbrief Hr) as Hread. split; [done|].
  intros liveness interrupted p (_ & b' & Hb' & Hsaved & Hbound & _)%(resume_exact root); [|done].
  rewrite Hread in Hb'. injection Hb' as <-. split; [|done]. unfold read_saved, read_document in *. by rewrite <-Hplan.
Qed.

End approval.

(** ** A session *)

#[local] Existing Instance folded.
Definition VAGUE : Brief := mkBrief (txt "parser") (txt "Make it better.") [] [] [] [txt "It is better"] [].
Definition OLD_PROJECT : gmap (bool * Text) Bytes :=
  <[(true, Brief.DOCUMENT) := encode (Brief.render VAGUE)]>
    (<[(true, DOCUMENT) := encode (render (mkProgress (txt "parser") (txt "work") (Some (revision_of VAGUE)) [planned 1 "Improve" [1] []]))]> ∅).
Definition SETTLED : BriefDraft := mkBriefDraft SAMPLE (txt "name the line") (txt "name the line") guidance_none 1.
Lemma sample_ok : brief_ok SAMPLE.
Proof.
  apply (read_brief_can_be_written DESCRIBED); [vm_compute; reflexivity|]. apply (bool_decide_unpack _). vm_compute. exact I.
Qed.


(** The first reply is no assessment; the second leaves two decisions open, of
    which the limit of zero lets one be asked about. *)
#[local] Instance speaking : ModelProvider (list Text) := λ _ answers,
  match answers with
  | answer :: rest => (Ok [Ok (TextDelta answer)], rest)
  | [] => (Err (Network (txt "gone")), [])
  end.
Definition LISTED : list DecisionAxis :=
  [mkAxis (txt "platform") true (txt "for the parser") []; mkAxis (txt "storage") false (txt "not specified") (txt "Where?");
   mkAxis (txt "scope") false (txt "not specified") []].
Definition read_axes (text : Text) : result (list DecisionAxis) Text :=
  if bool_decide (text = txt "{}") then Ok LISTED else Err (txt "no object").
Lemma gate_asks_what_is_open_witness :
  let '(outcome, (log, _)) := draft_brief (txt "m") read_axes (txt "an idea") (Some (mkGate f32_1 0)) ([], [txt "well"; txt "{}"]) in
  outcome = Ok (NeedsGuidance (mkAssessment LISTED (guidance_score LISTED)) (take 1 (drop 1 LISTED)) [txt "Where?"]) ∧
  heard (txt "m") (parse_axes read_axes) (guidance_seed (txt "an idea")) log LISTED ∧ length log = 2%nat.
Proof.
  pose proof (gate_asks_what_is_open (txt "m") read_axes (txt "an idea") (mkGate f32_1 0) [txt "well"; txt "{}"]) as Hg. cbv zeta in Hg.
  assert (Hr : (draft_brief (txt "m") read_axes (txt "an idea") (Some (mkGate f32_1 0)) ([], [txt "well"; txt "{}"])).1 =
    Ok (NeedsGuidance (mkAssessment LISTED (guidance_score LISTED)) (take 1 (drop 1 LISTED)) [txt "Where?"])) by (vm_compute; reflexivity).
  assert (Hn : length (draft_brief (txt "m") read_axes (txt "an idea") (Some (mkGate f32_1 0)) ([], [txt "well"; txt "{}"])).2.1 = 2%nat)
    by (vm_compute; reflexivity).
  destruct (draft_brief _ _ _ _ _) as [outcome [log rest]]. cbn [fst snd] in *. rewrite Hr in Hg |- *.
  destruct Hg as [Hheard _]. split; [reflexivity|]. split; [exact Hheard|exact Hn].
Defined.

(** A threshold that is not a number lets no idea through and may ask nothing. *)
Example no_number_asks_nothing :
  let provider : ModelProvider unit := λ _ w, (Ok [Ok (TextDelta (txt "{}"))], w) in
  fst (@draft_brief unit provider (txt "m") (λ _, Ok [mkAxis (txt "scope") true (txt "only the parser") []])
         (txt "an idea") (Some (mkGate S754_nan 3)) tt) =
  Ok (NeedsGuidance (mkAssessment [mkAxis (txt "scope") true (txt "only the parser") []] f32_1) [] []).
Proof. vm_compute. reflexivity. Qed.
