(* ===== verification/Conversation.v ===== *)
(** * The conversations about the project's documents
    (localpilot-cli: fullscreen.rs, fullscreen_harness.rs, wait_resume_with_events
    of harness_cmd.rs; PlanStage of
    localpilot-harness/src/plan_draft.rs)

    One conversation is live at a time: about the brief, about the plan, or the
    guide that leads through both and asks before a plan runs.  What the user
    types belongs to the conversation it was typed into.  A model call runs while
    the world goes on: files may change, the user may cut it short or ask to
    stop.  What is written to the screen is kept only where it shows a document
    or asks for consent; the screen itself is left out. *)

From Stdlib Require Import String.
From stdpp Require Import base gmap list numbers.
From S2P Require Import Quota.
From S2P Require Import F32.
From S2P Require Import Prelude Monitor Utf8 Chars Ownership Files Message Json Provider Fields Granularity Brief Progress.
From S2P Require Import Reconcile PlanReview Project Drafting Intake.
From stdpp Require Import list.
#[local] Open Scope N_scope.
#[local] Open Scope list_scope.

(** ** Data *)

Inductive PlanStage :=
  | GeneratingPlan
  | ReviewingPlan (draft : PlanDraft)
  | RevisingPlan (draft : PlanDraft)
  | Conflicted (draft : PlanDraft) (conflicts : list ReconcileConflict)
  | PlanFailure (retry : PlanRetry) (detail : Text).

(** What resuming would do, from the configuration in force. *)
Record ExecutionSnapshot := mkSnapshot {
  granularity : GranularityConfig;
  auto_commit : bool;
  attempts_per_step : N;
  checks : list Text;
}.
Record ResumeConsent := mkConsent {
  rc_progress : Text;
  rc_model : Text;
  rc_provider : Text;
  rc_profile : Text;
  rc_trusted : bool;
  rc_execution : ExecutionSnapshot;
  rc_work_profile : option WorkProfile;
}.
Inductive GuideStage :=
  | BriefDecision (revision : Text)
  | ResumeReview (consent : ResumeConsent)
  | Options.

Inductive LiveStage :=
  | LiveBrief (stage : BriefStage)
  | LivePlan (stage : PlanStage)
  | LiveGuide (guide : GuideStage).
Definition subject (s : LiveStage) : Text :=
  match s with LiveBrief _ => txt "brief" | LivePlan _ => txt "plan" | LiveGuide _ => txt "harness guidance" end.

#[export] Instance limit_mode_eq_dec : EqDecision WorkLimitMode.
Proof. solve_decision. Defined.
#[export] Instance caps_eq_dec : EqDecision GranularityConfig.
Proof. solve_decision. Defined.
#[export] Instance context_provenance_eq_dec : EqDecision ContextProvenance.
Proof. solve_decision. Defined.
#[export] Instance capability_provenance_eq_dec : EqDecision CapabilityProvenance.
Proof. solve_decision. Defined.
#[export] Instance work_profile_eq_dec : EqDecision WorkProfile.
Proof. solve_decision. Defined.
#[export] Instance snapshot_eq_dec : EqDecision ExecutionSnapshot.
Proof. solve_decision. Defined.
#[export] Instance consent_eq_dec : EqDecision ResumeConsent.
Proof. solve_decision. Defined.

(** ** The one live conversation *)

Definition Generation : Type := N.
Record StageHost := mkHost {
  guided : bool;
  next_generation : Generation;
  live : option (Generation * LiveStage);
  plan_source : option Progress;
  recent : list (Generation * StageOutcome * Text);
}.
Definition REMEMBERED_STAGE_OUTCOMES : nat := 16.
Definition host_new : StageHost := mkHost false 0 None None [].
Definition set_live (l : option (Generation * LiveStage)) (h : StageHost) : StageHost :=
  mkHost (guided h) (next_generation h) l (plan_source h) (recent h).
Definition set_source (p : option Progress) (h : StageHost) : StageHost :=
  mkHost (guided h) (next_generation h) (live h) p (recent h).
Definition set_guided (b : bool) (h : StageHost) : StageHost :=
  mkHost b (next_generation h) (live h) (plan_source h) (recent h).

Definition live_generation (h : StageHost) : option Generation := fst <$> live h.
Definition end_live (outcome : StageOutcome) (h : StageHost) : StageHost :=
  match live h with
  | None => set_source None h
  | Some (generation, stage) =>
      let kept := if (length (recent h) =? REMEMBERED_STAGE_OUTCOMES)%nat then tail (recent h) else recent h in
      mkHost (guided h) (next_generation h) None None (kept ++ [(generation, outcome, subject stage)])
  end.
Definition begin (stage : LiveStage) (h : StageHost) : Generation * StageHost :=
  let h := match live h with Some _ => end_live Superseded h | None => h end in
  (next_generation h,
   mkHost (guided h) (u64_add (next_generation h) 1) (Some (next_generation h, stage)) None (recent h)).
Definition ending_of (generation : Generation) (h : StageHost) : option Text :=
  '(_, outcome, subject) ← List.find (λ e, fst (fst e) =? generation) (recent h); Some (outcome_reason outcome subject).
Definition live_brief (h : StageHost) : option BriefStage :=
  match live h with Some (_, LiveBrief stage) => Some stage | _ => None end.
Definition live_plan (h : StageHost) : option PlanStage :=
  match live h with Some (_, LivePlan stage) => Some stage | _ => None end.
Definition end_stage_conversation (h : StageHost) : StageHost :=
  match live h with None => h | Some _ => end_live Cancelled h end.

(** ** What one turn of input asks *)

Inductive StageAction :=
  | StayBrief (stage : BriefStage)
  | ActDraft (idea : Text)
  | ActClarified (idea : Text) (threshold : f32) (assessment : GuidanceAssessment) (questions : list Text)
      (answers : list (Text * Text))
  | ActRevise (draft : BriefDraft) (instruction : Text).
Inductive PlanTurn := StayPlan (stage : PlanStage) | RunPlan (retry : PlanRetry).

Definition or_else (text old : Text) : Text := match text with [] => old | _ => text end.
Definition decide_brief_turn (stage : BriefStage) (text : Text) : StageAction :=
  let trimmed := trim text in
  match stage with
  | AwaitingIdea => match trimmed with [] => StayBrief AwaitingIdea | _ => ActDraft trimmed end
  | Clarifying idea threshold assessment questions pending answers =>
      match pending with
      | [] => ActClarified idea threshold assessment questions answers
      | asked :: pending =>
          let answers := match trimmed with [] => answers | _ => answers ++ [(axis asked, trimmed)] end in
          match pending with
          | _ :: _ => StayBrief (Clarifying idea threshold assessment questions pending answers)
          | [] => ActClarified idea threshold assessment questions answers
          end
      end
  | GeneratingBrief | RevisingBrief _ => StayBrief stage
  | ReviewingBrief draft => match trimmed with [] => StayBrief (ReviewingBrief draft) | _ => ActRevise draft trimmed end
  | BriefFailure (TargetDraft idea) _ => ActDraft (or_else trimmed idea)
  | BriefFailure (TargetClarified idea threshold assessment questions answers) _ =>
      match trimmed with [] => ActClarified idea threshold assessment questions answers | _ => ActDraft trimmed end
  | BriefFailure (TargetRevision draft instruction) _ => ActRevise draft (or_else trimmed instruction)
  end.
Definition in_flight_stage (action : StageAction) : option BriefStage :=
  match action with
  | StayBrief _ => None
  | ActDraft _ | ActClarified _ _ _ _ _ => Some GeneratingBrief
  | ActRevise draft _ => Some (RevisingBrief draft)
  end.

Definition decide_plan_turn (stage : PlanStage) (text : Text) : PlanTurn :=
  let trimmed := trim text in
  match stage with
  | GeneratingPlan | RevisingPlan _ => StayPlan stage
  | ReviewingPlan draft | Conflicted draft _ =>
      match trimmed with [] => StayPlan stage | _ => RunPlan (RetryRevise draft trimmed) end
  | PlanFailure (RetryRevise draft instruction) _ => RunPlan (RetryRevise draft (or_else trimmed instruction))
  | PlanFailure retry _ => match trimmed with [] => RunPlan retry | _ => StayPlan stage end
  end.
Definition in_flight_plan_stage (turn : PlanTurn) : option PlanStage :=
  match turn with
  | StayPlan _ => None
  | RunPlan (RetryRevise draft _) => Some (RevisingPlan draft)
  | RunPlan _ => Some GeneratingPlan
  end.

(** ** The session around it *)

(** What a command finds when it is given: the session's settings and what can be
    read. *)
Record Env := mkEnv {
  active_model : Text;
  active_provider_id : Text;
  profile_label : Text;
  trusted : bool;
  incognito : bool;
  planned_work_profile : option WorkProfile;
  execution : ExecutionSnapshot;
  guidance : option GuidanceParams;
  repo_summary_text : Text;
  reads : ReadIo;
}.

Inductive Shown :=
  | ShownBrief (draft : BriefDraft)
  | ShownPlan (draft : PlanDraft)
  | ShownConflicts (draft : PlanDraft) (conflicts : list ReconcileConflict)
  | ShownConsent (consent : ResumeConsent).

Inductive PlanCommand := First | Again.
Inductive ReviewAction := Show | NoChange | Approve | Reject | Reset | Cancel.
#[export] Instance review_action_eq_dec : EqDecision ReviewAction.
Proof. solve_decision. Defined.

Section conversation.
Context {D : Type} `{Countable D} `{Digest} (to_lowercase : Text → Text) (root localpilot_dir : D).
Context {W : Type} `{ModelProvider W}.
Context (axes_from_json : Text → result (list DecisionAxis) Text) (unrunnable_verify_reason : Text → option Text).
Context (json_f32 : f32 → Json) (json_text : Json → Text).
Abbreviation Files := (gmap (D * Text) Bytes).

Record World := mkWorld { files : Files; host : StageHost; shown : list Shown; provider : W }.
Definition on_host (f : StageHost → StageHost) (w : World) : World := mkWorld (files w) (f (host w)) (shown w) (provider w).
Definition show (s : Shown) (w : World) : World := mkWorld (files w) (host w) (shown w ++ [s]) (provider w).
Definition start (stage : LiveStage) (w : World) : Generation * World :=
  let '(generation, h) := begin stage (host w) in (generation, mkWorld (files w) h (shown w) (provider w)).

(** What happens while a command runs: whether its model call is cut short, and
    in which state that leaves the provider; the files as they are when the call,
    or the wait for a quota window, is over; whether stopping was asked for; the
    record of a paused run that the store holds, the configured policy for it and
    what each poll of the wait sees (the clock, whether the work tree is clean,
    whether the wait was cancelled); and the system's and git's answers. *)
Record Meanwhile := mkMeanwhile {
  cut_short : option W;
  files_then : option Files;
  stop_requested : bool;
  brief_io : WriteIo;
  record_io : RecordIo;
  plan_io : WriteIo;
  feature_io : PlainIo * PlainIo;
  git : Git (D := D);
  paused : option PausedRun;
  quota : QuotaConfig;
  polled : list (N * bool * bool);
  pid : N;
  counter : N;
}.

Definition look (env : Env) (fs : Files) : DocumentState := documents (inspect root fs (reads env) NotRunning None).
Definition CANCELLED : Text := txt "the attempt was cancelled".

(** A model call: what it answers, [None] when it was cut short, and the world it
    leaves. *)
Definition call {A} (m : Meanwhile) (run : W → A * W) (w : World) : option A * World :=
  let files := default (files w) (files_then m) in
  match cut_short m with
  | Some remains => (None, mkWorld files (host w) (shown w) remains)
  | None => let '(a, after) := run (provider w) in (Some a, mkWorld files (host w) (shown w) after)
  end.

(** ** The plan's model calls *)

Definition reconcile_against_saved (env : Env) (fs : Files) (draft : PlanDraft)
    : result PlanDraft (PlanDraft * list ReconcileConflict) :=
  match state_progress (look env fs) with
  | None => Ok draft
  | Some saved =>
      if negb (existsb done (steps saved)) then Ok draft
      else match reconcile to_lowercase saved (progress draft) (brief_revision draft) with
           | Ok p => Ok (mkDraft p (brief_revision draft) (repo_summary draft) (revisions draft) (work_profile draft))
           | Err conflicts => Err (draft, conflicts)
           end
  end.
Definition run_plan_turn (env : Env) (m : Meanwhile) (retry : PlanRetry) (w : World) : PlanStage * World :=
  let '(answer, w) := call m (run_attempt (active_model env) unrunnable_verify_reason retry) w in
  match answer with
  | Some (Ok draft) =>
      match reconcile_against_saved env (files w) draft with
      | Ok draft => (ReviewingPlan draft, show (ShownPlan draft) w)
      | Err (draft, conflicts) => (Conflicted draft conflicts, show (ShownConflicts draft conflicts) w)
      end
  | Some (Err error) => (PlanFailure retry (error_text error), w)
  | None => (PlanFailure retry CANCELLED, w)
  end.

(** ** The brief's model calls *)

Definition target_of (action : StageAction) : option RetryTarget :=
  match action with
  | StayBrief _ => None
  | ActDraft idea => Some (TargetDraft idea)
  | ActClarified idea threshold assessment questions answers =>
      Some (TargetClarified idea threshold assessment questions answers)
  | ActRevise draft instruction => Some (TargetRevision draft instruction)
  end.
Definition drafted_outcome (r : result BriefDraft HarnessError * W) : result DraftOutcome HarnessError * W :=
  let '(draft, w) := r in (let? draft := draft in Ok (Drafted draft), w).
Definition run_target (env : Env) (retry : RetryTarget) (w : W) : result DraftOutcome HarnessError * W :=
  match retry with
  | TargetDraft idea => draft_brief (active_model env) axes_from_json idea (guidance env) w
  | TargetClarified idea threshold assessment questions answers =>
      drafted_outcome
        (draft_with_answers (active_model env) axes_from_json idea threshold assessment questions answers true w)
  | TargetRevision draft instruction => drafted_outcome (revise_brief (active_model env) draft instruction w)
  end.
Definition leg_of (env : Env) (retry : RetryTarget) : Text * f32 :=
  match retry with
  | TargetDraft idea =>
      (idea, match guidance env with Some gate => f32_clamp (gate_threshold gate) f32_0 f32_1 | None => f32_0 end)
  | TargetClarified idea threshold _ _ _ => (idea, threshold)
  | TargetRevision draft _ => (bd_idea draft, f32_0)
  end.
Definition run_stage_action (env : Env) (m : Meanwhile) (retry : RetryTarget) (w : World) : BriefStage * World :=
  let '(answer, w) := call m (run_target env retry) w in
  match answer with
  | Some (Ok (Drafted draft)) => (ReviewingBrief draft, show (ShownBrief draft) w)
  | Some (Ok (NeedsGuidance assessment open questions)) =>
      let '(idea, threshold) := leg_of env retry in
      (Clarifying idea threshold assessment questions open [], w)
  | Some (Err error) => (BriefFailure retry (error_text error), w)
  | None => (BriefFailure retry CANCELLED, w)
  end.

(** ** One message into the live conversation *)

(** The stage is published before the call and replaced after it; a stop asked for
    during the call then ends the conversation. *)
Definition publish (generation : Generation) (stage : LiveStage) : World → World :=
  on_host (set_live (Some (generation, stage))).
Definition settle_call (m : Meanwhile) (generation : Generation) (stage : LiveStage) (w : World) : World :=
  let w := publish generation stage w in
  if stop_requested m then on_host (λ h, end_stage_conversation (set_guided false h)) w else w.

Definition drive_stage_input (env : Env) (m : Meanwhile) (generation : Generation) (text : Text) (w : World) : World :=
  if negb (bool_decide (live_generation (host w) = Some generation)) then w
  else
    match live (host w) with
    | None | Some (_, LiveGuide _) => w
    | Some (_, LiveBrief stage) =>
        let action := decide_brief_turn stage text in
        match action, in_flight_stage action, target_of action with
        | StayBrief stage, _, _ =>
            let w := match stage with ReviewingBrief draft => show (ShownBrief draft) w | _ => w end in
            publish generation (LiveBrief stage) w
        | _, Some in_flight, Some retry =>
            let '(next, w) := run_stage_action env m retry (publish generation (LiveBrief in_flight) w) in
            settle_call m generation (LiveBrief next) w
        | _, _, _ => w
        end
    | Some (_, LivePlan stage) =>
        let turn := decide_plan_turn stage text in
        match turn, in_flight_plan_stage turn with
        | StayPlan stage, _ => publish generation (LivePlan stage) w
        | RunPlan retry, Some in_flight =>
            let '(next, w) := run_plan_turn env m retry (publish generation (LivePlan in_flight) w) in
            settle_call m generation (LivePlan next) w
        | _, _ => w
        end
    end.

(** ** Commands about the brief *)

Definition drive_harness_intake (env : Env) (m : Meanwhile) (idea : option Text) (w : World) : World :=
  let '(generation, w) := start (LiveBrief AwaitingIdea) w in
  match idea with None => w | Some idea => drive_stage_input env m generation idea w end.

Definition open_saved_brief_for_review (env : Env) (w : World) : World :=
  match state_brief (look env (files w)) with
  | None => w
  | Some brief =>
      let draft := mkBriefDraft brief (summary brief) (summary brief) guidance_none 0 in
      show (ShownBrief draft) (snd (start (LiveBrief (ReviewingBrief draft)) w))
  end.
Definition idea_of (stage : BriefStage) : option Text :=
  match stage with
  | ReviewingBrief draft | RevisingBrief draft | BriefFailure (TargetRevision draft _) _ => Some (bd_idea draft)
  | Clarifying idea _ _ _ _ _ | BriefFailure (TargetDraft idea) _ | BriefFailure (TargetClarified idea _ _ _ _) _ => Some idea
  | AwaitingIdea | GeneratingBrief => None
  end.
Definition approve_brief_draft (m : Meanwhile) (draft : BriefDraft) (w : World) : World :=
  let '(trace, _, res) :=
    persist_approved root localpilot_dir json_f32 json_text (files w) (brief_io m) (record_io m) draft (pid m) (counter m) in
  let w := mkWorld (default (files w) (head trace)) (host w) (shown w) (provider w) in
  match res with
  | Ok _ | Err (RecordNotAppended _) => on_host (end_live Approved) w
  | Err (BriefNotWritten _) => w
  end.

Definition drive_harness_brief (env : Env) (m : Meanwhile) (action : ReviewAction) (w : World) : World :=
  if bool_decide (is_Some (live_plan (host w))) && negb (match action with Show => true | _ => false end) then w
  else
    match action with
    | Show =>
        match live_brief (host w), live_generation (host w) with
        | Some (ReviewingBrief draft), _ => show (ShownBrief draft) w
        | Some (BriefFailure _ _), Some generation => drive_stage_input env m generation [] w
        | _, _ => open_saved_brief_for_review env w
        end
    | NoChange => on_host (λ h, match live h with Some _ => end_live Rejected h | None => h end) w
    | Approve =>
        match live_brief (host w) with Some (ReviewingBrief draft) => approve_brief_draft m draft w | _ => w end
    | Reject => on_host (end_live Rejected) w
    | Cancel => on_host (end_live Cancelled) w
    | Reset =>
        match live_brief (host w) ≫= idea_of with
        | None => w
        | Some idea =>
            let '(generation, w) := start (LiveBrief AwaitingIdea) w in drive_stage_input env m generation idea w
        end
    end.

(** ** Commands about the plan *)

Definition open_saved_plan_for_review (env : Env) (p : Progress) (brief_revision : Text) (w : World) : World :=
  let draft := mkDraft p brief_revision (repo_summary_text env) 0 None in
  let w := snd (start (LivePlan (ReviewingPlan draft)) w) in
  show (ShownPlan draft) (on_host (set_source (Some p)) w).

Definition begin_plan (env : Env) (m : Meanwhile) (state : DocumentState) (retry : PlanRetry) (w : World) : World :=
  let '(generation, w) := start (LivePlan GeneratingPlan) w in
  let w := on_host (set_source (state_progress state)) w in
  let '(next, w) := run_plan_turn env m retry (publish generation (LivePlan GeneratingPlan) w) in
  settle_call m generation (LivePlan next) w.

(** Whether the saved documents let the conversation start at all. *)
Definition plan_can_start (entry : PlanCommand) (state : DocumentState) : bool :=
  match state, entry with
  | PlanUnreadable _ _, _ | PlanMalformed _ _, _ => false
  | PlanStale _ _ _ _, First | PlanUnbound _ _, First | PlanBindingUnsupported _ _ _, First => false
  | _, _ => true
  end.
Definition start_plan_conversation (env : Env) (m : Meanwhile) (entry : PlanCommand) (w : World) : World :=
  if bool_decide (is_Some (live_brief (host w))) then w
  else
    let state := look env (files w) in
    if negb (plan_can_start entry state) then w
    else match state_brief state with
         | None => w
         | Some brief =>
             let revision := revision_of brief in
             match entry, state_progress state with
             | First, Some p => open_saved_plan_for_review env p revision w
             | First, None =>
                 begin_plan env m state (RetryDraft brief revision (repo_summary_text env) (planned_work_profile env)) w
             | Again, None => w
             | Again, Some p =>
                 begin_plan env m state
                   (RetryReplan brief revision (repo_summary_text env) (planned_work_profile env)
                      (List.filter done (steps p))) w
             end
         end.

(** The profile a plan is held to when it is approved: the draft's, within the
    caps of now. *)
Definition capped (env : Env) (draft : PlanDraft) : PlanDraft :=
  mkDraft (progress draft) (brief_revision draft) (repo_summary draft) (revisions draft)
    (tighten_caps (granularity (execution env)) <$> work_profile draft).
Definition approve_plan_draft (env : Env) (m : Meanwhile) (draft : PlanDraft) (w : World) : World :=
  match state_brief (look env (files w)) with
  | None => w
  | Some brief =>
      if negb (bool_decide (revision_of brief = brief_revision draft)) then w
      else
        let '(trace, _, res) :=
          persist_approved_plan to_lowercase root (files w) (reads env) (plan_io m) (capped env draft) brief
            (plan_source (host w)) (pid m) (counter m) in
        let w := mkWorld (default (files w) (head trace)) (host w) (shown w) (provider w) in
        match res with Ok _ => on_host (end_live Approved) w | Err _ => w end
  end.

Definition drive_harness_plan (env : Env) (m : Meanwhile) (entry : PlanCommand) (action : ReviewAction) (w : World) : World :=
  if bool_decide (is_Some (live_brief (host w))) then w
  else
    match action with
    | Show =>
        match live_plan (host w), live_generation (host w) with
        | Some (ReviewingPlan draft), _ => show (ShownPlan draft) w
        | Some (Conflicted draft conflicts), _ => show (ShownConflicts draft conflicts) w
        | Some (PlanFailure _ _), Some generation => drive_stage_input env m generation [] w
        | _, _ => start_plan_conversation env m entry w
        end
    | NoChange => on_host (λ h, match live h with Some _ => end_live Rejected h | None => h end) w
    | Approve => match live_plan (host w) with Some (ReviewingPlan draft) => approve_plan_draft env m draft w | _ => w end
    | Reject => on_host (end_live Rejected) w
    | Cancel => on_host (end_live Cancelled) w
    | Reset =>
        match live_plan (host w) with None => w | Some _ => start_plan_conversation env m entry w end
    end.

(** ** The guide and the consent to run *)

Definition resume_work_profile (env : Env) (p : Progress) : option WorkProfile :=
  profile ← planned_work_profile env;
  Some (match next_incomplete p ≫= scope with Some scope => bound_to_scope scope profile | None => profile end).
Definition capture (env : Env) (fs : Files) : option ResumeConsent :=
  match resumable (inspect root fs (reads env) NotRunning None) with
  | Ok p =>
      Some (mkConsent (render p) (active_model env) (active_provider_id env) (profile_label env) (trusted env)
              (execution env) (resume_work_profile env p))
  | Err _ => None
  end.
Definition offer_resume (env : Env) (w : World) : World :=
  match resumable (inspect root (files w) (reads env) NotRunning None) with
  | Ok _ =>
      match capture env (files w) with
      | Some consent => show (ShownConsent consent) (snd (start (LiveGuide (ResumeReview consent)) w))
      | None => w
      end
  | Err _ => snd (start (LiveGuide Options) w)
  end.
(** Whether the plan is run now: the consent under review is given, and the
    project is in a git repository. *)
Definition confirm_resume (env : Env) (m : Meanwhile) (w : World) : bool * World :=
  if incognito env then (false, w)
  else if bool_decide (is_Some (live_brief (host w)) ∨ is_Some (live_plan (host w))) then (false, w)
  else
    let captured := match live (host w) with Some (_, LiveGuide (ResumeReview consent)) => Some consent | _ => None end in
    let current := capture env (files w) in
    if bool_decide (is_Some captured ∧ captured = current)
    then
      let '(files, ready) := init_git_workspace (git m) (files w) in
      let w := mkWorld files (host w) (shown w) (provider w) in
      match ready with Some _ => (true, on_host (end_live Approved) w) | None => (false, w) end
    else (false, offer_resume env w).

(** Stopping while a run or a wait is on ends the guide when it is over. *)
Definition run_over (m : Meanwhile) (w : World) : World :=
  if stop_requested m then on_host (set_guided false) w else w.
(** Waiting for the quota of an interrupted run; whether the plan is run now.  The
    plan must be one to resume before the wait and again after it. *)
Definition wait_resume (env : Env) (m : Meanwhile) (w : World) : bool * World :=
  if incognito env then (false, w)
  else
    match paused m, resumable (inspect root (files w) (reads env) NotRunning None) with
    | None, _ | _, Err _ => (false, run_over m w)
    | Some run, Ok _ =>
        let w := mkWorld (default (files w) (files_then m)) (host w) (shown w) (provider w) in
        let polls := (λ '(at_second, clean, cancelled), mkPoll at_second clean cancelled (Some (active_provider_id env))) <$> polled m in
        match wait_loop run (policy_from (quota m)) polls, resumable (inspect root (files w) (reads env) NotRunning None) with
        | Some (Decided Quota.Resume), Ok _ => (true, w)
        | _, _ => (false, run_over m w)
        end
    end.

Definition guide (env : Env) (m : Meanwhile) (after_brief : bool) (w : World) : World :=
  let w := on_host (set_guided true) w in
  if negb after_brief && bool_decide (is_Some (live (host w))) then w
  else
    let state := look env (files w) in
    match state_brief state, after_brief with
    | Some brief, false => snd (start (LiveGuide (BriefDecision (revision_of brief))) w)
    | _, _ =>
        match state with
        | NoBrief => drive_harness_intake env m None w
        | BriefOnly _ => drive_harness_plan env m First Show w
        | PlanStale _ _ _ _ => drive_harness_plan env m Again Show w
        | PlanReady _ _ => offer_resume env w
        | _ => snd (start (LiveGuide Options) w)
        end
    end.

(** Input to the guide; whether the plan is run now. *)
Definition guide_input (env : Env) (m : Meanwhile) (generation : Generation) (text : Text) (w : World) : bool * World :=
  match live (host w) with
  | Some (current, LiveGuide stage) =>
      if negb (current =? generation) then (false, w)
      else
        let answer := trim text in
        let says (word : string) := eq_ignore_ascii_case answer (txt word) in
        match stage with
        | BriefDecision revision =>
            if negb (bool_decide (revision_of <$> state_brief (look env (files w)) = Some revision))
            then (false, guide env m false (on_host (end_live Superseded) w))
            else if says "no"%string || says "unchanged"%string then (false, guide env m true (on_host (end_live Approved) w))
            else if says "yes"%string || bool_decide (answer = []) then (false, w)
            else
              let w := drive_harness_brief env m Show w in
              (false, match live_generation (host w) with
                      | Some next => drive_stage_input env m next answer w
                      | None => w
                      end)
        | ResumeReview _ => if says "yes"%string || says "resume"%string then confirm_resume env m w else (false, w)
        | Options => if says "retry"%string then (false, guide env m false (on_host (end_live Superseded) w)) else (false, w)
        end
  | _ => (false, w)
  end.

(** ** A session *)

(** What touches the conversations and the two documents.  An ordinary prompt, a
    shell line and the other slash commands (adopting a server, compaction,
    ingestion, research, self-improvement) touch neither; what they do to the
    files is a change by others.  Those that leave a conversation first (a new or
    another session, another model, /agent, incognito) are [Leave].  [RunOver] is
    the end of the run of the plan. *)
Inductive Command :=
  | Input (generation : Generation) (text : Text)
  | Intake (idea : option Text)
  | BriefCommand (action : ReviewAction)
  | PlanCommandOf (entry : PlanCommand) (action : ReviewAction)
  | Guide
  | Resume
  | WaitResume
  | RunOver
  | Feature (description : Text)
  | Leave (stays_guided : bool)
  | Stop.

(** The guide goes on once a review of it is decided, and ends when it is left. *)
Definition idle (w : World) : bool := match live (host w) with Some _ => false | None => true end.
Definition go_on (env : Env) (m : Meanwhile) (decided : bool) (w : World) : World :=
  if guided (host w) && idle w && decided then guide env m true w else w.
Definition leave_guide (action : ReviewAction) (w : World) : World :=
  if idle w && (match action with Cancel => true | _ => false end) then on_host (set_guided false) w else w.

(** A prompt typed into a conversation. *)
Definition stage_prompt (env : Env) (m : Meanwhile) (generation : Generation) (text : Text) (w : World) : bool * World :=
  match live (host w) with
  | Some (current, LiveGuide _) =>
      if current =? generation then guide_input env m generation text w
      else (false, drive_stage_input env m generation text w)
  | _ => (false, drive_stage_input env m generation text w)
  end.
(** Leaving the conversation for something else, and the guide with it or not. *)
Definition leave (stays_guided : bool) (w : World) : World :=
  let w := on_host end_stage_conversation w in if stays_guided then w else on_host (set_guided false) w.
Definition stop (w : World) : World :=
  if idle w then w else on_host (λ h, set_guided false (end_stage_conversation h)) w.

(** The one command that changes both documents with no review. *)
Definition add_feature (env : Env) (m : Meanwhile) (description : Text) (w : World) : World :=
  if bool_decide (is_Some (live_brief (host w)) ∨ is_Some (live_plan (host w))) then w
  else
    let w := on_host (end_live Superseded) w in
    let '(trace, _) := feature root (files w) (reads env) (fst (feature_io m)) (snd (feature_io m)) description in
    mkWorld (default (files w) (head trace)) (host w) (shown w) (provider w).

(** One command; whether it starts the run of the plan. *)
Definition perform (env : Env) (m : Meanwhile) (c : Command) (w : World) : bool * World :=
  match c with
  | Input generation text => stage_prompt env m generation text w
  | Intake idea => (false, drive_harness_intake env m idea w)
  | BriefCommand action =>
      let decided := match action with Approve | NoChange => true | _ => false end in
      (false, leave_guide action (go_on env m decided (drive_harness_brief env m action w)))
  | PlanCommandOf entry action =>
      let decided := match action with Approve => true | _ => false end in
      (false, leave_guide action (go_on env m decided (drive_harness_plan env m entry action w)))
  | Guide => (false, guide env m false w)
  | Resume => confirm_resume env m w
  | WaitResume => wait_resume env m w
  | RunOver => (false, run_over m w)
  | Feature description => (false, add_feature env m description w)
  | Leave stays_guided => (false, leave stays_guided w)
  | Stop => (false, stop w)
  end.
End conversation.
