(* ===== verification/ConversationProps.v ===== *)
(** * What the conversations promise *)

From Stdlib Require Import String.
From stdpp Require Import base gmap list sorting numbers.
From S2P Require Import Quota.
From S2P Require Import F32.
From S2P Require Import Prelude Monitor Utf8 Chars Ownership Files Message Json Provider Fields Granularity Brief BriefProps.
From S2P Require Import Progress ProgressProps Reconcile ReconcileProps PlanReview PlanReviewProps Project ProjectProps.
From S2P Require Import Drafting Intake Conversation.
From stdpp Require Import list.
#[local] Open Scope N_scope.
#[local] Open Scope list_scope.

(** ** Plans a conversation can hold *)

(** A plan that can be written, whatever its steps say they wait for. *)
Definition without_depends (p : Progress) : Progress := set_steps (set_depends None <$> steps p) p.
Definition written_ok (p : Progress) : Prop := progress_ok (without_depends p).
Definition waits_ok (p : Progress) : Prop := Forall (λ s, holds numbers_ok (depends s)) (steps p).

Lemma steps_split l : Forall step_ok l ↔ Forall step_ok (set_depends None <$> l) ∧ Forall (λ s, holds numbers_ok (depends s)) l.
Proof.
  rewrite list.Forall_fmap, <-list.Forall_and. apply list.Forall_iff. intros s. split.
  - intros []. by split.
  - intros [[] ?]. by constructor.
Qed.
Lemma written_split p : progress_ok p ↔ written_ok p ∧ waits_ok p.
Proof.
  unfold written_ok, waits_ok, without_depends.
  assert (Hn : number <$> (set_depends None <$> steps p) = number <$> steps p) by (rewrite <-list_fmap_compose; by apply list_fmap_ext).
  split.
  - intros [? ? ? Hs ?]. apply steps_split in Hs as [? ?]. split; [|done]. constructor; cbn; try done. by rewrite Hn.
  - intros [[? ? ? ? Hd] ?]. cbn in *. rewrite Hn in Hd. constructor; try done. by apply steps_split.
Qed.

Section reconcile.
Context (to_lowercase : Text → Text).
Lemma kept_written c t s : step_ok c → step_ok (set_depends None t) → kept c t s → step_ok (set_depends None s).
Proof.
  intros [] [] (? & ? & ? & ? & ? & ? & ? & ? & ?).
  constructor; cbn in *; by match goal with E : ?f s = _ |- context [?f s] => rewrite E | |- holds _ None => idtac end.
Qed.
Lemma replaced_written new place i d s : step_ok (set_depends None d) → place i <= U64_MAX →
  replaced new place i d s → step_ok (set_depends None s).
Proof.
  intros [] ? (? & ? & ? & ? & ? & ? & ? & ? & ? & ?).
  constructor; cbn in *; by match goal with E : ?f s = _ |- context [?f s] => rewrite E | |- holds _ None => idtac end.
Qed.
Lemma history_written u new place l ks ss :
  Forall3 (λ c (i : nat) s, ∃ t, counterpart to_lowercase new u c i t ∧ kept c t s ∧ place i = number c) l ks ss →
  Forall step_ok l → Forall (step_ok ∘ set_depends None) new → Forall (step_ok ∘ set_depends None) ss.
Proof.
  intros Hall Hl Hnew. induction Hall as [|c i s l ks ss (t & (Ht & _) & Hk & _) _ IH]; [constructor|].
  apply list.Forall_cons in Hl as [Hc Hl]. constructor; [|by apply IH]. apply (kept_written c t s); [done| |done].
  by eapply (list.Forall_lookup_1 _ _ _ _ Hnew).
Qed.
Lemma future_written new place ks ss :
  Forall2 (λ i s, ∃ d, new !! i = Some d ∧ replaced new place i d s) ks ss →
  Forall (λ i, place i <= U64_MAX) ks → Forall (step_ok ∘ set_depends None) new →
  Forall (step_ok ∘ set_depends None) ss.
Proof.
  intros Hall Hks Hnew. induction Hall as [|i s ks ss (d & Hd & Hr) _ IH]; [constructor|].
  apply list.Forall_cons in Hks as [Hi Hks]. constructor; [|by apply IH]. apply (replaced_written new place i d s); [|done|done].
  by eapply (list.Forall_lookup_1 _ _ _ _ Hnew).
Qed.
Lemma reconciled_written old new revision r :
  progress_ok old → written_ok new → highest (steps old) + 1 + N.of_nat (length (steps new)) <= U64_MAX →
  reconcile to_lowercase old new revision = Ok r → written_ok r.
Proof.
  intros [? Hbranch _ Holds Hdist] [Hname _ Hbind Hnews Hnew] Hroom Hr. cbn in *. rewrite list.Forall_fmap in Hnews.
  pose proof (reconcile_outcome to_lowercase old new revision Hroom) as Hk. rewrite Hr in Hk. destruct Hk as (es & place & Hput).
  assert (Hhead : name r = name new ∧ branch r = branch old ∧ brief_binding r = brief_binding new)
    by (by rewrite (put_plan _ _ _ _ _ _ _ Hput)).
  destruct Hhead as (Hn & Hb & Hbi). constructor; cbn; rewrite ?Hn, ?Hb, ?Hbi; try done.
  2: { rewrite <-list_fmap_compose, (list_fmap_ext _ number) by done. by eapply parts_distinct. }
  rewrite list.Forall_fmap, (parts_steps _ _ _ _ _ _ _ Hput). apply list.Forall_app. split.
  - eapply history_written; [by eapply parts_history| |done]. apply list.Forall_forall. intros s [Hs _]%filter_elem.
    by eapply (proj1 (list.Forall_forall _ _) Holds).
  - eapply future_written; [by eapply parts_future| |done]. apply list.Forall_forall. intros i Hi.
    pose proof (num_exact _ _ _ (put_numbered _ _ _ _ _ _ _ Hput)) as Hexact.
    assert (Hp : place i ∈ place <$> rest new es) by by apply list_elem_of_fmap_2.
    unfold rest in Hp. rewrite Hexact in Hp. apply list_elem_of_fmap in Hp as (k & -> & Hk).
    rewrite (carried_finished _ _ _ _ _ _ _ Hput). pose proof (finished_highest old).
    apply elem_of_seq in Hk. pose proof (filter_length_le (uncarried es) (seq 0 (length (steps new)))) as Hlen.
    rewrite length_seq in Hlen. lia.
Qed.
End reconcile.

(** ** Stages *)

(** The last thing shown of a kind. *)
Definition about_plan (s : Shown) : option Shown := match s with ShownPlan _ | ShownConflicts _ _ => Some s | _ => None end.
Definition about_brief (s : Shown) : option Shown := match s with ShownBrief _ => Some s | _ => None end.
Definition about_consent (s : Shown) : option Shown := match s with ShownConsent _ => Some s | _ => None end.
Definition last_shown (about : Shown → option Shown) (l : list Shown) : option Shown := list.last (omap about l).
Lemma last_shown_snoc about l s :
  last_shown about (l ++ [s]) = match about s with Some s => Some s | None => last_shown about l end.
Proof.
  unfold last_shown. rewrite omap_app. cbn. destruct (about s); [by rewrite last_snoc|by rewrite app_nil_r].
Qed.

Section stages.
Context `{Digest}.

Definition plan_ok (d : PlanDraft) : Prop := written_ok (progress d) ∧ ∃ b, brief_revision d = revision_of b.
Definition retry_ok (r : PlanRetry) : Prop :=
  match r with
  | RetryDraft _ revision _ _ | RetryReplan _ revision _ _ _ => ∃ b, revision = revision_of b
  | RetryRevise d _ => plan_ok d
  end.
Definition plan_stage_ok (l : list Shown) (s : PlanStage) : Prop :=
  match s with
  | GeneratingPlan => True
  | ReviewingPlan d => plan_ok d ∧ last_shown about_plan l = Some (ShownPlan d)
  | RevisingPlan d => plan_ok d
  | Conflicted d cs => plan_ok d ∧ last_shown about_plan l = Some (ShownConflicts d cs)
  | PlanFailure r _ => retry_ok r
  end.
Definition brief_read (d : BriefDraft) : Prop := ∃ text, Brief.parse text = Ok (bd_brief d).
Definition target_ok (r : RetryTarget) : Prop := match r with TargetRevision d _ => brief_read d | _ => True end.
Definition brief_stage_ok (l : list Shown) (s : BriefStage) : Prop :=
  match s with
  | AwaitingIdea | Clarifying _ _ _ _ _ _ | GeneratingBrief => True
  | ReviewingBrief d => brief_read d ∧ last_shown about_brief l = Some (ShownBrief d)
  | RevisingBrief d => brief_read d
  | BriefFailure r _ => target_ok r
  end.
Definition stage_ok (l : list Shown) (s : LiveStage) : Prop :=
  match s with
  | LiveBrief s => brief_stage_ok l s
  | LivePlan s => plan_stage_ok l s
  | LiveGuide (ResumeReview c) => last_shown about_consent l = Some (ShownConsent c)
  | LiveGuide _ => True
  end.

(** A turn that runs, runs an attempt that can be made. *)
Lemma turn_ok l stage text : plan_stage_ok l stage →
  match decide_plan_turn stage text with StayPlan s => s = stage | RunPlan r => retry_ok r end.
Proof.
  intros Hs. destruct stage as [|d|d|d cs|[b rev rs wp|b rev rs wp done|d i] detail]; cbn in *; destruct (trim text); cbn; tauto.
Qed.
Lemma turn_in_flight stage text l :
  match decide_plan_turn stage text with
  | StayPlan _ => True
  | RunPlan r => retry_ok r → ∃ s, in_flight_plan_stage (RunPlan r) = Some s ∧ plan_stage_ok l s
  end.
Proof. destruct (decide_plan_turn stage text) as [|[]]; [done|..]; intros Hr; cbn in *; eexists; (split; [done|]); cbn; done. Qed.
Lemma action_ok l stage text : brief_stage_ok l stage →
  match decide_brief_turn stage text with
  | StayBrief s => brief_stage_ok l s
  | action => ∃ r s, target_of action = Some r ∧ in_flight_stage action = Some s ∧ target_ok r ∧ brief_stage_ok l s
  end.
Proof.
  intros Hs. destruct stage as [|idea t a qs pending answers| |d|d|[idea|idea t a qs answers|d i] detail]; cbn in *;
    try destruct pending as [|x [|y pending]]; cbn; destruct (trim text); cbn; naive_solver.
Qed.
End stages.

(** ** The model's plans and briefs *)

Section reads.
Context {W : Type} `{ModelProvider W} `{Digest} (model : Text) (unrunnable_verify_reason : Text → option Text).
Context (axes_from_json : Text → result (list DecisionAxis) Text).

Lemma attempt_read retry w d w' : run_attempt model unrunnable_verify_reason retry w = (Ok d, w') →
  carries retry d ∧ ∃ text p, parse text = Ok p ∧ progress d = bind_to_brief (brief_revision d) p.
Proof.
  intros Hr. destruct (run_listened model unrunnable_verify_reason retry [] w) as (more & _ & Hpost).
  rewrite Hr in Hpost. destruct Hpost as (Hc & p & Hp & _ & _ & _ & earlier & Hplans & _). split; [done|].
  assert (Hin : p ∈ plans more) by (rewrite Hplans; set_solver).
  apply list_elem_of_omap in Hin as (e & _ & He). unfold readable in He.
  destruct (answered e) as [text|]; [|done]. cbn in He. destruct (parse text) as [q|] eqn:Hq; [|done]. injection He as <-. eauto.
Qed.
Lemma attempt_ok retry w d w' : (∀ bytes, hex64 (sha256 bytes)) → retry_ok retry →
  run_attempt model unrunnable_verify_reason retry w = (Ok d, w') → plan_ok d.
Proof.
  intros Hhex Hr Ha. apply attempt_read in Ha as [[_ Hc] (text & p & Hp & Hd)].
  assert (Hb : ∃ b, brief_revision d = revision_of b).
  { destruct retry as [b rev rs wp|b rev rs wp ss|d' i]; cbn in *; destruct Hc as (-> & _); [done..|]. by destruct Hr. }
  destruct Hb as [b Hb]. split; [|by exists b]. rewrite Hd.
  eapply proj1, written_split, bound_ok; [by eapply read_can_be_written|]. rewrite Hb. by apply revision_written.
Qed.

Lemma drafted_read m idea guidance w d w' : draft_from m idea guidance w = (Ok (Drafted d), w') → brief_read d.
Proof.
  unfold draft_from, run_intake. destruct (generate _ _ _ _ _) as [[b|e] w1] eqn:Hg; [|done]. intros [= <- _].
  by eapply generate_read.
Qed.
Lemma target_read env retry w d w' : run_target axes_from_json env retry w = (Ok (Drafted d), w') → brief_read d.
Proof.
  destruct retry as [idea|idea t a qs answers|draft i]; cbn [run_target].
  - unfold draft_brief. destruct (guidance env) as [gate|]; [|apply drafted_read].
    destruct (assess_guidance _ _ _ _) as [[a|e] w1]; [|done]. destruct (f32_leb _ _); [apply drafted_read|done].
  - unfold drafted_outcome, draft_with_answers, run_intake. intros Ht.
    destruct (match answers with [] => _ | _ => _ end) as [[[[input rescore] assumed]|e] w1]; [|done].
    destruct (generate _ _ _ _ w1) as [[b|e] w2] eqn:Hg; [|done]. injection Ht as <- _. by eapply generate_read.
  - unfold drafted_outcome, revise_brief. destruct (generate _ _ _ _ _) as [[b|e] w1] eqn:Hg; [|done]. intros [= <- _].
    by eapply generate_read.
Qed.
End reads.

(** ** Sessions *)

Section session.
Context {D : Type} `{Countable D} `{Digest} (to_lowercase : Text → Text) (root localpilot_dir : D).
Context {W : Type} `{ModelProvider W}.
Context (axes_from_json : Text → result (list DecisionAxis) Text) (unrunnable_verify_reason : Text → option Text).
Context (json_f32 : f32 → Json) (json_text : Json → Text).
Context (Hhex : ∀ bytes, hex64 (sha256 bytes)).
Abbreviation Files := (gmap (D * Text) Bytes).
Abbreviation World := (Conversation.World (D := D) (W := W)).
Abbreviation Meanwhile := (Conversation.Meanwhile (D := D) (W := W)).
Abbreviation look := (Conversation.look root).
Abbreviation run_plan_turn := (Conversation.run_plan_turn to_lowercase root unrunnable_verify_reason).
Abbreviation run_stage_action := (Conversation.run_stage_action axes_from_json).
Abbreviation drive_stage_input :=
  (Conversation.drive_stage_input to_lowercase root axes_from_json unrunnable_verify_reason).
Abbreviation start_plan_conversation := (Conversation.start_plan_conversation to_lowercase root unrunnable_verify_reason).
Abbreviation drive_harness_plan :=
  (Conversation.drive_harness_plan to_lowercase root axes_from_json unrunnable_verify_reason).
Abbreviation drive_harness_brief :=
  (Conversation.drive_harness_brief to_lowercase root localpilot_dir axes_from_json unrunnable_verify_reason json_f32 json_text).
Abbreviation drive_harness_intake :=
  (Conversation.drive_harness_intake to_lowercase root axes_from_json unrunnable_verify_reason).
Abbreviation guide :=
  (Conversation.guide to_lowercase root axes_from_json unrunnable_verify_reason).
Abbreviation guide_input :=
  (Conversation.guide_input to_lowercase root localpilot_dir axes_from_json unrunnable_verify_reason json_f32 json_text).
Abbreviation go_on := (Conversation.go_on to_lowercase root axes_from_json unrunnable_verify_reason).
Abbreviation perform :=
  (Conversation.perform to_lowercase root localpilot_dir axes_from_json unrunnable_verify_reason json_f32 json_text).

(** The files a command may find when its model call is over: those put there by
    others, or some whose PROGRESS.md is as it was or is the plan under review. *)
Definition found_then (m : Meanwhile) (w : World) (fs : Files) : Prop :=
  files_then m = Some fs ∨ fs !! plan_path root = files w !! plan_path root ∨
  ∃ d, live_plan (host w) = Some (ReviewingPlan d) ∧
    fs !! plan_path root = Some (encode (render (bind_to_brief (brief_revision d) (progress d)))).
(** No plan the model may send now is so long, beside the one it meets, that
    numbering its steps overflows. *)
Definition room (env : Env) (m : Meanwhile) (w : World) : Prop :=
  ∀ retry d fs saved, found_then m w fs → (run_attempt (active_model env) unrunnable_verify_reason retry (provider w)).1 = Ok d →
    state_progress (look env fs) = Some saved →
    highest (steps saved) + 1 + N.of_nat (length (steps (progress d))) <= U64_MAX.
Lemma room_moves env (m : Meanwhile) (w w' : World) : files w' !! plan_path root = files w !! plan_path root →
  provider w' = provider w →
  (∀ d, live_plan (host w') = Some (ReviewingPlan d) → live_plan (host w) = Some (ReviewingPlan d)) →
  room env m w → room env m w'.
Proof.
  intros Hf Hp Hl Hroom retry d fs saved Hfound. rewrite Hp. eapply Hroom.
  destruct Hfound as [?|[?|(d' & ? & ?)]]; [by left|right; left; congruence|]. right. right. exists d'. auto.
Qed.

Definition stages_ok (w : World) : Prop := ∀ g s, live (host w) = Some (g, s) → stage_ok (shown w) s.
(** Every world a session can reach. *)
Inductive reachable : World → Prop :=
  | opened fs p : reachable (mkWorld fs host_new [] p)
  | performed w env m c : reachable w → room env m w → reachable (perform env m c w).2
  | changed w fs : reachable w → reachable (mkWorld fs (host w) (shown w) (provider w)).

Lemma saved_parsed env fs saved : state_progress (look env fs) = Some saved → progress_ok saved.
Proof.
  unfold Conversation.look. cbn [inspect documents]. unfold inspect_documents.
  destruct (read_document _ (reads_brief _) _) as [|text|]; [done| |done].
  destruct (Brief.parse text) as [b|]; [|done].
  destruct (read_document _ (reads_plan _) _) as [|text'|]; [done| |done].
  destruct (parse text') as [p|] eqn:Hp; [|done]. apply read_can_be_written in Hp.
  destruct (brief_binding p) as [r|]; [|by intros [= <-]].
  destruct (classify _ _); [|by intros [= <-]..]. by destruct (next_incomplete p); intros [= <-].
Qed.

Lemma reconciled_ok env fs d : plan_ok d →
  (∀ saved, state_progress (look env fs) = Some saved →
     highest (steps saved) + 1 + N.of_nat (length (steps (progress d))) <= U64_MAX) →
  match reconcile_against_saved to_lowercase root env fs d with Ok d => plan_ok d | Err (d, _) => plan_ok d end.
Proof.
  intros Hd Hroom. unfold reconcile_against_saved.
  destruct (state_progress _) as [saved|] eqn:Hs; [|done]. destruct (negb _); [done|].
  destruct (reconcile _ _ _ _) as [p|cs] eqn:Hr; [|done]. destruct Hd as [Hw Hb]. split; [|done].
  eapply reconciled_written; [by eapply saved_parsed|done|by apply Hroom|done].
Qed.

Lemma plan_turn_ok env m retry w : retry_ok retry → room env m w →
  plan_stage_ok (shown (run_plan_turn env m retry w).2) (run_plan_turn env m retry w).1.
Proof.
  intros Hr Hroom. unfold Conversation.run_plan_turn, call. destruct (cut_short m) as [w0|]; [done|].
  destruct (run_attempt _ _ _ _) as [[d|e] w'] eqn:Ha; [|done]. assert (Hd : plan_ok d) by by eapply attempt_ok.
  cbn [files]. pose proof (reconciled_ok env (default (files w) (files_then m)) d Hd) as Ho.
  assert (Hnow : found_then m w (default (files w) (files_then m))) 
    by (unfold found_then; destruct (files_then m); [by left|by right; left]).
  destruct (reconcile_against_saved _ _ _ _ _) as [d'|[d' cs]]; cbn; rewrite last_shown_snoc; cbn;
    (split; [|done]); apply Ho; intros saved Hs; eapply Hroom; try done; by rewrite Ha.
Qed.
Lemma brief_action_ok env (m : Meanwhile) retry (w : World) : target_ok retry →
  brief_stage_ok (shown (run_stage_action env m retry w).2) (run_stage_action env m retry w).1.
Proof.
  intros Hr. unfold Conversation.run_stage_action, call. destruct (cut_short m) as [w0|]; [done|].
  destruct (run_target _ _ _ _) as [[[d|a open qs]|e] w'] eqn:Ha; [| |done].
  - cbn. rewrite last_shown_snoc. split; [|done]. by eapply target_read.
  - by destruct (leg_of env retry).
Qed.

Lemma ended_ok o (w : World) : stages_ok (on_host (end_live o) w).
Proof. intros g s. unfold on_host, end_live. cbn. by destruct (live (host w)) as [[? ?]|] eqn:Hl; cbn; rewrite ?Hl. Qed.
Lemma no_change_ok o (w : World) : stages_ok (on_host (λ h, match live h with Some _ => end_live o h | None => h end) w).
Proof. intros g s. unfold on_host, end_live. cbn. destruct (live (host w)) as [[? ?]|] eqn:Hl; cbn; [done|by rewrite Hl]. Qed.
Lemma begun_ok s (w : World) : stage_ok (shown w) s → stages_ok (start s w).2.
Proof.
  intros Hs g s'. unfold start. destruct (begin s (host w)) as [g' h] eqn:Hb. cbn.
  unfold begin in Hb. injection Hb as <- <-. cbn. by intros [= _ <-].
Qed.
Lemma started s (w : World) :
  files (start s w).2 = files w ∧ provider (start s w).2 = provider w ∧ shown (start s w).2 = shown w ∧
  live (host (start s w).2) = Some ((start s w).1, s).
Proof. unfold start. by destruct (begin s (host w)) as [g' h] eqn:Hb; unfold begin in Hb; injection Hb as <- <-. Qed.
Lemma published_ok g s (w : World) : stage_ok (shown w) s → stages_ok (publish g s w).
Proof. intros Hs g' s'. cbn. by intros [= _ <-]. Qed.
Lemma settled_ok (m : Meanwhile) g s (w : World) : stage_ok (shown w) s → stages_ok (settle_call m g s w).
Proof.
  intros Hs. unfold settle_call. destruct (stop_requested m); [|by apply published_ok]. by intros g' s'.
Qed.

Lemma in_flight_room env (m : Meanwhile) r f g (w : World) : in_flight_plan_stage (RunPlan r) = Some f →
  room env m w → room env m (publish g (LivePlan f) w).
Proof. intros Hf. apply room_moves; [done|done|]. intros d [= ->]. by destruct r. Qed.
Lemma start_room env (m : Meanwhile) s (w : World) : (∀ d, s ≠ LivePlan (ReviewingPlan d)) → room env m w → room env m (start s w).2.
Proof.
  intros Hs. pose proof (started s w) as (Hf & Hp & _ & Hl). apply room_moves; [by rewrite Hf|done|].
  intros d. unfold live_plan. rewrite Hl. destruct s as [|p|]; try done. intros [= ->]. by destruct (Hs d).
Qed.
Lemma ended_room env (m : Meanwhile) o (w : World) : room env m w → room env m (on_host (end_live o) w).
Proof. apply room_moves; [done|done|]. intros d. unfold on_host, end_live, live_plan. cbn. by destruct (live (host w)) as [[g s]|] eqn:Hl; cbn; rewrite ?Hl. Qed.
Lemma input_ok env (m : Meanwhile) g text (w : World) : stages_ok w → room env m w → stages_ok (drive_stage_input env m g text w).
Proof.
  intros Hw Hroom. unfold Conversation.drive_stage_input. destruct (negb _); [done|].
  destruct (live (host w)) as [[g' [s|s|s]]|] eqn:Hl; [| |done..]; pose proof (Hw _ _ Hl) as Hs; cbn in Hs.
  - pose proof (action_ok (shown w) s text Hs) as Ha. cbv zeta.
    assert (Hrun : ∀ r f, target_ok r → brief_stage_ok (shown w) f →
      stages_ok (let '(next, w') := run_stage_action env m r (publish g (LiveBrief f) w) in settle_call m g (LiveBrief next) w')).
    { intros r f Hr Hf. pose proof (brief_action_ok env m r (publish g (LiveBrief f) w) Hr) as Hn.
      destruct (run_stage_action _ _ _ _) as [next w']. by apply settled_ok. }
    destruct (decide_brief_turn s text) as [s'| | |] eqn:Hd; cbn [in_flight_stage target_of] in *.
    { apply published_ok. destruct s'; cbn; try done. cbn in Ha. rewrite last_shown_snoc. by destruct Ha. }
    all: destruct Ha as (r & f & [= <-] & [= <-] & ? & ?); by apply Hrun.
  - pose proof (turn_ok (shown w) s text Hs) as Ht. pose proof (turn_in_flight s text (shown w)) as Hf. cbv zeta.
    destruct (decide_plan_turn s text) as [s'|r]; [subst s'; by apply published_ok|].
    destruct (Hf Ht) as (f & Hin & _). rewrite Hin.
    pose proof (plan_turn_ok env m r (publish g (LivePlan f) w) Ht (in_flight_room env m r f g w Hin Hroom)) as Hn.
    destruct (run_plan_turn _ _ _ _) as [next w']. by apply settled_ok.
Qed.
Lemma intake_ok env (m : Meanwhile) idea (w : World) : room env m w → stages_ok (drive_harness_intake env m idea w).
Proof.
  intros Hroom. unfold Conversation.drive_harness_intake.
  pose proof (begun_ok (LiveBrief AwaitingIdea) w I) as Hs. pose proof (start_room env m (LiveBrief AwaitingIdea) w ltac:(done) Hroom) as Hr.
  destruct (start _ w) as [g w']. destruct idea as [idea|]; [|done]. by apply input_ok.
Qed.
(** What is found on disk. *)
Lemma found_brief env fs b : state_brief (look env fs) = Some b → read_brief root fs (reads env) = Ok b.
Proof.
  unfold Conversation.look, read_brief. cbn [inspect documents]. unfold inspect_documents.
  destruct (read_document _ (reads_brief _) _) as [|text|]; [done| |done].
  destruct (Brief.parse text) as [b'|]; [|done].
  destruct (read_document _ (reads_plan _) _) as [|text'|]; [by intros [= <-]| |by intros [= <-]].
  destruct (parse text') as [p|]; [|by intros [= <-]].
  destruct (brief_binding p) as [r|]; [|by intros [= <-]].
  destruct (classify _ _); [|by intros [= <-]..]. by destruct (next_incomplete p); intros [= <-].
Qed.
Lemma read_brief_parsed fs r b : read_brief root fs r = Ok b → ∃ text, Brief.parse text = Ok b.
Proof.
  unfold read_brief. destruct (read_document _ _ _) as [|text|]; [done| |done].
  destruct (Brief.parse text) as [b'|] eqn:Hp; [|done]. intros [= <-]. by exists text.
Qed.
Lemma about_ok s about d g (w : World) : live (host w) = Some (g, s) → about d = Some d →
  (∀ l, last_shown about l = Some d → stage_ok l s) → stages_ok (show d w).
Proof. intros Hl Ha Hs g' s'. cbn. rewrite Hl. intros [= _ <-]. apply Hs. by rewrite last_shown_snoc, Ha. Qed.

Lemma open_brief_ok env (w : World) : stages_ok w → stages_ok (open_saved_brief_for_review root env w).
Proof.
  intros Hw. unfold open_saved_brief_for_review. destruct (state_brief _) as [b|] eqn:Hb; [|done].
  apply found_brief, read_brief_parsed in Hb. set (d := mkBriefDraft _ _ _ _ _).
  pose proof (started (LiveBrief (ReviewingBrief d)) w) as (_ & _ & _ & Hl).
  eapply (about_ok _ about_brief); [done|done|]. intros l Hs. by split.
Qed.
Lemma brief_command_ok env (m : Meanwhile) action (w : World) :
  stages_ok w → room env m w → stages_ok (drive_harness_brief env m action w).
Proof.
  intros Hw Hroom. unfold Conversation.drive_harness_brief. destruct (_ && _); [done|].
  destruct action; [| apply no_change_ok | | apply ended_ok | | apply ended_ok].
  - destruct (live_brief (host w)) as [[| | |d|d|r detail]|] eqn:Hl; try by apply open_brief_ok.
    + unfold live_brief in Hl. destruct (live (host w)) as [[g [s|s|s]]|] eqn:Hlive; try done. injection Hl as ->.
      eapply (about_ok _ about_brief); [done|done|]. intros l Hs. split; [|done]. by destruct (Hw _ _ Hlive).
    + destruct (live_generation (host w)) as [g|]; [by apply input_ok|by apply open_brief_ok].
  - destruct (live_brief (host w)) as [[| | |d|d|r detail]|] eqn:Hl; try done.
    unfold approve_brief_draft. destruct (persist_approved _ _ _ _ _ _ _ _ _ _) as [[trace c] res].
    assert (Hsame : ∀ fs, stages_ok (mkWorld fs (host w) (shown w) (provider w))) by done.
    destruct res as [[]|[e|e]]; [apply ended_ok|apply Hsame|apply ended_ok].
  - destruct (live_brief (host w) ≫= idea_of) as [idea|]; [|done].
    by apply (intake_ok env m (Some idea)).
Qed.

(** Starting to plan. *)
Lemma begin_plan_ok env (m : Meanwhile) state retry (w : World) : retry_ok retry → room env m w →
  stages_ok (begin_plan to_lowercase root unrunnable_verify_reason env m state retry w).
Proof.
  intros Hr Hroom. unfold begin_plan. pose proof (start_room env m (LivePlan GeneratingPlan) w ltac:(done) Hroom) as Hroom1.
  destruct (start _ w) as [g w']. set (w2 := publish _ _ _).
  assert (Hroom2 : room env m w2) by (apply (room_moves env m w' w2); [done|done|by intros d [=]|done]).
  pose proof (plan_turn_ok env m retry w2 Hr Hroom2) as Hn. destruct (run_plan_turn _ _ _ _) as [next w3]. by apply settled_ok.
Qed.
Lemma start_plan_ok env (m : Meanwhile) entry (w : World) : stages_ok w → room env m w → stages_ok (start_plan_conversation env m entry w).
Proof.
  intros Hw Hroom. unfold Conversation.start_plan_conversation. destruct (bool_decide _); [done|].
  destruct (negb _); [done|]. destruct (state_brief _) as [b|] eqn:Hb; [|done].
  destruct entry; destruct (state_progress _) as [p|] eqn:Hp; try done.
  - unfold open_saved_plan_for_review. set (d := mkDraft _ _ _ _ _).
    pose proof (started (LivePlan (ReviewingPlan d)) w) as (_ & _ & _ & Hl).
    eapply (about_ok (LivePlan (ReviewingPlan d)) about_plan); [cbn; exact Hl|done|]. intros l Hs. split; [|done].
    split; [|by exists b]. eapply proj1, written_split, saved_parsed, Hp.
  - apply begin_plan_ok; [|done]. by exists b.
  - apply begin_plan_ok; [|done]. by exists b.
Qed.
Lemma plan_command_ok env (m : Meanwhile) entry action (w : World) :
  stages_ok w → room env m w → stages_ok (drive_harness_plan env m entry action w).
Proof.
  intros Hw Hroom. unfold Conversation.drive_harness_plan. destruct (bool_decide _); [done|].
  destruct action; [| apply no_change_ok | | apply ended_ok | | apply ended_ok].
  - destruct (live_plan (host w)) as [[|d|d|d cs|r detail]|] eqn:Hl; try by apply start_plan_ok.
    1,2: unfold live_plan in Hl; destruct (live (host w)) as [[g [s|s|s]]|] eqn:Hlive; try done; injection Hl as ->;
      eapply (about_ok _ about_plan); [done|done|]; intros l Hs; split; [|done]; by destruct (Hw _ _ Hlive).
    destruct (live_generation (host w)) as [g|]; [by apply input_ok|by apply start_plan_ok].
  - destruct (live_plan (host w)) as [[|d|d|d cs|r detail]|] eqn:Hl; try done.
    unfold approve_plan_draft. destruct (state_brief _) as [b|]; [|done]. destruct (negb _); [done|].
    destruct (persist_approved_plan _ _ _ _ _ _ _ _ _ _) as [[trace c] res].
    assert (Hsame : ∀ fs, stages_ok (mkWorld fs (host w) (shown w) (provider w))) by done.
    destruct res as [[]|e]; [apply ended_ok|apply Hsame].
  - destruct (live_plan (host w)); [|done]. by apply start_plan_ok.
Qed.

(** The guide. *)
Lemma offer_ok env (w : World) : stages_ok w → stages_ok (offer_resume root env w).
Proof.
  intros Hw. unfold offer_resume. destruct (resumable _); [|by apply begun_ok]. destruct (capture _ _ _) as [c|]; [|done].
  pose proof (started (LiveGuide (ResumeReview c)) w) as (_ & _ & _ & Hl). by eapply (about_ok _ about_consent).
Qed.
Lemma confirm_resume_ok env (m : Meanwhile) (w : World) : stages_ok w → stages_ok (confirm_resume root env m w).2.
Proof.
  intros Hw. unfold confirm_resume. destruct (incognito env); [done|]. destruct (bool_decide _); [done|].
  destruct (bool_decide _); [|by apply offer_ok]. destruct (init_git_workspace _ _) as [fs [ready|]]; [apply ended_ok|done].
Qed.
Lemma run_over_ok (m : Meanwhile) (w : World) : stages_ok w → stages_ok (run_over m w).
Proof. unfold run_over. by destruct (stop_requested m). Qed.
Lemma wait_ok env (m : Meanwhile) (w : World) : stages_ok w → stages_ok (wait_resume root env m w).2.
Proof.
  intros Hw. unfold wait_resume. destruct (incognito env); [done|].
  destruct (paused m) as [run|]; [|by apply run_over_ok]. destruct (resumable _); [|by apply run_over_ok]. cbv zeta.
  destruct (wait_loop _ _ _) as [[|[]]|]; try by apply run_over_ok. by destruct (resumable _); [|apply run_over_ok].
Qed.
Lemma feature_ok env (m : Meanwhile) description (w : World) : stages_ok w → stages_ok (add_feature root env m description w).
Proof.
  intros Hw. unfold add_feature. destruct (bool_decide _); [done|].
  pose proof (ended_ok Superseded w) as He. by destruct (feature _ _ _ _ _ _).
Qed.
Lemma guide_ok env (m : Meanwhile) after (w : World) : stages_ok w → room env m w → stages_ok (guide env m after w).
Proof.
  intros Hw Hroom. unfold Conversation.guide. set (w1 := on_host _ w).
  assert (Hw1 : stages_ok w1) by done. assert (Hroom1 : room env m w1) by by apply (room_moves env m w w1).
  destruct (_ && _); [done|]. assert (Ho : stages_ok (start (LiveGuide Options) w1).2) by by apply begun_ok.
  destruct (state_brief _), after; try by apply begun_ok.
  all: destruct (look env (files w1)); try done; by first [apply intake_ok|apply plan_command_ok|apply offer_ok].
Qed.
Lemma guide_input_ok env (m : Meanwhile) g text (w : World) : stages_ok w → room env m w → stages_ok (guide_input env m g text w).2.
Proof.
  intros Hw Hroom. unfold Conversation.guide_input. destruct (live (host w)) as [[g' [s|s|s]]|] eqn:Hl; try done.
  destruct (negb _); [done|]. cbv zeta.
  assert (Hagain : ∀ o after, stages_ok (guide env m after (on_host (end_live o) w))) by (intros; by apply guide_ok; [apply ended_ok|apply ended_room]).
  destruct s as [revision|c|].
  - destruct (negb _); [apply Hagain|]. destruct (_ || _); [apply Hagain|]. destruct (_ || _); [done|]. cbn [snd].
    assert (Hbrief : stages_ok (drive_harness_brief env m Show w)) by by apply brief_command_ok.
    destruct (live_generation _) as [next|]; [|done]. apply input_ok; [done|].
    assert (Hlb : live_brief (host w) = None) by (unfold live_brief; by rewrite Hl).
    assert (Hlp : live_plan (host w) = None) by (unfold live_plan; by rewrite Hl).
    unfold Conversation.drive_harness_brief. rewrite Hlb, Hlp. cbn [andb negb]. rewrite andb_false_r.
    unfold open_saved_brief_for_review. destruct (state_brief _) as [b|]; [|done].
    set (d := mkBriefDraft _ _ _ _ _). apply (room_moves env m (start (LiveBrief (ReviewingBrief d)) w).2); [done..|].
    by apply start_room.
  - destruct (_ || _); [by apply confirm_resume_ok|done].
  - destruct (eq_ignore_ascii_case _ _); [apply Hagain|done].
Qed.

(** Going on after a decision. *)
Lemma idle_live (w : World) : idle w = true → live (host w) = None.
Proof. unfold idle. by destruct (live (host w)). Qed.
Lemma leave_ok action (w : World) : stages_ok w → stages_ok (leave_guide action w).
Proof. unfold leave_guide. by destruct (_ && _). Qed.
Lemma go_on_ok env (m : Meanwhile) decided (w : World) : stages_ok w → (idle w = true → decided = true → room env m w) →
  stages_ok (go_on env m decided w).
Proof.
  intros Hw Hroom. unfold Conversation.go_on. destruct (guided _ && _ && _) eqn:Hd; [|done].
  apply andb_true_iff in Hd as [[_ Hi]%andb_true_iff Hdec]. apply guide_ok; auto.
Qed.
Lemma brief_approved (m : Meanwhile) d (w : World) : live (host (approve_brief_draft root localpilot_dir json_f32 json_text m d w)) = None →
  live (host w) = None ∨ files (approve_brief_draft root localpilot_dir json_f32 json_text m d w) !! plan_path root = files w !! plan_path root.
Proof.
  unfold approve_brief_draft, Intake.persist_approved. set (bytes := encode _).
  pose proof (atomic_write_outcome (files w) (brief_io m) (brief_path root) bytes (pid m) (counter m)) as Ho.
  destruct (atomic_write _ _ _ _ _ _) as [[tr k] written]. destruct Ho as (_ & st & rest & -> & Hres).
  destruct written as [[]|e]; [|by left]. subst st.
  set (record := intake_record _ _). cbn [default head]. set (st := <[brief_path root := bytes]> (files w)).
  pose proof (record_outcome localpilot_dir json_text st (record_io m) record) as Hr. cbv zeta in Hr.
  destruct (append_intake_record _ _ _ _ _) as [more appended]. destruct Hr as (Hall & st' & rest' & -> & _).
  apply list.Forall_cons in Hall as [(text & _ & Hst) _]. intros _. right.
  assert (Hplan : st' !! plan_path root = files w !! plan_path root).
  { assert (Hb : brief_path root ≠ plan_path root) by (intros [= ?]; done).
    assert (Hi : intake_path localpilot_dir ≠ plan_path root) by (intros [= ?]; done).
    destruct Hst as [->| ->]; unfold st; by rewrite ?lookup_insert_ne by done. }
  destruct appended as [[]|e]; exact Hplan.
Qed.
Lemma brief_decided_room env (m : Meanwhile) action (w : World) :
  action = Approve ∨ action = NoChange → room env m w → idle (drive_harness_brief env m action w) = true →
  room env m (drive_harness_brief env m action w).
Proof.
  intros Ha Hroom Hi%idle_live. unfold Conversation.drive_harness_brief in *. destruct (_ && _); [done|].
  destruct Ha as [-> | ->].
  - destruct (live_brief (host w)) as [[| | |d|d|r detail]|] eqn:Hl; try done.
    destruct (brief_approved m d w Hi) as [Hn|Hp]; [unfold live_brief in Hl; by rewrite Hn in Hl|].
    apply (room_moves env m w); [done| | |done].
    + unfold approve_brief_draft. destruct (Intake.persist_approved _ _ _ _ _ _ _ _ _ _) as [[tr k] res]. by destruct res as [[]|[]].
    + intros d'. unfold live_plan. by rewrite Hi.
  - apply (room_moves env m w); [done|done| |done]. intros d'. unfold live_plan. by rewrite Hi.
Qed.
Lemma plan_decided_room env (m : Meanwhile) entry (w : World) :
  room env m w → idle (drive_harness_plan env m entry Approve w) = true → room env m (drive_harness_plan env m entry Approve w).
Proof.
  intros Hroom Hi%idle_live. unfold Conversation.drive_harness_plan in *. destruct (bool_decide _); [done|].
  destruct (live_plan (host w)) as [[|d|d|d cs|r detail]|] eqn:Hl; try done.
  unfold approve_plan_draft in *. destruct (state_brief _) as [b|]; [|done]. destruct (negb _); [done|].
  unfold Project.persist_approved_plan in *.
  destruct (approve_draft _ _ _ _ _ _ _) as [text|e] eqn:Ha; [|done].
  apply approve_passed in Ha as [-> _ _ _ _ _]. cbn [brief_revision progress capped] in *. set (bytes := encode _) in *.
  pose proof (atomic_write_outcome (files w) (plan_io m) (plan_path root) bytes (pid m) (counter m)) as Ho.
  destruct (atomic_write _ _ _ _ _ _) as [[tr k] written]. destruct Ho as (_ & st & rest & -> & Hres).
  destruct written as [[]|e].
  2: { cbn in Hi. unfold live_plan in Hl. by rewrite Hi in Hl. }
  subst st. intros retry d' fs saved Hfound. apply (Hroom retry d' fs saved). 
  assert (Hi' : live_plan (end_live Approved (host w)) = None) by (unfold live_plan; cbn in Hi; by rewrite Hi).
  unfold found_then in Hfound. cbn in Hfound. rewrite Hi' in Hfound.
  destruct Hfound as [?|[Hp|(? & ? & _)]]; [by left| |done]. right. right. exists d. split; [done|].
  rewrite Hp. by rewrite lookup_insert_eq.
Qed.

Ltac what_it_does := cbn [Conversation.perform]; unfold Conversation.stage_prompt, leave, stop; cbn [snd].

Lemma perform_ok env (m : Meanwhile) c (w : World) : stages_ok w → room env m w → stages_ok (perform env m c w).2.
Proof.
  intros Hw Hroom. destruct c as [g text|idea|action|entry action| | | | |description|stays|]; what_it_does.
  - destruct (live (host w)) as [[g' [s|s|s]]|] eqn:Hl; [by apply input_ok..| |by apply input_ok].
    destruct (_ =? _); [by apply guide_input_ok|by apply input_ok].
  - by apply intake_ok.
  - apply leave_ok, go_on_ok; [by apply brief_command_ok|]. intros Hi Hd. apply brief_decided_room; [|done|done].
    destruct action; try done; auto.
  - apply leave_ok, go_on_ok; [by apply plan_command_ok|]. intros Hi Hd. destruct action; try done. by apply plan_decided_room.
  - by apply guide_ok.
  - by apply confirm_resume_ok.
  - by apply wait_ok.
  - by apply run_over_ok.
  - by apply feature_ok.
  - assert (He : stages_ok (on_host end_stage_conversation w)).
    { intros g s. unfold on_host, end_stage_conversation. cbn.
      destruct (live (host w)) as [[g' s']|] eqn:Hl; [unfold end_live; by rewrite Hl|by rewrite Hl]. }
    by destruct stays.
  - destruct (idle w); [done|]. intros g s. unfold on_host, end_stage_conversation. cbn.
    destruct (live (host w)) as [[g' s']|] eqn:Hl; [unfold end_live; by rewrite Hl|by rewrite Hl].
Qed.
Lemma reachable_ok (w : World) : reachable w → stages_ok w.
Proof.
  induction 1 as [fs p|w env m c _ IH Hroom|w fs _ IH]; [done| |done]. by apply perform_ok.
Qed.

(** ** What is written *)

(** Nothing was written by the command; the world may have been at work during its
    model call. *)
Definition left_as (m : Meanwhile) (fs fs' : Files) : Prop := fs' = fs ∨ fs' = default fs (files_then m).
Definition unwritten (m : Meanwhile) (w w' : World) : Prop := left_as m (files w) (files w').
Lemma called_unwritten {A} (m : Meanwhile) (run : W → A * W) (w : World) : files (call m run w).2 = default (files w) (files_then m).
Proof. unfold call. destruct (cut_short m); [done|]. by destruct (run (provider w)). Qed.
Lemma settled_files (m : Meanwhile) g s (w : World) : files (settle_call m g s w) = files w.
Proof. unfold settle_call. by destruct (stop_requested m). Qed.
Lemma plan_turn_files env (m : Meanwhile) retry (w : World) : files (run_plan_turn env m retry w).2 = default (files w) (files_then m).
Proof.
  unfold Conversation.run_plan_turn. pose proof (called_unwritten m (run_attempt (active_model env) unrunnable_verify_reason retry) w) as Hc.
  destruct (call _ _ w) as [[[d|e]|] w']; [|done..]. by destruct (reconcile_against_saved _ _ _ _ _) as [|[]].
Qed.
Lemma brief_action_files env (m : Meanwhile) retry (w : World) : files (run_stage_action env m retry w).2 = default (files w) (files_then m).
Proof.
  unfold Conversation.run_stage_action. pose proof (called_unwritten m (run_target axes_from_json env retry) w) as Hc.
  destruct (call _ _ w) as [[[[d|a open qs]|e]|] w']; [done| |done..]. by destruct (leg_of env retry).
Qed.
Lemma input_files env (m : Meanwhile) g text (w : World) : unwritten m w (drive_stage_input env m g text w).
Proof.
  unfold Conversation.drive_stage_input, unwritten, left_as. destruct (negb _); [by left|].
  destruct (live (host w)) as [[g' [s|s|s]]|]; [| |by left..]; cbv zeta.
  - assert (Hrun : ∀ f r, files (let '(next, w') := run_stage_action env m r (publish g (LiveBrief f) w) in
      settle_call m g (LiveBrief next) w') = default (files w) (files_then m)).
    { intros f r. pose proof (brief_action_files env m r (publish g (LiveBrief f) w)) as Hf.
      destruct (run_stage_action _ _ _ _) as [next w']. by rewrite settled_files. }
    destruct (decide_brief_turn s text) as [s'| | |]; cbn [in_flight_stage target_of];
      [left; by destruct s'|right; apply Hrun..].
  - destruct (decide_plan_turn s text) as [s'|r]; [by left|]. destruct (in_flight_plan_stage _) as [f|]; [right|by left].
    pose proof (plan_turn_files env m r (publish g (LivePlan f) w)) as Hf.
    destruct (run_plan_turn _ _ _ _) as [next w']. by rewrite settled_files.
Qed.
Lemma start_files s (w : World) : files (start s w).2 = files w.
Proof. by destruct (started s w). Qed.
Lemma intake_files env (m : Meanwhile) idea (w : World) : unwritten m w (drive_harness_intake env m idea w).
Proof.
  unfold Conversation.drive_harness_intake. pose proof (start_files (LiveBrief AwaitingIdea) w) as Hf.
  destruct (start _ w) as [g w']. destruct idea as [idea|]; [|by left].
  pose proof (input_files env m g idea w') as Hi. unfold unwritten, left_as in *. cbn in Hf. by rewrite Hf in Hi.
Qed.
Lemma open_brief_files env (w : World) : files (open_saved_brief_for_review root env w) = files w.
Proof. unfold open_saved_brief_for_review. destruct (state_brief _); [|done]. apply start_files. Qed.
Lemma start_plan_files env (m : Meanwhile) entry (w : World) : unwritten m w (start_plan_conversation env m entry w).
Proof.
  assert (Hbegin : ∀ state retry, unwritten m w (begin_plan to_lowercase root unrunnable_verify_reason env m state retry w)).
  { intros state retry. unfold begin_plan. pose proof (start_files (LivePlan GeneratingPlan) w) as Hf.
    destruct (start _ w) as [g w']. set (w2 := publish _ _ _). pose proof (plan_turn_files env m retry w2) as Hp.
    destruct (run_plan_turn _ _ _ _) as [next w3]. right. rewrite settled_files. cbn in *. by rewrite Hp, Hf. }
  unfold Conversation.start_plan_conversation. destruct (bool_decide _); [by left|].
  destruct (negb _); [by left|]. destruct (state_brief _) as [b|]; [|by left].
  destruct entry; destruct (state_progress _) as [p|]; auto; [|by left]. left. apply start_files.
Qed.
Lemma plan_command_files env (m : Meanwhile) entry action (w : World) : action ≠ Approve →
  unwritten m w (drive_harness_plan env m entry action w).
Proof.
  intros Ha. unfold Conversation.drive_harness_plan. destruct (bool_decide _); [by left|]. destruct action; try done; try by left.
  - destruct (live_plan (host w)) as [[|d|d|d cs|r detail]|]; try apply start_plan_files; [by left..|].
    destruct (live_generation (host w)); [apply input_files|apply start_plan_files].
  - destruct (live_plan (host w)); [apply start_plan_files|by left].
Qed.
Lemma brief_command_files env (m : Meanwhile) action (w : World) : action ≠ Approve →
  unwritten m w (drive_harness_brief env m action w).
Proof.
  intros Ha. unfold Conversation.drive_harness_brief. destruct (_ && _); [by left|]. destruct action; try done; try by left.
  - destruct (live_brief (host w)) as [[| | |d|d|r detail]|]; try (left; apply open_brief_files); [by left|].
    destruct (live_generation (host w)); [apply input_files|left; apply open_brief_files].
  - destruct (live_brief (host w) ≫= idea_of) as [idea|]; [|by left]. apply (intake_files env m (Some idea)).
Qed.
Lemma offer_files env (w : World) : files (offer_resume root env w) = files w.
Proof. unfold offer_resume. destruct (resumable _); [destruct (capture _ _ _); [|done]|]; apply start_files. Qed.
Lemma guide_files env (m : Meanwhile) after (w : World) : unwritten m w (guide env m after w).
Proof.
  unfold Conversation.guide. set (w1 := on_host _ w).
  assert (Hfrom : ∀ w', unwritten m w1 w' → unwritten m w w') by done.
  destruct (_ && _); [by left|]. assert (Ho : unwritten m w (start (LiveGuide Options) w1).2) by (left; apply (start_files _ w1)).
  destruct (state_brief _), after; try (left; apply (start_files _ w1)).
  all: destruct (look env (files w1)); try done; apply Hfrom;
    first [apply (intake_files env m None w1)|by apply (plan_command_files env m _ Show w1)|left; apply (offer_files env w1)].
Qed.
(** The consent under review is the one resuming would ask for now. *)
Definition consented (env : Env) (w : World) (g : Generation) : Prop :=
  ∃ consent, live (host w) = Some (g, LiveGuide (ResumeReview consent)) ∧
    last_shown about_consent (shown w) = Some (ShownConsent consent) ∧ capture root env (files w) = Some consent ∧
    incognito env = false.
(** Only confirming that consent prepares the repository. *)
Lemma confirm_files env (m : Meanwhile) (w : World) : stages_ok w →
  files (confirm_resume root env m w).2 = files w ∨
  (∃ g, consented env w g) ∧ files (confirm_resume root env m w).2 = (init_git_workspace (git m) (files w)).1.
Proof.
  intros Hw. unfold confirm_resume. destruct (incognito env) eqn:Hi; [by left|]. destruct (bool_decide _); [by left|].
  destruct (bool_decide _) eqn:Hc; [|left; apply offer_files]. right. apply bool_decide_eq_true_1 in Hc as [[consent Hcap] Hcur].
  destruct (live (host w)) as [[g [s|s|s]]|] eqn:Hl; try done. destruct s as [rev|c|]; try done.
  injection Hcap as ->. split.
  - exists g, consent. pose proof (Hw _ _ Hl) as Hs. done.
  - by destruct (init_git_workspace _ _) as [fs [ready|]].
Qed.
Lemma wait_files env (m : Meanwhile) (w : World) : unwritten m w (wait_resume root env m w).2.
Proof.
  assert (Hover : ∀ w' : World, unwritten m w w' → unwritten m w (run_over m w')) by (intros w'; unfold run_over; by destruct (stop_requested m)).
  unfold wait_resume. destruct (incognito env); [by left|].
  destruct (paused m) as [run|]; [|apply Hover; by left]. destruct (resumable _); [|apply Hover; by left]. cbv zeta.
  set (w1 := mkWorld _ _ _ _). assert (Hw1 : unwritten m w w1) by by right.
  destruct (wait_loop _ _ _) as [[|[]]|]; try by apply Hover. by destruct (resumable _); [|apply Hover].
Qed.
Lemma run_over_files (m : Meanwhile) (w : World) : files (run_over m w) = files w.
Proof. unfold run_over. by destruct (stop_requested m). Qed.
(** What a new feature writes: the plan first, then the brief; nothing else. *)
Definition featured (fs fs' : Files) (description : Text) (brief : Brief) (p : Progress) : Prop :=
  (∀ q, q ≠ plan_path root → q ≠ brief_path root → fs' !! q = fs !! q) ∧
  (fs' !! brief_path root = fs !! brief_path root ∨
   fs' !! plan_path root = Some (encode (render (extended_plan description brief p)))).
Lemma feature_files env (m : Meanwhile) description (w : World) :
  files (add_feature root env m description w) = files w ∨
  live_brief (host w) = None ∧ live_plan (host w) = None ∧
  ∃ brief p, extendable (look env (files w)) = Some (brief, p) ∧
    head (feature root (files w) (reads env) (fst (feature_io m)) (snd (feature_io m)) description).1
      = Some (files (add_feature root env m description w)) ∧
    featured (files w) (files (add_feature root env m description w)) description brief p.
Proof.
  unfold add_feature. destruct (bool_decide _) eqn:Hn; [by left|]. apply bool_decide_eq_false_1 in Hn. cbv zeta.
  cbn [files on_host]. destruct (extendable (look env (files w))) as [[brief p]|] eqn:He.
  - right. split_and!; [by apply eq_None_not_Some; tauto..|]. exists brief, p. split; [done|].
    destruct (feature_outcome root (files w) (reads env) (fst (feature_io m)) (snd (feature_io m)) description brief p He)
      as (st & rest & Ht & Hst & Hor & _).
    destruct (feature _ _ _ _ _ _) as [trace ok]. cbn [fst] in Ht. subst trace. by split.
  - left. unfold feature. unfold look, Conversation.look in He. by rewrite He.
Qed.
Definition agrees (text : Text) : Prop :=
  eq_ignore_ascii_case (trim text) (txt "yes") = true ∨ eq_ignore_ascii_case (trim text) (txt "resume") = true.
Lemma guide_input_files env (m : Meanwhile) g text (w : World) : stages_ok w →
  unwritten m w (guide_input env m g text w).2 ∨
  consented env w g ∧ agrees text ∧ files (guide_input env m g text w).2 = (init_git_workspace (git m) (files w)).1.
Proof.
  intros Hw. unfold Conversation.guide_input. destruct (live (host w)) as [[g' [s|s|s]]|] eqn:Hl; [by left; left..| |by left; left].
  destruct (N.eqb_spec g' g) as [->|]; cbn [negb]; [|by left; left]. cbv zeta.
  assert (Hagain : ∀ o after, unwritten m w (guide env m after (on_host (end_live o) w))).
  { intros o after. apply (guide_files env m after (on_host (end_live o) w)). }
  destruct s as [revision|c|].
  - left. destruct (negb _); [apply Hagain|]. destruct (_ || _); [apply Hagain|]. destruct (_ || _); [by left|]. cbn [snd].
    assert (Hb : files (drive_harness_brief env m Show w) = files w).
    { unfold Conversation.drive_harness_brief. destruct (_ && _); [done|].
      assert (Hlb : live_brief (host w) = None) by (unfold live_brief; by rewrite Hl). rewrite Hlb. apply open_brief_files. }
    destruct (live_generation _) as [next|]; [|by left].
    pose proof (input_files env m next (trim text) (drive_harness_brief env m Show w)) as Hi. unfold unwritten, left_as in *. by rewrite Hb in Hi.
  - destruct (_ || _) eqn:Hsays; [|by left; left]. apply orb_true_iff in Hsays.
    destruct (confirm_files env m w Hw) as [Hf|[[g' Hc] Hf]]; [by left; left|right].
    split_and!; [|done|done]. assert (Hg : g' = g) by (destruct Hc as (? & Hl' & _); congruence). by subst g'.
  - left. destruct (eq_ignore_ascii_case _ _); [apply Hagain|by left].
Qed.

(** ** Generations *)

(** The conversation goes on or ends, or one new one begins. *)
Definition kept_on (h h' : StageHost) : Prop :=
  next_generation h' = next_generation h ∧ (live_generation h' = None ∨ live_generation h' = live_generation h).
Definition begun (h h' : StageHost) : Prop :=
  next_generation h' = u64_add (next_generation h) 1 ∧ (live_generation h' = None ∨ live_generation h' = Some (next_generation h)).
Definition moved (h h' : StageHost) : Prop := kept_on h h' ∨ begun h h'.
Lemma kept_refl h : kept_on h h.
Proof. by split; [|right]. Qed.
Lemma kept_kept h1 h2 h3 : kept_on h1 h2 → kept_on h2 h3 → kept_on h1 h3.
Proof. intros [N1 L1] [N2 L2]. split; [congruence|]. destruct L2 as [?|L2]; [by left|]. by rewrite L2. Qed.
Lemma kept_begun h1 h2 h3 : kept_on h1 h2 → begun h2 h3 → begun h1 h3.
Proof. intros [N1 _] [N2 L2]. rewrite N1 in *. by split. Qed.
Lemma begun_kept h1 h2 h3 : begun h1 h2 → kept_on h2 h3 → begun h1 h3.
Proof. intros [N1 L1] [N2 L2]. split; [congruence|]. destruct L2 as [?|L2]; [by left|]. by rewrite L2. Qed.
Lemma kept_moved h1 h2 h3 : kept_on h1 h2 → moved h2 h3 → moved h1 h3.
Proof. intros Hk [?|?]; [left; by eapply kept_kept|right; by eapply kept_begun]. Qed.
Lemma moved_kept h1 h2 h3 : moved h1 h2 → kept_on h2 h3 → moved h1 h3.
Proof. intros [?|?] Hk; [left; by eapply kept_kept|right; by eapply begun_kept]. Qed.
Lemma ended_kept o h : kept_on h (end_live o h).
Proof. unfold end_live. destruct (live h) as [[g s]|] eqn:Hl; split; try done; [by left|right]. unfold live_generation. cbn. by rewrite Hl. Qed.
Lemma no_change_kept o h : kept_on h (match live h with Some _ => end_live o h | None => h end).
Proof. destruct (live h) eqn:Hl; [apply ended_kept|apply kept_refl]. Qed.
Lemma start_begun s (w : World) : begun (host w) (host (start s w).2).
Proof.
  unfold start, begin. cbn [fst snd]. destruct (live (host w)) as [[g' s']|] eqn:Hl; [|by split; [|right]].
  unfold end_live. rewrite Hl. by split; [|right].
Qed.
Lemma published_kept g s (w : World) : live_generation (host w) = Some g → kept_on (host w) (host (publish g s w)).
Proof. intros Hl. split; [done|]. right. by rewrite Hl. Qed.
Lemma stop_kept h : kept_on h (end_stage_conversation (set_guided false h)).
Proof.
  apply (kept_kept h (set_guided false h)); [by split; [|right]|]. unfold end_stage_conversation.
  destruct (live (set_guided false h)); [apply ended_kept|apply kept_refl].
Qed.
Lemma settled_kept (m : Meanwhile) g s (w : World) : live_generation (host w) = Some g → kept_on (host w) (host (settle_call m g s w)).
Proof.
  intros Hl. unfold settle_call. eapply kept_kept; [by apply (published_kept g s)|].
  destruct (stop_requested m); [apply stop_kept|apply kept_refl].
Qed.
Lemma called_host {A} (m : Meanwhile) (run : W → A * W) (w : World) : host (call m run w).2 = host w.
Proof. unfold call. destruct (cut_short m); [done|]. by destruct (run (provider w)). Qed.
Lemma plan_turn_host env (m : Meanwhile) retry (w : World) : host (run_plan_turn env m retry w).2 = host w.
Proof.
  unfold Conversation.run_plan_turn. pose proof (called_host m (run_attempt (active_model env) unrunnable_verify_reason retry) w) as Hc.
  destruct (call _ _ w) as [[[d|e]|] w']; [|done..]. by destruct (reconcile_against_saved _ _ _ _ _) as [|[]].
Qed.
Lemma brief_action_host env (m : Meanwhile) retry (w : World) : host (run_stage_action env m retry w).2 = host w.
Proof.
  unfold Conversation.run_stage_action. pose proof (called_host m (run_target axes_from_json env retry) w) as Hc.
  destruct (call _ _ w) as [[[[d|a open qs]|e]|] w']; [done| |done..]. by destruct (leg_of env retry).
Qed.
Lemma input_kept env (m : Meanwhile) g text (w : World) : kept_on (host w) (host (drive_stage_input env m g text w)).
Proof.
  unfold Conversation.drive_stage_input. destruct (bool_decide (live_generation (host w) = Some g)) eqn:Hg; [|apply kept_refl].
  apply bool_decide_eq_true_1 in Hg. cbn [negb].
  destruct (live (host w)) as [[g' [s|s|s]]|] eqn:Hl; try apply kept_refl; cbv zeta.
  - assert (Hrun : ∀ f r, kept_on (host w) (host (let '(next, w') := run_stage_action env m r (publish g (LiveBrief f) w) in
      settle_call m g (LiveBrief next) w'))).
    { intros f r. pose proof (brief_action_host env m r (publish g (LiveBrief f) w)) as Hf.
      destruct (run_stage_action _ _ _ _) as [next w']. cbn [snd] in Hf.
      apply (kept_kept _ (host w')); [rewrite Hf; by apply published_kept|]. apply settled_kept. by rewrite Hf. }
    destruct (decide_brief_turn s text) as [s'| | |]; cbn [in_flight_stage target_of]; try apply Hrun.
    destruct s'; try by apply published_kept. by apply (published_kept g _ (show (ShownBrief draft) w)).
  - destruct (decide_plan_turn s text) as [s'|r]; [by apply published_kept|].
    destruct (in_flight_plan_stage _) as [f|]; [|apply kept_refl].
    pose proof (plan_turn_host env m r (publish g (LivePlan f) w)) as Hf.
    destruct (run_plan_turn _ _ _ _) as [next w']. cbn [snd] in Hf.
    apply (kept_kept _ (host w')); [rewrite Hf; by apply published_kept|]. apply settled_kept. by rewrite Hf.
Qed.
Lemma intake_begun env (m : Meanwhile) idea (w : World) : begun (host w) (host (drive_harness_intake env m idea w)).
Proof.
  unfold Conversation.drive_harness_intake. pose proof (start_begun (LiveBrief AwaitingIdea) w) as Hs.
  destruct (start _ w) as [g w']. destruct idea as [idea|]; [|done]. eapply begun_kept; [done|apply input_kept].
Qed.
Lemma open_brief_moved env (w : World) : moved (host w) (host (open_saved_brief_for_review root env w)).
Proof.
  unfold open_saved_brief_for_review. destruct (state_brief _); [|left; apply kept_refl]. right. set (d := mkBriefDraft _ _ _ _ _). apply (start_begun (LiveBrief (ReviewingBrief d)) w).
Qed.
Lemma brief_command_moved env (m : Meanwhile) action (w : World) : moved (host w) (host (drive_harness_brief env m action w)).
Proof.
  assert (Hsame : moved (host w) (host w)) by (left; apply kept_refl).
  unfold Conversation.drive_harness_brief. destruct (_ && _); [done|].
  destruct action; [|left; apply no_change_kept| |left; apply ended_kept| |left; apply ended_kept].
  - destruct (live_brief (host w)) as [[| | |d|d|r detail]|]; try apply open_brief_moved; [done|].
    destruct (live_generation (host w)) as [g|]; [left; apply input_kept|apply open_brief_moved].
  - destruct (live_brief (host w)) as [[| | |d|d|r detail]|]; try done. unfold approve_brief_draft.
    destruct (persist_approved _ _ _ _ _ _ _ _ _ _) as [[trace c] res].
    destruct res as [[]|[e|e]]; [left; apply ended_kept|done|left; apply ended_kept].
  - destruct (live_brief (host w) ≫= idea_of) as [idea|]; [|done]. right. apply (intake_begun env m (Some idea)).
Qed.
Lemma start_plan_moved env (m : Meanwhile) entry (w : World) : moved (host w) (host (start_plan_conversation env m entry w)).
Proof.
  assert (Hsame : moved (host w) (host w)) by (left; apply kept_refl).
  assert (Hbegin : ∀ state retry, moved (host w) (host (begin_plan to_lowercase root unrunnable_verify_reason env m state retry w))).
  { intros state retry. right. unfold begin_plan. pose proof (start_begun (LivePlan GeneratingPlan) w) as Hs.
    pose proof (started (LivePlan GeneratingPlan) w) as (_ & _ & _ & Hl). destruct (start _ w) as [g w']. cbn [fst snd] in *.
    set (w2 := publish _ _ _). pose proof (plan_turn_host env m retry w2) as Hp.
    destruct (run_plan_turn _ _ _ _) as [next w3]. cbn [snd] in Hp.
    assert (Hw3 : begun (host w) (host w3)).
    { rewrite Hp. eapply begun_kept; [done|]. apply (published_kept g (LivePlan GeneratingPlan) (on_host (set_source (state_progress state)) w')).
      unfold live_generation. cbn. by rewrite Hl. }
    eapply begun_kept; [done|]. apply settled_kept. by rewrite Hp. }
  unfold Conversation.start_plan_conversation. destruct (bool_decide _); [done|].
  destruct (negb _); [done|]. destruct (state_brief _) as [b|]; [|done].
  destruct entry; destruct (state_progress _) as [p|]; auto.
  right. unfold open_saved_plan_for_review. set (d := mkDraft _ _ _ _ _). apply (start_begun (LivePlan (ReviewingPlan d)) w).
Qed.
Lemma plan_command_moved env (m : Meanwhile) entry action (w : World) : moved (host w) (host (drive_harness_plan env m entry action w)).
Proof.
  assert (Hsame : moved (host w) (host w)) by (left; apply kept_refl).
  unfold Conversation.drive_harness_plan. destruct (bool_decide _); [done|].
  destruct action; [|left; apply no_change_kept| |left; apply ended_kept| |left; apply ended_kept].
  - destruct (live_plan (host w)) as [[|d|d|d cs|r detail]|]; try apply start_plan_moved; [done..|].
    destruct (live_generation (host w)); [left; apply input_kept|apply start_plan_moved].
  - destruct (live_plan (host w)) as [[|d|d|d cs|r detail]|]; try done.
    unfold approve_plan_draft. destruct (state_brief _) as [b|]; [|done]. destruct (negb _); [done|].
    destruct (persist_approved_plan _ _ _ _ _ _ _ _ _ _) as [[trace c] res].
    destruct res as [[]|e]; [left; apply ended_kept|done].
  - destruct (live_plan (host w)); [apply start_plan_moved|done].
Qed.
Lemma offer_begun env (w : World) : moved (host w) (host (offer_resume root env w)).
Proof.
  unfold offer_resume. destruct (resumable _); [|right; apply start_begun].
  destruct (capture _ _ _) as [c|]; [right; apply (start_begun (LiveGuide (ResumeReview c)) w)|left; apply kept_refl].
Qed.
Lemma guide_moved env (m : Meanwhile) after (w : World) : moved (host w) (host (guide env m after w)).
Proof.
  unfold Conversation.guide. set (w1 := on_host _ w).
  assert (Hk : kept_on (host w) (host w1)) by (by split; [|right]).
  assert (Hs : ∀ s, moved (host w) (host (start s w1).2)) by (intros s; right; eapply kept_begun; [exact Hk|apply (start_begun s w1)]).
  destruct (_ && _); [by left|].
  destruct (state_brief _), after; try apply Hs.
  all: destruct (look env (files w1)); try apply Hs; eapply kept_moved; try exact Hk;
    first [right; apply (intake_begun env m None w1)|apply (plan_command_moved env m _ Show w1)|apply (offer_begun env w1)].
Qed.
Lemma confirm_moved env (m : Meanwhile) (w : World) : moved (host w) (host (confirm_resume root env m w).2).
Proof.
  unfold confirm_resume. destruct (incognito env); [left; apply kept_refl|].
  destruct (bool_decide _); [left; apply kept_refl|].
  destruct (bool_decide _); [|apply offer_begun]. left.
  destruct (init_git_workspace _ _) as [fs [ready|]]; [apply (ended_kept Approved)|apply kept_refl].
Qed.
Lemma run_over_kept (m : Meanwhile) (w : World) : kept_on (host w) (host (run_over m w)).
Proof. unfold run_over. destruct (stop_requested m); [by split; [|right]|apply kept_refl]. Qed.
Lemma wait_kept env (m : Meanwhile) (w : World) : kept_on (host w) (host (wait_resume root env m w).2).
Proof.
  unfold wait_resume. destruct (incognito env); [apply kept_refl|].
  destruct (paused m) as [run|]; [|apply run_over_kept]. destruct (resumable _); [|apply run_over_kept]. cbv zeta.
  set (w1 := mkWorld _ _ _ _). pose proof (run_over_kept m w1) as Ho.
  destruct (wait_loop _ _ _) as [[|[]]|]; try exact Ho. destruct (resumable _); [apply kept_refl|exact Ho].
Qed.
Lemma feature_kept env (m : Meanwhile) description (w : World) : kept_on (host w) (host (add_feature root env m description w)).
Proof.
  unfold add_feature. destruct (bool_decide _); [apply kept_refl|].
  destruct (feature _ _ _ _ _ _). apply (ended_kept Superseded).
Qed.
Lemma guide_input_moved env (m : Meanwhile) g text (w : World) : moved (host w) (host (guide_input env m g text w).2).
Proof.
  assert (Hsame : moved (host w) (host w)) by (left; apply kept_refl).
  unfold Conversation.guide_input. destruct (live (host w)) as [[g' [s|s|s]]|]; try done. destruct (negb _); [done|]. cbv zeta.
  assert (Hagain : ∀ o after, moved (host w) (host (guide env m after (on_host (end_live o) w)))).
  { intros o after. eapply kept_moved; [apply (ended_kept o)|]. apply (guide_moved env m after (on_host (end_live o) w)). }
  destruct s as [revision|c|].
  - destruct (negb _); [apply Hagain|]. destruct (_ || _); [apply Hagain|]. destruct (_ || _); [done|]. cbn [snd].
    pose proof (brief_command_moved env m Show w) as Hb.
    destruct (live_generation _); [|done]. eapply moved_kept; [done|apply input_kept].
  - destruct (_ || _); [apply confirm_moved|done].
  - destruct (eq_ignore_ascii_case _ _); [apply Hagain|done].
Qed.
Lemma go_on_moved env (m : Meanwhile) decided h (w : World) : kept_on h (host w) → moved h (host (go_on env m decided w)).
Proof.
  intros Hk. unfold Conversation.go_on. destruct (_ && _ && _); [|by left]. eapply kept_moved; [done|apply guide_moved].
Qed.
Lemma leave_kept action (w : World) : kept_on (host w) (host (leave_guide action w)).
Proof. unfold leave_guide. destruct (_ && _); [by split; [|right]|apply kept_refl]. Qed.
Lemma brief_decided_kept env (m : Meanwhile) action (w : World) : action = Approve ∨ action = NoChange →
  kept_on (host w) (host (drive_harness_brief env m action w)).
Proof.
  intros Ha. unfold Conversation.drive_harness_brief. destruct (_ && _); [apply kept_refl|]. destruct Ha as [-> | ->]; [|apply no_change_kept].
  destruct (live_brief (host w)) as [[| | |d|d|r detail]|]; try apply kept_refl. unfold approve_brief_draft.
  destruct (persist_approved _ _ _ _ _ _ _ _ _ _) as [[trace c] res].
  destruct res as [[]|[e|e]]; [apply ended_kept|apply kept_refl|apply ended_kept].
Qed.
Lemma plan_decided_kept env (m : Meanwhile) entry (w : World) : kept_on (host w) (host (drive_harness_plan env m entry Approve w)).
Proof.
  unfold Conversation.drive_harness_plan. destruct (bool_decide _); [apply kept_refl|].
  destruct (live_plan (host w)) as [[|d|d|d cs|r detail]|]; try apply kept_refl.
  unfold approve_plan_draft. destruct (state_brief _) as [b|]; [|apply kept_refl]. destruct (negb _); [apply kept_refl|].
  destruct (persist_approved_plan _ _ _ _ _ _ _ _ _ _) as [[trace c] res].
  destruct res as [[]|e]; [apply ended_kept|apply kept_refl].
Qed.
Lemma end_kept h : kept_on h (end_stage_conversation h).
Proof. unfold end_stage_conversation. destruct (live h); [apply ended_kept|apply kept_refl]. Qed.
Lemma no_more env (m : Meanwhile) (w : World) : go_on env m false w = w.
Proof. unfold Conversation.go_on. by rewrite andb_false_r. Qed.
Lemma perform_moved env (m : Meanwhile) c (w : World) : moved (host w) (host (perform env m c w).2).
Proof.
  destruct c as [g text|idea|action|entry action| | | | |description|stays|]; what_it_does.
  - destruct (live (host w)) as [[g' [s|s|s]]|]; [left; apply input_kept..| |left; apply input_kept].
    destruct (_ =? _); [apply guide_input_moved|left; apply input_kept].
  - right. apply intake_begun.
  - eapply moved_kept; [|apply leave_kept].
    destruct action; rewrite ?no_more; try apply brief_command_moved; apply go_on_moved, brief_decided_kept; auto.
  - eapply moved_kept; [|apply leave_kept].
    destruct action; rewrite ?no_more; try apply plan_command_moved. apply go_on_moved, plan_decided_kept.
  - apply guide_moved.
  - apply confirm_moved.
  - left. apply wait_kept.
  - left. apply run_over_kept.
  - left. apply feature_kept.
  - left. apply (kept_kept _ _ _ (end_kept (host w))). destruct stays; [apply kept_refl|by split; [|right]].
  - left. destruct (idle w); [apply kept_refl|]. apply (kept_kept _ _ _ (end_kept (host w))). by split; [|right].
Qed.

(** A number of commands later; files may change at any time. *)
Inductive later : nat → World → World → Prop :=
  | now w : later 0 w w
  | commanded n w w' env m c : later n w w' → later (S n) w (perform env m c w').2
  | changed_later n w w' fs : later n w w' → later n w (mkWorld fs (host w') (shown w') (provider w')).
Lemma later_fresh g n (w w' : World) : later n w w' →
  g < next_generation (host w) → live_generation (host w) ≠ Some g →
  next_generation (host w) + N.of_nat n <= U64_MAX →
  next_generation (host w') <= next_generation (host w) + N.of_nat n ∧
  next_generation (host w) <= next_generation (host w') ∧ live_generation (host w') ≠ Some g.
Proof.
  induction 1 as [w|n w w' env m c _ IH|n w w' fs _ IH]; intros Hg Hl Hroom; [split_and!; [lia|lia|done]| |by apply IH].
  destruct IH as (Hle & Hge & Hne); [done|done|lia|].
  destruct (perform_moved env m c w') as [[Hnext Hlive]|[Hnext Hlive]].
  - rewrite Hnext. split_and!; [lia|lia|]. by destruct Hlive as [->| ->].
  - assert (Hadd : u64_add (next_generation (host w')) 1 = next_generation (host w') + 1) by (apply u64_add_small; lia).
    rewrite Hnext, Hadd. split_and!; [lia|lia|]. destruct Hlive as [->| ->]; [done|]. intros [= ?]. lia.
Qed.

(** ** Claims *)

Abbreviation persist_approved_plan := (Project.persist_approved_plan to_lowercase root).
Abbreviation persist_approved := (Intake.persist_approved root localpilot_dir json_f32 json_text).
Lemma reviewed_plan (w : World) d : reachable w → live_plan (host w) = Some (ReviewingPlan d) →
  plan_ok d ∧ last_shown about_plan (shown w) = Some (ShownPlan d).
Proof.
  intros Hw%reachable_ok Hl. unfold live_plan in Hl. destruct (live (host w)) as [[g [s|s|s]]|] eqn:Hlive; try done.
  injection Hl as ->. by destruct (Hw _ _ Hlive).
Qed.
Lemma reviewed_brief (w : World) d : reachable w → live_brief (host w) = Some (ReviewingBrief d) →
  brief_read d ∧ last_shown about_brief (shown w) = Some (ShownBrief d).
Proof.
  intros Hw%reachable_ok Hl. unfold live_brief in Hl. destruct (live (host w)) as [[g [s|s|s]]|] eqn:Hlive; try done.
  injection Hl as ->. by destruct (Hw _ _ Hlive).
Qed.
Lemma plan_alone (h : StageHost) s : live_plan h = Some s → live_brief h = None.
Proof. unfold live_plan, live_brief. by destruct (live h) as [[g [?|?|?]]|]. Qed.

Lemma plan_trace fs r io d b old i n trace c res : persist_approved_plan fs r io d b old i n = (trace, c, res) →
  ∃ st rest, trace = st :: rest.
Proof.
  unfold Project.persist_approved_plan. destruct (approve_draft _ _ _ _ _ _ _) as [text|e]; [|by intros [= <- _ _]; eauto].
  pose proof (atomic_write_outcome fs io (plan_path root) (encode text) i n) as Ho.
  destruct (atomic_write _ _ _ _ _ _) as [[tr k] written]. destruct Ho as (_ & st & rest & -> & _). intros [= <- _ _]. eauto.
Qed.
Lemma brief_trace fs io rio d i n trace c res : persist_approved fs io rio d i n = (trace, c, res) →
  ∃ st rest, trace = st :: rest.
Proof.
  unfold Intake.persist_approved. set (bytes := encode _).
  pose proof (atomic_write_outcome fs io (brief_path root) bytes i n) as Ho.
  destruct (atomic_write _ _ _ _ _ _) as [[tr k] written]. destruct Ho as (_ & st & rest & -> & _).
  destruct written as [[]|]; [|intros [= <- _ _]; eauto].
  set (record := intake_record _ _). cbn [default head]. pose proof (record_outcome localpilot_dir json_text st rio record) as Hr.
  destruct (append_intake_record _ _ _ _ _) as [more appended]. destruct Hr as (_ & st' & rest' & -> & _).
  intros [= <- _ _]. eexists _, _. done.
Qed.

Lemma go_on_files env (m : Meanwhile) decided fs (w : World) : files w = fs → left_as m fs (files (go_on env m decided w)).
Proof. intros <-. unfold Conversation.go_on. destruct (_ && _ && _); [apply guide_files|by left]. Qed.
Lemma leave_files action (w : World) : files (leave_guide action w) = files w.
Proof. unfold leave_guide. by destruct (_ && _). Qed.

(** C5. Only approval writes the documents, and a feature extends them.  Whatever
    commands about the documents a session is given, in whatever order, and
    whatever the model answers, a command leaves the files as they are, or as
    others changed them while its model call or its wait ran, with these
    exceptions.  Approving a plan or a brief under review writes what approving
    it writes: the very draft last shown; a plan only while its brief is still
    the one on disk.  Confirming the consent last shown may make a git
    repository, and leaves the files in the project's own directory alone, if
    git itself does.  /harness-feature, with no brief or plan under review and a
    plan current for its brief, writes these two documents and nothing else,
    the brief only once the plan is bound to the extended one.  An ordinary
    turn of the agent, a shell line and the run of the plan count as others. *)
Theorem only_approval_writes env (m : Meanwhile) c (w : World) :
  reachable w →
  let w' := (perform env m c w).2 in
  left_as m (files w) (files w') ∨
  (∃ d entry brief st, c = PlanCommandOf entry Approve ∧
     live_plan (host w) = Some (ReviewingPlan d) ∧ last_shown about_plan (shown w) = Some (ShownPlan d) ∧
     state_brief (look env (files w)) = Some brief ∧ revision_of brief = brief_revision d ∧
     head (persist_approved_plan (files w) (reads env) (plan_io m) (capped env d) brief
       (plan_source (host w)) (pid m) (counter m)).1.1 = Some st ∧ left_as m st (files w')) ∨
  (∃ d st, c = BriefCommand Approve ∧
     live_brief (host w) = Some (ReviewingBrief d) ∧ last_shown about_brief (shown w) = Some (ShownBrief d) ∧
     head (persist_approved (files w) (brief_io m) (record_io m) d (pid m) (counter m)).1.1 = Some st ∧
     left_as m st (files w')) ∨
  (∃ g, consented env w g ∧ (c = Resume ∨ ∃ text, c = Input g text ∧ agrees text) ∧
     files w' = (init_git_workspace (git m) (files w)).1 ∧
     (keeps_project root (git m) → ∀ name, files w' !! (root, name) = files w !! (root, name))) ∨
  (∃ description brief p, c = Feature description ∧ live_brief (host w) = None ∧ live_plan (host w) = None ∧
     extendable (look env (files w)) = Some (brief, p) ∧
     head (feature root (files w) (reads env) (fst (feature_io m)) (snd (feature_io m)) description).1 = Some (files w') ∧
     featured (files w) (files w') description brief p).
Proof.
  intros Hw. pose proof (reachable_ok w Hw) as Hok.
  destruct c as [g text|idea|action|entry action| | | | |description|stays|]; what_it_does.
  - destruct (live (host w)) as [[g' [s|s|s]]|]; [left; apply input_files..| |left; apply input_files].
    destruct (_ =? _); [|left; apply input_files].
    destruct (guide_input_files env m g text w Hok) as [?|(Hc & Ha & Hf)]; [by left|]. right. right. right. left.
    exists g. split_and!; [done|right; by exists text|done|]. intros Hk name. rewrite Hf. by apply init_git_keeps.
  - left. apply intake_files.
  - rewrite leave_files. destruct (decide (action = Approve)) as [->|Ha].
    + unfold Conversation.drive_harness_brief. destruct (_ && _); [left; by apply go_on_files|].
      destruct (live_brief (host w)) as [[| | |d|d|r detail]|] eqn:Hl; try (left; by apply go_on_files). right. right. left.
      unfold approve_brief_draft.
      destruct (Intake.persist_approved _ _ _ _ _ _ _ _ _ _) as [[trace c] res] eqn:Hp. cbn [fst].
      assert (Ht : ∃ st rest, trace = st :: rest) by by eapply brief_trace. destruct Ht as (st & rest & ->).
      pose proof (reviewed_brief w d Hw Hl) as [_ Hs]. exists d, st. rewrite Hp. split_and!; [done..|].
      apply go_on_files. by destruct res as [[]|[]].
    + left. destruct action; try done; rewrite ?no_more; try by apply brief_command_files. apply go_on_files.
      unfold Conversation.drive_harness_brief. by destruct (_ && _).
  - rewrite leave_files. destruct (decide (action = Approve)) as [->|Ha].
    2: { left. destruct action; try done; rewrite no_more; by apply plan_command_files. }
    unfold Conversation.drive_harness_plan. destruct (bool_decide _); [left; by apply go_on_files|].
    destruct (live_plan (host w)) as [[|d|d|d cs|r detail]|] eqn:Hl; try (left; by apply go_on_files).
    unfold approve_plan_draft. destruct (state_brief _) as [b|] eqn:Hb; [|left; by apply go_on_files].
    destruct (bool_decide _) eqn:Hrev; [|left; by apply go_on_files]. apply bool_decide_eq_true_1 in Hrev. cbn [negb].
    destruct (Project.persist_approved_plan _ _ _ _ _ _ _ _ _ _) as [[trace c] res] eqn:Hp. cbn [fst].
    assert (Ht : ∃ st rest, trace = st :: rest) by by eapply plan_trace. destruct Ht as (st & rest & ->).
    right. left. pose proof (reviewed_plan w d Hw Hl) as [_ Hs]. exists d, entry, b, st. rewrite Hp. split_and!; [done..|].
    apply go_on_files. by destruct res as [[]|].
  - left. apply guide_files.
  - destruct (confirm_files env m w Hok) as [Hf|[[g Hc] Hf]]; [left; by left|]. right. right. right. left.
    exists g. split_and!; [done|by left|done|]. intros Hk name. rewrite Hf. by apply init_git_keeps.
  - left. apply wait_files.
  - left. left. apply run_over_files.
  - destruct (feature_files env m description w) as [Hf|(Hb & Hp & brief & p & He & Ht & Hf)]; [left; by left|].
    right. right. right. right. exists description, brief, p. by split_and!.
  - left. left. by destruct stays.
  - left. left. by destruct (idle w).
Qed.

(** C6. Approving a plan under review takes effect or changes nothing.  Take any
    session with a plan under review, none of whose steps waits for a step 0, and
    with room for its numbers.  Approving it either leaves PROGRESS.md and the
    conversation as they are, or ends the conversation; then the plan fits the
    brief on disk, the one it was drafted for.  When the draft has a work
    profile (a saved plan that was reopened has none, and its steps are not
    sized), every step left to do is within that profile and within the limits
    configured now.  Finished steps are exactly those that were recorded when
    the conversation began.  Whoever looks at the project next finds the plan
    reviewed, bound to that brief, ready to run or complete; only what an
    unticked step recorded of a commit, attempts or sessions is not written. *)
Theorem reviewed_plan_takes_effect env (m : Meanwhile) entry d (w : World) :
  reachable w → live_plan (host w) = Some (ReviewingPlan d) → waits_ok (progress d) →
  (∀ old, plan_source (host w) = Some old → highest (steps old) + 1 + N.of_nat (length (steps (progress d))) <= U64_MAX) →
  let bound := bind_to_brief (brief_revision d) (progress d) in
  forallb is_scalar (render bound) = true →
  let w' := (perform env m (PlanCommandOf entry Approve) w).2 in
  (live (host w') = live (host w) ∧ files w' !! plan_path root = files w !! plan_path root) ∨
  ((live_generation (host w') = None ∨ live_generation (host w') = Some (next_generation (host w))) ∧
   ∃ st brief, left_as m st (files w') ∧
     read_brief root (files w) (reads env) = Ok brief ∧ revision_of brief = brief_revision d ∧ fit (progress d) brief ∧
     (∀ profile s, work_profile d = Some profile → s ∈ to_do (progress d) →
        ∃ size, scope s = Some size ∧ accepts (tighten_caps (granularity (execution env)) profile) size = true) ∧
     (∀ s, s ∈ steps (progress d) → done s = true →
        ∃ old t, plan_source (host w) = Some old ∧ t ∈ steps old ∧ recorded_as s t = true) ∧
     (∀ old t, plan_source (host w) = Some old → t ∈ steps old → done t = true →
        ∃ s, s ∈ steps (progress d) ∧ recorded_as s t = true) ∧
     ∀ r, reads_brief r = true → reads_plan r = true →
       inspect_documents root st r =
         match next_incomplete (settled bound) with
         | Some _ => PlanReady brief (settled bound)
         | None => PlanComplete brief (settled bound)
         end).
Proof.
  intros Hw Hl Hwaits Hroom bound Hsc. cbn [Conversation.perform snd]. unfold leave_guide. rewrite andb_false_r.
  assert (Hstay : ∀ fs, go_on env m true (mkWorld fs (host w) (shown w) (provider w)) = mkWorld fs (host w) (shown w) (provider w)).
  { intros fs. unfold live_plan in Hl. unfold Conversation.go_on, idle. cbn [host]. destruct (live (host w)); [|done].
    by rewrite andb_false_r. }
  assert (Hsame : go_on env m true w = w) by (destruct w; apply Hstay).
  unfold Conversation.drive_harness_plan.
  rewrite bool_decide_eq_false_2, Hl by (rewrite (plan_alone _ _ Hl); by intros []). unfold approve_plan_draft.
  destruct (state_brief _) as [b|] eqn:Hb; [|left; by rewrite Hsame]. apply found_brief in Hb.
  destruct (bool_decide _) eqn:Hrev; cbn [negb]; [|left; by rewrite Hsame]. apply bool_decide_eq_true_1 in Hrev. cbn [negb].
  pose proof (reviewed_plan w d Hw Hl) as [[Hwritten _] _].
  pose proof (approval_outcome to_lowercase root (files w) (reads env) (plan_io m) (capped env d) b (plan_source (host w))
    (pid m) (counter m) Hhex (proj2 (written_split _) (conj Hwritten Hwaits)) Hroom Hsc) as Ho.
  destruct (Project.persist_approved_plan _ _ _ _ _ _ _ _ _ _) as [[trace c] res].
  destruct Ho as (_ & final & before & -> & Hres). cbn [default head].
  destruct res as [[]|e]; [right|left; rewrite Hstay; by destruct Hres].
  destruct Hres as (Hfit & Hscope & Hhist & Hkept & current & Hc & _ & Hfound).
  rewrite Hb in Hc. injection Hc as <-. set (w1 := on_host _ _). split.
  - assert (Hend : live_generation (host w1) = None ∧ next_generation (host w1) = next_generation (host w)).
    { unfold w1, on_host, end_live, live_generation. cbn. by destruct (live (host w)) as [[g s]|] eqn:Hlive; cbn; rewrite ?Hlive. }
    destruct Hend as [Hnone Hnext]. destruct (go_on_moved env m true (host w1) w1 (kept_refl _)) as [[_ Hg]|[_ Hg]].
    + left. destruct Hg as [?|Hg]; [done|congruence].
    + rewrite Hnext in Hg. by destruct Hg; [left|right].
  - exists final, b. split_and!; try done; [by apply go_on_files|]. intros profile s Hp Hs. apply Hscope; [|done]. cbn. by rewrite Hp.
Qed.

Lemma confirmed env (m : Meanwhile) (w w' : World) : stages_ok w → confirm_resume root env m w = (true, w') →
  ∃ g consent fs made, live (host w) = Some (g, LiveGuide (ResumeReview consent)) ∧ incognito env = false ∧
    last_shown about_consent (shown w) = Some (ShownConsent consent) ∧ capture root env (files w) = Some consent ∧
    init_git_workspace (git m) (files w) = (fs, Some made) ∧
    w' = on_host (end_live Approved) (mkWorld fs (host w) (shown w) (provider w)).
Proof.
  intros Hw. unfold confirm_resume. destruct (incognito env); [done|]. destruct (bool_decide _); [done|].
  destruct (bool_decide _) eqn:Hc; [|done]. apply bool_decide_eq_true_1 in Hc as [[consent Hcap] Hcur].
  destruct (init_git_workspace _ _) as [fs [made|]]; [|done]. intros [= <-].
  destruct (live (host w)) as [[g [s|s|s]]|] eqn:Hl; try done. destruct s as [rev|c|]; try done. injection Hcap as ->.
  exists g, consent, fs, made. pose proof (Hw _ _ Hl) as Hs. done.
Qed.
Lemma same_documents fs fs' r l i : (∀ name, fs' !! (root, name) = fs !! (root, name)) →
  inspect root fs' r l i = inspect root fs r l i.
Proof.
  intros Hsame. unfold inspect, inspect_documents, read_document, brief_path, plan_path. by rewrite !Hsame.
Qed.
Lemma wait_resumed env (m : Meanwhile) (w w' : World) : wait_resume root env m w = (true, w') →
  incognito env = false ∧ ∃ run p p', paused m = Some run ∧
    resumable (inspect root (files w) (reads env) NotRunning None) = Ok p ∧
    resumable (inspect root (files w') (reads env) NotRunning None) = Ok p' ∧
    (∃ at_second clean, (at_second, clean, false) ∈ polled m ∧
       (∀ t, resume_eligible_unix run = Some t → t <= at_second) ∧
       (resume_requires_clean_workspace (quota m) = true → clean = true)) ∧
    active_provider_id env = provider_id run ∧ (auto_resume (quota m) = Run ∨ auto_resume (quota m) = Global) ∧
    w' = mkWorld (default (files w) (files_then m)) (host w) (shown w) (provider w).
Proof.
  unfold wait_resume. destruct (incognito env); [done|]. destruct (paused m) as [run|]; [|done].
  destruct (resumable _) as [p|]; [|done]. cbv zeta.
  destruct (wait_loop _ _ _) as [[|d]|] eqn:Hloop; try done. destruct d; try done.
  destruct (resumable (inspect root (files (mkWorld _ _ _ _)) _ _ _)) as [p'|] eqn:Hp'; [|done]. intros [= <-].
  apply wait_loop_resumes in Hloop as (x & Hx & Hd & Hwin & Hcan & Hover & Hclean).
  apply list_elem_of_fmap in Hx as ([[at_second clean] cancelled] & -> & Hin). cbn in *. subst cancelled.
  split; [done|]. exists run, p, p'. split_and!; try done; [by exists at_second, clean|by apply Hover|].
  unfold decide_resume in Hd. repeat (destruct (_ : bool) in Hd; [done|]). cbn in Hd. destruct (auto_resume (quota m)); try done; auto.
Qed.

(** C7. A run is reviewed or continues an interrupted one.  However a session got
    where it is, a command starts the run of the plan only in two ways.  One
    answers the consent under review, by saying so or by asking to resume: that
    consent is the last one shown and holds exactly what resuming would do now,
    the plan on disk being the one the resume gate hands out; the project is in
    a repository, the plan is still the same if git left the project's own
    files alone, and the conversation is over, so the same consent is not used
    twice.  The other is /wait-resume, which shows no consent: a paused run is
    recorded, of the provider in force, the configuration lets it resume by
    itself, its quota window is over, the work tree is as clean as the
    configuration asks, and the resume gate hands out a plan both before the
    wait and after it.  A private session starts none. *)
Theorem runs_are_reviewed_or_resumed env (m : Meanwhile) c (w w' : World) :
  reachable w → perform env m c w = (true, w') →
  incognito env = false ∧
  ((∃ g consent p made,
    live (host w) = Some (g, LiveGuide (ResumeReview consent)) ∧
    (c = Resume ∨ ∃ text, c = Input g text ∧ agrees text) ∧
    last_shown about_consent (shown w) = Some (ShownConsent consent) ∧
    resumable (inspect root (files w) (reads env) NotRunning None) = Ok p ∧
    consent = mkConsent (render p) (active_model env) (active_provider_id env) (profile_label env) (trusted env)
      (execution env) (resume_work_profile env p) ∧
    init_git_workspace (git m) (files w) = (files w', Some made) ∧
    (keeps_project root (git m) → resumable (inspect root (files w') (reads env) NotRunning None) = Ok p) ∧
    live (host w') = None) ∨
   (c = WaitResume ∧ ∃ run p p', paused m = Some run ∧
    resumable (inspect root (files w) (reads env) NotRunning None) = Ok p ∧
    resumable (inspect root (files w') (reads env) NotRunning None) = Ok p' ∧
    (∃ at_second clean, (at_second, clean, false) ∈ polled m ∧
       (∀ t, resume_eligible_unix run = Some t → t <= at_second) ∧
       (resume_requires_clean_workspace (quota m) = true → clean = true)) ∧
    active_provider_id env = provider_id run ∧ (auto_resume (quota m) = Run ∨ auto_resume (quota m) = Global) ∧
    files w' = default (files w) (files_then m) ∧ host w' = host w)).
Proof.
  intros Hw%reachable_ok Hp.
  assert (Hconfirm : (confirm_resume root env m w = (true, w') ∧
    (c = Resume ∨ ∃ g s text, live (host w) = Some (g, s) ∧ c = Input g text ∧ agrees text)) ∨
    (c = WaitResume ∧ wait_resume root env m w = (true, w'))).
  { destruct c as [g text|idea|action|entry action| | | | |description|stays|]; cbn [Conversation.perform] in Hp;
      unfold Conversation.stage_prompt in Hp; try done; [|by left; split; [|left]|by right].
    left. destruct (live (host w)) as [[g' [s|s|s]]|] eqn:Hl; try done. destruct (g' =? g) eqn:Hg; [|done].
    apply N.eqb_eq in Hg as ->. unfold Conversation.guide_input in Hp. rewrite Hl, N.eqb_refl in Hp. cbn [negb] in Hp.
    destruct s as [revision|consent|]; cbv zeta in Hp.
    - destruct (negb _); [done|]. destruct (_ || _); [done|]. by destruct (_ || _).
    - destruct (_ || _) eqn:Hsays; [|done]. apply orb_true_iff in Hsays. split; [done|]. right. eauto 10.
    - by destruct (eq_ignore_ascii_case _ _). }
  destruct Hconfirm as [[Hconfirm Hasked]|[-> Hwait]].
  2: { apply wait_resumed in Hwait as (? & run & p & p' & ? & ? & ? & ? & ? & ? & Hw'). split; [done|]. right. split; [done|].
       exists run, p, p'. split_and!; try done; by rewrite Hw'. }
  apply confirmed in Hconfirm as (g & consent & fs & made & Hl & Hi & Hs & Hcap & Hgit & ->); [|done].
  split; [done|]. left. unfold capture in Hcap. destruct (resumable _) as [p|] eqn:Hr; [|done]. injection Hcap as <-.
  eexists g, _, p, made. split_and!; try done.
  - destruct Hasked as [->|(g' & s & text & Hl' & -> & Hsays)]; [by left|right]. rewrite Hl in Hl'. injection Hl' as <- _. eauto.
  - intros Hk. cbn [files on_host]. rewrite (same_documents (files w)); [done|]. intros name.
    rewrite <-(init_git_keeps root (git m) (files w) name Hk). by rewrite Hgit.
  - cbn. unfold end_live. by rewrite Hl.
Qed.

(** C8. What is typed stays in its conversation.  Once a conversation is over,
    whatever commands follow and however the files change, input that was typed
    into it does nothing at all: its number is never given to another
    conversation, as long as the numbers do not run out. *)
Theorem input_stays_in_its_conversation g n (w w' : World) env (m : Meanwhile) text :
  g < next_generation (host w) → live_generation (host w) ≠ Some g →
  later n w w' → next_generation (host w) + N.of_nat n <= U64_MAX →
  live_generation (host w') ≠ Some g ∧ perform env m (Input g text) w' = (false, w').
Proof.
  intros Hg Hl Hlater Hroom. destruct (later_fresh g n w w' Hlater Hg Hl Hroom) as (_ & _ & Hne). split; [done|].
  what_it_does. assert (Hstill : drive_stage_input env m g text w' = w').
  { unfold Conversation.drive_stage_input. by rewrite bool_decide_eq_false_2. }
  rewrite Hstill. destruct (live (host w')) as [[g' [s|s|s]]|] eqn:Hlive; try done.
  destruct (N.eqb_spec g' g) as [->|]; [|done]. unfold live_generation in Hne. by rewrite Hlive in Hne.
Qed.

(** C9. A failed call loses nothing.  When the model call that a message asks for
    is cut short or fails, and no stop was asked for, the conversation is live
    under the same number, nothing new is shown, and what was being attempted,
    the draft under revision and the instruction with it, is kept: an empty
    message asks for exactly the same again. *)
Theorem failures_keep_the_conversation env (m : Meanwhile) g text (w : World) :
  stop_requested m = false →
  let w' := (perform env m (Input g text) w).2 in
  (∀ stage retry, live (host w) = Some (g, LivePlan stage) → decide_plan_turn stage text = RunPlan retry →
     is_Some (cut_short m) ∨ (∃ e, (run_attempt (active_model env) unrunnable_verify_reason retry (provider w)).1 = Err e) →
     shown w' = shown w ∧
     ∃ detail, live (host w') = Some (g, LivePlan (PlanFailure retry detail)) ∧
       ∀ again, trim again = [] → decide_plan_turn (PlanFailure retry detail) again = RunPlan retry) ∧
  (∀ stage retry, live (host w) = Some (g, LiveBrief stage) → target_of (decide_brief_turn stage text) = Some retry →
     is_Some (cut_short m) ∨ (∃ e, (run_target axes_from_json env retry (provider w)).1 = Err e) →
     shown w' = shown w ∧
     ∃ detail, live (host w') = Some (g, LiveBrief (BriefFailure retry detail)) ∧
       ∀ again, trim again = [] → target_of (decide_brief_turn (BriefFailure retry detail) again) = Some retry).
Proof.
  intros Hstop w'. subst w'. what_it_does. split; intros stage retry Hl Hd Hfail.
  - rewrite Hl. cbn [snd]. unfold Conversation.drive_stage_input.
    rewrite bool_decide_eq_true_2 by (unfold live_generation; by rewrite Hl). cbn [negb]. rewrite Hl. cbv zeta. rewrite Hd.
    assert (Hf : ∃ f, in_flight_plan_stage (RunPlan retry) = Some f) by (destruct retry; eauto). destruct Hf as [f ->].
    assert (Hturn : ∃ detail w0, run_plan_turn env m retry (publish g (LivePlan f) w) = (PlanFailure retry detail, w0) ∧ shown w0 = shown w).
    { unfold Conversation.run_plan_turn, call. destruct (cut_short m) as [p|]; [by eexists _, _|].
      destruct Hfail as [[]|[e He]]; [done|]. cbn [provider publish on_host] in *.
      destruct (run_attempt _ _ _ _) as [r p]. cbn in He. subst r. by eexists _, _. }
    destruct Hturn as (detail & w0 & -> & Hs). unfold settle_call. rewrite Hstop. split; [done|].
    exists detail. split; [done|]. intros again Ha. unfold decide_plan_turn. rewrite Ha. by destruct retry.
  - rewrite Hl. cbn [snd]. unfold Conversation.drive_stage_input.
    rewrite bool_decide_eq_true_2 by (unfold live_generation; by rewrite Hl). cbn [negb]. rewrite Hl. cbv zeta.
    assert (Hturn : ∀ f, ∃ detail w0,
      run_stage_action env m retry (publish g (LiveBrief f) w) = (BriefFailure retry detail, w0) ∧ shown w0 = shown w).
    { intros f. unfold Conversation.run_stage_action, call. destruct (cut_short m) as [p|]; [by eexists _, _|].
      destruct Hfail as [[]|[e He]]; [done|]. cbn [provider publish on_host] in *.
      destruct (run_target _ _ _ _) as [r p]. cbn in He. subst r. by eexists _, _. }
    destruct (decide_brief_turn stage text) as [s| | |]; [done|..]; rewrite Hd; cbn [in_flight_stage];
      match goal with |- context [publish g (LiveBrief ?f) w] => destruct (Hturn f) as (detail & w0 & -> & Hs) end;
      unfold settle_call; rewrite Hstop; (split; [done|]); exists detail; (split; [done|]);
      intros again Ha; unfold decide_brief_turn; rewrite Ha; by destruct retry.
Qed.
End session.

(** ** A session *)

#[local] Existing Instance folded.
(** A model with the answers it will give. *)
#[local] Instance scripted : ModelProvider (list Text) := λ _ answers,
  match answers with
  | answer :: rest => (Ok [Ok (TextDelta answer)], rest)
  | [] => (Err (Network (txt "gone")), [])
  end.
Lemma silent_fails model reason retry d : (run_attempt model reason retry []).1 ≠ Ok d.
Proof. destruct retry; intros Hr; lazy in Hr; discriminate. Qed.

Definition ANSWER : Progress := mkProgress (txt "parser errors") (txt "work") None [planned 1 "Name the section" [1] []].
Definition NOW : Env :=
  mkEnv (txt "m") (txt "p") (txt "default") true false None
    (mkSnapshot (mkCaps Automatic None None None None None) true 3 [txt "cargo test"]) None [] (mkReadIo true true).
(** A project that is in no repository: git creates one. *)
Definition OUTSIDE : Inspection := mkInspection (Some [Some (Some Brief.DOCUMENT, IsFile)]) None false false None None false false true.
Definition FRESH_GIT : Git (D := bool) :=
  mkGit OUTSIDE OUTSIDE false false (λ fs, (<[(false, txt "HEAD") := []]> fs, true)) (λ _, Some (false, txt "exclude")) false true true
    (mkPlainIo true None) (λ fs, (fs, true)).
Lemma fresh_keeps : keeps_project true FRESH_GIT.
Proof. split_and!; [intros fs n; cbn; by rewrite lookup_insert_ne|done|by intros fs path [= <-]]. Qed.
Definition QUIET : Meanwhile (D := bool) (W := list Text) :=
  mkMeanwhile None None false healthy (mkRecordIo true true None) healthy (mkPlainIo true None, mkPlainIo true None) FRESH_GIT
    None QuotaConfig_default [] 7 0.
Abbreviation act := (perform to_ascii_lowercase true false (λ _, Err []) (λ _, None) (λ _, JNull) (λ _, [])).
Abbreviation occurs := (reachable to_ascii_lowercase true false (λ _, Err []) (λ _, None) (λ _, JNull) (λ _, [])).
Definition BRIEFED : World (D := bool) (W := list Text) :=
  mkWorld (<[(true, Brief.DOCUMENT) := encode DESCRIBED]> ∅) host_new [] [render ANSWER].
Definition PLANNED : World (D := bool) (W := list Text) := (act NOW QUIET (PlanCommandOf First Show) BRIEFED).2.
Abbreviation SETTLED_PLAN := (act NOW QUIET (PlanCommandOf First Approve) PLANNED).2.
Abbreviation OFFERED := (act NOW QUIET Resume SETTLED_PLAN).2.
Definition PROPOSED : PlanDraft := mkDraft (bind_to_brief (revision_of SAMPLE) ANSWER) (revision_of SAMPLE) [] 0 None.

Lemma planned_live : live_plan (host PLANNED) = Some (ReviewingPlan PROPOSED) ∧ plan_source (host PLANNED) = None ∧
  live_generation (host PLANNED) = Some 0.
Proof. vm_compute. auto. Qed.
Lemma unplanned (env : Env) (fs : gmap (bool * Text) Bytes) : fs !! plan_path true = None → state_progress (look true env fs) = None.
Proof.
  intros Hn. unfold look. cbn [inspect documents]. unfold inspect_documents.
  destruct (read_document _ (reads_brief _) _) as [|text|]; [done| |done]. destruct (Brief.parse text) as [b|]; [|done].
  unfold read_document. by rewrite Hn.
Qed.
Lemma planned_occurs : occurs PLANNED.
Proof.
  apply performed; [apply opened|]. intros retry d fs saved Hfound _ Hs. exfalso.
  assert (Hn : fs !! plan_path true = None).
  { assert (Hb : files BRIEFED !! plan_path true = None) by (vm_compute; reflexivity).
    destruct Hfound as [?|[Hp|(? & ? & _)]]; [done| |done]. by rewrite Hp, Hb. }
  by rewrite unplanned in Hs.
Qed.
Lemma silent_room (w : World (D := bool) (W := list Text)) : provider w = [] → room true (λ _, None) NOW QUIET w.
Proof. intros Hp retry d fs saved _ Ha. rewrite Hp in Ha. by apply silent_fails in Ha. Qed.
Lemma offered_occurs : occurs OFFERED.
Proof.
  apply performed; [apply performed; [apply planned_occurs|]|]; apply silent_room; vm_compute; reflexivity.
Qed.

Lemma quiet_unwritten fs fs' : left_as QUIET fs fs' → fs' = fs.
Proof. by intros [?|?]. Qed.

Definition saved_there (fs : gmap (bool * Text) Bytes) : bool := match fs !! plan_path true with Some _ => true | None => false end.

Lemma only_approval_writes_witness :
  files SETTLED_PLAN ≠ files PLANNED ∧ last_shown about_plan (shown PLANNED) = Some (ShownPlan PROPOSED).
Proof.
  assert (Hne : files SETTLED_PLAN ≠ files PLANNED).
  { assert (Hnew : saved_there (files SETTLED_PLAN) = true) by (vm_compute; reflexivity).
    assert (Hold : saved_there (files PLANNED) = false) by (vm_compute; reflexivity).
    intros He. rewrite He, Hold in Hnew. discriminate Hnew. }
  split; [done|].
  pose proof (only_approval_writes to_ascii_lowercase true false (λ _, Err []) (λ _, None) (λ _, JNull) (λ _, []) folded_hex
    NOW QUIET (PlanCommandOf First Approve) PLANNED planned_occurs) as
      [Hu|[(d & entry & b & st & _ & Hl & Hs & _)|[(d & st & Hc & _)|[(g & _ & [Hc|(text & Hc & _)] & _)|(t & b & p & Hc & _)]]]];
    try discriminate Hc.
  - exact (False_ind _ (Hne (quiet_unwritten _ _ Hu))).
  - rewrite (proj1 planned_live) in Hl. by injection Hl as <-.
Defined.

Lemma proposed_waits : waits_ok (progress PROPOSED).
Proof.
  apply list.Forall_singleton. intros l Hl. cbn in Hl. injection Hl as <-. by repeat constructor.
Qed.
Lemma reviewed_plan_takes_effect_witness :
  inspect_documents true (files SETTLED_PLAN) (mkReadIo true true) = PlanReady SAMPLE (progress PROPOSED).
Proof.
  pose proof (reviewed_plan_takes_effect to_ascii_lowercase true false (λ _, Err []) (λ _, None) (λ _, JNull) (λ _, []) folded_hex
    NOW QUIET First PROPOSED PLANNED planned_occurs (proj1 planned_live)
    proposed_waits ltac:(intros old; by rewrite (proj1 (proj2 planned_live))) ltac:(vm_compute; reflexivity)) as [[Hl _]|Hdone].
  - assert (Hover : live_generation (host SETTLED_PLAN) = None) by (vm_compute; reflexivity).
    unfold live_generation in Hover. rewrite Hl in Hover. exfalso. revert Hover. vm_compute. discriminate.
  - destruct Hdone as (_ & st & brief & Hst%quiet_unwritten & Hb & _ & _ & _ & _ & _ & Hfound).
    assert (Hread : read_brief true (files PLANNED) (reads NOW) = Ok SAMPLE) by (vm_compute; reflexivity).
    rewrite Hread in Hb. injection Hb as <-. rewrite Hst, Hfound by done. vm_compute. reflexivity.
Defined.

(** The reviewed plan is run, in a repository made for it. *)
Lemma runs_are_reviewed_or_resumed_witness :
  ∃ w' g consent p, act NOW QUIET (Input 1 (txt " Yes ")) OFFERED = (true, w') ∧
    live (host OFFERED) = Some (g, LiveGuide (ResumeReview consent)) ∧ rc_progress consent = render p ∧
    resumable (inspect true (files w') (reads NOW) NotRunning None) = Ok p.
Proof.
  destruct (act NOW QUIET (Input 1 (txt " Yes ")) OFFERED) as [runs w'] eqn:Ha.
  assert (Hr : runs = true).
  { apply (f_equal fst) in Ha. cbn [fst] in Ha. rewrite <-Ha. vm_compute. reflexivity. }
  rewrite Hr in Ha.
  destruct (runs_are_reviewed_or_resumed to_ascii_lowercase true false (λ _, Err []) (λ _, None) (λ _, JNull) (λ _, []) folded_hex
    NOW QUIET _ OFFERED w' offered_occurs Ha) as [_ [(g & consent & p & made & Hl & _ & _ & _ & Hc & _ & Hk & _)|[Hc _]]].
  - exists w', g, consent, p. split; [by rewrite Hr|]. split; [exact Hl|]. split; [by rewrite Hc|exact (Hk fresh_keeps)].
  - discriminate Hc.
Defined.

Lemma input_stays_in_its_conversation_witness :
  act NOW QUIET (Input 0 (txt "yes")) OFFERED = (false, OFFERED) ∧ live_generation (host OFFERED) = Some 1.
Proof.
  split; [|vm_compute; reflexivity].
  apply (input_stays_in_its_conversation to_ascii_lowercase true false (λ _, Err []) (λ _, None) (λ _, JNull) (λ _, [])
    0 1 SETTLED_PLAN OFFERED NOW QUIET (txt "yes")).
  - vm_compute. reflexivity.
  - vm_compute. discriminate.
  - apply commanded. apply now.
  - vm_compute. discriminate.
Defined.

(** The plan is revised, and the model is gone. *)
Lemma failures_keep_the_conversation_witness :
  ∃ detail, live (host (act NOW QUIET (Input 0 (txt "split it")) PLANNED).2) =
    Some (0, LivePlan (PlanFailure (RetryRevise PROPOSED (txt "split it")) detail)).
Proof.
  destruct (failures_keep_the_conversation to_ascii_lowercase true false (λ _, Err []) (λ _, None) (λ _, JNull) (λ _, [])
    NOW QUIET 0 (txt "split it") PLANNED eq_refl) as [Hplan _].
  destruct (Hplan (ReviewingPlan PROPOSED) (RetryRevise PROPOSED (txt "split it"))) as (_ & detail & Hl & _).
  - vm_compute. reflexivity.
  - vm_compute. reflexivity.
  - right. eexists. vm_compute. reflexivity.
  - by exists detail.
Defined.

(** ** What reconciliation does to a dependency *)

(** A draft names a step 5 it does not have.  Its second step becomes step 5, so
    the plan passes for approval with a dependency nobody wrote. *)
Example invented_dependency_is_captured :
  let old := mkProgress (txt "thing") (txt "work") None [done_step 4 "Lay the base" "aaa" [] []] in
  let draft := mkProgress (txt "thing") (txt "work") None
    [planned 1 "Lay the base" [] []; planned 2 "Paint it" [1; 2] [1]; planned 3 "Ship it" [] [5]] in
  validate_for_approval draft TWO_CRITERIA ≠ Ok tt ∧
  match reconcile to_ascii_lowercase old draft [] with
  | Ok r => (depends <$> steps r) = [Some []; Some [4]; Some [5]] ∧ (number <$> steps r) = [4; 5; 6] ∧
            validate_for_approval r TWO_CRITERIA = Ok tt
  | Err _ => False
  end.
Proof. vm_compute. split; [discriminate|auto]. Qed.

(** A finished step numbered 0 can be read; a step that waits for it is written
    with a dependency that cannot. *)
Example step_zero_is_lost :
  let old := mkProgress (txt "thing") (txt "work") None [done_step 0 "Lay the base" "aaa" [] []] in
  let draft := mkProgress (txt "thing") (txt "work") None
    [todo_step 1 "Lay the base" [] []; todo_step 2 "Paint it" [1] [1]] in
  parse (render old) = Ok old ∧ parse (render draft) = Ok draft ∧
  match reconcile to_ascii_lowercase old draft [] with
  | Ok r => depends <$> steps r = [Some []; Some [0]] ∧ ∃ e, parse (render r) = Err e
  | Err _ => False
  end.
Proof. vm_compute. split_and!; eauto. Qed.
