(* ===== verification/Envelope.v ===== *)
(** * The envelope of a unit of work (WorkUnit of
    localpilot-harness/src/granularity.rs; bounded_read_hint of
    localpilot-tools/src/tool.rs)

    Before a tool that changes files runs, its arguments are sized and the size
    is reserved from what the unit may still change.  The workspace (how a path
    is normalised, whether it lies in the scratch directory, how long the file
    is) is an interface; the printer of JSON is a parameter. *)

From Stdlib Require Import String.
From stdpp Require Import base gmap list numbers.
From S2P Require Import Prelude Monitor Utf8 Chars Message Json Fields Brief Progress.
From S2P Require Import Granularity.
From stdpp Require Import list.
#[local] Open Scope N_scope.
#[local] Open Scope list_scope.

(** What the sizing asks the workspace and the disk. *)
Class WorkspaceView (P : Type) := {
  normalize : Text → option P;
  scratch_contains : P → bool;
  file_len : P → option N;
}.

Record WorkRefusal := mkRefusal { message : Text; blocks_opaque_retry : bool }.
Definition reject (reason : Text) : WorkRefusal :=
  mkRefusal (txt "work envelope: " ++ reason
             ++ txt "; split into a smaller coherent unit, verify it, and checkpoint before continuing") true.

(** ** The preview of an exact edit *)

(** The entry of the map from the lines of the new text: [Some None] for a line
    that stands more than once. *)
Definition positions (new : list Text) (line : Text) : option (option nat) :=
  match List.filter (λ e, bool_decide (snd e = line)) (imap pair new) with
  | [] => None
  | [(j, _)] => Some (Some j)
  | _ => Some None
  end.
(** The shared lines, in order; [None] where other alignments compete. *)
Fixpoint anchors_of (new : list Text) (i : nat) (old : list Text) (seen : list Text) (anchors : list (nat * nat))
    : option (list (nat * nat)) :=
  match old with
  | [] => Some anchors
  | line :: old =>
      match positions new line with
      | None => anchors_of new (S i) old seen anchors
      | Some None => None
      | Some (Some j) =>
          if bool_decide (line ∈ seen)
             || match list.last anchors with Some (_, previous) => (j <=? previous)%nat | None => false end
          then None
          else anchors_of new (S i) old (line :: seen) (anchors ++ [(i, j)])
      end
  end.
Definition region_step (st : nat * nat * N) (anchor : nat * nat) : nat * nat * N :=
  let '(old_end, new_end, regions) := st in
  let '(i, j) := anchor in
  (S i, S j, if ((old_end <? i) || (new_end <? j))%nat then regions + 1 else regions).
Definition argument_change_regions_bounded (old new : Text) (limit : N) : option N :=
  let old := lines old in
  let new := lines new in
  if N.min limit 10000 <? N.of_nat (length old) + N.of_nat (length new) then None
  else match anchors_of new 0 old [] [] with
       | None => Some 1
       | Some anchors =>
           let '(old_end, new_end, regions) := fold_left region_step anchors (O, O, 0) in
           Some (if ((old_end <? length old) || (new_end <? length new))%nat then regions + 1 else regions)
       end.

(** ** Arguments of a call *)

Definition as_bool (v : Json) : option bool := match v with JBool b => Some b | _ => None end.
Definition arg (v : Json) (k : string) : option Json := json_get (txt k) v.
Definition str_arg (v : Json) (k : string) : option Text := arg v k ≫= as_str.

(** [div_ceil] by the width of a line. *)
Definition material (text : Text) : N :=
  N.max (N.of_nat (length (lines text))) ((N.of_nat (utf8_len text) + 79) / 80).
Definition hunk_cost (hunk : Json) : N :=
  fold_left (λ cost field, match str_arg hunk field with Some text => u64_sat_add cost (material text) | None => cost end)
    ["old_text"; "new_text"; "content"]%string 0.

Section hint.
(** [Value::to_string]. *)
Context (json_text : Json → Text).
Definition bounded_read_hint (name : Text) (input : Json) (max_lines : N) : Text :=
  let start := N.max (default 1 (arg input "start_line" ≫= as_u64)) 1 in
  let stop := u64_sat_add start (N.max max_lines 1 - 1) in
  let arguments :=
    map_insert (txt "end_line") (JNumber (show_N stop))
      (map_insert (txt "start_line") (JNumber (show_N start)) (default [] (as_object input))) in
  txt "Retry with: " ++ json_text (json_object [("name"%string, JString name); ("arguments"%string, JObject arguments)]).
End hint.

Section unit.
Context {P : Type} `{Countable P} `{WorkspaceView P} (json_text : Json → Text).

Record WorkUnit := mkUnit {
  unit_files : gset P;
  unit_regions : N;
  unit_lines : N;
  created : gmap P N;
}.
Definition unit_default : WorkUnit := mkUnit ∅ 0 0 ∅.

Definition has_mutations (u : WorkUnit) : bool := negb (unit_regions u =? 0).
Definition new_lines (u : WorkUnit) : N := map_fold (λ _ n total, u64_add n total) 0 (created u).
Definition usage (u : WorkUnit) (p : WorkProfile) : Text :=
  txt "files " ++ show_nat (size (unit_files u)) ++ txt "/" ++ show_N (max_files p)
  ++ txt ", regions " ++ show_N (unit_regions u) ++ txt "/" ++ show_N (max_regions p)
  ++ txt ", changed lines " ++ show_N (unit_lines u) ++ txt "/" ++ show_N (max_changed_lines p)
  ++ txt ", new-file lines " ++ show_N (new_lines u) ++ txt "/" ++ show_N (max_new_file_lines p).

Definition set_regions (v : N) (u : WorkUnit) : WorkUnit := mkUnit (unit_files u) v (unit_lines u) (created u).
Definition set_lines (v : N) (u : WorkUnit) : WorkUnit := mkUnit (unit_files u) (unit_regions u) v (created u).
Definition set_created (v : gmap P N) (u : WorkUnit) : WorkUnit := mkUnit (unit_files u) (unit_regions u) (unit_lines u) v.
Definition add_file (path : P) (u : WorkUnit) : WorkUnit :=
  mkUnit ({[path]} ∪ unit_files u) (unit_regions u) (unit_lines u) (created u).

(** How sizing a part of a call goes on: with what is proposed so far, with a
    refusal, or out of the function without one (the source's [?]). *)
Inductive Sized :=
  | Proposed (u : WorkUnit)
  | Refused (w : WorkRefusal)
  | Waved.

Definition exceeds (u : WorkUnit) (p : WorkProfile) : WorkRefusal :=
  reject (txt "cumulative files, regions or patch size exceeds the active profile (" ++ usage u p ++ txt ")").

(** One hunk of an operation on [path]. *)
Definition size_hunk (p : WorkProfile) (path : P) (ours creates : bool) (u : WorkUnit) (hunk : Json) : Sized :=
  let cost := hunk_cost hunk in
  let u :=
    if ours
    then match created u !! path with
         | Some spent => set_created (<[path := u64_sat_add spent cost]> (created u)) u
         | None => u
         end
    else set_lines (u64_sat_add (unit_lines u) cost) u in
  if (max_changed_lines p <? unit_lines u) || (max_new_file_lines p <? new_lines u)
  then Refused (exceeds u p)
  else
    let preview :=
      match str_arg hunk "old_text", str_arg hunk "new_text" with
      | Some old, Some new => N.max 1 <$> argument_change_regions_bounded old new (N.max (max_changed_lines p) 400)
      | _, _ => Some 1
      end in
    match preview with
    | None => Refused (reject (txt "exact edit preview exceeds its computation bound"))
    | Some regions =>
        let regions := if ours && negb creates then 0 else regions in
        Proposed (set_regions (u64_sat_add (unit_regions u) regions) u)
    end.
Fixpoint size_hunks (p : WorkProfile) (path : P) (ours creates : bool) (u : WorkUnit) (hunks : list Json) : Sized :=
  match hunks with
  | [] => Proposed u
  | hunk :: hunks =>
      match size_hunk p path ours creates u hunk with
      | Proposed u => size_hunks p path ours creates u hunks
      | other => other
      end
  end.

(** The hunks of an operation; [None] for arguments the tool itself refuses. *)
Definition hunks_of (name action : Text) (op : Json) : option (list Json) :=
  if bool_decide (name = txt "multi_edit") then arg op "edits" ≫= as_array
  else if bool_decide (name = txt "apply_patch") && bool_decide (action = txt "update") then arg op "hunks" ≫= as_array
  else Some [op].

(** One operation of a call. *)
Definition size_operation (p : WorkProfile) (name : Text) (u : WorkUnit) (op : Json) : Sized :=
  match str_arg op "path" with
  | None => Waved
  | Some candidate =>
      match normalize candidate with
      | None => Refused (reject (txt "write target cannot be normalized for bounded sizing"))
      | Some path =>
          if scratch_contains path then Proposed u
          else
            let action := default name (str_arg op "action") in
            let writes_content :=
              bool_decide (name ∈ [txt "write_file"; txt "append_file"])
              || bool_decide (name = txt "apply_patch") && bool_decide (action = txt "create") in
            let was_created := bool_decide (is_Some (created u !! path)) in
            let creates := writes_content && bool_decide (file_len path = None) && negb was_created in
            let ours := creates || was_created in
            let overwrites := bool_decide (action ∈ [txt "delete"; txt "write_file"]) && negb ours in
            let whole := if overwrites then default 0 (file_len path) else 0 in
            if max_changed_lines p <? whole
            then Refused (reject (txt "whole-file overwrite/deletion is unbounded (" ++ show_N whole
                                  ++ txt " bytes against " ++ show_N (max_changed_lines p)
                                  ++ txt " changed lines); use exact region edits"))
            else
              let u := set_lines (u64_sat_add (unit_lines u) whole) u in
              let u :=
                if creates || bool_decide (action = txt "write_file") && ours
                then set_created (<[path := 0]> (created u)) u else u in
              let u := add_file path u in
              match hunks_of name action op with
              | None => Waved
              | Some hunks => size_hunks p path ours creates u hunks
              end
      end
  end.
Fixpoint size_operations (p : WorkProfile) (name : Text) (u : WorkUnit) (ops : list Json) : Sized :=
  match ops with
  | [] => Proposed u
  | op :: ops =>
      match size_operation p name u op with
      | Proposed u => size_operations p name u ops
      | other => other
      end
  end.
Definition over_budget (u : WorkUnit) (p : WorkProfile) : bool :=
  (max_files p <? N.of_nat (size (unit_files u))) || (max_regions p <? unit_regions u)
  || (max_changed_lines p <? unit_lines u) || (max_new_file_lines p <? new_lines u).

(** The tools that change files by their arguments. *)
Definition reserve_operations (p : WorkProfile) (name : Text) (u : WorkUnit) (ops : list Json)
    : WorkUnit * option WorkRefusal :=
  match size_operations p name u ops with
  | Waved => (u, None)
  | Refused w => (u, Some w)
  | Proposed proposed => if over_budget proposed p then (u, Some (exceeds proposed p)) else (proposed, None)
  end.

(** A read needs a page that fits. *)
Definition check_read (p : WorkProfile) (name : Text) (input : Json) : option WorkRefusal :=
  let start := default 1 (arg input "start_line" ≫= as_u64) in
  let stop := arg input "end_line" ≫= as_u64 in
  if bool_decide (name = txt "read_file") && bool_decide (stop = None) then None
  else
    let bounded := match stop with Some stop => (start <=? stop) && (stop - start <? max_read_lines p) | None => false end in
    if bounded then None
    else Some (mkRefusal (txt "work envelope: request an explicit start_line/end_line page within the read limit. "
                          ++ bounded_read_hint json_text name input (max_read_lines p)) false).

Definition literal_once (input : Json) : bool :=
  negb (bool_decide (arg input "regex" ≫= as_bool = Some true)) && bool_decide (arg input "all" ≫= as_bool = Some false).
Definition GLOBAL_REPLACEMENT : Text :=
  txt "work envelope: use bounded exact edit_file hunks instead of global/regex replacement (replace_in_file is admitted only as one exact block: regex false and all false); split into a smaller coherent unit, verify it, and checkpoint before continuing".

Definition check_and_reserve (p : WorkProfile) (name : Text) (input : Json) (u : WorkUnit)
    : WorkUnit * option WorkRefusal :=
  if bool_decide (name = txt "swarm")
  then (u, Some (reject (txt "fan-out has no single coherent mutation scope; split it into independently reviewed units")))
  else if bool_decide (name = txt "delegate") then
    if max_regions p <=? unit_regions u
    then (u, Some (reject (txt "delegation would exceed the active region budget")))
    else (set_regions (u64_sat_add (unit_regions u) 1) u, None)
  else if bool_decide (name ∈ [txt "read_file"; txt "read_tool_output"]) then (u, check_read p name input)
  else if bool_decide (name = txt "replace_in_file") then
    if literal_once input
    then match str_arg input "path", str_arg input "find", str_arg input "replace" with
         | Some path, Some find, Some replace =>
             reserve_operations p (txt "edit_file") u
               [json_object [("path"%string, JString path); ("old_text"%string, JString find);
                             ("new_text"%string, JString replace)]]
         | _, _, _ => (u, None)
         end
    else (u, Some (mkRefusal GLOBAL_REPLACEMENT false))
  else if bool_decide (name = txt "apply_patch") then
    match arg input "operations" ≫= as_array with
    | Some ops => reserve_operations p name u ops
    | None => (u, None)
    end
  else if bool_decide (name ∈ [txt "write_file"; txt "append_file"; txt "edit_file"; txt "multi_edit"])
  then reserve_operations p name u [input]
  else (u, None).

(** [refusal]: the same question without the reservation. *)
Definition refusal (u : WorkUnit) (p : WorkProfile) (name : Text) (input : Json) : option WorkRefusal :=
  snd (check_and_reserve p name input u).
End unit.
Arguments WorkUnit P {_ _}.

(** ** Samples *)

Definition text_lines (ls : list string) : Text := unlines (txt <$> ls).
Example previews :
  ((λ e, argument_change_regions_bounded (text_lines (fst e)) (text_lines (snd e)) 400) <$>
    [([], []); (["same"], ["same"]); (["a"; "b"; "c"], ["a"; "B"; "C"]); (["a"; "b"; "a"; "c"], ["a"; "B"; "a"; "C"]);
     (["a"; "b"], ["b"; "a"]); (["first"; "anchor"; "last"], ["FIRST"; "anchor"; "LAST"]); (["a"; "b"], [])]%string) =
  [Some 0; Some 0; Some 1; Some 1; Some 1; Some 2; Some 1].
Proof. vm_compute. reflexivity. Qed.

(** ** What the envelope of a unit of work guarantees

    However many calls are asked for, what was admitted stays within the profile;
    a refused call spends nothing; the preview of an edit is an edit script. *)

(** ** Scripts of changed runs *)

(** [script n old new]: [new] comes from [old] by keeping lines and replacing
    [n] runs of lines. *)
Inductive script : N → list Text → list Text → Prop :=
  | script_nil : script 0 [] []
  | script_same n old new l : script n old new → script n (old ++ [l]) (new ++ [l])
  | script_change n old new o w : script n old new → o ≠ [] ∨ w ≠ [] → script (n + 1) (old ++ o) (new ++ w).

Lemma script_refl l : script 0 l l.
Proof. induction l as [|x l IH] using rev_ind; by constructor. Qed.
Lemma script_zero old new : script 0 old new → old = new.
Proof.
  intros Hs. remember 0 as n eqn:Hn. induction Hs as [|n old new l _ IH|n old new o w _ IH]; [done| |lia].
  by rewrite IH.
Qed.
Lemma script_gap n old new o w : script n old new →
  script (if (0 <? length o)%nat || (0 <? length w)%nat then n + 1 else n) (old ++ o) (new ++ w).
Proof.
  intros Hs. destruct o as [|x o]; [destruct w as [|y w]|]; cbn [length Nat.ltb Nat.leb orb].
  - by rewrite !app_nil_r.
  - apply script_change; [done|by right].
  - apply script_change; [done|by left].
Qed.

(** The bounds that the last anchor sets. *)
Definition bounds (anchors : list (nat * nat)) : nat * nat :=
  match list.last anchors with Some (i, j) => (S i, S j) | None => (O, O) end.
Lemma bounds_snoc anchors i j : bounds (anchors ++ [(i, j)]) = (S i, S j).
Proof. unfold bounds. by rewrite last_snoc. Qed.
(** Anchors that rise in both texts and join equal lines. *)
Inductive rising (old new : list Text) : list (nat * nat) → Prop :=
  | rising_nil : rising old new []
  | rising_snoc anchors i j x :
      rising old new anchors → (fst (bounds anchors) <= i)%nat → (snd (bounds anchors) <= j)%nat →
      old !! i = Some x → new !! j = Some x → rising old new (anchors ++ [(i, j)]).

Lemma take_gap (l : list Text) a i x : (a <= i)%nat → l !! i = Some x →
  take (S i) l = take a l ++ take (i - a) (drop a l) ++ [x].
Proof.
  intros Ha Hx. rewrite (take_S_r _ _ x) by done. rewrite app_assoc. f_equal.
  rewrite <-(take_drop a (take i l)), take_take, Nat.min_l by done. f_equal. by rewrite skipn_firstn_comm.
Qed.
Lemma gap_length (l : list Text) a i : (a <= i)%nat → (i < length l)%nat →
  (0 <? length (take (i - a) (drop a l)))%nat = (a <? i)%nat.
Proof.
  intros Ha Hi. rewrite length_take, length_drop. destruct (Nat.ltb_spec a i).
  - apply Nat.ltb_lt. lia.
  - apply Nat.ltb_ge. lia.
Qed.
Lemma regions_script old new anchors : rising old new anchors →
  ∃ n, fold_left region_step anchors (O, O, 0) = (bounds anchors, n) ∧
       script n (take (fst (bounds anchors)) old) (take (snd (bounds anchors)) new).
Proof.
  induction 1 as [|anchors i j x Hr (n & Hn & Hs) Ha Hb Hi Hj].
  - exists 0. split; [done|]. constructor.
  - rewrite fold_left_app, Hn, bounds_snoc. destruct (bounds anchors) as [a b]. cbn [fst snd fold_left region_step] in *.
    eexists. split; [done|]. rewrite (take_gap old a i x), (take_gap new b j x) by done. rewrite !app_assoc.
    apply script_same. rewrite <-(gap_length old a i), <-(gap_length new b j);
      [by apply script_gap|done|by eapply lookup_lt_Some|done|by eapply lookup_lt_Some].
Qed.

Lemma positions_found new line j : positions new line = Some (Some j) → new !! j = Some line.
Proof.
  unfold positions. destruct (List.filter _ _) as [|[k l] [|? ?]] eqn:Hf; try done. intros [= <-].
  assert (Hin : (k, l) ∈ List.filter (λ e, bool_decide (snd e = line)) (imap pair new)) by (rewrite Hf; by left).
  apply list_elem_of_In, filter_In in Hin as [Hin Hl]. apply bool_decide_eq_true in Hl. cbn in Hl. subst l.
  apply list_elem_of_In, list_elem_of_lookup in Hin as [m Hm]. rewrite list_lookup_imap in Hm.
  apply fmap_Some in Hm as (y & Hy & [= -> ->]). done.
Qed.
Lemma anchors_rising (all new old : list Text) i seen anchors anchors' :
  anchors_of new i old seen anchors = Some anchors' → drop i all = old → rising all new anchors →
  (fst (bounds anchors) <= i)%nat → rising all new anchors'.
Proof.
  revert i seen anchors. induction old as [|line old IH]; intros i seen anchors Ha Hd Hr Hb; cbn [anchors_of] in Ha.
  { by injection Ha as <-. }
  assert (Hline : all !! i = Some line) by (rewrite <-(Nat.add_0_r i), <-lookup_drop, Hd; done).
  assert (Hd' : drop (S i) all = old) by (by rewrite <-Nat.add_1_r, <-drop_drop, Hd).
  destruct (positions new line) as [[j|]|] eqn:Hp; [|done|by eapply IH; [done|done|done|lia]].
  destruct (bool_decide _ || _) eqn:Hc; [done|]. apply orb_false_iff in Hc as [_ Hc].
  apply positions_found in Hp. eapply IH; [exact Ha|done| |by rewrite bounds_snoc].
  apply rising_snoc with line; try done. unfold bounds. destruct (list.last anchors) as [[k l]|]; cbn [snd]; [|lia].
  apply Nat.leb_gt in Hc. lia.
Qed.

(** The preview of an edit is an edit that can be made: what it counts is a
    number of runs of lines whose replacement turns the old text into the new
    one, no run is counted for texts with the same lines, and it is not computed
    beyond its bound on the lines of both. *)
Lemma preview_is_a_script old new limit :
  match argument_change_regions_bounded old new limit with
  | Some n => ∃ k, k <= n ∧ script k (lines old) (lines new)
  | None => N.min limit 10000 < N.of_nat (length (lines old)) + N.of_nat (length (lines new))
  end.
Proof.
  unfold argument_change_regions_bounded. cbv zeta. destruct (N.ltb_spec (N.min limit 10000)
    (N.of_nat (length (lines old)) + N.of_nat (length (lines new)))) as [|_]; [done|].
  destruct (anchors_of (lines new) 0 (lines old) [] []) as [anchors|] eqn:Ha.
  - apply (anchors_rising (lines old)) in Ha; [|done|constructor|done].
    apply regions_script in Ha as (n & -> & Hs). destruct (bounds anchors) as [a b]. cbn [fst snd] in Hs.
    eexists. split; [reflexivity|]. apply script_gap with (o := drop a (lines old)) (w := drop b (lines new)) in Hs.
    rewrite !take_drop, !length_drop in Hs.
    assert (Hl : ∀ a l, (0 <? l - a)%nat = (a <? l)%nat) by (intros x l; destruct (Nat.ltb_spec x l);
      [apply Nat.ltb_lt|apply Nat.ltb_ge]; lia).
    by rewrite !Hl in Hs.
  - destruct (decide (lines old = lines new)) as [->|Hne]; [exists 0; split; [lia|apply script_refl]|].
    exists 1. split; [done|]. apply (script_change 0 [] [] (lines old) (lines new)); [constructor|].
    destruct (lines old); [right; by intros Hw; rewrite Hw in Hne|by left].
Qed.

(** ** Profiles only tighten *)

Definition tighter (p q : WorkProfile) : Prop :=
  max_files p <= max_files q ∧ max_regions p <= max_regions q ∧ max_read_lines p <= max_read_lines q ∧
  max_changed_lines p <= max_changed_lines q ∧ max_new_file_lines p <= max_new_file_lines q ∧
  max_decisions p <= max_decisions q ∧ max_output_bytes p <= max_output_bytes q.
#[export] Instance tighter_refl : Reflexive tighter.
Proof. intros p. unfold tighter. lia. Qed.
#[export] Instance tighter_trans : Transitive tighter.
Proof. intros p q r. unfold tighter. lia. Qed.
Lemma with_cap_le bound cap : with_cap bound cap <= bound.
Proof. destruct cap; cbn; lia. Qed.
Lemma tightened next p : tighter (tighten next p) p ∧
  (stop_after_checkpoint p = true → stop_after_checkpoint (tighten next p) = true).
Proof. unfold tighter, tighten. cbn. split; [lia|]. by intros ->. Qed.
Lemma caps_tighten caps p : tighter (tighten_caps caps p) p.
Proof. unfold tighter, tighten_caps. cbn. split_and!; apply with_cap_le || lia. Qed.
Lemma scope_tightens s p : tighter (bound_to_scope s p) p.
Proof. unfold tighter, bound_to_scope. cbn. lia. Qed.
(** A scope that a profile accepts is the ceiling of the unit that works it. *)
Lemma accepted_scope_bounds s p : accepts p s = true →
  max_files (bound_to_scope s p) = files s ∧ max_regions (bound_to_scope s p) = regions s ∧
  max_decisions (bound_to_scope s p) = decisions s ∧ max_changed_lines (bound_to_scope s p) = changed_lines s.
Proof. unfold accepts, bound_to_scope. rewrite !andb_true_iff, !N.leb_le, N.ltb_lt. cbn. lia. Qed.

(** What the steps of a session do to the profile of the unit at work. *)
Inductive Tightening :=
  | ByTelemetry (next : WorkProfile)
  | ByCaps (caps : GranularityConfig)
  | ByScope (s : WorkScope).
Definition apply_tightening (p : WorkProfile) (t : Tightening) : WorkProfile :=
  match t with ByTelemetry next => tighten next p | ByCaps caps => tighten_caps caps p | ByScope s => bound_to_scope s p end.
Lemma tightening_tighter p t : tighter (apply_tightening p t) p.
Proof. destruct t; [apply tightened|apply caps_tighten|apply scope_tightens]. Qed.

(** ** The unit *)

Section unit.
Context {P : Type} `{Countable P} `{WorkspaceView P} (json_text : Json → Text).
Abbreviation WorkUnit := (Envelope.WorkUnit P).
Abbreviation check_and_reserve := (Envelope.check_and_reserve json_text).

(** The counters of a unit fit their width. *)
Definition counted (u : WorkUnit) : Prop := unit_regions u <= U64_MAX ∧ unit_lines u <= U64_MAX.
(** Nothing that was spent comes back. *)
Definition grown (u v : WorkUnit) : Prop :=
  unit_files u ⊆ unit_files v ∧ unit_regions u <= unit_regions v ∧ unit_lines u <= unit_lines v ∧
  dom (created u) ⊆ dom (created v) ∧ (counted u → counted v).
#[local] Instance grown_refl : Reflexive grown.
Proof. intros u. unfold grown. by split_and!. Qed.
#[local] Instance grown_trans : Transitive grown.
Proof. intros u v w (? & ? & ? & ? & ?) (? & ? & ? & ? & ?). unfold grown. split_and!; [set_solver|lia|lia|set_solver|auto]. Qed.
Lemma sat_add_grows a b : a <= U64_MAX → a <= u64_sat_add a b <= U64_MAX.
Proof. unfold u64_sat_add. lia. Qed.
Lemma lines_grow u n : counted u → grown u (set_lines (u64_sat_add (unit_lines u) n) u).
Proof.
  intros [Hr Hl]. pose proof (sat_add_grows _ n Hl). unfold grown, counted. cbn. split_and!; try done; lia.
Qed.
Lemma regions_grow u n : counted u → grown u (set_regions (u64_sat_add (unit_regions u) n) u).
Proof.
  intros [Hr Hl]. pose proof (sat_add_grows _ n Hr). unfold grown, counted. cbn. split_and!; try done; lia.
Qed.
Lemma created_grows u path n : grown u (set_created (<[path := n]> (created u)) u).
Proof. unfold grown, counted. cbn. split_and!; try done; try lia. rewrite dom_insert. set_solver. Qed.
Lemma file_grows u path : grown u (add_file path u).
Proof. unfold grown, counted. cbn. split_and!; try done; try lia; set_solver. Qed.

Lemma size_hunk_grows p path (ours creates : bool) u hunk v : counted u →
  size_hunk p path ours creates u hunk = Proposed v → grown u v.
Proof.
  intros Hc. unfold size_hunk. set (w := if ours then _ else _).
  assert (Hw : grown u w).
  { subst w. destruct ours; [|by apply lines_grow]. destruct (created u !! path); [apply created_grows|done]. }
  destruct (_ || _); [done|]. destruct (match str_arg hunk "old_text" with Some _ => _ | None => _ end); [|done].
  intros [= <-]. etrans; [exact Hw|]. apply regions_grow. by apply Hw.
Qed.
Lemma size_hunks_grow p path (ours creates : bool) hunks u v : counted u →
  size_hunks p path ours creates u hunks = Proposed v → grown u v.
Proof.
  revert u. induction hunks as [|h hunks IH]; intros u Hc; cbn [size_hunks]; [by intros [= <-]|].
  destruct (size_hunk _ _ _ _ _ _) as [w| |] eqn:Hh; [|done|done]. apply size_hunk_grows in Hh as Hg; [|done].
  intros Hs. etrans; [exact Hg|]. apply IH; [by apply Hg|done].
Qed.
Lemma size_operation_grows p name u op v : counted u → size_operation p name u op = Proposed v → grown u v.
Proof.
  intros Hc. unfold size_operation. cbv zeta. destruct (str_arg op "path") as [candidate|]; [|done].
  destruct (normalize candidate) as [path|]; [|done]. destruct (scratch_contains path); [by intros [= <-]|].
  destruct (_ <? _); [done|]. destruct (hunks_of _ _ _) as [hunks|]; [|done].
  match goal with |- context [u64_sat_add (unit_lines u) ?n] => set (u1 := set_lines (u64_sat_add (unit_lines u) n) u) end.
  assert (H1 : grown u u1) by by apply lines_grow.
  match goal with |- context [add_file path ?w] => set (u2 := w) end.
  assert (H2 : grown u u2).
  { etrans; [exact H1|]. subst u2. match goal with |- grown _ (if ?b then _ else _) => destruct b end; [apply created_grows|done]. }
  assert (H3 : grown u (add_file path u2)) by (etrans; [exact H2|apply file_grows]).
  intros Hs. etrans; [exact H3|]. eapply size_hunks_grow; [|exact Hs]. by apply H3.
Qed.
Lemma size_operations_grow p name ops u v : counted u → size_operations p name u ops = Proposed v → grown u v.
Proof.
  revert u. induction ops as [|op ops IH]; intros u Hc; cbn [size_operations]; [by intros [= <-]|].
  destruct (size_operation _ _ _ _) as [w| |] eqn:Ho; [|done|done]. apply size_operation_grows in Ho as Hg; [|done].
  intros Hs. etrans; [exact Hg|]. apply IH; [by apply Hg|done].
Qed.

(** What one call may do to a unit. *)
Definition admitted (p : WorkProfile) (u v : WorkUnit) : Prop :=
  grown u v ∧ (v = u ∨ over_budget v p = false ∨
               v = set_regions (unit_regions u + 1) u ∧ unit_regions u + 1 <= max_regions p).
Lemma reserve_admitted p name u ops : counted u →
  let '(v, refusal) := reserve_operations p name u ops in
  admitted p u v ∧ (refusal ≠ None → v = u).
Proof.
  intros Hc. unfold reserve_operations. destruct (size_operations p name u ops) as [v|w|] eqn:Hs.
  - destruct (over_budget v p) eqn:Ho; [split; [split; [done|by left]|done]|]. split; [|done].
    split; [by eapply size_operations_grow|auto].
  - split; [split; [done|by left]|done].
  - split; [split; [done|by left]|done].
Qed.
Lemma call_admitted p name input u : counted u →
  let '(v, refusal) := check_and_reserve p name input u in
  admitted p u v ∧ (refusal ≠ None → v = u).
Proof.
  intros Hc. assert (Hsame : admitted p u u) by (split; [done|by left]). unfold Envelope.check_and_reserve.
  case_bool_decide; [done|]. case_bool_decide.
  { destruct (N.leb_spec (max_regions p) (unit_regions u)) as [|Hlt]; [done|]. split; [|done].
    split; [by apply regions_grow|]. unfold u64_sat_add. destruct (N.le_gt_cases (unit_regions u + 1) U64_MAX).
    - right. right. rewrite N.min_l by done. split; [done|lia].
    - left. destruct Hc as [Hr _]. rewrite N.min_r by lia. destruct u as [f r l c]. cbn in *.
      replace r with U64_MAX by lia. done. }
  case_bool_decide; [done|]. case_bool_decide.
  { destruct (literal_once input); [|done]. destruct (str_arg input "path"); [|done].
    destruct (str_arg input "find"); [|done]. destruct (str_arg input "replace"); [|done]. by apply reserve_admitted. }
  case_bool_decide; [destruct (_ ≫= _); [by apply reserve_admitted|done]|].
  case_bool_decide; [by apply reserve_admitted|done].
Qed.

Definition within (p : WorkProfile) (u : WorkUnit) : Prop :=
  N.of_nat (size (unit_files u)) <= max_files p ∧ unit_regions u <= max_regions p ∧
  unit_lines u <= max_changed_lines p ∧ new_lines u <= max_new_file_lines p.
Lemma over_budget_within p u : over_budget u p = false ↔ within p u.
Proof. unfold over_budget, within. rewrite !orb_false_iff, !N.ltb_ge. tauto. Qed.
Lemma within_looser p q u : tighter p q → within p u → within q u.
Proof. unfold tighter, within. lia. Qed.

(** ** A unit at work *)

Inductive UnitEvent :=
  | Tighten (t : Tightening)
  | Call (name : Text) (input : Json).
Definition unit_step (st : WorkProfile * WorkUnit) (e : UnitEvent) : WorkProfile * WorkUnit :=
  let '(p, u) := st in
  match e with
  | Tighten t => (apply_tightening p t, u)
  | Call name input => (p, fst (check_and_reserve p name input u))
  end.
Definition run_unit (st : WorkProfile * WorkUnit) (es : list UnitEvent) : WorkProfile * WorkUnit := fold_left unit_step es st.

Lemma call_step p name input u : counted u →
  let v := fst (check_and_reserve p name input u) in
  admitted p u v ∧ (snd (check_and_reserve p name input u) ≠ None → v = u).
Proof. intros Hc. pose proof (call_admitted p name input u Hc) as Ha. by destruct (check_and_reserve p name input u). Qed.
Lemma admitted_within p q u v : tighter p q → within q u → admitted p u v → within q v.
Proof.
  intros Hpq Hu [_ [->|[Hv|[-> Hr]]]]; [done|by eapply within_looser, over_budget_within|].
  unfold within, new_lines in *. cbn. unfold tighter in Hpq. lia.
Qed.
Lemma run_unit_keeps p0 es : ∀ p u, tighter p p0 → counted u → within p0 u →
  let '(q, v) := run_unit (p, u) es in tighter q p ∧ counted v ∧ grown u v ∧ within p0 v.
Proof.
  induction es as [|e es IH]; intros p u Hp Hc Hw; [done|]. unfold run_unit. cbn [fold_left].
  destruct e as [t|name input]; cbn [unit_step].
  - pose proof (tightening_tighter p t) as Ht. specialize (IH (apply_tightening p t) u ltac:(by etrans) Hc Hw).
    unfold run_unit in IH. destruct (fold_left unit_step es _) as [q v]. destruct IH as (? & ? & ? & ?).
    split_and!; [by etrans|done|done|done].
  - destruct (call_step p name input u Hc) as [Ha _]. cbv zeta in Ha. set (w := fst _) in *.
    assert (Hg : grown u w) by apply Ha.
    specialize (IH p w Hp (ltac:(apply Hg; done)) (admitted_within p p0 u w Hp Hw Ha)).
    unfold run_unit in IH. destruct (fold_left unit_step es _) as [q v]. destruct IH as (? & ? & ? & ?).
    split_and!; [done|done|by etrans|done].
Qed.
Lemma default_counted : counted unit_default.
Proof. by split. Qed.
Lemma default_within p : within p unit_default.
Proof. unfold within, unit_default, new_lines. cbn. rewrite size_empty, map_fold_empty. cbn. lia. Qed.

(** C17. A unit of work stays in its envelope.  Whatever calls are asked for and
    however the profile is tightened in between, by telemetry, by the user's caps
    or by the scope of a step, the files, regions, lines and lines of new files
    that were admitted are within the profile the unit began with; the profile
    only gets tighter; no file, region or changed line that was spent comes back;
    and a refused call, a mixed patch included, spends nothing. *)
Theorem unit_stays_in_its_envelope p0 es1 es2 name input :
  let '(p1, u1) := run_unit (p0, unit_default) es1 in
  let '(p2, u2) := run_unit (p1, u1) es2 in
  tighter p2 p1 ∧ within p0 u2 ∧ grown u1 u2 ∧
  (snd (check_and_reserve p2 name input u2) ≠ None → fst (check_and_reserve p2 name input u2) = u2).
Proof.
  pose proof (run_unit_keeps p0 es1 p0 unit_default ltac:(done) default_counted (default_within p0)) as H1.
  destruct (run_unit (p0, unit_default) es1) as [p1 u1]. destruct H1 as (Hp1 & Hc1 & _ & Hw1).
  pose proof (run_unit_keeps p0 es2 p1 u1 Hp1 Hc1 Hw1) as H2.
  destruct (run_unit (p1, u1) es2) as [p2 u2]. destruct H2 as (Hp2 & Hc2 & Hg & Hw2).
  split_and!; [done|done|done|]. by apply call_step.
Qed.

(** ** Exact edits *)

(** What the texts of an edit take, in lines. *)
Definition field_size (op : Json) (field : string) : N :=
  match str_arg op field with Some text => material text | None => 0 end.
Definition edit_size (op : Json) : N :=
  field_size op "old_text" + field_size op "new_text" + field_size op "content".
(** The file that an exact edit changes, when it is one of the project's that the
    unit did not make itself. *)
Definition edit_target (u : WorkUnit) (name : Text) (input : Json) : option P :=
  if bool_decide (name = txt "edit_file")
  then candidate ← str_arg input "path"; path ← normalize candidate;
       if scratch_contains path || bool_decide (is_Some (created u !! path)) then None else Some path
  else None.
(** The exact edits that were let through, each with its file and its size. *)
Fixpoint admitted_edits (st : WorkProfile * WorkUnit) (es : list UnitEvent) : list (P * N) :=
  match es with
  | [] => []
  | e :: es =>
      match e with
      | Tighten _ => []
      | Call name input =>
          match edit_target (snd st) name input, snd (check_and_reserve (fst st) name input (snd st)) with
          | Some path, None => [(path, edit_size input)]
          | _, _ => []
          end
      end ++ admitted_edits (unit_step st e) es
  end.
Definition total_size (edits : list (P * N)) : N := fold_right (λ e n, snd e + n) 0 edits.

Lemma hunk_cost_exact op : hunk_cost op = N.min (edit_size op) U64_MAX.
Proof.
  unfold hunk_cost, edit_size, field_size. cbn [fold_left]. unfold u64_sat_add.
  destruct (str_arg op "old_text"), (str_arg op "new_text"), (str_arg op "content"); lia.
Qed.
Lemma edit_reserved p u name input path v :
  max_changed_lines p < U64_MAX → max_regions p < U64_MAX → counted u →
  edit_target u name input = Some path → check_and_reserve p name input u = (v, None) →
  path ∈ unit_files v ∧ unit_lines u + edit_size input <= unit_lines v ∧ unit_regions u + 1 <= unit_regions v.
Proof.
  intros Hml Hmr [Hcr Hcl]. unfold edit_target. destruct (bool_decide (name = txt "edit_file")) eqn:Hname; [|done].
  apply bool_decide_eq_true_1 in Hname as ->. destruct (str_arg input "path") as [candidate|] eqn:Ep; [|done].
  cbn [mbind option_bind]. destruct (normalize candidate) as [path'|] eqn:Hpath; [|done]. cbn [mbind option_bind].
  destruct (_ || _) eqn:Hours; [done|]. intros [= ->]. apply orb_false_iff in Hours as [Hscratch Hours]. unfold Envelope.check_and_reserve.
  change (bool_decide (txt "edit_file" = txt "swarm")) with false. change (bool_decide (txt "edit_file" = txt "delegate")) with false.
  change (bool_decide (txt "edit_file" ∈ [txt "read_file"; txt "read_tool_output"])) with false.
  change (bool_decide (txt "edit_file" = txt "replace_in_file")) with false.
  change (bool_decide (txt "edit_file" = txt "apply_patch")) with false.
  change (bool_decide (txt "edit_file" ∈ _)) with true. cbv iota.
  unfold reserve_operations. cbn [size_operations]. unfold size_operation. cbv zeta. rewrite Ep, Hpath, Hscratch, Hours.
  change (bool_decide (txt "edit_file" ∈ [txt "write_file"; txt "append_file"])) with false.
  change (bool_decide (txt "edit_file" = txt "apply_patch")) with false. cbn [andb orb negb]. rewrite andb_false_r, andb_true_r.
  change (hunks_of (txt "edit_file") _ input) with (Some [input]).
  destruct (_ <? _); [done|]. set (whole := if bool_decide _ then _ else _). cbn [size_hunks]. unfold size_hunk. cbv zeta. cbn [andb].
  rewrite hunk_cost_exact. destruct (_ || _) eqn:Hb; [done|]. apply orb_false_iff in Hb as [Hb _]. apply N.ltb_ge in Hb. cbn in Hb.
  match goal with |- context [match ?o with Some _ => Proposed _ | None => _ end] => destruct o as [k|] eqn:Hk end; [|done].
  assert (Hk1 : 1 <= k).
  { destruct (str_arg input "old_text"), (str_arg input "new_text"); try by injection Hk as <-.
    destruct (argument_change_regions_bounded _ _ _); [|done]. injection Hk as <-. lia. }
  destruct (over_budget _ p) eqn:Ho; [done|]. intros [= <-]. apply over_budget_within in Ho as (_ & Hr & _ & _).
  cbn in Hr |- *. clear -Hml Hmr Hcr Hcl Hb Hr Hk1. unfold u64_sat_add in *. split_and!; [set_solver|lia|lia].
Qed.
Lemma edits_spent p0 es : max_changed_lines p0 < U64_MAX → max_regions p0 < U64_MAX →
  ∀ p u, tighter p p0 → counted u → within p0 u →
  let v := snd (run_unit (p, u) es) in
  let edits := admitted_edits (p, u) es in
  unit_lines u + total_size edits <= unit_lines v ∧ unit_regions u + N.of_nat (length edits) <= unit_regions v ∧
  unit_files u ∪ list_to_set (fst <$> edits) ⊆ unit_files v ∧ within p0 v.
Proof.
  intros Hml Hmr. induction es as [|e es IH]; intros p u Hp Hc Hw; [cbn; split_and!; [lia|lia|set_solver|done]|].
  unfold run_unit. cbn [fold_left admitted_edits fst snd]. destruct e as [t|name input]; cbn [unit_step app].
  - apply IH; [|done|done]. pose proof (tightening_tighter p t). by etrans.
  - destruct (call_step p name input u Hc) as [Ha _]. cbv zeta in Ha.
    pose proof (edit_reserved p u name input) as He. destruct (check_and_reserve p name input u) as [w r] eqn:Hcall. cbn [fst snd] in *.
    assert (Hg : grown u w) by apply Ha.
    destruct (IH p w Hp (ltac:(apply Hg; done)) (admitted_within p p0 u w Hp Hw Ha)) as (Hl & Hr & Hf & Hv).
    unfold run_unit in *. destruct Hg as (Hgf & Hgr & Hgl & _).
    assert (Hskip : ∀ x, x = [] → unit_lines u + total_size (x ++ admitted_edits (p, w) es) <= unit_lines (snd (fold_left unit_step es (p, w))) ∧
      unit_regions u + N.of_nat (length (x ++ admitted_edits (p, w) es)) <= unit_regions (snd (fold_left unit_step es (p, w))) ∧
      unit_files u ∪ list_to_set (fst <$> (x ++ admitted_edits (p, w) es)) ⊆ unit_files (snd (fold_left unit_step es (p, w))) ∧
      within p0 (snd (fold_left unit_step es (p, w)))).
    { intros x ->. cbn [app]. split_and!; [lia|lia|set_solver|done]. }
    destruct (edit_target u name input) as [path|] eqn:Ht; [|by apply Hskip]. destruct r as [r|]; [by apply Hskip|].
    assert (Hp' : max_changed_lines p < U64_MAX ∧ max_regions p < U64_MAX) by (unfold tighter in Hp; lia).
    destruct (He path w (proj1 Hp') (proj2 Hp') Hc eq_refl eq_refl) as (Hin & Hel & Her).
    unfold total_size in *. cbn. split_and!; [lia|lia|set_solver|done].
Qed.

(** C18. The exact edits that one unit admits are bounded together, not one by
    one.  Among whatever calls are asked for and however the profile is tightened
    in between, take the calls of edit_file that were let through and that change
    a file of the project which the unit did not make itself: together they
    change no more lines (in old and new text, a long line counting once for
    every eighty bytes) than the profile allows, they are no more than it allows
    regions, and their files no more than it allows files.  Both limits are below
    the largest 64-bit number. *)
Theorem admitted_edits_are_bounded p0 es :
  max_changed_lines p0 < U64_MAX → max_regions p0 < U64_MAX →
  let edits := admitted_edits (p0, unit_default) es in
  total_size edits <= max_changed_lines p0 ∧ N.of_nat (length edits) <= max_regions p0 ∧
  N.of_nat (size (list_to_set (fst <$> edits) : gset P)) <= max_files p0.
Proof.
  intros Hml Hmr. destruct (edits_spent p0 es Hml Hmr p0 unit_default ltac:(done) default_counted (default_within p0))
    as (Hl & Hr & Hs & Hfiles & Hregions & Hlines & _).
  cbn [unit_default unit_lines unit_regions unit_files] in *. split_and!; [lia|lia|]. etrans; [|exact Hfiles].
  assert (Hle : (size (list_to_set (fst <$> admitted_edits (p0, unit_default) es) : gset P) <=
    size (unit_files (snd (run_unit (p0, unit_default) es))))%nat) by (apply subseteq_size; set_solver). lia.
Qed.
End unit.

(** ** A workspace for the witness: every path stands for itself *)

#[local] Instance plain_view : WorkspaceView Text :=
  {| normalize t := Some t; scratch_contains _ := false; file_len t := if bool_decide (t = txt "new.rs") then None else Some 10 |}.
Definition WIDE : WorkProfile := resolve_profile (mkCapacity 0 64000 ResolvedBudget) Strong (NO_CAPS Wide).
Definition exact_edit (path old new : Text) : UnitEvent :=
  Call (txt "edit_file") (json_object [("path"%string, JString path); ("old_text"%string, JString old); ("new_text"%string, JString new)]).
(** Two edits, with a new file and an edit of it between them. *)
Definition AT_WORK : list UnitEvent :=
  [exact_edit (txt "a.rs") (text_lines ["one"; "two"]) (text_lines ["ONE"; "two"]);
   Call (txt "write_file") (json_object [("path"%string, JString (txt "new.rs")); ("content"%string, JString (txt "x"))]);
   exact_edit (txt "new.rs") (txt "x") (txt "y");
   exact_edit (txt "b.rs") (text_lines ["x"]) (text_lines ["y"; "z"])]%string.
Lemma admitted_edits_are_bounded_witness :
  admitted_edits (λ _, []) (WIDE, unit_default) AT_WORK = [(txt "a.rs", 4); (txt "b.rs", 3)] ∧ 4 + 3 <= max_changed_lines WIDE.
Proof.
  assert (Hedits : admitted_edits (λ _, []) (WIDE, unit_default) AT_WORK = [(txt "a.rs", 4); (txt "b.rs", 3)]) by (vm_compute; reflexivity).
  split; [exact Hedits|].
  destruct (admitted_edits_are_bounded (λ _, []) WIDE AT_WORK ltac:(by vm_compute) ltac:(by vm_compute)) as [Hl _].
  rewrite Hedits in Hl. exact Hl.
Defined.
